(* ===== verification/_CoqProject ===== *)
-Q . S2P
Prelude.v
Bits.v
ListH.v
Radix.v
RadixLaws.v
Libk.v
Spinlock.v
Barrier.v
Mcs.v
McsBarrier.v
Sched.v
SchedInv.v
SchedSys.v
Ring.v
Kfifo.v
Mwmr.v
Keysdb.v
Heap.v
Kcm.v
Rbtree.v
RbShape.v
RbInsert.v
RbErase.v
RbSpec.v
Pmm.v
PmmSpec.v
Fat.v
FatSpec.v
FatChain.v
FatStore.v
FatDir.v
FatDirSpec.v
FatDirMap.v
FatDirStore.v
FatDirRound.v
FatFile.v
FatFileSpec.v
FatReaddir.v
FatMount.v
VfsFile.v
VfsFileSpec.v
Mapper.v
MapperTree.v
Blkio.v
Event.v
Alarm.v
EventRemote.v
VmRegion.v
VmRegionInv.v
VmRegionSpec.v
WaitQueue.v
Semaphore.v
RwLock.v
CondVar.v
Page.v
Fault.v
FaultInv.v
FaultTables.v
FaultSpec.v
FaultFork.v
CowSpec.v
FaultHandler.v
Ppm.v
PpmInv.v
PpmAlloc.v
PpmSpec.v
