(* ===== verification/Prelude.v ===== *)
(** * Verification of the ALMOS kernel

    ALMOS is a small operating system for many-core machines of 32-bit MIPS clusters.  This
    library models the core of its kernel ([src/kernel]) as executable definitions and proves
    what makes each part correct.  The user libraries ([src/sys]) are outside of its scope.

    ** Parts and files

    The kernel gives each cluster of processors its own memory managers and synchronises its
    threads with objects built on wait queues; both are built on a few libraries.

    - [Prelude]: machine integers of 32 bits ([u32], [s32] and the operators [+!], [-!], ...),
      tables indexed by integers ([zget], [zset], [zlen]), error numbers, tactics and hints.
    - [Bits]: [libk/bits.c] and [bits.h], bitmaps as lists of words.
    - [ListH]: [libk/list.h], the intrusive doubly linked lists over a store of links, and the
      sequences they stand for.
    - [Libk]: [memcpy.c], [memset.c], the [str*.c] files, [ctype.c] and [atoi.c] over a byte memory.
    - [Radix], [RadixLaws]: [kern/radix.c], the radix trees of the page caches, over a heap of
      nodes; the finite map a tree stands for.
    - [Keysdb]: [kern/keysdb.c], the two-level table from keys to pointers.
    - [Ring], [Kfifo], [Mwmr]: circular buffers, the lock-free FIFO of [kern/kfifo.c] and the byte
      channels of [kern/mwmr.c].
    - [Page], [Ppm], [PpmInv], [PpmAlloc], [PpmSpec]: [mm/page.c] and the buddy allocator of
      [mm/ppm.c]; its invariant, its operations against the invariant, and its contract.
    - [Rbtree], [RbShape], [RbInsert], [RbErase], [RbSpec]: [libk/rbtree.c], red-black trees of nodes with parent
      pointer and colour in one word; the tree around a node as a zipper over the store of the nodes; insertion and
      removal; the sequence that a tree stands for.
    - [Pmm], [PmmSpec]: [arch/tsar/pmm.c], the two-level page tables of an address space, as a map from
      pages to entries.
    - [VmRegion], [VmRegionInv], [VmRegionSpec]: [mm/vm_region.c], the regions of an address space, in a tree
      ([Rbtree]) and in a list ([ListH]).
    - [Fault], [FaultInv], [FaultTables], [FaultSpec], [FaultFork], [CowSpec]: page faults of [mm/vmm.c], copy on write,
      duplication and removal of the pages of a region; the reference counts of frames over the entries of all tasks; the page
      tables as entries; each operation; the contract, a memory of its own for every task.
    - [FaultHandler]: [vmm_fault_handler], over [Keysdb], [VmRegion] and [Fault].
    - [Kcm]: [mm/kcm.c], the caches of objects cut from pages.
    - [Heap]: [mm/heap_manager.c], the first-fit heap.
    - [WaitQueue]: [kern/wait_queue.c], with the interface (class [WaitQueueLaws]) that its users are
      verified against and the instance that implements it over [ListH].
    - [Semaphore], [RwLock], [CondVar]: [kern/semaphore.c], [kern/rwlock.c], [kern/cond_var.c], over the
      interface of the wait queues.
    - [Spinlock]: [kern/spinlock.c], cut at the accesses to the word of the lock.  The other files take the
      critical section of a spinlock as one step.
    - [Barrier]: [kern/barrier.c], over [Spinlock].
    - [Mcs], [McsBarrier]: [kern/mcs_sync.c], ticket locks and spinning barriers, cut at their accesses to memory.
    - [Event], [EventRemote]: [kern/event.c], the events of a processor by priority, and those that other processors send
      through FIFOs with several writers ([Kfifo]) and a flag that they share without a lock.
    - [Alarm]: the alarms of [kern/time.c].
    - [Blkio]: [kern/blkio.c], the requests of a page to a block device.
    - [Mapper], [MapperTree]: [mm/mapper.c], the cache of the pages of a file; the protocol by which many threads load and share its pages, over a finite map; the
      sections of the code with loads, failures and migrations over the tree of [Radix], which implement the protocol for the mappers of files.
    - [Fat], [FatSpec], [FatChain], [FatStore]: the file allocation table of [fs/fat32/fat32_access.c]; its words as entries of clusters; files as
      chains of clusters; its contract, a store of files.
    - [FatDir], [FatDirSpec], [FatDirMap], [FatDirStore], [FatDirRound]: the directories of [fs/fat32/fat32_node.c]; names and slots; the entries
      as a finite map; their contract over the store of files; creation followed by lookup.
    - [FatFile], [FatFileSpec], [FatReaddir], [FatMount]: [fs/fat32/fat32_file.c], [fat32_mapper.c] and [fat32_context.c], the seek of a file, the sectors of its
      pages, the listing of a directory, the parameters of a volume.
    - [VfsFile], [VfsFileSpec]: reading, writing and seeking of [vfs/vfs.c] and [vfs/vfs_file.c] over the pages of a file; a file as bytes with a position.
    - [Sched], [SchedInv], [SchedSys]: [kern/scheduler.c] and the round-robin policy of [kern/rr-sched.c]; the
      places of the threads of a processor and the operations against them; the system of the scheduler and
      its clients, with the protocol that wait queues, semaphores and locks follow when they sleep and wake.

    A C structure is a record with the fields of the source, a pointer an integer or the key of
    a map, [NULL] is 0 or [None].  A function is a definition of the same name that takes and
    returns the state it changes; its result is [None] when the C code would leave a table or
    follow a dangling pointer, so a theorem that gives [Some] also says that this does not
    happen.  Answers of other parts (an allocation that may fail, the contents of a new page) are
    arguments.

    ** Theorems

    - Memory: the buddy allocator implements its contract for every sequence of requests
      ([ppm_implements_contract]), with boot, completeness, round trip, coalescing, exact counting and
      address conversions; a cache hands out disjoint blocks and takes them back
      ([kcm_contract], [kcm_init_correct]); the heap keeps the regions of its clients disjoint
      ([heap_regions_disjoint]).
    - Virtual memory: copy on write over shared frames gives every task a memory of its own ([cow_private_memory]); the fault handler
      finds the region of an address and keeps its cache ([vmm_fault_dispatch]); regions are made well-formed ([vm_region_init_typed]),
      found in logarithmic time as in the list ([vm_region_find_equiv]) and attached in order ([vm_region_attach_first_fit],
      [vm_region_attach_fixed]); page tables are a map ([pmm_tables_refine], [pmm_huge_and_release]).
    - Synchronisation, over step relations in which threads interleave at the points where the
      code lets them: semaphores ([sem_mutual_exclusion], [sem_grants_exact]), read-write locks
      ([rwlock_exclusion], [rwlock_no_lost_wakeup]), condition variables ([cv_wait_atomic],
      [cv_signal_fifo]), page locks ([page_lock_exclusive]), the FIFO between one producer and one
      consumer ([kfifo_swsr_fifo]), spinlocks ([spinlock_exclusion]), barriers ([barrier_rounds]), ticket locks and spinning barriers
      ([mcs_lock_fifo], [mcs_barrier_rounds]).
    - Events and time: events are neither lost nor duplicated ([events_delivered]), come by priority ([events_by_priority]) and are seen on other
      processors ([remote_events_seen]); alarms fire once, at their time ([alarm_exact]).
    - Files: the FAT32 table is a store of files ([fat_implements_store]) and its directories a map from names to entries ([fat_directory_map]), in which what is created is found
      again ([fat_create_lookup]) and listed once ([fat_listing_exact]); the pages of a file go to the sectors of its chain ([fat_page_transfer]), with the geometry that a valid volume
      gives ([fat_mount_geometry]); pages are loaded once and shared ([mapper_page_cache]) by requests that complete ([blkio_sync_completes]); an open file is a sequence of bytes
      with a position ([vfs_file_bytes]).
    - Scheduling: queues and counters are exact and every operation is defined ([sched_queues_exact]), no
      wake-up is lost ([sched_no_lost_wakeup]), ready threads run in turn ([sched_round_robin]), threads have
      identifiers and ports of their own ([sched_register_ids]).
    - Containers refine what they stand for: lists ([lists_refine_sequences]), red-black trees ([rb_insert_correct],
      [rb_erase_correct], [rb_walk_in_order]), radix trees
      ([radix_insert_refines]), keys ([keysdb_finite_map]), channels ([mwmr_bounded_queue]), FIFO
      ([kfifo_queue]), bitmaps ([bitmap_ranges], [bitmap_searches]), dirty pages ([dirty_list_exact]).
    - Libraries: [memcpy_correct], [memset_correct], [strings_correct].
    - Where the code fails on some inputs, the theorem excludes them by a named hypothesis or says what happens there, and its comment says which: the layout of caches and
      the bits of their new pages ([kcm_contract]), requests of 2^31 bytes and more ([heap_regions_disjoint]), copies without a frame and migrations ([cow_private_memory]), the
      limit of a region ([vmm_fault_dispatch]), gaps of exactly the size of a region ([vm_region_attach_first_fit]), huge pages ([pmm_tables_refine]), heaps and
      huge pages ([vm_region_init_typed]), entries that leave their page ([fat_directory_map]), names longer than 8.3 ([fat_create_lookup]), the first cluster of a file
      ([fat_page_transfer]), accesses across the end of a page ([vfs_file_bytes]), deletions from the tree that lose other pages and the migrations of mappers without a file
      ([mapper_page_cache]), sends at the head of a queue ([events_delivered]), cells published before they are filled ([remote_events_seen]), kernel threads and
      forced yields ([sched_round_robin]).
    - Behaviours that differ from what the code means are theorems too, many on concrete inputs:
      [ppm_init_partial_block], [radix_shrink_loses_leaf], [radix_tags_lost], [radix_delete_uninitialised],
      [sem_init_stale_owner], [memcpy_returned_pointer], [atoi_hangs], [kfifo_mw_reads_unwritten],
      [kfifo_mw_busy_publishes], [heap_malloc_incomplete], [heap_malloc_overflow], [kcm_small_blocks_overrun],
      [kcm_dirty_page_overrun], [kcm_dtor_misplaced], [spinlock_rdlock_not_exclusive], [private_barrier_broken],
      [rr_elect_counter_drifts], [pmm_set_over_huge], [pmm_attr_set_huge_ignored], [vm_region_fixed_overlap], [vm_region_solve_wraps],
      [cow_enomem_shares], [cow_enomem_frees], [migrate_frees_shared], [dup_skips_migrating], [dup_skips_last_page], [sbrk_unbounded],
      [fault_at_limit], [remote_ipi_skipped], [remote_order_reversed], [alarm_wraps], [blkio_submit_error_lost], [mapper_migrate_dangling],
      [mapper_stale_inload], [mapper_enomem_is_eio], [mapper_abort_loses_page], [remote_event_lost], [vm_region_exact_gap_skipped], [vfat_alloc_no_wrap], [vfat_extend_stale], [vfat_device_becomes_fifo], [vfat_unlink_past_page],
      [vfat_write_past_page], [vfat_extension_not_padded], [vfat_long_name_lost], [vfat_first_page_elsewhere], [vfat_read_keeps_junk], [vfat_root_size],
      [vfs_read_crosses_page], [vfs_write_crosses_page], [vfs_lseek_not_back], [vfs_write_error_positive].

    ** Bounds and fuel

    Loops that are not structural take a fuel, computed from the state where the code has a
    bound: the blocks of a heap have at least 64 bytes ([heap_fuel]), a radix tree has at most
    [LEVELS] levels, a free list is filled up to the middle of its two marks, a red-black
    tree has no more levels than nodes ([tree_fuel]).  The chains of the FAT32 table take the number of its entries, the searches of
    a directory the number of its pages, and the loops of reads and writes the number of bytes.  The theorems say
    that the fuel is enough.  String routines take it as an argument, and their theorems ask for
    the length of the string.  Sizes and counters are integers of 32 bits with wrap-around, and
    the hypotheses give the ranges in which they do not wrap.

    ** Not modelled

    Signals, tasks, the creation and the migration of threads, the times that the scheduler and the
    barriers keep, the placement of pages over clusters, the mapping of files and the duplication of whole address spaces
    (the loops over the pages of their regions are modelled), the searches of several pages and the tags of mappers, the paths and the cache of nodes of the virtual file system, the file systems other than FAT32, the system calls around the modelled operations, drivers, assembly and boot
    code.  MD5 comes from another project.  Page faults run one at a time: the code holds
    the lock of the page or of the entry from the read of an entry to its write.  Caches of the processor are
    coherent in the model: invalidations and write barriers have no effect on the contents of
    memory. *)

From Stdlib Require Export ZArith Lia Bool.
From stdpp Require Export base tactics functions list gmap fin_maps.

#[export] Set Default Goal Selector "!".
Open Scope Z_scope.

(** * Shared notations, automation and generic lemmas *)

(** ** Machine integers

    The kernel is built for 32-bit MIPS ([kernel/cpu/mipsel]): [uint_t] is an
    [unsigned long] and [sint_t] a [signed long], both 32 bits wide.  A machine
    integer is a [Z]; [u32] and [s32] are the conversions that unsigned and
    signed arithmetic apply to a mathematical result. *)

Definition W : Z := 32.
Definition u32 (z : Z) : Z := z mod 2 ^ 32.
Definition s32 (z : Z) : Z := (z + 2 ^ 31) mod 2 ^ 32 - 2 ^ 31.

Declare Scope cint_scope.
Delimit Scope cint_scope with cint.
Notation "a +! b" := (u32 (a + b)) (at level 50, left associativity) : cint_scope.
Notation "a -! b" := (u32 (a - b)) (at level 50, left associativity) : cint_scope.
Notation "a *! b" := (u32 (a * b)) (at level 40, left associativity) : cint_scope.
Notation "a <<! b" := (u32 (Z.shiftl a b)) (at level 30, no associativity) : cint_scope.
Notation "~! a" := (u32 (Z.lnot a)) (at level 35, right associativity) : cint_scope.
Open Scope cint_scope.

(** [is_u32 z]: [z] is a value of type [uint_t]. *)
Definition is_u32 (z : Z) : Prop := 0 <= z < 2 ^ 32.
#[export] Instance is_u32_dec z : Decision (is_u32 z).
Proof. unfold is_u32. apply _. Defined.

Create HintDb kernel discriminated.

(** ** Error numbers of [libk/errno.h] *)

Definition EPERM : Z := 1.
Definition EIO : Z := 5.
Definition EAGAIN : Z := 11.
Definition ENOMEM : Z := 12.
Definition EBUSY : Z := 16.
Definition EEXIST : Z := 17.
Definition EINVAL : Z := 22.
Definition EDEADLK : Z := 35.
Definition ENOSYS : Z := 38.

(** ** Tactics *)

(** Split every conjunction of the context and of the goal. *)
Ltac dand := repeat match goal with H : _ /\ _ |- _ => destruct H end.

(** Case analysis on the boolean comparisons of [Z] that occur in the goal. *)
Ltac zcases :=
  repeat match goal with
  | |- context [Z.eqb ?a ?b] => destruct (Z.eqb_spec a b); subst
  | |- context [Z.ltb ?a ?b] => destruct (Z.ltb_spec a b)
  | |- context [Z.leb ?a ?b] => destruct (Z.leb_spec a b)
  end.

(** Push [Z.testbit] through the bitwise operators; side conditions by [lia]. *)
Lemma testbit_u32 z n : 0 <= n < 32 -> Z.testbit (u32 z) n = Z.testbit z n.
Proof. intros. unfold u32. apply Z.mod_pow2_bits_low. lia. Qed.

Lemma testbit_u32_high z n : 32 <= n -> Z.testbit (u32 z) n = false.
Proof. intros. unfold u32. apply Z.mod_pow2_bits_high. lia. Qed.

Lemma testbit_is_u32_high z n : is_u32 z -> 32 <= n -> Z.testbit z n = false.
Proof.
  intros [Hl Hu] Hn. rewrite <- (Z.mod_small z (2 ^ 32)) by lia.
  apply Z.mod_pow2_bits_high. lia.
Qed.

Lemma testbit_one_shift k n : 0 <= k -> 0 <= n ->
  Z.testbit (Z.shiftl 1 k) n = (n =? k).
Proof.
  intros. rewrite Z.shiftl_1_l.
  destruct (Z.eqb_spec n k); subst.
  - apply Z.pow2_bits_true; lia.
  - apply Z.pow2_bits_false; lia.
Qed.

Lemma testbit_low_mask k n : 0 <= k -> 0 <= n ->
  Z.testbit (Z.shiftl 1 k - 1) n = (n <? k).
Proof.
  intros. rewrite Z.shiftl_1_l, Z.sub_1_r, <- Z.ones_equiv.
  destruct (Z.ltb_spec n k).
  - apply Z.ones_spec_low; lia.
  - apply Z.ones_spec_high; lia.
Qed.

(** ** Bounds of machine values *)

Lemma u32_bound z : is_u32 (u32 z).
Proof. unfold u32, is_u32. apply Z.mod_pos_bound. lia. Qed.

Lemma s32_small z : - 2 ^ 31 <= z < 2 ^ 31 -> s32 z = z.
Proof. intros. unfold s32. rewrite Z.mod_small by lia. lia. Qed.

Lemma u32_small z : is_u32 z -> u32 z = z.
Proof. intros. apply Z.mod_small. exact H. Qed.

Lemma is_u32_bits z : 0 <= z -> (forall n, 32 <= n -> Z.testbit z n = false) -> is_u32 z.
Proof.
  intros Hz Hb. split; [lia|].
  destruct (Z.lt_ge_cases z (2 ^ 32)) as [|Hge]; [lia|exfalso].
  assert (Hlog : 32 <= Z.log2 z) by (apply Z.log2_le_pow2; lia).
  specialize (Hb (Z.log2 z) Hlog). rewrite Z.bit_log2 in Hb by lia. discriminate.
Qed.

Lemma is_u32_lor a b : is_u32 a -> is_u32 b -> is_u32 (Z.lor a b).
Proof.
  intros Ha Hb. apply is_u32_bits.
  - apply Z.lor_nonneg. unfold is_u32 in *. lia.
  - intros n Hn. rewrite Z.lor_spec, !testbit_is_u32_high by auto. reflexivity.
Qed.

Lemma is_u32_land a b : is_u32 a -> 0 <= b -> is_u32 (Z.land a b).
Proof.
  intros Ha Hb. apply is_u32_bits.
  - apply Z.land_nonneg. lia.
  - intros n Hn. rewrite Z.land_spec, testbit_is_u32_high by auto. reflexivity.
Qed.

#[export] Hint Resolve u32_bound is_u32_lor is_u32_land : kernel.
#[export] Hint Extern 2 (0 <= u32 _) => apply u32_bound : kernel.

(** ** Lists indexed by a machine integer *)

(** [t[i]] for a table [t] and an unsigned index: [None] is an access outside
    of the table. *)
Definition zget {A} (t : list A) (i : Z) : option A := t !! Z.to_nat i.
Definition zset {A} (t : list A) (i : Z) (x : A) : list A := <[Z.to_nat i := x]> t.
Definition zlen {A} (t : list A) : Z := Z.of_nat (length t).

Section ZLists.
Context {A : Type}.
Implicit Types (t : list A) (i j : Z) (x : A).

Lemma zget_Some_lt t i x : 0 <= i -> zget t i = Some x -> i < zlen t.
Proof. intros ? H. apply lookup_lt_Some in H. unfold zlen. lia. Qed.

Lemma zget_is_Some t i : 0 <= i < zlen t -> exists x, zget t i = Some x.
Proof. intros. unfold zlen in *. apply lookup_lt_is_Some_2. lia. Qed.

Lemma zget_None t i : zlen t <= i -> zget t i = None.
Proof. intros. apply lookup_ge_None_2. unfold zlen in *. lia. Qed.

Lemma zget_zset_eq t i x : 0 <= i < zlen t -> zget (zset t i x) i = Some x.
Proof. intros. apply list_lookup_insert_eq. unfold zlen in *. lia. Qed.

Lemma zget_zset_ne t i j x : 0 <= i -> 0 <= j -> i <> j -> zget (zset t i x) j = zget t j.
Proof. intros. apply list_lookup_insert_ne. lia. Qed.

Lemma zlen_zset t i x : zlen (zset t i x) = zlen t.
Proof. unfold zlen, zset. rewrite length_insert. reflexivity. Qed.

Lemma zlen_nonneg t : 0 <= zlen t.
Proof. unfold zlen. lia. Qed.

Lemma Forall_zset (P : A -> Prop) t i x : Forall P t -> P x -> Forall P (zset t i x).
Proof. intros. apply Forall_insert; assumption. Qed.

Lemma Forall_zget (P : A -> Prop) t i x : Forall P t -> zget t i = Some x -> P x.
Proof. intros HF Hx. eapply Forall_lookup_1; eassumption. Qed.
End ZLists.

Lemma zlen_app {A} (l1 l2 : list A) : zlen (l1 ++ l2) = zlen l1 + zlen l2.
Proof. unfold zlen. rewrite length_app. lia. Qed.
Lemma zlen_cons {A} (x : A) l : zlen (x :: l) = zlen l + 1.
Proof. unfold zlen. simpl. lia. Qed.

Lemma zlen_seqZ i n : 0 <= n -> zlen (seqZ i n) = n.
Proof. intros. unfold zlen. rewrite length_seqZ. lia. Qed.

(** ** Counting with [filter] *)

Section Count.
Context {A : Type} (P Q : A -> Prop) `{!forall k, Decision (P k)} `{!forall k, Decision (Q k)}.

Lemma filter_same (l : list A) : (forall y, y ∈ l -> P y <-> Q y) -> filter P l = filter Q l.
Proof.
  induction l as [|y l IH]; intros HPQ; [done|].
  assert (E : filter P l = filter Q l) by (apply IH; intros; apply HPQ; apply elem_of_cons; auto).
  assert (Hy : P y <-> Q y) by (apply HPQ, elem_of_cons; auto).
  rewrite !filter_cons, E. destruct (decide (P y)), (decide (Q y)); tauto.
Qed.

(** Two predicates that differ at one element of a list *)
Lemma filter_flip (l : list A) x : NoDup l -> x ∈ l -> P x -> ~ Q x -> (forall y, y ∈ l -> y <> x -> P y <-> Q y) ->
  zlen (filter P l) = zlen (filter Q l) + 1.
Proof.
  intros Hnd Hx HP HQ. induction Hnd as [|y l Hy Hnd IH]; intros Heq; [apply not_elem_of_nil in Hx; done|].
  apply elem_of_cons in Hx as [<-|Hx].
  - rewrite (filter_cons_True P), (filter_cons_False Q), zlen_cons by done. do 2 f_equal.
    apply filter_same. intros z Hz. apply Heq; [apply elem_of_cons; auto|]. intros ->. done.
  - assert (y <> x) by congruence.
    assert (Hyy : P y <-> Q y) by (apply Heq; [apply elem_of_cons|]; auto).
    assert (E : zlen (filter P l) = zlen (filter Q l) + 1)
      by (apply IH; [done|]; intros; apply Heq; [apply elem_of_cons|]; auto).
    rewrite !filter_cons. destruct (decide (P y)), (decide (Q y)); try tauto. rewrite !zlen_cons. lia.
Qed.
End Count.

Lemma filter_all {A} (l : list A) : filter (fun _ => True) l = l.
Proof. induction l as [|y l IH]; [done|]. rewrite filter_cons_True, IH by done. done. Qed.

(** The place of an element in a list without duplicates *)
Lemma nodup_split {A} (l1 l2 k1 k2 : list A) a : NoDup (l1 ++ a :: l2) -> l1 ++ a :: l2 = k1 ++ a :: k2 -> l1 = k1 /\ l2 = k2.
Proof.
  revert k1. induction l1 as [|x l1 IH]; intros [|y k1]; simpl; intros Hn Heq.
  - injection Heq as <-. done.
  - injection Heq as <- ->. apply NoDup_cons in Hn as [Hn _]. exfalso. apply Hn. set_solver.
  - injection Heq as -> Heq. apply NoDup_cons in Hn as [Hn _]. exfalso. apply Hn. set_solver.
  - injection Heq as <- Heq. apply NoDup_cons in Hn as [_ Hn]. destruct (IH k1 Hn Heq) as [-> ->]. done.
Qed.

Lemma u32_add_l a b : u32 (u32 a + b) = u32 (a + b).
Proof. unfold u32. rewrite Zplus_mod_idemp_l. done. Qed.
Lemma u32_sub_l a b : u32 (u32 a - b) = u32 (a - b).
Proof. unfold u32. rewrite Zminus_mod_idemp_l. done. Qed.

Create Rewrite HintDb kernel_rw.
#[export] Hint Rewrite @zlen_zset : kernel_rw.
#[export] Hint Resolve Forall_zset zlen_nonneg : kernel.
