(* ===== verification/Bits.v ===== *)
(** * Bits: the bitmaps and bit counters of [kernel/libk/bits.c] and [bits.h]

    A bitmap is a table of [uint_t] words.  [bit bm k] is bit [k] of the map; the
    theorems describe every operation by its effect on that function, and the
    search loops by the least index they return. *)

From S2P Require Import Prelude.

(** ** Data *)

Definition bitmap_t := list Z.

(** [__CPU_WIDTH], [8*sizeof(uint_t)] *)
Definition CPU_WIDTH : Z := W.

(** ** Operations *)

Definition ARROUND_UP (val size : Z) : Z :=
  if negb (Z.land val (size -! 1) =? 0)
  then (Z.land val (~! (size -! 1))) +! size
  else val.

Definition ARROUND_DOWN (val size : Z) : Z := Z.land val (~! (size -! 1)).

Definition bitmap_set (bitmap : bitmap_t) (index : Z) : option bitmap_t :=
  let i := index / CPU_WIDTH in
  let index := index mod CPU_WIDTH in
  w ← zget bitmap i;
  Some (zset bitmap i (Z.lor w (1 <<! index))).

Definition bitmap_clear (bitmap : bitmap_t) (index : Z) : option bitmap_t :=
  let i := index / CPU_WIDTH in
  let index := index mod CPU_WIDTH in
  w ← zget bitmap i;
  Some (zset bitmap i (Z.land w (~! (1 <<! index)))).

Definition bitmap_state (bitmap : bitmap_t) (index : Z) : option Z :=
  let i := index / CPU_WIDTH in
  let index := index mod CPU_WIDTH in
  w ← zget bitmap i;
  Some (if negb (Z.land w (1 <<! index) =? 0) then 1 else 0).

(** The mask of the first branch of the range loops:
    [val = (index == 0) ? -1UL : (1UL << (__CPU_WIDTH - index)) - 1UL]. *)
Definition range_val (index : Z) : Z :=
  if index =? 0 then u32 (-1) else (1 <<! (CPU_WIDTH - index)) -! 1.

(** The [while] loop of [bitmap_set_range]; [fuel] bounds the iterations. *)
Fixpoint set_range_loop (fuel : nat) (bitmap : bitmap_t) (i index len : Z) : option bitmap_t :=
  match fuel with
  | O => None
  | S fuel =>
      if 0 <? len then
        if CPU_WIDTH <=? len +! index then
          w ← zget bitmap i;
          set_range_loop fuel (zset bitmap i (Z.lor w (range_val index <<! index)))
            (i +! 1) 0 (s32 (len - (CPU_WIDTH - index)))
        else
          w ← zget bitmap i;
          Some (zset bitmap i (Z.lor w (((1 <<! len) -! 1) <<! index)))
      else Some bitmap
  end.

Definition bitmap_set_range (bitmap : bitmap_t) (index len : Z) : option bitmap_t :=
  set_range_loop (S (Z.to_nat len)) bitmap (u32 index / CPU_WIDTH) (u32 index mod CPU_WIDTH) len.

Fixpoint clear_range_loop (fuel : nat) (bitmap : bitmap_t) (i index len : Z) : option bitmap_t :=
  match fuel with
  | O => None
  | S fuel =>
      if 0 <? len then
        if CPU_WIDTH <=? len +! index then
          w ← zget bitmap i;
          clear_range_loop fuel (zset bitmap i (Z.land w (~! (range_val index <<! index))))
            (i +! 1) 0 (s32 (len - (CPU_WIDTH - index)))
        else if negb (len =? 0) then
          w ← zget bitmap i;
          Some (zset bitmap i (Z.land w (~! (((1 <<! len) -! 1) <<! index))))
        else clear_range_loop fuel bitmap i index len
      else Some bitmap
  end.

Definition bitmap_clear_range (bitmap : bitmap_t) (index len : Z) : option bitmap_t :=
  clear_range_loop (S (Z.to_nat len)) bitmap (u32 index / CPU_WIDTH) (u32 index mod CPU_WIDTH) len.

(** *** Searches

    The four searches share two loops.  [scan_word p w j n] is the inner
    [for(; j < __CPU_WIDTH; j++)] over the [n] bits of [w] from [j] on, with [p]
    the tested value of the bit; [scan_words skip p] is the outer
    [for(; i < size/__CPU_WIDTH; i++)] with its [bitmap[i] != skip] guard. *)

Fixpoint scan_word (p : bool) (w j : Z) (n : nat) : option Z :=
  match n with
  | O => None
  | S n => if Bool.eqb (negb (Z.land w (1 <<! j) =? 0)) p then Some j
           else scan_word p w (j + 1) n
  end.

Fixpoint scan_words (skip : Z) (p : bool) (bitmap : bitmap_t) (i : Z) (n : nat) : option Z :=
  match n with
  | O => Some (-1)
  | S n =>
      w ← zget bitmap i;
      if negb (w =? skip) then
        match scan_word p w 0 32 with
        | Some j => Some (s32 (i * CPU_WIDTH + j))
        | None => scan_words skip p bitmap (i + 1) n
        end
      else scan_words skip p bitmap (i + 1) n
  end.

(** Number of words below [size] bytes that a loop starting at word [i] visits. *)
Definition words_from (size i : Z) : nat := Z.to_nat ((size <<! 3) / CPU_WIDTH - i).

Definition scan2 (skip : Z) (p : bool) (bitmap : bitmap_t) (index size : Z) : option Z :=
  let i := index / CPU_WIDTH in
  let j := index mod CPU_WIDTH in
  if negb (j =? 0) then
    w ← zget bitmap i;
    match scan_word p w j (Z.to_nat (CPU_WIDTH - j)) with
    | Some j => Some (s32 (i * CPU_WIDTH + j))
    | None => scan_words skip p bitmap (i + 1) (words_from size (i + 1))
    end
  else scan_words skip p bitmap i (words_from size i).

Definition bitmap_ffs2 (bitmap : bitmap_t) (index size : Z) : option Z :=
  scan2 0 true bitmap index size.
Definition bitmap_ffc2 (bitmap : bitmap_t) (index size : Z) : option Z :=
  scan2 (u32 (-1)) false bitmap index size.
Definition bitmap_ffs (bitmap : bitmap_t) (size : Z) : option Z :=
  scan_words 0 true bitmap 0 (words_from size 0).
Definition bitmap_ffc (bitmap : bitmap_t) (size : Z) : option Z :=
  scan_words (u32 (-1)) false bitmap 0 (words_from size 0).

(** [for(i=0; val > 0; i++) val = val >> 1;]: 32 steps empty any [uint_t]. *)
Fixpoint bits_nr_loop (fuel : nat) (i val : Z) : Z :=
  match fuel with
  | O => i
  | S fuel => if 0 <? val then bits_nr_loop fuel (i +! 1) (Z.shiftr val 1) else i
  end.
Definition bits_nr (val : Z) : Z := bits_nr_loop 32 0 val.
Definition bits_log2 (val : Z) : Z := if val =? 0 then 1 else bits_nr val -! 1.

(** ** Specification *)

Definition bit (bm : bitmap_t) (k : Z) : bool :=
  Z.testbit (default 0 (zget bm (k / W))) (k mod W).

(** Every word is a [uint_t], and bit indexes fit a [sint_t]. *)
Definition bitmap_wf (bm : bitmap_t) : Prop :=
  Forall is_u32 bm /\ W * zlen bm < 2 ^ 31.

#[export] Instance bitmap_wf_dec bm : Decision (bitmap_wf bm).
Proof. unfold bitmap_wf. apply _. Defined.

(** *** Masks *)

Lemma testbit_shl1 k n : 0 <= k < 32 -> 0 <= n < 32 -> Z.testbit (1 <<! k) n = (n =? k).
Proof. intros. rewrite testbit_u32 by lia. apply testbit_one_shift; lia. Qed.

Lemma shl1_pos k : 0 <= k < 32 -> 1 <= Z.shiftl 1 k < 2 ^ 32.
Proof.
  intros. rewrite Z.shiftl_1_l. split.
  - change 1 with (2 ^ 0). apply Z.pow_le_mono_r; lia.
  - apply Z.pow_lt_mono_r; lia.
Qed.

Lemma testbit_mask k n : 0 <= k < 32 -> 0 <= n < 32 ->
  Z.testbit ((1 <<! k) -! 1) n = (n <? k).
Proof.
  intros. pose proof (shl1_pos k ltac:(lia)).
  rewrite testbit_u32 by lia. rewrite (u32_small (Z.shiftl 1 k)) by (unfold is_u32; lia).
  apply testbit_low_mask; lia.
Qed.

Lemma testbit_range_mask len index n : 0 <= len < 32 -> 0 <= index < 32 -> 0 <= n < 32 ->
  Z.testbit (((1 <<! len) -! 1) <<! index) n = (index <=? n) && (n <? index + len).
Proof.
  intros. rewrite testbit_u32, Z.shiftl_spec by lia.
  destruct (Z.leb_spec index n); simpl.
  - rewrite testbit_mask by lia. zcases; lia.
  - apply Z.testbit_neg_r. lia.
Qed.

Lemma testbit_range_val index n : 0 <= index < 32 -> 0 <= n < 32 ->
  Z.testbit (range_val index <<! index) n = (index <=? n).
Proof.
  intros. rewrite testbit_u32, Z.shiftl_spec by lia.
  destruct (Z.leb_spec index n); [|apply Z.testbit_neg_r; lia].
  unfold range_val, CPU_WIDTH, W. destruct (Z.eqb_spec index 0).
  - rewrite testbit_u32 by lia. apply Z.bits_m1. lia.
  - rewrite testbit_mask by lia. zcases; lia.
Qed.

(** *** Word updates *)

Lemma bit_zset bm i w k : 0 <= i < zlen bm -> 0 <= k ->
  bit (zset bm i w) k = if k / W =? i then Z.testbit w (k mod W) else bit bm k.
Proof.
  intros. unfold bit. assert (0 <= k / W) by (apply Z.div_pos; unfold W; lia).
  destruct (Z.eqb_spec (k / W) i) as [->|].
  - rewrite zget_zset_eq by lia. reflexivity.
  - rewrite zget_zset_ne by lia. reflexivity.
Qed.

Lemma bit_word bm i w k : zget bm i = Some w -> k / W = i ->
  bit bm k = Z.testbit w (k mod W).
Proof. intros Hw <-. unfold bit. rewrite Hw. reflexivity. Qed.

Lemma bitmap_wf_zset bm i w : bitmap_wf bm -> is_u32 w -> bitmap_wf (zset bm i w).
Proof.
  intros [] ?. split; [auto with kernel|]. autorewrite with kernel_rw. assumption.
Qed.
#[export] Hint Resolve bitmap_wf_zset : kernel.

Lemma bitmap_wf_word bm i w : bitmap_wf bm -> zget bm i = Some w -> is_u32 w.
Proof. intros []. eapply Forall_zget. eassumption. Qed.
#[export] Hint Resolve bitmap_wf_word : kernel.

(** Facts on the word and the offset of a bit index. *)
Ltac bitpos k :=
  pose proof (Z.div_mod k W ltac:(unfold W; lia));
  pose proof (Z.mod_pos_bound k W ltac:(unfold W; lia));
  assert (0 <= k -> 0 <= k / W) by (intros; apply Z.div_pos; unfold W; lia).

Lemma testbit_lnot_u32 z n : 0 <= n < 32 -> Z.testbit (~! z) n = negb (Z.testbit z n).
Proof. intros. rewrite testbit_u32, Z.lnot_spec by lia. reflexivity. Qed.

(** *** Single bits *)

Lemma bitmap_set_bit bm k : bitmap_wf bm -> 0 <= k < W * zlen bm ->
  exists bm', bitmap_set bm k = Some bm' /\ bitmap_wf bm' /\ zlen bm' = zlen bm /\
    forall j, 0 <= j -> bit bm' j = (j =? k) || bit bm j.
Proof.
  intros Hwf Hk. bitpos k. unfold bitmap_set, CPU_WIDTH.
  destruct (zget_is_Some bm (k / W)) as [w Hw]; [unfold W in *; lia|].
  rewrite Hw. simpl. eexists. split; [reflexivity|].
  split; [eauto with kernel|]. split; [by autorewrite with kernel_rw|].
  intros j Hj. bitpos j. rewrite bit_zset by (unfold W in *; lia).
  destruct (Z.eqb_spec (j / W) (k / W)) as [E|E].
  - rewrite (bit_word _ _ _ _ Hw E), Z.lor_spec, testbit_shl1, orb_comm by (unfold W in *; lia).
    f_equal. unfold W in *. zcases; lia.
  - destruct (Z.eqb_spec j k); subst; [congruence|reflexivity].
Qed.

Lemma bitmap_clear_bit bm k : bitmap_wf bm -> 0 <= k < W * zlen bm ->
  exists bm', bitmap_clear bm k = Some bm' /\ bitmap_wf bm' /\ zlen bm' = zlen bm /\
    forall j, 0 <= j -> bit bm' j = negb (j =? k) && bit bm j.
Proof.
  intros Hwf Hk. bitpos k. unfold bitmap_clear, CPU_WIDTH.
  destruct (zget_is_Some bm (k / W)) as [w Hw]; [unfold W in *; lia|].
  rewrite Hw. simpl. eexists. split; [reflexivity|].
  split; [eauto with kernel|]. split; [by autorewrite with kernel_rw|].
  intros j Hj. bitpos j. rewrite bit_zset by (unfold W in *; lia).
  destruct (Z.eqb_spec (j / W) (k / W)) as [E|E].
  - rewrite (bit_word _ _ _ _ Hw E), Z.land_spec, testbit_lnot_u32, testbit_shl1, andb_comm
      by (unfold W in *; lia).
    f_equal. unfold W in *. zcases; simpl; lia.
  - destruct (Z.eqb_spec j k); subst; [congruence|reflexivity].
Qed.

Lemma land_shl1 w k : is_u32 w -> 0 <= k < 32 ->
  negb (Z.land w (1 <<! k) =? 0) = Z.testbit w k.
Proof.
  intros Hw Hk. rewrite u32_small by (pose proof (shl1_pos k Hk); unfold is_u32; lia).
  destruct (Z.testbit w k) eqn:E.
  - destruct (Z.eqb_spec (Z.land w (Z.shiftl 1 k)) 0) as [E0|]; [|reflexivity].
    apply (f_equal (fun z => Z.testbit z k)) in E0.
    rewrite Z.land_spec, testbit_one_shift, E, Z.eqb_refl, Z.testbit_0_l in E0 by lia. discriminate.
  - assert (Z.land w (Z.shiftl 1 k) = 0) as ->; [|reflexivity].
    apply Z.bits_inj'. intros n Hn. rewrite Z.land_spec, testbit_one_shift, Z.testbit_0_l by lia.
    destruct (Z.eqb_spec n k); subst; rewrite ?E; auto using andb_false_r.
Qed.

Lemma bitmap_state_bit bm k : bitmap_wf bm -> 0 <= k < W * zlen bm ->
  bitmap_state bm k = Some (if bit bm k then 1 else 0).
Proof.
  intros Hwf Hk. bitpos k. unfold bitmap_state, CPU_WIDTH.
  destruct (zget_is_Some bm (k / W)) as [w Hw]; [unfold W in *; lia|].
  rewrite Hw. simpl. rewrite (bit_word _ _ _ _ Hw eq_refl), land_shl1; [reflexivity|..].
  - eauto with kernel.
  - unfold W in *; lia.
Qed.

(** *** Ranges *)

(** A word of the range loop: the word of [i] changes on the bits where [m] is set. *)
Definition in_range (lo len k : Z) : bool := (lo <=? k) && (k <? lo + len).

Lemma range_word_or bm i w m k : zget bm i = Some w -> 0 <= i < zlen bm -> 0 <= k ->
  bit (zset bm i (Z.lor w m)) k = bit bm k || ((k / W =? i) && Z.testbit m (k mod W)).
Proof.
  intros Hw Hi Hk. rewrite bit_zset by lia. destruct (Z.eqb_spec (k / W) i) as [E|E].
  - rewrite Z.lor_spec, (bit_word _ _ _ _ Hw E). reflexivity.
  - rewrite andb_false_l, orb_false_r. reflexivity.
Qed.

Lemma range_word_and bm i w m k : zget bm i = Some w -> 0 <= i < zlen bm -> 0 <= k ->
  bit (zset bm i (Z.land w (~! m))) k = bit bm k && negb ((k / W =? i) && Z.testbit m (k mod W)).
Proof.
  intros Hw Hi Hk. rewrite bit_zset by lia. destruct (Z.eqb_spec (k / W) i) as [E|E].
  - rewrite Z.land_spec, (bit_word _ _ _ _ Hw E), testbit_lnot_u32; [reflexivity|].
    bitpos k. unfold W in *; lia.
  - rewrite andb_false_l, andb_true_r. reflexivity.
Qed.

(** The two masks of an iteration cover exactly the bits of the range that lie in word [i]. *)
Lemma range_full_word i index len k : 0 <= index < 32 -> 32 <= len + index -> 0 <= k ->
  in_range (W * i + index) len k =
  ((k / W =? i) && Z.testbit (range_val index <<! index) (k mod W))
  || in_range (W * (i + 1)) (len - (W - index)) k.
Proof.
  intros. bitpos k. rewrite testbit_range_val by (unfold W in *; lia).
  unfold in_range, W in *. zcases; simpl; lia.
Qed.

Lemma range_last_word i index len k : 0 <= index < 32 -> 0 < len -> len + index < 32 -> 0 <= k ->
  in_range (W * i + index) len k =
  (k / W =? i) && Z.testbit (((1 <<! len) -! 1) <<! index) (k mod W).
Proof.
  intros. bitpos k. rewrite testbit_range_mask by (unfold W in *; lia).
  unfold in_range, W in *. zcases; simpl; lia.
Qed.

Lemma in_range_empty lo len k : len <= 0 -> in_range lo len k = false.
Proof. intros. unfold in_range. zcases; simpl; lia. Qed.

Section RangeLoops.
(** The side conditions of both loops. *)
Definition range_pre (bm : bitmap_t) (i index len : Z) : Prop :=
  bitmap_wf bm /\ 0 <= i /\ 0 <= index < 32 /\ 0 <= len /\ W * i + index + len <= W * zlen bm.

Lemma range_pre_word bm i index len : range_pre bm i index len -> 0 < len ->
  exists w, zget bm i = Some w /\ is_u32 w /\ 0 <= i < zlen bm /\ i +! 1 = i + 1.
Proof.
  intros (Hwf & ? & ? & ? & ?) ?. unfold W in *.
  destruct (zget_is_Some bm i) as [w Hw]; [lia|].
  exists w. split; [assumption|]. split; [eauto with kernel|]. split; [lia|].
  destruct Hwf. unfold W in *. apply u32_small. unfold is_u32. lia.
Qed.

Lemma range_pre_next bm i index len w : range_pre bm i index len -> 32 <= len + index ->
  is_u32 w -> range_pre (zset bm i w) (i + 1) 0 (len - (W - index)).
Proof.
  intros (? & ? & ? & ? & ?) ? ?. unfold range_pre. autorewrite with kernel_rw.
  split; [auto with kernel|]. unfold W in *. lia.
Qed.

Lemma set_range_loop_bits fuel bm i index len : range_pre bm i index len -> len < Z.of_nat fuel ->
  exists bm', set_range_loop fuel bm i index len = Some bm' /\ bitmap_wf bm' /\
    zlen bm' = zlen bm /\
    forall k, 0 <= k -> bit bm' k = bit bm k || in_range (W * i + index) len k.
Proof.
  revert bm i index len. induction fuel as [|fuel IH]; intros bm i index len Hpre Hf.
  { destruct Hpre as (?&?&?&?&?). lia. }
  cbn [set_range_loop]. destruct (Z.ltb_spec 0 len) as [Hl|Hl].
  2:{ exists bm. split_and!; [done|apply Hpre|done|].
      intros. rewrite in_range_empty, orb_false_r by lia. done. }
  destruct (range_pre_word _ _ _ _ Hpre Hl) as (w & Hw & Hwb & Hi & Hi1). rewrite Hw. simpl.
  pose proof Hpre as (Hwf & ? & ? & ? & ?). destruct Hwf as [Hwf Hsz]. unfold CPU_WIDTH, W in *.
  rewrite u32_small by (unfold is_u32; lia). destruct (Z.leb_spec 32 (len + index)).
  - rewrite Hi1, s32_small by lia.
    destruct (IH (zset bm i (Z.lor w (range_val index <<! index))) (i + 1) 0 (len - (32 - index)))
      as (bm' & -> & Hwf' & Hlen & Hb).
    { apply range_pre_next; auto with kernel. } { lia. }
    exists bm'. split_and!; [done|done|by autorewrite with kernel_rw in Hlen|].
    intros k Hk. rewrite Hb, (range_word_or _ _ _ _ _ Hw), (range_full_word i index) by lia.
    rewrite Z.add_0_r, orb_assoc. done.
  - eexists. split_and!; [done|apply bitmap_wf_zset; [done|auto with kernel]|
      by autorewrite with kernel_rw|].
    intros k Hk. rewrite (range_word_or _ _ _ _ _ Hw), <- range_last_word by lia. done.
Qed.

Lemma clear_range_loop_bits fuel bm i index len : range_pre bm i index len -> len < Z.of_nat fuel ->
  exists bm', clear_range_loop fuel bm i index len = Some bm' /\ bitmap_wf bm' /\
    zlen bm' = zlen bm /\
    forall k, 0 <= k -> bit bm' k = bit bm k && negb (in_range (W * i + index) len k).
Proof.
  revert bm i index len. induction fuel as [|fuel IH]; intros bm i index len Hpre Hf.
  { destruct Hpre as (?&?&?&?&?). lia. }
  cbn [clear_range_loop]. destruct (Z.ltb_spec 0 len) as [Hl|Hl].
  2:{ exists bm. split_and!; [done|apply Hpre|done|].
      intros. rewrite in_range_empty, andb_true_r by lia. done. }
  destruct (range_pre_word _ _ _ _ Hpre Hl) as (w & Hw & Hwb & Hi & Hi1). rewrite Hw. simpl.
  pose proof Hpre as (Hwf & ? & ? & ? & ?). destruct Hwf as [Hwf Hsz]. unfold CPU_WIDTH, W in *.
  rewrite u32_small by (unfold is_u32; lia). destruct (Z.leb_spec 32 (len + index)).
  - rewrite Hi1, s32_small by lia.
    destruct (IH (zset bm i (Z.land w (~! (range_val index <<! index)))) (i + 1) 0
                (len - (32 - index))) as (bm' & -> & Hwf' & Hlen & Hb).
    { apply range_pre_next; auto with kernel. } { lia. }
    exists bm'. split_and!; [done|done|by autorewrite with kernel_rw in Hlen|].
    intros k Hk. rewrite Hb, (range_word_and _ _ _ _ _ Hw), (range_full_word i index) by lia.
    rewrite Z.add_0_r, negb_orb, andb_assoc. done.
  - destruct (Z.eqb_spec len 0); [lia|]. simpl.
    eexists. split_and!; [done|apply bitmap_wf_zset; [done|auto with kernel]|
      by autorewrite with kernel_rw|].
    intros k Hk. rewrite (range_word_and _ _ _ _ _ Hw), <- range_last_word by lia. done.
Qed.
End RangeLoops.

Lemma range_pre_start bm index len : bitmap_wf bm -> 0 <= index -> 0 <= len ->
  index + len <= W * zlen bm ->
  range_pre bm (u32 index / W) (u32 index mod W) len /\
  W * (u32 index / W) + u32 index mod W = index.
Proof.
  intros Hwf ? ? ?. pose proof Hwf as [_ Hsz]. unfold W in *.
  rewrite u32_small by (unfold is_u32; lia). bitpos index. unfold range_pre, W in *. split_and!; auto; lia.
Qed.

(** *** Searches *)

(** [first_bit p bm lo hi r]: [r] is the least index of [lo .. hi) whose bit is [p],
    or [-1] when there is none. *)
Definition first_bit (p : bool) (bm : bitmap_t) (lo hi r : Z) : Prop :=
  (r = -1 /\ forall k, lo <= k < hi -> bit bm k = negb p) \/
  (lo <= r < hi /\ bit bm r = p /\ forall k, lo <= k < r -> bit bm k = negb p).

Lemma first_bit_skip p bm lo mid hi r :
  (forall k, lo <= k < mid -> bit bm k = negb p) -> lo <= mid ->
  first_bit p bm mid hi r -> first_bit p bm lo hi r.
Proof.
  intros Hlo Hle [[-> H]|(Hr & Hb & H)]; [left|right].
  - split; [done|]. intros k Hk. destruct (Z.lt_ge_cases k mid); [apply Hlo|apply H]; lia.
  - split_and!; [lia|lia|done|]. intros k Hk.
    destruct (Z.lt_ge_cases k mid); [apply Hlo|apply H]; lia.
Qed.

Lemma scan_word_spec p w j n : is_u32 w -> 0 <= j -> j + Z.of_nat n <= 32 ->
  match scan_word p w j n with
  | Some r => j <= r < j + Z.of_nat n /\ Z.testbit w r = p /\
              forall q, j <= q < r -> Z.testbit w q = negb p
  | None => forall q, j <= q < j + Z.of_nat n -> Z.testbit w q = negb p
  end.
Proof.
  intros Hw. revert j. induction n as [|n IH]; intros j Hj Hn; simpl; [intros; lia|].
  rewrite land_shl1 by (auto; lia).
  destruct (Bool.eqb_spec (Z.testbit w j) p) as [E|E].
  { split_and!; [lia|lia|done|intros; lia]. }
  assert (Hne : Z.testbit w j = negb p) by (destruct (Z.testbit w j), p; done).
  specialize (IH (j + 1) ltac:(lia) ltac:(lia)).
  destruct (scan_word p w (j + 1) n) as [r|].
  - destruct IH as (? & ? & IH). split_and!; [lia|lia|done|]. intros q Hq.
    destruct (Z.eq_dec q j) as [->|]; [done|apply IH; lia].
  - intros q Hq. destruct (Z.eq_dec q j) as [->|]; [done|apply IH; lia].
Qed.

#[global] Arguments scan_word : simpl never.

(** Bits of word [i]. *)
Lemma bit_in_word bm i w q : zget bm i = Some w -> 0 <= q < W -> bit bm (i * W + q) = Z.testbit w q.
Proof.
  intros Hw Hq. rewrite (bit_word _ _ _ _ Hw).
  - f_equal. rewrite Z.add_comm, Z.mod_add by (unfold W; lia). apply Z.mod_small. done.
  - rewrite Z.div_add_l by (unfold W; lia). rewrite Z.div_small by done. lia.
Qed.

Lemma word_bits_all bm i w p j : zget bm i = Some w -> 0 <= j ->
  (forall q, j <= q < 32 -> Z.testbit w q = p) ->
  forall k, i * W + j <= k < (i + 1) * W -> bit bm k = p.
Proof.
  intros Hw Hj H k Hk. replace k with (i * W + (k - i * W)) by lia. unfold W in *.
  rewrite (bit_in_word _ _ w) by (unfold W; auto; lia). apply H. lia.
Qed.

(** A word equal to the skipped value has no bit [p]. *)
Definition skip_of (p : bool) : Z := if p then 0 else u32 (-1).

Lemma skip_word p q : 0 <= q < 32 -> Z.testbit (skip_of p) q = negb p.
Proof.
  intros. destruct p; simpl; [apply Z.testbit_0_l|].
  rewrite testbit_u32 by lia. apply Z.bits_m1. lia.
Qed.

Lemma scan_words_spec p bm n i : bitmap_wf bm -> 0 <= i -> i + Z.of_nat n <= zlen bm ->
  exists r, scan_words (skip_of p) p bm i n = Some r /\
            first_bit p bm (i * W) ((i + Z.of_nat n) * W) r.
Proof.
  intros Hwf. revert i. induction n as [|n IH]; intros i Hi Hn; cbn [scan_words].
  { exists (-1). split; [done|]. left. split; [done|]. intros; unfold W in *; lia. }
  destruct (zget_is_Some bm i) as [w Hw]; [lia|]. rewrite Hw. simpl.
  assert (Hskip : (forall q, 0 <= q < 32 -> Z.testbit w q = negb p) ->
    exists r, scan_words (skip_of p) p bm (i + 1) n = Some r /\
              first_bit p bm (i * W) ((i + Z.of_nat (S n)) * W) r).
  { intros Hnone. destruct (IH (i + 1)) as (r & -> & Hr); [lia..|]. exists r. split; [done|].
    replace ((i + 1 + Z.of_nat n) * W) with ((i + Z.of_nat (S n)) * W) in Hr by lia.
    apply (first_bit_skip _ _ _ ((i + 1) * W)); [|unfold W; lia|exact Hr]. intros k Hk.
    eapply (word_bits_all _ _ _ _ 0); eauto; lia. }
  destruct (Z.eqb_spec w (skip_of p)) as [->|]; simpl; [apply Hskip, skip_word|].
  pose proof (scan_word_spec p w 0 32 ltac:(eauto with kernel) ltac:(lia) ltac:(lia)) as Hs.
  destruct (scan_word p w 0 32) as [r|]; [|apply Hskip, Hs].
  destruct Hs as (? & Hb & Hlt), Hwf as [_ Hsz]. unfold CPU_WIDTH.
  exists (i * W + r). split; [rewrite s32_small; [done|unfold W in *; lia]|]. right.
  split_and!; [unfold W; lia|unfold W; lia| |].
  - rewrite (bit_in_word _ _ w) by (unfold W; auto; lia). done.
  - intros k Hk. replace k with (i * W + (k - i * W)) by lia.
    rewrite (bit_in_word _ _ w) by (unfold W in *; auto; lia). apply Hlt. lia.
Qed.

Lemma words_from_full size i bm : 8 * size = W * zlen bm -> bitmap_wf bm -> 0 <= i <= zlen bm ->
  Z.of_nat (words_from size i) = zlen bm - i.
Proof.
  intros Hs [_ Hsz] Hi. unfold words_from, CPU_WIDTH, W in *.
  rewrite Z.shiftl_mul_pow2 by lia. rewrite u32_small by (unfold is_u32; lia).
  replace (size * 2 ^ 3) with (zlen bm * 32) by lia. rewrite Z.div_mul by lia. lia.
Qed.

Lemma scan2_spec p bm index size : bitmap_wf bm -> 8 * size = W * zlen bm ->
  0 <= index < W * zlen bm ->
  exists r, scan2 (skip_of p) p bm index size = Some r /\ first_bit p bm index (W * zlen bm) r.
Proof.
  intros Hwf Hs Hk. bitpos index. unfold scan2, CPU_WIDTH.
  destruct (Z.eqb_spec (index mod W) 0) as [E|E]; simpl.
  - destruct (scan_words_spec p bm (words_from size (index / W)) (index / W)) as (r & Hr & Hf);
      rewrite ?(words_from_full _ _ bm) in * by (unfold W in *; auto; lia);
      [done|unfold W in *; lia..|].
    exists r. split; [done|].
    replace (index / W * W) with index in Hf by lia.
    replace ((index / W + (zlen bm - index / W)) * W) with (W * zlen bm) in Hf by lia. done.
  - destruct (zget_is_Some bm (index / W)) as [w Hw]; [unfold W in *; lia|]. rewrite Hw. simpl.
    pose proof (scan_word_spec p w (index mod W) (Z.to_nat (W - index mod W))
      ltac:(eauto with kernel) ltac:(lia) ltac:(unfold W in *; lia)) as Hsc.
    replace (index mod W + Z.of_nat (Z.to_nat (W - index mod W))) with 32 in Hsc
      by (unfold W in *; lia).
    destruct (scan_word _ w _ _) as [r|].
    + destruct Hsc as (? & Hb & Hlt), Hwf as [_ Hsz].
      exists (index / W * W + r). split; [rewrite s32_small; [done|unfold W in *; lia]|]. right.
      split_and!; [unfold W in *; lia|unfold W in *; lia| |].
      * rewrite (bit_in_word _ _ w) by (unfold W; auto; lia). done.
      * intros k Hk'. replace k with (index / W * W + (k - index / W * W)) by lia.
        rewrite (bit_in_word _ _ w) by (unfold W in *; auto; lia). apply Hlt. lia.
    + destruct (scan_words_spec p bm (words_from size (index / W + 1)) (index / W + 1))
        as (r & Hr & Hf);
        rewrite ?(words_from_full _ _ bm) in * by (unfold W in *; auto; lia);
        [done|unfold W in *; lia..|].
      exists r. split; [done|].
      replace ((index / W + 1 + (zlen bm - (index / W + 1))) * W) with (W * zlen bm) in Hf by lia.
      apply (first_bit_skip _ _ _ ((index / W + 1) * W)); [|unfold W in *; lia|exact Hf]. intros k Hk'.
      eapply (word_bits_all _ _ _ _ (index mod W)); eauto; lia.
Qed.

(** *** Bit counts *)

Lemma bits_nr_loop_log2 fuel i v : 0 <= v < 2 ^ Z.of_nat fuel -> 0 <= i ->
  i + Z.of_nat fuel < 2 ^ 32 ->
  bits_nr_loop fuel i v = i + (if v =? 0 then 0 else Z.log2 v + 1).
Proof.
  revert i v. induction fuel as [|fuel IH]; intros i v Hv Hi Hf; cbn [bits_nr_loop].
  { assert (v = 0) as -> by (simpl in Hv; lia). simpl. lia. }
  destruct (Z.ltb_spec 0 v); [|assert (v = 0) as -> by lia; simpl; lia].
  assert (Hs : Z.shiftr v 1 = v / 2) by (rewrite Z.shiftr_div_pow2 by lia; done).
  pose proof (Z.div_mod v 2 ltac:(lia)). pose proof (Z.mod_pos_bound v 2 ltac:(lia)).
  rewrite Nat2Z.inj_succ, Z.pow_succ_r in Hv by lia.
  rewrite (u32_small (i + 1)) by (unfold is_u32; lia). rewrite IH by lia.
  destruct (Z.eqb_spec v 0); [lia|]. destruct (Z.eqb_spec (Z.shiftr v 1) 0) as [E|E].
  - assert (v = 1) as -> by lia. simpl. lia.
  - rewrite Z.log2_shiftr by lia. pose proof (Z.log2_le_mono 2 v ltac:(lia)).
    change (Z.log2 2) with 1 in *. lia.
Qed.

Lemma bits_nr_log2 v : is_u32 v -> bits_nr v = if v =? 0 then 0 else Z.log2 v + 1.
Proof. intros [? ?]. unfold bits_nr. rewrite bits_nr_loop_log2 by (simpl; lia). done. Qed.

(** *** Rounding *)

Lemma pow2_mask_land v n : 0 <= n <= 31 -> is_u32 v ->
  Z.land v (2 ^ n -! 1) = v mod 2 ^ n.
Proof.
  intros Hn Hv. assert (1 <= 2 ^ n <= 2 ^ 31).
  { split; [change 1 with (2 ^ 0)|]; apply Z.pow_le_mono_r; lia. }
  rewrite u32_small by (unfold is_u32; lia).
  rewrite Z.sub_1_r, <- Z.ones_equiv. apply Z.land_ones. lia.
Qed.

Lemma pow2_mask_clear v n : 0 <= n <= 31 -> is_u32 v ->
  Z.land v (~! (2 ^ n -! 1)) = v - v mod 2 ^ n.
Proof.
  intros Hn Hv.
  assert (Hlow : v - v mod 2 ^ n = Z.shiftl (Z.shiftr v n) n).
  { rewrite Z.shiftl_mul_pow2, Z.shiftr_div_pow2 by lia.
    pose proof (Z.div_mod v (2 ^ n) ltac:(apply Z.pow_nonzero; lia)). lia. }
  rewrite Hlow, <- Z.shiftl_1_l. apply Z.bits_inj'. intros k Hk.
  rewrite Z.land_spec, Z.shiftl_spec by lia. destruct (Z.lt_ge_cases k 32) as [Hk32|Hk32].
  - rewrite testbit_lnot_u32, <- (u32_small (Z.shiftl 1 n)), testbit_mask
      by (try (pose proof (shl1_pos n ltac:(lia)); unfold is_u32); lia).
    destruct (Z.ltb_spec k n); simpl.
    + rewrite (Z.testbit_neg_r _ (k - n)) by lia. apply andb_false_r.
    + rewrite Z.shiftr_spec, andb_true_r by lia. f_equal. lia.
  - rewrite (testbit_is_u32_high v) by done. destruct (Z.lt_ge_cases k n); [lia|].
    rewrite Z.shiftr_spec by lia. replace (k - n + n) with k by lia.
    rewrite (testbit_is_u32_high v) by done. done.
Qed.

(** [ARROUND_UP] to a power of two is the least multiple above, as long as that fits. *)
Lemma ARROUND_UP_spec v n : 0 <= n <= 31 -> 0 <= v -> v + 2 ^ n <= 2 ^ 32 ->
  let r := ARROUND_UP v (2 ^ n) in
  r mod 2 ^ n = 0 /\ v <= r < v + 2 ^ n.
Proof.
  intros Hn Hv Hb. assert (0 < 2 ^ n) by (apply Z.pow_pos_nonneg; lia).
  assert (Hv32 : is_u32 v) by (unfold is_u32; lia).
  pose proof (Z.mod_pos_bound v (2 ^ n) ltac:(lia)) as Hm.
  unfold ARROUND_UP. rewrite pow2_mask_land, pow2_mask_clear by done.
  destruct (Z.eqb_spec (v mod 2 ^ n) 0) as [E|E]; simpl; [lia|].
  assert (Hq : v - v mod 2 ^ n + 2 ^ n = (v / 2 ^ n + 1) * 2 ^ n).
  { pose proof (Z.div_mod v (2 ^ n) ltac:(lia)). lia. }
  rewrite u32_small.
  2:{ unfold is_u32. lia. }
  rewrite Hq, Z.mod_mul by lia. lia.
Qed.

Lemma bitmap_set_range_bits bm index len : bitmap_wf bm -> 0 <= index -> 0 <= len ->
  index + len <= W * zlen bm ->
  exists bm', bitmap_set_range bm index len = Some bm' /\ bitmap_wf bm' /\ zlen bm' = zlen bm /\
    forall k, 0 <= k -> bit bm' k = bit bm k || in_range index len k.
Proof.
  intros Hwf Hi Hl Hb. destruct (range_pre_start _ _ _ Hwf Hi Hl Hb) as [Hpre E].
  destruct (set_range_loop_bits (S (Z.to_nat len)) _ _ _ _ Hpre) as (bm' & H); [lia|].
  rewrite E in H. exists bm'. exact H.
Qed.

Lemma bitmap_clear_range_bits bm index len : bitmap_wf bm -> 0 <= index -> 0 <= len ->
  index + len <= W * zlen bm ->
  exists bm', bitmap_clear_range bm index len = Some bm' /\ bitmap_wf bm' /\ zlen bm' = zlen bm /\
    forall k, 0 <= k -> bit bm' k = bit bm k && negb (in_range index len k).
Proof.
  intros Hwf Hi Hl Hb. destruct (range_pre_start _ _ _ Hwf Hi Hl Hb) as [Hpre E].
  destruct (clear_range_loop_bits (S (Z.to_nat len)) _ _ _ _ Hpre) as (bm' & H); [lia|].
  rewrite E in H. exists bm'. exact H.
Qed.

(** ** Properties *)

(** Ranges. Setting and clearing a range of bits inside a bitmap always returns and
    changes exactly the bits of the range, across word boundaries; clearing undoes setting
    on an initially clear range. *)
Theorem bitmap_ranges bm index len : bitmap_wf bm -> 0 <= index -> 0 <= len ->
  index + len <= W * zlen bm ->
  exists bs bc br, bitmap_set_range bm index len = Some bs /\
    (forall k, 0 <= k -> bit bs k = bit bm k || in_range index len k) /\
    bitmap_clear_range bm index len = Some bc /\
    (forall k, 0 <= k -> bit bc k = bit bm k && negb (in_range index len k)) /\
    bitmap_clear_range bs index len = Some br /\
    ((forall k, in_range index len k = true -> bit bm k = false) ->
     forall k, 0 <= k -> bit br k = bit bm k).
Proof.
  intros Hwf Hi Hl Hb. destruct (bitmap_set_range_bits _ _ _ Hwf Hi Hl Hb) as (bs & Es & Hwfs & Hls & Hs).
  destruct (bitmap_clear_range_bits _ _ _ Hwf Hi Hl Hb) as (bc & Ec & _ & _ & Hc).
  destruct (bitmap_clear_range_bits bs index len Hwfs Hi Hl) as (br & Er & _ & _ & Hr); [by rewrite Hls|].
  exists bs, bc, br. split_and!; [done..|]. intros Hclear k Hk. rewrite Hr, Hs by done.
  destruct (in_range index len k) eqn:E; [rewrite (Hclear k E)|]; by destruct (bit bm k).
Qed.

Lemma bitmap_ranges_witness : exists bs bc,
  bitmap_set_range [0; 0; 0x80000000] 30 36 = Some bs /\ bitmap_clear_range bs 30 36 = Some bc.
Proof.
  destruct (bitmap_ranges [0; 0; 0x80000000] 30 36) as (bs & _ & br & Es & _ & _ & _ & Er & _);
    [apply (bool_decide_eq_true _); vm_compute; reflexivity|lia|lia|vm_compute; discriminate|].
  exists bs, br. split; [exact Es|exact Er].
Defined.

(** Searches. Over a bitmap of [size] bytes, [bitmap_ffs2] and [bitmap_ffc2] return the
    first set (clear) bit at or after [index], or -1 when there is none, and the searches
    without a start are those from bit 0. *)
Theorem bitmap_searches bm index size : bitmap_wf bm -> 8 * size = W * zlen bm ->
  0 <= index < W * zlen bm ->
  (exists r, bitmap_ffs2 bm index size = Some r /\ first_bit true bm index (W * zlen bm) r) /\
  (exists r, bitmap_ffc2 bm index size = Some r /\ first_bit false bm index (W * zlen bm) r) /\
  (exists r, bitmap_ffs bm size = Some r /\ first_bit true bm 0 (W * zlen bm) r) /\
  (exists r, bitmap_ffc bm size = Some r /\ first_bit false bm 0 (W * zlen bm) r).
Proof.
  intros Hwf Hs Hi.
  assert (Hall : forall p, exists r, scan_words (skip_of p) p bm 0 (words_from size 0) = Some r /\
    first_bit p bm 0 (W * zlen bm) r).
  { intros p. pose proof (zlen_nonneg bm). pose proof (words_from_full size 0 bm Hs Hwf ltac:(lia)) as E.
    destruct (scan_words_spec p bm (words_from size 0) 0 Hwf) as (r & Er & Hr); [lia|lia|].
    rewrite E in Hr. exists r. split; [done|]. replace (W * zlen bm) with ((0 + (zlen bm - 0)) * W) by lia.
    exact Hr. }
  split; [by apply (scan2_spec true)|]. split; [by apply (scan2_spec false)|].
  split; [apply (Hall true)|apply (Hall false)].
Qed.

Lemma bitmap_searches_witness : exists r,
  bitmap_ffs2 [0; 0x40] 5 8 = Some r /\ first_bit true [0; 0x40] 5 64 r.
Proof.
  destruct (bitmap_searches [0; 0x40] 5 8) as [(r & E & Hr) _];
    [apply (bool_decide_eq_true _); vm_compute; reflexivity|reflexivity|vm_compute; split; congruence|].
  exists r. split; [exact E|exact Hr].
Defined.
