(* ===== verification/ListH.v ===== *)
(** * ListH: the intrusive circular lists of [kernel/libk/list.h]

    The operations are translated at the level of pointers: a store maps the address
    of a [struct list_entry] to its two fields, and every operation reads and writes
    that store in the order of the source.  [dlists h m] relates a store to the
    sequences it represents, for all the lists that live in it at once; it is the
    interface through which the allocators use the lists. *)

From S2P Require Import Prelude.

(** ** Data *)

Record list_entry (A : Type) := ListEntry { next : A; pred : A }.
Arguments ListEntry {A} _ _.
Arguments next {A} _.
Arguments pred {A} _.

(** The poison values of [kern/kmagics.h] that [list_unlink] and [list_pop] store, as
    addresses of the client's address type. *)
Class DeadAddr (A : Type) := {
  LIST_NEXT_DEAD : A;
  LIST_PRED_DEAD : A;
  LIST_SNEXT_DEAD : A;
}.

Section Ops.
Context {A : Type} `{Countable A} `{DeadAddr A}.
Implicit Types (h : gmap A (list_entry A)) (s : gmap A A).

(** ** Operations

    Reading a field of an address that is not in the store faults ([None]). *)

Definition set_next h (p v : A) : option (gmap A (list_entry A)) :=
  e ← h !! p; Some (<[p := ListEntry v (pred e)]> h).
Definition set_pred h (p v : A) : option (gmap A (list_entry A)) :=
  e ← h !! p; Some (<[p := ListEntry (next e) v]> h).

Definition list_root_init h (root : A) : gmap A (list_entry A) :=
  <[root := ListEntry root root]> h.

Definition list_add h (root entry : A) : option (gmap A (list_entry A)) :=
  e ← h !! root;
  let pred_entry := root in
  let next_entry := next e in
  let h := <[entry := ListEntry next_entry pred_entry]> h in
  h ← set_next h pred_entry entry;
  set_pred h next_entry entry.

Definition list_add_first h (root entry : A) : option (gmap A (list_entry A)) :=
  list_add h root entry.

Definition list_add_last h (root entry : A) : option (gmap A (list_entry A)) :=
  e ← h !! root; list_add h (pred e) entry.

Definition list_add_next h (root entry : A) : option (gmap A (list_entry A)) :=
  list_add h root entry.

Definition list_add_pred h (root entry : A) : option (gmap A (list_entry A)) :=
  e ← h !! root; list_add h (pred e) entry.

Definition list_empty h (root : A) : option bool :=
  e ← h !! root; Some (bool_decide (root = next e)).

Definition list_first h (root : A) : option A := e ← h !! root; Some (next e).
Definition list_last h (root : A) : option A := e ← h !! root; Some (pred e).

(** [list_next] and [list_pred]: [Some None] is the [NULL] result. *)
Definition list_next h (root current : A) : option (option A) :=
  r ← h !! root;
  c ← h !! current;
  if bool_decide (root = next r) || bool_decide (next c = root)
  then Some None else Some (Some (next c)).

Definition list_pred h (root current : A) : option (option A) :=
  r ← h !! root;
  c ← h !! current;
  if bool_decide (root = next r) || bool_decide (pred c = root)
  then Some None else Some (Some (pred c)).

Definition list_unlink h (entry : A) : option (gmap A (list_entry A)) :=
  e ← h !! entry;
  h ← set_next h (pred e) (next e);
  h ← set_pred h (next e) (pred e);
  Some (<[entry := ListEntry LIST_NEXT_DEAD LIST_PRED_DEAD]> h).

Definition list_replace h (current new : A) : option (gmap A (list_entry A)) :=
  e ← h !! current;
  let h := <[new := ListEntry (next e) (pred e)]> h in
  h ← set_next h (pred e) new;
  set_pred h (next e) new.

(** [list_foreach_forward]: the addresses visited by the loop, which fetches the
    successor of an element before its body runs. *)
Fixpoint foreach_from h (fuel : nat) (root iter : A) : option (list A) :=
  match fuel with
  | O => None
  | S fuel =>
      if bool_decide (iter = root) then Some []
      else e ← h !! iter; rest ← foreach_from h fuel root (next e); Some (iter :: rest)
  end.
Definition list_foreach_forward h (fuel : nat) (root : A) : option (list A) :=
  e ← h !! root; foreach_from h fuel root (next e).

(** Singly linked stacks ([slist_entry]). *)
Definition slist_root_init s (root : A) : gmap A A := <[root := root]> s.
Definition list_push s (root entry : A) : option (gmap A A) :=
  n ← s !! root; Some (<[root := entry]> (<[entry := n]> s)).
Definition list_pop s (root : A) : option (A * gmap A A) :=
  entry ← s !! root;
  n ← s !! entry;
  let s := <[root := n]> s in
  Some (entry, <[entry := LIST_SNEXT_DEAD]> s).
End Ops.

(** ** Representation *)

Section Rep.
Context {A : Type} `{Countable A} `{DeadAddr A}.
Implicit Types (h : gmap A (list_entry A)) (l xs : list A) (m : gmap A (list A)).

Definition nxt h a : option A := next <$> h !! a.
Definition prd h a : option A := pred <$> h !! a.
Definition link h a b : Prop := nxt h a = Some b /\ prd h b = Some a.

Fixpoint chain h l : Prop :=
  match l with
  | a :: ((b :: _) as t) => link h a b /\ chain h t
  | _ => True
  end.

(** [dlist h r xs]: the circular list rooted at [r] holds [xs] in order. *)
Definition dlist h (r : A) xs : Prop := NoDup (r :: xs) /\ chain h (r :: xs ++ [r]).

(** Every root of [m] represents its sequence, and no address is in two of them. *)
Definition dlists h m : Prop :=
  (forall r xs, m !! r = Some xs -> dlist h r xs) /\
  (forall r1 r2 xs1 xs2 a, m !! r1 = Some xs1 -> m !! r2 = Some xs2 ->
     a ∈ r1 :: xs1 -> a ∈ r2 :: xs2 -> r1 = r2).

(** [a] is in none of the lists. *)
Definition unlinked m (a : A) : Prop :=
  forall r xs, m !! r = Some xs -> a ∉ r :: xs.

(** *** Chains *)

Lemma chain_app h l1 x l2 : chain h (l1 ++ x :: l2) <-> chain h (l1 ++ [x]) /\ chain h (x :: l2).
Proof.
  induction l1 as [|a l1 IH]; simpl; [tauto|].
  destruct l1 as [|b l1]; simpl in *; tauto.
Qed.

Lemma chain_frame h h' l :
  (forall a, a ∈ removelast l -> nxt h' a = nxt h a) ->
  (forall a, a ∈ tail l -> prd h' a = prd h a) ->
  chain h l -> chain h' l.
Proof.
  induction l as [|a [|b l] IH]; intros Hn Hp; [done..|]. intros [[Hl1 Hl2] Hc].
  split; [split|].
  - rewrite Hn; [done|]. simpl. set_solver.
  - rewrite Hp; [done|]. simpl. set_solver.
  - apply IH; [..|done]; intros c Hin; [apply Hn|apply Hp].
    + simpl in *. set_solver.
    + simpl in *. set_solver.
Qed.

(** Consecutive addresses around a circular list. *)
Lemma dlist_split h r xs p n l1 l2 : dlist h r xs -> r :: xs ++ [r] = l1 ++ p :: n :: l2 ->
  chain h (l1 ++ [p]) /\ link h p n /\ chain h (n :: l2).
Proof.
  intros [_ Hc] E. rewrite E in Hc. apply chain_app in Hc as [H1 H2].
  destruct H2 as [H2 H3]. auto.
Qed.

(** The order of a ring: elements before and after a consecutive pair. *)
Lemma ring_nodup r xs p n l1 l2 : NoDup (r :: xs) -> r :: xs ++ [r] = l1 ++ p :: n :: l2 ->
  p ∉ l1 /\ n ∉ tail (l1 ++ [p]) /\ n ∉ l2 /\ p ∉ removelast (n :: l2).
Proof.
  intros Hnd E.
  assert (Hrem : removelast (r :: xs ++ [r]) = r :: xs).
  { change (r :: xs ++ [r]) with ((r :: xs) ++ [r]). apply removelast_last. }
  assert (Htl : NoDup (tail (r :: xs ++ [r]))).
  { simpl. rewrite <- Permutation_cons_append. done. }
  rewrite <- Hrem, E in Hnd. rewrite E in Htl.
  assert (Hnd' : NoDup (l1 ++ p :: removelast (n :: l2))).
  { replace (l1 ++ p :: removelast (n :: l2)) with (removelast (l1 ++ p :: n :: l2)); [done|].
    rewrite removelast_app by done. done. }
  apply NoDup_app in Hnd' as (_ & Hd1 & Hnd2). apply NoDup_cons in Hnd2 as [Hd2 _].
  replace (tail (l1 ++ p :: n :: l2)) with (tail (l1 ++ [p]) ++ n :: l2) in Htl
    by (destruct l1; simpl; rewrite <- ?(assoc_L (++)); done).
  apply NoDup_app in Htl as (_ & Hd3 & Htl2). apply NoDup_cons in Htl2 as [Hd4 _].
  split_and!; [set_solver|set_solver|done|done].
Qed.

(** *** Effect of the pointer operations on the two fields *)

Lemma link_lookup h a b : link h a b ->
  exists ea eb, h !! a = Some ea /\ next ea = b /\ h !! b = Some eb /\ pred eb = a.
Proof.
  intros [Hn Hp]. apply fmap_Some in Hn as (ea & ? & ->), Hp as (eb & ? & ->). eauto 6.
Qed.

Lemma nxt_insert h a b e : nxt (<[a := e]> h) b = if decide (a = b) then Some (next e) else nxt h b.
Proof. unfold nxt. rewrite lookup_insert. case_decide; done. Qed.
Lemma prd_insert h a b e : prd (<[a := e]> h) b = if decide (a = b) then Some (pred e) else prd h b.
Proof. unfold prd. rewrite lookup_insert. case_decide; done. Qed.

Lemma set_next_fields h p v : is_Some (h !! p) -> exists h', set_next h p v = Some h' /\
  (forall a, nxt h' a = if decide (p = a) then Some v else nxt h a) /\
  (forall a, prd h' a = prd h a).
Proof.
  intros [e He]. unfold set_next. rewrite He. simpl. eexists. split; [done|]. split; intros a.
  - rewrite nxt_insert. done.
  - rewrite prd_insert. case_decide; subst; [|done]. unfold prd. rewrite He. done.
Qed.

Lemma set_pred_fields h p v : is_Some (h !! p) -> exists h', set_pred h p v = Some h' /\
  (forall a, nxt h' a = nxt h a) /\
  (forall a, prd h' a = if decide (p = a) then Some v else prd h a).
Proof.
  intros [e He]. unfold set_pred. rewrite He. simpl. eexists. split; [done|]. split; intros a.
  - rewrite nxt_insert. case_decide; subst; [|done]. unfold nxt. rewrite He. done.
  - rewrite prd_insert. done.
Qed.

(** An address is in the store as soon as one of its fields can be read. *)
Lemma nxt_is_Some h a : is_Some (nxt h a) <-> is_Some (h !! a).
Proof. unfold nxt. rewrite fmap_is_Some. done. Qed.

Lemma list_add_fields h p n e : link h p n -> e <> p -> e <> n ->
  exists h', list_add h p e = Some h' /\
    (forall a, nxt h' a = if decide (p = a) then Some e else
                          if decide (e = a) then Some n else nxt h a) /\
    (forall a, prd h' a = if decide (n = a) then Some e else
                          if decide (e = a) then Some p else prd h a).
Proof.
  intros Hl Hep Hen. destruct (link_lookup _ _ _ Hl) as (ea & eb & Ha & <- & Hb & Hpb).
  unfold list_add. rewrite Ha. simpl.
  destruct (set_next_fields (<[e := ListEntry (next ea) p]> h) p e) as (h1 & -> & Hn1 & Hp1).
  { rewrite lookup_insert_ne by done. eauto. }
  simpl. destruct (set_pred_fields h1 (next ea) e) as (h2 & -> & Hn2 & Hp2).
  { apply nxt_is_Some. rewrite Hn1, nxt_insert. unfold nxt. rewrite Hb.
    repeat case_decide; simpl; eauto. }
  exists h2. split; [done|]. split; intros a.
  - rewrite Hn2, Hn1, nxt_insert. done.
  - rewrite Hp2, Hp1, prd_insert. done.
Qed.

Lemma list_unlink_fields h p e n : link h p e -> link h e n -> e <> p -> e <> n ->
  exists h', list_unlink h e = Some h' /\
    (forall a, nxt h' a = if decide (e = a) then Some LIST_NEXT_DEAD else
                          if decide (p = a) then Some n else nxt h a) /\
    (forall a, prd h' a = if decide (e = a) then Some LIST_PRED_DEAD else
                          if decide (n = a) then Some p else prd h a).
Proof.
  intros H1 H2 Hep Hen.
  destruct (link_lookup _ _ _ H1) as (ep & ee & Hp & Hnp & He & Hpe).
  destruct (link_lookup _ _ _ H2) as (ee' & en & He' & Hne & Hn & Hpn).
  rewrite He in He'. injection He' as <-. unfold list_unlink. rewrite He. simpl.
  rewrite Hpe, Hne.
  destruct (set_next_fields h p n) as (h1 & -> & Hn1 & Hp1); [eauto|]. simpl.
  destruct (set_pred_fields h1 n p) as (h2 & -> & Hn2 & Hp2).
  { apply nxt_is_Some. rewrite Hn1. unfold nxt. rewrite Hn. case_decide; simpl; eauto. }
  simpl. eexists. split; [done|]. split; intros a.
  - rewrite nxt_insert, Hn2, Hn1. done.
  - rewrite prd_insert, Hp2, Hp1. done.
Qed.

(** *** Insertion and removal at any place of a circular list *)

Lemma ring_members r xs p n l1 l2 : r :: xs ++ [r] = l1 ++ p :: n :: l2 ->
  p ∈ r :: xs /\ n ∈ r :: xs.
Proof.
  intros E. assert (Hin : forall a, a ∈ r :: xs ++ [r] -> a ∈ r :: xs) by set_solver.
  split; apply Hin; rewrite E; set_solver.
Qed.

Lemma in_removelast_snoc l (p a : A) : a ∈ removelast (l ++ [p]) <-> a ∈ l.
Proof. rewrite removelast_last. done. Qed.

Lemma list_add_ring h r xs p n l1 l2 e : dlist h r xs -> r :: xs ++ [r] = l1 ++ p :: n :: l2 ->
  e ∉ r :: xs ->
  exists h', list_add h p e = Some h' /\ chain h' (l1 ++ p :: e :: n :: l2) /\
    (forall a, a ∉ e :: r :: xs -> nxt h' a = nxt h a /\ prd h' a = prd h a).
Proof.
  intros Hd E He. destruct (ring_members _ _ _ _ _ _ E) as [Hp Hn].
  destruct (dlist_split _ _ _ _ _ _ _ Hd E) as (Hc1 & Hl & Hc2).
  destruct (ring_nodup r xs p n l1 l2) as (N1 & N2 & N3 & N4); [apply Hd|done|].
  assert (Hin : forall a, a ∈ l1 ++ p :: n :: l2 -> a <> e) by (rewrite <- E; set_solver).
  destruct (list_add_fields h p n e) as (h' & -> & Hn' & Hp'); [done|set_solver|set_solver|].
  exists h'. split; [done|]. split.
  - apply chain_app. split; [|split; [split|split; [split|]]].
    + eapply chain_frame; [..|exact Hc1]; intros a Ha.
      * apply in_removelast_snoc in Ha. rewrite Hn', !decide_False; [done|set_solver..].
      * assert (a ∈ l1 ++ [p]) by (destruct l1; set_solver).
        rewrite Hp', !decide_False; [done|set_solver..].
    + rewrite Hn', decide_True; done.
    + rewrite Hp', decide_False, decide_True; [done|done|set_solver].
    + rewrite Hn', decide_False, decide_True; [done|done|set_solver].
    + rewrite Hp', decide_True; done.
    + eapply chain_frame; [..|exact Hc2]; intros a Ha.
      * assert (a ∈ n :: l2).
        { revert Ha. generalize (n :: l2). intros l'. destruct l' as [|x l' _] using rev_ind; [done|].
          rewrite in_removelast_snoc. set_solver. }
        rewrite Hn', !decide_False; [done|set_solver..].
      * rewrite Hp', !decide_False; [done|set_solver..].
  - intros a Ha. rewrite Hn', Hp', !decide_False; [done|set_solver..].
Qed.

Lemma in_removelast l (a : A) : a ∈ removelast l -> a ∈ l.
Proof.
  destruct l as [|x l _] using rev_ind; [done|]. rewrite in_removelast_snoc. set_solver.
Qed.

Lemma in_tail l (a : A) : a ∈ tail l -> a ∈ l.
Proof. destruct l; set_solver. Qed.

Lemma list_unlink_ring h r l1 e l2 : dlist h r (l1 ++ e :: l2) ->
  exists h', list_unlink h e = Some h' /\ dlist h' r (l1 ++ l2) /\
    (forall a, a ∉ r :: l1 ++ e :: l2 -> nxt h' a = nxt h a /\ prd h' a = prd h a).
Proof.
  intros Hd. pose proof Hd as [Hnd Hc].
  (* p: the predecessor of e, n: its successor *)
  destruct (exists_last (l := r :: l1)) as (k1 & p & E1); [done|].
  destruct (l2 ++ [r]) as [|n k2] eqn:E2; [by destruct l2|].
  assert (E : r :: (l1 ++ e :: l2) ++ [r] = k1 ++ p :: e :: n :: k2).
  { rewrite <- app_assoc. simpl. rewrite E2.
    change (r :: l1 ++ e :: n :: k2) with ((r :: l1) ++ e :: n :: k2).
    rewrite E1, <- app_assoc. done. }
  pose proof (ring_nodup _ _ p e k1 (n :: k2) Hnd E) as (N1 & N2 & N3 & N4).
  assert (E' : r :: (l1 ++ e :: l2) ++ [r] = (k1 ++ [p]) ++ e :: n :: k2)
    by (rewrite E, <- app_assoc; done).
  pose proof (ring_nodup _ _ e n (k1 ++ [p]) k2 Hnd E') as (M1 & M2 & M3 & M4).
  destruct (dlist_split _ _ _ _ _ _ _ Hd E) as (Hc1 & Hl1 & _).
  destruct (dlist_split _ _ _ _ _ _ _ Hd E') as (_ & Hl2 & Hc2).
  destruct (ring_members _ _ _ _ _ _ E) as [Hp _], (ring_members _ _ _ _ _ _ E') as [_ Hn].
  destruct (list_unlink_fields h p e n) as (h' & -> & Hn' & Hp'); [done|done|set_solver|set_solver|].
  exists h'. split; [done|]. split; [split|].
  - revert Hnd. rewrite !NoDup_cons, !NoDup_app, !NoDup_cons. set_solver.
  - replace (r :: (l1 ++ l2) ++ [r]) with (k1 ++ p :: n :: k2).
    2:{ rewrite <- app_assoc, E2. change (r :: l1 ++ n :: k2) with ((r :: l1) ++ n :: k2).
        rewrite E1, <- app_assoc. done. }
    apply chain_app. split; [|split; [split|]].
    + eapply chain_frame; [..|exact Hc1]; intros a Ha.
      * apply in_removelast_snoc in Ha. rewrite Hn', !decide_False; [done|set_solver..].
      * pose proof (in_tail _ _ Ha). rewrite Hp', !decide_False; [done| |set_solver].
        intros ->. apply M2. destruct k1; set_solver.
    + rewrite Hn', decide_False, decide_True; [done|done|set_solver].
    + rewrite Hp', decide_False, decide_True; [done|done|set_solver].
    + eapply chain_frame; [..|exact Hc2]; intros a Ha.
      * rewrite Hn', !decide_False; [done| |].
        -- intros ->. apply N4. simpl. destruct k2; set_solver.
        -- intros ->. apply M4. done.
      * rewrite Hp', !decide_False; [done|set_solver..].
  - intros a Ha. rewrite Hn', Hp', !decide_False; [done|set_solver..].
Qed.

(** *** The interface: all the lists of a store at once *)

Lemma dlist_frame h h' r xs :
  (forall a, a ∈ r :: xs -> nxt h' a = nxt h a /\ prd h' a = prd h a) ->
  dlist h r xs -> dlist h' r xs.
Proof.
  intros Hf [Hnd Hc]. split; [done|].
  eapply chain_frame; [..|exact Hc]; intros a Ha; apply Hf.
  - apply in_removelast in Ha. set_solver.
  - apply in_tail in Ha. set_solver.
Qed.

(** Replacing one list of the store by a list on the same addresses plus unlinked ones. *)
Lemma dlists_update h h' m r xs ys :
  dlists h m -> m !! r = Some xs -> dlist h' r ys ->
  (forall a, a ∈ ys -> a ∈ xs \/ unlinked m a) ->
  (forall a r' xs', r' <> r -> m !! r' = Some xs' -> a ∈ r' :: xs' ->
     nxt h' a = nxt h a /\ prd h' a = prd h a) ->
  dlists h' (<[r := ys]> m).
Proof.
  intros [Hd Hdisj] Hr Hys Hsub Hf.
  assert (Hex : forall r' xs' a, r' <> r -> m !! r' = Some xs' -> a ∈ r :: ys -> a ∉ r' :: xs').
  { intros r' xs' a Hne Hr' Ha Ha'.
    assert (Hor : a ∈ r :: xs \/ unlinked m a) by (specialize (Hsub a); set_solver).
    destruct Hor as [Hor|Hor]; [|by apply (Hor r' xs')].
    apply Hne. by eapply Hdisj. }
  split.
  - intros r' xs' Hl. rewrite lookup_insert in Hl. case_decide; subst.
    + by injection Hl as <-.
    + eapply dlist_frame; [|by apply Hd]. intros a Ha. by eapply (Hf a r').
  - intros r1 r2 xs1 xs2 a H1' H2' Ha1 Ha2. rewrite lookup_insert in H1', H2'.
    repeat case_decide; simplify_eq; [done|..].
    + exfalso. apply (Hex r1 xs1 a); auto.
    + exfalso. apply (Hex r2 xs2 a); auto.
    + by eapply Hdisj.
Qed.

Lemma dlists_disjoint h m r r' xs xs' a : dlists h m -> m !! r = Some xs -> m !! r' = Some xs' ->
  r' <> r -> a ∈ r' :: xs' -> a ∉ r :: xs.
Proof. intros [_ Hd] Hr Hr' Hne Ha Ha'. apply Hne. by eapply Hd. Qed.

Lemma list_add_after h m r l1 l2 p e :
  dlists h m -> m !! r = Some (l1 ++ l2) -> unlinked m e -> last (r :: l1) = Some p ->
  exists h', list_add h p e = Some h' /\ dlists h' (<[r := l1 ++ e :: l2]> m).
Proof.
  intros Hds Hr He Hp. pose proof (proj1 Hds _ _ Hr) as Hd.
  pose proof (He _ _ Hr) as Hne.
  apply last_Some in Hp as (k1 & E1). destruct (l2 ++ [r]) as [|n k2] eqn:E2; [by destruct l2|].
  destruct (list_add_ring h r (l1 ++ l2) p n k1 k2 e) as (h' & -> & Hc & Hf); [done| |done|].
  { rewrite <- app_assoc, E2. change (r :: l1 ++ n :: k2) with ((r :: l1) ++ n :: k2).
    rewrite E1, <- app_assoc. done. }
  exists h'. split; [done|]. eapply dlists_update; [done..| | |].
  - split.
    + destruct Hd as [Hnd _]. revert Hnd Hne. rewrite !NoDup_cons, !NoDup_app, !NoDup_cons. set_solver.
    + replace (r :: (l1 ++ e :: l2) ++ [r]) with (k1 ++ p :: e :: n :: k2); [done|].
      rewrite <- app_assoc. simpl. rewrite E2.
      change (r :: l1 ++ e :: n :: k2) with ((r :: l1) ++ e :: n :: k2).
      rewrite E1, <- app_assoc. done.
  - set_solver.
  - intros a r' xs' Hne' Hr' Ha. apply Hf. apply not_elem_of_cons. split.
    + intros ->. by apply (He _ _ Hr').
    + by eapply dlists_disjoint.
Qed.

Lemma dlists_last h m r xs : dlists h m -> m !! r = Some xs -> prd h r = last (r :: xs).
Proof.
  intros [Hd _] Hr. destruct (Hd _ _ Hr) as [_ Hc].
  destruct (exists_last (l := r :: xs)) as (k & p & E); [done|].
  change (r :: xs ++ [r]) with ((r :: xs) ++ [r]) in Hc. rewrite E, <- app_assoc in Hc. simpl in Hc.
  apply chain_app in Hc as [_ [[_ Hp] _]]. rewrite Hp, E, last_snoc. done.
Qed.

Lemma dlists_pred h m r l1 e l2 : dlists h m -> m !! r = Some (l1 ++ e :: l2) -> prd h e = last (r :: l1).
Proof.
  intros [Hd _] Hr. destruct (Hd _ _ Hr) as [_ Hc].
  destruct (exists_last (l := r :: l1)) as (k & p & E); [done|].
  rewrite <- app_assoc in Hc. change (r :: l1 ++ (e :: l2) ++ [r]) with ((r :: l1) ++ e :: l2 ++ [r]) in Hc.
  rewrite E, <- app_assoc in Hc. simpl in Hc. apply chain_app in Hc as [_ Hc]. destruct Hc as [[_ Hp] _].
  rewrite E, last_snoc. done.
Qed.

Lemma dlists_next h m r l1 e l2 : dlists h m -> m !! r = Some (l1 ++ e :: l2) -> nxt h e = Some (hd r l2).
Proof.
  intros [Hd _] Hr. destruct (Hd _ _ Hr) as [_ Hc]. rewrite <- app_assoc in Hc.
  change (r :: l1 ++ (e :: l2) ++ [r]) with ((r :: l1) ++ e :: l2 ++ [r]) in Hc. apply chain_app in Hc as [_ Hc].
  destruct l2 as [|n l2]; simpl in Hc; destruct Hc as [[Hn _] _]; done.
Qed.

Lemma list_add_pred_dlists h m r l1 e l2 x : dlists h m -> m !! r = Some (l1 ++ e :: l2) -> unlinked m x ->
  exists h', list_add_pred h e x = Some h' /\ dlists h' (<[r := l1 ++ x :: e :: l2]> m).
Proof.
  intros Hds Hr Hx. pose proof (dlists_pred _ _ _ _ _ _ Hds Hr) as Hp.
  destruct (last (r :: l1)) as [p|] eqn:El; [|apply last_None in El; done].
  unfold list_add_pred. unfold prd in Hp. apply fmap_Some in Hp as (en & -> & ->). simpl.
  eapply list_add_after; done.
Qed.

Lemma dlists_first h m r xs : dlists h m -> m !! r = Some xs -> nxt h r = Some (hd r xs).
Proof.
  intros [Hd _] Hr. destruct (Hd _ _ Hr) as [_ Hc]. destruct xs; apply Hc.
Qed.
End Rep.

(** The laws of the list operations on represented stores. *)
Section Laws.
Context {A : Type} `{Countable A} `{DeadAddr A}.
Implicit Types (h : gmap A (list_entry A)) (xs : list A) (m : gmap A (list A)).

Lemma list_add_dlists h m r xs e : dlists h m -> m !! r = Some xs -> unlinked m e ->
  exists h', list_add h r e = Some h' /\ dlists h' (<[r := e :: xs]> m).
Proof. intros. by apply (list_add_after h m r [] xs r e). Qed.

Lemma list_add_last_dlists h m r xs e : dlists h m -> m !! r = Some xs -> unlinked m e ->
  exists h', list_add_last h r e = Some h' /\ dlists h' (<[r := xs ++ [e]]> m).
Proof.
  intros Hds Hr He. pose proof (dlists_last _ _ _ _ Hds Hr) as Hp.
  destruct (last (r :: xs)) as [p|] eqn:El; [|by apply last_None in El].
  unfold list_add_last, prd in *. destruct (h !! r) as [er|]; [|done]. simpl in *.
  injection Hp as ->. apply (list_add_after h m r xs [] p e); rewrite ?app_nil_r; auto.
Qed.

Lemma list_unlink_dlists h m r l1 e l2 : dlists h m -> m !! r = Some (l1 ++ e :: l2) ->
  exists h', list_unlink h e = Some h' /\ dlists h' (<[r := l1 ++ l2]> m).
Proof.
  intros Hds Hr. destruct (list_unlink_ring h r l1 e l2) as (h' & -> & Hd & Hf); [by apply Hds|].
  exists h'. split; [done|]. eapply dlists_update; [done..|set_solver|].
  intros a r' xs' Hne Hr' Ha. apply Hf. by eapply dlists_disjoint.
Qed.

Lemma list_empty_dlists h m r xs : dlists h m -> m !! r = Some xs ->
  list_empty h r = Some (bool_decide (xs = [])).
Proof.
  intros Hds Hr. pose proof (dlists_first _ _ _ _ Hds Hr) as Hn.
  unfold list_empty, nxt in *. destruct (h !! r) as [er|]; [|done]. simpl in *.
  injection Hn as ->. f_equal. apply bool_decide_ext. destruct xs as [|x xs]; simpl; [done|].
  destruct (proj1 Hds _ _ Hr) as [Hnd _]. apply NoDup_cons in Hnd as [Hnd _].
  split; [|done]. intros ->. set_solver.
Qed.

Lemma list_first_dlists h m r x xs : dlists h m -> m !! r = Some (x :: xs) ->
  list_first h r = Some x.
Proof.
  intros Hds Hr. pose proof (dlists_first _ _ _ _ Hds Hr) as Hn.
  unfold list_first, nxt in *. destruct (h !! r) as [er|]; [|done]. exact Hn.
Qed.

Lemma list_last_dlists h m r x xs : dlists h m -> m !! r = Some (xs ++ [x]) ->
  list_last h r = Some x.
Proof.
  intros Hds Hr. pose proof (dlists_last _ _ _ _ Hds Hr) as Hp.
  unfold list_last, prd in *. destruct (h !! r) as [er|]; simpl in *.
  - rewrite Hp. apply (last_snoc x (r :: xs)).
  - pose proof (last_snoc x (r :: xs)) as El. simpl in *. congruence.
Qed.

Lemma list_root_init_dlists h m r : dlists h m -> unlinked m r ->
  dlists (list_root_init h r) (<[r := []]> m).
Proof.
  intros [Hd Hdisj] Hr. assert (Hl : link (list_root_init h r) r r).
  { unfold list_root_init, link. rewrite nxt_insert, prd_insert, !decide_True; done. }
  split.
  - intros r' xs' Hl'. rewrite lookup_insert in Hl'. case_decide; simplify_eq.
    + split; [apply NoDup_singleton|done].
    + eapply dlist_frame; [|by apply Hd]. intros a Ha. unfold list_root_init.
      rewrite nxt_insert, prd_insert, !decide_False; [done|..]; intros ->; by apply (Hr r' xs').
  - intros r1 r2 xs1 xs2 a H1' H2' Ha1 Ha2. rewrite lookup_insert in H1', H2'.
    repeat case_decide; simplify_eq; [done|..].
    + apply list_elem_of_singleton in Ha2 as ->. exfalso. by apply (Hr r1 xs1).
    + apply list_elem_of_singleton in Ha1 as ->. exfalso. by apply (Hr r2 xs2).
    + by eapply Hdisj.
Qed.

(** Traversal: the loop visits the elements in order, for any fuel above their number. *)
Lemma foreach_chain h r l1 x l2 fuel : NoDup (r :: l1) -> chain h (l1 ++ [r]) ->
  l1 = l2 ++ x -> (length x < fuel)%nat ->
  foreach_from h fuel r (hd r x) = Some x.
Proof.
  revert l2 fuel. induction x as [|a x IH]; intros l2 fuel Hnd Hc E Hf;
    (destruct fuel as [|fuel]; [simpl in Hf; lia|]); simpl.
  { rewrite bool_decide_true; done. }
  assert (a <> r) by (intros ->; apply NoDup_cons in Hnd as [Hr _]; subst l1; set_solver).
  rewrite bool_decide_false by done.
  assert (Hn : nxt h a = Some (hd r x)).
  { rewrite E, <- app_assoc in Hc. simpl in Hc. apply chain_app in Hc as [_ Hc].
    destruct x; apply Hc. }
  unfold nxt in Hn. destruct (h !! a) as [e|]; [|done]. simpl in *. injection Hn as ->.
  rewrite (IH (l2 ++ [a])); [done|done|done| |lia]. rewrite <- app_assoc. done.
Qed.

Lemma foreach_dlists h m r xs fuel : dlists h m -> m !! r = Some xs -> (length xs < fuel)%nat ->
  list_foreach_forward h fuel r = Some xs.
Proof.
  intros Hds Hr Hf. pose proof (dlists_first _ _ _ _ Hds Hr) as Hn.
  unfold list_foreach_forward, nxt in *. destruct (h !! r) as [e|]; [|done]. simpl in *.
  injection Hn as ->. destruct (proj1 Hds _ _ Hr) as [Hnd Hc].
  apply (foreach_chain h r xs xs []); auto. destruct xs; [done|]. apply Hc.
Qed.

(** Every element of a represented list is in the store. *)
Lemma dlist_dom h r xs a : dlist h r xs -> a ∈ r :: xs -> is_Some (h !! a).
Proof.
  intros [_ Hc] Ha. apply list_elem_of_split in Ha as (l1 & l2 & E).
  change (r :: xs ++ [r]) with ((r :: xs) ++ [r]) in Hc. rewrite E, <- app_assoc in Hc.
  apply chain_app in Hc as [_ Hc]. apply nxt_is_Some.
  destruct l2 as [|b l2]; destruct Hc as [[-> _] _]; eauto.
Qed.

Lemma dlist_size h r xs : dlist h r xs -> (length xs < size h)%nat.
Proof.
  intros Hd. pose proof (proj1 Hd) as Hnd.
  assert (Hsub : list_to_set (r :: xs) ⊆ dom h).
  { intros a Ha. apply elem_of_list_to_set in Ha. apply elem_of_dom. by eapply dlist_dom. }
  apply subseteq_size in Hsub. rewrite size_list_to_set, size_dom in Hsub by done.
  simpl in Hsub. lia.
Qed.

(** Moving a whole list to a new head. *)
Lemma list_replace_dlists h m r r' x xs : dlists h m -> m !! r = Some (x :: xs) -> unlinked m r' ->
  exists h', list_replace h r r' = Some h' /\ dlists h' (<[r' := x :: xs]> (delete r m)).
Proof.
  intros Hds Hr Hr'. pose proof (proj1 Hds _ _ Hr) as Hd. pose proof Hd as [Hnd Hc].
  pose proof (dlists_first _ _ _ _ Hds Hr) as Hn. pose proof (dlists_last _ _ _ _ Hds Hr) as Hp.
  destruct (exists_last (l := x :: xs)) as (k & y & Ek); [done|].
  rewrite Ek in Hp. change (last (r :: k ++ [y])) with (last ((r :: k) ++ [y])) in Hp.
  rewrite last_snoc in Hp. simpl in Hn.
  unfold list_replace, nxt, prd in *. destruct (h !! r) as [e|] eqn:He; [|done]. simpl in *.
  injection Hn as Hn. injection Hp as Hp. rewrite Hn, Hp.
  assert (Hne : forall a, a ∈ r :: x :: xs -> r' <> a).
  { intros a Ha <-. by apply (Hr' _ _ Hr). }
  assert (Hxy : x ∈ r :: x :: xs /\ y ∈ r :: x :: xs) by (split; [set_solver|rewrite Ek; set_solver]).
  destruct Hxy as [Hx Hy]. pose proof (not_eq_sym (Hne x Hx)). pose proof (not_eq_sym (Hne y Hy)).
  destruct (set_next_fields (<[r' := ListEntry x y]> h) y r') as (h1 & -> & Hn1 & Hp1).
  { rewrite lookup_insert_ne by auto. by eapply dlist_dom. }
  simpl. destruct (set_pred_fields h1 x r') as (h2 & -> & Hn2 & Hp2).
  { apply nxt_is_Some. rewrite Hn1. destruct (decide (y = x)); [eauto|].
    rewrite nxt_insert, decide_False by auto. apply nxt_is_Some. by eapply dlist_dom. }
  exists h2. split; [done|].
  assert (Hnd' : NoDup (k ++ [y])) by (rewrite <- Ek; by apply NoDup_cons in Hnd as [_ ?]).
  assert (Hyk : y ∉ k) by (apply NoDup_app in Hnd' as (_ & ? & _); set_solver).
  assert (Hxt : x ∉ tail (k ++ [y])) by (rewrite <- Ek; simpl; apply NoDup_cons in Hnd as [_ Hnd];
    by apply NoDup_cons in Hnd as [? _]).
  assert (Hin : forall a, a ∈ k ++ [y] -> a ∈ r :: x :: xs) by (rewrite <- Ek; set_solver).
  assert (Hdl : dlist h2 r' (x :: xs)).
  { split; [rewrite NoDup_cons; split; [intros Ha; by apply (Hne r'); [set_solver|]|by apply NoDup_cons in Hnd as [_ ?]]|].
    rewrite Ek. assert (Hc' : chain h ((x :: xs) ++ [r])) by apply Hc.
    rewrite Ek, <- app_assoc in Hc'. simpl in Hc'. apply chain_app in Hc' as [Hc' _].
    change (r' :: (k ++ [y]) ++ [r']) with ((r' :: k ++ [y]) ++ [r']).
    rewrite app_comm_cons, <- app_assoc. apply chain_app. split.
    - rewrite <- app_comm_cons, <- Ek. split; [split|].
      + rewrite Hn2, Hn1, decide_False, nxt_insert, decide_True; auto.
      + rewrite Hp2, decide_True; done.
      + rewrite Ek. eapply chain_frame; [..|exact Hc']; intros a Ha.
        * apply in_removelast_snoc in Ha. rewrite Hn2, Hn1, decide_False, nxt_insert, decide_False;
            [done|apply Hne, Hin; set_solver|set_solver].
        * rewrite Hp2, decide_False, Hp1, prd_insert, decide_False;
            [done|apply Hne, Hin; by apply in_tail|set_solver].
    - split; [|done]. split; [rewrite Hn2, Hn1, decide_True; done|].
      rewrite Hp2, decide_False, Hp1, prd_insert, decide_True; auto. }
  split.
  - intros r0 ys Hl. rewrite lookup_insert in Hl. case_decide; [congruence|].
    apply lookup_delete_Some in Hl as [Hrr Hl]. eapply dlist_frame; [|by apply (proj1 Hds)].
    intros a Ha. assert (Hna : a ∉ r :: x :: xs) by (eapply dlists_disjoint; eauto).
    assert (r' <> a) by (intros <-; by apply (Hr' _ _ Hl)).
    assert (y <> a /\ x <> a) by (split; intros ->; done).
    rewrite Hn2, Hn1, Hp2, Hp1, nxt_insert, prd_insert, !decide_False by (intuition congruence). done.
  - assert (Hx' : forall r0 ys a, delete r m !! r0 = Some ys -> a ∈ r0 :: ys -> a ∉ r' :: x :: xs).
    { intros r0 ys a Hl Ha. apply lookup_delete_Some in Hl as [Hrr Hl]. apply not_elem_of_cons.
      split; [intros ->; by apply (Hr' _ _ Hl)|]. intros Hax.
      apply (dlists_disjoint _ _ _ _ _ _ a Hds Hr Hl); [done..|set_solver]. }
    intros r1 r2 xs1 xs2 a H1' H2' Ha1 Ha2. rewrite lookup_insert in H1', H2'.
    destruct (decide (r' = r1)) as [E1|], (decide (r' = r2)) as [E2|]; [congruence|..].
    + injection H1' as <-. subst r1. by destruct (Hx' r2 xs2 a).
    + injection H2' as <-. subst r2. by destruct (Hx' r1 xs1 a).
    + apply lookup_delete_Some in H1' as [_ H1'], H2' as [_ H2']. by eapply (proj2 Hds).
Qed.
End Laws.

(** ** Addresses of list heads and of embedded entries

    [Root k] is the address of the [k]-th list head of a component and [Entry i] the
    address of the [list_entry] embedded in its [i]-th object; [list_container] is the
    inverse of [Entry]. *)

Inductive laddr :=
  | Root (k : Z)
  | Entry (i : Z)
  | NextDead
  | PredDead
  | SNextDead
  | NullAddr.

#[export] Instance laddr_eq_dec : EqDecision laddr.
Proof. solve_decision. Defined.

#[export] Instance laddr_countable : Countable laddr.
Proof.
  refine (inj_countable'
    (fun a => match a with
              | Root k => (0, k) | Entry i => (1, i) | NextDead => (2, 0)
              | PredDead => (3, 0) | SNextDead => (4, 0) | NullAddr => (5, 0) end)
    (fun p => match p with
              | (0, k) => Root k | (1, i) => Entry i | (2, _) => NextDead
              | (3, _) => PredDead | (4, _) => SNextDead | _ => NullAddr end) _).
  by intros [].
Defined.

#[export] Instance laddr_dead : DeadAddr laddr := {|
  LIST_NEXT_DEAD := NextDead; LIST_PRED_DEAD := PredDead; LIST_SNEXT_DEAD := SNextDead |}.

#[export] Instance Entry_inj : Inj (=) (=) Entry.
Proof. by intros ? ? [= ->]. Qed.

Definition list_container (a : laddr) : option Z :=
  match a with Entry i => Some i | _ => None end.

(** ** Properties *)

(** The intrusive lists implement sequences. On a store that represents any number of
    disjoint lists, insertion at the head or at the tail, removal of an element at any
    place and the move of a list to a new head return and have exactly the effect on that
    sequence, leave the other lists as they are, and a traversal visits the elements in
    order. *)
Theorem lists_refine_sequences {A} `{Countable A} `{DeadAddr A} (h : gmap A (list_entry A))
    (m : gmap A (list A)) (r e : A) (l1 l2 : list A) :
  dlists h m -> m !! r = Some (l1 ++ e :: l2) -> forall x r', unlinked m x -> unlinked m r' ->
  (exists h', list_add_first h r x = Some h' /\ dlists h' (<[r := x :: l1 ++ e :: l2]> m)) /\
  (exists h', list_add_last h r x = Some h' /\ dlists h' (<[r := (l1 ++ e :: l2) ++ [x]]> m)) /\
  (exists h', list_unlink h e = Some h' /\ dlists h' (<[r := l1 ++ l2]> m)) /\
  (exists h', list_replace h r r' = Some h' /\ dlists h' (<[r' := l1 ++ e :: l2]> (delete r m))) /\
  list_foreach_forward h (size h) r = Some (l1 ++ e :: l2).
Proof.
  intros Hds Hr x r' Hx Hr'. split_and!.
  - by apply list_add_dlists.
  - by apply list_add_last_dlists.
  - by apply list_unlink_dlists.
  - destruct l1 as [|y l1]; by apply list_replace_dlists.
  - apply (foreach_dlists _ _ _ _ _ Hds Hr). eapply dlist_size. by apply Hds.
Qed.

(** A list with one element. *)
Definition demo_store : gmap laddr (list_entry laddr) :=
  <[Root 0 := ListEntry (Entry 1) (Entry 1)]> {[Entry 1 := ListEntry (Root 0) (Root 0)]}.

Lemma demo_dlists : dlists demo_store {[Root 0 := [Entry 1]]}.
Proof.
  split.
  - intros r xs Hr. apply lookup_singleton_Some in Hr as [<- <-]. split; [|done].
    rewrite !NoDup_cons. split; [|split; [apply not_elem_of_nil|constructor]].
    rewrite list_elem_of_singleton. discriminate.
  - intros r1 r2 xs1 xs2 a H1 H2. apply lookup_singleton_Some in H1 as [<- _], H2 as [<- _]. done.
Qed.

Lemma demo_unlinked a : a <> Root 0 -> a <> Entry 1 -> unlinked {[Root 0 := [Entry 1]]} a.
Proof.
  intros H1 H2 r xs Hr. apply lookup_singleton_Some in Hr as [<- <-].
  rewrite not_elem_of_cons, list_elem_of_singleton. done.
Qed.

Lemma lists_refine_sequences_witness : exists h',
  list_add_last demo_store (Root 0) (Entry 2) = Some h' /\
  dlists h' (<[Root 0 := [Entry 1; Entry 2]]> {[Root 0 := [Entry 1]]}).
Proof.
  destruct (lists_refine_sequences demo_store {[Root 0 := [Entry 1]]} (Root 0) (Entry 1) [] []
    demo_dlists (lookup_singleton_eq _ _) (Entry 2) (Root 1)) as (_ & (h' & E & Hd) & _);
    [apply demo_unlinked; discriminate|apply demo_unlinked; discriminate|].
  exists h'. split; [exact E|exact Hd].
Defined.
