(* ===== verification/Radix.v ===== *)
(** * Radix: the radix trees of [kernel/kern/radix.c]

    Nodes live in a memory indexed by addresses; [0] is [NULL].  An entry of [children] is
    the address of a node, or an item in a node of the last level.  The node cache of
    [kmem] is a supply of addresses: an allocation takes the next one, and fails when there
    is none left.  A freed node keeps its contents, as the slab allocator leaves them. *)

From S2P Require Import Prelude Bits.

(** ** Data *)

Definition NB_TAGS : Z := 1.
Definition TAG_PG_DIRTY : Z := 0.
Definition ENOTFOUND : Z := 42.

Record radix_node_s := Node {
  children : list Z;
  tags : list Z;
  bitmap : bitmap_t;
  parent : Z;
  count : Z;
}.

Record radix_s := Radix { root_node : Z; height : Z; max_key : Z }.

Record radix_item_info_s := Info { i_item : Z; i_node : Z; i_key : Z; i_index : Z; i_height : Z }.

(** [nodes]: contents of the node memory; [supply]: what [kmem_alloc] still has; [freed]:
    the nodes given back. *)
Record mem := Mem { nodes : gmap Z radix_node_s; supply : list Z; freed : list Z }.

Definition set_nodes (m : mem) (n : gmap Z radix_node_s) : mem := Mem n (supply m) (freed m).
Definition put (m : mem) (a : Z) (n : radix_node_s) : mem := set_nodes m (<[a := n]> (nodes m)).
Definition kmem_free (m : mem) (a : Z) : mem := Mem (nodes m) (supply m) (freed m ++ [a]).

Definition set_child (n : radix_node_s) (i v : Z) : radix_node_s :=
  Node (zset (children n) i v) (tags n) (bitmap n) (parent n) (count n).
Definition set_tag (n : radix_node_s) (t v : Z) : radix_node_s :=
  Node (children n) (zset (tags n) t v) (bitmap n) (parent n) (count n).
Definition set_bitmap (n : radix_node_s) (b : bitmap_t) : radix_node_s :=
  Node (children n) (tags n) b (parent n) (count n).
Definition set_parent (n : radix_node_s) (p : Z) : radix_node_s :=
  Node (children n) (tags n) (bitmap n) p (count n).
Definition set_count (n : radix_node_s) (c : Z) : radix_node_s :=
  Node (children n) (tags n) (bitmap n) (parent n) c.

(** [memset(node, 0, sizeof(struct radix_node_s))] *)
Definition zero_node : radix_node_s :=
  Node (replicate 64 0) (replicate (Z.to_nat NB_TAGS) 0) [0; 0] 0 0.

(** ** Macros *)

(** The tag words are 64 bits wide, so a shift by an index of the table never wraps. *)
Definition TAG_GET (n : radix_node_s) (tag index : Z) : option Z :=
  t ← zget (tags n) tag; Some (Z.land t (Z.shiftl 1 index)).
Definition TAG_SET (n : radix_node_s) (tag index : Z) : option radix_node_s :=
  t ← zget (tags n) tag; Some (set_tag n tag (Z.lor t (Z.shiftl 1 index))).
Definition TAG_CLEAR (n : radix_node_s) (tag index : Z) : option radix_node_s :=
  t ← zget (tags n) tag; Some (set_tag n tag (Z.ldiff t (Z.shiftl 1 index))).

Definition NEXT_CHILD (root : radix_s) (current_height key : Z) : Z :=
  let sh := (height root - (current_height + 1)) * 6 in
  Z.shiftr (Z.land (0x3F <<! sh) key) sh.

Definition MAX_KEY_ID (h : Z) : Z := if h =? 6 then 0xFFFFFFFF else u32 ((1 <<! (h * 6)) - 1).

(** ** Growing *)

Definition kmem_alloc (m : mem) : option (Z * mem) :=
  match supply m with
  | [] => None
  | a :: s => Some (a, Mem (nodes m) s (freed m))
  end.

Definition update_max_key (root : radix_s) : radix_s :=
  Radix (root_node root) (height root) (MAX_KEY_ID (height root)).

Definition expand_tree (m : mem) (root : radix_s) : option (Z * mem * radix_s) :=
  match kmem_alloc m with
  | None => Some (- ENOMEM, m, root)
  | Some (new_root, m) =>
      let n := set_child zero_node 0 (root_node root) in
      '(n, m) ← (if negb (height root =? 0) then
                   old ← nodes m !! root_node root;
                   b ← bitmap_set (bitmap n) 63;
                   let tags := (fun t => if negb (t =? 0) then 0x8000000000000000 else 0) <$> tags old in
                   Some (Node (children n) tags b (parent n) 1,
                         put m (root_node root) (set_parent old new_root))
                 else Some (n, m));
      Some (0, put m new_root n, update_max_key (Radix new_root (height root + 1) (max_key root)))
  end.

Definition create_node (m : mem) (node index : Z) : option (Z * mem) :=
  match kmem_alloc m with
  | None => Some (- ENOMEM, m)
  | Some (new_node, m) =>
      n ← nodes m !! node;
      b ← bitmap_set (bitmap n) index;
      let m := put m new_node (set_parent zero_node node) in
      Some (0, put m node (set_bitmap (set_child (set_count n (count n +! 1)) index new_node) b))
  end.

(** ** Look-up *)

(** The loop [while(current_height < root->height-1)]: the node of the last level on the
    path of [key], or [NULL] when a node of the path is missing. *)
Fixpoint descend (fuel : nat) (m : mem) (root : radix_s) (key node current_height : Z)
    : option (Z * Z) :=
  match fuel with
  | O => None
  | S fuel =>
      if current_height <? height root - 1 then
        n ← nodes m !! node;
        c ← zget (children n) (NEXT_CHILD root current_height key);
        if c =? 0 then Some (0, current_height)
        else descend fuel m root key c (current_height + 1)
      else Some (node, current_height)
  end.

(** Enough for the height of any tree. *)
Definition LEVELS : nat := 8.

Definition radix_item_info_lookup (m : mem) (root : radix_s) (key : Z)
    : option (option radix_item_info_s) :=
  if root_node root =? 0 then Some None
  else if max_key root <? key then Some None
  else
    '(node, current_height) ← descend LEVELS m root key (root_node root) 0;
    if node =? 0 then Some None
    else
      let next_child := NEXT_CHILD root current_height key in
      n ← nodes m !! node;
      item ← zget (children n) next_child;
      Some (Some (Info item node key next_child current_height)).

(** [NULL] is [0]. *)
Definition radix_tree_lookup (m : mem) (root : radix_s) (key : Z) : option Z :=
  info ← radix_item_info_lookup m root key;
  match info with
  | None => Some 0
  | Some info => n ← nodes m !! i_node info; zget (children n) (i_index info)
  end.

(** ** Insertion *)

Fixpoint expand_until (fuel : nat) (m : mem) (root : radix_s) (key : Z)
    : option (Z * mem * radix_s) :=
  if (height root =? 0) || (max_key root <? key) then
    match fuel with
    | O => None
    | S fuel =>
        '(out, m, root) ← expand_tree m root;
        if negb (out =? 0) then Some (out, m, root) else expand_until fuel m root key
    end
  else Some (0, m, root).

(** The second loop of [radix_tree_insert]: missing nodes are created on the way down. *)
Fixpoint descend_create (fuel : nat) (m : mem) (root : radix_s) (key node current_height : Z)
    : option (Z * mem * Z * Z) :=
  match fuel with
  | O => None
  | S fuel =>
      if current_height + 1 <? height root then
        let next_child := NEXT_CHILD root current_height key in
        n ← nodes m !! node;
        c ← zget (children n) next_child;
        '(err, m) ← (if c =? 0 then create_node m node next_child else Some (0, m));
        if negb (err =? 0) then Some (err, m, node, current_height)
        else
          n ← nodes m !! node;
          c ← zget (children n) next_child;
          descend_create fuel m root key c (current_height + 1)
      else Some (0, m, node, current_height)
  end.

Definition radix_tree_insert (m : mem) (root : radix_s) (key item : Z) : option (Z * mem * radix_s) :=
  '(out, m, root) ← expand_until LEVELS m root key;
  if negb (out =? 0) then Some (out, m, root)
  else
    '(err, m, node, current_height) ← descend_create LEVELS m root key (root_node root) 0;
    if negb (err =? 0) then Some (err, m, root)
    else
      let next_child := NEXT_CHILD root current_height key in
      n ← nodes m !! node;
      c ← zget (children n) next_child;
      if negb (c =? 0) then Some (- EEXIST, m, root)
      else
        b ← bitmap_set (bitmap n) next_child;
        Some (0, put m node (set_bitmap (set_count (set_child n next_child item) (count n +! 1)) b), root).

Definition radix_tree_init : radix_s := Radix 0 0 0.

(** ** Removal *)

(** [for(i = 0; i < NB_TAGS; ++i) TAG_CLEAR(node, i, index)] and the update of the tags from
    those of a child. *)
Fixpoint clear_tags (k : nat) (n : radix_node_s) (i index : Z) : option radix_node_s :=
  match k with O => Some n | S k => n ← TAG_CLEAR n i index; clear_tags k n (i + 1) index end.
Fixpoint copy_tags (k : nat) (n temp : radix_node_s) (i index : Z) : option radix_node_s :=
  match k with
  | O => Some n
  | S k =>
      t ← zget (tags temp) i;
      n ← (if negb (t =? 0) then TAG_SET n i index else TAG_CLEAR n i index);
      copy_tags k n temp (i + 1) index
  end.

(** [while(current_node)]: back to the root. *)
Fixpoint remove_up (fuel : nat) (m : mem) (root : radix_s) (key node current_height : Z) (deleted : bool)
    : option mem :=
  match fuel with
  | O => None
  | S fuel =>
      if node =? 0 then Some m
      else
        n ← nodes m !! node;
        let next_child := NEXT_CHILD root current_height key in
        let current_parent := parent n in
        n ← (if deleted then
               b ← bitmap_clear (bitmap n) next_child;
               let n := set_bitmap (set_child n next_child 0) b in
               clear_tags (Z.to_nat NB_TAGS) (set_count n (count n -! 1)) 0 next_child
             else
               c ← zget (children n) next_child;
               temp ← nodes m !! c;
               copy_tags (Z.to_nat NB_TAGS) n temp 0 next_child);
        let m := put m node n in
        let deleted := count n =? 0 in
        let m := if deleted then kmem_free m node else m in
        remove_up fuel m root key current_parent (current_height - 1) deleted
  end.

Fixpoint shrink_loop (fuel : nat) (m : mem) (root : radix_s) : option (mem * radix_s) :=
  match fuel with
  | O => None
  | S fuel =>
      if 0 <? height root then
        n ← nodes m !! root_node root;
        if negb (count n =? 1) then Some (m, root)
        else
          c ← zget (children n) 0;
          if c =? 0 then Some (m, root)
          else shrink_loop fuel (kmem_free m (root_node root)) (Radix c (height root - 1) (max_key root))
      else Some (m, root)
  end.

Definition shrink_tree (m : mem) (root : radix_s) : option (mem * radix_s) :=
  '(m, root) ← shrink_loop LEVELS m root; Some (m, update_max_key root).

(** [deleted0] is the value that the uninitialised variable [deleted] has on entry. *)
Definition radix_tree_remove_item (deleted0 : bool) (m : mem) (root : radix_s) (info : radix_item_info_s)
    : option (Z * mem * radix_s) :=
  n ← nodes m !! i_node info;
  b ← bitmap_clear (bitmap n) (i_index info);
  let n := set_bitmap (set_child n (i_index info) 0) b in
  let n := set_count n (count n -! 1) in
  n ← clear_tags (Z.to_nat NB_TAGS) n 0 (i_index info);
  let m := put m (i_node info) n in
  let deleted := if count n =? 0 then true else deleted0 in
  let m := if count n =? 0 then kmem_free m (i_node info) else m in
  m ← remove_up LEVELS m root (i_key info) (parent n) (i_height info - 1) deleted;
  '(m, root) ← shrink_tree m root;
  Some (0, m, root).

Definition radix_tree_delete (deleted0 : bool) (m : mem) (root : radix_s) (key : Z)
    : option (Z * mem * radix_s) :=
  info ← radix_item_info_lookup m root key;
  match info with
  | None => Some (0, m, root)
  | Some info =>
      n ← nodes m !! i_node info;
      item ← zget (children n) (i_index info);
      if item =? 0 then Some (0, m, root)
      else
        '(err, m, root) ← radix_tree_remove_item deleted0 m root info;
        Some (if negb (err =? 0) then 0 else item, m, root)
  end.

Inductive radix_info_op_t := RADIX_INFO_SET | RADIX_INFO_DELETE | RADIX_INFO_INSERT | RADIX_INFO_OTHER.

Definition radix_item_info_apply (deleted0 : bool) (m : mem) (root : radix_s) (info : radix_item_info_s)
    (operation : radix_info_op_t) (new_item : Z) : option (Z * mem * radix_s) :=
  match operation with
  | RADIX_INFO_SET =>
      n ← nodes m !! i_node info;
      Some (0, put m (i_node info) (set_child n (i_index info) new_item), root)
  | RADIX_INFO_DELETE => radix_tree_remove_item deleted0 m root info
  | RADIX_INFO_INSERT =>
      n ← nodes m !! i_node info;
      b ← bitmap_set (bitmap n) (i_index info);
      Some (0, put m (i_node info)
        (set_bitmap (set_count (set_child n (i_index info) new_item) (count n +! 1)) b), root)
  | RADIX_INFO_OTHER => Some (EINVAL, m, root)
  end.

(** ** Tags *)

(** The loops that go back to the root and set or clear the tag of each node. *)
Fixpoint tag_up (fuel : nat) (set : bool) (m : mem) (root : radix_s) (index tag node current_height : Z)
    : option mem :=
  match fuel with
  | O => None
  | S fuel =>
      if node =? 0 then Some m
      else
        n ← nodes m !! node;
        let next_child := NEXT_CHILD root current_height index in
        n ← (if set then TAG_SET n tag next_child else TAG_CLEAR n tag next_child);
        tag_up fuel set (put m node n) root index tag (parent n) (current_height - 1)
  end.

(** [radix_tree_tag_set] and [radix_tree_tag_clear] differ in the macro only. *)
Definition tag_update (set : bool) (m : mem) (root : radix_s) (index tag : Z) : option (Z * mem) :=
  if root_node root =? 0 then Some (0, m)
  else if max_key root <? index then Some (0, m)
  else if NB_TAGS <=? tag then Some (0, m)
  else
    '(node, current_height) ← descend LEVELS m root index (root_node root) 0;
    if node =? 0 then Some (0, m)
    else
      let next_child := NEXT_CHILD root current_height index in
      n ← nodes m !! node;
      out ← zget (children n) next_child;
      if out =? 0 then Some (0, m)
      else
        n ← (if set then TAG_SET n tag next_child else TAG_CLEAR n tag next_child);
        m ← tag_up LEVELS set (put m node n) root index tag (parent n) (current_height - 1);
        Some (out, m).

Definition radix_tree_tag_set (m : mem) (root : radix_s) (index tag : Z) : option (Z * mem) :=
  tag_update true m root index tag.
Definition radix_tree_tag_clear (m : mem) (root : radix_s) (index tag : Z) : option (Z * mem) :=
  tag_update false m root index tag.

(** The 64-bit result of [TAG_GET] is converted to [int]. *)
Definition radix_tree_tag_get (m : mem) (root : radix_s) (index tag : Z) : option Z :=
  if root_node root =? 0 then Some (- EINVAL)
  else if max_key root <? index then Some (- EINVAL)
  else if NB_TAGS <=? tag then Some (- EINVAL)
  else
    '(node, current_height) ← descend LEVELS m root index (root_node root) 0;
    if node =? 0 then Some (- ENOTFOUND)
    else
      let next_child := NEXT_CHILD root current_height index in
      n ← nodes m !! node;
      c ← zget (children n) next_child;
      if c =? 0 then Some (- ENOTFOUND)
      else t ← TAG_GET n tag next_child; Some (s32 t).

Definition radix_tree_tagged (m : mem) (root : radix_s) (tag : Z) : option Z :=
  if height root =? 0 then Some (- EINVAL)
  else if NB_TAGS <=? tag then Some (- EINVAL)
  else n ← nodes m !! root_node root; t ← zget (tags n) tag; Some (s32 t).
