(* ===== verification/RadixLaws.v ===== *)
(** * RadixLaws: insertion and look-up in the radix trees

    The tree invariant is flat: [lv] gives the level of each node in use and [up] the only
    place where it hangs, so that an update of one node is seen from one path.
    [lookup_from] is the reference definition of a look-up, by levels. *)

From S2P Require Import Prelude Bits Radix.

(** ** Digits of a key *)

Definition dig (l : nat) (key : Z) : Z := (key / 64 ^ Z.of_nat l) mod 64.

Lemma pow64 l : 64 ^ Z.of_nat l = 2 ^ (Z.of_nat l * 6).
Proof. rewrite Z.mul_comm, Z.pow_mul_r by lia. done. Qed.

Lemma pow64_pos l : 0 < 64 ^ Z.of_nat l.
Proof. apply Z.pow_pos_nonneg; lia. Qed.

Lemma pow64_S l : 64 ^ Z.of_nat (S l) = 64 * 64 ^ Z.of_nat l.
Proof. rewrite Nat2Z.inj_succ, Z.pow_succ_r by lia. done. Qed.

Lemma dig_range l key : 0 <= dig l key < 64.
Proof. unfold dig. apply Z.mod_pos_bound. lia. Qed.

Lemma NEXT_CHILD_dig r ch key l : 0 <= key < 2 ^ 32 -> (l <= 5)%nat ->
  height r - (ch + 1) = Z.of_nat l -> NEXT_CHILD r ch key = dig l key.
Proof.
  intros Hk Hl E. unfold NEXT_CHILD, dig. rewrite E, pow64.
  set (s := Z.of_nat l * 6). assert (Hs : 0 <= s <= 30) by lia.
  rewrite <- (Z.shiftr_div_pow2 key s) by lia. change 64 with (2 ^ 6).
  apply Z.bits_inj'. intros n Hn. rewrite Z.shiftr_spec, Z.land_spec by lia. unfold u32.
  rewrite Z.testbit_mod_pow2, Z.shiftl_spec, Z.testbit_mod_pow2 by lia.
  rewrite Z.add_simpl_r, Z.shiftr_spec by lia.
  change 0x3F with (Z.ones 6). rewrite Z.testbit_ones_nonneg by lia.
  destruct (Z.ltb_spec n 6) as [Hn6|Hn6]; cbn; [|by rewrite andb_false_r].
  destruct (Z.ltb_spec (n + s) 32) as [H32|H32]; cbn; [done|].
  symmetry. apply Z.bits_above_log2; [lia|].
  destruct (Z.eq_dec key 0) as [->|]; [cbn; lia|].
  apply Z.log2_lt_pow2; [lia|]. assert (2 ^ 32 <= 2 ^ (n + s)) by (apply Z.pow_le_mono_r; lia). lia.
Qed.

(** The digits below a level determine the key below a power. *)
Lemma dig_mod l key : 0 <= key ->
  key mod 64 ^ Z.of_nat (S l) = 64 ^ Z.of_nat l * dig l key + key mod 64 ^ Z.of_nat l.
Proof.
  intros Hk. pose proof (pow64_pos l). unfold dig. rewrite pow64_S, Z.mul_comm.
  rewrite Z.rem_mul_r by lia. lia.
Qed.

Lemma digs_inj l k1 k2 : 0 <= k1 -> 0 <= k2 -> (forall j, (j <= l)%nat -> dig j k1 = dig j k2) ->
  k1 mod 64 ^ Z.of_nat (S l) = k2 mod 64 ^ Z.of_nat (S l).
Proof.
  intros H1 H2. induction l as [|l IH]; intros Hd.
  - rewrite !dig_mod by done. cbn [Z.of_nat]. change (64 ^ 0) with 1. rewrite !Z.mod_1_r, (Hd O) by lia. done.
  - rewrite (dig_mod (S l) k1), (dig_mod (S l) k2), IH, (Hd (S l)) by auto. done.
Qed.

(** [MAX_KEY_ID], for the heights of a tree. *)
Lemma MAX_KEY_ID_eq (h : nat) : (h <= 6)%nat ->
  MAX_KEY_ID (Z.of_nat h) = if decide (h = 6)%nat then 2 ^ 32 - 1 else 64 ^ Z.of_nat h - 1.
Proof. intros Hh. do 7 (destruct h as [|h]; [vm_compute; reflexivity|]). lia. Qed.

Lemma max_key_spec (h : nat) key : (h <= 6)%nat -> 0 <= key < 2 ^ 32 ->
  key <= MAX_KEY_ID (Z.of_nat h) <-> key < 64 ^ Z.of_nat h.
Proof.
  intros Hh Hk. rewrite MAX_KEY_ID_eq by done. destruct (decide (h = 6)%nat) as [->|]; [|lia].
  replace (64 ^ Z.of_nat 6) with (2 ^ 36) by (vm_compute; reflexivity). lia.
Qed.

(** A key below the next power of 64 is above the power iff its digit is not null. *)
Lemma dig_top (h : nat) key : (h <= 5)%nat -> 0 <= key < 2 ^ 32 -> key < 64 ^ Z.of_nat (S h) ->
  dig h key = 0 <-> key < 64 ^ Z.of_nat h.
Proof.
  intros Hh Hk Hlt. pose proof (pow64_pos h). unfold dig. rewrite pow64_S in Hlt.
  assert (key / 64 ^ Z.of_nat h < 64) by (apply Z.div_lt_upper_bound; lia).
  pose proof (Z.div_pos key (64 ^ Z.of_nat h) ltac:(lia) ltac:(lia)).
  rewrite Z.mod_small by lia. rewrite Z.div_small_iff by lia. lia.
Qed.

(** ** Reference look-up *)

Definition child (m : mem) (a i : Z) : option Z := n ← nodes m !! a; zget (children n) i.

(** The item of [key] below the node [a] of level [l + 1]. *)
Fixpoint lookup_from (l : nat) (m : mem) (key a : Z) : option Z :=
  c ← child m a (dig l key);
  match l with
  | O => Some c
  | S l => if c =? 0 then Some 0 else lookup_from l m key c
  end.

(** The node of the last level on the path of [key]. *)
Fixpoint leaf_from (l : nat) (m : mem) (key a : Z) : option Z :=
  match l with
  | O => Some a
  | S l => c ← child m a (dig (S l) key); if c =? 0 then None else leaf_from l m key c
  end.

(** ** The invariant *)

Record wf (m : mem) (r : radix_s) (lv : gmap Z nat) (up : gmap Z (Z * Z)) : Prop := {
  w_height : 0 <= height r <= 6;
  w_max : max_key r = MAX_KEY_ID (height r);
  w_empty : height r = 0 -> root_node r = 0;
  w_root : 0 < height r -> lv !! root_node r = Some (Z.to_nat (height r - 1)) /\ up !! root_node r = None;
  w_node : forall a l, lv !! a = Some l -> a <> 0 /\ (l <= 5)%nat /\ exists n, nodes m !! a = Some n /\
    length (children n) = 64%nat /\ length (tags n) = 1%nat /\ length (bitmap n) = 2%nat;
  w_child : forall a l i c, lv !! a = Some (S l) -> 0 <= i < 64 -> child m a i = Some c -> c <> 0 ->
    lv !! c = Some l /\ up !! c = Some (a, i);
  w_supply : NoDup (supply m) /\ forall a, a ∈ supply m -> a <> 0 /\ lv !! a = None /\ up !! a = None;
}.

Section Wf.
Context (m : mem) (r : radix_s) (lv : gmap Z nat) (up : gmap Z (Z * Z)) (Hwf : wf m r lv up).

Lemma wf_child a l i : lv !! a = Some l -> 0 <= i < 64 -> exists c, child m a i = Some c.
Proof.
  intros Ha Hi. destruct (w_node _ _ _ _ Hwf _ _ Ha) as (_ & _ & n & Hn & Hc & _).
  unfold child. rewrite Hn. cbn. apply zget_is_Some. unfold zlen. rewrite Hc. lia.
Qed.

Lemma lookup_from_some l key a : lv !! a = Some l -> exists v, lookup_from l m key a = Some v.
Proof.
  revert a. induction l as [|l IH]; intros a Ha; cbn [lookup_from].
  - destruct (wf_child a 0 (dig 0 key) Ha (dig_range _ _)) as [c ->]. cbn. eauto.
  - destruct (wf_child a (S l) (dig (S l) key) Ha (dig_range _ _)) as [c Hc]. rewrite Hc. cbn.
    destruct (Z.eqb_spec c 0); [eauto|]. apply IH.
    by eapply (w_child _ _ _ _ Hwf a l (dig (S l) key)); [|apply dig_range| |].
Qed.

(** The loop of the code follows the digits. *)
Lemma descend_lookup l fuel key a ch : lv !! a = Some l -> 0 <= key < 2 ^ 32 ->
  Z.of_nat l = height r - 1 - ch -> (l < fuel)%nat ->
  exists b ch', descend fuel m r key a ch = Some (b, ch') /\
    match leaf_from l m key a with
    | None => b = 0 /\ lookup_from l m key a = Some 0
    | Some x => b = x /\ ch' = height r - 1 /\ lv !! b = Some O /\
        lookup_from l m key a = child m b (dig 0 key)
    end.
Proof.
  intros Ha Hk. revert a ch fuel Ha. induction l as [|l IH]; intros a ch fuel Ha El Hf;
    (destruct fuel as [|fuel]; [lia|]); cbn [descend leaf_from lookup_from].
  - destruct (Z.ltb_spec ch (height r - 1)); [lia|]. exists a, ch. split; [done|].
    split_and!; [done|lia|done|]. destruct (child m a (dig 0 key)); done.
  - destruct (Z.ltb_spec ch (height r - 1)); [|lia].
    destruct (w_node _ _ _ _ Hwf _ _ Ha) as (_ & Hl5 & n & Hn & Hc & _).
    rewrite (NEXT_CHILD_dig r ch key (S l)) by (try done; lia).
    destruct (wf_child a (S l) (dig (S l) key) Ha (dig_range _ _)) as [c Ec]. rewrite Ec.
    unfold child in Ec. rewrite Hn in Ec. rewrite Hn. cbn in Ec |- *. rewrite Ec. cbn.
    destruct (Z.eqb_spec c 0) as [->|Hc0]; [by eexists _, _|].
    destruct (IH c (ch + 1) fuel) as (b & ch' & E & Hm); [|lia|lia|by eexists _, _].
    eapply (w_child _ _ _ _ Hwf a l (dig (S l) key)); [done|apply dig_range| |done].
    unfold child. rewrite Hn. done.
Qed.

(** The code looks up what the reference definition does. *)
Lemma lookup_spec key : 0 <= key < 2 ^ 32 ->
  radix_tree_lookup m r key =
    if bool_decide (0 < height r) && (key <=? max_key r)
    then lookup_from (Z.to_nat (height r - 1)) m key (root_node r) else Some 0.
Proof.
  intros Hk. pose proof (w_height _ _ _ _ Hwf). unfold radix_tree_lookup, radix_item_info_lookup.
  case_bool_decide as Hh; cbn [andb].
  - destruct (w_root _ _ _ _ Hwf Hh) as [Hr _].
    pose proof (w_node _ _ _ _ Hwf _ _ Hr) as (Hr0 & _).
    destruct (Z.eqb_spec (root_node r) 0) as [|_]; [done|].
    rewrite Z.ltb_antisym. destruct (Z.leb_spec key (max_key r)); cbn [negb]; [|done].
    destruct (descend_lookup _ LEVELS key (root_node r) 0 Hr Hk) as (b & ch & E & Hm);
      [lia|unfold LEVELS; lia|]. rewrite E. cbn [mbind option_bind].
    destruct (leaf_from _ _ _ _) as [x|]; [|destruct Hm as [-> Hl]; by rewrite Hl].
    destruct Hm as (-> & -> & Hx & ->).
    destruct (w_node _ _ _ _ Hwf _ _ Hx) as (Hx0 & _ & n & Hn & Hlen & _).
    rewrite (proj2 (Z.eqb_neq x 0)) by done. unfold child. rewrite Hn. cbn.
    rewrite (NEXT_CHILD_dig r _ key 0) by (try done; lia).
    destruct (zget (children n) (dig 0 key)) as [c|] eqn:E'; [cbn; by rewrite Hn|].
    destruct (wf_child x 0 (dig 0 key) Hx (dig_range _ _)) as [c Hc]. unfold child in Hc.
    rewrite Hn in Hc. cbn in Hc. congruence.
  - rewrite (w_empty _ _ _ _ Hwf) by lia. done.
Qed.
End Wf.

(** ** Frames *)

(** Look-ups depend on the tables of children of the nodes in use only. *)
Lemma lookup_from_frame m m' r lv up l key a : wf m r lv up ->
  (forall b k i, lv !! b = Some k -> 0 <= i < 64 -> child m' b i = child m b i) ->
  lv !! a = Some l -> lookup_from l m' key a = lookup_from l m key a.
Proof.
  intros Hwf Hf. revert a. induction l as [|l IH]; intros a Ha; cbn [lookup_from];
    rewrite (Hf a _ _ Ha (dig_range _ _)); [done|].
  destruct (wf_child _ _ _ _ Hwf a (S l) (dig (S l) key) Ha (dig_range _ _)) as [c Hc]. rewrite Hc. cbn.
  destruct (Z.eqb_spec c 0); [done|]. apply IH.
  by eapply (w_child _ _ _ _ Hwf a l (dig (S l) key)); [|apply dig_range| |].
Qed.

Lemma child_put m a n b i : child (put m a n) b i = if decide (a = b) then zget (children n) i else child m b i.
Proof. unfold child, put. cbn. rewrite lookup_insert. case_decide; done. Qed.

Lemma child_zero i : 0 <= i < 64 -> zget (children zero_node) i = Some 0.
Proof. intros Hi. unfold zero_node, zget. cbn [children]. apply lookup_replicate_2. lia. Qed.

Lemma zget_set_child n i j v : length (children n) = 64%nat -> 0 <= i < 64 -> 0 <= j < 64 ->
  zget (children (set_child n i v)) j = if decide (i = j) then Some v else zget (children n) j.
Proof.
  intros Hn Hi Hj. cbn. destruct (decide (i = j)) as [<-|].
  - apply zget_zset_eq. unfold zlen. lia.
  - apply zget_zset_ne; lia.
Qed.

Lemma bitmap_set_ok (b : bitmap_t) i : length b = 2%nat -> 0 <= i < 64 ->
  exists b', bitmap_set b i = Some b' /\ length b' = 2%nat.
Proof.
  intros Hb Hi. unfold bitmap_set, CPU_WIDTH, W.
  assert (0 <= i / 32 < 2) by (split; [apply Z.div_pos; lia|apply Z.div_lt_upper_bound; lia]).
  destruct (zget_is_Some b (i / 32)) as [w ->]; [unfold zlen; lia|]. cbn. eexists. split; [done|].
  unfold zset. rewrite length_insert. done.
Qed.

(** ** Growing the tree *)

(** Adding a fresh node to the levels. *)
Lemma wf_fresh m r lv up a s : wf m r lv up -> supply m = a :: s ->
  a <> 0 /\ lv !! a = None /\ up !! a = None /\
  NoDup s /\ forall b, b ∈ s -> b <> 0 /\ b <> a /\ lv !! b = None /\ up !! b = None.
Proof.
  intros Hwf E. destruct (w_supply _ _ _ _ Hwf) as [Hnd Hs]. rewrite E in Hnd, Hs.
  apply NoDup_cons in Hnd as [Ha Hnd]. destruct (Hs a) as (? & ? & ?); [set_solver|].
  split_and!; try done. intros b Hb. destruct (Hs b) as (? & ? & ?); [set_solver|].
  split_and!; try done. by intros ->.
Qed.

Definition view (m : mem) (r : radix_s) (key : Z) : option Z := radix_tree_lookup m r key.

Definition same_view (m : mem) (r : radix_s) (m' : mem) (r' : radix_s) : Prop :=
  forall key, 0 <= key < 2 ^ 32 -> view m' r' key = view m r key.

(** The new root of an empty tree is an empty leaf. *)
Lemma expand_empty m r lv up a s : wf m r lv up -> height r = 0 -> supply m = a :: s ->
  exists m' r', expand_tree m r = Some (0, m', r') /\ height r' = 1 /\
    wf m' r' (<[a := 0%nat]> ∅) ∅ /\ same_view m r m' r'.
Proof.
  intros Hwf H0 E. destruct (wf_fresh _ _ _ _ _ _ Hwf E) as (Ha0 & Ha & Hau & Hnd & Hs).
  unfold expand_tree, kmem_alloc. rewrite E, H0. cbn [negb Z.eqb mbind option_bind].
  rewrite (w_empty _ _ _ _ Hwf H0). eexists _, _. split; [done|]. split; [done|].
  assert (Hwf' : wf (put (Mem (nodes m) s (freed m)) a (set_child zero_node 0 0))
    (update_max_key (Radix a (0 + 1) (max_key r))) (<[a := 0%nat]> ∅) ∅).
  { split; cbn; [lia|done|done|intros _; by rewrite lookup_insert_eq| | |].
    - intros b l Hb. apply lookup_insert_Some in Hb as [[<- <-]|[_ Hb]]; [|by rewrite lookup_empty in Hb].
      split; [done|]. split; [lia|]. eexists. rewrite lookup_insert_eq. done.
    - intros b l i c Hb. apply lookup_insert_Some in Hb as [[_ ?]|[_ Hb]]; [done|].
      by rewrite lookup_empty in Hb.
    - split; [done|]. intros b Hb. destruct (Hs b Hb) as (? & ? & _).
      rewrite lookup_insert_ne, !lookup_empty by done. done. }
  split; [exact Hwf'|]. intros key Hk. unfold view.
  rewrite (lookup_spec _ _ _ _ Hwf' key Hk), (lookup_spec _ _ _ _ Hwf key Hk).
  rewrite H0. cbn [height update_max_key]. rewrite (bool_decide_false (0 < 0)) by lia.
  rewrite bool_decide_true by lia. cbn [andb]. destruct (_ <=? _); [|done].
  change (Z.to_nat (0 + 1 - 1)) with 0%nat. cbn [lookup_from root_node update_max_key].
  rewrite child_put, decide_True by done.
  rewrite (zget_set_child zero_node 0 (dig 0 key)); [|done|lia|apply dig_range].
  case_decide; [done|]. rewrite child_zero by apply dig_range. done.
Qed.

Lemma child_set_parent m a n p b i : nodes m !! a = Some n -> child (put m a (set_parent n p)) b i = child m b i.
Proof.
  intros Hn. rewrite child_put. case_decide as E; [|done]. subst. unfold child. rewrite Hn. done.
Qed.

Lemma expand_grow m r lv up a s (h : nat) : wf m r lv up -> height r = Z.of_nat (S h) -> (h < 5)%nat ->
  supply m = a :: s ->
  exists m' r', expand_tree m r = Some (0, m', r') /\ height r' = height r + 1 /\
    wf m' r' (<[a := S h]> lv) (<[root_node r := (a, 0)]> up) /\ same_view m r m' r'.
Proof.
  intros Hwf Hh H5 E. destruct (wf_fresh _ _ _ _ _ _ Hwf E) as (Ha0 & Ha & Hau & Hnd & Hs).
  destruct (w_root _ _ _ _ Hwf ltac:(lia)) as [Hr Hru].
  replace (Z.to_nat (height r - 1)) with h in Hr by lia.
  destruct (w_node _ _ _ _ Hwf _ _ Hr) as (Hr0 & _ & old & Hold & Hlc & Hlt & Hlb).
  unfold expand_tree, kmem_alloc. rewrite E, (proj2 (Z.eqb_neq (height r) 0)) by lia.
  cbn [negb mbind option_bind nodes]. rewrite Hold. cbn [mbind option_bind].
  destruct (bitmap_set_ok (bitmap (set_child zero_node 0 (root_node r))) 63) as (b & -> & Hb);
    [done|lia|]. cbn [mbind option_bind].
  set (n := Node _ _ b _ 1). set (m1 := put _ (root_node r) _).
  eexists _, _. split; [done|]. split; [done|].
  assert (Hch1 : forall x i, child m1 x i = child m x i).
  { intros x i. apply (child_set_parent (Mem (nodes m) s (freed m)) _ old _ x i Hold). }
  assert (Hch : forall x i, x <> a -> child (put m1 a n) x i = child m x i).
  { intros x i Hx. rewrite child_put, decide_False by done. apply Hch1. }
  assert (Hna : forall i, 0 <= i < 64 ->
    child (put m1 a n) a i = Some (if decide (0 = i) then root_node r else 0)).
  { intros i Hi. rewrite child_put, decide_True by done.
    change (children n) with (children (set_child zero_node 0 (root_node r))).
    rewrite zget_set_child by (done || lia). case_decide; [done|]. by apply child_zero. }
  assert (Hra : root_node r <> a) by congruence.
  set (r' := update_max_key _).
  assert (Hwf' : wf (put m1 a n) r' (<[a := S h]> lv) (<[root_node r := (a, 0)]> up)).
  { split; cbn [height max_key root_node r' update_max_key].
    - lia.
    - done.
    - lia.
    - intros _. rewrite lookup_insert_eq, lookup_insert_ne by done. split; [f_equal; lia|done].
    - intros x l Hx. cbn. rewrite lookup_insert in Hx. destruct (decide (a = x)) as [<-|Hxa].
      + injection Hx as <-. split; [done|]. split; [lia|]. exists n. rewrite lookup_insert_eq.
        split_and!; [done|done|cbn; by rewrite length_fmap|done].
      + destruct (w_node _ _ _ _ Hwf _ _ Hx) as (? & ? & nx & Hnx & ?). split_and!; [done..|].
        rewrite lookup_insert_ne by done. destruct (decide (root_node r = x)) as [<-|].
        * rewrite lookup_insert_eq. eexists. split; [done|]. cbn. done.
        * rewrite lookup_insert_ne by done. eauto.
    - intros x l i c Hx Hi Hc Hc0. destruct (decide (a = x)) as [<-|Hxa].
      + rewrite lookup_insert_eq in Hx. injection Hx as <-. rewrite Hna in Hc by done.
        injection Hc as <-. destruct (decide (0 = i)) as [<-|]; [|done].
        rewrite lookup_insert_ne, lookup_insert_eq by done. done.
      + rewrite lookup_insert_ne in Hx by done. rewrite Hch in Hc by done.
        destruct (w_child _ _ _ _ Hwf _ _ _ _ Hx Hi Hc Hc0) as [Hcl Hcu].
        rewrite !lookup_insert_ne; [done| |]; intros <-; congruence.
    - cbn. split; [done|]. intros x Hx. destruct (Hs x Hx) as (? & ? & ? & ?).
      rewrite !lookup_insert_ne; [done| |done]. intros <-. congruence. }
  split; [exact Hwf'|]. intros key Hk. unfold view.
  rewrite (lookup_spec _ _ _ _ Hwf' key Hk), (lookup_spec _ _ _ _ Hwf key Hk).
  rewrite !bool_decide_true by (cbn; lia). cbn [andb].
  rewrite (w_max _ _ _ _ Hwf'), (w_max _ _ _ _ Hwf).
  cbn [height r' update_max_key root_node]. rewrite Hh.
  replace (Z.of_nat (S h) + 1) with (Z.of_nat (S (S h))) by lia.
  pose proof (max_key_spec (S h) key ltac:(lia) Hk) as M1.
  pose proof (max_key_spec (S (S h)) key ltac:(lia) Hk) as M2.
  replace (Z.to_nat (Z.of_nat (S (S h)) - 1)) with (S h) by lia.
  replace (Z.to_nat (Z.of_nat (S h) - 1)) with h by lia.
  pose proof (pow64_S (S h)). pose proof (pow64_pos (S h)).
  destruct (Z.leb_spec key (MAX_KEY_ID (Z.of_nat (S (S h))))) as [L2|L2].
  - pose proof (dig_top (S h) key ltac:(lia) Hk ltac:(tauto)) as Hd.
    cbn [lookup_from]. rewrite Hna by apply dig_range. cbn [mbind option_bind].
    destruct (Z.leb_spec key (MAX_KEY_ID (Z.of_nat (S h)))) as [L1|L1].
    + rewrite decide_True by (symmetry; tauto). rewrite (proj2 (Z.eqb_neq _ 0)) by done.
      apply (lookup_from_frame m _ r lv up); [done| |done].
      intros x k i Hx Hi. apply Hch. congruence.
    + rewrite decide_False; [done|]. intros Hz. assert (key < 64 ^ Z.of_nat (S h)) by (apply Hd; done).
      apply M1 in H1. lia.
  - destruct (Z.leb_spec key (MAX_KEY_ID (Z.of_nat (S h)))) as [L1|]; [|done].
    apply M1 in L1. assert (key < 64 ^ Z.of_nat (S (S h))) by lia. apply M2 in H1. lia.
Qed.

Lemma expand_ok m r lv up : wf m r lv up -> height r < 6 ->
  (supply m = [] /\ expand_tree m r = Some (- ENOMEM, m, r)) \/
  exists m' r' lv' up', expand_tree m r = Some (0, m', r') /\ height r' = height r + 1 /\
    wf m' r' lv' up' /\ same_view m r m' r'.
Proof.
  intros Hwf H6. pose proof (w_height _ _ _ _ Hwf). destruct (supply m) as [|a s] eqn:E.
  - left. split; [done|]. unfold expand_tree, kmem_alloc. rewrite E. done.
  - right. destruct (Z.eq_dec (height r) 0) as [H0|H0].
    + destruct (expand_empty _ _ _ _ _ _ Hwf H0 E) as (m' & r' & ? & ? & ? & ?).
      exists m', r'. rewrite H0. eauto 8.
    + destruct (expand_grow m r lv up a s (Z.to_nat (height r - 1)) Hwf) as (m' & r' & ? & ? & ? & ?);
        [lia|lia|done|]. eauto 10.
Qed.

(** ** Creating the nodes of a path *)

Lemma lookup_from_zero l m key a : (forall i, 0 <= i < 64 -> child m a i = Some 0) ->
  lookup_from l m key a = Some 0.
Proof. intros Hz. destruct l; cbn [lookup_from]; rewrite Hz by apply dig_range; done. Qed.

(** Hanging an empty node where there was none is not seen by look-ups. *)
Lemma lookup_from_create m m' r lv up a la i c : wf m r lv up -> child m a i = Some 0 ->
  lv !! a = Some (S la) -> lv !! c = None ->
  (forall j, 0 <= j < 64 -> child m' a j = if decide (i = j) then Some c else child m a j) ->
  (forall j, 0 <= j < 64 -> child m' c j = Some 0) ->
  (forall b j, b <> a -> b <> c -> child m' b j = child m b j) ->
  forall l key b, lv !! b = Some l -> lookup_from l m' key b = lookup_from l m key b.
Proof.
  intros Hwf Hi Ha Hc Ha' Hc' Hother l key. induction l as [|l IH]; intros b Hb; cbn [lookup_from].
  - rewrite Hother; [done|congruence..].
  - destruct (wf_child _ _ _ _ Hwf b (S l) (dig (S l) key) Hb (dig_range _ _)) as [x Hx].
    assert (Hrec : (if x =? 0 then Some 0 else lookup_from l m' key x) =
                   (if x =? 0 then Some 0 else lookup_from l m key x)).
    { destruct (Z.eqb_spec x 0); [done|]. apply IH.
      by apply (w_child _ _ _ _ Hwf b l (dig (S l) key) x Hb (dig_range _ _) Hx). }
    destruct (decide (b = a)) as [->|Hba].
    + rewrite Ha', Hx by apply dig_range. destruct (decide (i = dig (S l) key)) as [Ei|Hne]; [|exact Hrec].
      cbn. rewrite <- Ei, Hi in Hx. injection Hx as <-. destruct (Z.eqb_spec c 0); [done|].
      by apply lookup_from_zero.
    + rewrite Hother, Hx by congruence. exact Hrec.
Qed.

Lemma create_ok m r lv up a l i : wf m r lv up -> lv !! a = Some (S l) -> 0 <= i < 64 ->
  child m a i = Some 0 ->
  (supply m = [] /\ create_node m a i = Some (- ENOMEM, m)) \/
  exists m' c up', create_node m a i = Some (0, m') /\ wf m' r (<[c := l]> lv) up' /\
    lv !! c = None /\ c <> 0 /\ child m' a i = Some c /\ same_view m r m' r /\
    (forall b, b <> a -> b <> c -> nodes m' !! b = nodes m !! b).
Proof.
  intros Hwf Ha Hi Hz. destruct (supply m) as [|c s] eqn:E.
  { left. split; [done|]. unfold create_node, kmem_alloc. by rewrite E. }
  right. destruct (wf_fresh _ _ _ _ _ _ Hwf E) as (Hc0 & Hc & Hcu & Hnd & Hs).
  destruct (w_node _ _ _ _ Hwf _ _ Ha) as (Ha0 & Hl5 & n & Hn & Hlc & Hlt & Hlb).
  assert (Hca : c <> a) by congruence. unfold create_node, kmem_alloc. rewrite E.
  cbn [nodes]. rewrite Hn. cbn [mbind option_bind].
  destruct (bitmap_set_ok (bitmap n) i Hlb Hi) as (b & -> & Hb). cbn [mbind option_bind].
  set (n' := set_bitmap _ b). set (m1 := put _ c _). set (m' := put m1 a n').
  assert (Hcha : forall j, 0 <= j < 64 -> child m' a j = if decide (i = j) then Some c else child m a j).
  { intros j Hj. unfold m'. rewrite child_put, decide_True by done.
    change (children n') with (children (set_child n i c)). rewrite zget_set_child by done.
    case_decide; [done|]. unfold child. rewrite Hn. done. }
  assert (Hchc : forall j, 0 <= j < 64 -> child m' c j = Some 0).
  { intros j Hj. unfold m', m1. rewrite child_put, decide_False, child_put, decide_True by done.
    by apply child_zero. }
  assert (Hnod : forall x, x <> a -> x <> c -> nodes m' !! x = nodes m !! x).
  { intros x Hxa Hxc. cbn. rewrite !lookup_insert_ne by done. done. }
  assert (Hoth : forall x j, x <> a -> x <> c -> child m' x j = child m x j).
  { intros x j Hxa Hxc. unfold child. rewrite Hnod by done. done. }
  assert (Hwf' : wf m' r (<[c := l]> lv) (<[c := (a, i)]> up)).
  { pose proof Hwf as [W1 W2 W3 W4 W5 W6 W7]. split; try done.
    - intros Hh. destruct (W4 Hh) as [Hr Hru]. rewrite !lookup_insert_ne by congruence. done.
    - intros x k Hx. rewrite lookup_insert in Hx. destruct (decide (c = x)) as [<-|Hxc].
      + injection Hx as <-. split; [done|]. split; [lia|]. exists (set_parent zero_node a). cbn.
        rewrite lookup_insert_ne, lookup_insert_eq by done. done.
      + destruct (decide (a = x)) as [<-|Hxa].
        * split; [done|]. split; [by eapply W5|]. exists n'. cbn. rewrite lookup_insert_eq.
          split_and!; [done| |done|done]. unfold zset. rewrite length_insert. done.
        * destruct (W5 _ _ Hx) as (? & ? & nx & Hnx & ?). split_and!; [done..|]. exists nx.
          rewrite Hnod by done. done.
    - intros x k j v Hx Hj Hv Hv0. rewrite lookup_insert in Hx. destruct (decide (c = x)) as [<-|Hxc].
      + rewrite Hchc in Hv by done. congruence.
      + destruct (decide (a = x)) as [<-|Hxa].
        * rewrite Hcha in Hv by done. destruct (decide (i = j)) as [<-|].
          -- injection Hv as <-. rewrite !lookup_insert_eq. split; [|done]. rewrite Ha in Hx. congruence.
          -- destruct (W6 _ _ _ _ Hx Hj Hv Hv0) as [? ?]. rewrite !lookup_insert_ne by congruence. done.
        * rewrite Hoth in Hv by done. destruct (W6 _ _ _ _ Hx Hj Hv Hv0) as [? ?].
          rewrite !lookup_insert_ne by congruence. done.
    - cbn. split; [done|]. intros x Hx. destruct (Hs x Hx) as (? & ? & ? & ?).
      rewrite !lookup_insert_ne by done. done. }
  exists m', c, (<[c := (a, i)]> up). split_and!; try done.
  - rewrite Hcha, decide_True by done. done.
  - intros key Hk. unfold view. rewrite (lookup_spec _ _ _ _ Hwf' key Hk), (lookup_spec _ _ _ _ Hwf key Hk).
    case_bool_decide as Hh; [|done]. destruct (key <=? max_key r); [|done]. cbn [andb].
    eapply (lookup_from_create m m' r lv up a l i c); eauto. apply (w_root _ _ _ _ Hwf Hh).
Qed.

Lemma same_view_refl m r : same_view m r m r.
Proof. done. Qed.
Lemma same_view_trans m1 r1 m2 r2 m3 r3 :
  same_view m1 r1 m2 r2 -> same_view m2 r2 m3 r3 -> same_view m1 r1 m3 r3.
Proof. intros H1 H2 key Hk. rewrite H2, H1 by done. done. Qed.

(** The way down: either every node of the path exists afterwards, or memory ran out; in
    both cases no look-up changes. *)
Lemma descend_create_ok l fuel m r lv up key a ch : wf m r lv up -> lv !! a = Some l ->
  0 <= key < 2 ^ 32 -> Z.of_nat l = height r - 1 - ch -> (l < fuel)%nat ->
  exists err m' b ch' lv' up', descend_create fuel m r key a ch = Some (err, m', b, ch') /\
    wf m' r lv' up' /\ same_view m r m' r /\
    (forall x k, lv !! x = Some k -> lv' !! x = Some k) /\
    (forall x k, lv !! x = Some k -> (l < k)%nat -> nodes m' !! x = nodes m !! x) /\
    (err = - ENOMEM /\ supply m' = [] \/
     err = 0 /\ ch' = height r - 1 /\ leaf_from l m' key a = Some b /\ lv' !! b = Some O).
Proof.
  revert fuel m lv up a ch. induction l as [|l IH]; intros fuel m lv up a ch Hwf Ha Hk El Hf;
    (destruct fuel as [|fuel]; [lia|]); cbn [descend_create].
  { destruct (Z.ltb_spec (ch + 1) (height r)); [lia|]. exists 0, m, a, ch, lv, up.
    split_and!; try done. right. split_and!; [done|lia|done|done]. }
  destruct (Z.ltb_spec (ch + 1) (height r)); [|lia].
  destruct (w_node _ _ _ _ Hwf _ _ Ha) as (Ha0 & Hl5 & n & Hn & Hlc & _).
  rewrite (NEXT_CHILD_dig r ch key (S l)) by (try done; lia).
  destruct (wf_child _ _ _ _ Hwf a (S l) (dig (S l) key) Ha (dig_range _ _)) as [c Hc].
  pose proof Hc as Hc'. unfold child in Hc'. rewrite Hn in Hc'. cbn in Hc'. rewrite Hn. cbn [mbind option_bind].
  rewrite Hc'. cbn [mbind option_bind].
  (* the recursive call, from the child [d] of [a] in the memory [m1] *)
  assert (Hrec : forall m1 lv1 up1 d, wf m1 r lv1 up1 -> same_view m r m1 r ->
    (forall x k, lv !! x = Some k -> lv1 !! x = Some k) ->
    (forall x k, lv !! x = Some k -> (S l < k)%nat -> nodes m1 !! x = nodes m !! x) ->
    child m1 a (dig (S l) key) = Some d -> d <> 0 -> lv1 !! d = Some l ->
    exists err m' b ch' lv' up', descend_create fuel m1 r key d (ch + 1) = Some (err, m', b, ch') /\
      wf m' r lv' up' /\ same_view m r m' r /\
      (forall x k, lv !! x = Some k -> lv' !! x = Some k) /\
      (forall x k, lv !! x = Some k -> (S l < k)%nat -> nodes m' !! x = nodes m !! x) /\
      (err = - ENOMEM /\ supply m' = [] \/
       err = 0 /\ ch' = height r - 1 /\ leaf_from (S l) m' key a = Some b /\ lv' !! b = Some O)).
  { intros m1 lv1 up1 d Hwf1 Hv1 Hlv1 Hn1 Hd Hd0 Hdl.
    destruct (IH fuel m1 lv1 up1 d (ch + 1) Hwf1 Hdl Hk) as
      (err & m' & b & ch' & lv' & up' & E & Hwf' & Hv' & Hlv' & Hn' & Hor); [lia|lia|].
    exists err, m', b, ch', lv', up'. split_and!; [done|done|by eapply same_view_trans|auto| |].
    - intros x k Hx Hlt. rewrite <- (Hn1 x k Hx Hlt). apply (Hn' x k); [auto|lia].
    - destruct Hor as [Hor|(-> & -> & Hleaf & Hb)]; [by left|right]. split_and!; try done.
      cbn [leaf_from]. assert (Hcd : child m' a (dig (S l) key) = Some d).
      { unfold child in *. rewrite (Hn' a (S l)); [done|auto|lia]. }
      rewrite Hcd. cbn. rewrite (proj2 (Z.eqb_neq d 0)) by done. exact Hleaf. }
  destruct (Z.eqb_spec c 0) as [->|Hc0].
  - destruct (create_ok m r lv up a l (dig (S l) key) Hwf Ha (dig_range _ _) Hc)
      as [[Es ->]|(m1 & d & up1 & -> & Hwf1 & Hdn & Hd0 & Hcd & Hv1 & Hn1)]; cbn [mbind option_bind].
    + exists (- ENOMEM), m, a, ch, lv, up. split_and!; try done. by left.
    + cbn [negb Z.eqb]. pose proof Hcd as Hcd'. unfold child in Hcd'.
      destruct (nodes m1 !! a) as [n1|] eqn:En1; [|done]. cbn in Hcd' |- *. rewrite Hcd'. cbn.
      apply (Hrec m1 (<[d := l]> lv) up1); try done.
      * intros x k Hx. rewrite lookup_insert_ne by congruence. done.
      * intros x k Hx Hlt. apply Hn1; [|congruence]. intros ->. rewrite Ha in Hx. injection Hx. lia.
      * by rewrite lookup_insert_eq.
  - cbn [mbind option_bind negb Z.eqb]. rewrite Hn. cbn [mbind option_bind]. rewrite Hc'. cbn [mbind option_bind].
    apply (Hrec m lv up); try done. by apply (w_child _ _ _ _ Hwf a l (dig (S l) key) c Ha (dig_range _ _) Hc).
Qed.

Lemma expand_until_ok fuel m r lv up key : wf m r lv up -> 0 <= key < 2 ^ 32 ->
  6 - height r <= Z.of_nat fuel ->
  exists err m' r' lv' up', expand_until fuel m r key = Some (err, m', r') /\
    wf m' r' lv' up' /\ same_view m r m' r' /\
    (err = - ENOMEM /\ supply m' = [] \/ err = 0 /\ 0 < height r' /\ key <= max_key r').
Proof.
  intros Hwf Hk. revert m r lv up Hwf. induction fuel as [|fuel IH]; intros m r lv up Hwf Hf;
    pose proof (w_height _ _ _ _ Hwf) as Hh; cbn [expand_until];
    destruct ((height r =? 0) || (max_key r <? key)) eqn:Eb.
  - exfalso. assert (E6 : height r = 6) by lia. rewrite (w_max _ _ _ _ Hwf), E6 in Eb.
    change (MAX_KEY_ID 6) with (2 ^ 32 - 1) in Eb. apply orb_true_iff in Eb as [Eb|Eb]; lia.
  - exists 0, m, r, lv, up. split_and!; try done. right. apply orb_false_iff in Eb as [? ?]. lia.
  - assert (H6 : height r < 6).
    { destruct (Z.eq_dec (height r) 6) as [E6|]; [|lia]. rewrite (w_max _ _ _ _ Hwf), E6 in Eb.
      change (MAX_KEY_ID 6) with (2 ^ 32 - 1) in Eb. apply orb_true_iff in Eb as [Eb|Eb]; lia. }
    destruct (expand_ok _ _ _ _ Hwf H6) as [[Es ->]|(m1 & r1 & lv1 & up1 & -> & Eh & Hwf1 & Hv1)];
      cbn [mbind option_bind].
    + exists (- ENOMEM), m, r, lv, up. split_and!; try done. by left.
    + cbn [negb Z.eqb]. destruct (IH m1 r1 lv1 up1 Hwf1) as
        (err & m' & r' & lv' & up' & -> & Hwf' & Hv' & Hor); [lia|].
      exists err, m', r', lv', up'. split_and!; try done. by eapply same_view_trans.
  - exists 0, m, r, lv, up. split_and!; try done. right. apply orb_false_iff in Eb as [? ?]. lia.
Qed.

(** ** Paths *)

(** Two paths to the same leaf are the same path. *)
Lemma leaf_inj m r lv up l k1 k2 a1 a2 b : wf m r lv up -> lv !! a1 = Some l -> lv !! a2 = Some l ->
  leaf_from l m k1 a1 = Some b -> leaf_from l m k2 a2 = Some b ->
  a1 = a2 /\ forall j, (1 <= j <= l)%nat -> dig j k1 = dig j k2.
Proof.
  intros Hwf. revert a1 a2. induction l as [|l IH]; intros a1 a2 H1 H2 L1 L2; cbn [leaf_from] in L1, L2.
  { split; [congruence|]. lia. }
  destruct (child m a1 _) as [c1|] eqn:E1; [|done]. destruct (child m a2 _) as [c2|] eqn:E2; [|done].
  cbn in L1, L2. destruct (Z.eqb_spec c1 0); [done|]. destruct (Z.eqb_spec c2 0); [done|].
  destruct (w_child _ _ _ _ Hwf _ _ _ _ H1 (dig_range _ _) E1) as [C1 U1]; [done|].
  destruct (w_child _ _ _ _ Hwf _ _ _ _ H2 (dig_range _ _) E2) as [C2 U2]; [done|].
  destruct (IH c1 c2 C1 C2 L1 L2) as [<- Hd]. rewrite U1 in U2. injection U2 as <- Ed.
  split; [done|]. intros j Hj. destruct (decide (j = S l)) as [->|]; [done|]. apply Hd. lia.
Qed.

Lemma key_inj (h : nat) k1 k2 : (h <= 5)%nat -> 0 <= k1 < 2 ^ 32 -> 0 <= k2 < 2 ^ 32 ->
  k1 <= MAX_KEY_ID (Z.of_nat (S h)) -> k2 <= MAX_KEY_ID (Z.of_nat (S h)) ->
  (forall j, (j <= h)%nat -> dig j k1 = dig j k2) -> k1 = k2.
Proof.
  intros Hh H1 H2 M1 M2 Hd. apply max_key_spec in M1, M2; [|lia..].
  pose proof (digs_inj h k1 k2 ltac:(lia) ltac:(lia) Hd) as E. rewrite !Z.mod_small in E by lia. done.
Qed.

Lemma lookup_leaf m r lv up l key a b : wf m r lv up -> lv !! a = Some l ->
  leaf_from l m key a = Some b -> lookup_from l m key a = child m b (dig 0 key).
Proof.
  intros Hwf. revert a. induction l as [|l IH]; intros a Ha Hl; cbn [leaf_from lookup_from] in *.
  { injection Hl as ->. by destruct (child m b (dig 0 key)). }
  destruct (child m a _) as [c|] eqn:E; [|done]. cbn in *. destruct (Z.eqb_spec c 0); [done|].
  apply IH; [|done]. by apply (w_child _ _ _ _ Hwf a l _ c Ha (dig_range _ _) E).
Qed.

(** Storing an item in a leaf: look-ups change on the keys whose path ends there only. *)
Lemma lookup_from_store m m' r lv up b i item : wf m r lv up -> lv !! b = Some O ->
  (forall j, 0 <= j < 64 -> child m' b j = if decide (i = j) then Some item else child m b j) ->
  (forall x j, x <> b -> child m' x j = child m x j) ->
  forall l key a, lv !! a = Some l -> lookup_from l m' key a =
    if bool_decide (leaf_from l m key a = Some b /\ dig 0 key = i) then Some item
    else lookup_from l m key a.
Proof.
  intros Hwf Hb Hset Hoth l key. induction l as [|l IH]; intros a Ha; cbn [lookup_from leaf_from].
  - destruct (decide (a = b)) as [->|Hab].
    + rewrite Hset by apply dig_range. destruct (decide (i = dig 0 key)) as [->|].
      * rewrite bool_decide_true by done. done.
      * rewrite bool_decide_false by naive_solver. done.
    + rewrite Hoth, bool_decide_false by naive_solver. done.
  - rewrite Hoth by congruence.
    destruct (wf_child _ _ _ _ Hwf a (S l) (dig (S l) key) Ha (dig_range _ _)) as [c Hc]. rewrite Hc. cbn.
    destruct (Z.eqb_spec c 0); [by rewrite bool_decide_false by naive_solver|].
    apply IH. by apply (w_child _ _ _ _ Hwf a l _ c Ha (dig_range _ _) Hc).
Qed.

(** A node [n'] with the item stored takes the place of the leaf of [key]. *)
Lemma leaf_store_ok m r lv up key b n n' item : wf m r lv up -> 0 <= key < 2 ^ 32 -> 0 < height r -> key <= max_key r ->
  leaf_from (Z.to_nat (height r - 1)) m key (root_node r) = Some b -> lv !! b = Some O -> nodes m !! b = Some n ->
  children n' = children (set_child n (dig 0 key) item) -> length (tags n') = 1%nat -> length (bitmap n') = 2%nat ->
  wf (put m b n') r lv up /\ forall k, 0 <= k < 2 ^ 32 -> view (put m b n') r k = if decide (k = key) then Some item else view m r k.
Proof.
  intros Hwf Hk Hh Hmax Hleaf Hb Hn Hc Ht Hlb'. destruct (w_root _ _ _ _ Hwf Hh) as [Hroot _]. pose proof (w_height _ _ _ _ Hwf) as Hhr.
  destruct (w_node _ _ _ _ Hwf _ _ Hb) as (Hb0 & _ & n0 & Hn0 & Hlc & Hlt & Hlb). rewrite Hn in Hn0. injection Hn0 as <-.
  set (l := Z.to_nat (height r - 1)) in *. set (m3 := put m b n').
  assert (Hset : forall j, 0 <= j < 64 -> child m3 b j = if decide (dig 0 key = j) then Some item else child m b j).
  { intros j Hj. unfold m3. rewrite child_put, decide_True, Hc by done.
    rewrite zget_set_child by (done || apply dig_range). case_decide; [done|]. unfold child. by rewrite Hn. }
  assert (Hoth : forall x j, x <> b -> child m3 x j = child m x j).
  { intros x j Hx. unfold m3. rewrite child_put, decide_False by done. done. }
  assert (Hwf3 : wf m3 r lv up).
  { destruct Hwf as [W1 W2 W3 W4 W5 W6 W7]. split; try done.
    - intros x k Hx. destruct (W5 _ _ Hx) as (? & ? & nx & Hnx & ?). split_and!; [done..|]. cbn.
      destruct (decide (b = x)) as [<-|]; [|rewrite lookup_insert_ne by done; eauto].
      exists n'. rewrite lookup_insert_eq. split_and!; [done| |done|done]. rewrite Hc. cbn. unfold zset.
      by rewrite length_insert.
    - intros x k j v Hx Hj Hv. rewrite Hoth in Hv by congruence. by eapply W6. }
  split; [done|]. intros k Hk'. unfold view.
  rewrite (lookup_spec _ _ _ _ Hwf3 k Hk'), (lookup_spec _ _ _ _ Hwf k Hk').
  rewrite bool_decide_true by done. cbn [andb]. fold l.
  destruct (decide (k = key)) as [->|Hne].
  - rewrite (proj2 (Z.leb_le _ _)) by done.
    rewrite (lookup_from_store m m3 r lv up b _ item Hwf Hb Hset Hoth l key _ Hroot).
    rewrite bool_decide_true by done. done.
  - destruct (Z.leb_spec k (max_key r)) as [Hkm|]; [|done].
    rewrite (lookup_from_store m m3 r lv up b _ item Hwf Hb Hset Hoth l k _ Hroot).
    rewrite bool_decide_false; [done|]. intros [Hleaf' Hd0]. apply Hne.
    destruct (leaf_inj _ _ _ _ _ _ _ _ _ _ Hwf Hroot Hroot Hleaf' Hleaf) as [_ Hd].
    rewrite (w_max _ _ _ _ Hwf) in Hkm, Hmax. replace (height r) with (Z.of_nat (S l)) in Hkm, Hmax by lia.
    apply (key_inj l); try done; [lia|]. intros j Hj. destruct j as [|j]; [done|]. apply Hd. lia.
Qed.

(** ** Insertion *)

Lemma radix_insert_ok m r lv up key item : wf m r lv up -> 0 <= key < 2 ^ 32 ->
  exists err m' r' lv' up', radix_tree_insert m r key item = Some (err, m', r') /\ wf m' r' lv' up' /\
    (err = 0 /\ view m r key = Some 0 /\
       (forall k, 0 <= k < 2 ^ 32 -> view m' r' k = if decide (k = key) then Some item else view m r k) \/
     err = - EEXIST /\ same_view m r m' r' /\ (exists v, view m r key = Some v /\ v <> 0) \/
     err = - ENOMEM /\ same_view m r m' r' /\ supply m' = []).
Proof.
  intros Hwf Hk. unfold radix_tree_insert.
  destruct (expand_until_ok LEVELS m r lv up key Hwf Hk)
    as (err & m1 & r1 & lv1 & up1 & -> & Hwf1 & Hv1 & [[-> Es]|(-> & Hh & Hmax)]);
    [pose proof (w_height _ _ _ _ Hwf); unfold LEVELS; lia|..]; cbn [mbind option_bind].
  { exists (- ENOMEM), m1, r1, lv1, up1. split_and!; try done. right. right. done. }
  cbn [negb Z.eqb]. destruct (w_root _ _ _ _ Hwf1 Hh) as [Hroot _].
  pose proof (w_height _ _ _ _ Hwf1).
  destruct (descend_create_ok _ LEVELS m1 r1 lv1 up1 key (root_node r1) 0 Hwf1 Hroot Hk)
    as (err & m2 & b & ch & lv2 & up2 & -> & Hwf2 & Hv2 & Hlv2 & _ & [[-> Es]|(-> & -> & Hleaf & Hb)]);
    [lia|unfold LEVELS; lia|..]; cbn [mbind option_bind].
  { exists (- ENOMEM), m2, r1, lv2, up2. split_and!; try done. right. right.
    split_and!; [done|by eapply same_view_trans|done]. }
  cbn [negb Z.eqb]. rewrite (NEXT_CHILD_dig r1 _ key 0) by (try done; lia).
  destruct (w_node _ _ _ _ Hwf2 _ _ Hb) as (Hb0 & _ & n & Hn & Hlc & Hlt & Hlb).
  destruct (wf_child _ _ _ _ Hwf2 b 0 (dig 0 key) Hb (dig_range _ _)) as [c Hc].
  pose proof Hc as Hc'. unfold child in Hc'. rewrite Hn in Hc'. cbn in Hc'.
  rewrite Hn. cbn [mbind option_bind]. rewrite Hc'. cbn [mbind option_bind].
  set (l := Z.to_nat (height r1 - 1)) in *. pose proof (Hlv2 _ _ Hroot) as Hroot2.
  assert (Hview : forall k, 0 <= k < 2 ^ 32 -> view m r k = view m2 r1 k).
  { intros k Hk'. rewrite Hv2, Hv1 by done. done. }
  assert (Hval : view m r key = Some c).
  { rewrite Hview by done. unfold view. rewrite (lookup_spec _ _ _ _ Hwf2 key Hk).
    rewrite bool_decide_true, (proj2 (Z.leb_le _ _)) by done. cbn [andb]. fold l.
    rewrite (lookup_leaf _ _ _ _ _ _ _ _ Hwf2 Hroot2 Hleaf). done. }
  destruct (Z.eqb_spec c 0) as [->|Hc0]; cbn [negb].
  2:{ exists (- EEXIST), m2, r1, lv2, up2. split_and!; try done. right. left.
      split_and!; [done|by eapply same_view_trans|eauto]. }
  destruct (bitmap_set_ok (bitmap n) (dig 0 key) Hlb (dig_range _ _)) as (bm & -> & Hbm).
  cbn [mbind option_bind]. set (n' := set_bitmap _ bm).
  destruct (leaf_store_ok m2 r1 lv2 up2 key b n n' item Hwf2 Hk Hh Hmax Hleaf Hb Hn) as [Hwf3 Hv3]; [done|done|done|].
  exists 0, (put m2 b n'), r1, lv2, up2. split_and!; [done|done|left]. split_and!; [done|done|].
  intros k Hk'. rewrite Hv3, Hview by done. done.
Qed.

(** The empty tree. *)
Lemma init_wf s : NoDup s -> 0 ∉ s -> wf (Mem ∅ s []) radix_tree_init ∅ ∅.
Proof.
  intros Hnd H0. split; cbn; try done; try (intros *; by rewrite lookup_empty).
  split; [done|]. intros a Ha. split; [congruence|done].
Qed.

(** ** Trees as finite maps *)

(** [tree m r M]: the tree rooted at [r] holds the items of [M]. *)
Definition tree (m : mem) (r : radix_s) (M : gmap Z Z) : Prop :=
  (exists lv up, wf m r lv up) /\
  forall k, 0 <= k < 2 ^ 32 -> radix_tree_lookup m r k = Some (default 0 (M !! k)).

Lemma init_tree s : NoDup s -> 0 ∉ s -> tree (Mem ∅ s []) radix_tree_init ∅.
Proof.
  intros Hnd H0. pose proof (init_wf s Hnd H0) as Hwf. split; [eauto|]. intros k Hk.
  rewrite (lookup_spec _ _ _ _ Hwf k Hk). done.
Qed.

Lemma insert_tree m r M key item : tree m r M -> 0 <= key < 2 ^ 32 -> item <> 0 ->
  (forall k v, M !! k = Some v -> v <> 0) ->
  exists err m' r', radix_tree_insert m r key item = Some (err, m', r') /\
    (err = 0 /\ M !! key = None /\ tree m' r' (<[key := item]> M) \/
     err = - EEXIST /\ is_Some (M !! key) /\ tree m' r' M \/
     err = - ENOMEM /\ supply m' = [] /\ tree m' r' M).
Proof.
  intros [(lv & up & Hwf) Hv] Hk Hi HM.
  destruct (radix_insert_ok m r lv up key item Hwf Hk) as (err & m' & r' & lv' & up' & E & Hwf' & Hor).
  exists err, m', r'. split; [done|].
  assert (Hsame : same_view m r m' r' -> tree m' r' M).
  { intros Hs. split; [eauto|]. intros k Hk'. rewrite <- (Hv k Hk'). by apply Hs. }
  destruct Hor as [(-> & Hz & Hnew)|[(-> & Hs & v & Hval & Hv0)|(-> & Hs & Es)]].
  - left. split; [done|]. unfold view in Hz. rewrite Hv in Hz by done. injection Hz as Hz.
    assert (Hnone : M !! key = None).
    { destruct (M !! key) as [x|] eqn:Ex; [|done]. cbn in Hz. subst. by apply HM in Ex. }
    split; [done|]. split; [eauto|]. intros k Hk'. etrans; [exact (Hnew k Hk')|].
    destruct (decide (k = key)) as [->|]; [by rewrite lookup_insert_eq|].
    rewrite lookup_insert_ne by done. by apply Hv.
  - right. left. split_and!; [done| |by apply Hsame]. unfold view in Hval. rewrite Hv in Hval by done.
    destruct (M !! key); [eauto|]. cbn in Hval. congruence.
  - right. right. split_and!; [done|done|by apply Hsame].
Qed.

(** What [radix_item_info_lookup] finds: the slot of the key, when its leaf is there *)
Lemma info_tree m r M key : tree m r M -> 0 <= key < 2 ^ 32 ->
  exists o, radix_item_info_lookup m r key = Some o /\
    match o with
    | None => default 0 (M !! key) = 0
    | Some info => i_item info = default 0 (M !! key) /\ i_index info = dig 0 key /\ 0 < height r /\ key <= max_key r /\
        leaf_from (Z.to_nat (height r - 1)) m key (root_node r) = Some (i_node info)
    end.
Proof.
  intros [(lv & up & Hwf) Hv] Hk. specialize (Hv key Hk). unfold radix_tree_lookup in Hv. unfold radix_item_info_lookup in *.
  pose proof (w_height _ _ _ _ Hwf) as Hh. destruct (Z.eqb_spec (root_node r) 0) as [E0|E0]; [exists None; split; [done|]; cbn in Hv; congruence|].
  destruct (Z.ltb_spec (max_key r) key) as [Hlt|Hge]; [exists None; split; [done|]; cbn in Hv; congruence|].
  assert (Hpos : 0 < height r) by (destruct (decide (0 < height r)); [done|]; rewrite (w_empty _ _ _ _ Hwf) in E0 by lia; done).
  destruct (w_root _ _ _ _ Hwf Hpos) as [Hroot _].
  destruct (descend_lookup _ _ _ _ Hwf _ LEVELS key (root_node r) 0 Hroot Hk) as (b & ch & E & Hm); [lia|unfold LEVELS; lia|]. rewrite E in *. cbn [mbind option_bind] in *.
  destruct (leaf_from _ _ _ _) as [x|]; [|destruct Hm as [-> _]; cbn in *; exists None; split; [done|]; congruence].
  destruct Hm as (-> & -> & Hx & _). destruct (w_node _ _ _ _ Hwf _ _ Hx) as (Hx0 & _ & n & Hn & Hlen & _).
  rewrite (proj2 (Z.eqb_neq x 0)) in * by done. rewrite (NEXT_CHILD_dig r _ key 0) in * by (try done; lia). rewrite Hn in *. cbn [mbind option_bind] in *.
  destruct (zget (children n) (dig 0 key)) as [c|] eqn:Ec; cbn [mbind option_bind] in *; [|done]. eexists. split; [done|]. cbn in *. rewrite Hn in Hv. cbn in Hv. split_and!; try done. congruence.
Qed.

(** The two operations of [radix_item_info_apply] that store an item, with what a lookup has just found *)
Lemma apply_tree d m r M key info op item : tree m r M -> 0 <= key < 2 ^ 32 -> radix_item_info_lookup m r key = Some (Some info) -> op = RADIX_INFO_SET \/ op = RADIX_INFO_INSERT ->
  exists m', radix_item_info_apply d m r info op item = Some (0, m', r) /\ tree m' r (<[key := item]> M).
Proof.
  intros HT Hk Hl Hop. destruct (info_tree m r M key HT Hk) as (o & Ho & Hm). rewrite Hl in Ho. injection Ho as <-. destruct Hm as (_ & Ei & Hh & Hmax & Hleaf).
  destruct HT as [(lv & up & Hwf) Hv]. destruct (w_root _ _ _ _ Hwf Hh) as [Hroot _]. pose proof (w_height _ _ _ _ Hwf) as Hhr.
  destruct (descend_lookup _ _ _ _ Hwf _ LEVELS key (root_node r) 0 Hroot Hk) as (b & ch & _ & Hd); [lia|unfold LEVELS; lia|]. rewrite Hleaf in Hd. destruct Hd as (-> & _ & Hb & _).
  destruct (w_node _ _ _ _ Hwf _ _ Hb) as (_ & _ & n & Hn & _ & Hlt & Hlb). unfold radix_item_info_apply. rewrite Hn, Ei. cbn [mbind option_bind].
  assert (Hdone : forall n', children n' = children (set_child n (dig 0 key) item) -> length (tags n') = 1%nat -> length (bitmap n') = 2%nat -> tree (put m (i_node info) n') r (<[key := item]> M)).
  { intros n' H1 H2 H3. destruct (leaf_store_ok m r lv up key (i_node info) n n' item Hwf Hk Hh Hmax Hleaf Hb Hn H1 H2 H3) as [Hwf' Hv']. split; [eauto|]. intros k Hk'.
    etrans; [exact (Hv' k Hk')|]. destruct (decide (k = key)) as [->|Hne]; [rewrite lookup_insert_eq; done|]. rewrite lookup_insert_ne by done. apply Hv. done. }
  destruct Hop as [-> | ->]; [eexists; split; [done|]; apply Hdone; done|].
  destruct (bitmap_set_ok (bitmap n) (dig 0 key) Hlb (dig_range _ _)) as (bm & -> & Hbm). cbn [mbind option_bind]. eexists. split; [done|]. apply Hdone; done.
Qed.

(** The removal of an item that is not there *)
Lemma delete_absent d m r M key : tree m r M -> 0 <= key < 2 ^ 32 -> M !! key = None -> radix_tree_delete d m r key = Some (0, m, r).
Proof.
  intros HT Hk HM. destruct (info_tree m r M key HT Hk) as (o & Ho & Hm). pose proof (proj2 HT key Hk) as Hv. unfold radix_tree_lookup in Hv. unfold radix_tree_delete. rewrite Ho in *. cbn [mbind option_bind] in *.
  destruct o as [info|]; [|done]. destruct (nodes m !! i_node info) as [n|]; [|done]. cbn [mbind option_bind] in *. rewrite Hv, HM. done.
Qed.

Lemma bitmap_clear_ok (b : bitmap_t) i : length b = 2%nat -> 0 <= i < 64 -> exists b', bitmap_clear b i = Some b' /\ length b' = 2%nat.
Proof.
  intros Hb Hi. unfold bitmap_clear, CPU_WIDTH, W.
  assert (0 <= i / 32 < 2) by (split; [apply Z.div_pos; lia|apply Z.div_lt_upper_bound; lia]).
  destruct (zget_is_Some b (i / 32)) as [w ->]; [unfold zlen; lia|]. cbn. eexists. split; [done|]. unfold zset. rewrite length_insert. done.
Qed.

(** A deletion in a tree of one level takes away just its item when it leaves another one, and not only the one of the key 0. *)
Lemma delete_one_level d m r M key n : tree m r M -> height r = 1 -> nodes m !! root_node r = Some n -> parent n = 0 -> 0 <= key < 2 ^ 32 -> default 0 (M !! key) <> 0 ->
  count n -! 1 <> 0 -> (count n -! 1 = 1 -> key = 0 \/ zget (children n) 0 = Some 0) ->
  exists item n', radix_tree_delete d m r key = Some (item, put m (root_node r) n', r) /\
    children n' = children (set_child n key 0) /\ length (tags n') = 1%nat /\ length (bitmap n') = 2%nat /\ key < 64.
Proof.
  intros HT Hh Hn Hp Hk HM Hc Hs. destruct (info_tree m r M key HT Hk) as (o & Ho & Hm). destruct HT as [(lv & up & Hwf) Hv].
  destruct o as [info|]; [|done]. destruct Hm as (Ei & Ex & _ & Hmax & Hleaf). rewrite Hh in Hleaf. cbn in Hleaf. injection Hleaf as Eb.
  assert (Ek : max_key r = 63) by (rewrite (w_max _ _ _ _ Hwf), Hh; done).
  assert (Hd : dig 0 key = key) by (unfold dig; rewrite Z.div_1_r; apply Z.mod_small; lia). rewrite Hd in Ex.
  destruct (w_root _ _ _ _ Hwf ltac:(lia)) as [Hroot _]. destruct (w_node _ _ _ _ Hwf _ _ Hroot) as (Hr0 & _ & n0 & Hn0 & Hlc & Hlt & Hlb). rewrite Hn in Hn0. injection Hn0 as <-.
  destruct (bitmap_clear_ok (bitmap n) key Hlb ltac:(lia)) as (bm & Ebm & Hlbm).
  destruct (tags n) as [|tg [|? ?]] eqn:Et; try done.
  specialize (Hv key Hk). unfold radix_tree_lookup in Hv. rewrite Ho in Hv. cbn [mbind option_bind] in Hv. rewrite <- Eb, Ex, Hn in Hv. cbn [mbind option_bind] in Hv.
  unfold radix_tree_delete, radix_tree_remove_item. rewrite Ho. cbn [mbind option_bind]. rewrite <- Eb, Ex, Hn. cbn [mbind option_bind]. rewrite Hv. cbn [mbind option_bind].
  rewrite (proj2 (Z.eqb_neq _ 0)) by done. rewrite Ebm. cbn [mbind option_bind].
  set (n' := Node (zset (children n) key 0) [Z.ldiff tg (Z.shiftl 1 key)] bm 0 (count n -! 1)).
  assert (Etags : clear_tags (Z.to_nat NB_TAGS) (set_count (set_bitmap (set_child n key 0) bm) (count (set_bitmap (set_child n key 0) bm) -! 1)) 0 key = Some n').
  { unfold NB_TAGS. change (Z.to_nat 1) with 1%nat. cbn [clear_tags]. unfold TAG_CLEAR, set_tag, set_count, set_bitmap, set_child. cbn [tags children bitmap parent count].
    rewrite Et, Hp. done. }
  rewrite Etags. cbn [mbind option_bind]. change (count n') with (count n -! 1). rewrite (proj2 (Z.eqb_neq _ 0) Hc).
  change (parent n') with 0. cbn [remove_up LEVELS Z.eqb mbind option_bind]. unfold shrink_tree. cbn [shrink_loop LEVELS]. rewrite Hh. cbn [Z.ltb Z.compare].
  change (nodes (put m (root_node r) n')) with (<[root_node r := n']> (nodes m)). rewrite lookup_insert_eq. cbn [mbind option_bind]. change (count n') with (count n -! 1).
  assert (Er : update_max_key r = r) by (unfold update_max_key; rewrite <- (w_max _ _ _ _ Hwf); destruct r; done).
  assert (Hn' : children n' = children (set_child n key 0) /\ length (tags n') = 1%nat /\ length (bitmap n') = 2%nat /\ key < 64) by (split_and!; try done; lia).
  destruct (Z.eqb_spec (count n -! 1) 1) as [E1|E1]; cbn [negb]; [|cbn [mbind option_bind]; rewrite Er; eexists _, n'; split; [done|done]].
  assert (E0 : zget (children n') 0 = Some 0).
  { cbn. pose proof (zget_set_child n key 0 0 Hlc ltac:(lia) ltac:(lia)) as E. cbn in E. rewrite E. destruct (decide (key = 0)); [done|]. destruct (Hs E1) as [?|?]; done. }
  rewrite E0. cbn [mbind option_bind Z.eqb]. rewrite Er. eexists _, n'. split; [done|done].
Qed.

(** ** Properties *)

(** C33: Insertion in a radix tree refines insertion in a finite map. It always returns:
    with 0, when the key was free, and the item is then found at its key and every other
    key of the 32-bit range keeps its item, whatever levels and nodes were added; with
    [-EEXIST] when the key was taken, or with [-ENOMEM] when the node cache is exhausted,
    and then no look-up changes. *)
Theorem radix_insert_refines m r M key item : tree m r M -> 0 <= key < 2 ^ 32 -> item <> 0 ->
  (forall k v, M !! k = Some v -> v <> 0) ->
  exists err m' r', radix_tree_insert m r key item = Some (err, m', r') /\
    (err = 0 /\ M !! key = None /\ tree m' r' (<[key := item]> M) \/
     err = - EEXIST /\ is_Some (M !! key) /\ tree m' r' M \/
     err = - ENOMEM /\ supply m' = [] /\ tree m' r' M).
Proof. apply insert_tree. Qed.

(** The memory used by the witnesses, and a tree with given items. *)
Definition demo_mem : mem := Mem ∅ [0x1000; 0x2000; 0x3000; 0x4000; 0x5000; 0x6000] [].

Fixpoint insert_all (m : mem) (r : radix_s) (l : list (Z * Z)) : option (mem * radix_s) :=
  match l with
  | [] => Some (m, r)
  | (k, v) :: l => '(_, m, r) ← radix_tree_insert m r k v; insert_all m r l
  end.

Lemma demo_tree : tree demo_mem radix_tree_init ∅.
Proof. apply init_tree; [by apply (bool_decide_eq_true _)|by apply (bool_decide_eq_true _)]. Qed.

Lemma radix_insert_refines_witness : exists err m' r',
  radix_tree_insert demo_mem radix_tree_init 5000 7 = Some (err, m', r') /\
  (err = 0 /\ tree m' r' (<[5000 := 7]> ∅) \/ err = - EEXIST \/ err = - ENOMEM).
Proof.
  destruct (radix_insert_refines demo_mem radix_tree_init ∅ 5000 7 demo_tree)
    as (err & m' & r' & E & Hor); [lia|lia|intros k v Hk; by rewrite lookup_empty in Hk|].
  exists err, m', r'. split; [exact E|]. tauto.
Defined.

(** [shrink_tree] does not stop at the last level. When the items of keys 0 and 5 are
    inserted and key 5 is deleted, the tree of height 1 has one child, the item of key 0,
    which becomes the root: the next look-up of key 0 reads the item as a node (here, an
    address outside of the node memory). *)
Theorem radix_shrink_loses_leaf :
  ('(m, r) ← insert_all demo_mem radix_tree_init [(0, 0x77); (5, 0x88)];
   '(item, m, r) ← radix_tree_delete false m r 5;
   Some (item, root_node r, height r, radix_tree_lookup m r 0)) = Some (0x88, 0x77, 0, None).
Proof. vm_compute. reflexivity. Qed.

(** [radix_tree_tag_get] converts a 64-bit mask to [int]: an item at an index of 32 or
    more of its node is reported untagged just after it was tagged; and
    [radix_tree_tag_clear] clears the path of the tag although another item below still has
    it: key 1 stays tagged in its leaf but [radix_tree_tagged] no longer sees it. *)
Theorem radix_tags_lost :
  ('(m, r) ← insert_all demo_mem radix_tree_init [(40, 0x77)];
   '(item, m) ← radix_tree_tag_set m r 40 TAG_PG_DIRTY;
   v ← radix_tree_tag_get m r 40 TAG_PG_DIRTY; Some (item, v)) = Some (0x77, 0) /\
  ('(m, r) ← insert_all demo_mem radix_tree_init [(1, 0x11); (2, 0x22); (100, 0x44)];
   '(_, m) ← radix_tree_tag_set m r 1 TAG_PG_DIRTY;
   '(_, m) ← radix_tree_tag_set m r 2 TAG_PG_DIRTY;
   '(_, m) ← radix_tree_tag_clear m r 2 TAG_PG_DIRTY;
   v ← radix_tree_tag_get m r 1 TAG_PG_DIRTY;
   t ← radix_tree_tagged m r TAG_PG_DIRTY; Some (v, t)) = Some (2, 0).
Proof. split; vm_compute; reflexivity. Qed.

(** [deleted] is not initialised in [radix_tree_remove_item]. With a null initial value
    deleting key 2 keeps the item of key 1; with a non-null one the whole leaf is unlinked
    although it still holds that item. *)
Theorem radix_delete_uninitialised :
  (fun d => '(m, r) ← insert_all demo_mem radix_tree_init [(1, 0x11); (2, 0x22); (100, 0x44)];
            '(_, m, r) ← radix_tree_delete d m r 2; radix_tree_lookup m r 1) <$> [false; true] =
  [Some 0x11; Some 0].
Proof. vm_compute. reflexivity. Qed.
