(* ===== verification/Libk.v ===== *)
(** * Libk: memory and string routines of [kernel/libk]

    [memcpy.c], [memset.c], [strlen.c], [strcpy.c], [strcmp.c], [strchr.c], [ctype.c] and
    [atoi.c], over a byte memory; words are little-endian.  Addresses do not wrap around.
    The loops over strings take a fuel; the theorems give the fuel that is enough. *)

From S2P Require Import Prelude.

(** ** Memory *)

Definition memory := Z -> Z.

Definition bytes_ok (m : memory) : Prop := forall a, 0 <= m a < 256.

Definition store8 (m : memory) (a v : Z) : memory := <[a := v mod 256]> m.
Definition load32 (m : memory) (a : Z) : Z :=
  m a + 2 ^ 8 * m (a + 1) + 2 ^ 16 * m (a + 2) + 2 ^ 24 * m (a + 3).
Definition store32 (m : memory) (a v : Z) : memory :=
  store8 (store8 (store8 (store8 m a v) (a + 1) (v / 2 ^ 8)) (a + 2) (v / 2 ^ 16)) (a + 3) (v / 2 ^ 24).

(** Value of a byte of type [char], which is signed. *)
Definition schar (b : Z) : Z := if b <? 128 then b else b - 256.

(** ** [memcpy] *)

(** [for(i ...; i < n; i++) *((char * ) dest + i) = *((char * ) src + i)], [k] iterations *)
Fixpoint copy_bytes (k : nat) (m : memory) (dest src i : Z) : memory :=
  match k with
  | O => m
  | S k => copy_bytes k (store8 m (dest + i) (m (src + i))) dest src (i + 1)
  end.

Fixpoint copy_words (k : nat) (m : memory) (dest src i : Z) : memory :=
  match k with
  | O => m
  | S k => copy_words k (store32 m (dest + 4 * i) (load32 m (src + 4 * i))) dest src (i + 1)
  end.

(** One round of [do_memcpy_8]: the eight words are read before they are written. *)
Definition copy_8 (m : memory) (dst src : Z) : memory :=
  let b := (fun i => load32 m (src + 4 * i)) <$> seqZ 0 8 in
  foldl (fun m' '(i, v) => store32 m' (dst + 4 * i) v) m (zip (seqZ 0 8) b).

(** The invalidation of cache lines has no effect on the contents of memory. *)
Fixpoint do_memcpy_8 (size : nat) (m : memory) (dst src : Z) : memory :=
  match size with
  | O => m
  | S size => do_memcpy_8 size (copy_8 m dst src) (dst + 32) (src + 32)
  end.

(** The result is the memory and the returned pointer. *)
Definition memcpy (m : memory) (dest src size : Z) : memory * Z :=
  if negb (Z.land dest 3 =? 0) || negb (Z.land src 3 =? 0)
  then (copy_bytes (Z.to_nat size) m dest src 0, dest)
  else
    let isize := Z.shiftr size 5 in
    let m := if negb (isize =? 0) then do_memcpy_8 (Z.to_nat isize) m dest src else m in
    let count := isize <<! 5 in
    let size := size -! count in
    if size =? 0 then (m, dest)
    else
      let dest := dest + count in
      let src := src + count in
      let isize := Z.shiftr size 2 in
      let m := copy_words (Z.to_nat isize) m dest src 0 in
      let i := isize <<! 2 in
      (copy_bytes (Z.to_nat (size - i)) m dest src i, dest).

(** ** [memset] *)

Fixpoint fill_bytes (k : nat) (m : memory) (p c : Z) : memory :=
  match k with O => m | S k => fill_bytes k (store8 m p c) (p + 1) c end.
Fixpoint fill_words (k : nat) (m : memory) (p v : Z) : memory :=
  match k with O => m | S k => fill_words k (store32 m p v) (p + 4) v end.

(** [while(dst_ptr != limit_ptr)]: [size] rounds of eight stores. *)
Fixpoint do_memset_8 (size : nat) (m : memory) (dst val : Z) : memory :=
  match size with
  | O => m
  | S size => do_memset_8 size (fill_words 8 m dst val) (dst + 32) val
  end.

(** [while(((uint32_t) ptr & 0x3) && size && size--)] *)
Fixpoint memset_align (fuel : nat) (m : memory) (ptr c size : Z) : memory * Z * Z :=
  match fuel with
  | O => (m, ptr, size)
  | S fuel =>
      if negb (Z.land ptr 3 =? 0) && negb (size =? 0)
      then memset_align fuel (store8 m ptr c) (ptr + 1) c (size - 1)
      else (m, ptr, size)
  end.

Definition memset (m : memory) (s c size : Z) : memory * Z :=
  let c := Z.land c 0xFF in
  let '(m, ptr, size) := memset_align 4 m s c size in
  if size =? 0 then (m, s)
  else
    let val := u32 (Z.lor (Z.lor (Z.lor (Z.shiftl c 24) (Z.shiftl c 16)) (Z.shiftl c 8)) (Z.land c 0xFF)) in
    let isize := Z.shiftr size 5 in
    let m := if negb (isize =? 0) then do_memset_8 (Z.to_nat isize) m ptr val else m in
    let count := isize <<! 5 in
    let size := size -! count in
    if size =? 0 then (m, s)
    else
      let wptr := ptr + count in
      let isize := Z.shiftr size 2 in
      let m := fill_words (Z.to_nat isize) m wptr val in
      let size := size -! (isize <<! 2) in
      (fill_bytes (Z.to_nat size) m (wptr + 4 * isize) c, s).

(** ** Strings.  [NULL] is 0. *)

Fixpoint strlen_loop (fuel : nat) (m : memory) (ptr : Z) : option Z :=
  match fuel with
  | O => None
  | S fuel => if negb (m ptr =? 0) then strlen_loop fuel m (ptr + 1) else Some ptr
  end.
Definition strlen (fuel : nat) (m : memory) (str : Z) : option Z :=
  if str =? 0 then Some 0 else p ← strlen_loop fuel m str; Some (p - str).

Fixpoint strnlen_loop (fuel : nat) (m : memory) (ptr count : Z) : option Z :=
  match fuel with
  | O => None
  | S fuel => if negb (m ptr =? 0) && (0 <? count) then strnlen_loop fuel m (ptr + 1) (count - 1)
              else Some ptr
  end.
Definition strnlen (fuel : nat) (m : memory) (str count : Z) : option Z :=
  if str =? 0 then Some 0 else p ← strnlen_loop fuel m str count; Some (p - str).

Fixpoint strcpy_loop (fuel : nat) (m : memory) (dst_ptr src_ptr : Z) : option memory :=
  match fuel with
  | O => None
  | S fuel =>
      if negb (m src_ptr =? 0)
      then strcpy_loop fuel (store8 m dst_ptr (m src_ptr)) (dst_ptr + 1) (src_ptr + 1)
      else Some (store8 m dst_ptr 0)
  end.
Definition strcpy (fuel : nat) (m : memory) (dest src : Z) : option (memory * Z) :=
  if (dest =? 0) || (src =? 0) then Some (m, dest)
  else m ← strcpy_loop fuel m dest src; Some (m, dest).

(** The two loops of [strncpy]: [k] is [n - i]; [copying] tells which loop runs. *)
Fixpoint strncpy_loop (k : nat) (copying : bool) (m : memory) (dest src i : Z) : memory :=
  match k with
  | O => m
  | S k =>
      let copying := copying && negb (m (src + i) =? 0) in
      let v := if copying then m (src + i) else 0 in
      strncpy_loop k copying (store8 m (dest + i) v) dest src (i + 1)
  end.
Definition strncpy (m : memory) (dest src n : Z) : memory * Z :=
  (strncpy_loop (Z.to_nat n) true m dest src 0, dest).

Fixpoint strcmp_loop (fuel : nat) (m : memory) (s1 s2 : Z) : option Z :=
  match fuel with
  | O => None
  | S fuel =>
      if negb (m s1 =? 0) && (m s1 =? m s2) then strcmp_loop fuel m (s1 + 1) (s2 + 1)
      else Some (schar (m s1) - schar (m s2))
  end.
Definition strcmp (fuel : nat) (m : memory) (s1 s2 : Z) : option Z :=
  if (s1 =? 0) || (s2 =? 0) then Some (s32 (s1 - s2)) else strcmp_loop fuel m s1 s2.

Fixpoint strncmp_loop (fuel : nat) (m : memory) (s1 s2 n : Z) : option Z :=
  match fuel with
  | O => None
  | S fuel =>
      if negb (m s1 =? 0) && (m s1 =? m s2) && (1 <? n) then strncmp_loop fuel m (s1 + 1) (s2 + 1) (n - 1)
      else Some (schar (m s1) - schar (m s2))
  end.
Definition strncmp (fuel : nat) (m : memory) (s1 s2 n : Z) : option Z :=
  if (s1 =? 0) || (s2 =? 0) || (n =? 0) then Some (s32 (s1 - s2)) else strncmp_loop fuel m s1 s2 n.

Fixpoint strchr_loop (fuel : nat) (m : memory) (s c : Z) : option Z :=
  match fuel with
  | O => None
  | S fuel =>
      if negb (m s =? 0) && negb (m s =? c mod 256) then strchr_loop fuel m (s + 1) c
      else Some (if m s =? c mod 256 then s else 0)
  end.
Definition strchr (fuel : nat) (m : memory) (s c : Z) : option Z :=
  if s =? 0 then Some 0 else strchr_loop fuel m s c.

(** ** Characters *)

Definition isprint (c : Z) : Z := if (c - 32) mod 256 <? 127 - 32 then 1 else 0.
Definition isalpha (c : Z) : Z := if (Z.lor c 0x20 - 97) mod 256 <? 26 then 1 else 0.
Definition isspace (c : Z) : Z := if (c =? 32) || (c - 9 <? 5) then 1 else 0.
Definition toupper (c : Z) : Z := if negb (isalpha c =? 0) then Z.land c (Z.lnot 0x20) else c.

(** [while(isspace( *nptr));] does not move the pointer. *)
Fixpoint atoi_spaces (fuel : nat) (m : memory) (nptr : Z) : option unit :=
  match fuel with
  | O => None
  | S fuel => if negb (isspace (schar (m nptr)) =? 0) then atoi_spaces fuel m nptr else Some tt
  end.
Fixpoint atoi_loop (fuel : nat) (m : memory) (nptr num : Z) : option Z :=
  match fuel with
  | O => None
  | S fuel =>
      if negb (m nptr =? 0) then
        let c := schar (m nptr) in
        let num := if (48 <=? c) && (c <=? 57) then s32 (num * 10 + (c - 48)) else num in
        atoi_loop fuel m (nptr + 1) num
      else Some num
  end.
Definition atoi (fuel : nat) (m : memory) (nptr : Z) : option Z :=
  _ ← atoi_spaces fuel m nptr;
  let signe := if m nptr =? 45 then -1 else 1 in
  num ← atoi_loop fuel m nptr 0;
  Some (s32 (num * signe)).

(** ** Lemmas *)

(** [m'] is [m] with [n] bytes copied from [s] to [d]. *)
Definition copied (m m' : memory) (d s n : Z) : Prop :=
  forall x, m' x = if decide (d <= x < d + n) then m (x - d + s) else m x.
Definition filled (m m' : memory) (p n c : Z) : Prop :=
  forall x, m' x = if decide (p <= x < p + n) then c else m x.

Definition disjoint_ranges (a b n : Z) : Prop := a + n <= b \/ b + n <= a.

Ltac fcase := repeat match goal with
  | |- context [decide (?P)] => destruct (decide P); try lia
  | H : context [decide (?P)] |- _ => destruct (decide P); try lia
  end.

Lemma store8_mod m a v x : store8 m a v x = if decide (x = a) then v mod 256 else m x.
Proof.
  unfold store8, insert, fn_insert. destruct (decide (a = x)), (decide (x = a)); congruence.
Qed.

Lemma store8_spec m a v x : 0 <= v < 256 -> store8 m a v x = if decide (x = a) then v else m x.
Proof. intros Hv. rewrite store8_mod, Z.mod_small by lia. done. Qed.

(** The four bytes of a word. *)
Lemma word_bytes b0 b1 b2 b3 v : 0 <= b0 < 256 -> 0 <= b1 < 256 -> 0 <= b2 < 256 -> 0 <= b3 < 256 ->
  v = b0 + 2 ^ 8 * b1 + 2 ^ 16 * b2 + 2 ^ 24 * b3 ->
  v mod 256 = b0 /\ v / 2 ^ 8 mod 256 = b1 /\ v / 2 ^ 16 mod 256 = b2 /\ v / 2 ^ 24 mod 256 = b3.
Proof.
  intros H0 H1 H2 H3 ->.
  assert (E1 : (b0 + 2 ^ 8 * b1 + 2 ^ 16 * b2 + 2 ^ 24 * b3) / 2 ^ 8 = b1 + 2 ^ 8 * b2 + 2 ^ 16 * b3).
  { symmetry. apply (Z.div_unique_pos _ _ _ b0); lia. }
  assert (E2 : (b0 + 2 ^ 8 * b1 + 2 ^ 16 * b2 + 2 ^ 24 * b3) / 2 ^ 16 = b2 + 2 ^ 8 * b3).
  { symmetry. apply (Z.div_unique_pos _ _ _ (b0 + 2 ^ 8 * b1)); lia. }
  assert (E3 : (b0 + 2 ^ 8 * b1 + 2 ^ 16 * b2 + 2 ^ 24 * b3) / 2 ^ 24 = b3).
  { symmetry. apply (Z.div_unique_pos _ _ _ (b0 + 2 ^ 8 * b1 + 2 ^ 16 * b2)); lia. }
  rewrite E1, E2, E3. split_and!; symmetry.
  - apply (Z.mod_unique_pos _ _ (b1 + 2 ^ 8 * b2 + 2 ^ 16 * b3)); lia.
  - apply (Z.mod_unique_pos _ _ (b2 + 2 ^ 8 * b3)); lia.
  - apply (Z.mod_unique_pos _ _ b3); lia.
  - apply (Z.mod_unique_pos _ _ 0); lia.
Qed.

Lemma store32_load32 m m0 d s x : bytes_ok m0 -> store32 m d (load32 m0 s) x =
  if decide (d <= x < d + 4) then m0 (x - d + s) else m x.
Proof.
  intros Hb. destruct (word_bytes (m0 s) (m0 (s + 1)) (m0 (s + 2)) (m0 (s + 3)) (load32 m0 s))
    as (E0 & E1 & E2 & E3); [apply Hb..|done|].
  unfold store32. rewrite !store8_mod, E0, E1, E2, E3. fcase; try done; f_equal; lia.
Qed.

Lemma copied_bytes_ok m m' d s n : bytes_ok m -> copied m m' d s n -> bytes_ok m'.
Proof. intros Hb Hc a. rewrite Hc. case_decide; apply Hb. Qed.

Lemma copied_refl m d s : copied m m d s 0.
Proof. intros x. by fcase. Qed.

Lemma copied_app m m1 m2 d s n1 n2 : 0 <= n1 -> 0 <= n2 -> disjoint_ranges d s (n1 + n2) ->
  copied m m1 d s n1 -> copied m1 m2 (d + n1) (s + n1) n2 -> copied m m2 d s (n1 + n2).
Proof.
  intros Hn1 Hn2 Hd H1 H2 x. unfold disjoint_ranges in Hd. rewrite H2, !H1.
  fcase; try done; f_equal; lia.
Qed.

Lemma copy_bytes_ok k m d s i : bytes_ok m -> disjoint_ranges (d + i) (s + i) (Z.of_nat k) ->
  copied m (copy_bytes k m d s i) (d + i) (s + i) (Z.of_nat k).
Proof.
  revert m i. induction k as [|k IH]; intros m i Hb Hd; cbn [copy_bytes]; [apply copied_refl|].
  unfold disjoint_ranges in Hd.
  assert (H1 : copied m (store8 m (d + i) (m (s + i))) (d + i) (s + i) 1).
  { intros x. rewrite store8_spec by apply Hb. fcase; try done; f_equal; lia. }
  replace (Z.of_nat (S k)) with (1 + Z.of_nat k) by lia.
  eapply copied_app; [lia|lia|unfold disjoint_ranges; lia|exact H1|].
  replace (d + i + 1) with (d + (i + 1)) by lia. replace (s + i + 1) with (s + (i + 1)) by lia.
  apply IH; [by eapply copied_bytes_ok|unfold disjoint_ranges; lia].
Qed.

Lemma copy_words_ok k m d s i : bytes_ok m -> disjoint_ranges (d + 4 * i) (s + 4 * i) (4 * Z.of_nat k) ->
  copied m (copy_words k m d s i) (d + 4 * i) (s + 4 * i) (4 * Z.of_nat k).
Proof.
  revert m i. induction k as [|k IH]; intros m i Hb Hd; cbn [copy_words]; [apply copied_refl|].
  unfold disjoint_ranges in Hd.
  assert (H1 : copied m (store32 m (d + 4 * i) (load32 m (s + 4 * i))) (d + 4 * i) (s + 4 * i) 4).
  { intros x. by rewrite store32_load32. }
  replace (4 * Z.of_nat (S k)) with (4 + 4 * Z.of_nat k) by lia.
  eapply copied_app; [lia|lia|unfold disjoint_ranges; lia|exact H1|].
  replace (d + 4 * i + 4) with (d + 4 * (i + 1)) by lia.
  replace (s + 4 * i + 4) with (s + 4 * (i + 1)) by lia.
  apply IH; [by eapply copied_bytes_ok|unfold disjoint_ranges; lia].
Qed.

Lemma copy_stores n m m' d s j x : bytes_ok m -> 0 <= j ->
  foldl (fun m' '(i, v) => store32 m' (d + 4 * i) v) m'
    (zip (seqZ j (Z.of_nat n)) ((fun i => load32 m (s + 4 * i)) <$> seqZ j (Z.of_nat n))) x =
  if decide (d + 4 * j <= x < d + 4 * j + 4 * Z.of_nat n) then m (x - d + s) else m' x.
Proof.
  intros Hb. revert m' j. induction n as [|n IH]; intros m' j Hj; [cbn; by fcase|].
  rewrite seqZ_cons by lia. replace (Z.pred (Z.of_nat (S n))) with (Z.of_nat n) by lia.
  cbn [fmap list_fmap zip_with foldl]. rewrite IH, store32_load32 by (done || lia).
  fcase; try done; f_equal; lia.
Qed.

Lemma copy_8_ok m d s : bytes_ok m -> copied m (copy_8 m d s) d s 32.
Proof.
  intros Hb x. unfold copy_8. change (seqZ 0 8) with (seqZ 0 (Z.of_nat 8)).
  rewrite (copy_stores 8 m m d s 0 x Hb) by lia. by fcase.
Qed.

Lemma do_memcpy_8_ok k m d s : bytes_ok m -> disjoint_ranges d s (32 * Z.of_nat k) ->
  copied m (do_memcpy_8 k m d s) d s (32 * Z.of_nat k).
Proof.
  revert m d s. induction k as [|k IH]; intros m d s Hb Hd; cbn [do_memcpy_8]; [apply copied_refl|].
  unfold disjoint_ranges in Hd.
  replace (32 * Z.of_nat (S k)) with (32 + 32 * Z.of_nat k) by lia.
  eapply copied_app; [lia|lia|unfold disjoint_ranges; lia|by apply copy_8_ok|].
  apply IH; [|unfold disjoint_ranges; lia]. eapply copied_bytes_ok; [done|by apply copy_8_ok].
Qed.

(** The splitting of a size in rounds of 32 bytes, words and bytes. *)
Lemma split_size size k : 0 <= size < 2 ^ 32 -> 0 <= k <= 5 ->
  Z.shiftr size k = size / 2 ^ k /\ (Z.shiftr size k) <<! k = 2 ^ k * (size / 2 ^ k) /\
  size -! ((Z.shiftr size k) <<! k) = size mod 2 ^ k.
Proof.
  intros Hs Hk. assert (0 < 2 ^ k) by (apply Z.pow_pos_nonneg; lia).
  rewrite Z.shiftr_div_pow2, Z.shiftl_mul_pow2 by lia.
  pose proof (Z.div_mod size (2 ^ k) ltac:(lia)). pose proof (Z.mod_pos_bound size (2 ^ k) ltac:(lia)).
  pose proof (Z.div_pos size (2 ^ k) ltac:(lia) ltac:(lia)).
  rewrite (Z.mul_comm (size / 2 ^ k)).
  assert (E : u32 (2 ^ k * (size / 2 ^ k)) = 2 ^ k * (size / 2 ^ k)) by (apply u32_small; unfold is_u32; nia).
  rewrite E, u32_small by (unfold is_u32; nia). split_and!; lia.
Qed.

Lemma memcpy_copied m dest src size : bytes_ok m -> 0 <= size < 2 ^ 32 ->
  disjoint_ranges dest src size -> copied m (memcpy m dest src size).1 dest src size.
Proof.
  intros Hb Hs Hd. unfold memcpy. destruct (negb _ || negb _).
  { cbn. pose proof (copy_bytes_ok (Z.to_nat size) m dest src 0 Hb) as H.
    rewrite !Z.add_0_r, Z2Nat.id in H by lia. auto. }
  destruct (split_size size 5 Hs ltac:(lia)) as (E1 & E2 & E3). rewrite E2, E3 || rewrite E3, E2.
  rewrite E1. change (2 ^ 5) with 32 in *.
  pose proof (Z.mod_pos_bound size 32 ltac:(lia)). pose proof (Z.div_mod size 32 ltac:(lia)) as Edm.
  pose proof (Z.div_pos size 32 ltac:(lia) ltac:(lia)). set (q := size / 32) in *. set (t := size mod 32) in *.
  set (m1 := if negb (q =? 0) then _ else m).
  assert (C1 : copied m m1 dest src (32 * q)).
  { unfold m1. destruct (Z.eqb_spec q 0) as [->|]; cbn; [apply copied_refl|].
    pose proof (do_memcpy_8_ok (Z.to_nat q) m dest src Hb) as H8. rewrite Z2Nat.id in H8 by lia.
    apply H8. unfold disjoint_ranges in *. lia. }
  assert (Hb1 : bytes_ok m1) by (by eapply copied_bytes_ok).
  destruct (Z.eqb_spec t 0) as [Et|Et]; cbn [fst].
  { replace size with (32 * q) by lia. exact C1. }
  destruct (split_size t 2 ltac:(lia) ltac:(lia)) as (F1 & F2 & F3). rewrite F2, F1.
  change (2 ^ 2) with 4 in *. pose proof (Z.div_mod t 4 ltac:(lia)).
  pose proof (Z.mod_pos_bound t 4 ltac:(lia)). pose proof (Z.div_pos t 4 ltac:(lia) ltac:(lia)).
  set (w := t / 4) in *. set (m2 := copy_words _ m1 _ _ 0).
  assert (C2 : copied m1 m2 (dest + 32 * q) (src + 32 * q) (4 * w)).
  { pose proof (copy_words_ok (Z.to_nat w) m1 (dest + 32 * q) (src + 32 * q) 0 Hb1) as Hw.
    rewrite Z.mul_0_r, !Z.add_0_r, Z2Nat.id in Hw by lia. apply Hw. unfold disjoint_ranges in *. lia. }
  pose proof (copy_bytes_ok (Z.to_nat (t - 4 * w)) m2 (dest + 32 * q) (src + 32 * q) (4 * w)) as C3.
  rewrite Z2Nat.id in C3 by lia.
  replace size with (32 * q + (4 * w + (t - 4 * w))) by lia.
  unfold disjoint_ranges in *.
  eapply copied_app; [lia|lia|unfold disjoint_ranges; lia|exact C1|].
  eapply copied_app; [lia|lia|unfold disjoint_ranges; lia|exact C2|].
  apply C3; [by eapply copied_bytes_ok|unfold disjoint_ranges; lia].
Qed.

(** *** [memset] *)

Lemma filled_refl m p c : filled m m p 0 c.
Proof. intros x. by fcase. Qed.

Lemma filled_app m m1 m2 p n1 n2 c : 0 <= n1 -> 0 <= n2 ->
  filled m m1 p n1 c -> filled m1 m2 (p + n1) n2 c -> filled m m2 p (n1 + n2) c.
Proof. intros Hn1 Hn2 H1 H2 x. rewrite H2, !H1. by fcase. Qed.

Lemma fill_bytes_ok k m p c : 0 <= c < 256 -> filled m (fill_bytes k m p c) p (Z.of_nat k) c.
Proof.
  intros Hc. revert m p. induction k as [|k IH]; intros m p; cbn [fill_bytes]; [apply filled_refl|].
  replace (Z.of_nat (S k)) with (1 + Z.of_nat k) by lia.
  apply (filled_app _ (store8 m p c)); [lia|lia| |apply IH].
  intros x. rewrite store8_spec by done. by fcase.
Qed.

Definition rep_word (c : Z) : Z := c + 2 ^ 8 * c + 2 ^ 16 * c + 2 ^ 24 * c.

Lemma store32_rep m p c : 0 <= c < 256 -> filled m (store32 m p (rep_word c)) p 4 c.
Proof.
  intros Hc x. destruct (word_bytes c c c c (rep_word c)) as (E0 & E1 & E2 & E3); [done..|].
  unfold store32. rewrite !store8_mod, E0, E1, E2, E3. by fcase.
Qed.

Lemma fill_words_ok k m p c : 0 <= c < 256 -> filled m (fill_words k m p (rep_word c)) p (4 * Z.of_nat k) c.
Proof.
  intros Hc. revert m p. induction k as [|k IH]; intros m p; cbn [fill_words]; [apply filled_refl|].
  replace (4 * Z.of_nat (S k)) with (4 + 4 * Z.of_nat k) by lia.
  apply (filled_app _ (store32 m p (rep_word c))); [lia|lia|by apply store32_rep|apply IH].
Qed.

Lemma do_memset_8_ok k m p c : 0 <= c < 256 -> filled m (do_memset_8 k m p (rep_word c)) p (32 * Z.of_nat k) c.
Proof.
  intros Hc. revert m p. induction k as [|k IH]; intros m p; cbn [do_memset_8]; [apply filled_refl|].
  replace (32 * Z.of_nat (S k)) with (32 + 32 * Z.of_nat k) by lia.
  apply (filled_app _ (fill_words 8 m p (rep_word c))); [lia|lia| |apply IH].
  pose proof (fill_words_ok 8 m p c Hc). done.
Qed.

(** The word built with shifts and ors. *)
Lemma memset_word c : 0 <= c < 256 ->
  u32 (Z.lor (Z.lor (Z.lor (Z.shiftl c 24) (Z.shiftl c 16)) (Z.shiftl c 8)) (Z.land c 0xFF)) = rep_word c.
Proof.
  intros Hc. assert (Hall : forallb (fun c => Z.eqb
    (u32 (Z.lor (Z.lor (Z.lor (Z.shiftl c 24) (Z.shiftl c 16)) (Z.shiftl c 8)) (Z.land c 0xFF)))
    (rep_word c)) (seqZ 0 256) = true) by (vm_compute; reflexivity).
  rewrite forallb_forall in Hall. apply Z.eqb_eq, Hall.
  apply list_elem_of_In, elem_of_seqZ. lia.
Qed.

Lemma memset_align_ok k m ptr c size : 0 <= c < 256 -> 0 <= size ->
  exists j, 0 <= j <= size /\ memset_align k m ptr c size =
    ((memset_align k m ptr c size).1.1, ptr + j, size - j) /\
    filled m (memset_align k m ptr c size).1.1 ptr j c.
Proof.
  intros Hc. revert m ptr size. induction k as [|k IH]; intros m ptr size Hs; cbn [memset_align].
  { exists 0. rewrite Z.add_0_r, Z.sub_0_r. split_and!; [lia|lia|done|apply filled_refl]. }
  destruct (negb _ && negb (size =? 0)) eqn:E.
  - apply andb_true_iff in E as [_ E]. apply negb_true_iff, Z.eqb_neq in E.
    destruct (IH (store8 m ptr c) (ptr + 1) (size - 1)) as (j & Hj & Ej & Hf); [lia|].
    exists (1 + j). split; [lia|]. split.
    + rewrite Ej. cbn. f_equal; [f_equal|]; lia.
    + apply (filled_app _ (store8 m ptr c)); [lia|lia| |done].
      intros x. rewrite store8_spec by done. by fcase.
  - exists 0. rewrite Z.add_0_r, Z.sub_0_r. split_and!; [lia|lia|done|apply filled_refl].
Qed.

Lemma memset_filled m s c size : 0 <= size < 2 ^ 32 ->
  filled m (memset m s c size).1 s size (c mod 256) /\ (memset m s c size).2 = s.
Proof.
  intros Hs. assert (Ec : Z.land c 0xFF = c mod 256).
  { change 0xFF with (Z.ones 8). rewrite Z.land_ones by lia. done. }
  pose proof (Z.mod_pos_bound c 256 ltac:(lia)) as Hc. unfold memset. rewrite Ec.
  set (b := c mod 256) in *. destruct (memset_align_ok 4 m s b size Hc ltac:(lia)) as (j & Hj & Ej & Hf).
  rewrite Ej. set (m0 := (memset_align _ _ _ _ _).1.1) in *.
  destruct (Z.eqb_spec (size - j) 0) as [Ez|Ez].
  { cbn. split; [|done]. replace size with j by lia. exact Hf. }
  rewrite memset_word by done.
  destruct (split_size (size - j) 5 ltac:(lia) ltac:(lia)) as (E1 & E2 & E3).
  rewrite E3, E2, E1. change (2 ^ 5) with 32 in *. set (r := size - j) in *.
  pose proof (Z.mod_pos_bound r 32 ltac:(lia)). pose proof (Z.div_mod r 32 ltac:(lia)).
  pose proof (Z.div_pos r 32 ltac:(lia) ltac:(lia)). set (q := r / 32) in *. set (t := r mod 32) in *.
  set (m1 := if negb (q =? 0) then _ else m0).
  assert (C1 : filled m m1 s (j + 32 * q) b).
  { apply (filled_app _ m0); [lia|lia|done|]. unfold m1.
    destruct (Z.eqb_spec q 0) as [->|]; cbn [negb]; [apply filled_refl|].
    pose proof (do_memset_8_ok (Z.to_nat q) m0 (s + j) b Hc) as H8. by rewrite Z2Nat.id in H8 by lia. }
  destruct (Z.eqb_spec t 0) as [Et|Et]; cbn [fst snd].
  { split; [|done]. replace size with (j + 32 * q) by lia. exact C1. }
  destruct (split_size t 2 ltac:(lia) ltac:(lia)) as (F1 & F2 & F3). rewrite F3, F1.
  change (2 ^ 2) with 4 in *. pose proof (Z.div_mod t 4 ltac:(lia)).
  pose proof (Z.mod_pos_bound t 4 ltac:(lia)). pose proof (Z.div_pos t 4 ltac:(lia) ltac:(lia)).
  set (w := t / 4) in *. split; [|done].
  pose proof (fill_words_ok (Z.to_nat w) m1 (s + (j + 32 * q)) b Hc) as C2.
  pose proof (fill_bytes_ok (Z.to_nat (t mod 4)) (fill_words (Z.to_nat w) m1 (s + j + 32 * q) (rep_word b))
    (s + j + 32 * q + 4 * w) b Hc) as C3.
  rewrite Z2Nat.id in C2, C3 by lia. rewrite !Z.add_assoc in C2.
  replace size with (j + 32 * q + (4 * w + t mod 4)) by lia.
  eapply filled_app; [lia|lia|exact C1|]. rewrite !Z.add_assoc.
  eapply filled_app; [lia|lia|exact C2|exact C3].
Qed.

(** *** Strings *)

(** [cstr m a l]: the string at [a] has the (non-null) bytes [l]. *)
Fixpoint cstr (m : memory) (a : Z) (l : list Z) : Prop :=
  match l with
  | [] => m a = 0
  | b :: l => m a = b /\ b <> 0 /\ cstr m (a + 1) l
  end.

Lemma strlen_loop_ok fuel m a l : cstr m a l -> (length l < fuel)%nat ->
  strlen_loop fuel m a = Some (a + zlen l).
Proof.
  revert fuel a. induction l as [|b l IH]; intros fuel a Hs Hf; (destruct fuel as [|fuel]; [cbn in Hf; lia|]);
    cbn [strlen_loop]; cbn in Hs.
  - rewrite Hs. cbn. f_equal. unfold zlen. cbn. lia.
  - destruct Hs as (-> & Hb & Hs). rewrite (proj2 (Z.eqb_neq b 0)) by done. cbn [negb].
    rewrite IH by (done || (cbn in Hf; lia)). f_equal. rewrite zlen_cons. lia.
Qed.

Lemma cstr_frame m m' a l : (forall x, a <= x <= a + zlen l -> m' x = m x) -> cstr m a l -> cstr m' a l.
Proof.
  revert a. induction l as [|b l IH]; intros a Hf; cbn.
  - intros <-. apply Hf. unfold zlen. cbn. lia.
  - rewrite zlen_cons in Hf. pose proof (zlen_nonneg l). intros (<- & Hb & Hs). split; [apply Hf; lia|].
    split; [done|]. apply IH; [|done]. intros x Hx. apply Hf. lia.
Qed.

Lemma strcpy_loop_ok fuel m d s l : bytes_ok m -> cstr m s l -> (length l < fuel)%nat ->
  disjoint_ranges d s (zlen l + 1) ->
  exists m', strcpy_loop fuel m d s = Some m' /\ copied m m' d s (zlen l + 1).
Proof.
  revert fuel m d s. induction l as [|b l IH]; intros fuel m d s Hb Hs Hf Hd;
    (destruct fuel as [|fuel]; [cbn in Hf; lia|]); cbn [strcpy_loop]; cbn in Hs.
  - rewrite Hs. cbn. eexists. split; [done|]. intros x. rewrite store8_spec by lia.
    unfold zlen. cbn. fcase; try done. replace (x - d + s) with s by lia. done.
  - destruct Hs as (Eb & Hb0 & Hs). rewrite Eb, (proj2 (Z.eqb_neq b 0)) by done. cbn [negb].
    rewrite zlen_cons in *. pose proof (zlen_nonneg l). unfold disjoint_ranges in Hd.
    assert (C1 : copied m (store8 m d b) d s 1).
    { intros x. rewrite store8_spec by (rewrite <- Eb; apply Hb). fcase; try done.
      replace (x - d + s) with s by lia. done. }
    destruct (IH fuel (store8 m d b) (d + 1) (s + 1)) as (m' & -> & C2).
    + by eapply copied_bytes_ok.
    + eapply cstr_frame; [|exact Hs]. intros x Hx. rewrite C1. by fcase.
    + cbn in Hf. lia.
    + unfold disjoint_ranges. lia.
    + exists m'. split; [done|]. replace (zlen l + 1 + 1) with (1 + (zlen l + 1)) by lia.
      eapply copied_app; [lia|lia|unfold disjoint_ranges; lia|exact C1|exact C2].
Qed.

(** The comparison of two strings: equal, or decided by the first difference. *)
Lemma strcmp_loop_ok fuel m s1 s2 l1 l2 : bytes_ok m -> cstr m s1 l1 -> cstr m s2 l2 ->
  (length l1 < fuel)%nat -> exists r, strcmp_loop fuel m s1 s2 = Some r /\ (r = 0 <-> l1 = l2).
Proof.
  assert (Hinj : forall x y, 0 <= x < 256 -> 0 <= y < 256 -> schar x - schar y = 0 -> x = y).
  { intros x y Hx Hy. unfold schar. zcases; lia. }
  intros Hb. revert fuel s1 s2 l2. induction l1 as [|b l1 IH]; intros fuel s1 s2 l2 H1 H2 Hf;
    (destruct fuel as [|fuel]; [cbn in Hf; lia|]); cbn [strcmp_loop]; cbn in H1.
  - rewrite H1. cbn [Z.eqb negb andb]. eexists. split; [done|]. destruct l2 as [|b2 l2]; cbn in H2.
    + rewrite H2. done.
    + destruct H2 as (E2 & Hb2 & _). split; [|done]. intros Hr.
      apply Hinj in Hr; [congruence|lia|apply Hb].
  - destruct H1 as (E1 & Hb1 & H1). rewrite E1, (proj2 (Z.eqb_neq b 0)) by done. cbn [negb andb].
    destruct (Z.eqb_spec b (m s2)) as [E|E].
    + destruct l2 as [|b2 l2]; cbn in H2; [congruence|]. destruct H2 as (E2 & Hb2 & H2).
      destruct (IH fuel (s1 + 1) (s2 + 1) l2) as (r & -> & Hr); [done|done|cbn in Hf; lia|].
      exists r. split; [done|]. rewrite Hr. split; congruence.
    + eexists. split; [done|]. split.
      * intros Hr. apply Hinj in Hr; [done| |apply Hb]. rewrite <- E1. apply Hb.
      * intros <-. cbn in H2. destruct H2 as (E2 & _). congruence.
Qed.

(** ** Properties *)

(** C40: [memcpy] copies. For ranges that do not overlap, at any alignment and for any size,
    the blocks of 32 bytes, the words and the trailing bytes together copy exactly the
    [size] bytes and nothing else changes. *)
Theorem memcpy_correct m dest src size : bytes_ok m -> 0 <= size < 2 ^ 32 ->
  disjoint_ranges dest src size ->
  forall x, (memcpy m dest src size).1 x =
    if decide (dest <= x < dest + size) then m (x - dest + src) else m x.
Proof. intros Hb Hs Hd. by apply memcpy_copied. Qed.

Lemma memcpy_correct_witness :
  (memcpy (fun a => a mod 256) 0x1000 0x2000 77).1 0x104B = 0x204B mod 256.
Proof.
  rewrite (memcpy_correct (fun a => a mod 256) 0x1000 0x2000 77);
    [reflexivity|intros a; apply Z.mod_pos_bound; lia|lia|left; lia].
Defined.

(** [memcpy] does not always return [dest]: for aligned ranges whose size is not a
    multiple of 32, it returns [dest] advanced by the blocks of 32 bytes, because the
    parameter was changed. *)
Theorem memcpy_returned_pointer m : (memcpy m 0x1000 0x2000 40).2 = 0x1020.
Proof. reflexivity. Qed.

(** [memset] fills exactly the [size] bytes with the low byte of [c], at any alignment,
    and returns its argument. *)
Theorem memset_correct m s c size : 0 <= size < 2 ^ 32 ->
  (forall x, (memset m s c size).1 x = if decide (s <= x < s + size) then c mod 256 else m x) /\
  (memset m s c size).2 = s.
Proof. intros Hs. destruct (memset_filled m s c size Hs) as [Hf Hr]. split; [exact Hf|exact Hr]. Qed.

Lemma memset_correct_witness : (memset (fun _ => 0) 0x1003 0x1AB 77).1 0x1010 = 0xAB.
Proof. rewrite (proj1 (memset_correct (fun _ => 0) 0x1003 0x1AB 77 ltac:(lia))). reflexivity. Defined.

(** Strings. With a fuel above the length of the string (the loops end at the null
    byte), [strlen] returns the length, [strcpy] copies the string with its end to a
    disjoint buffer, and [strcmp] returns 0 exactly for equal strings. *)
Theorem strings_correct fuel m s l d s2 l2 : bytes_ok m -> s <> 0 -> cstr m s l ->
  (length l < fuel)%nat -> d <> 0 -> disjoint_ranges d s (zlen l + 1) -> s2 <> 0 -> cstr m s2 l2 ->
  strlen fuel m s = Some (zlen l) /\
  (exists m', strcpy fuel m d s = Some (m', d) /\ copied m m' d s (zlen l + 1)) /\
  (exists r, strcmp fuel m s s2 = Some r /\ (r = 0 <-> l = l2)).
Proof.
  intros Hb Hs0 Hs Hf Hd0 Hd Hs20 Hs2. unfold strlen, strcpy, strcmp.
  rewrite (proj2 (Z.eqb_neq s 0)), (proj2 (Z.eqb_neq d 0)), (proj2 (Z.eqb_neq s2 0)) by done.
  rewrite (strlen_loop_ok fuel m s l Hs Hf). cbn [mbind option_bind orb]. split_and!.
  - f_equal. lia.
  - destruct (strcpy_loop_ok fuel m d s l Hb Hs Hf Hd) as (m' & -> & Hc). cbn. eauto.
  - by apply strcmp_loop_ok.
Qed.

(** The string "ab" at address 16. *)
Definition demo_string : memory := fun a => if a =? 16 then 97 else if a =? 17 then 98 else 0.

Lemma strings_correct_witness : strlen 3 demo_string 16 = Some 2.
Proof.
  destruct (strings_correct 3 demo_string 16 [97; 98] 32 16 [97; 98]) as [E _];
    [intros a; unfold demo_string; zcases; lia|lia|repeat split; lia|cbn; lia|lia
    |right; vm_compute; discriminate|lia|repeat split; lia|exact E].
Defined.

(** [isspace] accepts every character below 14, the null byte included, and the loop of
    [atoi] that skips spaces does not advance: [atoi] never returns on an empty string or on
    a string that starts with a space, whatever the fuel. *)
Theorem atoi_hangs fuel m nptr : m nptr = 0 \/ m nptr = 32 -> atoi fuel m nptr = None.
Proof.
  intros Hm. unfold atoi. assert (E : atoi_spaces fuel m nptr = None).
  { induction fuel as [|fuel IH]; cbn [atoi_spaces]; [done|]. destruct Hm as [Hm|Hm]; rewrite Hm in *; exact IH. }
  rewrite E. done.
Qed.

Lemma atoi_hangs_witness : atoi 100 (fun _ => 0) 16 = None.
Proof. apply (atoi_hangs 100 (fun _ => 0) 16). left. reflexivity. Defined.
