(* ===== verification/Spinlock.v ===== *)
(** * Spinlock: the spinlocks of [kernel/kern/spinlock.c]

    The value of a lock is 0 when it is free, -1 when a writer holds it, and the number of its
    readers otherwise; a writer that waits for readers sets the sign bit.  Each operation is cut
    at its accesses to the value: a load, then a compare-and-swap, an atomic addition or a store.
    [spinlock_check], which may give the processor away between two tries, and the interrupts,
    which the operations mask, do not touch the value. *)

From S2P Require Import Prelude.

Definition SL_WRITER : Z := 0x80000000.

(** The functions that take a lock: [spin_lock], [spinlock_lock], [spinlock_rdlock],
    [spinlock_trylock], [spinlock_tryrdlock] and [spinlock_lock_noirq]. *)
Inductive lock_op := SpinLock | Lock | RdLock | TryLock | TryRdLock | LockNoirq.

(** A reader or a writer *)
Definition reads (op : lock_op) : bool :=
  match op with RdLock | TryRdLock => true | _ => false end.

(** Where a thread is: outside; before the load of an attempt; after a load of [val]; with the lock
    (as a reader or not); in [__spinlock_unlock], before and after its load. *)
Inductive pc :=
  | Out | Try (op : lock_op) | Seen (op : lock_op) (val : Z)
  | In (rd : bool) | Unlock (rd : bool) | UnlockSeen (rd : bool) (val : Z).

(** [cpu_atomic_cas] *)
Definition cas (cur old new : Z) : bool * Z := if cur =? old then (true, new) else (false, cur).

(** What a thread does after the load of [val], on a lock whose value is [cur]: the body of the loop
    of each function, or the whole of those that try once. *)
Definition spin_lock (val cur : Z) : Z * pc :=
  if negb (val =? 0) then (cur, Try SpinLock)
  else let '(isAtomic, cur) := cas cur 0 (-1) in (cur, if isAtomic then In false else Try SpinLock).

Definition spinlock_lock (val cur : Z) : Z * pc :=
  if 0 <? val then (snd (cas cur val (s32 (Z.lor val SL_WRITER))), Try Lock)
  else if negb (val =? 0) then (cur, Try Lock)
  else let '(isAtomic, cur) := cas cur 0 (-1) in (cur, if isAtomic then In false else Try Lock).

Definition spinlock_rdlock (val cur : Z) : Z * pc :=
  if val <? 0 then (cur, Try RdLock)
  else let '(isAtomic, cur) := cas cur val (s32 (val + 1)) in (cur, if isAtomic then In true else Try RdLock).

Definition spinlock_trylock (val cur : Z) : Z * pc :=
  let '(isAtomic, cur) := if val =? 0 then cas cur 0 (-1) else (false, cur) in
  (cur, if isAtomic then In false else Out).

Definition spinlock_tryrdlock (val cur : Z) : Z * pc :=
  let '(isAtomic, cur) := if 0 <=? val then cas cur val (s32 (val + 1)) else (false, cur) in
  (cur, if isAtomic then In true else Out).

Definition spinlock_lock_noirq (val cur : Z) : Z * pc :=
  let '(isAtomic, cur) := if val =? 0 then cas cur 0 (-1) else (false, cur) in
  (cur, if isAtomic then In false else Try LockNoirq).

Definition attempt (op : lock_op) : Z -> Z -> Z * pc :=
  match op with
  | SpinLock => spin_lock | Lock => spinlock_lock | RdLock => spinlock_rdlock
  | TryLock => spinlock_trylock | TryRdLock => spinlock_tryrdlock | LockNoirq => spinlock_lock_noirq
  end.

(** [__spinlock_unlock] and [spinlock_unlock_noirq] after their load *)
Definition __spinlock_unlock (val cur : Z) : Z := if val <? 0 then 0 else s32 (cur - 1).

(** One access of a thread to the lock *)
Definition access (cur : Z) (p : pc) : Z * pc :=
  match p with
  | Try op => (cur, Seen op cur)
  | Seen op val => attempt op val cur
  | Unlock rd => (cur, UnlockSeen rd cur)
  | UnlockSeen rd val => (__spinlock_unlock val cur, Out)
  | Out | In _ => (cur, p)
  end.

(** [this->locks_count] follows the entries and the exits. *)
Definition locks_delta (p p' : pc) : Z :=
  match p, p' with
  | Seen _ _, In _ => 1
  | UnlockSeen _ _, Out => -1
  | _, _ => 0
  end.

Record sys := Sys { value : Z; pcs : Z -> pc; locks_count : Z -> Z }.

(** [n] threads that use the operations that satisfy [allowed] *)
Inductive step (allowed : lock_op -> bool) (n : Z) : sys -> sys -> Prop :=
| step_call s t op : 0 <= t < n -> pcs s t = Out -> allowed op = true ->
    step allowed n s (Sys (value s) (<[t := Try op]> (pcs s)) (locks_count s))
| step_leave s t rd : pcs s t = In rd ->
    step allowed n s (Sys (value s) (<[t := Unlock rd]> (pcs s)) (locks_count s))
| step_access s t val' p' : pcs s t <> Out -> access (value s) (pcs s t) = (val', p') ->
    step allowed n s (Sys val' (<[t := p']> (pcs s))
                       (<[t := locks_count s t + locks_delta (pcs s t) p']> (locks_count s))).

(** [spinlock_init] and [spin_init]: the value is 0. *)
Definition spinlock_init : Z := 0.
Definition initial : sys := Sys spinlock_init (fun _ => Out) (fun _ => 0).

(** The thread has the lock: as a reader, as a writer. *)
Definition reading (p : pc) : bool := match p with In true | Unlock true | UnlockSeen true _ => true | _ => false end.
Definition writing (p : pc) : bool := match p with In false | Unlock false | UnlockSeen false _ => true | _ => false end.

(** ** Exclusion *)

(** What a thread knows of the value between two of its accesses. *)
Definition local_ok (allowed : lock_op -> bool) (p : pc) : Prop :=
  match p with
  | Try op => allowed op = true
  | Seen op _ => allowed op = true
  | UnlockSeen true val => 0 <= val
  | UnlockSeen false val => val = -1
  | _ => True
  end.

(** The writers' operation that sets the sign bit is not used together with the readers'. *)
Definition compatible (allowed : lock_op -> bool) : Prop :=
  allowed Lock = false \/ (allowed RdLock = false /\ allowed TryRdLock = false).

Record inv (allowed : lock_op -> bool) (n : Z) (s : sys) (rs : list Z) (wr : option Z) : Prop := {
  inv_readers : forall t, reading (pcs s t) = true <-> t ∈ rs;
  inv_writer : forall t, writing (pcs s t) = true <-> wr = Some t;
  inv_nodup : NoDup rs;
  inv_value : match wr with Some _ => value s = -1 /\ rs = [] | None => value s = zlen rs end;
  inv_local : forall t, local_ok allowed (pcs s t);
  inv_range : forall t, pcs s t <> Out -> 0 <= t < n;
  inv_norw : allowed RdLock = false -> allowed TryRdLock = false -> rs = [];
  inv_counts : forall t, locks_count s t = Z.b2z (reading (pcs s t) || writing (pcs s t));
}.

Section Exclusion.
Context (allowed : lock_op -> bool) (n : Z) (Hcompat : compatible allowed) (Hn : n < 2 ^ 31).
Implicit Types (s : sys) (rs : list Z) (wr : option Z) (p : pc).

Lemma threads_bound (l : list Z) : NoDup l -> (forall t, t ∈ l -> 0 <= t < n) -> zlen l <= Z.max 0 n.
Proof.
  intros Hnd Hin. assert (Hsub : l ⊆+ seqZ 0 n).
  { apply NoDup_submseteq; [done|]. intros t Ht. apply elem_of_seqZ. specialize (Hin t Ht). lia. }
  apply submseteq_length in Hsub. rewrite length_seqZ in Hsub. unfold zlen. lia.
Qed.

Lemma reader_range s rs wr t : inv allowed n s rs wr -> t ∈ rs -> 0 <= t < n.
Proof.
  intros I Ht. apply (inv_readers _ _ _ _ _ I) in Ht. apply (inv_range _ _ _ _ _ I). intros Hp. rewrite Hp in Ht. done.
Qed.

(** A step that neither enters nor leaves *)
Lemma inv_move s rs wr t p' : inv allowed n s rs wr -> 0 <= t < n \/ p' = Out ->
  reading p' = reading (pcs s t) -> writing p' = writing (pcs s t) -> local_ok allowed p' ->
  inv allowed n (Sys (value s) (<[t := p']> (pcs s)) (locks_count s)) rs wr.
Proof.
  intros [] Hr H1 H2 Hl. split; cbn; try done.
  - intros u. destruct (decide (u = t)) as [->|]; [rewrite fn_lookup_insert, H1|rewrite fn_lookup_insert_ne by done]; done.
  - intros u. destruct (decide (u = t)) as [->|]; [rewrite fn_lookup_insert, H2|rewrite fn_lookup_insert_ne by done]; done.
  - intros u. destruct (decide (u = t)) as [->|]; [rewrite fn_lookup_insert|rewrite fn_lookup_insert_ne by done]; done.
  - intros u. destruct (decide (u = t)) as [->|]; [rewrite fn_lookup_insert; tauto|rewrite fn_lookup_insert_ne by done; auto].
  - intros u. destruct (decide (u = t)) as [->|]; [rewrite fn_lookup_insert, H1, H2|rewrite fn_lookup_insert_ne by done]; done.
Qed.

(** A step that enters or leaves, with the value and the holders after it *)
Lemma sl_inv_change s rs wr t p' v' rs' wr' d : inv allowed n s rs wr -> 0 <= t < n ->
  local_ok allowed p' ->
  (reading p' = true <-> t ∈ rs') -> (forall u, u <> t -> u ∈ rs' <-> u ∈ rs) ->
  (writing p' = true <-> wr' = Some t) -> (forall u, u <> t -> wr' = Some u <-> wr = Some u) ->
  NoDup rs' -> match wr' with Some _ => v' = -1 /\ rs' = [] | None => v' = zlen rs' end ->
  (allowed RdLock = false -> allowed TryRdLock = false -> rs' = []) ->
  Z.b2z (reading (pcs s t) || writing (pcs s t)) + d = Z.b2z (reading p' || writing p') ->
  inv allowed n (Sys v' (<[t := p']> (pcs s)) (<[t := locks_count s t + d]> (locks_count s))) rs' wr'.
Proof.
  intros [] Hr Hl H1 H2 H3 H4 Hnd Hv Hno Hd. split; cbn; try done.
  - intros u. destruct (decide (u = t)) as [->|Hu]; [rewrite fn_lookup_insert; done|].
    rewrite fn_lookup_insert_ne, H2 by done. done.
  - intros u. destruct (decide (u = t)) as [->|Hu]; [rewrite fn_lookup_insert; done|].
    rewrite fn_lookup_insert_ne, H4 by done. done.
  - intros u. destruct (decide (u = t)) as [->|]; [rewrite fn_lookup_insert|rewrite fn_lookup_insert_ne by done]; done.
  - intros u. destruct (decide (u = t)) as [->|]; [done|rewrite fn_lookup_insert_ne by done; auto].
  - intros u. destruct (decide (u = t)) as [->|Hu].
    + rewrite !fn_lookup_insert, inv_counts0. done.
    + rewrite !fn_lookup_insert_ne by done. done.
Qed.

Lemma enter_write s rs wr t : inv allowed n s rs wr -> 0 <= t < n -> value s = 0 ->
  reading (pcs s t) = false -> writing (pcs s t) = false ->
  inv allowed n (Sys (-1) (<[t := In false]> (pcs s)) (<[t := locks_count s t + 1]> (locks_count s))) [] (Some t).
Proof.
  intros I Ht Hv Hr Hw. pose proof (inv_value _ _ _ _ _ I) as Hval. destruct wr as [w|]; [destruct Hval; lia|].
  assert (rs = []) as -> by (destruct rs as [|x rs]; [done|rewrite zlen_cons in Hval; pose proof (zlen_nonneg rs); lia]).
  apply (sl_inv_change s [] None); try done; cbn.
  - rewrite elem_of_nil. done.
  - intros u Hu. split; [congruence|done].
  - apply NoDup_nil. done.
  - rewrite Hr, Hw. done.
Qed.

Lemma enter_read s rs wr t : inv allowed n s rs wr -> 0 <= t < n -> 0 <= value s ->
  reading (pcs s t) = false -> writing (pcs s t) = false ->
  (allowed RdLock = true \/ allowed TryRdLock = true) ->
  inv allowed n (Sys (s32 (value s + 1)) (<[t := In true]> (pcs s)) (<[t := locks_count s t + 1]> (locks_count s))) (t :: rs) None.
Proof.
  intros I Ht Hv Hr Hw Hal. pose proof (inv_value _ _ _ _ _ I) as Hval.
  destruct wr as [w|]; [destruct Hval; lia|]. pose proof (zlen_nonneg rs).
  assert (Hnin : t ∉ rs) by (rewrite <- (inv_readers _ _ _ _ _ I), Hr; done).
  assert (Hnd : NoDup (t :: rs)) by (apply NoDup_cons; split; [done|apply I]).
  assert (Hb : zlen (t :: rs) <= Z.max 0 n).
  { apply threads_bound; [done|]. intros u [->|Hu]%elem_of_cons; [done|]. eapply reader_range; done. }
  rewrite zlen_cons in Hb. apply (sl_inv_change s rs None); try done; cbn.
  - rewrite elem_of_cons. tauto.
  - intros u Hu. rewrite elem_of_cons. tauto.
  - rewrite zlen_cons, s32_small by lia. lia.
  - intros. destruct Hal; congruence.
  - rewrite Hr, Hw. done.
Qed.

Lemma leave_write s rs wr t v : inv allowed n s rs wr -> pcs s t = UnlockSeen false v ->
  inv allowed n (Sys (__spinlock_unlock v (value s)) (<[t := Out]> (pcs s)) (<[t := locks_count s t + -1]> (locks_count s))) [] None.
Proof.
  intros I Hp. pose proof (inv_local _ _ _ _ _ I t) as Hl. rewrite Hp in Hl. cbn in Hl. subst v.
  assert (Hw : wr = Some t) by (apply (inv_writer _ _ _ _ _ I); rewrite Hp; done).
  pose proof (inv_value _ _ _ _ _ I) as Hval. rewrite Hw in Hval. destruct Hval as [_ ->].
  apply (sl_inv_change s [] wr); try done; cbn.
  - apply (inv_range _ _ _ _ _ I). rewrite Hp. done.
  - rewrite elem_of_nil. done.
  - intros u Hu. rewrite Hw. split; congruence.
  - apply NoDup_nil. done.
  - rewrite Hp. done.
Qed.

Lemma leave_read s rs wr t v : inv allowed n s rs wr -> pcs s t = UnlockSeen true v ->
  inv allowed n (Sys (__spinlock_unlock v (value s)) (<[t := Out]> (pcs s)) (<[t := locks_count s t + -1]> (locks_count s)))
      (filter (fun u => u <> t) rs) None.
Proof.
  intros I Hp. pose proof (inv_local _ _ _ _ _ I t) as Hl. rewrite Hp in Hl. cbn in Hl.
  assert (Hin : t ∈ rs) by (apply (inv_readers _ _ _ _ _ I); rewrite Hp; done).
  assert (Hb : zlen rs <= Z.max 0 n) by (apply threads_bound; [apply I|]; intros; eapply reader_range; done).
  pose proof (inv_value _ _ _ _ _ I) as Hval.
  destruct wr as [w|]; [destruct Hval as [_ ->]; apply not_elem_of_nil in Hin; done|].
  assert (Hlen : zlen rs = zlen (filter (fun u => u <> t) rs) + 1).
  { rewrite <- (filter_all rs) at 1. apply filter_flip with t; try done; [apply I|tauto]. }
  apply (sl_inv_change s rs None); try done; cbn.
  - apply (inv_range _ _ _ _ _ I). rewrite Hp. done.
  - rewrite list_elem_of_filter. split; [done|tauto].
  - intros u Hu. rewrite list_elem_of_filter. tauto.
  - apply NoDup_filter, I.
  - unfold __spinlock_unlock. rewrite (proj2 (Z.ltb_ge _ _)) by done. pose proof (zlen_nonneg (filter (fun u => u <> t) rs)).
    rewrite s32_small by lia. lia.
  - intros H1 H2. rewrite (inv_norw _ _ _ _ _ I H1 H2). done.
  - rewrite Hp. done.
Qed.

Lemma inv_stay s rs wr t p' : inv allowed n s rs wr -> 0 <= t < n ->
  reading p' = reading (pcs s t) -> writing p' = writing (pcs s t) -> local_ok allowed p' ->
  inv allowed n (Sys (value s) (<[t := p']> (pcs s)) (<[t := locks_count s t + 0]> (locks_count s))) rs wr.
Proof.
  intros I Ht Hr Hw Hl. apply (sl_inv_change s rs wr); try done; try apply I.
  - rewrite Hr. apply I.
  - rewrite Hw. apply I.
  - rewrite Hr, Hw. lia.
Qed.

(** An attempt leaves the lock as it is, takes it, or announces a writer to the readers. *)
Lemma attempt_cases op val cur cur' p' : attempt op val cur = (cur', p') ->
  (cur' = cur /\ (p' = Try op \/ p' = Out)) \/
  (reads op = false /\ cur = 0 /\ cur' = -1 /\ p' = In false) \/
  (reads op = true /\ 0 <= cur /\ cur' = s32 (cur + 1) /\ p' = In true) \/
  (op = Lock /\ 0 < cur /\ p' = Try Lock).
Proof.
  destruct op; cbn;
    unfold spin_lock, spinlock_lock, spinlock_rdlock, spinlock_trylock, spinlock_tryrdlock, spinlock_lock_noirq, cas;
    zcases; cbn; intros Heq; simplify_eq; try (left; tauto); try (right; left; tauto);
    right; right; first [left; split_and!; done || lia | right; split_and!; done || lia].
Qed.

Lemma inv_attempt s rs wr t op val cur' p' : inv allowed n s rs wr -> pcs s t = Seen op val ->
  attempt op val (value s) = (cur', p') -> exists rs' wr',
  inv allowed n (Sys cur' (<[t := p']> (pcs s)) (<[t := locks_count s t + locks_delta (pcs s t) p']> (locks_count s))) rs' wr'.
Proof.
  intros I Hp Ha. pose proof (inv_local _ _ _ _ _ I t) as Hl. rewrite Hp in Hl. cbn in Hl.
  assert (Ht : 0 <= t < n) by (apply (inv_range _ _ _ _ _ I); rewrite Hp; done). rewrite Hp. cbn [locks_delta].
  destruct (attempt_cases op val (value s) cur' p' Ha) as [[-> Hc]|[(Ho & Hv & -> & ->)|[(Ho & Hv & -> & ->)|(-> & Hv & ->)]]].
  - exists rs, wr. destruct Hc as [-> | ->]; apply inv_stay; rewrite ?Hp; done.
  - exists [], (Some t). apply (enter_write s rs wr); rewrite ?Hp; done.
  - exists (t :: rs), None. apply (enter_read s rs wr); rewrite ?Hp; try done. destruct op; cbn in Ho; try done; auto.
  - exfalso. destruct Hcompat as [Hc|[H1 H2]]; [congruence|]. pose proof (inv_norw _ _ _ _ _ I H1 H2) as ->.
    pose proof (inv_value _ _ _ _ _ I) as Hval. destruct wr; [destruct Hval; lia|unfold zlen in Hval; cbn in Hval; lia].
Qed.

Lemma sl_inv_step s s' rs wr : inv allowed n s rs wr -> step allowed n s s' -> exists rs' wr', inv allowed n s' rs' wr'.
Proof.
  intros I Hs. destruct Hs as [s t op Ht Hp Ho|s t rd Hp|s t val' p' Hp Ha].
  - exists rs, wr. apply inv_move; rewrite ?Hp; auto.
  - assert (Ht : 0 <= t < n) by (apply (inv_range _ _ _ _ _ I); rewrite Hp; done).
    exists rs, wr. apply inv_move; rewrite ?Hp; auto; destruct rd; done.
  - pose proof (inv_range _ _ _ _ _ I t Hp) as Ht. pose proof (inv_local _ _ _ _ _ I t) as Hl.
    destruct (pcs s t) as [|op|op val|rd|rd|rd val] eqn:Et; cbn in Ha; try done.
    + simplify_eq. exists rs, wr. apply inv_stay; rewrite ?Et; done.
    + rewrite <- Et. eapply inv_attempt; done.
    + simplify_eq. exists rs, wr. apply inv_stay; rewrite ?Et; done.
    + simplify_eq. exists rs, wr. pose proof (inv_value _ _ _ _ _ I) as Hval.
      apply inv_stay; rewrite ?Et; try done; try (destruct rd; done). destruct rd; cbn.
      * assert (Hin : t ∈ rs) by (apply (inv_readers _ _ _ _ _ I); rewrite Et; done). pose proof (zlen_nonneg rs).
        destruct wr; [destruct Hval as [_ ->]; apply not_elem_of_nil in Hin; done|lia].
      * assert (wr = Some t) as -> by (apply (inv_writer _ _ _ _ _ I); rewrite Et; done). apply Hval.
    + simplify_eq. cbn [locks_delta]. destruct rd; eexists _, _; [eapply leave_read|eapply leave_write]; done.
Qed.

Lemma sl_inv_initial : inv allowed n initial [] None.
Proof. split; cbn; try done; intros; [rewrite elem_of_nil; done|apply NoDup_nil; done]. Qed.
End Exclusion.

(** The operations that are used with one lock, the states they reach *)
Definition reachable (allowed : lock_op -> bool) (n : Z) : sys -> Prop := rtc (step allowed n) initial.

Lemma sl_reachable_inv allowed n s : compatible allowed -> n < 2 ^ 31 -> reachable allowed n s -> exists rs wr, inv allowed n s rs wr.
Proof.
  intros Hc Hn Hr. unfold reachable in Hr. revert s Hr.
  apply (rtc_ind_r (R := step allowed n) (fun s => exists rs wr, inv allowed n s rs wr) initial); [exists [], None; apply sl_inv_initial|].
  intros s1 s2 _ Hstep (rs & wr & I). eapply sl_inv_step; done.
Qed.

(** C28: A writer is alone, and the count of the locks of a thread is exact: at any moment, for any
    number of threads below 2^31 and any interleaving of the accesses of [spin_lock], [spinlock_lock],
    [spinlock_rdlock], [spinlock_trylock], [spinlock_tryrdlock], [spinlock_lock_noirq] and of the
    unlocks, as long as [spinlock_lock] is not mixed with the readers' operations on the same lock. *)
Theorem spinlock_exclusion allowed n s : compatible allowed -> n < 2 ^ 31 -> reachable allowed n s ->
  (forall t u, writing (pcs s t) = true -> t <> u -> writing (pcs s u) = false /\ reading (pcs s u) = false) /\
  (forall t, locks_count s t = Z.b2z (reading (pcs s t) || writing (pcs s t))).
Proof.
  intros Hc Hn Hr. destruct (sl_reachable_inv allowed n s Hc Hn Hr) as (rs & wr & I). split; [|apply I].
  intros t u Hw Hne. apply (inv_writer _ _ _ _ _ I) in Hw. pose proof (inv_value _ _ _ _ _ I) as Hval.
  rewrite Hw in Hval. destruct Hval as [_ ->]. split; apply not_true_is_false; intros H.
  - apply (inv_writer _ _ _ _ _ I) in H. congruence.
  - apply (inv_readers _ _ _ _ _ I) in H. apply not_elem_of_nil in H. done.
Qed.

Lemma spinlock_exclusion_witness :
  writing (pcs (Sys (-1) (<[0 := In false]> (<[0 := Seen Lock 0]> (<[0 := Try Lock]> (fun _ => Out))))
     (<[0 := 1]> (<[0 := 0]> (fun _ => 0)))) 0) = true /\
  reading (pcs (Sys (-1) (<[0 := In false]> (<[0 := Seen Lock 0]> (<[0 := Try Lock]> (fun _ => Out))))
     (<[0 := 1]> (<[0 := 0]> (fun _ => 0)))) 1) = false.
Proof.
  split; [done|]. refine (proj2 (proj1 (spinlock_exclusion (fun op => negb (reads op)) 2 _ _ _ _) 0 1 _ _)); try done.
  - right. done.
  - eapply rtc_l; [apply (step_call _ _ _ 0 Lock); done|].
    eapply rtc_l; [apply (step_access _ _ _ 0); done|].
    eapply rtc_l; [apply (step_access _ _ _ 0); done|]. apply rtc_refl.
Defined.

(** ** A writer announced to the readers *)

(** Runs of one access each: a call, an exit or an access, as the thread can. *)
Definition move (op : Z -> lock_op) (s : sys) (t : Z) : sys :=
  match pcs s t with
  | Out => Sys (value s) (<[t := Try (op t)]> (pcs s)) (locks_count s)
  | In rd => Sys (value s) (<[t := Unlock rd]> (pcs s)) (locks_count s)
  | p => let '(val', p') := access (value s) p in
         Sys val' (<[t := p']> (pcs s)) (<[t := locks_count s t + locks_delta p p']> (locks_count s))
  end.

Lemma move_step allowed n op s t : 0 <= t < n -> allowed (op t) = true -> step allowed n s (move op s t).
Proof.
  intros Ht Ho. unfold move. destruct (pcs s t) eqn:Ep; try (apply step_call; done); try (apply step_leave; done);
    rewrite <- Ep; destruct (access (value s) (pcs s t)) as [v p'] eqn:Ea; apply step_access; rewrite ?Ep in *; done.
Qed.

Lemma moves_reachable allowed n op l s : Forall (fun t => 0 <= t < n /\ allowed (op t) = true) l ->
  reachable allowed n s -> reachable allowed n (fold_left (move op) l s).
Proof.
  intros Hl. revert s. induction Hl as [|t l [Ht Ho] Hl IH]; intros s Hs; cbn; [done|].
  apply IH. eapply rtc_r; [done|]. apply move_step; done.
Qed.

(** [spinlock_lock] mixed with [spinlock_rdlock] is not exclusive: while two readers have the lock,
    a waiting writer sets the sign bit of the value; the first reader that unlocks then reads a negative
    value and stores 0, as if it were the writer, so that the writer enters with the other reader inside. *)
Theorem spinlock_rdlock_not_exclusive : exists s, reachable (fun _ => true) 3 s /\
  pcs s 1 = In true /\ pcs s 2 = In false /\ value s = -1.
Proof.
  exists (fold_left (move (fun t => if t =? 2 then Lock else RdLock)) [0;0;0; 1;1;1; 2;2;2; 0;0;0; 2;2] initial).
  split; [|done]. apply moves_reachable; [repeat constructor; lia|apply rtc_refl].
Qed.
