(* ===== verification/Barrier.v ===== *)
(** * Barrier: the barriers of [kernel/kern/barrier.c], for [ARCH_HAS_BARRIERS = no]

    The pages of a barrier hold one record for each waiter, [index / wqdbsz] giving the page and [index mod wqdbsz]
    the record: the table is a function of the index.  A record is the thread whose port and event it holds.
    The critical section of a shared barrier, under its spinlock ([Spinlock] proves its exclusion), is one
    step; the broadcast, which runs without the lock, is cut at its accesses to the records.  The
    times that the barrier keeps are left out. *)

From S2P Require Import Prelude Spinlock.

Definition BARRIER_ID : Z := 0xCFA5B1A3.
Definition BARRIER_WQDB_NR : Z := 4.
Definition PTHREAD_BARRIER_SERIAL_THREAD : Z := 1.

(** [PMM_PAGE_SIZE / sizeof(wqdb_record_t)] *)
Definition wqdbsz : Z := 4096 / 8.

Inductive barrier_operation := BARRIER_INIT_PRIVATE | BARRIER_INIT_SHARED.

(** [val] is the word that [waiting] and the value of [lock] share. *)
Record barrier_s := Barrier {
  val : Z; signature : Z; owner : option Z; bcount : Z; index : Z; records : Z -> option Z; pages_tbl : list Z;
}.

Definition set_val v b := Barrier v (signature b) (owner b) (bcount b) (index b) (records b) (pages_tbl b).
Definition set_index v b := Barrier (val b) (signature b) (owner b) (bcount b) v (records b) (pages_tbl b).
Definition set_record i o b := Barrier (val b) (signature b) (owner b) (bcount b) (index b) (<[i := o]> (records b)) (pages_tbl b).
Definition set_signature v b := Barrier (val b) v (owner b) (bcount b) (index b) (records b) (pages_tbl b).

(** The loop of [barrier_init] over [n] pages, on the answers of [kmem_alloc]: the pages it got, and success *)
Fixpoint alloc_pages (n : nat) (answers : list (option Z)) : list Z * bool :=
  match n, answers with
  | O, _ => ([], true)
  | S n, Some p :: answers => let '(l, ok) := alloc_pages n answers in (p :: l, ok)
  | S n, _ => ([], false)
  end.

(** The error, or the barrier, and the pages given back to [kmem_free] *)
Definition barrier_init (count : Z) (scope : barrier_operation) (current_task threads_limit : Z) (answers : list (option Z)) :
    (Z + barrier_s) * list Z :=
  if count =? 0 then (inl EINVAL, [])
  else if BARRIER_WQDB_NR * wqdbsz <? threads_limit then (inl ENOMEM, [])
  else if BARRIER_WQDB_NR * wqdbsz <? count then (inl ENOMEM, [])
  else
    let owner := match scope with BARRIER_INIT_PRIVATE => Some current_task | BARRIER_INIT_SHARED => None end in
    let val := match owner with Some _ => count | None => spinlock_init end in
    let '(pages, ok) := alloc_pages (Z.to_nat BARRIER_WQDB_NR) answers in
    if negb ok then (inl ENOMEM, pages)
    else (inr (Barrier val BARRIER_ID owner count 0 (fun _ => None) pages), []).

(** The error, the barrier, and the pages given back *)
Definition barrier_destroy (current_task : Z) (b : barrier_s) : Z * barrier_s * list Z :=
  if negb (signature b =? BARRIER_ID) then (EINVAL, b, [])
  else if bool_decide (owner b <> None /\ owner b <> Some current_task) then (EINVAL, b, [])
  else
    let cntr := match owner b with None => index b | Some _ => val b end in
    if negb (cntr =? 0) then (EBUSY, b, [])
    else (0, set_signature 0 b, pages_tbl b).

(** The guard of [barrier_wait] *)
Definition wait_guard (task : Z) (b : barrier_s) : bool :=
  (signature b =? BARRIER_ID) && bool_decide (owner b = None \/ owner b = Some task).

(** What the caller does next: sleep, or wake the other ones *)
Inductive wait_result := WaitSleep | WaitLast.

(** The critical section of a shared barrier *)
Definition wait_shared (this : Z) (b : barrier_s) : wait_result * barrier_s :=
  let i := index b in
  let b := set_index (u32 (i + 1)) b in
  let ticket := u32 (bcount b - i) in
  let b := set_record i (Some this) b in
  if ticket =? 1 then (WaitLast, set_index 0 (set_record i None b))
  else (WaitSleep, b).

(** The same part for a private barrier, whose record is at the rank of the thread in its task; nobody took the
    lock that [spinlock_unlock_nosched] gives back. *)
Definition wait_private (this order : Z) (b : barrier_s) : wait_result * barrier_s :=
  let b := set_record order (Some this) b in
  let ticket := val b in
  let b := set_val (s32 (val b - 1)) b in
  if ticket =? 1 then (WaitLast, set_val (bcount b) (set_record order None b))
  else (WaitSleep, set_val (__spinlock_unlock (val b) (val b)) b).

(** [barrier_do_broadcast], at the record [i] of its two loops with [ticket] threads woken: it reads a record, empties
    it, and sends the event. *)
Inductive broadcast := Read (i ticket : Z) | Clear (i ticket t : Z) | Send (i ticket t : Z) | Done.

Definition barrier_do_broadcast (b : barrier_s) (p : broadcast) : barrier_s * option Z * broadcast :=
  match p with
  | Read i ticket =>
      if (i <? BARRIER_WQDB_NR * wqdbsz) && (ticket <? u32 (bcount b - 1)) then
        match records b i with
        | Some t => (b, None, Clear i ticket t)
        | None => (b, None, Read (i + 1) ticket)
        end
      else (b, None, Done)
  | Clear i ticket t => (set_record i None b, None, Send i ticket t)
  | Send i ticket t => (b, Some t, Read (i + 1) (ticket + 1))
  | Done => (b, None, Done)
  end.

(** ** The threads of a shared barrier *)

(** Where a thread is: outside of [barrier_wait], asleep in it, or in the broadcast *)
Inductive wpc := Awake | Asleep | Bcast (p : broadcast).

(** [entered] and [left] count the calls of [barrier_wait] of each thread, and their returns. *)
Record group := Group { barrier : barrier_s; at_ : Z -> wpc; entered : Z -> Z; left : Z -> Z }.

Definition bump (t : Z) (f : Z -> Z) : Z -> Z := <[t := f t + 1]> f.

Inductive gstep (n : Z) : group -> group -> Prop :=
| gstep_sleep s t b : 0 <= t < n -> at_ s t = Awake -> wait_shared t (barrier s) = (WaitSleep, b) ->
    gstep n s (Group b (<[t := Asleep]> (at_ s)) (bump t (entered s)) (left s))
| gstep_last s t b : 0 <= t < n -> at_ s t = Awake -> wait_shared t (barrier s) = (WaitLast, b) ->
    gstep n s (Group b (<[t := Bcast (Read 0 0)]> (at_ s)) (bump t (entered s)) (left s))
| gstep_bcast s t p b p' : at_ s t = Bcast p -> barrier_do_broadcast (barrier s) p = (b, None, p') -> p' <> Done ->
    gstep n s (Group b (<[t := Bcast p']> (at_ s)) (entered s) (left s))
| gstep_wake s t p b u p' : at_ s t = Bcast p -> barrier_do_broadcast (barrier s) p = (b, Some u, p') ->
    gstep n s (Group b (<[u := Awake]> (<[t := Bcast p']> (at_ s))) (entered s) (bump u (left s)))
| gstep_done s t p b : at_ s t = Bcast p -> barrier_do_broadcast (barrier s) p = (b, None, Done) ->
    gstep n s (Group b (<[t := Awake]> (at_ s)) (entered s) (bump t (left s))).

(** [n] threads and a barrier for [n], that [barrier_init] made *)
Definition group_start (n : Z) (s : group) : Prop :=
  exists limit task answers b, barrier_init n BARRIER_INIT_SHARED task limit answers = (inr b, []) /\
    s = Group b (fun _ => Awake) (fun _ => 0) (fun _ => 0).

Definition group_reachable (n : Z) (s : group) : Prop := exists s0, group_start n s0 /\ rtc (gstep n) s0 s.

(** The records: [news] from 0 on, [rest] from [g] on *)
Definition table (news : list Z) (g : Z) (rest : list Z) (i : Z) : option Z :=
  if decide (0 <= i < zlen news) then zget news i else if decide (g <= i) then zget rest (i - g) else None.

(** The threads that left the current round ([news], asleep in the next one), the ones that the broadcast has to wake
    ([olds]), and the broadcast. *)
Inductive round (n : Z) (s : group) (R : Z) (news olds : list Z) : Prop :=
| round_quiet : olds = [] -> zlen news < n -> (forall t p, at_ s t <> Bcast p) ->
    (forall i, 0 <= i -> records (barrier s) i = table news 0 [] i) ->
    (forall t, 0 <= t < n -> t ∉ news -> entered s t = R /\ left s t = R) -> round n s R news olds
| round_busy bt p g rest : at_ s bt = Bcast p -> 0 <= bt < n -> (forall t q, at_ s t = Bcast q -> t = bt) ->
    (p = Read g g /\ rest = olds \/ (exists t, p = Clear g g t /\ rest = olds /\ head olds = Some t) \/
     exists t, p = Send (g - 1) (g - 1) t /\ olds = t :: rest) ->
    0 <= g -> zlen rest = n - 1 - g -> (forall i, 0 <= i -> records (barrier s) i = table news g rest i) ->
    (entered s bt = R /\ left s bt = R - 1) ->
    (forall t, 0 <= t < n -> t ∉ news ++ olds -> t <> bt -> entered s t = R /\ left s t = R) -> round n s R news olds.

Record ginv (n : Z) (s : group) (R : Z) (news olds : list Z) : Prop := {
  g_n : bcount (barrier s) = n;
  g_index : index (barrier s) = zlen news;
  g_nodup : NoDup (news ++ olds);
  g_range : forall t, t ∈ news ++ olds -> 0 <= t < n;
  g_asleep : forall t, at_ s t = Asleep <-> t ∈ news ++ olds;
  g_news : forall t, t ∈ news -> entered s t = R + 1 /\ left s t = R;
  g_olds : forall t, t ∈ olds -> entered s t = R /\ left s t = R - 1;
  g_round : round n s R news olds;
}.

(** ** The invariant of a round *)

Section Round.
Context (n : Z) (Hn : 0 < n <= BARRIER_WQDB_NR * wqdbsz).
Implicit Types (s : group) (news olds : list Z).

Lemma group_bound (l : list Z) : NoDup l -> (forall t, t ∈ l -> 0 <= t < n) -> zlen l <= n.
Proof. intros H1 H2. pose proof (threads_bound n l H1 H2). lia. Qed.

Lemma table_empty news g i : zlen news <= i -> table news g [] i = None.
Proof.
  intros Hi. unfold table. rewrite decide_False by lia. destruct (decide _); [|done]. unfold zget. apply lookup_nil.
Qed.

(** The record of a new sleeper comes after the ones of its round, and before the ones that the broadcast will read. *)
Lemma table_push news g rest t i : 0 <= i -> rest = [] \/ zlen news < g ->
  table (news ++ [t]) g rest i = <[zlen news := Some t]> (table news g rest) i.
Proof.
  intros Hi Hr. destruct (decide (i = zlen news)) as [->|Hne].
  - rewrite fn_lookup_insert. unfold table. rewrite zlen_app. change (zlen [t]) with 1. rewrite decide_True by lia.
    unfold zget, zlen. rewrite Nat2Z.id. apply list_lookup_middle. done.
  - rewrite fn_lookup_insert_ne by done. unfold table. rewrite zlen_app. change (zlen [t]) with 1.
    destruct (decide (0 <= i < zlen news)) as [Hlt|Hge].
    + rewrite decide_True by lia. unfold zget. apply lookup_app_l. unfold zlen in *. lia.
    + rewrite decide_False by lia. done.
Qed.

(** Where the broadcast is, the record is the first of the ones it has to read; it empties it. *)
Lemma table_head news g t rest : zlen news <= g -> table news g (t :: rest) g = Some t.
Proof. intros H. unfold table. rewrite decide_False, decide_True by lia. rewrite Z.sub_diag. done. Qed.

Lemma table_pop news g t rest i : 0 <= i -> zlen news <= g -> <[g := None]> (table news g (t :: rest)) i = table news (g + 1) rest i.
Proof.
  intros Hi Hg. destruct (decide (i = g)) as [->|Hne].
  - rewrite fn_lookup_insert. unfold table. rewrite !decide_False by lia. done.
  - rewrite fn_lookup_insert_ne by done. unfold table. destruct (decide (0 <= i < zlen news)); [done|].
    destruct (decide (g <= i)); [rewrite decide_True by lia|rewrite decide_False by lia; done].
    unfold zget. replace (Z.to_nat (i - g)) with (S (Z.to_nat (i - (g + 1)))) by lia. done.
Qed.

Lemma awake_new s R news olds t : ginv n s R news olds -> at_ s t <> Asleep -> t ∉ news ++ olds.
Proof. intros I Ha Hin. apply Ha, (g_asleep _ _ _ _ _ I), Hin. Qed.

(** The broadcast leaves room for the threads that it has woken. *)
Lemma room s R news olds l : ginv n s R news olds -> NoDup l -> (forall t, t ∈ l -> 0 <= t < n /\ at_ s t <> Asleep) ->
  zlen news + zlen olds + zlen l <= n.
Proof.
  intros I Hl Hin. rewrite <- !zlen_app. apply group_bound.
  - apply NoDup_app. split; [apply I|]. split; [|done]. intros t H1 H2. apply (awake_new _ _ _ _ t I); [apply Hin; done|done].
  - intros t [Ht|Ht]%elem_of_app; [apply (g_range _ _ _ _ _ I t Ht)|apply Hin, Ht].
Qed.

Lemma bump_self t f : bump t f t = f t + 1.
Proof. unfold bump. rewrite fn_lookup_insert. done. Qed.
Lemma bump_other t f u : u <> t -> bump t f u = f u.
Proof. intros H. unfold bump. rewrite fn_lookup_insert_ne by done. done. Qed.

Lemma wait_shared_eq t b : 0 <= index b < n -> bcount b = n ->
  wait_shared t b = if decide (index b = n - 1) then (WaitLast, set_index 0 (set_record (index b) None (set_record (index b) (Some t) (set_index (index b + 1) b))))
                    else (WaitSleep, set_record (index b) (Some t) (set_index (index b + 1) b)).
Proof.
  intros Hi Hb. unfold wait_shared. cbn [bcount set_index]. assert (Hn' : 0 < n <= 2048) by exact Hn.
  rewrite Hb, !u32_small by (unfold is_u32; lia). destruct (decide _); [rewrite (proj2 (Z.eqb_eq _ _)) by lia|rewrite (proj2 (Z.eqb_neq _ _)) by lia]; done.
Qed.

Lemma ginv_sleep s R news olds t : ginv n s R news olds -> 0 <= t < n -> at_ s t = Awake -> index (barrier s) <> n - 1 ->
  ginv n (Group (set_record (index (barrier s)) (Some t) (set_index (index (barrier s) + 1) (barrier s)))
            (<[t := Asleep]> (at_ s)) (bump t (entered s)) (left s)) R (news ++ [t]) olds.
Proof.
  intros I Ht Ha Hi. pose proof (awake_new _ _ _ _ t I ltac:(congruence)) as Hnew. rewrite (g_index _ _ _ _ _ I) in *.
  assert (Hval : entered s t = R /\ left s t = R).
  { destruct (g_round _ _ _ _ _ I) as [-> _ _ _ H|bt p g rest Hb _ _ _ _ _ _ _ H]; apply H; try done; [rewrite app_nil_r in Hnew; done|congruence]. }
  assert (Hmem : forall u, u ∈ (news ++ [t]) ++ olds <-> u = t \/ u ∈ news ++ olds) by (intros; rewrite !elem_of_app, list_elem_of_singleton; tauto).
  assert (Hb1 : forall u, u <> t -> bump t (entered s) u = entered s u) by (intros; apply bump_other; done).
  split; cbn.
  - apply I.
  - rewrite zlen_app. done.
  - rewrite <- app_assoc. cbn. rewrite <- Permutation_middle. apply NoDup_cons. split; [done|apply I].
  - intros u [->|Hu]%Hmem; [done|apply (g_range _ _ _ _ _ I u Hu)].
  - intros u. rewrite Hmem. destruct (decide (u = t)) as [->|Hne]; [rewrite fn_lookup_insert; tauto|].
    rewrite fn_lookup_insert_ne, (g_asleep _ _ _ _ _ I) by done. tauto.
  - intros u [Hu| ->%list_elem_of_singleton]%elem_of_app; [|rewrite bump_self; lia].
    rewrite Hb1; [apply (g_news _ _ _ _ _ I u Hu)|]. intros ->. apply Hnew, elem_of_app. auto.
  - intros u Hu. rewrite Hb1; [apply (g_olds _ _ _ _ _ I u Hu)|]. intros ->. apply Hnew, elem_of_app. auto.
  - destruct (g_round _ _ _ _ _ I) as [-> Hlt Hnb Hrec Hoth|bt p g rest Hbt Hr Hun Hp Hg Hrest Hrec Hbv Hoth].
    + apply round_quiet; cbn; try done.
      * rewrite zlen_app. change (zlen [t]) with 1. lia.
      * intros u p. destruct (decide (u = t)) as [->|]; [rewrite fn_lookup_insert|rewrite fn_lookup_insert_ne by done]; done.
      * intros i Hi'. rewrite table_push by auto. destruct (decide (i = zlen news)) as [->|]; [rewrite !fn_lookup_insert|rewrite !fn_lookup_insert_ne by done]; auto.
      * intros u Hu Hn'. rewrite not_elem_of_app, list_elem_of_singleton in Hn'. rewrite Hb1 by tauto. apply Hoth; tauto.
    + assert (Hne : bt <> t) by congruence.
      assert (Hroom : zlen news + zlen olds + zlen [bt; t] <= n).
      { apply (room s R); [done|apply NoDup_cons; split; [rewrite list_elem_of_singleton; done|apply NoDup_singleton]|].
        intros u [->| ->%list_elem_of_singleton]%elem_of_cons; split; done || congruence. }
      change (zlen [bt; t]) with 2 in Hroom.
      assert (Hlen : zlen rest <= zlen olds).
      { destruct Hp as [[_ ->]|[(v & _ & -> & _)|(v & _ & ->)]]; rewrite ?zlen_cons; lia. }
      apply (round_busy _ _ _ _ _ bt p g rest); cbn; try done.
      * rewrite fn_lookup_insert_ne by done. done.
      * intros u q. destruct (decide (u = t)) as [->|]; [rewrite fn_lookup_insert|rewrite fn_lookup_insert_ne by done]; [done|apply Hun].
      * intros i Hi'. rewrite table_push by (lia || right; lia).
        destruct (decide (i = zlen news)) as [->|]; [rewrite !fn_lookup_insert|rewrite !fn_lookup_insert_ne by done]; auto.
      * rewrite Hb1 by done. done.
      * intros u Hu Hn' Hub. assert (u <> t /\ u ∉ news ++ olds) as [Hut Huo] by (split; intros H; apply Hn', Hmem; auto).
        rewrite Hb1 by done. apply Hoth; done.
Qed.

Lemma ginv_last s R news olds t : ginv n s R news olds -> 0 <= t < n -> at_ s t = Awake -> index (barrier s) = n - 1 ->
  ginv n (Group (set_index 0 (set_record (n - 1) None (set_record (n - 1) (Some t) (set_index n (barrier s)))))
            (<[t := Bcast (Read 0 0)]> (at_ s)) (bump t (entered s)) (left s)) (R + 1) [] news.
Proof.
  intros I Ht Ha Hi. pose proof (awake_new _ _ _ _ t I ltac:(congruence)) as Hnew. rewrite (g_index _ _ _ _ _ I) in Hi.
  destruct (g_round _ _ _ _ _ I) as [-> Hlt Hnb Hrec Hoth|bt p g rest Hbt Hr Hun Hp Hg Hrest Hrec Hbv Hoth].
  2: { exfalso. assert (Hroom : zlen news + zlen olds + zlen [bt; t] <= n).
       { apply (room s R); [done|apply NoDup_cons; split; [rewrite list_elem_of_singleton; congruence|apply NoDup_singleton]|].
         intros u [->| ->%list_elem_of_singleton]%elem_of_cons; split; done || congruence. }
       change (zlen [bt; t]) with 2 in Hroom. pose proof (zlen_nonneg olds). lia. }
  rewrite app_nil_r in Hnew. destruct (Hoth t Ht Hnew) as [He Hl].
  assert (Hb1 : forall u, u <> t -> bump t (entered s) u = entered s u) by (intros; apply bump_other; done).
  assert (Hall : forall u, 0 <= u < n -> u <> t -> u ∈ news).
  { intros u Hu Hne. destruct (decide (u ∈ news)) as [|Hu']; [done|exfalso].
    assert (Hroom : zlen (u :: t :: news) <= n); [|rewrite !zlen_cons in Hroom; lia].
    apply group_bound.
    - rewrite !NoDup_cons, elem_of_cons. split; [tauto|]. split; [done|]. pose proof (g_nodup _ _ _ _ _ I) as Hnd. rewrite app_nil_r in Hnd. done.
    - intros v [->|[->|Hv]%elem_of_cons]%elem_of_cons; try done. apply (g_range _ _ _ _ _ I). rewrite app_nil_r. done. }
  split; cbn; try apply I.
  - done.
  - pose proof (g_nodup _ _ _ _ _ I) as Hnd. rewrite app_nil_r in Hnd. done.
  - intros u Hu. apply (g_range _ _ _ _ _ I). rewrite app_nil_r. done.
  - intros u. pose proof (g_asleep _ _ _ _ _ I u) as Hs. rewrite app_nil_r in Hs.
    destruct (decide (u = t)) as [->|Hne]; [rewrite fn_lookup_insert; split; done|]. rewrite fn_lookup_insert_ne; done.
  - intros u Hu. apply not_elem_of_nil in Hu. done.
  - intros u Hu. rewrite Hb1 by congruence. pose proof (g_news _ _ _ _ _ I u Hu). lia.
  - apply (round_busy _ _ _ _ _ t (Read 0 0) 0 news); cbn.
    + rewrite fn_lookup_insert. done.
    + done.
    + intros u q. destruct (decide (u = t)) as [->|]; [done|rewrite fn_lookup_insert_ne by done]. intros Hq. destruct (Hnb u q Hq).
    + auto.
    + lia.
    + lia.
    + assert (Hz : zlen (@nil Z) = 0) by reflexivity. intros i Hi'. destruct (decide (i = n - 1)) as [->|Hne].
      * rewrite fn_lookup_insert. unfold table. rewrite decide_False by lia. rewrite decide_True by lia.
        symmetry. apply zget_None. lia.
      * rewrite !fn_lookup_insert_ne, Hrec by done. unfold table. rewrite (decide_False (P := 0 <= i < zlen [])) by lia.
        do 2 rewrite (decide_True (P := 0 <= i)) by lia. rewrite Z.sub_0_r. destruct (decide (0 <= i < zlen news)); [done|].
        rewrite zget_None by lia. symmetry. apply zget_None. lia.
    + rewrite bump_self. lia.
    + intros u Hu Hn' Hne. destruct Hn'. apply Hall; done.
Qed.

(** The parts of the state that a step of the broadcast keeps *)
Lemma ginv_bcast s b R news olds bt p p' rest' g' : ginv n s R news olds -> at_ s bt = Bcast p ->
  (forall t q, at_ s t = Bcast q -> t = bt) -> 0 <= bt < n ->
  bcount b = bcount (barrier s) -> index b = index (barrier s) ->
  (p' = Read g' g' /\ rest' = olds \/ (exists t, p' = Clear g' g' t /\ rest' = olds /\ head olds = Some t) \/
   exists t, p' = Send (g' - 1) (g' - 1) t /\ olds = t :: rest') ->
  0 <= g' -> zlen rest' = n - 1 - g' -> (forall i, 0 <= i -> records b i = table news g' rest' i) ->
  (entered s bt = R /\ left s bt = R - 1) ->
  (forall t, 0 <= t < n -> t ∉ news ++ olds -> t <> bt -> entered s t = R /\ left s t = R) ->
  ginv n (Group b (<[bt := Bcast p']> (at_ s)) (entered s) (left s)) R news olds.
Proof.
  intros I Hbt Hun Hr Eb Ei Hp Hg Hrest Hrec Hbv Hoth. split; cbn; try apply I.
  - rewrite Eb. apply I.
  - rewrite Ei. apply I.
  - intros u. destruct (decide (u = bt)) as [->|]; [rewrite fn_lookup_insert|rewrite fn_lookup_insert_ne by done; apply I].
    rewrite <- (g_asleep _ _ _ _ _ I), Hbt. split; done.
  - apply (round_busy _ _ _ _ _ bt p' g' rest'); cbn; try done; [rewrite fn_lookup_insert; done|].
    intros u q. destruct (decide (u = bt)) as [->|]; [done|rewrite fn_lookup_insert_ne by done; apply Hun].
Qed.

(** The broadcast has woken everyone. *)
Lemma ginv_done s R news bt p g : ginv n s R news [] -> at_ s bt = Bcast p -> 0 <= bt < n -> (forall t q, at_ s t = Bcast q -> t = bt) ->
  (forall i, 0 <= i -> records (barrier s) i = table news g [] i) -> (entered s bt = R /\ left s bt = R - 1) ->
  (forall t, 0 <= t < n -> t ∉ news -> t <> bt -> entered s t = R /\ left s t = R) ->
  ginv n (Group (barrier s) (<[bt := Awake]> (at_ s)) (entered s) (bump bt (left s))) R news [].
Proof.
  intros I Hbt Hr Hun Hrec Hbv Hoth. assert (Hnb : bt ∉ news).
  { pose proof (awake_new _ _ _ _ bt I ltac:(congruence)) as H. rewrite app_nil_r in H. done. }
  split; cbn; try apply I.
  - intros u. destruct (decide (u = bt)) as [->|]; [rewrite fn_lookup_insert|rewrite fn_lookup_insert_ne by done; apply I].
    rewrite <- (g_asleep _ _ _ _ _ I), Hbt. split; done.
  - intros u Hu. rewrite bump_other by congruence. apply (g_news _ _ _ _ _ I u Hu).
  - intros u Hu. apply not_elem_of_nil in Hu. done.
  - apply round_quiet; cbn; try done.
    + assert (Hroom : zlen news + zlen (@nil Z) + zlen [bt] <= n).
      { apply (room s R); [done|apply NoDup_singleton|]. intros u ->%list_elem_of_singleton. split; [done|congruence]. }
      change (zlen [bt]) with 1 in Hroom. change (zlen (@nil Z)) with 0 in Hroom. lia.
    + intros u q. destruct (decide (u = bt)) as [->|Hne]; [rewrite fn_lookup_insert; done|]. rewrite fn_lookup_insert_ne by done.
      intros Hq. apply Hne. eapply Hun. done.
    + intros i Hi. rewrite Hrec by done. unfold table. destruct (decide (0 <= i < zlen news)); [done|].
      destruct (decide (g <= i)), (decide (0 <= i)); done.
    + intros u Hu Hu'. destruct (decide (u = bt)) as [->|Hne]; [rewrite bump_self; lia|rewrite bump_other by done; auto].
Qed.

(** The broadcast wakes the first of the threads that are left to wake. *)
Lemma ginv_wake s R news u olds bt p g : ginv n s R news (u :: olds) -> at_ s bt = Bcast p -> 0 <= bt < n ->
  (forall t q, at_ s t = Bcast q -> t = bt) -> 0 <= g -> zlen olds = n - 1 - g ->
  (forall i, 0 <= i -> records (barrier s) i = table news g olds i) -> (entered s bt = R /\ left s bt = R - 1) ->
  (forall t, 0 <= t < n -> t ∉ news ++ u :: olds -> t <> bt -> entered s t = R /\ left s t = R) ->
  ginv n (Group (barrier s) (<[u := Awake]> (<[bt := Bcast (Read g g)]> (at_ s))) (entered s) (bump u (left s))) R news olds.
Proof.
  intros I Hbt Hr Hun Hg Hlen Hrec Hbv Hoth. pose proof (awake_new _ _ _ _ bt I ltac:(congruence)) as Hnb.
  pose proof (g_nodup _ _ _ _ _ I) as Hnd. rewrite <- Permutation_middle in Hnd. apply NoDup_cons in Hnd as [Hu Hnd].
  assert (Hub : u <> bt) by (intros ->; apply Hnb, elem_of_app; right; apply elem_of_cons; auto).
  assert (Hmem : forall v, v ∈ news ++ u :: olds <-> v = u \/ v ∈ news ++ olds) by (intros; rewrite !elem_of_app, elem_of_cons; tauto).
  assert (Huo : entered s u = R /\ left s u = R - 1) by (apply (g_olds _ _ _ _ _ I), elem_of_cons; auto).
  split; cbn; try apply I; try done.
  - intros v Hv. apply (g_range _ _ _ _ _ I), Hmem. auto.
  - intros v. pose proof (g_asleep _ _ _ _ _ I v) as Hv. rewrite Hmem in Hv. destruct (decide (v = u)) as [->|Hne].
    + rewrite fn_lookup_insert. split; done.
    + rewrite fn_lookup_insert_ne by done. destruct (decide (v = bt)) as [->|].
      * rewrite fn_lookup_insert. split; [done|]. intros Hin. destruct Hnb. apply Hmem. auto.
      * rewrite fn_lookup_insert_ne by done. tauto.
  - intros v Hv. rewrite bump_other; [apply (g_news _ _ _ _ _ I v Hv)|]. intros ->. apply Hu, elem_of_app. auto.
  - intros v Hv. rewrite bump_other; [apply (g_olds _ _ _ _ _ I v), elem_of_cons; auto|]. intros ->. apply Hu, elem_of_app. auto.
  - apply (round_busy _ _ _ _ _ bt (Read g g) g olds); cbn; auto.
    + rewrite fn_lookup_insert_ne, fn_lookup_insert by done. done.
    + intros v q. destruct (decide (v = u)) as [->|]; [rewrite fn_lookup_insert; done|]. rewrite fn_lookup_insert_ne by done.
      destruct (decide (v = bt)) as [->|]; [done|]. rewrite fn_lookup_insert_ne by done. apply Hun.
    + rewrite bump_other by done. done.
    + intros v Hv Hvn Hvb. destruct (decide (v = u)) as [->|Hne]; [rewrite bump_self; lia|rewrite bump_other by done].
      apply Hoth; try done. rewrite Hmem. tauto.
Qed.

(** A step of the broadcast: it reads or empties a record, wakes the first of the threads that are left to wake, or ends. *)
Lemma ginv_step_bcast s R news olds t p b o p' : ginv n s R news olds -> at_ s t = Bcast p ->
  barrier_do_broadcast (barrier s) p = (b, o, p') ->
  (o = None /\ p' <> Done /\ ginv n (Group b (<[t := Bcast p']> (at_ s)) (entered s) (left s)) R news olds) \/
  (o = None /\ p' = Done /\ ginv n (Group b (<[t := Awake]> (at_ s)) (entered s) (bump t (left s))) R news olds) \/
  (exists u, o = Some u /\ head olds = Some u /\
     ginv n (Group b (<[u := Awake]> (<[t := Bcast p']> (at_ s))) (entered s) (bump u (left s))) R news (tail olds)).
Proof.
  intros I Ht Hb. assert (Hn' : 0 < n <= 2048) by exact Hn.
  destruct (g_round _ _ _ _ _ I) as [_ _ Hnb _ _|bt q g rest Hbt Hr Hun Hp Hg Hrest Hrec Hbv Hoth]; [destruct (Hnb t p Ht)|].
  assert (t = bt) as -> by (eapply Hun; done). rewrite Ht in Hbt. injection Hbt as <-.
  assert (Hroom : zlen news + zlen olds + zlen [bt] <= n).
  { apply (room s R); [done|apply NoDup_singleton|]. intros u ->%list_elem_of_singleton. split; [done|congruence]. }
  change (zlen [bt]) with 1 in Hroom.
  assert (Hbc : u32 (bcount (barrier s) - 1) = n - 1) by (rewrite (g_n _ _ _ _ _ I), u32_small; unfold is_u32; lia).
  destruct Hp as [[-> ->]|[(u & -> & -> & Hh)|(u & -> & ->)]]; cbn in Hb.
  - change (BARRIER_WQDB_NR * wqdbsz) with 2048 in Hb. rewrite Hbc in Hb. destruct (decide (g < n - 1)) as [Hlt|Hge].
    + rewrite (proj2 (Z.ltb_lt g 2048)), (proj2 (Z.ltb_lt g (n - 1))) in Hb by lia. cbn [andb] in Hb.
      destruct olds as [|u olds]; [change (zlen (@nil Z)) with 0 in Hrest; lia|].
      rewrite Hrec, table_head in Hb by lia. injection Hb as <- <- <-. left. split_and!; try done.
      apply (ginv_bcast s (barrier s) R news (u :: olds) bt (Read g g) _ (u :: olds) g); try done. right. left. eauto.
    + rewrite (proj2 (Z.ltb_ge g (n - 1))), andb_false_r in Hb by lia. injection Hb as <- <- <-. right. left. split_and!; try done.
      assert (olds = []) as -> by (destruct olds as [|u olds]; [done|rewrite zlen_cons in Hrest; pose proof (zlen_nonneg olds); lia]).
      apply (ginv_done s R news bt (Read g g) g); try done. intros u Hu Hu'. apply Hoth; [done|rewrite app_nil_r; done].
  - injection Hb as <- <- <-. left. split_and!; try done. destruct olds as [|v olds]; [done|]. injection Hh as ->.
    apply (ginv_bcast s _ R news (u :: olds) bt (Clear g g u) _ olds (g + 1)); try done.
    + right. right. exists u. replace (g + 1 - 1) with g by lia. done.
    + lia.
    + rewrite zlen_cons in Hrest. lia.
    + intros i Hi. rewrite zlen_cons in *. rewrite <- (table_pop news g u) by lia.
      cbn. destruct (decide (i = g)) as [->|]; [rewrite !fn_lookup_insert; done|]. rewrite !fn_lookup_insert_ne by done. auto.
  - injection Hb as <- <- <-. right. right. exists u. split; [done|]. split; [done|]. cbn [tail]. replace (g - 1 + 1) with g by lia.
    apply (ginv_wake s R news u rest bt (Send (g - 1) (g - 1) u) g); done.
Qed.

Lemma index_bound s R news olds : ginv n s R news olds -> 0 <= index (barrier s) < n.
Proof.
  intros I. rewrite (g_index _ _ _ _ _ I). pose proof (zlen_nonneg news). pose proof (zlen_nonneg olds).
  destruct (g_round _ _ _ _ _ I) as [_ Hlt _ _ _|bt p g rest Hbt Hr _ _ _ _ _ _ _]; [lia|].
  assert (Hroom : zlen news + zlen olds + zlen [bt] <= n); [|change (zlen [bt]) with 1 in Hroom; lia].
  apply (room s R); [done|apply NoDup_singleton|]. intros u ->%list_elem_of_singleton. split; [done|congruence].
Qed.

Lemma ginv_gstep s s' R news olds : ginv n s R news olds -> gstep n s s' -> exists R' news' olds', ginv n s' R' news' olds'.
Proof.
  intros I Hstep. pose proof (index_bound _ _ _ _ I) as Hx. pose proof (g_n _ _ _ _ _ I) as Hc. destruct Hstep as [s t b' Ht Ha Hw|s t b' Ht Ha Hw|s t p b' p' Ha Hb Hd|s t p b' u p' Ha Hb|s t p b' Ha Hb].
  - rewrite wait_shared_eq in Hw by done. destruct (decide _); [done|]. injection Hw as <-.
    eexists _, _, _. apply ginv_sleep; done.
  - rewrite wait_shared_eq in Hw by done. destruct (decide _) as [E|]; [|done]. injection Hw as <-.
    rewrite E. replace (n - 1 + 1) with n by lia. eexists _, _, _. eapply ginv_last; done.
  - destruct (ginv_step_bcast s R news olds t p b' None p' I Ha Hb) as [(_ & _ & I')|[(_ & Hp & _)|(u & Hu & _)]]; [eauto|done|done].
  - destruct (ginv_step_bcast s R news olds t p b' (Some u) p' I Ha Hb) as [(Hu & _)|[(Hu & _)|(v & [= <-] & _ & I')]]; [done|done|eauto].
  - destruct (ginv_step_bcast s R news olds t p b' None Done I Ha Hb) as [(_ & Hp & _)|[(_ & _ & I')|(u & Hu & _)]]; [done|eauto|done].
Qed.
End Round.

Lemma alloc_pages_ok k answers l : alloc_pages k answers = (l, true) -> length l = k.
Proof.
  revert answers l. induction k as [|k IH]; intros answers l H; cbn in H; [injection H as <-; done|].
  destruct answers as [|[p|] answers]; try done. destruct (alloc_pages k answers) as [l' ok] eqn:E. injection H as <- ->. cbn. f_equal. eapply IH. done.
Qed.

Lemma barrier_init_shared n task limit answers b freed : barrier_init n BARRIER_INIT_SHARED task limit answers = (inr b, freed) ->
  n <> 0 /\ n <= BARRIER_WQDB_NR * wqdbsz /\ freed = [] /\ length (pages_tbl b) = Z.to_nat BARRIER_WQDB_NR /\
  b = Barrier 0 BARRIER_ID None n 0 (fun _ => None) (pages_tbl b).
Proof.
  unfold barrier_init. destruct (Z.eqb_spec n 0); [done|]. destruct (Z.ltb_spec (BARRIER_WQDB_NR * wqdbsz) limit); [done|].
  destruct (Z.ltb_spec (BARRIER_WQDB_NR * wqdbsz) n); [done|]. destruct (alloc_pages _ answers) as [l ok] eqn:E. destruct ok; cbn [negb]; [|done].
  intros [= <- <-]. split_and!; try done. apply alloc_pages_ok in E. done.
Qed.

Lemma group_inv n s : 0 <= n -> group_reachable n s -> 0 < n <= BARRIER_WQDB_NR * wqdbsz /\ exists R news olds, ginv n s R news olds.
Proof.
  intros Hn0 (s0 & (limit & task & answers & b & Hi & ->) & Hs). apply barrier_init_shared in Hi as (Hn1 & Hn2 & _ & _ & Eb).
  assert (Hn : 0 < n <= BARRIER_WQDB_NR * wqdbsz) by lia. split; [done|].
  assert (H0 : ginv n (Group b (fun _ => Awake) (fun _ => 0) (fun _ => 0)) 0 [] []).
  { rewrite Eb. split; cbn; try done; try (intros t Ht; apply not_elem_of_nil in Ht; done); [apply NoDup_nil; done|intros t; rewrite elem_of_nil; done|].
    apply round_quiet; cbn; try done; [change (zlen (@nil Z)) with 0; lia|]. intros i Hi. symmetry. apply table_empty. exact Hi. }
  assert (H1 : exists R news olds, ginv n (Group b (fun _ => Awake) (fun _ => 0) (fun _ => 0)) R news olds) by eauto.
  clear H0. revert H1. induction Hs as [s|s1 s2 s3 Hstep _ IH]; [done|]. intros (R & news & olds & I). apply IH.
  eapply ginv_gstep; done.
Qed.

(** C29: A shared barrier separates its rounds: with as many threads as its count, and every interleaving of their critical
    sections with the accesses of the broadcast, a thread returns from its k-th wait only when all of them have
    entered their k-th wait; some thread is never asleep; and when no broadcast is under way, the
    threads asleep are the ones of the current round, fewer than the count, in the records that the next
    broadcast will read. *)
Theorem barrier_rounds n s : 0 <= n -> group_reachable n s ->
  (forall t u, 0 <= t < n -> 0 <= u < n -> left s t <= entered s u) /\
  (exists t, 0 <= t < n /\ at_ s t <> Asleep) /\
  ((forall t p, at_ s t <> Bcast p) -> index (barrier s) < n /\ exists news, zlen news = index (barrier s) /\ NoDup news /\
     (forall t, at_ s t = Asleep <-> t ∈ news) /\ forall i, 0 <= i < index (barrier s) -> records (barrier s) i = zget news i).
Proof.
  intros Hn0 Hr. destruct (group_inv n s Hn0 Hr) as (Hn & R & news & olds & I). split; [|split].
  - assert (Hall : forall t, 0 <= t < n -> left s t <= R <= entered s t).
    { intros t Ht. destruct (decide (t ∈ news)) as [H1|H1]; [pose proof (g_news _ _ _ _ _ I t H1); lia|].
      destruct (decide (t ∈ olds)) as [H2|H2]; [pose proof (g_olds _ _ _ _ _ I t H2); lia|].
      destruct (g_round _ _ _ _ _ I) as [-> _ _ _ Hoth|bt p g rest Hbt _ _ _ _ _ _ Hbv Hoth]; [pose proof (Hoth t Ht H1); lia|].
      destruct (decide (t = bt)) as [->|Hne]; [lia|]. assert (Hno : t ∉ news ++ olds) by (rewrite elem_of_app; tauto). pose proof (Hoth t Ht Hno Hne). lia. }
    intros t u Ht Hu. pose proof (Hall t Ht). pose proof (Hall u Hu). lia.
  - destruct (g_round _ _ _ _ _ I) as [-> Hlt _ _ _|bt p g rest Hbt Hbr _ _ _ _ _ _ _]; [|exists bt; split; [done|congruence]].
    assert (Hnot : ~ Forall (fun t => t ∈ news) (seqZ 0 n)).
    { intros Hall. rewrite Forall_forall in Hall. assert (Hsub : seqZ 0 n ⊆+ news) by (apply NoDup_submseteq; [apply NoDup_seqZ|done]).
      apply submseteq_length in Hsub. rewrite length_seqZ in Hsub. unfold zlen in Hlt. lia. }
    apply not_Forall_Exists in Hnot; [|intros; apply _]. apply Exists_exists in Hnot as (t & Ht & Hnt). apply elem_of_seqZ in Ht.
    exists t. split; [lia|]. intros Ha. apply (g_asleep _ _ _ _ _ I) in Ha. rewrite app_nil_r in Ha. done.
  - intros Hnb. destruct (g_round _ _ _ _ _ I) as [-> Hlt _ Hrec _|bt p g rest Hbt _ _ _ _ _ _ _ _]; [|destruct (Hnb bt p Hbt)].
    rewrite (g_index _ _ _ _ _ I). split; [done|]. exists news. pose proof (g_nodup _ _ _ _ _ I) as Hnd.
    pose proof (g_asleep _ _ _ _ _ I) as Has. rewrite app_nil_r in Hnd. setoid_rewrite app_nil_r in Has. split_and!; try done.
    intros i Hi. rewrite Hrec by lia. unfold table. rewrite decide_True by lia. done.
Qed.


(** Two threads at a barrier for two: the first sleeps, the second wakes it. *)
Definition demo_barrier (k : nat) : group :=
  let b0 := Barrier 0 BARRIER_ID None 2 0 (fun _ => None) [1; 2; 3; 4] in
  let b1 := set_record 0 (Some 0) (set_index 1 b0) in
  match k with
  | O => Group b0 (fun _ => Awake) (fun _ => 0) (fun _ => 0)
  | _ => Group b1 (<[0 := Asleep]> (fun _ => Awake)) (bump 0 (fun _ => 0)) (fun _ => 0)
  end.

Lemma barrier_rounds_witness : group_reachable 2 (demo_barrier 1) /\ left (demo_barrier 1) 0 <= entered (demo_barrier 1) 1 /\ index (barrier (demo_barrier 1)) = 1.
Proof.
  assert (Hr : group_reachable 2 (demo_barrier 1)).
  { exists (demo_barrier 0). split; [exists 2, 7, [Some 1; Some 2; Some 3; Some 4]; eexists; split; reflexivity|].
    eapply rtc_l; [|apply rtc_refl]. apply (gstep_sleep 2 (demo_barrier 0) 0); [lia|reflexivity|vm_compute; reflexivity]. }
  split; [exact Hr|]. split; [|reflexivity]. apply (barrier_rounds 2 (demo_barrier 1)); [lia|exact Hr|lia|lia].
Defined.

(** ** Creation and destruction *)

(** [barrier_init] and [barrier_destroy]: refusals on a count of 0 and on more threads or waiters than records, no page
    kept after a failure, the four pages given back by the destruction of a shared barrier that nobody waits at,
    and [EBUSY] while somebody does. *)
Theorem barrier_lifecycle count task limit answers :
  (count = 0 -> barrier_init count BARRIER_INIT_SHARED task limit answers = (inl EINVAL, [])) /\
  (forall err freed, barrier_init count BARRIER_INIT_SHARED task limit answers = (inl err, freed) ->
     err = EINVAL \/ err = ENOMEM /\ (freed = [] \/ (exists k, freed = fst (alloc_pages k answers) /\ (length freed < k)%nat))) /\
  (forall b freed, barrier_init count BARRIER_INIT_SHARED task limit answers = (inr b, freed) ->
     freed = [] /\ barrier_destroy task b = (0, set_signature 0 b, pages_tbl b) /\ length (pages_tbl b) = 4%nat /\
     forall t, 1 < count -> exists b', wait_shared t b = (WaitSleep, b') /\ barrier_destroy task b' = (EBUSY, b', [])).
Proof.
  split; [intros ->; reflexivity|]. split.
  - intros err freed. unfold barrier_init. destruct (count =? 0); [intros [= <- <-]; auto|]. destruct (_ <? limit); [intros [= <- <-]; auto|].
    destruct (_ <? count); [intros [= <- <-]; auto|]. destruct (alloc_pages _ answers) as [l ok] eqn:E. destruct ok; cbn [negb]; [done|].
    intros [= <- <-]. right. split; [done|]. right. exists (Z.to_nat BARRIER_WQDB_NR). rewrite E. split; [done|].
    clear -E. revert E. generalize (Z.to_nat BARRIER_WQDB_NR). intros k. revert answers l. induction k as [|k IH]; intros answers l E; [done|].
    cbn in E. destruct answers as [|[p|] answers]; try (injection E as <-; cbn; lia).
    destruct (alloc_pages k answers) as [l' ok] eqn:E'. injection E as <- ->. cbn. specialize (IH _ _ E'). lia.
  - intros b freed Hi. apply barrier_init_shared in Hi as (Hn1 & Hn2 & -> & Hp & Eb). split; [done|]. rewrite Eb. split; [reflexivity|]. split; [done|].
    intros t Hc. assert (Hc' : count <= 2048) by exact Hn2. eexists.
    split; [unfold wait_shared; cbn; rewrite Z.sub_0_r, u32_small, (proj2 (Z.eqb_neq count 1)) by (unfold is_u32; lia); reflexivity|reflexivity].
Qed.

(** ** Private barriers *)

(** A private barrier does not work: [barrier_wait] gives back a lock that nobody took, which decrements the counter of
    the threads to wait for a second time.  At a barrier for two both threads sleep for ever, at a barrier for
    three the second thread goes through; and a private barrier at rest cannot be destroyed. *)
Theorem private_barrier_broken :
  let b n := Barrier n BARRIER_ID (Some 7) n 0 (fun _ => None) [1; 2; 3; 4] in
  (exists b1 b2, wait_private 100 0 (b 2) = (WaitSleep, b1) /\ wait_private 200 1 b1 = (WaitSleep, b2) /\ val b2 = 0) /\
  (exists b1 b2, wait_private 100 0 (b 3) = (WaitSleep, b1) /\ wait_private 200 1 b1 = (WaitLast, b2)) /\
  (forall n, n <> 0 -> barrier_destroy 7 (b n) = (EBUSY, b n, [])).
Proof.
  cbv zeta. split; [|split].
  - eexists _, _. split; [vm_compute; reflexivity|]. split; [vm_compute; reflexivity|reflexivity].
  - eexists _, _. split; [vm_compute; reflexivity|vm_compute; reflexivity].
  - intros n Hn. unfold barrier_destroy. cbn. rewrite bool_decide_false by (intros [_ H]; done). rewrite (proj2 (Z.eqb_neq n 0)) by done. done.
Qed.
