(* ===== verification/Mcs.v ===== *)
(** * Mcs: the ticket lock of [kernel/kern/mcs_sync.c]

    The processors share two words, the ticket to give and the ticket served.  A thread runs one access to them at a time:
    [lock_access] is the next access of a thread in [mcs_lock] and [mcs_unlock], with what the thread does to its own state
    (the count of its locks, the mask of the interrupts) up to the next one.  A step of the system is an access of any thread. *)

From S2P Require Import Prelude.

(** ** The lock *)

Record mcs_lock_s := McsLock { cntr : Z; ticket : Z }.

Definition mcs_lock_init : mcs_lock_s := McsLock 0 0.

(** Where a thread is: outside; in [mcs_lock], with its ticket; with the lock; in [mcs_unlock], with the value to store *)
Inductive lpc := Outside | Spin (my : Z) | Holding | Leave (next : Z).

#[export] Instance lpc_eq : EqDecision lpc.
Proof. solve_decision. Defined.

(** A thread: [locks_count], the interrupts of its processor, and the [irq_state] that the two calls pass on *)
Record lthread := LThread { lpc_of : lpc; locks_count : Z; irq : bool; irq_state : bool }.

(** [mcs_lock]: the ticket, then a turn of the loop *)
Definition mcs_lock_enter (l : mcs_lock_s) (th : lthread) : mcs_lock_s * lthread :=
  let th := LThread (lpc_of th) (locks_count th) false (irq th) in
  (McsLock (cntr l) (u32 (ticket l + 1)), LThread (Spin (ticket l)) (locks_count th) (irq th) (irq_state th)).
Definition mcs_lock_poll (l : mcs_lock_s) (my : Z) (th : lthread) : lthread :=
  if negb (my =? cntr l) then th else LThread Holding (locks_count th + 1) (irq th) (irq_state th).
(** [mcs_unlock]: the load, then the store *)
Definition mcs_unlock_load (l : mcs_lock_s) (th : lthread) : lthread :=
  LThread (Leave (u32 (cntr l + 1))) (locks_count th) (irq th) (irq_state th).
Definition mcs_unlock_store (l : mcs_lock_s) (next : Z) (th : lthread) : mcs_lock_s * lthread :=
  (McsLock next (ticket l), LThread Outside (locks_count th - 1) (irq_state th) (irq_state th)).

Definition lock_access (l : mcs_lock_s) (th : lthread) : mcs_lock_s * lthread :=
  match lpc_of th with
  | Outside => mcs_lock_enter l th
  | Spin my => (l, mcs_lock_poll l my th)
  | Holding => (l, mcs_unlock_load l th)
  | Leave next => mcs_unlock_store l next th
  end.

Record lock_sys := LockSys { lock : mcs_lock_s; threads : Z -> lthread }.

Definition at_lock (s : lock_sys) (t : Z) : lpc := lpc_of (threads s t).

(** An access of the thread [t] *)
Definition lock_run (t : Z) (s : lock_sys) : lock_sys :=
  let '(l, th) := lock_access (lock s) (threads s t) in LockSys l (<[t := th]> (threads s)).

(** [irq0] are the interrupts before the calls. *)
Definition lock_start (irq0 : Z -> bool) : lock_sys :=
  LockSys mcs_lock_init (fun t => LThread Outside 0 (irq0 t) (irq0 t)).

Definition holds_lock (p : lpc) : bool := match p with Holding | Leave _ => true | _ => false end.

(** ** Runs

    A run is given by its schedule, the threads in the order of their accesses.  Three lists are computed along it, from what the accesses do:
    the threads in the order in which they took a ticket, those in the order in which they got the lock, and the queue, where a thread is added
    at the end when it takes its ticket and the first one is removed at the end of an unlock. *)

Definition queue_next (s : lock_sys) (t : Z) (q : list Z) : list Z :=
  match at_lock s t with Outside => q ++ [t] | Leave _ => tail q | _ => q end.

Record lock_log := LockLog { arrivals : list Z; grants : list Z; queue : list Z }.

Definition log_next (s : lock_sys) (t : Z) (g : lock_log) : lock_log :=
  LockLog (if decide (at_lock s t = Outside) then arrivals g ++ [t] else arrivals g)
    (if negb (holds_lock (at_lock s t)) && holds_lock (at_lock (lock_run t s) t) then grants g ++ [t] else grants g)
    (queue_next s t (queue g)).

Fixpoint lock_exec (sched : list Z) (s : lock_sys) (g : lock_log) : lock_sys * lock_log :=
  match sched with
  | [] => (s, g)
  | t :: sched => lock_exec sched (lock_run t s) (log_next s t g)
  end.

(** ** The queue that the tickets stand for *)

Record queue_inv (n : Z) (s : lock_sys) (q : list Z) : Prop := {
  q_nodup : NoDup q;
  q_range : forall t, t ∈ q -> 0 <= t < n;
  q_in : forall t, at_lock s t <> Outside <-> t ∈ q;
  q_ticket : ticket (lock s) = u32 (cntr (lock s) + zlen q);
  q_cntr : is_u32 (cntr (lock s));
  q_spin : forall i t my, 0 <= i -> zget q i = Some t -> at_lock s t = Spin my -> my = u32 (cntr (lock s) + i);
  q_head : forall t, holds_lock (at_lock s t) = true -> zget q 0 = Some t;
  q_leave : forall t next, at_lock s t = Leave next -> next = u32 (cntr (lock s) + 1);
}.

Section Lock.
Context (n : Z) (Hn : 0 <= n < 2 ^ 32).
Implicit Types (s : lock_sys) (q : list Z).

Lemma ticket_queue_bound s q : queue_inv n s q -> zlen q <= n.
Proof.
  intros I. assert (Hsub : q ⊆+ seqZ 0 n).
  { apply NoDup_submseteq; [apply I|]. intros t Ht. apply elem_of_seqZ. pose proof (q_range _ _ _ I t Ht). lia. }
  apply submseteq_length in Hsub. rewrite length_seqZ in Hsub. unfold zlen. lia.
Qed.

(** Tickets of different places differ. *)
Lemma ticket_inj c i j : 0 <= i < 2 ^ 32 -> 0 <= j < 2 ^ 32 -> u32 (c + i) = u32 (c + j) -> i = j.
Proof.
  unfold u32. intros Hi Hj E. assert (Hm : (i - j) mod 2 ^ 32 = 0).
  { replace (i - j) with ((c + i) - (c + j)) by lia. rewrite Zminus_mod, E, Z.sub_diag. apply Zmod_0_l. }
  apply Z.mod_divide in Hm as [k Hk]; [|lia]. assert (k = 0) by nia. lia.
Qed.

Lemma zget_elem q i t : zget q i = Some t -> t ∈ q.
Proof. apply list_elem_of_lookup_2. Qed.
Lemma zget_index q i j t : NoDup q -> 0 <= i -> 0 <= j -> zget q i = Some t -> zget q j = Some t -> i = j.
Proof. intros Hnd Hi Hj H1 H2. pose proof (NoDup_lookup _ _ _ _ Hnd H1 H2). lia. Qed.

Definition at_after s (l : mcs_lock_s) t (th : lthread) : lock_sys := LockSys l (<[t := th]> (threads s)).

Lemma at_lock_same s l t th : at_lock (at_after s l t th) t = lpc_of th.
Proof. unfold at_lock. cbn. rewrite fn_lookup_insert. done. Qed.
Lemma at_lock_other s l t th x : x <> t -> at_lock (at_after s l t th) x = at_lock s x.
Proof. intros Hx. unfold at_lock. cbn. rewrite fn_lookup_insert_ne by done. done. Qed.

(** A thread that is in the queue after as before, with the same words. *)
Lemma queue_stay s t th q : queue_inv n s q -> t ∈ q -> lpc_of th <> Outside ->
  (forall my, lpc_of th = Spin my -> at_lock s t = Spin my) ->
  (holds_lock (lpc_of th) = true -> zget q 0 = Some t) ->
  (forall next, lpc_of th = Leave next -> next = u32 (cntr (lock s) + 1)) ->
  queue_inv n (at_after s (lock s) t th) q.
Proof.
  intros [Hnd Hr Hin Htk Hc Hsp Hhd Hlv] Hq Ho H1 H2 H3. split; try done; [intros x|intros i x my Hi Hz|intros x|intros x nx];
    (destruct (decide (x = t)) as [->|Hne]; [rewrite at_lock_same|rewrite at_lock_other by done]); eauto; done.
Qed.

(** The thread at the head of the queue is the one whose ticket is served. *)
Lemma served_head s t my q : queue_inv n s q -> t ∈ q -> at_lock s t = Spin my -> my = cntr (lock s) <-> zget q 0 = Some t.
Proof.
  intros I Hq Hat. pose proof (ticket_queue_bound _ _ I) as Hb. destruct I as [Hnd Hr Hin Htk Hc Hsp Hhd Hlv].
  apply list_elem_of_lookup in Hq as [k Hk]. assert (Hz : zget q (Z.of_nat k) = Some t) by (unfold zget; rewrite Nat2Z.id; done).
  pose proof (Hsp (Z.of_nat k) t my (Nat2Z.is_nonneg k) Hz Hat) as Hmy. pose proof (lookup_lt_Some _ _ _ Hk) as Hlt. unfold zlen in Hb. split; intros H0.
  - assert (E0 : Z.of_nat k = 0); [|rewrite E0 in Hz; done]. apply (ticket_inj (cntr (lock s))); [lia|lia|].
    rewrite <- Hmy, H0, Z.add_0_r, u32_small; done.
  - pose proof (zget_index q (Z.of_nat k) 0 t Hnd ltac:(lia) ltac:(lia) Hz H0) as Ek. rewrite Hmy, Ek, Z.add_0_r, u32_small; done.
Qed.

Lemma queue_enter s t th q : queue_inv n s q -> 0 <= t < n -> at_lock s t = Outside -> lpc_of th = Spin (ticket (lock s)) ->
  queue_inv n (at_after s (McsLock (cntr (lock s)) (u32 (ticket (lock s) + 1))) t th) (q ++ [t]).
Proof.
  intros [Hnd Hr Hin Htk Hc Hsp Hhd Hlv] Ht Hat Hth. assert (Hnin : t ∉ q) by (rewrite <- Hin; congruence).
  split; cbn [lock at_after cntr ticket].
  - apply NoDup_app. split_and!; [done| |apply NoDup_singleton]. intros x Hx Hx'. apply list_elem_of_singleton in Hx' as ->. done.
  - intros x Hx. apply elem_of_app in Hx as [Hx|Hx%list_elem_of_singleton]; [auto|subst; done].
  - intros x. rewrite elem_of_app, list_elem_of_singleton. destruct (decide (x = t)) as [->|Hne]; [rewrite at_lock_same, Hth; naive_solver|].
    rewrite at_lock_other, Hin by done. tauto.
  - rewrite Htk, u32_add_l. unfold zlen. rewrite length_app. cbn [length]. f_equal. lia.
  - done.
  - intros i x my Hi Hz. destruct (decide (x = t)) as [->|Hne]; [rewrite at_lock_same, Hth; intros [= <-]; rewrite Htk; do 2 f_equal|rewrite at_lock_other by done; intros Hat'];
      unfold zget in Hz; apply lookup_app_Some in Hz as [Hz|[Hge Hz]]; try (apply list_lookup_singleton_Some in Hz as [Hz Hz']).
    + apply list_elem_of_lookup_2 in Hz. done.
    + unfold zlen. lia.
    + eapply Hsp; done.
    + congruence.
  - intros x. destruct (decide (x = t)) as [->|Hne]; [rewrite at_lock_same, Hth; done|]. rewrite at_lock_other by done. intros Hh.
    unfold zget. apply lookup_app_l_Some. apply Hhd. done.
  - intros x nx. destruct (decide (x = t)) as [->|Hne]; [rewrite at_lock_same, Hth; done|]. rewrite at_lock_other by done. apply Hlv.
Qed.

Lemma queue_leave s t next th q : queue_inv n s q -> at_lock s t = Leave next -> lpc_of th = Outside ->
  queue_inv n (at_after s (McsLock next (ticket (lock s))) t th) (tail q).
Proof.
  intros [Hnd Hr Hin Htk Hc Hsp Hhd Hlv] Hat Hth. pose proof (Hlv t next Hat) as ->. pose proof (Hhd t ltac:(rewrite Hat; done)) as Hh.
  destruct q as [|t0 q]; [done|]. unfold zget in Hh. cbn in Hh. injection Hh as ->. apply NoDup_cons in Hnd as [Hnt Hnd]. cbn [tail].
  assert (Hother : forall x, x <> t -> holds_lock (at_lock s x) = false).
  { intros x Hx. destruct (holds_lock (at_lock s x)) eqn:Hhx; [|done]. pose proof (Hhd x Hhx) as Hz. unfold zget in Hz. cbn in Hz. injection Hz as ->. done. }
  split; cbn [lock at_after cntr ticket]; try done.
  - intros x Hx. apply Hr. set_solver.
  - intros x. destruct (decide (x = t)) as [->|Hne]; [rewrite at_lock_same; tauto|]. rewrite at_lock_other, Hin, elem_of_cons by done. tauto.
  - rewrite Htk, u32_add_l. unfold zlen. cbn [length]. f_equal. lia.
  - apply u32_bound.
  - intros i x m Hi Hz. destruct (decide (x = t)) as [->|Hne]; [rewrite at_lock_same, Hth; done|]. rewrite at_lock_other by done. intros Hat'.
    assert (Hz' : zget (t :: q) (i + 1) = Some x) by (unfold zget in *; replace (Z.to_nat (i + 1)) with (S (Z.to_nat i)) by lia; done).
    rewrite (Hsp (i + 1) x m) by (done || lia). rewrite u32_add_l. f_equal. lia.
  - intros x. destruct (decide (x = t)) as [->|Hne]; [rewrite at_lock_same, Hth; done|]. rewrite at_lock_other, Hother by done. done.
  - intros x nx. destruct (decide (x = t)) as [->|Hne]; [rewrite at_lock_same, Hth; done|]. rewrite at_lock_other by done. intros Hx.
    pose proof (Hother x Hne) as Hf. rewrite Hx in Hf. done.
Qed.

Lemma queue_run s t q : queue_inv n s q -> 0 <= t < n -> queue_inv n (lock_run t s) (queue_next s t q).
Proof.
  intros I Ht. unfold lock_run, lock_access, queue_next. fold (at_lock s t). assert (Hq : at_lock s t <> Outside -> t ∈ q) by apply I.
  destruct (at_lock s t) as [|my| |next] eqn:Hat; cbn [mcs_lock_enter mcs_unlock_store].
  - apply (queue_enter s t); done.
  - unfold mcs_lock_poll. destruct (Z.eqb_spec my (cntr (lock s))) as [Hm|]; cbn [negb]; apply (queue_stay s t); auto;
      cbn [lpc_of]; fold (at_lock s t); rewrite ?Hat; try done. intros _. apply (served_head s t my q I); auto.
  - apply (queue_stay s t); auto; try done; [intros _; apply I; rewrite Hat; done|]. cbn. congruence.
  - apply (queue_leave s t); done.
Qed.

(** What the calls do to the state of a thread *)
Definition thread_ok (irq0 : bool) (th : lthread) : Prop :=
  locks_count th = Z.b2z (holds_lock (lpc_of th)) /\ irq_state th = irq0 /\
  irq th = (if decide (lpc_of th = Outside) then irq0 else false).

Lemma thread_ok_access irq0 l th : thread_ok irq0 th -> thread_ok irq0 (snd (lock_access l th)).
Proof.
  destruct th as [p c i st]. intros (Hc & Hs & Hi). unfold lock_access. cbn in *. destruct p as [|my| |next]; cbn in *; subst; try done.
  unfold mcs_lock_poll. destruct (negb (my =? cntr l)); done.
Qed.

(** What a turn of the loop does, when the thread is first in the queue and when it is not *)
Lemma poll_head s q t my : queue_inv n s q -> at_lock s t = Spin my ->
  at_lock (lock_run t s) t = if decide (zget q 0 = Some t) then Holding else Spin my.
Proof.
  intros I Hat. assert (Hq : t ∈ q) by (apply I; congruence). pose proof (served_head s t my q I Hq Hat) as Hiff.
  unfold lock_run, lock_access. fold (at_lock s t). rewrite Hat. fold (at_after s (lock s) t (mcs_lock_poll (lock s) my (threads s t))). rewrite at_lock_same.
  unfold mcs_lock_poll. destruct (Z.eqb_spec my (cntr (lock s))) as [Hm|Hm]; cbn [negb lpc_of]; [rewrite decide_True by tauto|rewrite decide_False by tauto]; done.
Qed.

(** The threads of the queue that do not have the lock yet *)
Definition waiting s q : list Z := filter (fun t => holds_lock (at_lock s t) = false) q.

Lemma waiting_ext s s' q : (forall t, t ∈ q -> holds_lock (at_lock s t) = holds_lock (at_lock s' t)) -> waiting s q = waiting s' q.
Proof.
  unfold waiting. induction q as [|t q IH]; intros H; [done|]. rewrite !filter_cons, (H t) by (apply elem_of_cons; left; done).
  rewrite IH by (intros x Hx; apply H, elem_of_cons; right; done). done.
Qed.

Lemma run_other s t x : x <> t -> at_lock (lock_run t s) x = at_lock s x.
Proof. intros Hx. unfold lock_run, at_lock. destruct (lock_access _ _) as [l th]. cbn. rewrite fn_lookup_insert_ne by done. done. Qed.

(** In a queue, the threads behind the first one wait. *)
Lemma waiting_tail s t q : queue_inv n s (t :: q) -> waiting s q = q.
Proof.
  intros I. unfold waiting. assert (H : Forall (fun x => holds_lock (at_lock s x) = false) q).
  2: { clear I. induction H as [|x q Hx H IH]; [done|]. rewrite filter_cons, decide_True, IH by done. done. }
  apply Forall_forall. intros x Hx. destruct (holds_lock (at_lock s x)) eqn:E; [|done].
  apply (q_head _ _ _ I) in E. unfold zget in E. cbn in E. injection E as ->. pose proof (q_nodup _ _ _ I) as Hnd. apply NoDup_cons in Hnd as [H _]. done.
Qed.

(** The invariant of runs *)
Record run_inv (irq0 : Z -> bool) s (g : lock_log) : Prop := {
  r_queue : queue_inv n s (queue g);
  r_order : arrivals g = grants g ++ waiting s (queue g);
  r_thread : forall t, thread_ok (irq0 t) (threads s t);
}.

Lemma order_run s g t : queue_inv n s (queue g) -> 0 <= t < n -> arrivals g = grants g ++ waiting s (queue g) ->
  arrivals (log_next s t g) = grants (log_next s t g) ++ waiting (lock_run t s) (queue (log_next s t g)).
Proof.
  intros I Ht E. pose proof (queue_run s t _ I Ht) as I'. unfold log_next, queue_next in *. cbn [arrivals grants queue].
  assert (Hq : at_lock s t <> Outside -> t ∈ queue g) by apply I.
  destruct (at_lock s t) as [|my| |next] eqn:Hat; cbn [holds_lock negb andb].
  - rewrite decide_True by done. assert (Hs : at_lock (lock_run t s) t = Spin (ticket (lock s))).
    { unfold lock_run, lock_access. fold (at_lock s t). rewrite Hat. apply at_lock_same. }
    rewrite Hs. cbn [holds_lock]. rewrite E, <- app_assoc. f_equal. unfold waiting at 2. rewrite filter_app, filter_cons, Hs. cbn. f_equal.
    apply waiting_ext. intros x Hx. rewrite run_other; [done|]. intros ->. apply (q_in _ _ _ I) in Hx. congruence.
  - rewrite decide_False by done. rewrite (poll_head s (queue g) t my I Hat). specialize (Hq ltac:(done)). destruct (decide (zget (queue g) 0 = Some t)) as [Hz|Hz]; cbn [holds_lock].
    + destruct (queue g) as [|t' q]; [done|]. unfold zget in Hz. cbn in Hz. injection Hz as ->. rewrite E, <- app_assoc. f_equal.
      unfold waiting at 1 2. rewrite !filter_cons, Hat. cbn [holds_lock]. rewrite decide_True by done.
      rewrite (poll_head s (t :: q) t my I Hat), (decide_True (P := zget (t :: q) 0 = Some t)) by done. cbn. f_equal. fold (waiting s q) (waiting (lock_run t s) q).
      rewrite (waiting_tail s t q I), (waiting_tail _ t q I'). done.
    + rewrite E. f_equal. apply waiting_ext. intros x Hx. destruct (decide (x = t)) as [->|Hne]; [|rewrite run_other by done; done].
      rewrite Hat, (poll_head s (queue g) t my I Hat), decide_False by done. done.
  - rewrite decide_False by done. rewrite E. f_equal. apply waiting_ext. intros x Hx. destruct (decide (x = t)) as [->|Hne]; [|rewrite run_other by done; done].
    rewrite Hat. unfold lock_run, lock_access. fold (at_lock s t). rewrite Hat. fold (at_after s (lock s) t (mcs_unlock_load (lock s) (threads s t))).
    rewrite at_lock_same. done.
  - rewrite decide_False by done. rewrite E. f_equal. pose proof (q_head _ _ _ I t ltac:(rewrite Hat; done)) as Hz.
    destruct (queue g) as [|t' q]; [done|]. unfold zget in Hz. cbn in Hz. injection Hz as ->. cbn [tail] in *.
    unfold waiting at 1. rewrite filter_cons, Hat. cbn [holds_lock]. rewrite decide_False by done. apply waiting_ext. intros x Hx.
    rewrite run_other; [done|]. intros ->. pose proof (q_nodup _ _ _ I) as Hnd. apply NoDup_cons in Hnd as [H _]. done.
Qed.

Lemma exec_inv irq0 sched s g : Forall (fun t => 0 <= t < n) sched -> run_inv irq0 s g -> let '(s', g') := lock_exec sched s g in run_inv irq0 s' g'.
Proof.
  intros Hs. revert s g. induction Hs as [|t sched Ht Hs IH]; intros s g I; cbn [lock_exec]; [done|]. apply IH. destruct I as [I E Hth]. split.
  - apply queue_run; done.
  - apply order_run; done.
  - intros x. pose proof (thread_ok_access (irq0 t) (lock s) (threads s t) (Hth t)) as Hok. unfold lock_run.
    destruct (lock_access _ _) as [l th]. cbn in *. destruct (decide (x = t)) as [->|Hne]; [rewrite fn_lookup_insert|rewrite fn_lookup_insert_ne by done]; auto.
Qed.

Lemma start_inv irq0 : run_inv irq0 (lock_start irq0) (LockLog [] [] []).
Proof.
  split; [|done|done]. split; unfold at_lock; cbn; try done; [apply NoDup_nil_2|intros t Ht; inversion Ht|intros t; rewrite elem_of_nil; done].
Qed.

End Lock.

(** C30: The ticket lock is exclusive and first come, first served, also when the tickets wrap around.  For any number of threads
    below 2^32 and any schedule of their accesses: the threads get the lock in the order in which they took their tickets
    (the list of arrivals is the list of grants followed by the threads that still wait, in the order of the queue); the queue, to which an arrival
    adds at the end and a release takes the first thread away, has exactly the threads between their ticket and the end of
    their unlock, none of them twice; only the first thread can hold the lock, the next turn of its loop takes it when it does not, and the
    turns of the other threads do not; the count of the locks of a thread is exact, the interrupts are
    masked from the ticket to the release and given back as they were. *)
Theorem mcs_lock_fifo n irq0 sched : 0 <= n < 2 ^ 32 -> Forall (fun t => 0 <= t < n) sched ->
  let '(s, g) := lock_exec sched (lock_start irq0) (LockLog [] [] []) in
  arrivals g = grants g ++ filter (fun t => holds_lock (at_lock s t) = false) (queue g) /\
  NoDup (queue g) /\ (forall t, t ∈ queue g <-> at_lock s t <> Outside) /\
  (forall t, holds_lock (at_lock s t) = true -> zget (queue g) 0 = Some t) /\
  (forall t my, at_lock s t = Spin my -> at_lock (lock_run t s) t = if decide (zget (queue g) 0 = Some t) then Holding else Spin my) /\
  (forall t, locks_count (threads s t) = Z.b2z (holds_lock (at_lock s t)) /\
             irq (threads s t) = if decide (at_lock s t = Outside) then irq0 t else false).
Proof.
  intros Hn Hs. pose proof (exec_inv n Hn irq0 sched _ _ Hs (start_inv n irq0)) as H. destruct (lock_exec _ _ _) as [s g]. destruct H as [I E Hth].
  split_and!; try apply I; [done| | |].
  - intros t. symmetry. apply I.
  - intros t my. apply (poll_head n Hn). done.
  - intros t. destruct (Hth t) as (H1 & _ & H3). done.
Qed.

(** Thread 1 takes its ticket before thread 0, which tries while 1 holds the lock and gets it after the release; then 1 waits behind 0. *)
Definition demo_sched : list Z := [1; 0; 1; 0; 1; 1; 1; 0; 1].
Definition demo_lock : lock_sys * lock_log := lock_exec demo_sched (lock_start (fun _ => true)) (LockLog [] [] []).

Lemma mcs_lock_fifo_witness : Forall (fun t => 0 <= t < 2) demo_sched /\
  snd demo_lock = LockLog [1; 0; 1] [1; 0] [0; 1] /\ at_lock (fst demo_lock) 0 = Holding /\ at_lock (fst demo_lock) 1 = Spin 2 /\
  arrivals (snd demo_lock) = grants (snd demo_lock) ++ filter (fun t => holds_lock (at_lock (fst demo_lock) t) = false) (queue (snd demo_lock)).
Proof.
  assert (Hs : Forall (fun t => 0 <= t < 2) demo_sched) by (unfold demo_sched; repeat constructor; lia).
  split; [exact Hs|]. split; [vm_compute; reflexivity|]. split; [vm_compute; reflexivity|]. split; [vm_compute; reflexivity|].
  pose proof (mcs_lock_fifo 2 (fun _ => true) demo_sched ltac:(lia) Hs) as H. unfold demo_lock. destruct (lock_exec _ _ _) as [s g]. apply H.
Defined.
