(* ===== verification/McsBarrier.v ===== *)
(** * McsBarrier: the spinning barrier of [kernel/kern/mcs_sync.c]

    The threads count down [cntr]; the last one turns the phase over, sets the count again, clears the word of the next
    round and sets the word of this one, on which the others spin.  [barrier_access] is the next access of a thread to the shared
    words, and a step of the system is an access of any thread. *)

From S2P Require Import Prelude.

Record mcs_barrier_s := McsBarrier { bval : Z; phase : Z; bcntr : Z; bticket : Z; bticket2 : Z }.

Definition mcs_barrier_init (count : Z) : mcs_barrier_s := McsBarrier count 0 count 0 0.

(** [current] and [next] point to one of the two words, by a phase. *)
Definition word (ph : Z) (b : mcs_barrier_s) : Z := if ph =? 0 then bticket b else bticket2 b.
Definition set_word (ph v : Z) (b : mcs_barrier_s) : mcs_barrier_s :=
  if ph =? 0 then McsBarrier (bval b) (phase b) (bcntr b) v (bticket2 b)
  else McsBarrier (bval b) (phase b) (bcntr b) (bticket b) v.

(** The next access of a thread in [mcs_barrier_wait]: the load of the phase, the decrement, a turn of the loop; or, for the last
    thread, the stores of [phase], [cntr], [*next] and [*current]. *)
Inductive bpc :=
  | BIdle | BCount (cur : Z) | BSpin (cur : Z)
  | BPhase (cur next : Z) | BCntr (cur next : Z) | BNext (cur next : Z) | BRelease (cur next : Z).

Definition mcs_barrier_wait (b : mcs_barrier_s) (p : bpc) : mcs_barrier_s * bpc :=
  match p with
  | BIdle => (b, BCount (phase b))
  | BCount cur =>
      let order := bcntr b in
      let b := McsBarrier (bval b) (phase b) (u32 (order - 1)) (bticket b) (bticket2 b) in
      (b, if order =? 1 then BPhase cur (Z.land (u32 (Z.lnot cur)) 1) else BSpin cur)
  | BPhase cur next => (McsBarrier (bval b) next (bcntr b) (bticket b) (bticket2 b), BCntr cur next)
  | BCntr cur next => (McsBarrier (bval b) (phase b) (bval b) (bticket b) (bticket2 b), BNext cur next)
  | BNext cur next => (set_word next 0 b, BRelease cur next)
  | BRelease cur next => (set_word cur 1 b, BIdle)
  | BSpin cur => (b, if word cur b =? 0 then BSpin cur else BIdle)
  end.

(** The system, with the number of the rounds that each thread has counted itself in, and has returned from *)
Record barrier_sys := BarrierSys { bar : mcs_barrier_s; at_bar : Z -> bpc; arrived : Z -> Z; returned : Z -> Z }.

Definition arrives (p : bpc) : Z := match p with BCount _ => 1 | _ => 0 end.
Definition returns (p p' : bpc) : Z := match p, p' with BIdle, _ => 0 | _, BIdle => 1 | _, _ => 0 end.

Definition barrier_run (t : Z) (s : barrier_sys) : barrier_sys :=
  let '(b, p) := mcs_barrier_wait (bar s) (at_bar s t) in
  BarrierSys b (<[t := p]> (at_bar s)) (<[t := arrived s t + arrives (at_bar s t)]> (arrived s))
    (<[t := returned s t + returns (at_bar s t) p]> (returned s)).

(** Threads 0 to [n - 1] *)
Inductive barrier_step (n : Z) : barrier_sys -> barrier_sys -> Prop :=
| barrier_step_access s t : 0 <= t < n -> barrier_step n s (barrier_run t s).

Definition barrier_start (n : Z) : barrier_sys := BarrierSys (mcs_barrier_init n) (fun _ => BIdle) (fun _ => 0) (fun _ => 0).

(** ** Rounds *)

Definition par (r : Z) : Z := r mod 2.

Lemma par_cases r : par r = 0 \/ par r = 1.
Proof. unfold par. pose proof (Z.mod_pos_bound r 2). lia. Qed.
Lemma par_succ r : par (r + 1) = 1 - par r.
Proof. unfold par. rewrite !Zmod_even. replace (r + 1) with (Z.succ r) by lia. rewrite Z.even_succ, <- Z.negb_even. destruct (Z.even r); done. Qed.
Lemma flip_par r : Z.land (u32 (Z.lnot (par r))) 1 = 1 - par r.
Proof. destruct (par_cases r) as [-> | ->]; reflexivity. Qed.

(** A thread that has not arrived at the round [r]: it may still spin on the word of the round before. *)
Inductive before (s : barrier_sys) (r t : Z) : Prop :=
| before_out : at_bar s t = BIdle \/ at_bar s t = BCount (par r) -> arrived s t = r -> returned s t = r -> before s r t
| before_late : at_bar s t = BSpin (1 - par r) -> arrived s t = r -> returned s t = r - 1 -> word (1 - par r) (bar s) = 1 -> before s r t.

(** A thread that waits for the end of the round [r] *)
Record inside (s : barrier_sys) (r t : Z) : Prop := {
  in_spin : at_bar s t = BSpin (par r); in_arrived : arrived s t = r + 1; in_returned : returned s t = r;
}.

(** The stores of the last thread *)
Definition closing (n : Z) (b : mcs_barrier_s) (r : Z) (p : bpc) : Prop :=
  match p with
  | BPhase cur next => cur = par r /\ next = 1 - par r
  | BCntr cur next => cur = par r /\ next = 1 - par r /\ phase b = 1 - par r
  | BNext cur next => cur = par r /\ next = 1 - par r /\ phase b = 1 - par r /\ bcntr b = n
  | BRelease cur next => cur = par r /\ next = 1 - par r /\ phase b = 1 - par r /\ bcntr b = n /\ word (1 - par r) b = 0
  | _ => False
  end.

(** The round [r] gathers its threads, those of [arr] have arrived; or its last thread closes it. *)
Inductive round (n : Z) (s : barrier_sys) (r : Z) : Prop :=
| round_gather arr : NoDup arr -> (forall t, t ∈ arr -> 0 <= t < n) -> zlen arr < n ->
    phase (bar s) = par r -> bcntr (bar s) = n - zlen arr -> word (par r) (bar s) = 0 ->
    (forall t, t ∈ arr -> inside s r t) -> (forall t, 0 <= t < n -> t ∉ arr -> before s r t) -> round n s r
| round_close last : 0 <= last < n -> word (par r) (bar s) = 0 -> closing n (bar s) r (at_bar s last) ->
    arrived s last = r + 1 -> returned s last = r -> (forall t, 0 <= t < n -> t <> last -> inside s r t) -> round n s r.

Section Rounds.
Context (n : Z) (Hn : 0 < n < 2 ^ 32).
Implicit Types (s : barrier_sys).

Lemma word_set_same ph v b : word ph (set_word ph v b) = v.
Proof. unfold word, set_word. destruct (ph =? 0); done. Qed.
Lemma word_set_other r v b : word (par r) (set_word (1 - par r) v b) = word (par r) b.
Proof. destruct (par_cases r) as [-> | ->]; done. Qed.
Lemma word_set_other' r v b : word (1 - par r) (set_word (par r) v b) = word (1 - par r) b.
Proof. destruct (par_cases r) as [-> | ->]; done. Qed.
Lemma set_word_rest ph v b : bval (set_word ph v b) = bval b /\ phase (set_word ph v b) = phase b /\ bcntr (set_word ph v b) = bcntr b.
Proof. unfold set_word. destruct (ph =? 0); done. Qed.

(** The other threads keep their place when the words they look at stay. *)
Definition moved s b t p a l : barrier_sys := BarrierSys b (<[t := p]> (at_bar s)) (<[t := a]> (arrived s)) (<[t := l]> (returned s)).

Lemma inside_moved s b t p a l r x : x <> t -> inside s r x -> inside (moved s b t p a l) r x.
Proof. intros Hx [H1 H2 H3]. split; cbn; rewrite fn_lookup_insert_ne; done. Qed.
Lemma before_moved s b t p a l r x : x <> t -> word (1 - par r) b = word (1 - par r) (bar s) -> before s r x -> before (moved s b t p a l) r x.
Proof.
  intros Hx Hw [H1 H2 H3|H1 H2 H3 H4]; [apply before_out|apply before_late]; cbn; rewrite ?fn_lookup_insert_ne by done; try done. congruence.
Qed.

Lemma barrier_run_moved s t b p : mcs_barrier_wait (bar s) (at_bar s t) = (b, p) ->
  barrier_run t s = moved s b t p (arrived s t + arrives (at_bar s t)) (returned s t + returns (at_bar s t) p).
Proof. intros E. unfold barrier_run. rewrite E. done. Qed.

(** In a list of the threads without [t] of length [n - 1] are all of the others. *)
Lemma all_others (arr : list Z) t x : NoDup arr -> (forall u, u ∈ arr -> 0 <= u < n) -> t ∉ arr -> zlen arr = n - 1 ->
  0 <= t < n -> 0 <= x < n -> x <> t -> x ∈ arr.
Proof.
  intros Hnd Hr Ht Hl Htn Hx Hne. destruct (decide (x ∈ arr)) as [|Hni]; [done|]. exfalso.
  assert (Hsub : x :: t :: arr ⊆+ seqZ 0 n).
  { apply NoDup_submseteq; [apply NoDup_cons; split; [rewrite elem_of_cons; tauto|apply NoDup_cons; done]|].
    intros u Hu. apply elem_of_seqZ. rewrite !elem_of_cons in Hu. destruct Hu as [->|[->|Hu]]; [lia|lia|]. pose proof (Hr u Hu). lia. }
  apply submseteq_length in Hsub. rewrite length_seqZ in Hsub. cbn in Hsub. unfold zlen in Hl. lia.
Qed.

Lemma gather_moved s r (arr arr' : list Z) t b p a l : (forall x, x ∈ arr -> inside s r x) -> (forall x, 0 <= x < n -> x ∉ arr -> before s r x) ->
  NoDup arr' -> (forall x, x ∈ arr' -> 0 <= x < n) -> zlen arr' < n -> phase b = par r -> bcntr b = n - zlen arr' -> word (par r) b = 0 ->
  word (1 - par r) b = word (1 - par r) (bar s) -> (forall x, x <> t -> x ∈ arr' <-> x ∈ arr) ->
  (t ∈ arr' -> inside (moved s b t p a l) r t) -> (t ∉ arr' -> before (moved s b t p a l) r t) -> round n (moved s b t p a l) r.
Proof.
  intros Hin Hbe Hnd Hr Hl Hp Hc Hw Hw' Hx Ht1 Ht2. apply round_gather with arr'; try done.
  - intros x Hxa. destruct (decide (x = t)) as [->|Hne]; [auto|]. apply inside_moved, Hin, Hx; done.
  - intros x Hxn Hxa. destruct (decide (x = t)) as [->|Hne]; [auto|]. apply before_moved; [done|done|]. apply Hbe; [done|]. rewrite <- Hx; done.
Qed.

Lemma inside_self s r t b p a l : p = BSpin (par r) -> a = r + 1 -> l = r -> inside (moved s b t p a l) r t.
Proof. intros -> -> ->. split; cbn; apply fn_lookup_insert. Qed.
Lemma before_self s r t b p a l : p = BIdle \/ p = BCount (par r) -> a = r -> l = r -> before (moved s b t p a l) r t.
Proof. intros Hp -> ->. apply before_out; cbn; rewrite fn_lookup_insert; done. Qed.

Lemma gather_run s r t arr : NoDup arr -> (forall t, t ∈ arr -> 0 <= t < n) -> zlen arr < n ->
  phase (bar s) = par r -> bcntr (bar s) = n - zlen arr -> word (par r) (bar s) = 0 ->
  (forall t, t ∈ arr -> inside s r t) -> (forall t, 0 <= t < n -> t ∉ arr -> before s r t) -> 0 <= t < n -> round n (barrier_run t s) r.
Proof.
  intros Hnd Har Hl Hp Hc Hw Hin Hbe Ht.
  destruct (decide (t ∈ arr)) as [Hta|Hta].
  - destruct (Hin t Hta) as [H1 H2 H3]. erewrite barrier_run_moved by (rewrite H1; cbn [mcs_barrier_wait]; rewrite Hw; reflexivity). rewrite H1. cbn [Z.eqb arrives returns].
    apply gather_moved with arr arr; try done. intros _. apply inside_self; [done|lia|lia].
  - destruct (Hbe t Ht Hta) as [[H1|H1] H2 H3|H1 H2 H3 H4].
    + erewrite barrier_run_moved by (rewrite H1; reflexivity). rewrite H1, Hp. cbn [arrives returns].
      apply gather_moved with arr arr; try done. intros _. apply before_self; [auto|lia|lia].
    + erewrite barrier_run_moved by (rewrite H1; reflexivity). rewrite H1, Hc. cbn [arrives]. destruct (Z.eqb_spec (n - zlen arr) 1) as [E|E].
      { rewrite flip_par. apply round_close with t; cbn; rewrite ?fn_lookup_insert; try done; [lia|lia|].
        intros x Hx Hne. apply inside_moved; [done|]. apply Hin. apply (all_others arr t); try done; lia. }
      pose proof (zlen_nonneg arr). assert (Hl' : zlen (t :: arr) = zlen arr + 1) by (unfold zlen; cbn [length]; lia).
      apply gather_moved with arr (t :: arr); rewrite ?Hl'; try done; cbn [phase bcntr]; try lia; [apply NoDup_cons; done| | | | |].
      { intros x Hx. apply elem_of_cons in Hx as [->|Hx]; auto. }
      { rewrite u32_small by (unfold is_u32; lia). lia. }
      { intros x Hx. rewrite elem_of_cons. tauto. }
      { intros _. apply inside_self; [done|lia|cbn; lia]. }
      { rewrite elem_of_cons. tauto. }
    + erewrite barrier_run_moved by (rewrite H1; cbn [mcs_barrier_wait]; rewrite H4; reflexivity). rewrite H1. cbn [Z.eqb arrives returns].
      apply gather_moved with arr arr; try done. intros _. apply before_self; [auto|lia|lia].
Qed.

Lemma close_run s r t last : bval (bar s) = n -> 0 <= last < n -> word (par r) (bar s) = 0 -> closing n (bar s) r (at_bar s last) ->
  arrived s last = r + 1 -> returned s last = r -> (forall t, 0 <= t < n -> t <> last -> inside s r t) -> 0 <= t < n ->
  round n (barrier_run t s) r \/ round n (barrier_run t s) (r + 1).
Proof.
  intros Hv Hla Hw Hcl Ha Hre Hin Ht.
  destruct (decide (t = last)) as [->|Hne].
  - destruct (at_bar s last) as [| | |cur next|cur next|cur next|cur next] eqn:H1; cbn in Hcl; try done.
    + left. destruct Hcl as [-> ->]. erewrite barrier_run_moved by (rewrite H1; reflexivity). rewrite H1. cbn [arrives returns].
      apply round_close with last; cbn; rewrite ?fn_lookup_insert; try done; try lia. intros x Hx Hxl. apply inside_moved; auto.
    + left. destruct Hcl as (-> & -> & Hph). erewrite barrier_run_moved by (rewrite H1; reflexivity). rewrite H1. cbn [arrives returns].
      apply round_close with last; cbn; rewrite ?fn_lookup_insert; try done; try lia. intros x Hx Hxl. apply inside_moved; auto.
    + left. destruct Hcl as (-> & -> & Hph & Hcn). erewrite barrier_run_moved by (rewrite H1; reflexivity). rewrite H1. cbn [arrives returns].
      destruct (set_word_rest (1 - par r) 0 (bar s)) as (E1 & E2 & E3).
      apply round_close with last; cbn; rewrite ?fn_lookup_insert, ?word_set_other; try done; try lia.
      { cbn. rewrite E2, E3, word_set_same. done. }
      intros x Hx Hxl. apply inside_moved; auto.
    + right. destruct Hcl as (-> & -> & Hph & Hcn & Hw0). erewrite barrier_run_moved by (rewrite H1; reflexivity). rewrite H1. cbn [arrives returns].
      destruct (set_word_rest (par r) 1 (bar s)) as (E1 & E2 & E3).
      apply round_gather with []; rewrite ?par_succ; cbn; rewrite ?E2, ?E3, ?word_set_other'; try done; try (change (zlen (@nil Z)) with 0; lia); [apply NoDup_nil_2|inversion 1|inversion 1|].
      intros x Hx _. destruct (decide (x = last)) as [->|Hxl]; [apply before_self; auto; lia|]. destruct (Hin x Hx Hxl) as [G1 G2 G3].
      apply before_late; rewrite ?par_succ; cbn; rewrite ?fn_lookup_insert_ne by done; try lia; replace (1 - (1 - par r)) with (par r) by lia; [done|apply word_set_same].
  - left. destruct (Hin t Ht Hne) as [H1 H2 H3]. erewrite barrier_run_moved by (rewrite H1; cbn [mcs_barrier_wait]; rewrite Hw; reflexivity).
    rewrite H1. cbn [Z.eqb arrives returns]. apply round_close with last; cbn; rewrite ?fn_lookup_insert_ne by done; try done.
    intros x Hx Hxl. destruct (decide (x = t)) as [->|Hxt]; [apply inside_self; [done|lia|lia]|apply inside_moved; auto].
Qed.

Lemma round_run s r t : bval (bar s) = n -> round n s r -> 0 <= t < n -> round n (barrier_run t s) r \/ round n (barrier_run t s) (r + 1).
Proof. intros Hv [arr|last] Ht; [left; apply (gather_run s r t arr)|apply (close_run s r t last)]; assumption. Qed.

Lemma wait_bval b p : bval (fst (mcs_barrier_wait b p)) = bval b.
Proof. destruct p; cbn; try done; apply set_word_rest. Qed.

Lemma barrier_reach s : rtc (barrier_step n) (barrier_start n) s -> exists r, round n s r.
Proof.
  intros Hs. assert (H0 : bval (bar (barrier_start n)) = n /\ exists r, round n (barrier_start n) r).
  { split; [done|]. exists 0. apply round_gather with []; try done; [apply NoDup_nil_2|inversion 1|change (zlen (@nil Z)) with 0; lia|cbn; change (zlen (@nil Z)) with 0; lia|inversion 1|].
    intros t Ht _. apply before_out; auto. }
  revert H0. induction Hs as [s|s1 s2 s3 [s1' t Ht] _ IH]; [tauto|]. intros [Hv [r Hr]]. apply IH. split.
  - pose proof (wait_bval (bar s1') (at_bar s1' t)) as E. unfold barrier_run. destruct (mcs_barrier_wait _ _). cbn in *. congruence.
  - destruct (round_run s1' r t Hv Hr Ht); eauto.
Qed.

(** Some thread is outside of the list of the arrived ones. *)
Lemma not_all (arr : list Z) : zlen arr < n -> exists t, 0 <= t < n /\ t ∉ arr.
Proof.
  intros Hl. destruct (decide (Forall (fun t => t ∈ arr) (seqZ 0 n))) as [Hall|Hnot].
  - rewrite Forall_forall in Hall. assert (Hsub : seqZ 0 n ⊆+ arr) by (apply NoDup_submseteq; [apply NoDup_seqZ|done]).
    apply submseteq_length in Hsub. rewrite length_seqZ in Hsub. unfold zlen in Hl. lia.
  - apply not_Forall_Exists in Hnot; [|intros; apply _]. apply Exists_exists in Hnot as (t & Ht & Hnt). apply elem_of_seqZ in Ht. exists t. split; [lia|done].
Qed.

Lemma round_bounds s r t : round n s r -> 0 <= t < n -> returned s t <= r <= arrived s t /\ arrived s t <= returned s t + 1.
Proof.
  intros [arr Hnd Har Hl Hp Hc Hw Hin Hbe|last Hla Hw Hcl Ha Hre Hin] Ht.
  - destruct (decide (t ∈ arr)) as [Hta|Hta]; [destruct (Hin t Hta); lia|]. destruct (Hbe t Ht Hta); lia.
  - destruct (decide (t = last)) as [->|Hne]; [lia|]. destruct (Hin t Ht Hne). lia.
Qed.
End Rounds.

(** C31: The spinning barrier separates its rounds: with as many threads as its count, below 2^32, and any interleaving of their
    accesses, a thread returns from its k-th wait only when all of them have counted themselves in for the k-th
    time, so that no thread is two rounds ahead; at any time some thread is not stuck in its loop; and as soon as
    one thread has returned from the round that another one waits for, the next turn of the loop of that one returns. *)
Theorem mcs_barrier_rounds n s : 0 < n < 2 ^ 32 -> rtc (barrier_step n) (barrier_start n) s ->
  (forall t u, 0 <= t < n -> 0 <= u < n -> returned s t <= arrived s u /\ arrived s t <= returned s u + 2) /\
  (exists t, 0 <= t < n /\ forall cur, at_bar s t = BSpin cur -> at_bar (barrier_run t s) t = BIdle) /\
  (forall t u cur, 0 <= t < n -> 0 <= u < n -> at_bar s t = BSpin cur -> arrived s t <= returned s u -> at_bar (barrier_run t s) t = BIdle).
Proof.
  intros Hn Hs. destruct (barrier_reach n Hn s Hs) as [r Hr]. pose proof (round_bounds n s r) as Hb.
  assert (Hspin : forall t cur, at_bar s t = BSpin cur -> word cur (bar s) = 1 -> at_bar (barrier_run t s) t = BIdle).
  { intros t cur Ht Hw. unfold barrier_run. rewrite Ht. cbn [mcs_barrier_wait]. rewrite Hw. cbn. apply fn_lookup_insert. }
  split_and!.
  - intros t u Ht Hu. pose proof (Hb t Hr Ht). pose proof (Hb u Hr Hu). lia.
  - destruct Hr as [arr Hnd Har Hl Hp Hc Hw Hin Hbe|last Hla Hw Hcl Ha Hre Hin].
    + destruct (not_all n Hn arr Hl) as (t & Ht & Hnt). exists t. split; [done|]. intros cur Hcur.
      destruct (Hbe t Ht Hnt) as [[H1|H1] H2 H3|H1 H2 H3 H4]; [congruence|congruence|]. assert (cur = 1 - par r) as -> by congruence. eauto.
    + exists last. split; [done|]. intros cur Hcur. rewrite Hcur in Hcl. done.
  - intros t u cur Ht Hu Hcur Hle. pose proof (Hb u Hr Hu) as Hbu. destruct Hr as [arr Hnd Har Hl Hp Hc Hw Hin Hbe|last Hla Hw Hcl Ha Hre Hin].
    + destruct (decide (t ∈ arr)) as [Hta|Hta]; [destruct (Hin t Hta); lia|].
      destruct (Hbe t Ht Hta) as [[H1|H1] H2 H3|H1 H2 H3 H4]; [congruence|congruence|]. assert (cur = 1 - par r) as -> by congruence. eauto.
    + destruct (decide (t = last)) as [->|Hne]; [lia|]. destruct (Hin t Ht Hne). lia.
Qed.

(** Two threads: 1 arrives and spins, 0 arrives last and closes the round; 1 has not left its loop yet. *)
Definition demo_mcs : barrier_sys := foldl (fun s t => barrier_run t s) (barrier_start 2) [1; 1; 1; 0; 0; 0; 0; 0; 0].

Lemma mcs_barrier_rounds_witness : rtc (barrier_step 2) (barrier_start 2) demo_mcs /\
  at_bar demo_mcs 1 = BSpin 0 /\ returned demo_mcs 0 = 1 /\ at_bar (barrier_run 1 demo_mcs) 1 = BIdle.
Proof.
  assert (Hr : rtc (barrier_step 2) (barrier_start 2) demo_mcs) by (unfold demo_mcs; cbn [foldl]; do 9 (eapply rtc_r; [|constructor; lia]); apply rtc_refl).
  split; [exact Hr|]. split; [vm_compute; reflexivity|]. split; [vm_compute; reflexivity|].
  apply (mcs_barrier_rounds 2 demo_mcs ltac:(lia) Hr) with (u := 0) (cur := 0); try lia; [vm_compute; reflexivity|vm_compute; discriminate].
Defined.
