(* ===== verification/Sched.v ===== *)
(** * Sched: the scheduler of a processor, [kernel/kern/scheduler.c], and its round-robin policy,
    [kernel/kern/rr-sched.c], for [CONFIG_USE_SCHED_LOCKS = no] and [CONFIG_CPU_LOAD_BALANCING = yes].

    A thread is the address of its descriptor, a multiple of [SCHED_OP_MASK + 1].  The queues of the
    policy are sequences ([ListH] relates them to the chained lists of the code).  Other processors act on
    this one through the ports of its database only, one store for each event.  [schedule] stops at the
    switch to the context of the elected thread: the migration that follows it is not part of the model, nor
    are the times that the calls [tm_..._compute] keep.  [None] is the first element of an empty list, or
    an access outside of a bitmap. *)

From S2P Require Import Prelude Bits.

(** ** Threads *)

Inductive thread_type := PTHREAD | KTHREAD | TH_IDLE | TH_BOOT.
Inductive thread_state := S_CREATE | S_USR | S_KERNEL | S_READY | S_WAIT | S_DEAD.
#[export] Instance thread_type_eq : EqDecision thread_type.
Proof. solve_decision. Defined.
#[export] Instance thread_state_eq : EqDecision thread_state.
Proof. solve_decision. Defined.

Record thread := Thread {
  state : thread_state; type : thread_type; flags : Z; quantum : Z; ticks_nr : Z; static_prio : Z;
  boosted_prio : Z; ltid : Z; sched_nr : Z; local_sched : option Z;
}.

Definition set_state v th := Thread v (type th) (flags th) (quantum th) (ticks_nr th) (static_prio th) (boosted_prio th) (ltid th) (sched_nr th) (local_sched th).
Definition set_type v th := Thread (state th) v (flags th) (quantum th) (ticks_nr th) (static_prio th) (boosted_prio th) (ltid th) (sched_nr th) (local_sched th).
Definition set_flags v th := Thread (state th) (type th) v (quantum th) (ticks_nr th) (static_prio th) (boosted_prio th) (ltid th) (sched_nr th) (local_sched th).
Definition set_quantum v th := Thread (state th) (type th) (flags th) v (ticks_nr th) (static_prio th) (boosted_prio th) (ltid th) (sched_nr th) (local_sched th).
Definition set_ticks v th := Thread (state th) (type th) (flags th) (quantum th) v (static_prio th) (boosted_prio th) (ltid th) (sched_nr th) (local_sched th).
Definition set_prio v th := Thread (state th) (type th) (flags th) (quantum th) (ticks_nr th) v (boosted_prio th) (ltid th) (sched_nr th) (local_sched th).
Definition set_boosted v th := Thread (state th) (type th) (flags th) (quantum th) (ticks_nr th) (static_prio th) v (ltid th) (sched_nr th) (local_sched th).
Definition set_ltid v th := Thread (state th) (type th) (flags th) (quantum th) (ticks_nr th) (static_prio th) (boosted_prio th) v (sched_nr th) (local_sched th).
Definition set_sched_nr v th := Thread (state th) (type th) (flags th) (quantum th) (ticks_nr th) (static_prio th) (boosted_prio th) (ltid th) v (local_sched th).
Definition set_policy v th := Thread (state th) (type th) (flags th) (quantum th) (ticks_nr th) (static_prio th) (boosted_prio th) (ltid th) (sched_nr th) v.

Definition TH_NEED_TO_SCHED : Z := 0x001.
Definition TH_CAN_WAKEUP : Z := 0x008.
Definition TH_CAP_WAKEUP : Z := 0x010.
Definition TH_NEED_TO_MIGRATE : Z := 0x020.
Definition TH_CAN_MIGRATE : Z := 0x040.
Definition TH_EXPORTED : Z := 0x100.
Definition TH_IMPORTED : Z := 0x200.
Definition TH_FORCED_YIELD : Z := 0x400.

(** [flags & m], [flags |= m] and [flags &= ~m] *)
Definition has_flag (m : Z) (th : thread) : bool := negb (Z.land (flags th) m =? 0).
Definition set_flag (m : Z) (th : thread) : thread := set_flags (Z.lor (flags th) m) th.
Definition clear_flag (m : Z) (th : thread) : thread := set_flags (Z.land (flags th) (~! m)) th.

Definition thread_sched_activate := set_flag TH_NEED_TO_SCHED.
Definition thread_sched_deactivate := clear_flag TH_NEED_TO_SCHED.
Definition thread_sched_isActivated := has_flag TH_NEED_TO_SCHED.
Definition thread_migration_activate := set_flag TH_NEED_TO_MIGRATE.
Definition thread_migration_deactivate := clear_flag TH_NEED_TO_MIGRATE.
Definition thread_migration_isEnabled := has_flag TH_CAN_MIGRATE.
Definition thread_isExported := has_flag TH_EXPORTED.
Definition thread_isImported := has_flag TH_IMPORTED.
Definition thread_clear_imported := clear_flag TH_IMPORTED.
Definition thread_set_forced_yield := set_flag TH_FORCED_YIELD.
Definition thread_clear_forced_yield := clear_flag TH_FORCED_YIELD.
Definition thread_isForcedYield := has_flag TH_FORCED_YIELD.
Definition thread_isWakeable := has_flag TH_CAN_WAKEUP.
Definition thread_isCapWakeup := has_flag TH_CAP_WAKEUP.
Definition thread_set_cap_wakeup := set_flag TH_CAP_WAKEUP.
Definition thread_set_wakeable (th : thread) : thread := clear_flag TH_CAP_WAKEUP (set_flag TH_CAN_WAKEUP th).
Definition thread_clear_wakeable := clear_flag TH_CAN_WAKEUP.

(** ** The state of a processor *)

Definition RR_QUANTUM : Z := 4.
Definition CONFIG_CPU_BALANCING_PERIOD : Z := 4.
Definition SCHED_THREADS_NR : Z := 32.
Definition SCHED_RR : Z := 0.
Definition ERANGE : Z := 34.

Definition u16 (z : Z) : Z := z mod 2 ^ 16.

(** [rQueues_s] and the counter [count] of [sched_s] *)
Record rQueues := RQueues {
  count : Z; clock_cntr : Z; period : Z; ru_runnable : Z; rm_runnable : Z;
  kthreads : list Z; runnable : list Z; migrate : list Z;
}.

Definition set_count v q := RQueues v (clock_cntr q) (period q) (ru_runnable q) (rm_runnable q) (kthreads q) (runnable q) (migrate q).
Definition set_clock v q := RQueues (count q) v (period q) (ru_runnable q) (rm_runnable q) (kthreads q) (runnable q) (migrate q).
Definition set_kthreads l q := RQueues (count q) (clock_cntr q) (period q) (ru_runnable q) (rm_runnable q) l (runnable q) (migrate q).
Definition set_runnable v l q := RQueues (count q) (clock_cntr q) (period q) v (rm_runnable q) (kthreads q) l (migrate q).
Definition set_migrate v l q := RQueues (count q) (clock_cntr q) (period q) (ru_runnable q) v (kthreads q) (runnable q) l.

(** The counters of [scheduler_s], of 16 bits *)
Record counters := Counters { total_nr : Z; user_nr : Z; u_runnable : Z; k_runnable : Z }.

Definition add_total d n := Counters (u16 (total_nr n + d)) (user_nr n) (u_runnable n) (k_runnable n).
Definition add_user d n := Counters (total_nr n) (u16 (user_nr n + d)) (u_runnable n) (k_runnable n).
Definition add_u_runnable d n := Counters (total_nr n) (user_nr n) (u16 (u_runnable n + d)) (k_runnable n).
Definition add_k_runnable d n := Counters (total_nr n) (user_nr n) (u_runnable n) (u16 (k_runnable n + d)).

(** [sched_db_s]: the table of ports is a function of the index and of the port. *)
Record sched_db := SchedDb { bitmap : bitmap_t; next : Z; ports : Z -> Z -> Z }.

Definition set_port (i p v : Z) (db : sched_db) : sched_db :=
  SchedDb (bitmap db) (next db) (<[i := <[p := v]> (ports db i)]> (ports db)).

Record cpu := Cpu {
  threads : Z -> thread; rq : rQueues; nrs : counters; db : sched_db;
  current_thread : Z; thread_idle : Z; cpu_active : bool; le_events : list Z;
}.

Definition upd_thread t (f : thread -> thread) c := Cpu (<[t := f (threads c t)]> (threads c)) (rq c) (nrs c) (db c) (current_thread c) (thread_idle c) (cpu_active c) (le_events c).
Definition upd_rq (f : rQueues -> rQueues) c := Cpu (threads c) (f (rq c)) (nrs c) (db c) (current_thread c) (thread_idle c) (cpu_active c) (le_events c).
Definition upd_nrs (f : counters -> counters) c := Cpu (threads c) (rq c) (f (nrs c)) (db c) (current_thread c) (thread_idle c) (cpu_active c) (le_events c).
Definition upd_db (f : sched_db -> sched_db) c := Cpu (threads c) (rq c) (nrs c) (f (db c)) (current_thread c) (thread_idle c) (cpu_active c) (le_events c).
Definition set_current t c := Cpu (threads c) (rq c) (nrs c) (db c) t (thread_idle c) (cpu_active c) (le_events c).
Definition set_active b c := Cpu (threads c) (rq c) (nrs c) (db c) (current_thread c) (thread_idle c) b (le_events c).
Definition send_event t c := Cpu (threads c) (rq c) (nrs c) (db c) (current_thread c) (thread_idle c) (cpu_active c) (le_events c ++ [t]).

(** ** The round-robin policy *)

(** The loop of [rr_sched_load_balance]: the thread with the greatest boosted priority *)
Fixpoint balance_scan (th : Z -> thread) (victim max : Z) (l : list Z) : (Z -> thread) * Z * Z :=
  match l with
  | [] => (th, victim, max)
  | t :: l =>
      if thread_isExported (th t) || negb (thread_migration_isEnabled (th t)) then balance_scan th victim max l
      else
        let '(victim, max) := if max <? boosted_prio (th t) then (t, boosted_prio (th t)) else (victim, max) in
        let th' := thread_migration_deactivate (set_boosted (Z.shiftr (boosted_prio (th t)) 1) (th t)) in
        balance_scan (<[t := th']> th) victim max l
  end.

Definition rr_sched_load_balance (this : Z) (c : cpu) : cpu :=
  let th := threads c this in
  let max := if negb (thread_isExported th) && thread_migration_isEnabled th then boosted_prio th else -1 in
  let c := upd_thread this (fun th => thread_migration_deactivate (set_boosted (Z.shiftr (boosted_prio th) 1) th)) c in
  let '(th, victim, max) := balance_scan (threads c) this max (runnable (rq c)) in
  let c := Cpu th (rq c) (nrs c) (db c) (current_thread c) (thread_idle c) (cpu_active c) (le_events c) in
  if (0 <=? max) && (bool_decide (type (threads c this) = PTHREAD) || (0 <? ru_runnable (rq c))) then
    let c := upd_thread victim thread_migration_activate c in
    if negb (victim =? this) then
      upd_rq (fun q => set_migrate (u32 (rm_runnable q + 1)) (migrate q ++ [victim])
                         (set_runnable (u32 (ru_runnable q - 1)) (filter (fun t => t <> victim) (runnable q)) q)) c
    else c
  else c.

(** The load of the processor and of the nodes of the tree above its cluster *)
Record load := Load { usage : Z; U_parent : Z; U_grandparent : Z; U_root : Z }.

(** The part that the two clocks share *)
Definition rr_clock (this : Z) (c : cpu) : cpu :=
  let c := if 0 <? quantum (threads c this) then upd_thread this (fun th => set_quantum (quantum th - 1) th) c else c in
  if (quantum (threads c this) =? 0) && negb (bool_decide (type (threads c this) = TH_IDLE)) then
    upd_thread this thread_sched_activate c
  else c.

Definition rr_clock_balancing (ld : load) (this : Z) (c : cpu) : cpu :=
  let c := rr_clock this c in
  let cond1 := (150 <=? usage ld) && (0 <? ru_runnable (rq c)) && (1 <? user_nr (nrs c)) in
  let cond2 := (U_parent ld <=? 90) || (U_grandparent ld <=? 95) in
  let cond3 := cond1 && cond2 in
  let c := upd_rq (fun q => set_clock (u32 (clock_cntr q + (if cond3 then Z.shiftr (period q) 1 else 1))) q) c in
  let c :=
    if period (rq c) <=? clock_cntr (rq c) then
      let c := upd_rq (set_clock 0) c in
      if cond1 && (U_root ld <? 100) then rr_sched_load_balance this c else c
    else c in
  if (0 <? rm_runnable (rq c)) && negb (thread_isExported (threads c this)) then
    upd_thread this (fun th => set_quantum 0 (thread_sched_activate th)) c
  else c.

Definition rr_remove (c : cpu) : cpu := upd_nrs (add_user (-1)) (upd_nrs (add_total (-1)) c).

Definition rr_exit (this : Z) (c : cpu) : cpu :=
  let c := upd_nrs (add_total (-1)) c in
  let c := if bool_decide (type (threads c this) = PTHREAD) then upd_nrs (add_user (-1)) c else c in
  upd_thread this (set_state S_DEAD) c.

Definition rr_sleep (this : Z) (c : cpu) : cpu := upd_thread this (set_state S_WAIT) c.

(** [count ++], and the thread at the end of the queue of its type *)
Definition enqueue (t : Z) (c : cpu) : cpu :=
  let c := upd_rq (fun q => set_count (u32 (count q + 1)) q) c in
  if bool_decide (type (threads c t) = KTHREAD) then
    upd_rq (fun q => set_kthreads (kthreads q ++ [t]) q) (upd_nrs (add_k_runnable 1) c)
  else
    upd_rq (fun q => set_runnable (u32 (ru_runnable q + 1)) (runnable q ++ [t]) q) (upd_nrs (add_u_runnable 1) c).

Definition rr_wakeup (t : Z) (c : cpu) : cpu :=
  if bool_decide (state (threads c t) = S_READY) then c
  else
    let c := enqueue t (upd_thread t (set_state S_READY) c) in
    if bool_decide (type (threads c t) = KTHREAD) then
      upd_thread (current_thread c) (fun th => thread_set_forced_yield (thread_sched_activate th)) c
    else c.

Definition rr_add_created (t : Z) (c : cpu) : cpu :=
  let c := enqueue t (upd_nrs (add_total 1) c) in
  if bool_decide (type (threads c t) = KTHREAD) then c
  else
    upd_thread t (fun th => if thread_isImported th then thread_clear_imported (set_boosted (3 * RR_QUANTUM) th)
                            else set_boosted RR_QUANTUM th)
      (upd_nrs (add_user 1) c).

(** [rr_elect_balancing] up to the test of [count]: the current thread, if it still runs, goes back to its queue. *)
Definition requeue (this : Z) (c : cpu) : cpu :=
  let c := upd_thread this thread_sched_deactivate c in
  if bool_decide (type (threads c this) <> TH_IDLE) && bool_decide (state (threads c this) = S_KERNEL) then
    let c := upd_thread this (fun th => set_boosted (s32 (boosted_prio th + quantum th)) (set_state S_READY th)) c in
    let c := upd_rq (fun q => set_count (u32 (count q + 1)) q) c in
    if bool_decide (type (threads c this) = PTHREAD) then
      let c :=
        if thread_isForcedYield (threads c this) then
          upd_thread this (fun th => set_boosted (s32 (boosted_prio th - quantum th)) th)
            (upd_rq (fun q => set_runnable (ru_runnable q) (this :: runnable q) q) c)
        else
          upd_thread this (fun th => set_quantum RR_QUANTUM (thread_migration_deactivate th))
            (upd_rq (fun q => set_runnable (ru_runnable q) (runnable q ++ [this]) q) c) in
      upd_rq (fun q => set_runnable (u32 (ru_runnable q + 1)) (runnable q) q) (upd_nrs (add_u_runnable 1) c)
    else
      upd_thread this (set_quantum RR_QUANTUM)
        (upd_nrs (add_k_runnable 1) (upd_rq (fun q => set_kthreads (kthreads q ++ [this]) q) c))
  else c.

(** The thread to run, taken off its queue *)
Definition take_first (c : cpu) : option (Z * cpu) :=
  match kthreads (rq c), migrate (rq c), runnable (rq c) with
  | t :: l, _, _ => Some (t, upd_rq (set_kthreads l) (upd_nrs (add_k_runnable (-1)) c))
  | [], t :: l, _ =>
      Some (t, upd_rq (fun q => set_migrate (u32 (rm_runnable q - 1)) l q) (upd_nrs (add_u_runnable (-1)) c))
  | [], [], t :: l =>
      Some (t, upd_rq (fun q => set_runnable (u32 (ru_runnable q - 1)) l q) (upd_nrs (add_u_runnable (-1)) c))
  | [], [], [] => None
  end.

Definition rr_elect_balancing (c : cpu) : option (option Z * cpu) :=
  let c := requeue (current_thread c) c in
  if 0 <? count (rq c) then
    '(elected, c) ← take_first c;
    let c := upd_rq (fun q => set_count (u32 (count q - 1)) q) c in
    Some (Some elected, upd_thread elected (fun th => thread_clear_forced_yield (thread_sched_deactivate th)) c)
  else Some (None, c).

(** The election that is used when the load is not balanced *)
Definition rr_elect (c : cpu) : option (option Z * cpu) :=
  let this := current_thread c in
  let c := upd_thread this thread_sched_deactivate c in
  let c :=
    if bool_decide (state (threads c this) = S_KERNEL) && bool_decide (type (threads c this) <> TH_IDLE) then
      let c := upd_thread this (set_state S_READY) c in
      let c :=
        if bool_decide (type (threads c this) = PTHREAD) then
          upd_nrs (add_u_runnable 1) (upd_rq (fun q => set_runnable (ru_runnable q) (runnable q ++ [this]) q) c)
        else upd_nrs (add_k_runnable 1) (upd_rq (fun q => set_kthreads (this :: kthreads q) q) c) in
      upd_rq (fun q => set_count (u32 (count q + 1)) q) c
    else c in
  if 0 <? count (rq c) then
    '(elected, c) ←
      match kthreads (rq c), runnable (rq c) with
      | t :: l, _ => Some (t, upd_rq (set_kthreads l) (upd_nrs (add_k_runnable (-1)) c))
      | [], t :: l =>
          Some (t, upd_rq (fun q => set_runnable (u32 (ru_runnable q - 1)) l q) (upd_nrs (add_u_runnable (-1)) c))
      | [], [] => None
      end;
    let c := upd_rq (fun q => set_count (u32 (count q - 1)) q) c in
    Some (Some elected, upd_thread elected (fun th => thread_sched_deactivate (set_quantum RR_QUANTUM th)) c)
  else Some (None, c).

(** Empty queues; [rQueues] comes zeroed. *)
Definition rr_sched_init : rQueues := RQueues 0 0 (CONFIG_CPU_BALANCING_PERIOD * RR_QUANTUM) 0 0 [] [] [].

(** ** The scheduler *)

Definition SCHED_OP_WAKEUP : Z := 0x100.
Definition SCHED_OP_UWAKEUP : Z := 0x101.
Definition SCHED_OP_ADD_CREATED : Z := 0x200.
Definition SCHED_OP_MASK : Z := 0xFFF.
Definition SCHED_PORT (op : Z) : Z := Z.land op 0xFF.
Definition sched_event_make (t op : Z) : Z := Z.lor t op.

(** Size of the bitmap in bytes, [sizeof(db->bitmap)] *)
Definition BITMAP_BYTES : Z := Z.shiftr SCHED_THREADS_NR 3.

(** [db] comes zeroed; [alloc] is the success of its allocation. *)
Definition sched_init (alloc : bool) (th : Z -> thread) (idle : Z) : option (Z + cpu) :=
  if negb alloc then Some (inl ENOMEM)
  else
    bm ← bitmap_set_range (repeat 0 (Z.to_nat (BITMAP_BYTES / 4))) 0 SCHED_THREADS_NR;
    Some (inr (Cpu th rr_sched_init (Counters 0 0 0 0) (SchedDb bm 0 (fun _ _ => 0)) idle idle true [])).

Definition sched_register (t : Z) (c : cpu) : option (Z * cpu) :=
  let c := if SCHED_THREADS_NR <=? next (db c) then upd_db (fun d => SchedDb (bitmap d) 0 (ports d)) c else c in
  index ← bitmap_ffs2 (bitmap (db c)) (next (db c)) BITMAP_BYTES;
  if index =? -1 then Some (ERANGE, c)
  else
    bm ← bitmap_clear (bitmap (db c)) index;
    Some (0, upd_thread t (set_ltid index) (upd_db (fun d => SchedDb bm (index + 1) (ports d)) c)).

Definition sched_unregister (t : Z) (c : cpu) : option cpu :=
  let ltid := ltid (threads c t) in
  let c := upd_db (fun d => SchedDb (bitmap d) (next d) (<[ltid := fun _ => 0]> (ports d))) c in
  bm ← bitmap_set (bitmap (db c)) ltid;
  Some (upd_db (fun d => SchedDb bm (if ltid <? next d then ltid else next d) (ports d)) c).

(** One turn of the loop of [sched_event_notify] *)
Definition notify_thread (c : cpu) (i : Z) : cpu :=
  let event := ports (db c) i (SCHED_PORT SCHED_OP_WAKEUP) in
  if negb (Z.land event SCHED_OP_WAKEUP =? 0) then
    let t := Z.land event (~! SCHED_OP_MASK) in
    rr_wakeup t (upd_db (set_port i (SCHED_PORT SCHED_OP_WAKEUP) 0) c)
  else
  let event := ports (db c) i (SCHED_PORT SCHED_OP_ADD_CREATED) in
  if negb (Z.land event SCHED_OP_ADD_CREATED =? 0) then
    let t := Z.land event (~! SCHED_OP_MASK) in
    rr_add_created t (upd_db (set_port i (SCHED_PORT SCHED_OP_ADD_CREATED) 0) (upd_thread t (set_state S_CREATE) c))
  else
  let event := ports (db c) i (SCHED_PORT SCHED_OP_UWAKEUP) in
  let t := Z.land event (~! SCHED_OP_MASK) in
  if negb (Z.land event SCHED_OP_UWAKEUP =? 0) && thread_isWakeable (threads c t) then
    rr_wakeup t (upd_db (set_port i (SCHED_PORT SCHED_OP_UWAKEUP) 0) (upd_thread t thread_clear_wakeable c))
  else c.

Definition sched_event_notify (c : cpu) : cpu := fold_left notify_thread (seqZ 0 SCHED_THREADS_NR) c.

Definition sched_setpolicy (t policy : Z) (c : cpu) : Z * cpu :=
  if policy =? SCHED_RR then (0, upd_thread t (set_policy (Some SCHED_RR)) c) else (-1, c).

Definition sched_getpolicy (t : Z) (c : cpu) : Z :=
  if bool_decide (local_sched (threads c t) = Some SCHED_RR) then SCHED_RR else SCHED_RR.

Definition sched_setprio (t prio : Z) (c : cpu) : cpu := upd_thread t (set_prio prio) c.

Definition sched_clock (ld : load) (this : Z) (c : cpu) : cpu :=
  let c := upd_thread this (fun th => set_ticks (u32 (ticks_nr th + 1)) th) c in
  let c :=
    if bool_decide (type (threads c this) = KTHREAD) then
      upd_thread (thread_idle c) (fun th => set_ticks (u32 (ticks_nr th + 1)) th) c
    else c in
  rr_clock_balancing ld this (sched_event_notify c).

Definition sched_idle (c : cpu) : cpu := sched_event_notify c.

(** The end of [schedule], to the switch of contexts: the idle thread runs if no other was elected. *)
Definition dispatch (this : Z) (elected : option Z) (c : cpu) : cpu :=
  let '(elected, c) :=
    match elected with
    | None => (thread_idle c, set_active false c)
    | Some e => (e, set_active true c)
    end in
  let c := if bool_decide (state (threads c this) = S_DEAD) then send_event this c else c in
  if negb (elected =? this) then
    let c :=
      if bool_decide (state (threads c elected) = S_CREATE) then
        upd_thread elected (fun th => set_state (if bool_decide (type th = PTHREAD) then S_USR else S_KERNEL) th) c
      else upd_thread elected (fun th => set_state S_KERNEL (set_sched_nr (u32 (sched_nr th + 1)) th)) c in
    set_current elected c
  else upd_thread this (set_state S_KERNEL) c.

Definition schedule (this : Z) (c : cpu) : option cpu :=
  '(elected, c) ← rr_elect_balancing (sched_event_notify c);
  Some (dispatch this elected c).

Definition sched_yield (this : Z) (c : cpu) : option cpu := schedule this c.

Definition sched_exit (this : Z) (c : cpu) : option cpu :=
  c ← sched_unregister this c;
  schedule this (upd_thread this (set_state S_DEAD) (rr_exit this c)).

Definition sched_get_listner (t op : Z) (c : cpu) : Z * Z := (ltid (threads c t), SCHED_PORT op).

(** [*listner = event] *)
Definition sched_event_send (listner : Z * Z) (event : Z) (c : cpu) : cpu :=
  upd_db (set_port (fst listner) (snd listner) event) c.

Definition sched_add_created (t : Z) (c : cpu) : cpu :=
  let c := upd_thread t (set_state S_CREATE) c in
  sched_event_send (sched_get_listner t SCHED_OP_ADD_CREATED c) (sched_event_make t SCHED_OP_ADD_CREATED) c.

Definition sched_add (t : Z) (c : cpu) : cpu := rr_add_created t (upd_thread t (set_state S_READY) c).

Definition sched_remove (this : Z) (c : cpu) : option cpu :=
  c ← sched_unregister this c;
  schedule this (upd_thread this (fun th => set_state S_DEAD (set_type KTHREAD th)) (rr_remove c)).

(** To the switch of contexts; the end is [sched_sleep_end]. *)
Definition sched_sleep (this : Z) (c : cpu) : option cpu :=
  let c := if thread_isCapWakeup (threads c this) then upd_thread this thread_set_wakeable c else c in
  schedule this (rr_sleep this c).
Definition sched_sleep_end (this : Z) (c : cpu) : cpu := upd_thread this thread_clear_wakeable c.

Definition sched_wakeup (t : Z) (c : cpu) : cpu :=
  sched_event_send (sched_get_listner t SCHED_OP_WAKEUP c) (sched_event_make t SCHED_OP_WAKEUP) c.

(** [sys_thread_wakeup]: the event of one target *)
Definition thread_uwakeup (t : Z) (c : cpu) : cpu :=
  sched_event_send (sched_get_listner t SCHED_OP_UWAKEUP c) (sched_event_make t SCHED_OP_UWAKEUP) c.

Definition sched_runnable_count (c : cpu) : Z := u_runnable (nrs c) + k_runnable (nrs c).
Definition sched_alive_count (c : cpu) : Z := total_nr (nrs c).
