(* ===== verification/SchedInv.v ===== *)
(** * SchedInv: the invariant of the scheduler

    Each live thread of a processor is in one place: it runs, it is in one queue, it sleeps and its waker
    has not come, or an event for it is in its port.  The operations of [Sched] keep this, and the
    counters are exact. *)

From S2P Require Import Prelude Bits Sched.

(** ** Flags *)

Lemma has_set_other m k th : Z.land m k = 0 -> has_flag k (set_flag m th) = has_flag k th.
Proof. intros H. unfold has_flag, set_flag; cbn. rewrite Z.land_lor_distr_l, H, Z.lor_0_r. done. Qed.

Lemma has_set_same m th : m <> 0 -> has_flag m (set_flag m th) = true.
Proof.
  intros H. unfold has_flag, set_flag; cbn.
  replace (Z.land (Z.lor (flags th) m) m) with m.
  - destruct (Z.eqb_spec m 0); done.
  - apply Z.bits_inj'. intros i Hi. rewrite Z.land_spec, Z.lor_spec. destruct (Z.testbit (flags th) i), (Z.testbit m i); done.
Qed.

Lemma has_clear_other m k th : Z.land (~! m) k = k -> has_flag k (clear_flag m th) = has_flag k th.
Proof. intros H. unfold has_flag, clear_flag; cbn. rewrite <- Z.land_assoc, H. done. Qed.

Lemma has_clear_same m k th : Z.land (~! m) k = 0 -> has_flag k (clear_flag m th) = false.
Proof. intros H. unfold has_flag, clear_flag; cbn. rewrite <- Z.land_assoc, H, Z.land_0_r. done. Qed.

(** What the invariant looks at in a descriptor *)
Definition core (th : thread) := (state th, type th, ltid th, thread_isWakeable th, thread_isCapWakeup th).

Lemma core_set m th : Z.land m TH_CAN_WAKEUP = 0 -> Z.land m TH_CAP_WAKEUP = 0 -> core (set_flag m th) = core th.
Proof.
  intros H1 H2. unfold core, thread_isWakeable, thread_isCapWakeup. rewrite !has_set_other by done. done.
Qed.

Lemma core_clear m th : Z.land (~! m) TH_CAN_WAKEUP = TH_CAN_WAKEUP -> Z.land (~! m) TH_CAP_WAKEUP = TH_CAP_WAKEUP ->
  core (clear_flag m th) = core th.
Proof.
  intros H1 H2. unfold core, thread_isWakeable, thread_isCapWakeup. rewrite !has_clear_other by done. done.
Qed.

(** ** Events *)

(** Descriptors are aligned on the low bits that the operation of an event takes. *)
Definition aligned (t : Z) : Prop := is_u32 t /\ t mod 4096 = 0.

Lemma aligned_low t m : aligned t -> 0 <= m < 4096 -> Z.land t m = 0.
Proof.
  intros [_ Ht] Hm. apply Z.bits_inj'. intros i Hi. rewrite Z.land_spec, Z.bits_0.
  destruct (Z.lt_ge_cases i 12) as [Hlt|Hge].
  - replace (Z.testbit t i) with false; [done|]. symmetry.
    rewrite <- (Z.mod_pow2_bits_low t 12) by lia. change (2 ^ 12) with 4096. rewrite Ht. apply Z.bits_0.
  - rewrite <- (Z.mod_small m (2 ^ 12)) by (change (2 ^ 12) with 4096; lia).
    rewrite (Z.mod_pow2_bits_high m 12) by lia. apply andb_false_r.
Qed.

Lemma event_op t op m : aligned t -> 0 <= m < 4096 -> Z.land (sched_event_make t op) m = Z.land op m.
Proof.
  intros Ht Hm. unfold sched_event_make. rewrite Z.land_lor_distr_l, aligned_low by done. apply Z.lor_0_l.
Qed.

Lemma event_thread t op : aligned t -> Z.land op (~! SCHED_OP_MASK) = 0 ->
  Z.land (sched_event_make t op) (~! SCHED_OP_MASK) = t.
Proof.
  intros Ht Hop. unfold sched_event_make. rewrite Z.land_lor_distr_l, Hop, Z.lor_0_r.
  apply Z.bits_inj'. intros i Hi. rewrite Z.land_spec.
  destruct (Z.lt_ge_cases i 32) as [Hlt|Hge].
  - rewrite testbit_u32, Z.lnot_spec by lia. change SCHED_OP_MASK with (Z.ones 12).
    destruct (Z.lt_ge_cases i 12) as [Hi12|Hi12].
    + rewrite Z.ones_spec_low by lia.
      rewrite <- (Z.mod_pow2_bits_low t 12) by lia. change (2 ^ 12) with 4096. rewrite (proj2 Ht), Z.bits_0. done.
    + rewrite Z.ones_spec_high by lia. apply andb_true_r.
  - rewrite (testbit_is_u32_high t) by (done || apply Ht). done.
Qed.

(** The event in the port 0 of a thread *)
Inductive pending := NoEvent | Wakeup | AddCreated.
Definition event_of (t : Z) (k : pending) : Z :=
  match k with
  | NoEvent => 0
  | Wakeup => sched_event_make t SCHED_OP_WAKEUP
  | AddCreated => sched_event_make t SCHED_OP_ADD_CREATED
  end.

Lemma event_of_inj t k k' : aligned t -> event_of t k = event_of t k' -> k = k'.
Proof.
  intros Ht E. apply (f_equal (fun e => (Z.land e SCHED_OP_WAKEUP, Z.land e SCHED_OP_ADD_CREATED))) in E.
  destruct k, k'; try done; exfalso; cbn [event_of] in E; rewrite ?event_op in E by (done || (vm_compute; split; congruence)); done.
Qed.

(** ** Places *)

(** The place of a thread: [role] is [Some com] for the thread that runs, where [com] says that it has given
    its address to a waker and is about to sleep; [awaited]: its waker has not come. *)
Inductive placed : option bool -> bool -> bool -> bool -> thread_state -> pending -> Prop :=
| p_usr : placed (Some false) false false false S_USR NoEvent
| p_run com : placed (Some com) com false false S_KERNEL NoEvent
| p_woken : placed (Some true) false false false S_KERNEL Wakeup
| p_early : placed (Some true) false true false S_READY NoEvent
| p_ready : placed None false true false S_READY NoEvent
| p_early_slept : placed None false true false S_WAIT NoEvent
| p_fresh : placed None false true false S_CREATE NoEvent
| p_asleep : placed None true false false S_WAIT NoEvent
| p_posted : placed None false false false S_WAIT Wakeup
| p_uasleep : placed None false false true S_WAIT NoEvent
| p_created : placed None false false false S_CREATE AddCreated.
#[export] Hint Constructors placed : kernel.

(** The cases of a place *)
Ltac place_inv H :=
  inversion H; clear H;
  repeat match goal with
  | E : true = bool_decide _ |- _ => symmetry in E; apply bool_decide_eq_true in E
  | E : false = bool_decide _ |- _ => symmetry in E; apply bool_decide_eq_false in E
  | E : bool_decide _ = true |- _ => apply bool_decide_eq_true in E
  | E : bool_decide _ = false |- _ => apply bool_decide_eq_false in E
  end.

Definition qs (q : rQueues) : list Z := kthreads q ++ runnable q ++ migrate q.

Definition port0 (d : sched_db) (i : Z) : Z := ports d i (SCHED_PORT SCHED_OP_WAKEUP).
Definition port1 (d : sched_db) (i : Z) : Z := ports d i (SCHED_PORT SCHED_OP_UWAKEUP).

Definition role (cur : option Z) (com : bool) (t : Z) : option bool := if decide (cur = Some t) then Some com else None.

Definition in_place (th : Z -> thread) (q : rQueues) (d : sched_db) (cur : option Z) (com : bool) (aw : list Z) (t : Z) : Prop :=
  (exists k, port0 d (ltid (th t)) = event_of t k /\
    placed (role cur com t) (bool_decide (t ∈ aw)) (bool_decide (t ∈ qs q)) (thread_isWakeable (th t)) (state (th t)) k) /\
  (port1 d (ltid (th t)) = 0 \/ port1 d (ltid (th t)) = sched_event_make t SCHED_OP_UWAKEUP) /\
  thread_isCapWakeup (th t) = false.

Definition ids (th : Z -> thread) (live : list Z) : list Z := (fun t => ltid (th t)) <$> live.

(** The identifiers of the threads and the bitmap of the free ones *)
Record db_ok (th : Z -> thread) (d : sched_db) (live : list Z) : Prop := {
  db_nodup : NoDup (ids th live);
  db_range : forall t, t ∈ live -> 0 <= ltid (th t) < SCHED_THREADS_NR;
  db_wf : bitmap_wf (bitmap d) /\ zlen (bitmap d) = 1;
  db_bits : forall i, 0 <= i < SCHED_THREADS_NR -> bit (bitmap d) i = false <-> i ∈ ids th live;
  db_next : 0 <= next d <= SCHED_THREADS_NR;
  db_below : forall i, 0 <= i < next d -> bit (bitmap d) i = false;
  db_ports : forall i, ~ i ∈ ids th live -> port0 d i = 0 /\ port1 d i = 0;
}.

Record q_ok (th : Z -> thread) (q : rQueues) (n : counters) (live : list Z) : Prop := {
  q_nodup : NoDup (qs q);
  q_live : forall t, t ∈ qs q -> t ∈ live;
  q_kthreads : forall t, t ∈ kthreads q -> type (th t) = KTHREAD;
  q_pthreads : forall t, t ∈ runnable q ++ migrate q -> type (th t) = PTHREAD;
  q_count : count q = zlen (qs q);
  q_ru : ru_runnable q = zlen (runnable q);
  q_rm : rm_runnable q = zlen (migrate q);
  q_u : u_runnable n = zlen (runnable q ++ migrate q);
  q_k : k_runnable n = zlen (kthreads q);
}.

(** The threads that the scheduler has been told of *)
Definition added (th : Z -> thread) (d : sched_db) (t : Z) : Prop := port0 d (ltid (th t)) <> event_of t AddCreated.
#[export] Instance added_dec th d t : Decision (added th d t).
Proof. unfold added. apply _. Defined.

Record totals_ok (th : Z -> thread) (d : sched_db) (n : counters) (live : list Z) : Prop := {
  tot_total : total_nr n = zlen (filter (added th d) live);
  tot_user : user_nr n = zlen (filter (fun t => type (th t) = PTHREAD /\ added th d t) live);
}.

Record inv (c : cpu) (live : list Z) (cur : option Z) (com : bool) (aw : list Z) : Prop := {
  inv_addr : forall t, t ∈ live -> aligned t;
  inv_type : forall t, t ∈ live -> type (threads c t) = PTHREAD \/ type (threads c t) = KTHREAD;
  inv_idle : thread_idle c ∉ live /\ type (threads c (thread_idle c)) = TH_IDLE;
  inv_db : db_ok (threads c) (db c) live;
  inv_q : q_ok (threads c) (rq c) (nrs c) live;
  inv_totals : totals_ok (threads c) (db c) (nrs c) live;
  inv_cur : forall t, cur = Some t -> t ∈ live;
  inv_aw : forall t, t ∈ aw -> t ∈ live;
  inv_place : forall t, t ∈ live -> in_place (threads c) (rq c) (db c) cur com aw t;
}.

(** ** Frames *)

Lemma core_fields th th' : core th' = core th -> state th' = state th /\ type th' = type th /\ ltid th' = ltid th /\
  thread_isWakeable th' = thread_isWakeable th /\ thread_isCapWakeup th' = thread_isCapWakeup th.
Proof. unfold core. intros H. simplify_eq. done. Qed.

Lemma core_state st th th' : core th' = core th -> core (set_state st th') = core (set_state st th).
Proof.
  intros (_ & Hty & Hlt & Hwk & Hcap)%core_fields. unfold core, thread_isWakeable, thread_isCapWakeup, has_flag in *. cbn.
  rewrite Hty, Hlt, Hwk, Hcap. done.
Qed.

Lemma q_ok_types th th' q n live : (forall t, t ∈ live -> type (th' t) = type (th t)) -> q_ok th q n live -> q_ok th' q n live.
Proof.
  intros Hty []. assert (Hq : forall t, t ∈ qs q -> type (th' t) = type (th t)) by auto.
  unfold qs in *. split; try done; intros t Ht; rewrite Hq; auto; rewrite !elem_of_app in *; tauto.
Qed.

Lemma db_ok_ltid th th' d live : (forall t, t ∈ live -> ltid (th' t) = ltid (th t)) -> db_ok th d live -> db_ok th' d live.
Proof.
  intros Hlt []. assert (Hids : ids th' live = ids th live).
  { apply list_fmap_ext. intros i t Ht. apply Hlt. eapply list_elem_of_lookup_2; done. }
  split; rewrite ?Hids; try done. intros t Ht. rewrite Hlt; auto.
Qed.

Section Frames.
Context (th th' : Z -> thread) (live : list Z) (Hcore : forall t, t ∈ live -> core (th' t) = core (th t)).

Lemma db_ok_ext d : db_ok th d live -> db_ok th' d live.
Proof. apply db_ok_ltid. intros. apply core_fields. auto. Qed.

Lemma q_ok_ext q n : q_ok th q n live -> q_ok th' q n live.
Proof. apply q_ok_types. intros. apply core_fields. auto. Qed.

Lemma added_ext d t : t ∈ live -> added th' d t <-> added th d t.
Proof. intros Ht. unfold added. destruct (core_fields _ _ (Hcore t Ht)) as (_ & _ & -> & _). done. Qed.

Lemma totals_ok_ext d n : totals_ok th d n live -> totals_ok th' d n live.
Proof.
  intros [H1 H2]. split; [rewrite H1|rewrite H2]; f_equal; apply filter_same; intros t Ht.
  - symmetry. apply added_ext. done.
  - rewrite (added_ext d t Ht). destruct (core_fields _ _ (Hcore t Ht)) as (_ & -> & _). done.
Qed.

Lemma in_place_ext q d cur com aw t : t ∈ live -> in_place th q d cur com aw t -> in_place th' q d cur com aw t.
Proof. intros Ht. unfold in_place. destruct (core_fields _ _ (Hcore t Ht)) as (-> & _ & -> & -> & ->). done. Qed.
End Frames.

Lemma live_bound th d live : db_ok th d live -> zlen live <= SCHED_THREADS_NR.
Proof.
  intros D. assert (Hsub : ids th live ⊆+ seqZ 0 SCHED_THREADS_NR).
  { apply NoDup_submseteq; [apply D|]. intros i (t & -> & Ht)%list_elem_of_fmap. apply elem_of_seqZ. apply (db_range _ _ _ D t Ht). }
  apply submseteq_length in Hsub. rewrite length_seqZ in Hsub. unfold ids in Hsub. rewrite length_fmap in Hsub.
  unfold zlen, SCHED_THREADS_NR in *. lia.
Qed.

Lemma live_inj th d live t u : db_ok th d live -> t ∈ live -> u ∈ live -> ltid (th t) = ltid (th u) -> t = u.
Proof.
  intros D Ht Hu E. apply list_elem_of_lookup in Ht as [i Hi], Hu as [j Hj].
  pose proof (db_nodup _ _ _ D) as Hnd. rewrite NoDup_alt in Hnd.
  assert (i = j) by (apply (Hnd i j (ltid (th t))); unfold ids; rewrite list_lookup_fmap; [rewrite Hi|rewrite Hj]; cbn; congruence).
  congruence.
Qed.

Lemma live_nodup th d live : db_ok th d live -> NoDup live.
Proof. intros D. apply (NoDup_fmap_1 (fun t => ltid (th t))), D. Qed.

Lemma queue_bound th d q n live : db_ok th d live -> q_ok th q n live -> zlen (qs q) <= SCHED_THREADS_NR.
Proof.
  intros D Q. pose proof (live_bound _ _ _ D). assert (Hsub : qs q ⊆+ live) by (apply NoDup_submseteq; apply Q).
  apply submseteq_length in Hsub. unfold zlen in *. lia.
Qed.

(** The parts of the queues that the invariant looks at *)
Definition core_rq (q : rQueues) := (count q, ru_runnable q, rm_runnable q, kthreads q, runnable q, migrate q).

Lemma core_rq_qs q q' : core_rq q' = core_rq q -> qs q' = qs q.
Proof. destruct q, q'. unfold core_rq, qs. cbn. intros H. simplify_eq. done. Qed.

Lemma core_rq_ok th q q' n live : core_rq q' = core_rq q -> q_ok th q n live -> q_ok th q' n live.
Proof. destruct q, q'. unfold core_rq. cbn. intros H []. unfold qs in *. cbn in *. simplify_eq. split; done. Qed.

Lemma inv_frame_live c c' live cur com aw : inv c live cur com aw ->
  (forall t, t ∈ live -> core (threads c' t) = core (threads c t)) ->
  type (threads c' (thread_idle c)) = type (threads c (thread_idle c)) ->
  core_rq (rq c') = core_rq (rq c) -> nrs c' = nrs c -> db c' = db c -> thread_idle c' = thread_idle c ->
  inv c' live cur com aw.
Proof.
  intros I Hlive Hti Hq Hn Hd Hi.
  split; rewrite ?Hn, ?Hd, ?Hi; try apply I.
  - intros t Ht. destruct (core_fields _ _ (Hlive t Ht)) as (_ & -> & _). apply I. done.
  - rewrite Hti. apply I.
  - eapply db_ok_ext; [done|apply I].
  - apply (q_ok_ext (threads c)); [done|]. apply (core_rq_ok _ (rq c)); [done|apply I].
  - eapply totals_ok_ext; [done|apply I].
  - intros t Ht. apply (in_place_ext (threads c) _ live); [done..|]. pose proof (inv_place _ _ _ _ _ I t Ht) as Hp.
    unfold in_place in *. rewrite (core_rq_qs _ _ Hq). done.
Qed.

Lemma inv_frame c c' live cur com aw : inv c live cur com aw ->
  (forall t, t ∈ live \/ t = thread_idle c -> core (threads c' t) = core (threads c t)) ->
  core_rq (rq c') = core_rq (rq c) -> nrs c' = nrs c -> db c' = db c -> thread_idle c' = thread_idle c ->
  inv c' live cur com aw.
Proof. intros I Hcore. apply inv_frame_live; auto. apply core_fields. auto. Qed.

Lemma inv_upd c t f live cur com aw : (forall th, core (f th) = core th) -> inv c live cur com aw -> inv (upd_thread t f c) live cur com aw.
Proof.
  intros Hf I. apply (inv_frame c); try done. intros u _. cbn.
  destruct (decide (u = t)) as [->|]; [rewrite fn_lookup_insert|rewrite fn_lookup_insert_ne by done]; done.
Qed.

(** Changes of descriptors and of counters that the invariant does not see *)
Ltac core_tac :=
  intros; unfold thread_sched_activate, thread_sched_deactivate, thread_migration_activate, thread_migration_deactivate,
    thread_set_forced_yield, thread_clear_forced_yield, thread_clear_imported;
  repeat match goal with
  | |- context [core (set_quantum ?v ?x)] => change (core (set_quantum v x)) with (core x)
  | |- context [core (set_boosted ?v ?x)] => change (core (set_boosted v x)) with (core x)
  | |- context [core (set_flag ?m ?x)] => rewrite (core_set m x) by done
  | |- context [core (clear_flag ?m ?x)] => rewrite (core_clear m x) by done
  end; try done.

Lemma in_place_same th th' q q' d d' cur cur' com com' aw aw' u : core (th' u) = core (th u) ->
  port0 d' (ltid (th u)) = port0 d (ltid (th u)) -> port1 d' (ltid (th u)) = port1 d (ltid (th u)) ->
  (u ∈ aw' <-> u ∈ aw) -> (u ∈ qs q' <-> u ∈ qs q) -> role cur' com' u = role cur com u ->
  in_place th q d cur com aw u -> in_place th' q' d' cur' com' aw' u.
Proof.
  intros Hc H0 H1 Haw Hq Hr. unfold in_place. destruct (core_fields _ _ Hc) as (-> & _ & -> & -> & ->).
  rewrite H0, H1, Hr. rewrite (bool_decide_ext _ _ Haw), (bool_decide_ext _ _ Hq). done.
Qed.

(** ** A thread that arrives in the queues *)

Lemma u16_small z : 0 <= z < 2 ^ 16 -> u16 z = z.
Proof. intros. apply Z.mod_small. done. Qed.

(** One more thread in the queue of its type *)
Lemma q_ok_add th q n q' n' live t : q_ok th q n live -> zlen (qs q) <= SCHED_THREADS_NR -> t ∈ live -> t ∉ qs q ->
  (type (th t) = KTHREAD /\ kthreads q' ≡ₚ t :: kthreads q /\ runnable q' = runnable q /\ ru_runnable q' = ru_runnable q /\
     k_runnable n' = u16 (k_runnable n + 1) /\ u_runnable n' = u_runnable n \/
   type (th t) = PTHREAD /\ kthreads q' = kthreads q /\ runnable q' ≡ₚ t :: runnable q /\ ru_runnable q' = u32 (ru_runnable q + 1) /\
     k_runnable n' = k_runnable n /\ u_runnable n' = u16 (u_runnable n + 1)) ->
  migrate q' = migrate q -> rm_runnable q' = rm_runnable q -> count q' = u32 (count q + 1) ->
  q_ok th q' n' live /\ forall u, u ∈ qs q' <-> u = t \/ u ∈ qs q.
Proof.
  intros [Hnd Hl Hk Hp Hc Hru Hrm Hu Hkn] Hb Ht Hnin Hcase Em Erm Ec.
  assert (HP : qs q' ≡ₚ t :: qs q).
  { unfold qs. rewrite Em. destruct Hcase as [(_ & -> & -> & _)|(_ & -> & -> & _)]; cbn; [done|].
    symmetry. apply (Permutation_middle (kthreads q)). }
  pose proof (Permutation_length HP) as Hlen. cbn in Hlen. unfold SCHED_THREADS_NR, qs in *. rewrite !length_app in *.
  rewrite !zlen_app in *. unfold zlen in *.
  split; [|intros u; rewrite HP, elem_of_cons; done].
  rewrite Em in HP. split; unfold qs; unfold zlen; rewrite ?Em, ?Erm, ?HP; try done.
  - apply NoDup_cons. done.
  - intros u Hu'. rewrite HP in Hu'. apply elem_of_cons in Hu' as [->|Hu']; auto.
  - intros u. destruct Hcase as [(Ety & -> & _)|(_ & -> & _)]; [rewrite elem_of_cons; intros [->|?]|]; auto.
  - intros u. destruct Hcase as [(_ & _ & -> & _)|(Ety & _ & -> & _)]; [auto|]. rewrite elem_of_app, elem_of_cons. intros [[->|?]|?]; auto;
      apply Hp; rewrite elem_of_app; auto.
  - rewrite Ec, Hc, u32_small; unfold is_u32; cbn; rewrite ?length_app; lia.
  - destruct Hcase as [(_ & _ & -> & -> & _)|(_ & _ & -> & -> & _)]; [done|]. rewrite Hru, u32_small; unfold is_u32; cbn; lia.
  - destruct Hcase as [(_ & _ & -> & _ & _ & ->)|(_ & _ & -> & _ & _ & ->)]; [rewrite length_app; lia|]. rewrite Hu, u16_small; cbn; rewrite ?length_app; lia.
  - destruct Hcase as [(_ & -> & _ & _ & -> & _)|(_ & -> & _ & _ & -> & _)]; [|done]. rewrite Hkn, u16_small; cbn; lia.
Qed.

Lemma q_ok_enqueue c t live : q_ok (threads c) (rq c) (nrs c) live -> zlen (qs (rq c)) <= SCHED_THREADS_NR ->
  t ∈ live -> t ∉ qs (rq c) -> (type (threads c t) = PTHREAD \/ type (threads c t) = KTHREAD) ->
  q_ok (threads c) (rq (enqueue t c)) (nrs (enqueue t c)) live /\
  forall u, u ∈ qs (rq (enqueue t c)) <-> u = t \/ u ∈ qs (rq c).
Proof.
  intros Q Hb Ht Hnin Hty. apply (q_ok_add (threads c) (rq c) (nrs c)); try done; unfold enqueue; cbn [threads upd_rq].
  - destruct Hty as [Ep|Ek]; [right; rewrite bool_decide_false by congruence|left; rewrite bool_decide_true by done]; cbn;
      rewrite (Permutation_app_comm _ [t]); done.
  - destruct (bool_decide (type _ = KTHREAD)); done.
  - destruct (bool_decide (type _ = KTHREAD)); done.
  - destruct (bool_decide (type _ = KTHREAD)); done.
Qed.

Lemma enqueue_frame t c : threads (enqueue t c) = threads c /\ db (enqueue t c) = db c /\
  thread_idle (enqueue t c) = thread_idle c /\ total_nr (nrs (enqueue t c)) = total_nr (nrs c) /\
  user_nr (nrs (enqueue t c)) = user_nr (nrs c).
Proof. unfold enqueue. destruct (bool_decide _); split_and!; reflexivity. Qed.

Lemma db_ok_ports th d d' live t : t ∈ live -> db_ok th d live -> bitmap d' = bitmap d -> next d' = next d ->
  (forall i p, i <> ltid (th t) -> ports d' i p = ports d i p) -> db_ok th d' live.
Proof.
  intros Ht [] Hb Hn Hp. split; rewrite ?Hb, ?Hn; try done.
  intros i Hi. assert (i <> ltid (th t)). { intros ->. apply Hi, list_elem_of_fmap. eauto. }
  unfold port0, port1. rewrite !Hp by done. apply db_ports0. done.
Qed.

Lemma live_other th d live t u : db_ok th d live -> t ∈ live -> u ∈ live -> u <> t -> ltid (th u) <> ltid (th t).
Proof. intros D Ht Hu Hne E. apply Hne. eapply live_inj; done. Qed.

(** A change of the place of one thread *)
Lemma inv_change c c' live cur cur' com com' aw aw' t : inv c live cur com aw -> t ∈ live ->
  (forall u, u <> t -> u ∈ live \/ u = thread_idle c -> core (threads c' u) = core (threads c u)) ->
  type (threads c' t) = type (threads c t) -> ltid (threads c' t) = ltid (threads c t) ->
  thread_idle c' = thread_idle c -> bitmap (db c') = bitmap (db c) -> next (db c') = next (db c) ->
  (forall i p, i <> ltid (threads c t) -> ports (db c') i p = ports (db c) i p) ->
  q_ok (threads c') (rq c') (nrs c') live -> (forall u, u <> t -> u ∈ qs (rq c') <-> u ∈ qs (rq c)) ->
  totals_ok (threads c') (db c') (nrs c') live ->
  (forall u, cur' = Some u -> u ∈ live) -> (forall u, u <> t -> role cur' com' u = role cur com u) ->
  (forall u, u ∈ aw' -> u ∈ live) -> (forall u, u <> t -> u ∈ aw' <-> u ∈ aw) ->
  in_place (threads c') (rq c') (db c') cur' com' aw' t -> inv c' live cur' com' aw'.
Proof.
  intros I Ht Hth Hty Hlt Hidle Hbm Hnext Hports Hq Hqs Htot Hcur Hrole Haw Haw' Hpl.
  assert (Hlt' : forall u, u ∈ live -> ltid (threads c' u) = ltid (threads c u)).
  { intros u Hu. destruct (decide (u = t)) as [->|]; [done|]. apply core_fields; auto. }
  assert (Hty' : forall u, u ∈ live \/ u = thread_idle c -> type (threads c' u) = type (threads c u)).
  { intros u Hu. destruct (decide (u = t)) as [->|]; [done|]. apply core_fields; auto. }
  split; rewrite ?Hidle; try done; try apply I.
  - intros u Hu. rewrite Hty' by auto. apply I. done.
  - rewrite Hty' by auto. apply I.
  - apply (db_ok_ports _ (db c) _ _ t); try done; [|intros i p Hi; rewrite Hlt in Hi; auto].
    apply (db_ok_ltid (threads c)); [done|apply I].
  - intros u Hu. destruct (decide (u = t)) as [->|Hne]; [done|].
    pose proof (live_other _ _ _ t u (inv_db _ _ _ _ _ I) Ht Hu Hne).
    apply (in_place_same (threads c) _ (rq c) _ (db c) _ cur _ com _ aw); auto.
    + unfold port0. rewrite Hports by done. done.
    + unfold port1. rewrite Hports by done. done.
    + apply I. done.
Qed.

(** A live thread that was in no queue enters one: what its place was, and how its event was delivered, is
    the matter of the caller. *)
Lemma inv_arrive c c2 live cur com aw t : inv c live cur com aw -> t ∈ live -> t ∉ qs (rq c) ->
  (forall u, u <> t -> threads c2 u = threads c u) ->
  type (threads c2 t) = type (threads c t) -> ltid (threads c2 t) = ltid (threads c t) ->
  thread_isCapWakeup (threads c2 t) = false -> rq c2 = rq c -> thread_idle c2 = thread_idle c ->
  bitmap (db c2) = bitmap (db c) -> next (db c2) = next (db c) ->
  (forall i p, i <> ltid (threads c t) -> ports (db c2) i p = ports (db c) i p) ->
  port0 (db c2) (ltid (threads c t)) = 0 ->
  (port1 (db c2) (ltid (threads c t)) = 0 \/ port1 (db c2) (ltid (threads c t)) = port1 (db c) (ltid (threads c t))) ->
  totals_ok (threads c2) (db c2) (nrs c2) live ->
  u_runnable (nrs c2) = u_runnable (nrs c) -> k_runnable (nrs c2) = k_runnable (nrs c) ->
  placed (role cur com t) (bool_decide (t ∈ aw)) true (thread_isWakeable (threads c2 t)) (state (threads c2 t)) NoEvent ->
  inv (enqueue t c2) live cur com aw.
Proof.
  intros I Ht Hnin Hth Hty Hlt Hcap Hq Hidle Hbm Hnext Hports H0 H1 Htot Hu Hk Hpl.
  assert (Hty' : forall u, type (threads c2 u) = type (threads c u)).
  { intros u. destruct (decide (u = t)) as [->|]; [done|]. rewrite Hth by done. done. }
  destruct (q_ok_enqueue c2 t live) as [Q Hqs].
  { rewrite Hq. destruct (inv_q _ _ _ _ _ I). split; try done; try congruence; intros; rewrite Hty'; auto. }
  { rewrite Hq. eapply queue_bound; apply I. }
  { done. } { rewrite Hq. done. } { rewrite Hty. apply I. done. }
  destruct (enqueue_frame t c2) as (Eth & Edb & Eidle & Etot & Euser).
  apply (inv_change c _ live cur _ com _ aw _ t); rewrite ?Eth, ?Edb, ?Eidle; try done; try apply I.
  - intros u Hne _. rewrite Hth by done. done.
  - intros u Hne. rewrite Hqs, Hq. tauto.
  - destruct Htot as [E1 E2]. split; [rewrite Etot|rewrite Euser]; done.
  - split; [exists NoEvent|split; [|done]]; rewrite Hlt.
    + split; [done|]. rewrite (bool_decide_true (t ∈ qs _)) by (apply Hqs; auto). done.
    + destruct (inv_place _ _ _ _ _ I t Ht) as (_ & Hp & _). destruct H1 as [->| ->]; auto.
Qed.

Lemma totals_same th th' d d' n n' live : totals_ok th d n live -> (forall u, u ∈ live -> type (th' u) = type (th u)) ->
  (forall u, u ∈ live -> added th' d' u <-> added th d u) -> total_nr n' = total_nr n -> user_nr n' = user_nr n ->
  totals_ok th' d' n' live.
Proof.
  intros [H1 H2] Hty Hadd E1 E2. split; [rewrite E1, H1|rewrite E2, H2]; f_equal; apply filter_same; intros t Ht.
  - symmetry. auto.
  - rewrite Hadd, Hty by done. done.
Qed.

Lemma zlen_filter {A} (P : A -> Prop) `{!forall x, Decision (P x)} (l : list A) : zlen (filter P l) <= zlen l.
Proof. unfold zlen. pose proof (length_filter P l). lia. Qed.

(** The scheduler is told of one more thread. *)
Lemma totals_arrive th th' d d' n live t : totals_ok th d n live -> NoDup live -> zlen live <= SCHED_THREADS_NR -> t ∈ live ->
  type (th t) = PTHREAD \/ type (th t) = KTHREAD -> (forall u, u ∈ live -> type (th' u) = type (th u)) ->
  (forall u, u ∈ live -> u <> t -> added th' d' u <-> added th d u) -> added th' d' t -> ~ added th d t ->
  totals_ok th' d' (if bool_decide (type (th t) = KTHREAD) then add_total 1 n else add_user 1 (add_total 1 n)) live.
Proof.
  intros [H1 H2] Hnd Hb Ht Hpk Hty Hadd Hnew Hold. unfold SCHED_THREADS_NR in Hb.
  assert (F1 : zlen (filter (added th' d') live) = zlen (filter (added th d) live) + 1) by (apply filter_flip with t; done).
  pose proof (zlen_filter (added th' d') live). pose proof (zlen_nonneg (filter (added th d) live)).
  pose proof (zlen_filter (fun t => type (th' t) = PTHREAD /\ added th' d' t) live).
  destruct Hpk as [Ep|Ek].
  - rewrite bool_decide_false by congruence.
    assert (F2 : zlen (filter (fun t => type (th' t) = PTHREAD /\ added th' d' t) live) =
      zlen (filter (fun t => type (th t) = PTHREAD /\ added th d t) live) + 1).
    { apply filter_flip with t; try done; [split; [rewrite Hty by done|]; done|tauto|]. intros u Hu Hne. rewrite Hadd, Hty by done. done. }
    pose proof (zlen_nonneg (filter (fun t => type (th t) = PTHREAD /\ added th d t) live)).
    split; cbn; rewrite u16_small; lia.
  - rewrite bool_decide_true by done. split; cbn; [rewrite u16_small; lia|]. rewrite H2. f_equal. apply filter_same.
    intros u Hu. destruct (decide (u = t)) as [->|Hne]; [rewrite Hty, Ek by done; split; intros [? _]; done|].
    rewrite Hadd, Hty by done. done.
Qed.

Lemma set_port_other i p v d j q : j <> i -> ports (set_port i p v d) j q = ports d j q.
Proof. intros H. cbn. rewrite fn_lookup_insert_ne by done. done. Qed.

Lemma set_port_same i p v d : ports (set_port i p v d) i p = v.
Proof. cbn. rewrite !fn_lookup_insert. done. Qed.

Lemma set_port_port i p v d q : q <> p -> ports (set_port i p v d) i q = ports d i q.
Proof. intros H. cbn. rewrite fn_lookup_insert, fn_lookup_insert_ne by done. done. Qed.

Lemma not_created t k : aligned t -> k <> AddCreated -> event_of t k <> event_of t AddCreated.
Proof. intros Ht Hk E. apply event_of_inj in E; done. Qed.

(** [rr_wakeup] of a thread that is in no queue, after its event is taken from a port *)
Lemma inv_rr_wakeup c c2 live cur com aw t p k : inv c live cur com aw -> t ∈ live -> t ∉ qs (rq c) ->
  port0 (db c) (ltid (threads c t)) = event_of t k -> k <> AddCreated ->
  (forall u, u <> t -> threads c2 u = threads c u) ->
  type (threads c2 t) = type (threads c t) -> ltid (threads c2 t) = ltid (threads c t) ->
  thread_isCapWakeup (threads c2 t) = false -> thread_isWakeable (threads c2 t) = false ->
  state (threads c2 t) <> S_READY -> rq c2 = rq c -> nrs c2 = nrs c -> thread_idle c2 = thread_idle c ->
  db c2 = set_port (ltid (threads c t)) p 0 (db c) -> p = SCHED_PORT SCHED_OP_WAKEUP \/ p = SCHED_PORT SCHED_OP_UWAKEUP /\ k = NoEvent ->
  placed (role cur com t) (bool_decide (t ∈ aw)) true false S_READY NoEvent ->
  inv (rr_wakeup t c2) live cur com aw.
Proof.
  intros I Ht Hnin Hp0 Hk Hth Hty Hlt Hcap Hwk Hst Hq Hn Hidle Hdb Hp Hpl. unfold rr_wakeup.
  rewrite bool_decide_false by done. pose proof (inv_addr _ _ _ _ _ I t Ht) as Hal.
  set (c3 := upd_thread t (set_state S_READY) c2).
  assert (Ht3 : threads c3 t = set_state S_READY (threads c2 t)) by (cbn; rewrite fn_lookup_insert; done).
  assert (Hu3 : forall u, u <> t -> threads c3 u = threads c u) by (intros u Hu; cbn; rewrite fn_lookup_insert_ne by done; auto).
  assert (Hz : port0 (db c2) (ltid (threads c t)) = 0).
  { rewrite Hdb. unfold port0. destruct Hp as [->|[-> ->]]; [apply set_port_same|].
    rewrite set_port_port by done. exact Hp0. }
  assert (I3 : inv (enqueue t c3) live cur com aw).
  { apply (inv_arrive c); rewrite ?Ht3; cbn [db rq nrs thread_idle upd_thread c3]; rewrite ?Hn, ?Hdb; try done.
    - intros i q Hi. apply set_port_other. done.
    - rewrite <- Hdb. done.
    - destruct Hp as [->|[-> ->]]; [right; apply set_port_port; done|left; apply set_port_same].
    - apply (totals_same (threads c) _ (db c) _ (nrs c)); try done; [apply I| |].
      + intros u Hu. destruct (decide (u = t)) as [->|Hne]; [rewrite Ht3; done|rewrite Hu3 by done; done].
      + intros u Hu. unfold added, port0 at 1. destruct (decide (u = t)) as [->|Hne].
        * rewrite Ht3. cbn [ltid set_state]. rewrite Hlt, <- Hdb. fold (port0 (db c2) (ltid (threads c t))).
          rewrite Hz, Hp0. split; intros _; [apply not_created; done|apply (not_created t NoEvent); done].
        * pose proof (live_other _ _ _ t u (inv_db _ _ _ _ _ I) Ht Hu Hne). rewrite Hu3, set_port_other by done. done.
    - cbn [thread_isWakeable set_state]. replace (thread_isWakeable _) with false by (rewrite <- Hwk; done). done. }
  destruct (bool_decide (type _ = KTHREAD)); [|exact I3]. apply inv_upd; [core_tac|exact I3].
Qed.

(** [rr_add_created] of a thread whose creation was announced in its port *)
Lemma inv_rr_created c live cur com aw t : inv c live cur com aw -> t ∈ live -> t ∉ qs (rq c) ->
  state (threads c t) = S_CREATE -> thread_isWakeable (threads c t) = false -> thread_isCapWakeup (threads c t) = false ->
  role cur com t = None -> t ∉ aw -> port0 (db c) (ltid (threads c t)) = event_of t AddCreated ->
  inv (rr_add_created t (upd_db (set_port (ltid (threads c t)) (SCHED_PORT SCHED_OP_ADD_CREATED) 0)
                           (upd_thread t (set_state S_CREATE) c))) live cur com aw.
Proof.
  intros I Ht Hnin Hst Hwk Hcap Hrole Haw Hp0. unfold rr_add_created.
  set (i := ltid (threads c t)). set (c2 := upd_db _ _).
  pose proof (inv_addr _ _ _ _ _ I t Ht) as Hal. pose proof (live_nodup _ _ _ (inv_db _ _ _ _ _ I)) as Hnd.
  pose proof (live_bound _ _ _ (inv_db _ _ _ _ _ I)) as Hb.
  assert (Hth : forall u, core (threads c2 u) = core (threads c u)).
  { intros u. cbn. destruct (decide (u = t)) as [->|]; [rewrite fn_lookup_insert|rewrite fn_lookup_insert_ne by done]; [|done].
    unfold core. cbn. rewrite Hst. done. }
  assert (Hlt : forall u, ltid (threads c2 u) = ltid (threads c u)) by (intros; apply core_fields, Hth).
  assert (Hty : forall u, type (threads c2 u) = type (threads c u)) by (intros; apply core_fields, Hth).
  assert (Hother : forall u, u <> t -> threads c2 u = threads c u) by (intros; cbn; rewrite fn_lookup_insert_ne by done; done).
  assert (Hadd : forall u, u ∈ live -> u <> t -> added (threads c2) (db c2) u <-> added (threads c) (db c) u).
  { intros u Hu Hne. pose proof (live_other _ _ _ t u (inv_db _ _ _ _ _ I) Ht Hu Hne).
    unfold added, port0 at 1. rewrite Hlt. cbn [db upd_db c2 upd_thread]. rewrite set_port_other by done. done. }
  assert (Hz : port0 (db c2) i = 0) by apply set_port_same.
  assert (Hnew : added (threads c2) (db c2) t) by (unfold added; rewrite Hlt; fold i; rewrite Hz; apply (not_created t NoEvent); done).
  assert (Hold : ~ added (threads c) (db c) t) by (unfold added; tauto).
  pose proof (totals_arrive (threads c) (threads c2) (db c) (db c2) (nrs c) live t (inv_totals _ _ _ _ _ I) Hnd Hb Ht
    (inv_type _ _ _ _ _ I t Ht) (fun u _ => Hty u) Hadd Hnew Hold) as Htot.
  set (c3 := if bool_decide (type (threads c t) = KTHREAD) then upd_nrs (add_total 1) c2 else upd_nrs (add_user 1) (upd_nrs (add_total 1) c2)).
  assert (I3 : inv (enqueue t c3) live cur com aw).
  { assert (E3 : threads c3 = threads c2 /\ db c3 = db c2 /\ rq c3 = rq c /\ thread_idle c3 = thread_idle c /\
      u_runnable (nrs c3) = u_runnable (nrs c) /\ k_runnable (nrs c3) = k_runnable (nrs c)).
    { unfold c3. destruct (bool_decide (type (threads c t) = KTHREAD)); split_and!; reflexivity. }
    destruct E3 as (Eth & Edb & Eq & Ei & Eu & Ek).
    destruct (core_fields _ _ (Hth t)) as (Est & _ & _ & Ewk & Ecap).
    apply (inv_arrive c); rewrite ?Eth, ?Edb; auto; try congruence.
    - intros j q Hj. apply set_port_other. done.
    - right. apply set_port_port. done.
    - replace (nrs c3) with (if bool_decide (type (threads c t) = KTHREAD) then add_total 1 (nrs c) else add_user 1 (add_total 1 (nrs c))); [done|].
      unfold c3. destruct (bool_decide (type (threads c t) = KTHREAD)); reflexivity.
    - rewrite Hrole, Est, Ewk, Hst, Hwk, bool_decide_false by done. constructor. }
  destruct (enqueue_frame t (upd_nrs (add_total 1) c2)) as (Eth & _). rewrite Eth. cbn [threads upd_nrs]. rewrite Hty.
  unfold c3 in I3. destruct (bool_decide_reflect (type (threads c t) = KTHREAD)) as [Ek|Ek]; [exact I3|].
  apply inv_upd; [intros th; destruct (thread_isImported th); core_tac|].
  replace (upd_nrs (add_user 1) _) with (enqueue t (upd_nrs (add_user 1) (upd_nrs (add_total 1) c2))); [done|].
  unfold enqueue. cbn [threads upd_nrs upd_rq]. rewrite Hty, bool_decide_false by done. reflexivity.
Qed.

(** ** The delivery of events *)

(** The tests of [sched_event_notify] on the event of a thread *)
Lemma event_tests t k : aligned t ->
  negb (Z.land (event_of t k) SCHED_OP_WAKEUP =? 0) = (match k with Wakeup => true | _ => false end) /\
  negb (Z.land (event_of t k) SCHED_OP_ADD_CREATED =? 0) = (match k with AddCreated => true | _ => false end) /\
  (k <> NoEvent -> Z.land (event_of t k) (~! SCHED_OP_MASK) = t).
Proof.
  intros Ht. destruct k; cbn [event_of]; rewrite ?event_op by (done || (vm_compute; split; congruence)); split_and!; try done;
    intros _; apply event_thread; done.
Qed.

Lemma uwakeup_test t : aligned t -> negb (Z.land (sched_event_make t SCHED_OP_UWAKEUP) SCHED_OP_UWAKEUP =? 0) = true /\
  Z.land (sched_event_make t SCHED_OP_UWAKEUP) (~! SCHED_OP_MASK) = t.
Proof. intros Ht. rewrite event_op, event_thread by (done || (vm_compute; split; congruence)). done. Qed.

Lemma inv_notify_thread c live cur com aw i : inv c live cur com aw -> inv (notify_thread c i) live cur com aw.
Proof.
  intros I. destruct (decide (i ∈ ids (threads c) live)) as [Hi|Hi].
  - apply list_elem_of_fmap in Hi as (t & -> & Ht). pose proof (inv_addr _ _ _ _ _ I t Ht) as Hal.
    destruct (inv_place _ _ _ _ _ I t Ht) as ((k & Hp0 & Hpl) & Hp1 & Hcap). unfold notify_thread. cbv zeta.
    change (SCHED_PORT SCHED_OP_ADD_CREATED) with (SCHED_PORT SCHED_OP_WAKEUP).
    fold (port0 (db c) (ltid (threads c t))). fold (port1 (db c) (ltid (threads c t))). rewrite Hp0.
    destruct (event_tests t k Hal) as (-> & -> & Et). destruct k.
    + destruct Hp1 as [-> | ->]; [done|]. destruct (uwakeup_test t Hal) as [-> ->]. cbn [andb].
      destruct (thread_isWakeable (threads c t)) eqn:Hwk; [|done].
      place_inv Hpl.
      apply (inv_rr_wakeup c _ live cur com aw t (SCHED_PORT SCHED_OP_UWAKEUP) NoEvent); try done; cbn [threads upd_db upd_thread];
        rewrite ?fn_lookup_insert; auto.
      * intros u Hu. rewrite fn_lookup_insert_ne by done. done.
      * unfold thread_isCapWakeup, thread_clear_wakeable. rewrite has_clear_other by done. done.
      * apply has_clear_same. done.
      * cbn. congruence.
      * replace (role cur com t) with (@None bool). rewrite bool_decide_false by done. constructor.
    + rewrite Et by done. apply (inv_rr_wakeup c _ live cur com aw t (SCHED_PORT SCHED_OP_WAKEUP) Wakeup); try done; auto; cbn [threads upd_db].
      all: place_inv Hpl; try done; try congruence; constructor.
    + rewrite Et by done. place_inv Hpl. apply inv_rr_created; done.
  - destruct (db_ports _ _ _ (inv_db _ _ _ _ _ I) i Hi) as [H0 H1]. unfold notify_thread. cbv zeta.
    change (SCHED_PORT SCHED_OP_ADD_CREATED) with (SCHED_PORT SCHED_OP_WAKEUP).
    fold (port0 (db c) i). fold (port1 (db c) i). rewrite H0, H1. done.
Qed.

Lemma inv_notify c live cur com aw : inv c live cur com aw -> inv (sched_event_notify c) live cur com aw.
Proof.
  unfold sched_event_notify. generalize (seqZ 0 SCHED_THREADS_NR) as l. intros l. revert c.
  induction l as [|i l IH]; intros c I; cbn; [done|]. apply IH, inv_notify_thread, I.
Qed.

(** ** The clock and the balance of the load *)

Lemma filter_out {A} `{EqDecision A} (l : list A) v : NoDup l -> v ∈ l -> l ≡ₚ v :: filter (fun t => t <> v) l.
Proof.
  intros Hnd Hv. apply NoDup_Permutation; [done| |].
  - apply NoDup_cons. split; [rewrite list_elem_of_filter; tauto|apply NoDup_filter; done].
  - intros x. rewrite elem_of_cons, list_elem_of_filter. destruct (decide (x = v)) as [->|]; tauto.
Qed.

Lemma balance_scan_core l th v m th' v' m' : balance_scan th v m l = (th', v', m') ->
  (forall u, core (th' u) = core (th u)) /\ (v' = v \/ v' ∈ l).
Proof.
  revert th v m. induction l as [|t l IH]; intros th v m; cbn.
  - intros [= <- <- <-]. auto.
  - destruct (_ || _); [intros [H1 H2]%IH; split; [done|rewrite elem_of_cons; tauto]|].
    destruct (m <? _) eqn:Em; intros [H1 H2]%IH; (split; [|rewrite elem_of_cons; tauto]); intros u; rewrite H1;
      (destruct (decide (u = t)) as [->|]; [rewrite fn_lookup_insert; core_tac|rewrite fn_lookup_insert_ne; done]).
Qed.

Lemma inv_migrate c live cur com aw v : inv c live cur com aw -> v ∈ runnable (rq c) ->
  inv (upd_rq (fun q => set_migrate (u32 (rm_runnable q + 1)) (migrate q ++ [v])
         (set_runnable (u32 (ru_runnable q - 1)) (filter (fun t => t <> v) (runnable q)) q)) c) live cur com aw.
Proof.
  intros I Hv. pose proof (queue_bound _ _ _ _ _ (inv_db _ _ _ _ _ I) (inv_q _ _ _ _ _ I)) as Hb.
  destruct (inv_q _ _ _ _ _ I) as [Hnd Hl Hk Hp Hc Hru Hrm Hu Hkn].
  assert (HP : runnable (rq c) ≡ₚ v :: filter (fun t => t <> v) (runnable (rq c))).
  { apply filter_out; [|done]. unfold qs in Hnd. apply NoDup_app in Hnd as (_ & _ & Hnd). apply NoDup_app in Hnd. tauto. }
  set (c' := upd_rq _ c).
  assert (HP2 : runnable (rq c') ++ migrate (rq c') ≡ₚ runnable (rq c) ++ migrate (rq c)).
  { cbn. rewrite HP at 2. cbn. rewrite app_assoc, (Permutation_app_comm _ [v]). done. }
  assert (HPq : qs (rq c') ≡ₚ qs (rq c)) by (unfold qs; rewrite HP2; done).
  apply Permutation_length in HP as Hlen. cbn in Hlen. unfold SCHED_THREADS_NR, qs in Hb. rewrite !zlen_app in Hb.
  pose proof (zlen_nonneg (kthreads (rq c))). pose proof (zlen_nonneg (migrate (rq c))).
  split; try apply I.
  - split; try done.
    + rewrite HPq. done.
    + intros t Ht. apply Hl. rewrite <- HPq. done.
    + intros t Ht. apply Hp. rewrite <- HP2. done.
    + change (count (rq c) = zlen (qs (rq c'))). rewrite Hc. unfold zlen. rewrite HPq. done.
    + cbn. rewrite Hru, u32_small; unfold is_u32, zlen in *; lia.
    + cbn. rewrite Hrm, zlen_app. change (zlen [v]) with 1. rewrite u32_small; unfold is_u32, zlen in *; lia.
    + cbn [nrs upd_rq c']. rewrite Hu. unfold zlen. rewrite HP2. done.
  - intros t Ht. apply (in_place_same (threads c) _ (rq c) _ (db c) _ cur _ com _ aw); try done; [rewrite HPq; done|apply I; done].
Qed.

Lemma inv_load_balance c live cur com aw this : inv c live cur com aw -> inv (rr_sched_load_balance this c) live cur com aw.
Proof.
  intros I. unfold rr_sched_load_balance.
  set (c1 := upd_thread this _ c). assert (I1 : inv c1 live cur com aw) by (apply inv_upd; [core_tac|done]).
  destruct (balance_scan _ _ _ _) as [[th v] m] eqn:Es. apply balance_scan_core in Es as [Hcore Hv].
  set (c2 := Cpu th _ _ _ _ _ _ _). assert (I2 : inv c2 live cur com aw) by (apply (inv_frame c1); done).
  destruct (_ && _); [|done]. destruct (Z.eqb_spec v this) as [->|Hne]; cbn [negb]; [apply inv_upd; [core_tac|done]|].
  apply inv_migrate; [apply inv_upd; [core_tac|done]|]. destruct Hv as [->|Hv]; [done|]. exact Hv.
Qed.

Lemma inv_clock c live cur com aw ld this : inv c live cur com aw -> inv (sched_clock ld this c) live cur com aw.
Proof.
  intros I. unfold sched_clock.
  set (c1 := upd_thread this _ c). assert (I1 : inv c1 live cur com aw) by (apply inv_upd; [core_tac|done]).
  set (c2 := if bool_decide _ then _ else c1).
  assert (I2 : inv c2 live cur com aw) by (unfold c2; destruct (bool_decide _); [apply inv_upd; [core_tac|]|]; done).
  apply inv_notify in I2. revert I2. generalize (sched_event_notify c2). clear. intros c I. unfold rr_clock_balancing, rr_clock.
  set (c1 := if 0 <? quantum _ then _ else c).
  assert (I1 : inv c1 live cur com aw) by (unfold c1; destruct (0 <? _); [apply inv_upd; [core_tac|]|]; done).
  set (c2 := if _ && negb _ then upd_thread this thread_sched_activate c1 else c1).
  assert (I2 : inv c2 live cur com aw) by (unfold c2; destruct (_ && _); [apply inv_upd; [core_tac|]|]; done).
  set (c3 := upd_rq _ c2). assert (I3 : inv c3 live cur com aw) by (apply (inv_frame c2); done).
  set (c4 := if period _ <=? _ then _ else c3).
  assert (I4 : inv c4 live cur com aw).
  { unfold c4. destruct (period (rq c3) <=? clock_cntr (rq c3)); [|done]. destruct (_ && (U_root ld <? 100)); [apply inv_load_balance|]; apply (inv_frame c3); done. }
  destruct ((0 <? rm_runnable (rq c4)) && _); [apply inv_upd; [core_tac|]|]; done.
Qed.

(** ** The election *)

(** The current thread, which runs in the kernel, goes back to a queue. *)
Record requeued (t : Z) (c c' : cpu) : Prop := {
  rq_others : forall u, u <> t -> threads c' u = threads c u;
  rq_core : core (threads c' t) = core (set_state S_READY (threads c t));
  rq_db : db c' = db c;
  rq_idle : thread_idle c' = thread_idle c;
  rq_current : current_thread c' = current_thread c;
  rq_totals : total_nr (nrs c') = total_nr (nrs c) /\ user_nr (nrs c') = user_nr (nrs c);
  rq_count : count (rq c') = u32 (count (rq c) + 1);
  rq_migrate : migrate (rq c') = migrate (rq c) /\ rm_runnable (rq c') = rm_runnable (rq c);
  rq_queue : type (threads c t) = KTHREAD /\ kthreads (rq c') = kthreads (rq c) ++ [t] /\ runnable (rq c') = runnable (rq c) /\
     ru_runnable (rq c') = ru_runnable (rq c) /\
     k_runnable (nrs c') = u16 (k_runnable (nrs c) + 1) /\ u_runnable (nrs c') = u_runnable (nrs c) \/
   type (threads c t) = PTHREAD /\ kthreads (rq c') = kthreads (rq c) /\
     runnable (rq c') = (if thread_isForcedYield (threads c t) then t :: runnable (rq c) else runnable (rq c) ++ [t]) /\
     ru_runnable (rq c') = u32 (ru_runnable (rq c) + 1) /\
     k_runnable (nrs c') = k_runnable (nrs c) /\ u_runnable (nrs c') = u16 (u_runnable (nrs c) + 1);
}.

Lemma requeue_run t c : state (threads c t) = S_KERNEL -> type (threads c t) = PTHREAD \/ type (threads c t) = KTHREAD ->
  requeued t c (requeue t c).
Proof.
  intros Hst Hty. unfold requeue. cbn [threads upd_thread upd_rq upd_nrs]. rewrite !fn_lookup_insert.
  assert (Hf : thread_isForcedYield (thread_sched_deactivate (threads c t)) = thread_isForcedYield (threads c t))
    by (apply has_clear_other; done).
  assert (E : bool_decide (type (thread_sched_deactivate (threads c t)) <> TH_IDLE) &&
    bool_decide (state (thread_sched_deactivate (threads c t)) = S_KERNEL) = true).
  { cbn. rewrite !bool_decide_true; [done|done|destruct Hty; congruence]. }
  rewrite E. clear E.
  assert (Hd : core (thread_sched_deactivate (threads c t)) = core (threads c t)) by core_tac.
  destruct Hty as [Ep|Ek].
  - rewrite bool_decide_true by done.
    match goal with |- context [thread_isForcedYield ?x] => replace (thread_isForcedYield x) with (thread_isForcedYield (threads c t)) by exact (eq_sym Hf) end.
    destruct (thread_isForcedYield (threads c t)) eqn:Ef; split; cbn; rewrite ?fn_lookup_insert, ?Ef; try done;
      try (intros u Hu; rewrite !fn_lookup_insert_ne by done; done); try (right; split_and!; done).
    + exact (core_state S_READY _ _ Hd).
    + transitivity (core (thread_migration_deactivate (set_state S_READY (thread_sched_deactivate (threads c t))))); [reflexivity|].
      unfold thread_migration_deactivate. rewrite core_clear by done. exact (core_state S_READY _ _ Hd).
  - rewrite bool_decide_false by (cbn; congruence). split; cbn; rewrite ?fn_lookup_insert; try done;
      try (intros u Hu; rewrite !fn_lookup_insert_ne by done; done); try (left; split_and!; done).
    exact (core_state S_READY _ _ Hd).
Qed.

Lemma inv_requeue_run c live aw t : inv c live (Some t) false aw -> state (threads c t) = S_KERNEL ->
  inv (requeue t c) live None false aw.
Proof.
  intros I Hst. pose proof (inv_cur _ _ _ _ _ I t eq_refl) as Ht.
  pose proof (requeue_run t c Hst (inv_type _ _ _ _ _ I t Ht)) as R.
  destruct (inv_place _ _ _ _ _ I t Ht) as ((k & Hp0 & Hpl) & Hp1 & Hcap).
  unfold role in Hpl. rewrite decide_True in Hpl by done. rewrite Hst in Hpl. place_inv Hpl.
  destruct (core_fields _ _ (rq_core _ _ _ R)) as (Est & Ety & Elt & Ewk & Ecap). cbn in Est, Ety, Elt.
  assert (Hty : forall u, type (threads (requeue t c) u) = type (threads c u)).
  { intros u. destruct (decide (u = t)) as [->|]; [done|]. rewrite (rq_others _ _ _ R) by done. done. }
  destruct (q_ok_add (threads c) (rq c) (nrs c) (rq (requeue t c)) (nrs (requeue t c)) live t) as [Q Hqs]; try apply R; try done.
  { apply I. } { eapply queue_bound; apply I. }
  { destruct (rq_queue _ _ _ R) as [(G1 & -> & G)|(G1 & G2 & -> & G)]; [left|right]; split_and!; try done; try apply G.
    - apply (Permutation_app_comm _ [t]).
    - destruct (thread_isForcedYield _); [done|apply (Permutation_app_comm _ [t])]. }
  apply (inv_change c _ live (Some t) _ false _ aw _ t); rewrite ?(rq_db _ _ _ R); try done; try apply I; try apply R.
  - intros u Hne _. rewrite (rq_others _ _ _ R) by done. done.
  - eapply q_ok_types; [|done]. intros. apply Hty.
  - intros u Hne. rewrite Hqs. tauto.
  - apply (totals_same (threads c) _ (db c) _ (nrs c)); try apply R; [apply I|intros; apply Hty|].
    intros u Hu. unfold added. destruct (decide (u = t)) as [->|]; [rewrite Elt; done|]. rewrite (rq_others _ _ _ R) by done. done.
  - intros u Hne. unfold role. rewrite decide_False by congruence. rewrite decide_False by congruence. done.
  - unfold in_place. rewrite Elt, Est. split; [exists NoEvent|split; [done|]].
    + split; [congruence|]. rewrite Ewk. unfold role. rewrite decide_False by done.
      rewrite bool_decide_false by done. rewrite bool_decide_true by (apply Hqs; auto).
      replace (thread_isWakeable _) with false by done. constructor.
    + rewrite Ecap. done.
Qed.

Lemma inv_requeue_stay c live com aw this : inv c live None com aw -> type (threads c this) = TH_IDLE \/ state (threads c this) <> S_KERNEL ->
  requeue this c = upd_thread this thread_sched_deactivate c /\ inv (requeue this c) live None com aw.
Proof.
  intros I Hst. assert (E : requeue this c = upd_thread this thread_sched_deactivate c).
  { unfold requeue. cbn [threads upd_thread]. rewrite fn_lookup_insert. cbn [type state thread_sched_deactivate clear_flag set_flags].
    destruct (decide (type (threads c this) = TH_IDLE)) as [Hi|Hi].
    - rewrite bool_decide_false by tauto. done.
    - rewrite (bool_decide_false (state _ = _)), andb_false_r by tauto. done. }
  split; [done|]. rewrite E. apply inv_upd; [core_tac|done].
Qed.

(** The parts of the state that the delivery of events does not touch *)
Lemma rr_wakeup_other t c u : u <> t -> core (threads (rr_wakeup t c) u) = core (threads c u).
Proof.
  intros Hne. unfold rr_wakeup. destruct (bool_decide (state _ = _)); [done|].
  set (c1 := upd_thread t _ c). destruct (enqueue_frame t c1) as (E & _).
  assert (E1 : core (threads c1 u) = core (threads c u)) by (cbn; rewrite fn_lookup_insert_ne by done; done).
  destruct (bool_decide (type _ = _)); [|rewrite E; done]. cbn [threads upd_thread]. rewrite E.
  destruct (decide (u = current_thread (enqueue t c1))) as [->|].
  - rewrite fn_lookup_insert. etransitivity; [|exact E1]. core_tac.
  - rewrite fn_lookup_insert_ne by done. done.
Qed.

Lemma rr_add_created_other t c u : u <> t -> core (threads (rr_add_created t c) u) = core (threads c u).
Proof.
  intros Hne. unfold rr_add_created. destruct (enqueue_frame t (upd_nrs (add_total 1) c)) as (E & _).
  destruct (bool_decide (type _ = _)); [rewrite E; done|]. cbn [threads upd_thread]. rewrite fn_lookup_insert_ne by done.
  cbn [threads upd_nrs]. rewrite E. done.
Qed.

Lemma enqueue_current t c : current_thread (enqueue t c) = current_thread c.
Proof. unfold enqueue. destruct (bool_decide _); done. Qed.

Lemma notify_thread_current c i : current_thread (notify_thread c i) = current_thread c /\ thread_idle (notify_thread c i) = thread_idle c.
Proof.
  assert (Hw : forall t c, current_thread (rr_wakeup t c) = current_thread c /\ thread_idle (rr_wakeup t c) = thread_idle c).
  { intros t c0. unfold rr_wakeup. destruct (bool_decide (state _ = _)); [done|].
    set (c1 := upd_thread t _ c0). destruct (enqueue_frame t c1) as (_ & _ & E & _). pose proof (enqueue_current t c1).
    destruct (bool_decide (type _ = _)); cbn [current_thread thread_idle upd_thread]; rewrite E, H; done. }
  unfold notify_thread. cbv zeta. destruct (negb _); [exact (Hw _ _)|]. destruct (negb _).
  - set (c1 := upd_db _ _). set (t := Z.land _ _). unfold rr_add_created.
    destruct (enqueue_frame t (upd_nrs (add_total 1) c1)) as (_ & _ & E & _). pose proof (enqueue_current t (upd_nrs (add_total 1) c1)) as E'.
    destruct (bool_decide (type _ = _)); cbn [current_thread thread_idle upd_thread upd_nrs]; rewrite E, E'; done.
  - destruct (_ && _); [exact (Hw _ _)|done].
Qed.

Lemma notify_current c : current_thread (sched_event_notify c) = current_thread c /\ thread_idle (sched_event_notify c) = thread_idle c.
Proof.
  unfold sched_event_notify. generalize (seqZ 0 SCHED_THREADS_NR) as l. intros l. revert c.
  induction l as [|i l IH]; intros c; cbn; [done|]. destruct (IH (notify_thread c i)) as [-> ->]. apply notify_thread_current.
Qed.

(** A thread that runs and has not given its address to a waker, or that is not live, is left alone. *)
Lemma notify_thread_quiet c live cur com aw i u : inv c live cur com aw -> u ∉ live \/ role cur com u = Some false ->
  core (threads (notify_thread c i) u) = core (threads c u).
Proof.
  intros I Hu. destruct (decide (i ∈ ids (threads c) live)) as [Hi|Hi].
  - apply list_elem_of_fmap in Hi as (t & -> & Ht). pose proof (inv_addr _ _ _ _ _ I t Ht) as Hal.
    destruct (inv_place _ _ _ _ _ I t Ht) as ((k & Hp0 & Hpl) & Hp1 & Hcap).
    assert (Hne : u = t -> exists b a q w s, placed (Some false) a q w s k /\ (a, q, w, s) = b /\ w = thread_isWakeable (threads c t)).
    { intros ->. destruct Hu as [Hu|Hu]; [done|]. rewrite Hu in Hpl. eauto 10. }
    unfold notify_thread. cbv zeta. change (SCHED_PORT SCHED_OP_ADD_CREATED) with (SCHED_PORT SCHED_OP_WAKEUP).
    fold (port0 (db c) (ltid (threads c t))). fold (port1 (db c) (ltid (threads c t))). rewrite Hp0.
    destruct (event_tests t k Hal) as (-> & -> & Et). destruct k.
    + destruct Hp1 as [-> | ->]; [done|]. destruct (uwakeup_test t Hal) as [-> ->]. cbn [andb].
      destruct (thread_isWakeable (threads c t)) eqn:Hwk; [|done].
      assert (u <> t) by (intros E; destruct (Hne E) as (? & ? & ? & ? & ? & Hpl' & _ & ->); inversion Hpl').
      rewrite rr_wakeup_other by done. cbn. rewrite fn_lookup_insert_ne by done. done.
    + assert (u <> t) by (intros E; destruct (Hne E) as (? & ? & ? & ? & ? & Hpl' & _); inversion Hpl').
      rewrite Et, rr_wakeup_other by done. done.
    + assert (u <> t) by (intros E; destruct (Hne E) as (? & ? & ? & ? & ? & Hpl' & _); inversion Hpl').
      rewrite Et, rr_add_created_other by done. cbn. rewrite fn_lookup_insert_ne by done. done.
  - destruct (db_ports _ _ _ (inv_db _ _ _ _ _ I) i Hi) as [H0 H1]. unfold notify_thread. cbv zeta.
    change (SCHED_PORT SCHED_OP_ADD_CREATED) with (SCHED_PORT SCHED_OP_WAKEUP).
    fold (port0 (db c) i). fold (port1 (db c) i). rewrite H0, H1. done.
Qed.

Lemma notify_quiet c live cur com aw u : inv c live cur com aw -> u ∉ live \/ role cur com u = Some false ->
  core (threads (sched_event_notify c) u) = core (threads c u).
Proof.
  unfold sched_event_notify. generalize (seqZ 0 SCHED_THREADS_NR) as l. intros l. revert c.
  induction l as [|i l IH]; intros c I Hu; cbn; [done|].
  rewrite IH by (done || apply inv_notify_thread, I). eapply notify_thread_quiet; done.
Qed.

(** The lengths of the queues that one thread leaves *)
Ltac destruct_lens Hcase :=
  destruct Hcase as [(E1 & E2 & E3 & E4 & E5 & E6 & E7)|[(E1 & E2 & E3 & E4 & E5 & E6 & E7)|(E1 & E2 & E3 & E4 & E5 & E6 & E7)]];
  apply (f_equal zlen) in E1, E2, E3; rewrite ?zlen_cons in E1; rewrite ?zlen_cons in E2; rewrite ?zlen_cons in E3.

(** The first thread of a queue leaves it. *)
Lemma q_ok_del th q n q' n' live t : q_ok th q n live -> zlen (qs q) <= SCHED_THREADS_NR ->
  (kthreads q = t :: kthreads q' /\ migrate q = migrate q' /\ runnable q = runnable q' /\
     k_runnable n' = u16 (k_runnable n - 1) /\ rm_runnable q' = rm_runnable q /\ ru_runnable q' = ru_runnable q /\ u_runnable n' = u_runnable n \/
   kthreads q = kthreads q' /\ migrate q = t :: migrate q' /\ runnable q = runnable q' /\
     k_runnable n' = k_runnable n /\ rm_runnable q' = u32 (rm_runnable q - 1) /\ ru_runnable q' = ru_runnable q /\
     u_runnable n' = u16 (u_runnable n - 1) \/
   kthreads q = kthreads q' /\ migrate q = migrate q' /\ runnable q = t :: runnable q' /\
     k_runnable n' = k_runnable n /\ rm_runnable q' = rm_runnable q /\ ru_runnable q' = u32 (ru_runnable q - 1) /\
     u_runnable n' = u16 (u_runnable n - 1)) ->
  count q' = u32 (count q - 1) -> q_ok th q' n' live /\ qs q ≡ₚ t :: qs q'.
Proof.
  intros [Hnd Hl Hk Hp Hc Hru Hrm Hu Hkn] Hb Hcase Ec.
  assert (HP : qs q ≡ₚ t :: qs q').
  { unfold qs. destruct Hcase as [(-> & -> & -> & _)|[(-> & -> & -> & _)|(-> & -> & -> & _)]]; [done| |];
      rewrite ?app_assoc; symmetry; [apply (Permutation_middle (kthreads q' ++ runnable q'))|].
    rewrite <- !app_assoc. apply (Permutation_middle (kthreads q')). }
  split; [|done]. rewrite HP in Hnd. apply NoDup_cons in Hnd as [_ Hnd].
  assert (Hlen : zlen (qs q) = zlen (qs q') + 1) by (unfold zlen; rewrite HP; cbn [length]; lia).
  pose proof (zlen_nonneg (kthreads q')). pose proof (zlen_nonneg (runnable q')). pose proof (zlen_nonneg (migrate q')).
  pose proof (zlen_nonneg (qs q')). unfold SCHED_THREADS_NR in Hb. rewrite zlen_app in Hu. unfold qs in Hb. rewrite !zlen_app in Hb.
  split; try done.
  - intros u Hin. apply Hl. rewrite HP. apply elem_of_cons. auto.
  - intros u Hin. apply Hk. destruct Hcase as [(-> & _)|[(-> & _)|(-> & _)]]; rewrite ?elem_of_cons; auto.
  - intros u Hin. apply Hp. destruct Hcase as [(_ & -> & -> & _)|[(_ & -> & -> & _)|(_ & -> & -> & _)]];
      rewrite elem_of_app, ?elem_of_cons in *; tauto.
  - rewrite Ec, Hc, u32_small; unfold is_u32, qs in *; rewrite !zlen_app in *; lia.
  - destruct_lens Hcase; rewrite E6, Hru, ?u32_small; unfold is_u32; lia.
  - destruct_lens Hcase; rewrite E5, Hrm, ?u32_small; unfold is_u32; lia.
  - rewrite zlen_app. destruct_lens Hcase; rewrite E7, Hu, ?u16_small; lia.
  - destruct_lens Hcase; rewrite E4, Hkn, ?u16_small; lia.
Qed.

Lemma take_first_ok c live : q_ok (threads c) (rq c) (nrs c) live -> zlen (qs (rq c)) <= SCHED_THREADS_NR -> 0 < count (rq c) ->
  exists t c1, take_first c = Some (t, c1) /\ threads c1 = threads c /\ db c1 = db c /\ thread_idle c1 = thread_idle c /\
    current_thread c1 = current_thread c /\ total_nr (nrs c1) = total_nr (nrs c) /\ user_nr (nrs c1) = user_nr (nrs c) /\
    (q_ok (threads c) (set_count (u32 (count (rq c1) - 1)) (rq c1)) (nrs c1) live /\
     qs (rq c) ≡ₚ t :: qs (set_count (u32 (count (rq c1) - 1)) (rq c1))) /\
    Some t = head (kthreads (rq c) ++ migrate (rq c) ++ runnable (rq c)).
Proof.
  destruct c as [th [cnt ck pe ru rm ks rs ms] n d ct ci ca ce]. unfold take_first. cbn. intros Q Hb Hpos.
  pose proof (q_count _ _ _ _ Q) as Hc. cbn in Hc.
  destruct ks as [|t ks]; [destruct ms as [|t ms]; [destruct rs as [|t rs]; [unfold qs, zlen in Hc; cbn in Hc; lia|]|]|];
    (eexists t, _; split; [reflexivity|]); do 6 (split; [done|]); (split; [|done]);
    (refine (q_ok_del th _ n _ _ live t Q Hb _ _); [|reflexivity]); cbn; tauto.
Qed.

(** The current thread of the code, if it is not the idle one *)
Definition cur_of (c : cpu) : option Z := if decide (current_thread c = thread_idle c) then None else Some (current_thread c).

Lemma role_none com u : role None com u = None.
Proof. done. Qed.
Lemma role_other t com u : u <> t -> role (Some t) com u = None.
Proof. intros H. unfold role. rewrite decide_False by congruence. done. Qed.
Lemma role_self t com : role (Some t) com t = Some com.
Proof. unfold role. rewrite decide_True by done. done. Qed.

(** A thread that leaves the queues to run: [c1] is the state without it, [c'] the state in which it runs. *)
Lemma inv_run c c1 c' live com aw e st : inv c live None com aw -> threads c1 = threads c -> db c1 = db c -> thread_idle c1 = thread_idle c ->
  total_nr (nrs c1) = total_nr (nrs c) -> user_nr (nrs c1) = user_nr (nrs c) ->
  q_ok (threads c) (rq c1) (nrs c1) live -> qs (rq c) ≡ₚ e :: qs (rq c1) ->
  core_rq (rq c') = core_rq (rq c1) -> nrs c' = nrs c1 -> db c' = db c1 -> thread_idle c' = thread_idle c1 ->
  (forall u, u <> e -> threads c' u = threads c u) -> core (threads c' e) = core (set_state st (threads c e)) ->
  st = S_USR \/ st = S_KERNEL -> inv c' live (Some e) false aw.
Proof.
  intros I Eth Edb Eidle Etot Eusr Q HP Eq' En' Ed' Ei' Hoth Hcore Hst.
  assert (He : e ∈ qs (rq c)) by (rewrite HP; apply elem_of_cons; auto).
  pose proof (q_live _ _ _ _ (inv_q _ _ _ _ _ I) e He) as Hlive.
  assert (Hne : e ∉ qs (rq c1)). { pose proof (q_nodup _ _ _ _ (inv_q _ _ _ _ _ I)) as Hnd. rewrite HP in Hnd. apply NoDup_cons in Hnd. tauto. }
  destruct (inv_place _ _ _ _ _ I e Hlive) as ((k & Hp0 & Hpl) & Hp1 & Hcap).
  destruct (core_fields _ _ Hcore) as (Est & Ety & Elt & Ewk & Ecap). cbn in Est, Ety, Elt.
  assert (Hty : forall u, type (threads c' u) = type (threads c u)).
  { intros u. destruct (decide (u = e)) as [->|]; [done|]. rewrite Hoth by done. done. }
  assert (Hqs : qs (rq c') = qs (rq c1)) by (apply core_rq_qs; done).
  apply (inv_change c _ live None _ com _ aw _ e); rewrite ?Ed', ?Edb, ?Ei'; try done; try apply I.
  - intros u Hu _. rewrite Hoth by done. done.
  - apply (q_ok_types (threads c)); [intros; apply Hty|]. rewrite En'. apply (core_rq_ok _ (rq c1)); done.
  - intros u Hu. rewrite Hqs, HP, elem_of_cons. tauto.
  - apply (totals_same (threads c) _ (db c) _ (nrs c)); [apply I|intros; apply Hty| |congruence..].
    intros u Hu. unfold added. destruct (decide (u = e)) as [->|]; [rewrite Elt; done|]. rewrite Hoth by done. done.
  - intros u [= <-]. done.
  - intros u Hu. apply role_other. done.
  - assert (Hk : k = NoEvent /\ e ∉ aw /\ thread_isWakeable (threads c e) = false).
    { rewrite (bool_decide_true (e ∈ qs (rq c))) in Hpl by done. rewrite role_none in Hpl. inversion Hpl;
        repeat match goal with E : false = bool_decide _ |- _ => symmetry in E; apply bool_decide_eq_false in E end; auto. }
    destruct Hk as (-> & Haw & Hwk).
    unfold in_place. rewrite Elt, Est, role_self, Hqs. split; [exists NoEvent; split; [done|]|split; [done|]].
    + rewrite !bool_decide_false by done. rewrite Ewk. replace (thread_isWakeable _) with false by (rewrite <- Hwk; done).
      destruct Hst as [-> | ->]; constructor.
    + rewrite Ecap. done.
Qed.

(** How the thread that calls [schedule] stands: it runs, it is the idle one, it is on its way to sleep, or it is dead. *)
Definition leaving (c : cpu) (live : list Z) (cur : option Z) (com : bool) (this : Z) : Prop :=
  (cur = Some this /\ com = false /\ state (threads c this) = S_KERNEL) \/
  (cur = None /\ (this = thread_idle c \/ this ∈ live \/ this ∉ live /\ state (threads c this) = S_DEAD)).

Lemma leaving_notify c live cur com aw this : inv c live cur com aw -> leaving c live cur com this ->
  leaving (sched_event_notify c) live cur com this.
Proof.
  intros I Hl. destruct (notify_current c) as [_ Ei].
  pose proof (fun H => proj1 (core_fields _ _ (notify_quiet c live cur com aw this I H))) as Hst.
  revert Ei Hst. generalize (sched_event_notify c). intros c1 Ei Hst. unfold leaving. rewrite Ei.
  destruct Hl as [(-> & -> & Hs)|(-> & [Hs|[Hs|[Hn Hs]]])]; [left; split_and!|right; auto..]; auto.
  - rewrite Hst; [done|]. right. apply role_self.
  - rewrite Hst by auto. auto.
Qed.

Lemma inv_requeue c live cur com aw this : inv c live cur com aw -> leaving c live cur com this ->
  inv (requeue this c) live None com aw /\ thread_idle (requeue this c) = thread_idle c /\
  current_thread (requeue this c) = current_thread c.
Proof.
  intros I [(-> & -> & Hst)|(-> & Hst)].
  - pose proof (requeue_run this _ Hst (inv_type _ _ _ _ _ I this (inv_cur _ _ _ _ _ I this eq_refl))) as R.
    split; [apply inv_requeue_run; done|]. split; apply R.
  - assert (Hs : type (threads c this) = TH_IDLE \/ state (threads c this) <> S_KERNEL).
    { destruct Hst as [->|[Hlive|[Hlive Hst]]]; [left; apply I| |right; congruence].
      right. destruct (inv_place _ _ _ _ _ I this Hlive) as ((k & _ & Hpl) & _). rewrite role_none in Hpl. inversion Hpl; congruence. }
    destruct (inv_requeue_stay _ _ _ _ _ I Hs) as [E I2]. rewrite E in *. done.
Qed.

(** What [dispatch] does to the elected thread, the other ones, and the rest *)
Lemma dispatch_frame this o c : current_thread c = this -> let c' := dispatch this o c in
  let e := default (thread_idle c) o in
  rq c' = rq c /\ nrs c' = nrs c /\ db c' = db c /\ thread_idle c' = thread_idle c /\ current_thread c' = e /\
  (forall u, u <> e -> threads c' u = threads c u) /\
  exists st, core (threads c' e) = core (set_state st (threads c e)) /\ (st = S_USR \/ st = S_KERNEL).
Proof.
  intros <-. unfold dispatch. cbv zeta. set (e := default (thread_idle c) o).
  set (c1 := match o with None => _ | Some _ => _ end). 
  assert (E1 : c1 = (e, set_active (if o then true else false) c)) by (destruct o; done). rewrite E1. clear E1 c1.
  set (c1 := set_active _ c). set (c2 := if bool_decide _ then _ else c1).
  assert (E2 : threads c2 = threads c /\ rq c2 = rq c /\ nrs c2 = nrs c /\ db c2 = db c /\ thread_idle c2 = thread_idle c /\
    current_thread c2 = current_thread c) by (unfold c2; destruct (bool_decide _); done).
  destruct E2 as (Et & Eq & En & Ed & Ei & Ec). clearbody c2. clear c1.
  clearbody e. destruct (Z.eqb_spec e (current_thread c)) as [He|Hne]; cbn [negb].
  - rewrite <- He in *. split_and!; try done.
    + intros u Hu. cbn. rewrite fn_lookup_insert_ne, Et by done. done.
    + exists S_KERNEL. split; [|auto]. cbn. rewrite fn_lookup_insert, Et. done.
  - destruct (bool_decide (state _ = S_CREATE)); split_and!; try done.
    + intros u Hu. cbn. rewrite fn_lookup_insert_ne, Et by done. done.
    + exists (if bool_decide (type (threads c e) = PTHREAD) then S_USR else S_KERNEL). cbn. rewrite fn_lookup_insert, Et.
      split; [done|]. destruct (bool_decide _); auto.
    + intros u Hu. cbn. rewrite fn_lookup_insert_ne, Et by done. done.
    + exists S_KERNEL. cbn. rewrite fn_lookup_insert, Et. auto.
Qed.

(** [schedule] is defined, keeps the invariant, and the current thread runs. *)
Lemma inv_schedule c live cur com aw this : inv c live cur com aw -> current_thread c = this -> leaving c live cur com this ->
  exists c', schedule this c = Some c' /\ inv c' live (cur_of c') false aw /\ thread_idle c' = thread_idle c.
Proof.
  intros I Hthis Hl. apply (leaving_notify _ _ _ _ aw) in Hl; [|done]. apply inv_notify in I.
  destruct (notify_current c) as [Ec Ei]. rewrite Hthis in Ec. unfold schedule. revert I Hl Ec Ei.
  generalize (sched_event_notify c). intros cn I Hl Ec Ei. destruct (inv_requeue _ _ _ _ _ _ I Hl) as (I0 & Ei0 & Ec0).
  unfold rr_elect_balancing. rewrite Ec in *. set (c0 := requeue this cn) in *. clearbody c0.
  destruct (Z.ltb_spec 0 (count (rq c0))) as [Hpos|Hzero].
  - destruct (take_first_ok c0 live) as (e & c1 & Etf & Eth & Edb & Eid & Ecu & Etot & Eusr & [Q HP] & _); [apply I0|eapply queue_bound; apply I0|done|].
    rewrite Etf. cbn [mbind option_bind]. eexists. split; [reflexivity|]. set (c2 := upd_thread e _ _).
    destruct (dispatch_frame this (Some e) c2) as (F1 & F2 & F3 & F4 & F5 & F6 & st & F7 & F8); [cbn; congruence|]. cbn [default] in *.
    set (c' := dispatch this (Some e) c2) in *. clearbody c'.
    assert (I' : inv c' live (Some e) false aw).
    { apply (inv_run c0 (upd_rq (fun q => set_count (u32 (count q - 1)) q) c1) c' live com aw e st); try done.
      - rewrite F1. done.
      - intros u Hu. rewrite F6 by done. cbn. rewrite fn_lookup_insert_ne, Eth by done. done.
      - etransitivity; [exact F7|]. apply core_state. cbn. rewrite fn_lookup_insert, Eth. core_tac. }
    assert (Hne : e <> thread_idle c') by (intros E; apply (proj1 (inv_idle _ _ _ _ _ I')); rewrite <- E; exact (inv_cur _ _ _ _ _ I' e eq_refl)).
    unfold cur_of. rewrite F5, decide_False by done. split; [done|]. rewrite F4. cbn. congruence.
  - cbn [mbind option_bind]. eexists. split; [reflexivity|].
    destruct (dispatch_frame this None c0) as (F1 & F2 & F3 & F4 & F5 & F6 & st & F7 & F8); [congruence|]. cbn [default] in *.
    set (c' := dispatch this None c0) in *. clearbody c'. unfold cur_of. rewrite F5, F4, decide_True by done. split; [|congruence].
    assert (I' : inv c' live None com aw).
    { apply (inv_frame_live c0); try done; [|apply core_fields in F7; tauto|rewrite F1; done].
      intros t Ht. rewrite F6; [done|]. intros ->. apply (proj1 (inv_idle _ _ _ _ _ I0)). done. }
    destruct I'. split; done.
Qed.
