(* ===== verification/SchedSys.v ===== *)
(** * SchedSys: the scheduler and its clients

    The threads of a processor as a system of steps: creation, sleep and wake-up, yield, exit, the clock and the
    idle loop, with the protocol of the callers (a thread that gave its address to a waker sleeps before
    anything else, and a waker wakes a thread once).  The invariant of [SchedInv] holds in every state that
    can be reached, every operation is defined there, and no wake-up is lost. *)

From S2P Require Import Prelude Bits Sched SchedInv.

(** ** Identifiers *)

Lemma ids_in th live t : t ∈ live -> ltid (th t) ∈ ids th live.
Proof. intros Ht. apply list_elem_of_fmap. eauto. Qed.

Lemma ids_full th d live : db_ok th d live -> (forall i, 0 <= i < SCHED_THREADS_NR -> bit (bitmap d) i = false) ->
  zlen live = SCHED_THREADS_NR.
Proof.
  intros D Hall. pose proof (live_bound _ _ _ D). assert (Hsub : seqZ 0 SCHED_THREADS_NR ⊆+ ids th live).
  { apply NoDup_submseteq; [apply NoDup_seqZ|]. intros i Hi. apply elem_of_seqZ in Hi. apply (db_bits _ _ _ D); [|apply Hall]; lia. }
  apply submseteq_length in Hsub. rewrite length_seqZ in Hsub. unfold ids in Hsub. rewrite length_fmap in Hsub.
  unfold zlen, SCHED_THREADS_NR in *. lia.
Qed.

(** The search of [sched_register], from [next] or from 0 when all the identifiers below it were given *)
Lemma register_search th d live : db_ok th d live ->
  let nx := if SCHED_THREADS_NR <=? next d then 0 else next d in
  exists r, bitmap_ffs2 (bitmap d) nx BITMAP_BYTES = Some r /\
    (r = -1 /\ zlen live = SCHED_THREADS_NR \/
     0 <= r < SCHED_THREADS_NR /\ bit (bitmap d) r = true /\ forall i, 0 <= i < r -> bit (bitmap d) i = false).
Proof.
  intros D nx. destruct (db_wf _ _ _ D) as [Hwf Hlen]. pose proof (db_next _ _ _ D) as Hn.
  assert (Hnx : 0 <= nx < SCHED_THREADS_NR) by (unfold nx, SCHED_THREADS_NR in *; zcases; lia).
  assert (Hbelow : forall i, 0 <= i < nx -> bit (bitmap d) i = false).
  { intros i Hi. unfold nx, SCHED_THREADS_NR in *. destruct (Z.leb_spec 32 (next d)); [lia|]. apply (db_below _ _ _ D). lia. }
  destruct (scan2_spec true (bitmap d) nx BITMAP_BYTES) as (r & Er & Hr); [done|rewrite Hlen; done|rewrite Hlen; exact Hnx|].
  rewrite Hlen in Hr. change (W * 1) with SCHED_THREADS_NR in Hr. exists r. split; [exact Er|].
  assert (Hlow : forall hi, (forall k, nx <= k < hi -> bit (bitmap d) k = negb true) -> forall i, 0 <= i < hi -> bit (bitmap d) i = false).
  { intros hi Hk i Hi. destruct (Z.lt_ge_cases i nx); [apply Hbelow; lia|apply Hk; lia]. }
  destruct Hr as [[-> Hr]|(Hr & Hb & Hk)]; [left|right].
  - split; [done|]. apply (ids_full th d); [done|]. apply Hlow, Hr.
  - split; [lia|]. split; [done|]. apply Hlow, Hk.
Qed.

(** [sched_register] gives the least free identifier, and fails only when all of them are given. *)
Lemma register_ok c live t : db_ok (threads c) (db c) live -> t ∉ live ->
  exists r c', sched_register t c = Some (r, c') /\ rq c' = rq c /\ nrs c' = nrs c /\ thread_idle c' = thread_idle c /\
    current_thread c' = current_thread c /\ ports (db c') = ports (db c) /\
    (r = ERANGE /\ zlen live = SCHED_THREADS_NR /\ threads c' = threads c /\ db_ok (threads c') (db c') live \/
     r = 0 /\ exists i, threads c' = <[t := set_ltid i (threads c t)]> (threads c) /\ i ∉ ids (threads c) live /\
       (forall j, 0 <= j < i -> j ∈ ids (threads c) live) /\ db_ok (threads c') (db c') (t :: live)).
Proof.
  intros D Ht. destruct (register_search _ _ _ D) as (r & Er & Hr).
  unfold sched_register. set (c1 := if SCHED_THREADS_NR <=? next (db c) then _ else c).
  assert (E1 : threads c1 = threads c /\ rq c1 = rq c /\ nrs c1 = nrs c /\ thread_idle c1 = thread_idle c /\
    current_thread c1 = current_thread c /\ ports (db c1) = ports (db c) /\ bitmap (db c1) = bitmap (db c) /\
    next (db c1) = if SCHED_THREADS_NR <=? next (db c) then 0 else next (db c))
    by (unfold c1; destruct (_ <=? _); done).
  destruct E1 as (E1 & E2 & E3 & E4 & E5 & E6 & E7 & E8). rewrite E7, E8, Er. cbn [mbind option_bind].
  assert (D1 : db_ok (threads c) (db c1) live).
  { destruct D. split; unfold port0, port1 in *; rewrite ?E6, ?E7, ?E8; try done.
    - destruct (_ <=? _); [unfold SCHED_THREADS_NR; lia|done].
    - destruct (_ <=? _); [intros; lia|done]. }
  clearbody c1. destruct (Z.eqb_spec r (-1)) as [->|Hne].
  - exists ERANGE, c1. split; [done|]. split_and!; try done. left. rewrite E1. destruct Hr as [[_ Hr]|[Hr _]]; [done|lia].
  - destruct Hr as [[-> _]|(Hr & Hb & Hlow)]; [done|]. destruct (db_wf _ _ _ D) as [Hwf Hlen].
    destruct (bitmap_clear_bit (bitmap (db c)) r) as (bm & Ebm & Hwf' & Hlen' & Hbits); [done|rewrite Hlen; exact Hr|].
    rewrite Ebm. cbn [mbind option_bind]. eexists 0, _. split; [reflexivity|]. split_and!; try done. right. split; [done|].
    assert (Hfree : r ∉ ids (threads c) live) by (intros H; apply (db_bits _ _ _ D) in H; [congruence|done]).
    exists r. cbn [threads upd_thread upd_db db]. rewrite E1. split_and!; try done.
    { intros j Hj. apply (db_bits _ _ _ D); [unfold SCHED_THREADS_NR in *; lia|]. apply Hlow. done. }
    assert (Hids : ids (<[t := set_ltid r (threads c t)]> (threads c)) (t :: live) = r :: ids (threads c) live).
    { unfold ids. cbn. rewrite fn_lookup_insert. cbn. f_equal. apply list_fmap_ext. intros i u Hu.
      rewrite fn_lookup_insert_ne; [done|]. intros ->. apply Ht. eapply list_elem_of_lookup_2; done. }
    split; rewrite ?Hids; cbn.
    + apply NoDup_cons. split; [done|apply D].
    + intros u [->|Hu]%elem_of_cons; [rewrite fn_lookup_insert; done|]. rewrite fn_lookup_insert_ne by congruence. apply D. done.
    + rewrite Hlen'. done.
    + intros i Hi. rewrite Hbits, elem_of_cons, <- (db_bits _ _ _ D) by lia || done.
      destruct (Z.eqb_spec i r) as [->|]; cbn; [tauto|]. split; [auto|]. intros [?|?]; [done|done].
    + unfold SCHED_THREADS_NR in *. lia.
    + intros i Hi. rewrite Hbits by lia. destruct (Z.eqb_spec i r) as [->|]; cbn; [done|]. apply Hlow. lia.
    + intros i Hi. rewrite elem_of_cons in Hi. unfold port0, port1. cbn. rewrite E6. apply (db_ports _ _ _ D). tauto.
Qed.

(** [sched_unregister] gives the identifier back and empties its ports. *)
Lemma unregister_ok c live live' t : db_ok (threads c) (db c) live -> live ≡ₚ t :: live' ->
  exists c', sched_unregister t c = Some c' /\ threads c' = threads c /\ rq c' = rq c /\ nrs c' = nrs c /\ thread_idle c' = thread_idle c /\
    current_thread c' = current_thread c /\ (forall i p, i <> ltid (threads c t) -> ports (db c') i p = ports (db c) i p) /\
    db_ok (threads c') (db c') live'.
Proof.
  intros D HP. assert (Ht : t ∈ live) by (rewrite HP; apply elem_of_cons; auto).
  pose proof (db_range _ _ _ D t Ht) as Hr. destruct (db_wf _ _ _ D) as [Hwf Hlen].
  destruct (bitmap_set_bit (bitmap (db c)) (ltid (threads c t))) as (bm & Ebm & Hwf' & Hlen' & Hbits); [done|rewrite Hlen; exact Hr|].
  unfold sched_unregister. cbn [db upd_db bitmap]. rewrite Ebm. cbn [mbind option_bind]. eexists. split; [reflexivity|].
  split_and!; try done; [intros i p Hi; cbn; rewrite fn_lookup_insert_ne by done; done|].
  assert (HPi : ids (threads c) live ≡ₚ ltid (threads c t) :: ids (threads c) live') by (unfold ids; rewrite HP; done).
  pose proof (db_nodup _ _ _ D) as Hnd. rewrite HPi in Hnd. apply NoDup_cons in Hnd as [Hnin Hnd].
  cbn [threads upd_db db]. split; cbn; try done.
  - intros u Hu. apply (db_range _ _ _ D). rewrite HP. apply elem_of_cons. auto.
  - rewrite Hlen'. done.
  - intros i Hi. pose proof (db_bits _ _ _ D i Hi) as Hb. rewrite HPi, elem_of_cons in Hb. rewrite Hbits by lia.
    destruct (Z.eqb_spec i (ltid (threads c t))) as [->|]; cbn; [split; done|]. rewrite Hb. tauto.
  - pose proof (db_next _ _ _ D). destruct (Z.ltb_spec (ltid (threads c t)) (next (db c))); lia.
  - intros i Hi. rewrite Hbits by lia. assert (i < next (db c) /\ i < ltid (threads c t)) by (destruct (Z.ltb_spec (ltid (threads c t)) (next (db c))); lia).
    destruct (Z.eqb_spec i (ltid (threads c t))); [lia|]. cbn. apply (db_below _ _ _ D). lia.
  - intros i Hi. unfold port0, port1. cbn. destruct (decide (i = ltid (threads c t))) as [->|Hne].
    + rewrite fn_lookup_insert. done.
    + rewrite !fn_lookup_insert_ne by done. apply (db_ports _ _ _ D). rewrite HPi, elem_of_cons. tauto.
Qed.

(** ** Exit *)

Lemma totals_leave th d d' n live live' t : totals_ok th d n live -> zlen live <= SCHED_THREADS_NR -> live ≡ₚ t :: live' ->
  added th d t -> (forall u, u ∈ live' -> added th d' u <-> added th d u) ->
  totals_ok th d' (if bool_decide (type (th t) = PTHREAD) then add_user (-1) (add_total (-1) n) else add_total (-1) n) live'.
Proof.
  intros [H1 H2] Hb HP Ht Hadd. unfold SCHED_THREADS_NR in Hb.
  assert (E : filter (added th d') live' = filter (added th d) live') by (apply filter_same; done).
  assert (E' : filter (fun t => type (th t) = PTHREAD /\ added th d' t) live' = filter (fun t => type (th t) = PTHREAD /\ added th d t) live')
    by (apply filter_same; intros u Hu; rewrite Hadd; done).
  assert (F1 : zlen (filter (added th d) live) = zlen (filter (added th d) live') + 1)
    by (unfold zlen; rewrite HP, filter_cons_True by done; cbn [length]; lia).
  pose proof (zlen_filter (added th d) live). pose proof (zlen_filter (fun t => type (th t) = PTHREAD /\ added th d t) live).
  pose proof (zlen_nonneg (filter (added th d) live')). pose proof (zlen_nonneg (filter (fun t => type (th t) = PTHREAD /\ added th d t) live')).
  destruct (bool_decide_reflect (type (th t) = PTHREAD)) as [Ep|Ep].
  - assert (F2 : zlen (filter (fun t => type (th t) = PTHREAD /\ added th d t) live) =
      zlen (filter (fun t => type (th t) = PTHREAD /\ added th d t) live') + 1)
      by (unfold zlen; rewrite HP, filter_cons_True by done; cbn [length]; lia).
    split; cbn; rewrite ?E, ?E', u16_small; lia.
  - assert (F2 : zlen (filter (fun t => type (th t) = PTHREAD /\ added th d t) live) =
      zlen (filter (fun t => type (th t) = PTHREAD /\ added th d t) live'))
      by (unfold zlen; rewrite HP, filter_cons_False by tauto; done).
    split; cbn; rewrite ?E, ?E'; [rewrite u16_small; lia|congruence].
Qed.

(** The running thread leaves the live ones: [c1] is the state after [sched_unregister], [c'] the one given to [schedule]. *)
Lemma inv_leave c c1 c' live live' aw t : inv c live (Some t) false aw -> live ≡ₚ t :: live' -> state (threads c t) = S_KERNEL ->
  threads c1 = threads c -> rq c1 = rq c -> nrs c1 = nrs c -> thread_idle c1 = thread_idle c ->
  (forall i p, i <> ltid (threads c t) -> ports (db c1) i p = ports (db c) i p) -> db_ok (threads c) (db c1) live' ->
  (forall u, u <> t -> threads c' u = threads c u) -> rq c' = rq c -> db c' = db c1 -> thread_idle c' = thread_idle c ->
  nrs c' = (if bool_decide (type (threads c t) = PTHREAD) then add_user (-1) (add_total (-1) (nrs c)) else add_total (-1) (nrs c)) ->
  inv c' live' None false aw.
Proof.
  intros I HP Hst E1 E2 E3 E4 E5 D1 Hoth Eq Ed Ei En.
  pose proof (inv_cur _ _ _ _ _ I t eq_refl) as Ht. pose proof (live_nodup _ _ _ (inv_db _ _ _ _ _ I)) as Hnd.
  assert (Hsub : forall u, u ∈ live' -> u ∈ live /\ u <> t).
  { intros u Hu. split; [rewrite HP; apply elem_of_cons; auto|]. intros ->. rewrite HP in Hnd. apply NoDup_cons in Hnd. tauto. }
  assert (Hback : forall u, u ∈ live -> u <> t -> u ∈ live') by (intros u; rewrite HP, elem_of_cons; tauto).
  destruct (inv_place _ _ _ _ _ I t Ht) as ((k & Hp0 & Hpl) & _). rewrite role_self, Hst in Hpl.
  assert (Hp : k = NoEvent /\ t ∉ qs (rq c) /\ t ∉ aw) by (place_inv Hpl; done). destruct Hp as (-> & Hnq & Hnaw). clear Hpl.
  assert (Hcore : forall u, u ∈ live' -> core (threads c' u) = core (threads c u)) by (intros u Hu; rewrite Hoth by (apply Hsub; done); done).
  assert (Hports : forall u p, u ∈ live' -> ports (db c1) (ltid (threads c u)) p = ports (db c) (ltid (threads c u)) p).
  { intros u p Hu. apply E5. eapply live_other; [apply I|done|apply Hsub; done..]. }
  split; rewrite ?Eq, ?Ed, ?Ei; try done.
  - intros u Hu. apply I, Hsub, Hu.
  - intros u Hu. destruct (core_fields _ _ (Hcore u Hu)) as (_ & -> & _). apply I, Hsub, Hu.
  - destruct (inv_idle _ _ _ _ _ I) as [Hi1 Hi2]. split; [intros Hin; apply Hi1, Hsub, Hin|].
    rewrite Hoth; [done|]. intros <-. done.
  - eapply db_ok_ext; done.
  - rewrite En. destruct (inv_q _ _ _ _ _ I). split; try done.
    + intros u Hu. apply Hback; [auto|]. intros ->. done.
    + intros u Hu. rewrite Hoth; [auto|]. intros ->. apply Hnq. unfold qs. rewrite elem_of_app. auto.
    + intros u Hu. rewrite Hoth; [auto|]. intros ->. apply Hnq. unfold qs. rewrite elem_of_app. auto.
    + destruct (bool_decide _); done.
    + destruct (bool_decide _); done.
  - apply (totals_ok_ext (threads c)); [done|]. rewrite En. apply (totals_leave _ (db c) _ _ live); try done.
    + apply I.
    + eapply live_bound. apply I.
    + unfold added. rewrite Hp0. apply (not_created t NoEvent); [apply I; done|done].
    + intros u Hu. unfold added, port0. rewrite Hports by done. done.
  - intros u Hu. apply Hback; [apply (inv_aw _ _ _ _ _ I u Hu)|]. intros ->. done.
  - intros u Hu. apply (in_place_same (threads c) _ (rq c) _ (db c) _ (Some t) _ false _ aw); try done; auto.
    + unfold port0. apply Hports. done.
    + unfold port1. apply Hports. done.
    + symmetry. apply role_other, Hsub, Hu.
    + apply I, Hsub, Hu.
Qed.

Lemma live_split th d live t : db_ok th d live -> t ∈ live -> live ≡ₚ t :: filter (fun u => u <> t) live.
Proof. intros D Ht. apply filter_out; [eapply live_nodup; done|done]. Qed.

Lemma inv_exit c live aw t : inv c live (Some t) false aw -> current_thread c = t -> state (threads c t) = S_KERNEL ->
  exists c', sched_exit t c = Some c' /\ inv c' (filter (fun u => u <> t) live) (cur_of c') false aw.
Proof.
  intros I Hcur Hst. pose proof (live_split _ _ _ t (inv_db _ _ _ _ _ I) (inv_cur _ _ _ _ _ I t eq_refl)) as HP.
  destruct (unregister_ok c live _ t (inv_db _ _ _ _ _ I) HP) as (c1 & Eu & E1 & E2 & E3 & E4 & E5 & E6 & D1).
  unfold sched_exit. rewrite Eu. cbn [mbind option_bind]. set (c2 := upd_thread t (set_state S_DEAD) (rr_exit t c1)).
  assert (F : (forall u, u <> t -> threads c2 u = threads c u) /\ state (threads c2 t) = S_DEAD /\ rq c2 = rq c /\ db c2 = db c1 /\
    thread_idle c2 = thread_idle c /\ current_thread c2 = t /\
    nrs c2 = (if bool_decide (type (threads c t) = PTHREAD) then add_user (-1) (add_total (-1) (nrs c)) else add_total (-1) (nrs c))).
  { unfold c2, rr_exit. cbn [threads upd_nrs]. rewrite E1.
    destruct (bool_decide _); (split; [intros u Hu; cbn; rewrite !fn_lookup_insert_ne, E1 by done; done|]);
      (split; [cbn; rewrite !fn_lookup_insert; done|]); cbn; rewrite E3; split_and!; done || congruence. }
  destruct F as (F1 & F2 & F3 & F4 & F5 & F6 & F7). clearbody c2. rewrite E1 in D1.
  pose proof (inv_leave c c1 c2 live _ aw t I HP Hst E1 E2 E3 E4 E6 D1 F1 F3 F4 F5 F7) as I2.
  destruct (inv_schedule _ _ _ _ _ t I2 F6) as (c' & Es & I' & _); [|eauto].
  right. split; [done|]. right. right. split; [rewrite list_elem_of_filter; tauto|done].
Qed.

Lemma inv_remove c live aw t : inv c live (Some t) false aw -> current_thread c = t -> state (threads c t) = S_KERNEL ->
  type (threads c t) = PTHREAD ->
  exists c', sched_remove t c = Some c' /\ inv c' (filter (fun u => u <> t) live) (cur_of c') false aw.
Proof.
  intros I Hcur Hst Hty. pose proof (live_split _ _ _ t (inv_db _ _ _ _ _ I) (inv_cur _ _ _ _ _ I t eq_refl)) as HP.
  destruct (unregister_ok c live _ t (inv_db _ _ _ _ _ I) HP) as (c1 & Eu & E1 & E2 & E3 & E4 & E5 & E6 & D1).
  unfold sched_remove. rewrite Eu. cbn [mbind option_bind]. set (c2 := upd_thread t _ (rr_remove c1)).
  assert (F : (forall u, u <> t -> threads c2 u = threads c u) /\ state (threads c2 t) = S_DEAD /\ rq c2 = rq c /\ db c2 = db c1 /\
    thread_idle c2 = thread_idle c /\ current_thread c2 = t /\
    nrs c2 = (if bool_decide (type (threads c t) = PTHREAD) then add_user (-1) (add_total (-1) (nrs c)) else add_total (-1) (nrs c))).
  { rewrite bool_decide_true by done. split; [intros u Hu; cbn; rewrite !fn_lookup_insert_ne, E1 by done; done|].
    split; [cbn; rewrite !fn_lookup_insert; done|]. cbn. rewrite E3. split_and!; done || congruence. }
  destruct F as (F1 & F2 & F3 & F4 & F5 & F6 & F7). clearbody c2. rewrite E1 in D1.
  pose proof (inv_leave c c1 c2 live _ aw t I HP Hst E1 E2 E3 E4 E6 D1 F1 F3 F4 F5 F7) as I2.
  destruct (inv_schedule _ _ _ _ _ t I2 F6) as (c' & Es & I' & _); [|eauto].
  right. split; [done|]. right. right. split; [rewrite list_elem_of_filter; tauto|done].
Qed.

(** ** Creation *)

(** A descriptor that [thread_create] or [kthread_create] prepared *)
Definition new_thread (th : thread) : Prop :=
  (type th = PTHREAD \/ type th = KTHREAD) /\ thread_isWakeable th = false /\ thread_isCapWakeup th = false.

Lemma inv_created c c1 live cur com aw t i th : inv c live cur com aw -> t ∉ live -> aligned t -> t <> thread_idle c -> new_thread th ->
  threads c1 = <[t := set_ltid i th]> (threads c) -> rq c1 = rq c -> nrs c1 = nrs c -> thread_idle c1 = thread_idle c ->
  ports (db c1) = ports (db c) -> i ∉ ids (threads c) live -> db_ok (threads c1) (db c1) (t :: live) ->
  inv (sched_add_created t c1) (t :: live) cur com aw.
Proof.
  intros I Ht Hal Hidle (Hty & Hwk & Hcap) Eth Eq En Ei Ep Hfree D.
  destruct (db_ports _ _ _ (inv_db _ _ _ _ _ I) i Hfree) as [Hp0 Hp1].
  assert (Hoth : forall u, u <> t -> threads (sched_add_created t c1) u = threads c u).
  { intros u Hu. cbn. rewrite Eth, !fn_lookup_insert_ne by done. done. }
  assert (Et : threads (sched_add_created t c1) t = set_state S_CREATE (set_ltid i th)) by (cbn; rewrite Eth, !fn_lookup_insert; done).
  assert (Edb : db (sched_add_created t c1) = set_port i (SCHED_PORT SCHED_OP_ADD_CREATED) (event_of t AddCreated) (db c1)).
  { cbn. rewrite Eth, !fn_lookup_insert. done. }
  assert (Hltid : forall u, u ∈ t :: live -> ltid (threads (sched_add_created t c1) u) = ltid (threads c1 u)).
  { intros u [->|Hu]%elem_of_cons; [rewrite Et, Eth, fn_lookup_insert; done|].
    assert (u <> t) by congruence. rewrite Hoth, Eth, fn_lookup_insert_ne by done. done. }
  assert (Hlive : forall u, u ∈ live -> u <> t) by congruence.
  assert (Hports : forall u p, u ∈ live -> ports (db (sched_add_created t c1)) (ltid (threads c u)) p = ports (db c) (ltid (threads c u)) p).
  { intros u p Hu. rewrite Edb, set_port_other, Ep; [done|]. intros E. apply Hfree. rewrite <- E. apply ids_in. done. }
  assert (Hpt : port0 (db (sched_add_created t c1)) i = event_of t AddCreated) by (rewrite Edb; apply set_port_same).
  assert (Hq : rq (sched_add_created t c1) = rq c /\ nrs (sched_add_created t c1) = nrs c /\ thread_idle (sched_add_created t c1) = thread_idle c) by done.
  destruct Hq as (Eq' & En' & Ei'). set (c' := sched_add_created t c1) in *. clearbody c'.
  split; rewrite ?Eq', ?En', ?Ei'.
  - intros u [->|Hu]%elem_of_cons; [done|apply I; done].
  - intros u [->|Hu]%elem_of_cons; [rewrite Et; done|rewrite Hoth by auto; apply I; done].
  - destruct (inv_idle _ _ _ _ _ I) as [Hi1 Hi2]. rewrite not_elem_of_cons, Hoth by congruence. split; [split; [congruence|done]|done].
  - apply (db_ok_ltid (threads c1)); [done|]. apply (db_ok_ports _ (db c1) _ _ t); rewrite ?Edb; try done; [apply elem_of_cons; auto|].
    intros j p Hj. rewrite Eth, fn_lookup_insert in Hj. apply set_port_other. done.
  - destruct (inv_q _ _ _ _ _ I) as [Hnd Hl Hk Hp]. unfold qs in Hl. split; try done.
    + intros u Hu. apply elem_of_cons. auto.
    + intros u Hu. rewrite Hoth; [auto|]. apply Hlive, Hl. rewrite elem_of_app. auto.
    + intros u Hu. rewrite Hoth; [auto|]. apply Hlive, Hl. rewrite elem_of_app. auto.
  - destruct (inv_totals _ _ _ _ _ I) as [T1 T2].
    assert (Hnot : ~ added (threads c') (db c') t) by (unfold added; rewrite Et; cbn [ltid set_state set_ltid]; tauto).
    assert (Hadd : forall u, u ∈ live -> added (threads c') (db c') u <-> added (threads c) (db c) u).
    { intros u Hu. unfold added, port0. rewrite Hoth by auto. rewrite Hports by done. done. }
    split; rewrite filter_cons_False by tauto; [rewrite T1|rewrite T2]; f_equal; apply filter_same; intros u Hu; rewrite Hadd by done; [done|].
    rewrite Hoth by auto. done.
  - intros u Hu. apply elem_of_cons. right. apply (inv_cur _ _ _ _ _ I u Hu).
  - intros u Hu. apply elem_of_cons. right. apply (inv_aw _ _ _ _ _ I u Hu).
  - intros u [->|Hu]%elem_of_cons.
    + unfold in_place. rewrite Et. cbn [ltid state set_state set_ltid]. split; [exists AddCreated; split; [done|]|split].
      * unfold role. rewrite decide_False by (intros E; apply Ht, (inv_cur _ _ _ _ _ I t E)).
        rewrite !bool_decide_false; [|intros H; apply Ht; apply (q_live _ _ _ _ (inv_q _ _ _ _ _ I) t H)|intros H; apply Ht, (inv_aw _ _ _ _ _ I t H)].
        replace (thread_isWakeable _) with false by (rewrite <- Hwk; done). constructor.
      * left. rewrite Edb. unfold port1. rewrite set_port_port by done. rewrite Ep. exact Hp1.
      * rewrite <- Hcap. done.
    + apply (in_place_same (threads c) _ (rq c) _ (db c) _ cur _ com _ aw); try done; [rewrite Hoth by auto; done| | |apply I; done].
      * unfold port0. apply Hports. done.
      * unfold port1. apply Hports. done.
Qed.

(** ** The system *)

(** [awaited]: the threads that gave their address to a waker that has not come; [committed]: the current one did,
    and has not slept yet. *)
Record sys := Sys { cpu_of : cpu; live : list Z; awaited : list Z; committed : bool }.

Definition runs (c : cpu) : Prop := current_thread c <> thread_idle c /\ state (threads c (current_thread c)) = S_KERNEL.

Inductive step : sys -> sys -> Prop :=
| step_create c l a k t th r c1 : t ∉ l -> aligned t -> t <> thread_idle c -> new_thread th ->
    sched_register t (upd_thread t (fun _ => th) c) = Some (r, c1) ->
    step (Sys c l a k) (if r =? 0 then Sys (sched_add_created t c1) (t :: l) a k else Sys c1 l a k)
| step_arm c l a : runs c -> step (Sys c l a false) (Sys c l (current_thread c :: a) true)
| step_sleep c l a c' : sched_sleep (current_thread c) c = Some c' -> step (Sys c l a true) (Sys c' l a false)
| step_usleep c l a c' : runs c ->
    sched_sleep (current_thread c) (upd_thread (current_thread c) thread_set_cap_wakeup c) = Some c' ->
    step (Sys c l a false) (Sys c' l a false)
| step_resume c l a k : step (Sys c l a k) (Sys (sched_sleep_end (current_thread c) c) l a k)
| step_wake c l a k t : t ∈ a -> step (Sys c l a k) (Sys (sched_wakeup t c) l (filter (fun u => u <> t) a) k)
| step_uwake c l a k t : t ∈ l -> step (Sys c l a k) (Sys (thread_uwakeup t c) l a k)
| step_yield c l a c' : current_thread c = thread_idle c \/ runs c -> sched_yield (current_thread c) c = Some c' ->
    step (Sys c l a false) (Sys c' l a false)
| step_exit c l a c' : runs c -> sched_exit (current_thread c) c = Some c' ->
    step (Sys c l a false) (Sys c' (filter (fun u => u <> current_thread c) l) a false)
| step_remove c l a c' : runs c -> type (threads c (current_thread c)) = PTHREAD -> sched_remove (current_thread c) c = Some c' ->
    step (Sys c l a false) (Sys c' (filter (fun u => u <> current_thread c) l) a false)
| step_clock c l a k ld : step (Sys c l a k) (Sys (sched_clock ld (current_thread c) c) l a k)
| step_idle c l a k : step (Sys c l a k) (Sys (sched_idle c) l a k)
| step_enter c l a : current_thread c <> thread_idle c -> state (threads c (current_thread c)) = S_USR ->
    step (Sys c l a false) (Sys (upd_thread (current_thread c) (set_state S_KERNEL) c) l a false)
| step_leave c l a : runs c -> step (Sys c l a false) (Sys (upd_thread (current_thread c) (set_state S_USR) c) l a false).

Definition sys_inv (s : sys) : Prop :=
  inv (cpu_of s) (live s) (cur_of (cpu_of s)) (committed s) (awaited s) /\
  (committed s = true -> current_thread (cpu_of s) <> thread_idle (cpu_of s)).

(** A change of the place of a thread that leaves the queues as they are *)
Lemma inv_replace c c' l cur cur' com com' aw aw' t : inv c l cur com aw -> t ∈ l ->
  (forall u, u <> t -> threads c' u = threads c u) ->
  type (threads c' t) = type (threads c t) -> ltid (threads c' t) = ltid (threads c t) ->
  rq c' = rq c -> nrs c' = nrs c -> thread_idle c' = thread_idle c -> bitmap (db c') = bitmap (db c) -> next (db c') = next (db c) ->
  (forall i p, i <> ltid (threads c t) -> ports (db c') i p = ports (db c) i p) ->
  (added (threads c') (db c') t <-> added (threads c) (db c) t) ->
  (forall u, cur' = Some u -> u ∈ l) -> (forall u, u <> t -> role cur' com' u = role cur com u) ->
  (forall u, u ∈ aw' -> u ∈ l) -> (forall u, u <> t -> u ∈ aw' <-> u ∈ aw) ->
  in_place (threads c') (rq c) (db c') cur' com' aw' t -> inv c' l cur' com' aw'.
Proof.
  intros I Ht Hoth Hty Hlt Eq En Ei Eb Enx Hp Hadd Hcur Hrole Haw Haw' Hpl.
  assert (Hty' : forall u, type (threads c' u) = type (threads c u)).
  { intros u. destruct (decide (u = t)) as [->|]; [done|]. rewrite Hoth by done. done. }
  apply (inv_change c _ l cur _ com _ aw _ t); rewrite ?Eq; try done.
  - intros u Hu _. rewrite Hoth by done. done.
  - rewrite En. apply (q_ok_types (threads c)); [intros; apply Hty'|apply I].
  - apply (totals_same (threads c) _ (db c) _ (nrs c)); [apply I|intros; apply Hty'| |congruence..].
    intros u Hu. destruct (decide (u = t)) as [->|Hne]; [done|]. pose proof (live_other _ _ _ t u (inv_db _ _ _ _ _ I) Ht Hu Hne).
    unfold added, port0. rewrite Hoth, Hp by done. done.
Qed.

Lemma added_NoEvent th d t k : aligned t -> port0 d (ltid (th t)) = event_of t k -> k <> AddCreated -> added th d t.
Proof. intros Hal Hp Hk. unfold added. rewrite Hp. apply not_created; done. Qed.

(** [sched_wakeup] of a thread whose waker had not come *)
Lemma inv_wake c l cur com aw t : inv c l cur com aw -> t ∈ aw -> inv (sched_wakeup t c) l cur com (filter (fun u => u <> t) aw).
Proof.
  intros I Haw. pose proof (inv_aw _ _ _ _ _ I t Haw) as Ht. pose proof (inv_addr _ _ _ _ _ I t Ht) as Hal.
  destruct (inv_place _ _ _ _ _ I t Ht) as ((k & Hp0 & Hpl) & Hp1 & Hcap). rewrite bool_decide_true in Hpl by done.
  assert (Hpost : port0 (db (sched_wakeup t c)) (ltid (threads c t)) = event_of t Wakeup) by apply set_port_same.
  apply (inv_replace c _ l cur _ com _ aw _ t); try done.
  - intros i p Hi. apply set_port_other. done.
  - split; intros _; [|apply (added_NoEvent _ _ _ Wakeup); done]. apply (added_NoEvent _ _ _ k); [done..|]. inversion Hpl; congruence.
  - apply I.
  - intros u [_ Hu]%list_elem_of_filter. exact (inv_aw _ _ _ _ _ I u Hu).
  - intros u Hu. rewrite list_elem_of_filter. tauto.
  - split; [exists Wakeup; split; [done|]|split; [|done]].
    + change (threads (sched_wakeup t c) t) with (threads c t).
      rewrite bool_decide_false by (rewrite list_elem_of_filter; tauto). inversion Hpl; constructor.
    + unfold port1. cbn [db sched_wakeup sched_event_send upd_db fst snd sched_get_listner]. rewrite set_port_port by done. done.
Qed.

Lemma inv_uwake c l cur com aw t : inv c l cur com aw -> t ∈ l -> inv (thread_uwakeup t c) l cur com aw.
Proof.
  intros I Ht. destruct (inv_place _ _ _ _ _ I t Ht) as ((k & Hp0 & Hpl) & Hp1 & Hcap).
  assert (E0 : port0 (db (thread_uwakeup t c)) (ltid (threads c t)) = port0 (db c) (ltid (threads c t))) by (apply set_port_port; done).
  apply (inv_replace c _ l cur _ com _ aw _ t); try done; try apply I.
  - intros i p Hi. apply set_port_other. done.
  - unfold added. cbn [threads thread_uwakeup sched_event_send upd_db]. rewrite E0. done.
  - split; [exists k; split; [rewrite <- Hp0; exact E0|done]|split; [|done]]. right. apply set_port_same.
Qed.

(** ** Sleep *)

Lemma upd_thread_other t f c u : u <> t -> threads (upd_thread t f c) u = threads c u.
Proof. intros H. cbn. rewrite fn_lookup_insert_ne by done. done. Qed.
Lemma upd_thread_self t f c : threads (upd_thread t f c) t = f (threads c t).
Proof. cbn. rewrite fn_lookup_insert. done. Qed.

Lemma inv_sleep_committed c l aw t : inv c l (Some t) true aw -> current_thread c = t ->
  exists c', sched_sleep t c = Some c' /\ inv c' l (cur_of c') false aw.
Proof.
  intros I Hcur. pose proof (inv_cur _ _ _ _ _ I t eq_refl) as Ht. pose proof (inv_addr _ _ _ _ _ I t Ht) as Hal.
  destruct (inv_place _ _ _ _ _ I t Ht) as ((k & Hp0 & Hpl) & Hp1 & Hcap). rewrite role_self in Hpl.
  unfold sched_sleep. rewrite Hcap. unfold rr_sleep. set (c1 := upd_thread t (set_state S_WAIT) c).
  assert (I1 : inv c1 l None true aw).
  { apply (inv_replace c _ l (Some t) _ true _ aw _ t); try done; try apply I.
    - intros u Hu. apply upd_thread_other. done.
    - unfold c1. rewrite upd_thread_self. done.
    - unfold c1. rewrite upd_thread_self. done.
    - unfold added, c1. rewrite upd_thread_self. done.
    - intros u Hu. rewrite role_other by done. done.
    - unfold in_place, c1. rewrite upd_thread_self. cbn [state ltid set_state]. split; [exists k; split; [done|]|done].
      change (thread_isWakeable (set_state S_WAIT (threads c t))) with (thread_isWakeable (threads c t)).
      rewrite role_none. inversion Hpl; constructor. }
  destruct (inv_schedule c1 l None true aw t I1) as (c' & Es & I' & _); [done|right; auto|eauto].
Qed.

Lemma inv_sleep_user c l aw t : inv c l (Some t) false aw -> current_thread c = t -> state (threads c t) = S_KERNEL ->
  exists c', sched_sleep t (upd_thread t thread_set_cap_wakeup c) = Some c' /\ inv c' l (cur_of c') false aw.
Proof.
  intros I Hcur Hst. pose proof (inv_cur _ _ _ _ _ I t eq_refl) as Ht. pose proof (inv_addr _ _ _ _ _ I t Ht) as Hal.
  destruct (inv_place _ _ _ _ _ I t Ht) as ((k & Hp0 & Hpl) & Hp1 & Hcap). rewrite role_self, Hst in Hpl.
  unfold sched_sleep. rewrite upd_thread_self. unfold thread_isCapWakeup at 1, thread_set_cap_wakeup at 1. rewrite has_set_same by done.
  unfold rr_sleep. set (c1 := upd_thread t (set_state S_WAIT) _).
  assert (Et : threads c1 t = set_state S_WAIT (thread_set_wakeable (thread_set_cap_wakeup (threads c t)))).
  { unfold c1. rewrite !upd_thread_self. done. }
  assert (I1 : inv c1 l None false aw).
  { apply (inv_replace c _ l (Some t) _ false _ aw _ t); rewrite ?Et; try done; try apply I.
    - intros u Hu. unfold c1. rewrite !upd_thread_other by done. done.
    - unfold added. rewrite Et. done.
    - intros u Hu. rewrite role_other by done. done.
    - unfold in_place. rewrite Et. cbn [state ltid set_state]. split; [exists k; split; [done|]|split; [done|apply has_clear_same; done]].
      replace (thread_isWakeable _) with true.
      + rewrite role_none. inversion Hpl; constructor.
      + symmetry. unfold thread_isWakeable, thread_set_wakeable.
        transitivity (has_flag TH_CAN_WAKEUP (clear_flag TH_CAP_WAKEUP (set_flag TH_CAN_WAKEUP (thread_set_cap_wakeup (threads c t))))); [done|].
        rewrite has_clear_other, has_set_same by done. done. }
  destruct (inv_schedule c1 l None false aw t I1) as (c' & Es & I' & _); [done|right; auto|eauto].
Qed.

(** ** Steps *)

Lemma cur_of_run c l com aw : inv c l (cur_of c) com aw -> current_thread c <> thread_idle c -> cur_of c = Some (current_thread c) /\ current_thread c ∈ l.
Proof.
  intros I Hne. assert (E : cur_of c = Some (current_thread c)) by (unfold cur_of; rewrite decide_False by done; done).
  split; [done|]. apply (inv_cur _ _ _ _ _ I _ E).
Qed.

(** The running thread moves between user and kernel mode. *)
Lemma inv_mode c l aw t st : inv c l (Some t) false aw -> state (threads c t) = S_USR \/ state (threads c t) = S_KERNEL ->
  st = S_USR \/ st = S_KERNEL -> inv (upd_thread t (set_state st) c) l (Some t) false aw.
Proof.
  intros I Hst Hst'. pose proof (inv_cur _ _ _ _ _ I t eq_refl) as Ht.
  destruct (inv_place _ _ _ _ _ I t Ht) as ((k & Hp0 & Hpl) & Hp1 & Hcap). rewrite role_self in Hpl.
  apply (inv_replace c _ l (Some t) _ false _ aw _ t); rewrite ?upd_thread_self; try done; try apply I.
  - intros u Hu. rewrite upd_thread_other by done. done.
  - unfold added. rewrite upd_thread_self. done.
  - unfold in_place. rewrite upd_thread_self. cbn [state ltid set_state]. split; [exists k; split; [done|]|done].
    change (thread_isWakeable (set_state st (threads c t))) with (thread_isWakeable (threads c t)). rewrite role_self.
    destruct Hst as [E|E]; rewrite E in Hpl; inversion Hpl; destruct Hst' as [-> | ->]; constructor.
Qed.

#[local] Strategy expand [sched_yield].

Lemma balance_current this c : current_thread (rr_sched_load_balance this c) = current_thread c /\
  thread_idle (rr_sched_load_balance this c) = thread_idle c.
Proof.
  unfold rr_sched_load_balance. destruct (balance_scan _ _ _ _) as [[th v] m].
  destruct (_ && (_ || _)); [destruct (negb (v =? this))|]; done.
Qed.

Lemma clock_current ld this c : current_thread (sched_clock ld this c) = current_thread c /\
  thread_idle (sched_clock ld this c) = thread_idle c.
Proof.
  unfold sched_clock. set (c1 := if bool_decide _ then _ else _).
  assert (E1 : current_thread c1 = current_thread c /\ thread_idle c1 = thread_idle c) by (unfold c1; destruct (bool_decide _); done).
  destruct (notify_current c1) as [N1 N2]. rewrite <- (proj1 E1), <- (proj2 E1), <- N1, <- N2.
  generalize (sched_event_notify c1). clear. intros c. unfold rr_clock_balancing.
  assert (E : current_thread (rr_clock this c) = current_thread c /\ thread_idle (rr_clock this c) = thread_idle c).
  { unfold rr_clock. destruct (0 <? quantum _); destruct (_ && _); done. }
  rewrite <- (proj1 E), <- (proj2 E). generalize (rr_clock this c). clear. intros c.
  set (c1 := upd_rq _ c). set (c2 := if period _ <=? _ then _ else c1).
  assert (E : current_thread c2 = current_thread c /\ thread_idle c2 = thread_idle c).
  { unfold c2. destruct (period (rq c1) <=? clock_cntr (rq c1)); [|done].
    destruct (_ && (U_root ld <? 100)); [|done]. destruct (balance_current this (upd_rq (set_clock 0) c1)) as [-> ->]. done. }
  destruct ((0 <? rm_runnable (rq c2)) && _); done.
Qed.

Lemma cur_of_same c c' : current_thread c' = current_thread c -> thread_idle c' = thread_idle c -> cur_of c' = cur_of c.
Proof. intros E1 E2. unfold cur_of. rewrite E1, E2. done. Qed.

(** The current thread of a step that keeps it *)
Lemma sys_inv_keep c c' l' a' k : current_thread c' = current_thread c -> thread_idle c' = thread_idle c ->
  inv c' l' (cur_of c) k a' -> (k = true -> current_thread c <> thread_idle c) -> sys_inv (Sys c' l' a' k).
Proof. intros E1 E2 I Hk. split; cbn; [rewrite (cur_of_same c) by done; done|]. rewrite E1, E2. done. Qed.

Lemma inv_create c l a k t th : inv c l (cur_of c) k a -> t ∉ l -> aligned t -> t <> thread_idle c -> new_thread th ->
  exists r c1, sched_register t (upd_thread t (fun _ => th) c) = Some (r, c1) /\
    current_thread c1 = current_thread c /\ thread_idle c1 = thread_idle c /\
    (r = 0 /\ zlen l < SCHED_THREADS_NR /\ inv (sched_add_created t c1) (t :: l) (cur_of c) k a \/
     r = ERANGE /\ zlen l = SCHED_THREADS_NR /\ inv c1 l (cur_of c) k a).
Proof.
  intros I Ht Hal Hid Hnew. set (c0 := upd_thread t _ c).
  assert (Hoth : forall u, u <> t -> threads c0 u = threads c u) by (intros; apply upd_thread_other; done).
  assert (I0 : inv c0 l (cur_of c) k a).
  { apply (inv_frame c); try done. intros u Hu. rewrite Hoth; [done|]. destruct Hu; congruence. }
  destruct (register_ok c0 l t (inv_db _ _ _ _ _ I0) Ht) as (r & c1 & Er & E1 & E2 & E3 & E4 & E5 & Hr).
  exists r, c1. split; [done|]. split; [done|]. split; [done|].
  destruct Hr as [(-> & Hlen & Eth & D)|(-> & i & Eth & Hfree & Hlow & D)]; [right|left].
  - split_and!; try done. destruct I0. split; rewrite ?Eth, ?E1, ?E2, ?E3; try done.
    + rewrite <- Eth. done.
    + apply (totals_same (threads c0) _ (db c0) _ (nrs c0)); try done. intros u Hu. unfold added, port0. rewrite E5. done.
    + intros u Hu. eapply in_place_same; [..|apply inv_place; done]; try done; unfold port0, port1; rewrite E5; done.
  - split; [done|]. split.
    + pose proof (live_bound _ _ _ D) as Hb. rewrite zlen_cons in Hb. lia.
    + apply (inv_created c0 c1 l (cur_of c) k a t i th); try done.
      rewrite Eth. unfold c0. rewrite upd_thread_self. done.
Qed.

Lemma inv_arm c l aw t : inv c l (Some t) false aw -> state (threads c t) = S_KERNEL -> inv c l (Some t) true (t :: aw).
Proof.
  intros I Hst. pose proof (inv_cur _ _ _ _ _ I t eq_refl) as Ht.
  destruct (inv_place _ _ _ _ _ I t Ht) as ((k & Hp0 & Hpl) & Hp1 & Hcap). rewrite role_self, Hst in Hpl.
  apply (inv_replace c _ l (Some t) _ false _ aw _ t); try done; try apply I.
  - intros u Hu. rewrite !role_other by done. done.
  - intros u [->|Hu]%elem_of_cons; [done|]. exact (inv_aw _ _ _ _ _ I u Hu).
  - intros u Hu. rewrite elem_of_cons. tauto.
  - split; [exists k; split; [done|]|done]. rewrite role_self, Hst, bool_decide_true by (apply elem_of_cons; auto).
    inversion Hpl; constructor.
Qed.

(** The flag that [sched_sleep] clears when the thread runs again is clear already. *)
Lemma inv_resume c l k aw : inv c l (cur_of c) k aw -> inv (sched_sleep_end (current_thread c) c) l (cur_of c) k aw.
Proof.
  intros I. apply (inv_frame_live c); try done.
  - intros t Ht. unfold sched_sleep_end. destruct (decide (t = current_thread c)) as [->|Hne]; [|rewrite upd_thread_other by done; done].
    rewrite upd_thread_self. assert (Hid : current_thread c <> thread_idle c) by (intros E; apply (proj1 (inv_idle _ _ _ _ _ I)); congruence).
    destruct (cur_of_run _ _ _ _ I Hid) as [E _]. destruct (inv_place _ _ _ _ _ I _ Ht) as ((k' & _ & Hpl) & _).
    rewrite E, role_self in Hpl.
    assert (Hwk : thread_isWakeable (threads c (current_thread c)) = false) by (inversion Hpl; done).
    unfold core. unfold thread_isWakeable at 1, thread_isCapWakeup at 1, thread_clear_wakeable.
    rewrite has_clear_same, has_clear_other by done. rewrite Hwk. done.
  - unfold sched_sleep_end. destruct (decide (thread_idle c = current_thread c)) as [->|]; [rewrite upd_thread_self|rewrite upd_thread_other by done]; done.
Qed.

Lemma sched_inv_step s s' : sys_inv s -> step s s' -> sys_inv s'.
Proof.
  intros [I Hk] Hs. destruct Hs as [c l a k t th r c1 Ht Hal Hid Hnew Er|c l a Hr|c l a c' Es|c l a c' Hr Es|c l a k|c l a k t Ht|c l a k t Ht
    |c l a c' Hr Es|c l a c' Hr Es|c l a c' Hr Hty Es|c l a k ld|c l a k|c l a Hne Hst|c l a Hr]; cbn [cpu_of live awaited committed] in *.
  - destruct (inv_create c l a k t th I Ht Hal Hid Hnew) as (r' & c1' & Er' & E1 & E2 & Hr). simplify_eq.
    destruct Hr as [(-> & _ & I')|(-> & _ & I')]; cbn; eapply (sys_inv_keep c); done.
  - destruct Hr as [Hne Hst]. destruct (cur_of_run _ _ _ _ I Hne) as [E Ht]. split; cbn; [|done]. rewrite E in *. apply inv_arm; done.
  - destruct (cur_of_run _ _ _ _ I (Hk eq_refl)) as [E Ht]. rewrite E in I.
    destruct (inv_sleep_committed _ _ _ _ I eq_refl) as (c2 & Es' & I'). simplify_eq. split; done.
  - destruct Hr as [Hne Hst]. destruct (cur_of_run _ _ _ _ I Hne) as [E Ht]. rewrite E in I.
    destruct (inv_sleep_user _ _ _ _ I eq_refl Hst) as (c2 & Es' & I'). simplify_eq. split; done.
  - apply (sys_inv_keep c); try done. apply inv_resume; done.
  - apply (sys_inv_keep c); try done. apply inv_wake; done.
  - apply (sys_inv_keep c); try done. apply inv_uwake; done.
  - assert (Hl : leaving c l (cur_of c) false (current_thread c)).
    { destruct (decide (current_thread c = thread_idle c)) as [Ei|Ei].
      - right. unfold cur_of. rewrite decide_True by done. auto.
      - destruct Hr as [Hr|Hr]; [done|]. left. destruct (cur_of_run _ _ _ _ I Ei) as [E _]. split_and!; [done|done|apply Hr]. }
    destruct (inv_schedule _ _ _ _ _ _ I eq_refl Hl) as (c2 & Es' & I' & _). unfold sched_yield in Es. simplify_eq. split; done.
  - destruct Hr as [Hne Hst]. destruct (cur_of_run _ _ _ _ I Hne) as [E Ht]. rewrite E in I.
    destruct (inv_exit _ _ _ _ I eq_refl Hst) as (c2 & Es' & I'). simplify_eq. split; done.
  - destruct Hr as [Hne Hst]. destruct (cur_of_run _ _ _ _ I Hne) as [E Ht]. rewrite E in I.
    destruct (inv_remove _ _ _ _ I eq_refl Hst Hty) as (c2 & Es' & I'). simplify_eq. split; done.
  - destruct (clock_current ld (current_thread c) c) as [E1 E2]. exact (sys_inv_keep c _ _ _ _ E1 E2 (inv_clock _ _ _ _ _ _ _ I) Hk).
  - unfold sched_idle. destruct (notify_current c) as [E1 E2]. exact (sys_inv_keep c _ _ _ _ E1 E2 (inv_notify _ _ _ _ _ I) Hk).
  - destruct (cur_of_run _ _ _ _ I Hne) as [E Ht]. apply (sys_inv_keep c); try done. rewrite E in *. apply inv_mode; auto.
  - destruct Hr as [Hne Hst]. destruct (cur_of_run _ _ _ _ I Hne) as [E Ht]. apply (sys_inv_keep c); try done. rewrite E in *. apply inv_mode; auto.
Qed.

(** ** Reachable states *)

(** The threads of the processor when [sched_init] ends: the idle one runs. *)
Definition initial (th : Z -> thread) (idle : Z) (s : sys) : Prop :=
  exists c, sched_init true th idle = Some (inr c) /\ s = Sys c [] [] false.

Definition reachable (th : Z -> thread) (idle : Z) (s : sys) : Prop := exists s0, initial th idle s0 /\ rtc step s0 s.

Lemma sched_inv_initial th idle s : type (th idle) = TH_IDLE -> initial th idle s -> sys_inv s.
Proof.
  intros Hty (c & E & ->). apply (f_equal (fmap (fun r => match r with inl _ => None | inr c => Some c end))) in E.
  vm_compute in E. injection E as <-. split; [|done]. cbn [cpu_of live awaited committed].
  split; cbn; try (intros ? Hin; apply not_elem_of_nil in Hin; done).
  - split; [apply not_elem_of_nil|done].
  - split; cbn; try done.
    + constructor.
    + intros t Ht. apply not_elem_of_nil in Ht. done.
    + split; [|done]. split; [|done]. constructor; [vm_compute; split; congruence|constructor].
    + intros i Hi. split; [|intros Hin; apply not_elem_of_nil in Hin; done]. intros Hb. exfalso.
      assert (Hall : Forall (fun j => bit [4294967295] j = true) (seqZ 0 SCHED_THREADS_NR)) by (apply (bool_decide_eq_true _); vm_compute; done).
      rewrite Forall_forall in Hall. specialize (Hall i). rewrite elem_of_seqZ in Hall. specialize (Hall ltac:(lia)). congruence.
    + intros i Hi. lia.
  - split; cbn; try done; [constructor|intros t Ht; apply not_elem_of_nil in Ht; done..].
  - split; done.
  - unfold cur_of. rewrite decide_True by done. done.
Qed.

Lemma sched_reachable_inv th idle s : type (th idle) = TH_IDLE -> reachable th idle s -> sys_inv s.
Proof.
  intros Hty (s0 & H0 & Hs). apply (sched_inv_initial th idle) in H0; [|done]. revert H0. induction Hs as [|s1 s2 s3 Hs _ IH]; [done|].
  intros I. apply IH. eapply sched_inv_step; done.
Qed.

(** ** Delivery *)

(** The event of a thread was handled. *)
Definition delivered (c : cpu) (t : Z) : Prop :=
  port0 (db c) (ltid (threads c t)) = 0 /\ (thread_isWakeable (threads c t) = true -> port1 (db c) (ltid (threads c t)) = 0).

Lemma rr_wakeup_db t c : db (rr_wakeup t c) = db c.
Proof.
  unfold rr_wakeup. destruct (bool_decide (state _ = _)); [done|].
  set (c1 := upd_thread t _ c). destruct (enqueue_frame t c1) as (_ & E & _). destruct (bool_decide (type _ = _)); cbn [db upd_thread]; rewrite E; done.
Qed.

Lemma rr_add_created_db t c : db (rr_add_created t c) = db c.
Proof.
  unfold rr_add_created. destruct (enqueue_frame t (upd_nrs (add_total 1) c)) as (_ & E & _).
  destruct (bool_decide (type _ = _)); cbn [db upd_thread upd_nrs]; rewrite E; done.
Qed.

(** What the delivery of an event keeps of every thread *)
Definition ident (th : thread) := (ltid th, thread_isWakeable th).

Lemma upd_thread_ident t f c u : (forall th, ident (f th) = ident th) -> ident (threads (upd_thread t f c) u) = ident (threads c u).
Proof. intros Hf. destruct (decide (u = t)) as [->|]; [rewrite upd_thread_self; apply Hf|rewrite upd_thread_other; done]. Qed.

Lemma core_ident th th' : core th' = core th -> ident th' = ident th.
Proof. intros (_ & _ & E1 & E2 & _)%core_fields. unfold ident. rewrite E1, E2. done. Qed.

Lemma rr_wakeup_ident t c u : ident (threads (rr_wakeup t c) u) = ident (threads c u).
Proof.
  unfold rr_wakeup. destruct (bool_decide (state _ = _)); [done|]. set (c1 := upd_thread t _ c).
  assert (E1 : ident (threads c1 u) = ident (threads c u)) by (apply upd_thread_ident; done).
  destruct (enqueue_frame t c1) as (E & _). destruct (bool_decide (type _ = _)); [|rewrite E; done].
  rewrite upd_thread_ident, E by (intros; apply core_ident; core_tac). done.
Qed.

Lemma rr_add_created_ident t c u : ident (threads (rr_add_created t c) u) = ident (threads c u).
Proof.
  unfold rr_add_created. destruct (enqueue_frame t (upd_nrs (add_total 1) c)) as (E & _).
  destruct (bool_decide (type _ = _)); [rewrite E; done|].
  rewrite upd_thread_ident by (intros th; destruct (thread_isImported th); apply core_ident; core_tac).
  cbn [threads upd_nrs]. rewrite E. done.
Qed.

Lemma notify_thread_ltid c i u : ltid (threads (notify_thread c i) u) = ltid (threads c u).
Proof.
  assert (Hi : forall th th', ident th' = ident th -> ltid th' = ltid th) by (unfold ident; intros th th' E; injection E; done).
  assert (Hu : forall t f, (forall th, ltid (f th) = ltid th) -> ltid (threads (upd_thread t f c) u) = ltid (threads c u)).
  { intros t f Hf. destruct (decide (u = t)) as [->|]; [rewrite upd_thread_self; apply Hf|rewrite upd_thread_other; done]. }
  unfold notify_thread. cbv zeta.
  destruct (negb (Z.land (ports (db c) i (SCHED_PORT SCHED_OP_WAKEUP)) SCHED_OP_WAKEUP =? 0));
    [|destruct (negb (Z.land _ SCHED_OP_ADD_CREATED =? 0)); [|destruct (_ && _); [|done]]].
  - rewrite (Hi _ _ (rr_wakeup_ident _ _ u)). done.
  - rewrite (Hi _ _ (rr_add_created_ident _ _ u)). cbn [threads upd_db]. apply Hu. done.
  - rewrite (Hi _ _ (rr_wakeup_ident _ _ u)). cbn [threads upd_db]. apply Hu. done.
Qed.

(** One turn of the loop handles the port of one thread, *)
Lemma notify_thread_self c l cur com aw t : inv c l cur com aw -> t ∈ l ->
  delivered (notify_thread c (ltid (threads c t))) t.
Proof.
  intros I Ht. pose proof (inv_addr _ _ _ _ _ I t Ht) as Hal.
  destruct (inv_place _ _ _ _ _ I t Ht) as ((k & Hp0 & Hpl) & Hp1 & _). destruct (event_tests t k Hal) as (T1 & T2 & Et).
  assert (Hd : forall c', db c' = set_port (ltid (threads c t)) (SCHED_PORT SCHED_OP_WAKEUP) 0 (db c) ->
    ident (threads c' t) = ident (threads c t) -> thread_isWakeable (threads c t) = false -> delivered c' t).
  { intros c' Ed E Hwk. unfold delivered. unfold ident in E. injection E as E1 E2. rewrite E1, E2, Ed, Hwk. split; [apply set_port_same|done]. }
  unfold notify_thread. cbv zeta. change (SCHED_PORT SCHED_OP_ADD_CREATED) with (SCHED_PORT SCHED_OP_WAKEUP).
  fold (port0 (db c) (ltid (threads c t))). fold (port1 (db c) (ltid (threads c t))). rewrite Hp0, T1, T2. destruct k.
  - destruct Hp1 as [Hz|Hu].
    + rewrite Hz. split; done.
    + rewrite Hu. destruct (uwakeup_test t Hal) as [-> ->]. cbn [andb].
      destruct (thread_isWakeable (threads c t)) eqn:Hwk; [|split; [done|rewrite Hwk; done]].
      set (c' := rr_wakeup _ _). assert (E : ltid (threads c' t) = ltid (threads c t)).
      { pose proof (rr_wakeup_ident t (upd_db (set_port (ltid (threads c t)) (SCHED_PORT SCHED_OP_UWAKEUP) 0) (upd_thread t thread_clear_wakeable c)) t) as E.
        unfold ident in E. injection E as E _. unfold c'. rewrite E. cbn. rewrite fn_lookup_insert. done. }
      unfold delivered. rewrite E. unfold c'. rewrite rr_wakeup_db. split; [|intros _; apply set_port_same].
      unfold port0. cbn [db upd_db]. rewrite set_port_port by done. exact Hp0.
  - rewrite Et by done. apply Hd; [rewrite rr_wakeup_db; done|rewrite rr_wakeup_ident; done|inversion Hpl; done].
  - rewrite Et by done. apply Hd; [rewrite rr_add_created_db; done| |inversion Hpl; done].
    rewrite rr_add_created_ident. apply (upd_thread_ident t (set_state S_CREATE)). done.
Qed.

(** and leaves the other ones alone. *)
Lemma notify_thread_other c l cur com aw t i : inv c l cur com aw -> t ∈ l -> i <> ltid (threads c t) -> delivered c t ->
  ltid (threads (notify_thread c i) t) = ltid (threads c t) /\ delivered (notify_thread c i) t.
Proof.
  intros I Ht Hi Hdel.
  assert (Hd : forall c', (forall p, ports (db c') (ltid (threads c t)) p = ports (db c) (ltid (threads c t)) p) ->
    ident (threads c' t) = ident (threads c t) -> ltid (threads c' t) = ltid (threads c t) /\ delivered c' t).
  { intros c' Ed E. unfold ident in E. injection E as E1 E2. split; [done|]. unfold delivered, port0, port1. rewrite E1, E2, !Ed. exact Hdel. }
  unfold notify_thread. cbv zeta.
  destruct (negb (Z.land (ports (db c) i (SCHED_PORT SCHED_OP_WAKEUP)) SCHED_OP_WAKEUP =? 0)) eqn:B1;
    [|destruct (negb (Z.land _ SCHED_OP_ADD_CREATED =? 0)) eqn:B2; [|destruct (_ && _) eqn:B3; [|done]]]; apply Hd.
  - intros p. rewrite rr_wakeup_db. cbn [db upd_db]. apply set_port_other. done.
  - rewrite rr_wakeup_ident. done.
  - intros p. rewrite rr_add_created_db. cbn [db upd_db]. apply set_port_other. done.
  - rewrite rr_add_created_ident. apply (upd_thread_ident _ (set_state S_CREATE)). done.
  - intros p. rewrite rr_wakeup_db. cbn [db upd_db]. apply set_port_other. done.
  - rewrite rr_wakeup_ident. cbn [threads upd_db]. rewrite upd_thread_other; [done|]. apply andb_true_iff in B3 as [B3 _].
    destruct (decide (i ∈ ids (threads c) l)) as [Hin|Hin].
    + apply list_elem_of_fmap in Hin as (u & -> & Hu). pose proof (inv_addr _ _ _ _ _ I u Hu) as Hal.
      destruct (inv_place _ _ _ _ _ I u Hu) as (_ & Hp1 & _). unfold port1 in Hp1. destruct Hp1 as [Hp1|Hp1]; rewrite Hp1 in *; [done|].
      rewrite (proj2 (uwakeup_test u Hal)). congruence.
    + destruct (db_ports _ _ _ (inv_db _ _ _ _ _ I) i Hin) as [_ H1]. unfold port1 in H1. rewrite H1 in B3. done.
Qed.

Lemma notify_delivered c l cur com aw t : inv c l cur com aw -> t ∈ l -> delivered (sched_event_notify c) t.
Proof.
  intros I Ht. pose proof (db_range _ _ _ (inv_db _ _ _ _ _ I) t Ht) as Hr. unfold sched_event_notify.
  assert (Hin : ltid (threads c t) ∈ seqZ 0 SCHED_THREADS_NR) by (apply elem_of_seqZ; lia).
  pose proof (NoDup_seqZ 0 SCHED_THREADS_NR) as Hnd. revert Hin Hnd. generalize (seqZ 0 SCHED_THREADS_NR). clear Hr.
  assert (Hafter : forall k c, inv c l cur com aw -> delivered c t -> ltid (threads c t) ∉ k -> delivered (fold_left notify_thread k c) t).
  { clear c I. intros k. induction k as [|i k IH]; intros c I Hd Hk; cbn; [done|]. apply not_elem_of_cons in Hk as [Hi Hk].
    destruct (notify_thread_other c l cur com aw t i I Ht ltac:(congruence) Hd) as [E Hd'].
    apply IH; [apply inv_notify_thread; done|done|rewrite E; done]. }
  intros k. revert c I. induction k as [|i k IH]; intros c I Hin Hnd; [apply not_elem_of_nil in Hin; done|].
  apply NoDup_cons in Hnd as [Hi Hnd]. cbn. pose proof (inv_notify_thread _ _ _ _ _ i I) as I'.
  pose proof (notify_thread_ltid c i t) as El.
  apply elem_of_cons in Hin as [E|Hin].
  - apply Hafter; [done| |rewrite El, E; done]. rewrite <- E. eapply notify_thread_self; done.
  - apply IH; [done|rewrite El; done|done].
Qed.

(** ** The properties *)

(** C20: The queues and the counters are exact: in every reachable state no thread is queued twice, the queued ones are
    live, by type, the idle thread is in no queue, every counter of the scheduler is the number that it stands
    for (the three lengths of the queues, the ready kernel and user threads, and the live threads and user threads whose
    registration has been taken into account), and at most [SCHED_THREADS_NR] threads are live; and the operations of the current thread are defined:
    the election never takes the first thread of an empty queue. *)
Theorem sched_queues_exact th idle s : type (th idle) = TH_IDLE -> reachable th idle s ->
  let c := cpu_of s in let q := rq c in
  (NoDup (qs q) /\ (forall t, t ∈ qs q -> t ∈ live s) /\ thread_idle c ∉ qs q /\
   (forall t, t ∈ kthreads q -> type (threads c t) = KTHREAD) /\
   (forall t, t ∈ runnable q ++ migrate q -> type (threads c t) = PTHREAD)) /\
  (count q = zlen (qs q) /\ ru_runnable q = zlen (runnable q) /\ rm_runnable q = zlen (migrate q) /\
   k_runnable (nrs c) = zlen (kthreads q) /\ u_runnable (nrs c) = zlen (runnable q ++ migrate q) /\ sched_runnable_count c = zlen (qs q) /\
   total_nr (nrs c) = zlen (filter (added (threads c) (db c)) (live s)) /\ sched_alive_count c = total_nr (nrs c) /\
   user_nr (nrs c) = zlen (filter (fun t => type (threads c t) = PTHREAD /\ added (threads c) (db c) t) (live s)) /\
   zlen (live s) <= SCHED_THREADS_NR) /\
  (committed s = true -> is_Some (sched_sleep (current_thread c) c)) /\
  (committed s = false -> runs c -> is_Some (sched_yield (current_thread c) c) /\ is_Some (sched_exit (current_thread c) c)).
Proof.
  intros Hty Hr. destruct (sched_reachable_inv th idle s Hty Hr) as [I Hk]. destruct s as [c l a k]. cbn [cpu_of live awaited committed] in *. cbv zeta.
  destruct (inv_q _ _ _ _ _ I) as [Q1 Q2 Q3 Q4 Q5 Q6 Q7 Q8 Q9]. split; [|split; [|split]].
  - split_and!; try done. intros Hin. apply (proj1 (inv_idle _ _ _ _ _ I)). auto.
  - split_and!; try done.
    + unfold sched_runnable_count, qs. rewrite Q8, Q9, !zlen_app. lia.
    + apply (tot_total _ _ _ _ (inv_totals _ _ _ _ _ I)).
    + apply (tot_user _ _ _ _ (inv_totals _ _ _ _ _ I)).
    + eapply live_bound. apply I.
  - intros ->. destruct (cur_of_run _ _ _ _ I (Hk eq_refl)) as [E _]. rewrite E in I.
    destruct (inv_sleep_committed _ _ _ _ I eq_refl) as (c' & -> & _). eauto.
  - intros -> [Hne Hst]. destruct (cur_of_run _ _ _ _ I Hne) as [E _]. rewrite E in I. split.
    + destruct (inv_schedule c l _ _ _ (current_thread c) I eq_refl) as (c' & Es & _); [left; done|]. exists c'. exact Es.
    + destruct (inv_exit _ _ _ _ I eq_refl Hst) as (c' & -> & _). eauto.
Qed.

(** C19: No wake-up is lost: in every reachable state, a live thread that does not run waits for a waker that has not come,
    or sleeps in [sys_thread_sleep] and nobody asked to wake it, or is in a queue as soon as the events are
    delivered ([sched_event_notify], at the next tick, election or turn of the idle loop).  This covers the
    wake-up that comes between the registration of a thread in a wait queue and its [sched_sleep], on any
    processor. *)
Theorem sched_no_lost_wakeup th idle s t : type (th idle) = TH_IDLE -> reachable th idle s ->
  t ∈ live s -> t <> current_thread (cpu_of s) ->
  let c' := sched_event_notify (cpu_of s) in
  (t ∈ awaited s /\ state (threads c' t) = S_WAIT) \/
  (t ∉ awaited s /\ thread_isWakeable (threads c' t) = true /\ state (threads c' t) = S_WAIT /\ port1 (db c') (ltid (threads c' t)) = 0) \/
  (t ∉ awaited s /\ t ∈ qs (rq c')).
Proof.
  intros Hty Hr Ht Hne. destruct (sched_reachable_inv th idle s Hty Hr) as [I _]. destruct s as [c l a k]. cbn [cpu_of live awaited committed] in *.
  pose proof (notify_delivered _ _ _ _ _ t I Ht) as [D0 D1]. apply inv_notify in I.
  revert I D0 D1. generalize (sched_event_notify c). intros c' I D0 D1. cbv zeta.
  destruct (inv_place _ _ _ _ _ I t Ht) as ((k' & Hp0 & Hpl) & _). rewrite D0 in Hp0.
  assert (Hk : k' = NoEvent) by (apply (event_of_inj t); [exact (inv_addr _ _ _ _ _ I t Ht)|rewrite <- Hp0; done]). subst k'.
  assert (Hrole : role (cur_of c) k t = None) by (unfold cur_of; destruct (decide _); [done|apply role_other; done]).
  rewrite Hrole in Hpl. place_inv Hpl; auto 6. right. left. split_and!; auto.
Qed.

(** Identifiers: in every reachable state the live threads of a processor have different identifiers below
    [SCHED_THREADS_NR], hence ports of their own, and [sched_register] gives a new thread the least identifier that
    is free; it fails with [ERANGE] exactly when [SCHED_THREADS_NR] threads are live. *)
Theorem sched_register_ids th idle s t d : type (th idle) = TH_IDLE -> reachable th idle s ->
  t ∉ live s -> let c := upd_thread t (fun _ => d) (cpu_of s) in
  (forall u v, u ∈ live s -> v ∈ live s -> u <> v -> ltid (threads (cpu_of s) u) <> ltid (threads (cpu_of s) v)) /\
  (forall u, u ∈ live s -> 0 <= ltid (threads (cpu_of s) u) < SCHED_THREADS_NR) /\
  exists r c', sched_register t c = Some (r, c') /\
    (r = ERANGE /\ zlen (live s) = SCHED_THREADS_NR \/
     r = 0 /\ zlen (live s) < SCHED_THREADS_NR /\ ltid (threads c' t) ∉ ids (threads (cpu_of s)) (live s) /\
       forall j, 0 <= j < ltid (threads c' t) -> j ∈ ids (threads (cpu_of s)) (live s)).
Proof.
  intros Hty Hr Ht. destruct (sched_reachable_inv th idle s Hty Hr) as [I _]. destruct s as [c l a k]. cbn [cpu_of live awaited committed] in *. cbv zeta.
  pose proof (inv_db _ _ _ _ _ I) as D. split; [intros u v Hu Hv Hne; eapply live_other; done|]. split; [apply D|].
  set (c0 := upd_thread t _ c). assert (Hoth : forall u, u ∈ l -> threads c0 u = threads c u) by (intros u Hu; apply upd_thread_other; congruence).
  assert (D0 : db_ok (threads c0) (db c0) l) by (apply (db_ok_ltid (threads c)); [intros u Hu; rewrite Hoth; done|done]).
  assert (Hids : ids (threads c0) l = ids (threads c) l).
  { apply list_fmap_ext. intros i u Hu. rewrite Hoth; [done|]. eapply list_elem_of_lookup_2; done. }
  destruct (register_ok c0 l t D0 Ht) as (r & c1 & Er & _ & _ & _ & _ & _ & Hcase). exists r, c1. split; [done|]. rewrite Hids in Hcase.
  destruct Hcase as [(-> & Hl & _)|(-> & i & Eth & Hfree & Hlow & D1)]; [left; done|right].
  rewrite Eth, fn_lookup_insert. split_and!; try done. pose proof (live_bound _ _ _ D1) as Hb. rewrite zlen_cons in Hb. lia.
Qed.

(** ** Round robin *)

(** [t] runs in the kernel, the user threads of [l] are ready in this order, and nothing else happens: no
    event, no thread of the kernel, no migration. *)
Record turn (c : cpu) (t : Z) (l : list Z) : Prop := {
  turn_current : current_thread c = t;
  turn_state : state (threads c t) = S_KERNEL;
  turn_type : forall u, u ∈ t :: l -> type (threads c u) = PTHREAD;
  turn_ready : forall u, u ∈ l -> state (threads c u) = S_READY;
  turn_forced : thread_isForcedYield (threads c t) = false;
  turn_nodup : NoDup (t :: l);
  turn_queues : kthreads (rq c) = [] /\ migrate (rq c) = [] /\ runnable (rq c) = l;
  turn_count : count (rq c) = zlen l /\ zlen l < 2 ^ 31;
  turn_ports : forall i, port0 (db c) i = 0 /\ port1 (db c) i = 0;
}.

Fixpoint yields (n : nat) (c : cpu) : option cpu :=
  match n with O => Some c | S n => c ← sched_yield (current_thread c) c; yields n c end.

Lemma yields_S n c : yields (S n) c = (c ← sched_yield (current_thread c) c; yields n c).
Proof. done. Qed.

Lemma notify_quiescent c : (forall i, port0 (db c) i = 0 /\ port1 (db c) i = 0) -> sched_event_notify c = c.
Proof.
  intros Hp. unfold sched_event_notify. generalize (seqZ 0 SCHED_THREADS_NR) as k. intros k.
  induction k as [|i k IH]; cbn [fold_left]; [done|]. replace (notify_thread c i) with c; [done|].
  destruct (Hp i) as [H0 H1]. unfold notify_thread. cbv zeta. change (SCHED_PORT SCHED_OP_ADD_CREATED) with (SCHED_PORT SCHED_OP_WAKEUP).
  fold (port0 (db c) i). fold (port1 (db c) i). rewrite H0, H1. done.
Qed.

Lemma dispatch_ready this e c : e <> this -> state (threads c e) <> S_CREATE -> state (threads c this) <> S_DEAD ->
  dispatch this (Some e) c = set_current e (upd_thread e (fun th => set_state S_KERNEL (set_sched_nr (u32 (sched_nr th + 1)) th)) (set_active true c)).
Proof.
  intros H1 H2 H3. unfold dispatch. cbn [threads set_active]. rewrite (bool_decide_false (state (threads c this) = S_DEAD)) by done.
  rewrite (proj2 (Z.eqb_neq e this)) by done. cbn [negb threads set_active]. rewrite bool_decide_false by done. done.
Qed.

(** A yield gives the processor to the first ready thread, and the queue to the one that ran. *)
Lemma yield_turn c t u l : turn c t (u :: l) -> exists c', sched_yield t c = Some c' /\ turn c' u (l ++ [t]).
Proof.
  intros [T1 T2 T3 T4 T5 T6 (T7 & T8 & T9) [T10 T11] T12]. unfold sched_yield, schedule. rewrite notify_quiescent by done.
  assert (Htu : t <> u /\ t ∉ l /\ u ∉ l /\ NoDup l).
  { apply NoDup_cons in T6 as [H1 H2]. apply NoDup_cons in H2 as [H2 H3]. rewrite elem_of_cons in H1. split_and!; tauto || (intros ->; tauto). }
  destruct Htu as (Htu & Htl & Hul & Hnd).
  pose proof (requeue_run t c T2 (or_introl (T3 t (proj2 (elem_of_cons _ _ _) (or_introl eq_refl))))) as R.
  unfold rr_elect_balancing. rewrite T1.
  destruct R as [R1 R2 R3 R4 R5 _ R7 [R8 _] R9]. set (c0 := requeue t c) in *. clearbody c0.
  destruct R9 as [(Hbad & _)|(_ & Rk & Rr & _)]; [rewrite T3 in Hbad by (apply elem_of_cons; auto); done|].
  rewrite T5, T9 in Rr. rewrite T7 in Rk. rewrite T8 in R8. rewrite T10, zlen_cons in R7. pose proof (zlen_nonneg l).
  rewrite zlen_cons in T11. rewrite u32_small in R7 by (unfold is_u32; lia).
  rewrite R7, (proj2 (Z.ltb_lt 0 _)) by lia. unfold take_first. rewrite Rk, R8, Rr. cbn [app mbind option_bind].
  destruct (core_fields _ _ R2) as (Est & Ety & _). cbn in Est, Ety.
  assert (Eu : threads c0 u = threads c u) by (apply R1; congruence).
  set (c1 := upd_thread u _ _). assert (Ec1 : threads c1 u = thread_clear_forced_yield (thread_sched_deactivate (threads c0 u))) by apply upd_thread_self.
  assert (Eo1 : forall v, v <> u -> threads c1 v = threads c0 v) by (intros; unfold c1; rewrite upd_thread_other by done; done).
  rewrite dispatch_ready; [|congruence|rewrite Ec1; cbn; rewrite Eu, T4 by (apply elem_of_cons; auto); done|rewrite Eo1, Est by congruence; done].
  eexists. split; [reflexivity|]. set (f := fun th => set_state S_KERNEL _).
  set (c' := set_current u _). assert (Eu' : threads c' u = f (threads c1 u)) by exact (upd_thread_self u f (set_active true c1)).
  assert (Eo : forall v, v <> u -> threads c' v = threads c0 v) by (intros v Hv; rewrite <- Eo1 by done; exact (upd_thread_other u f (set_active true c1) v Hv)).
  assert (Hlt : forall v, v ∈ l -> threads c' v = threads c v) by (intros v Hv; rewrite Eo, R1 by congruence; done).
  split; try done.
  - rewrite Eu'. done.
  - intros v. rewrite elem_of_cons, elem_of_app, list_elem_of_singleton. intros [->|[Hv| ->]].
    + rewrite Eu', Ec1, Eu. cbn. apply T3. rewrite !elem_of_cons. auto.
    + rewrite Hlt by done. apply T3. rewrite !elem_of_cons. auto.
    + rewrite Eo, Ety by congruence. apply T3. apply elem_of_cons. auto.
  - intros v. rewrite elem_of_app, list_elem_of_singleton. intros [Hv| ->].
    + rewrite Hlt by done. apply T4. apply elem_of_cons. auto.
    + rewrite Eo by congruence. done.
  - rewrite Eu', Ec1. unfold thread_isForcedYield, f. transitivity (has_flag TH_FORCED_YIELD (thread_clear_forced_yield (thread_sched_deactivate (threads c0 u)))); [done|].
    apply has_clear_same. done.
  - apply NoDup_cons. rewrite elem_of_app, list_elem_of_singleton. split; [intros [?|?]; [done|congruence]|].
    rewrite (Permutation_app_comm l [t]). apply NoDup_cons. done.
  - change (count (rq c')) with (u32 (count (rq c0) - 1)). rewrite R7, zlen_app. change (zlen [t]) with 1. rewrite u32_small by (unfold is_u32; lia). lia.
  - intros i. change (db c') with (db c0). rewrite R3. apply T12.
Qed.

(** C21: User threads that yield to each other take turns, as long as nothing else happens on the processor: no kernel thread is ready (kernel
    threads are always elected first, also one that just yielded), no event waits in the ports of the scheduler, no thread waits in the queue of the
    migrations, and the running thread was not forced to yield (a forced thread goes back to the head of the queue).  Then a ready
    user thread with [n] threads before it in the queue runs after [n + 1] yields, each of the threads before it has run once in between, and the
    threads that ran wait behind the ones that did not. *)
Theorem sched_round_robin c t l1 u l2 : turn c t (l1 ++ u :: l2) ->
  exists c', yields (S (length l1)) c = Some c' /\ turn c' u (l2 ++ t :: l1).
Proof.
  revert c t l2. induction l1 as [|v l1 IH]; intros c t l2 T.
  - destruct (yield_turn c t u l2 T) as (c' & E & T'). exists c'. rewrite yields_S, (turn_current _ _ _ T), E. done.
  - destruct (yield_turn c t v (l1 ++ u :: l2) T) as (c1 & E & T1). rewrite <- app_assoc in T1. cbn in T1.
    destruct (IH c1 v (l2 ++ [t]) T1) as (c' & E' & T'). exists c'. rewrite <- app_assoc in T'. split; [|done].
    rewrite yields_S, (turn_current _ _ _ T), E. exact E'.
Qed.

(** ** Runs *)

Inductive cmd := CCreate (t : Z) (ty : thread_type) | CEnter | CArm | CSleep | CWake (t : Z) | CYield | CIdle.

(** A descriptor fresh from [thread_create] *)
Definition fresh_thread (ty : thread_type) : thread := Thread S_CREATE ty 0 RR_QUANTUM 0 0 0 0 0 (Some SCHED_RR).

#[export] Instance aligned_dec t : Decision (aligned t).
Proof. unfold aligned. apply _. Defined.
#[export] Instance runs_dec c : Decision (runs c).
Proof. unfold runs. apply _. Defined.

Definition exec1 (s : sys) (m : cmd) : option sys :=
  let 'Sys c l a k := s in
  match m with
  | CCreate t ty =>
      if decide (t ∉ l /\ aligned t /\ t <> thread_idle c /\ (ty = PTHREAD \/ ty = KTHREAD)) then
        '(r, c1) ← sched_register t (upd_thread t (fun _ => fresh_thread ty) c);
        Some (if r =? 0 then Sys (sched_add_created t c1) (t :: l) a k else Sys c1 l a k)
      else None
  | CEnter =>
      if decide (current_thread c <> thread_idle c /\ state (threads c (current_thread c)) = S_USR /\ k = false) then
        Some (Sys (upd_thread (current_thread c) (set_state S_KERNEL) c) l a false)
      else None
  | CArm => if decide (runs c /\ k = false) then Some (Sys c l (current_thread c :: a) true) else None
  | CSleep => if k then c' ← sched_sleep (current_thread c) c; Some (Sys c' l a false) else None
  | CWake t => if decide (t ∈ a) then Some (Sys (sched_wakeup t c) l (filter (fun u => u <> t) a) k) else None
  | CYield =>
      if decide ((current_thread c = thread_idle c \/ runs c) /\ k = false) then
        c' ← sched_yield (current_thread c) c; Some (Sys c' l a false)
      else None
  | CIdle => Some (Sys (sched_idle c) l a k)
  end.

Fixpoint exec (s : sys) (l : list cmd) : option sys :=
  match l with [] => Some s | m :: l => s ← exec1 s m; exec s l end.

Lemma exec1_step s m s' : exec1 s m = Some s' -> step s s'.
Proof.
  destruct s as [c l a k], m as [t ty| | | |t| |]; unfold exec1; intros H.
  - destruct (decide _) as [(H1 & H2 & H3 & H4)|]; [|done]. apply bind_Some in H as ([r c1] & Er & H). injection H as <-.
    eapply step_create; try done. split; done.
  - destruct (decide _) as [(H1 & H2 & ->)|]; [|done]. injection H as <-. apply step_enter; done.
  - destruct (decide _) as [(H1 & ->)|]; [|done]. injection H as <-. apply step_arm; done.
  - destruct k; [|done]. apply bind_Some in H as (c' & Es & H). injection H as <-. apply step_sleep; done.
  - destruct (decide _) as [H1|]; [|done]. injection H as <-. apply step_wake; done.
  - destruct (decide _) as [(H1 & ->)|]; [|done]. apply bind_Some in H as (c' & Es & H). injection H as <-. apply step_yield; done.
  - injection H as <-. apply step_idle.
Qed.

Lemma exec_reachable th idle s s' l : reachable th idle s -> exec s l = Some s' -> reachable th idle s'.
Proof.
  revert s. induction l as [|m l IH]; intros s (s0 & H0 & Hs) E; [injection E as <-; exists s0; done|].
  cbn [exec] in E. apply bind_Some in E as (s1 & E1 & E2). apply (IH s1); [|done]. exists s0. split; [done|].
  eapply rtc_r; [done|]. apply (exec1_step s m). done.
Qed.

(** A processor with its idle thread at 4096, on which a user thread at 8192 and a kernel thread at 12288 are created;
    both run and sleep, and the waker of the user thread comes. *)
Definition demo_threads : Z -> thread := fun t => fresh_thread (if t =? 4096 then TH_IDLE else PTHREAD).
Definition demo_start : sys :=
  Sys (Cpu demo_threads rr_sched_init (Counters 0 0 0 0) (SchedDb [4294967295] 0 (fun _ _ => 0)) 4096 4096 true []) [] [] false.
Definition demo_run : list cmd :=
  [CCreate 8192 PTHREAD; CIdle; CCreate 12288 KTHREAD; CYield; CArm; CSleep; CEnter; CArm; CSleep; CWake 8192].

Lemma demo_start_reachable : reachable demo_threads 4096 demo_start.
Proof. exists demo_start. split; [|apply rtc_refl]. eexists. split; reflexivity. Qed.

Lemma demo_reaches l : (if exec demo_start l then true else false) = true -> exists s, exec demo_start l = Some s /\ reachable demo_threads 4096 s.
Proof.
  destruct (exec demo_start l) as [s|] eqn:E; [|done]. intros _. exists s. split; [done|].
  eapply exec_reachable; [apply demo_start_reachable|done].
Qed.

Lemma sched_queues_exact_witness : exists s, exec demo_start demo_run = Some s /\
  total_nr (nrs (cpu_of s)) = zlen (filter (added (threads (cpu_of s)) (db (cpu_of s))) (live s)) /\ count (rq (cpu_of s)) = zlen (qs (rq (cpu_of s))) /\
  user_nr (nrs (cpu_of s)) = zlen (filter (fun t => type (threads (cpu_of s) t) = PTHREAD /\ added (threads (cpu_of s)) (db (cpu_of s)) t) (live s)).
Proof.
  destruct (demo_reaches demo_run) as (s & E & Hr); [vm_compute; reflexivity|]. exists s. split; [exact E|].
  destruct (sched_queues_exact demo_threads 4096 s) as (_ & (H1 & _ & _ & _ & _ & _ & H2 & _ & H3 & _) & _); [reflexivity|exact Hr|]. split; [exact H2|]. split; [exact H1|exact H3].
Defined.

Lemma sched_no_lost_wakeup_witness : exists s, exec demo_start demo_run = Some s /\ awaited s = [12288] /\
  8192 ∈ qs (rq (sched_event_notify (cpu_of s))).
Proof.
  destruct (demo_reaches demo_run) as (s & E & Hr); [vm_compute; reflexivity|]. exists s. split; [exact E|].
  assert (V : forall {A} (f : sys -> A) (x : A), f <$> exec demo_start demo_run = Some x -> f s = x) by (intros A f x V; rewrite E in V; exact (Some_inj _ _ V)).
  pose proof (V _ live [12288; 8192] ltac:(vm_compute; reflexivity)) as V1.
  pose proof (V _ awaited [12288] ltac:(vm_compute; reflexivity)) as V2.
  pose proof (V _ (fun s => current_thread (cpu_of s)) 4096 ltac:(vm_compute; reflexivity)) as V3.
  pose proof (V _ (fun s => thread_isWakeable (threads (sched_event_notify (cpu_of s)) 8192)) false ltac:(vm_compute; reflexivity)) as V4.
  clear V. split; [exact V2|].
  cbv beta in V3, V4.
  assert (H1 : 8192 ∈ live s) by (rewrite V1; apply elem_of_cons; right; apply elem_of_cons; left; reflexivity).
  assert (H2 : 8192 <> current_thread (cpu_of s)) by (rewrite V3; discriminate).
  assert (H3 : 8192 ∉ awaited s) by (rewrite V2; intros H; apply list_elem_of_singleton in H; discriminate).
  destruct (sched_no_lost_wakeup demo_threads 4096 s 8192 eq_refl Hr H1 H2) as [[Ha _]|[(_ & Hw & _)|[_ Hq]]].
  - exact (False_ind _ (H3 Ha)).
  - rewrite V4 in Hw. discriminate.
  - exact Hq.
Defined.

Lemma sched_register_ids_witness : exists s r c', exec demo_start demo_run = Some s /\
  sched_register 16384 (upd_thread 16384 (fun _ => fresh_thread PTHREAD) (cpu_of s)) = Some (r, c') /\ (r = ERANGE \/ r = 0).
Proof.
  destruct (demo_reaches demo_run) as (s & E & Hr); [vm_compute; reflexivity|].
  assert (V : live <$> exec demo_start demo_run = Some [12288; 8192]) by (vm_compute; reflexivity).
  rewrite E in V. cbn [fmap option_fmap option_map] in V. injection V as V.
  destruct (sched_register_ids demo_threads 4096 s 16384 (fresh_thread PTHREAD)) as (_ & _ & r & c' & Er & Hc); [reflexivity|exact Hr|rewrite V; intros H; rewrite !elem_of_cons, elem_of_nil in H; lia|].
  exists s, r, c'. split; [exact E|]. split; [exact Er|]. destruct Hc as [[-> _]|[-> _]]; [left|right]; reflexivity.
Defined.

(** Three user threads that share a processor *)
Definition demo_turn : cpu :=
  Cpu (fun t => if t =? 8192 then set_state S_KERNEL (fresh_thread PTHREAD) else set_state S_READY (fresh_thread PTHREAD))
    (RQueues 2 0 16 2 0 [] [12288; 16384] []) (Counters 3 3 2 0) (SchedDb [0] 3 (fun _ _ => 0)) 8192 4096 true [].

Lemma sched_round_robin_witness : exists c', yields 2 demo_turn = Some c' /\ current_thread c' = 16384.
Proof.
  destruct (sched_round_robin demo_turn 8192 [12288] 16384 []) as (c' & E & T).
  - split; try reflexivity.
    + intros u Hu. cbn. destruct (u =? 8192); reflexivity.
    + intros u Hu. assert (u = 12288 \/ u = 16384) as [->| ->] by set_solver; reflexivity.
    + apply (bool_decide_eq_true _). vm_compute. reflexivity.
    + split; [reflexivity|split; reflexivity].
    + split; [reflexivity|vm_compute; reflexivity].
    + intros i. split; reflexivity.
  - exists c'. split; [exact E|]. apply (turn_current _ _ _ T).
Defined.

(** The election without balance of the load, [rr_elect], does not count a user thread that it puts back in the queue, but
    counts it out when it elects it: the counter of the ready threads goes below 0 at the first yield of a thread
    that is alone. *)
Theorem rr_elect_counter_drifts : exists c c', rr_elect c = Some (Some 8192, c') /\
  runnable (rq c) = [] /\ ru_runnable (rq c) = 0 /\ runnable (rq c') = [] /\ ru_runnable (rq c') = 2 ^ 32 - 1.
Proof.
  exists (upd_rq (fun _ => rr_sched_init) demo_turn). eexists. split; [reflexivity|]. split_and!; reflexivity.
Qed.
