(* ===== verification/Ring.v ===== *)
(** * Ring: circular buffers

    What the lock-free FIFO ([kfifo.c]) and the byte channel ([mwmr.c]) have in common: a
    table of which [n] consecutive cells, starting at a cell [rd] and wrapping around at [size],
    hold the elements of a queue, the oldest first. *)

From S2P Require Import Prelude.

(** The cell [i] places after cell [rd]. *)
Definition ring_idx (size rd i : Z) : Z := (rd + i) mod size.

(** The [size] first cells of [t] hold the queue [l], whose first element is in cell [rd]. *)
Definition ring_rep {A} (size : Z) (t : list A) (rd : Z) (l : list A) : Prop :=
  forall i, 0 <= i < zlen l -> zget t (ring_idx size rd i) = zget l i.

Lemma mod_once a s : 0 < s -> 0 <= a < 2 * s -> a mod s = if a <? s then a else a - s.
Proof.
  intros. zcases; [apply Z.mod_small; lia|].
  rewrite <- (Z.mod_small (a - s) s) by lia. symmetry. apply Z.mod_unique with (q := (a - s) / s + 1).
  - left. apply Z.mod_pos_bound. lia.
  - pose proof (Z.div_mod (a - s) s). lia.
Qed.

Lemma mod_neg a s : 0 < s -> - s <= a < 0 -> a mod s = a + s.
Proof. intros. symmetry. apply Z.mod_unique with (q := -1); lia. Qed.

(** Successor of a cell, as the sources compute it on unsigned integers. *)
Lemma ring_succ s w : 0 < s < 2 ^ 32 -> 0 <= w < s ->
  (w +! 1) mod s = if w + 1 <? s then w + 1 else 0.
Proof.
  intros. rewrite u32_small by (unfold is_u32; lia). rewrite mod_once by lia. zcases; lia.
Qed.

Section Rings.
Context {A : Type}.
Implicit Types (t l : list A) (x : A).

Lemma zget_app_l l1 (l2 : list A) i : 0 <= i < zlen l1 -> zget (l1 ++ l2) i = zget l1 i.
Proof. intros. unfold zget, zlen in *. apply lookup_app_l. lia. Qed.

Lemma zget_snoc l x : zget (l ++ [x]) (zlen l) = Some x.
Proof. unfold zget, zlen. rewrite Nat2Z.id. apply list_lookup_middle. done. Qed.

Lemma zget_cons_succ l x i : 0 <= i -> zget (x :: l) (i + 1) = zget l i.
Proof. intros. unfold zget. replace (Z.to_nat (i + 1)) with (S (Z.to_nat i)) by lia. done. Qed.

Lemma ring_nil s t rd : ring_rep s t rd [].
Proof. intros i. unfold zlen. simpl. lia. Qed.

(** A write into the first cell that is not part of the queue extends the queue; the cell is
    published by a later change of the write index. *)
Lemma ring_push s t rd l x : 0 < s -> 0 <= rd < s -> zlen l < s ->
  ring_rep s t rd l -> zget t (ring_idx s rd (zlen l)) = Some x -> ring_rep s t rd (l ++ [x]).
Proof.
  intros ? ? ? Hr Hx i Hi. rewrite zlen_app, zlen_cons in Hi. unfold zlen at 2 in Hi. simpl in Hi.
  destruct (decide (i = zlen l)) as [->|].
  - rewrite zget_snoc. done.
  - rewrite zget_app_l by lia. apply Hr. lia.
Qed.

Lemma ring_store s t rd l x : 0 < s -> 0 <= rd < s -> zlen l < s ->
  ring_rep s t rd l -> ring_rep s (zset t (ring_idx s rd (zlen l)) x) rd l.
Proof.
  intros ? ? ? Hr i Hi. rewrite <- Hr by lia. pose proof (zlen_nonneg l).
  unfold ring_idx. rewrite !mod_once by lia.
  apply zget_zset_ne; zcases; lia.
Qed.

Lemma ring_pop s t rd l x : 0 < s -> 0 <= rd < s -> zlen l < s ->
  ring_rep s t rd (x :: l) -> zget t rd = Some x /\ ring_rep s t ((rd + 1) mod s) l.
Proof.
  intros ? ? ? Hr. pose proof (zlen_nonneg l). split.
  - specialize (Hr 0). unfold ring_idx in Hr. rewrite Z.add_0_r, Z.mod_small in Hr by lia.
    apply Hr. rewrite zlen_cons. lia.
  - intros i Hi. rewrite <- (zget_cons_succ l x) by lia. rewrite <- Hr by (rewrite zlen_cons; lia).
    unfold ring_idx. f_equal. rewrite Zplus_mod_idemp_l. f_equal. lia.
Qed.

(** The elements a queue holds are determined by the table. *)
Lemma ring_cell s t rd l i : ring_rep s t rd l -> 0 <= i < zlen l ->
  exists x, zget t (ring_idx s rd i) = Some x /\ zget l i = Some x.
Proof. intros Hr Hi. destruct (zget_is_Some l i Hi) as [x Hx]. exists x. rewrite Hr by lia. done. Qed.
End Rings.
