(* ===== verification/Kfifo.v ===== *)
(** * Kfifo: the lock-free FIFO of [kernel/kern/kfifo.c] and [kfifo.h]

    [single_put], [multi_put], [single_get] and [multi_get] as whole functions, and the same
    code cut at each access to the shared indexes and to the table, so that a producer and a
    consumer can interleave there.  The memory is sequentially consistent: the code puts a
    barrier between the store of an element and the store of the index that publishes it. *)

From S2P Require Import Prelude Ring.

Definition KFIFO_NA : Z := 0x0.
Definition KFIFO_MW : Z := 0x1.
Definition KFIFO_MR : Z := 0x2.
Definition KFIFO_MWMR : Z := 0x3.
Definition KFIFO_MASK : Z := 0x3.

Inductive access := Single | Multi.

(** [struct kfifo_s]; the two function pointers of [ops] have two possible values each. *)
Record kfifo_s := Kfifo {
  wridx : Z;
  rdidx : Z;
  op_put : access;
  op_get : access;
  size : Z;
  tbl : list Z;
}.

Definition set_wridx (f : kfifo_s) (w : Z) : kfifo_s :=
  Kfifo w (rdidx f) (op_put f) (op_get f) (size f) (tbl f).
Definition set_rdidx (f : kfifo_s) (r : Z) : kfifo_s :=
  Kfifo (wridx f) r (op_put f) (op_get f) (size f) (tbl f).
Definition set_tbl (f : kfifo_s) (i v : Z) : kfifo_s :=
  Kfifo (wridx f) (rdidx f) (op_put f) (op_get f) (size f) (zset (tbl f) i v).

(** ** Whole operations, without interference *)

Definition single_put (f : kfifo_s) (val : Z) : Z * kfifo_s :=
  let w := wridx f in
  if (w +! 1) mod size f =? rdidx f then (EAGAIN, f)
  else (0, set_wridx (set_tbl f w val) ((w +! 1) mod size f)).

(** Without interference the compare-and-swap succeeds at the first try. *)
Definition multi_put (f : kfifo_s) (val : Z) : Z * kfifo_s :=
  let w := wridx f in
  if (w +! 1) mod size f =? rdidx f then (EAGAIN, f)
  else (0, set_tbl (set_wridx f ((w +! 1) mod size f)) w val).

(** [None] for the value: [*val] is not assigned. *)
Definition single_get (f : kfifo_s) : Z * option Z * kfifo_s :=
  let r := rdidx f in
  if r =? wridx f then (EAGAIN, None, f)
  else (0, zget (tbl f) r, set_rdidx f ((r +! 1) mod size f)).
Definition multi_get (f : kfifo_s) : Z * option Z * kfifo_s :=
  let r := rdidx f in
  if r =? wridx f then (EAGAIN, None, f)
  else (0, zget (tbl f) r, set_rdidx f ((r +! 1) mod size f)).

Definition kfifo_put (f : kfifo_s) (val : Z) : Z * kfifo_s :=
  match op_put f with Single => single_put f val | Multi => multi_put f val end.
Definition kfifo_get (f : kfifo_s) : Z * option Z * kfifo_s :=
  match op_get f with Single => single_get f | Multi => multi_get f end.

Definition kfifo_isEmpty (f : kfifo_s) : bool := rdidx f =? wridx f.
Definition kfifo_isFull (f : kfifo_s) : bool := wridx f =? (rdidx f +! 1) mod size f.

(** [kfifo_init]: [mem] is what [kmem_alloc] gives for a request of so many bytes, the cells of
    the table. *)
Definition kfifo_init (f : kfifo_s) (sz mode : Z) (mem : Z -> option (list Z)) : Z * kfifo_s :=
  match mem (4 *! sz) with
  | None => (ENOMEM, f)
  | Some t =>
      let mode := Z.land mode KFIFO_MASK in
      (0, Kfifo 0 0 (if negb (Z.land mode KFIFO_MW =? 0) then Multi else Single)
                    (if negb (Z.land mode KFIFO_MR =? 0) then Multi else Single) sz t)
  end.

(** [kfifo_destroy]: the size and the pointer of the request that is freed. *)
Definition kfifo_destroy (f : kfifo_s) : Z * list Z := (size f, tbl f).

(** ** The operations cut at their shared accesses *)

Definition threshold : Z := 10000.

(** Where a call to [put] is: before the load of [wridx], before the load of [rdidx], before
    the compare-and-swap ([multi_put]), before the store into the table, before the store of
    [wridx] ([single_put]), after the return. *)
Inductive put_pc :=
  | PutReadW (cntr : Z) | PutReadR (cntr w : Z) | PutCas (cntr w : Z)
  | PutStore (w : Z) | PutPublish (w : Z) | PutDone (err : Z).

Definition put_step (f : kfifo_s) (val : Z) (p : put_pc) : kfifo_s * put_pc :=
  match p with
  | PutReadW c => (f, PutReadR c (wridx f))
  | PutReadR c w =>
      if (w +! 1) mod size f =? rdidx f then (f, PutDone EAGAIN)
      else (f, match op_put f with Single => PutStore w | Multi => PutCas c w end)
  | PutCas c w =>
      let isAtomic := wridx f =? w in
      let f := if isAtomic then set_wridx f ((w +! 1) mod size f) else f in
      if c =? threshold then (f, PutDone EBUSY)
      else (f, if isAtomic then PutStore w else PutReadW (c + 1))
  | PutStore w =>
      (set_tbl f w val, match op_put f with Single => PutPublish w | Multi => PutDone 0 end)
  | PutPublish w => (set_wridx f ((w +! 1) mod size f), PutDone 0)
  | PutDone e => (f, PutDone e)
  end.

Inductive get_pc :=
  | GetReadR (cntr : Z) | GetReadW (cntr r : Z) | GetLoad (cntr r : Z)
  | GetCas (cntr r : Z) (val : option Z) | GetPublish (r : Z) (val : option Z)
  | GetDone (err : Z) (val : option Z).

Definition get_step (f : kfifo_s) (p : get_pc) : kfifo_s * get_pc :=
  match p with
  | GetReadR c => (f, GetReadW c (rdidx f))
  | GetReadW c r => if r =? wridx f then (f, GetDone EAGAIN None) else (f, GetLoad c r)
  | GetLoad c r =>
      let v := zget (tbl f) r in
      (f, match op_get f with Single => GetPublish r v | Multi => GetCas c r v end)
  | GetCas c r v =>
      let isAtomic := rdidx f =? r in
      let f := if isAtomic then set_rdidx f ((r +! 1) mod size f) else f in
      if c =? threshold then (f, GetDone EBUSY v)
      else (f, if isAtomic then GetDone 0 v else GetReadR (c + 1))
  | GetPublish r v => (set_rdidx f ((r +! 1) mod size f), GetDone 0 v)
  | GetDone e v => (f, GetDone e v)
  end.

Fixpoint put_run (n : nat) (f : kfifo_s) (val : Z) (p : put_pc) : kfifo_s * put_pc :=
  match n with O => (f, p) | S n => let '(f, p) := put_step f val p in put_run n f val p end.
Fixpoint get_run (n : nat) (f : kfifo_s) (p : get_pc) : kfifo_s * get_pc :=
  match n with O => (f, p) | S n => let '(f, p) := get_step f p in get_run n f p end.

(** ** Any number of threads that put and get *)

Record sys := Sys {
  fifo : kfifo_s;
  puts : gmap Z (Z * put_pc);
  gets : gmap Z get_pc;
  sent : list Z;
  received : list Z;
}.

(** [sent] records an element when its index is published, [received] when the read index
    passes it. *)
Definition publishes (f f' : kfifo_s) : bool := negb (wridx f =? wridx f').
Definition consumes (f f' : kfifo_s) : bool := negb (rdidx f =? rdidx f').
Definition got (p : get_pc) : list Z :=
  match p with GetDone 0 (Some v) => [v] | _ => [] end.

Inductive step : sys -> sys -> Prop :=
| step_put s t val f' p p' : puts s !! t = Some (val, p) -> put_step (fifo s) val p = (f', p') ->
    step s (Sys f' (<[t := (val, p')]> (puts s)) (gets s)
                (if publishes (fifo s) f' then sent s ++ [val] else sent s) (received s))
| step_get s t f' p p' : gets s !! t = Some p -> get_step (fifo s) p = (f', p') ->
    step s (Sys f' (puts s) (<[t := p']> (gets s)) (sent s)
                (if consumes (fifo s) f' then received s ++ got p' else received s))
| step_call_put s t val val' e : puts s !! t = Some (val, PutDone e) ->
    step s (Sys (fifo s) (<[t := (val', PutReadW 0)]> (puts s)) (gets s) (sent s) (received s))
| step_call_get s t e v : gets s !! t = Some (GetDone e v) ->
    step s (Sys (fifo s) (puts s) (<[t := GetReadR 0]> (gets s)) (sent s) (received s)).

Definition fresh (f : kfifo_s) (producers consumers : list Z) : sys :=
  Sys f (list_to_map ((fun t => (t, (0, PutDone 0))) <$> producers))
        (list_to_map ((fun t => (t, GetDone 0 None)) <$> consumers)) [] [].

(** ** The queue a FIFO holds *)

(** [f] holds the queue [q]: at most [size f - 1] elements. *)
Definition holds (f : kfifo_s) (q : list Z) : Prop :=
  0 < size f < 2 ^ 32 /\ zlen (tbl f) = size f /\ 0 <= rdidx f < size f /\
  zlen q < size f /\ wridx f = ring_idx (size f) (rdidx f) (zlen q) /\
  ring_rep (size f) (tbl f) (rdidx f) q.

(** A call to [put] of the only producer, in a FIFO that holds [q]. *)
Definition put_local (f : kfifo_s) (q : list Z) (val : Z) (p : put_pc) : Prop :=
  match p with
  | PutReadW _ | PutDone _ => True
  | PutReadR _ w => w = wridx f
  | PutCas _ _ => False
  | PutStore w => w = wridx f /\ zlen q + 1 < size f
  | PutPublish w => w = wridx f /\ zlen q + 1 < size f /\ zget (tbl f) w = Some val
  end.

(** A call to [get] of the only consumer. *)
Definition get_local (f : kfifo_s) (q : list Z) (p : get_pc) : Prop :=
  match p with
  | GetReadR _ | GetDone _ _ => True
  | GetReadW _ r => r = rdidx f
  | GetCas _ _ _ => False
  | GetLoad _ r => r = rdidx f /\ q <> []
  | GetPublish r v => r = rdidx f /\ exists x q', q = x :: q' /\ v = Some x
  end.

Section Queue.
Implicit Types (f : kfifo_s) (q : list Z).

Lemma holds_wridx f q : holds f q -> 0 <= wridx f < size f.
Proof. intros (?&?&?&?&->&?). unfold ring_idx. apply Z.mod_pos_bound. lia. Qed.

(** The test of [put] is exact. *)
Lemma holds_full f q : holds f q ->
  ((wridx f +! 1) mod size f =? rdidx f) = (zlen q + 1 =? size f).
Proof.
  intros Hh. pose proof (holds_wridx f q Hh). destruct Hh as (?&?&?&?&Hw&?).
  pose proof (zlen_nonneg q). rewrite ring_succ by lia.
  unfold ring_idx in Hw. rewrite mod_once in Hw by lia.
  destruct (Z.ltb_spec (wridx f + 1) (size f)), (Z.ltb_spec (rdidx f + zlen q) (size f)); zcases; lia.
Qed.

(** So is the test of [get]. *)
Lemma holds_empty f q : holds f q -> (rdidx f =? wridx f) = bool_decide (q = []).
Proof.
  intros (?&?&?&?&Hw&?). pose proof (zlen_nonneg q).
  unfold ring_idx in Hw. rewrite mod_once in Hw by lia.
  destruct q as [|x q].
  - rewrite bool_decide_true by done. unfold zlen in Hw. simpl in Hw. revert Hw. zcases; lia.
  - rewrite bool_decide_false by done. rewrite zlen_cons in *. pose proof (zlen_nonneg q).
    revert Hw. zcases; lia.
Qed.

Lemma holds_store f q v : holds f q ->
  holds (set_tbl f (wridx f) v) q /\ zget (tbl (set_tbl f (wridx f) v)) (wridx f) = Some v.
Proof.
  intros Hh. pose proof (holds_wridx f q Hh) as Hw. destruct Hh as (?&?&?&?&Hi&?). split.
  - unfold holds. cbn. rewrite zlen_zset. split_and!; try lia; try done. rewrite Hi.
    apply ring_store; first [done|lia].
  - cbn. apply zget_zset_eq. lia.
Qed.

Lemma holds_publish f q v : holds f q -> zlen q + 1 < size f ->
  zget (tbl f) (wridx f) = Some v -> holds (set_wridx f ((wridx f +! 1) mod size f)) (q ++ [v]).
Proof.
  intros Hh Hlt Hv. pose proof (holds_wridx f q Hh). destruct Hh as (?&?&?&?&Hi&?).
  pose proof (zlen_nonneg q). assert (zlen (q ++ [v]) = zlen q + 1) as E by (rewrite zlen_app; done).
  unfold holds. cbn. rewrite E. split_and!; try done; try lia.
  - rewrite u32_small by (unfold is_u32; lia). rewrite Hi. unfold ring_idx.
    rewrite Zplus_mod_idemp_l. f_equal. lia.
  - apply ring_push; [lia..|done|]. rewrite <- Hi. done.
Qed.

Lemma holds_consume f x q : holds f (x :: q) ->
  zget (tbl f) (rdidx f) = Some x /\ holds (set_rdidx f ((rdidx f +! 1) mod size f)) q.
Proof.
  intros (?&?&?&Hl&Hi&Hr). rewrite zlen_cons in *. pose proof (zlen_nonneg q).
  apply ring_pop in Hr as [Hx Hr]; [|lia..]. split; [done|].
  unfold holds. cbn. rewrite u32_small by (unfold is_u32; lia). split_and!; try done; try lia.
  - apply Z.mod_pos_bound. lia.
  - apply Z.mod_pos_bound. lia.
  - rewrite Hi. unfold ring_idx. rewrite Zplus_mod_idemp_l. f_equal. lia.
Qed.

(** An element is published and consumed by a change of its index. *)
Lemma publish_changes f q : holds f q -> zlen q + 1 < size f ->
  publishes f (set_wridx f ((wridx f +! 1) mod size f)) = true.
Proof.
  intros Hh ?. pose proof (holds_wridx f q Hh). destruct Hh as (?&_). pose proof (zlen_nonneg q).
  unfold publishes. cbn. rewrite ring_succ by lia.
  destruct (Z.ltb_spec (wridx f + 1) (size f)); zcases; lia.
Qed.
Lemma consume_changes f x q : holds f (x :: q) ->
  consumes f (set_rdidx f ((rdidx f +! 1) mod size f)) = true.
Proof.
  intros (?&?&?&Hl&_). rewrite zlen_cons in Hl. pose proof (zlen_nonneg q).
  unfold consumes. cbn. rewrite ring_succ by lia.
  destruct (Z.ltb_spec (rdidx f + 1) (size f)); zcases; lia.
Qed.
Lemma publishes_refl f f' : wridx f' = wridx f -> publishes f f' = false.
Proof. unfold publishes. intros ->. rewrite Z.eqb_refl. done. Qed.
Lemma consumes_refl f f' : rdidx f' = rdidx f -> consumes f f' = false.
Proof. unfold consumes. intros ->. rewrite Z.eqb_refl. done. Qed.
End Queue.

(** ** One producer and one consumer *)

Record swsr (sz tp tc : Z) (s : sys) (q : list Z) (val : Z) (pp : put_pc) (gp : get_pc) : Prop := {
  swsr_puts : puts s = {[tp := (val, pp)]};
  swsr_gets : gets s = {[tc := gp]};
  swsr_modes : op_put (fifo s) = Single /\ op_get (fifo s) = Single;
  swsr_size : size (fifo s) = sz;
  swsr_holds : holds (fifo s) q;
  swsr_sent : sent s = received s ++ q;
  swsr_put : put_local (fifo s) q val pp;
  swsr_get : get_local (fifo s) q gp;
}.

Lemma swsr_put_step sz tp tc s q val pp gp f' pp' : swsr sz tp tc s q val pp gp ->
  put_step (fifo s) val pp = (f', pp') ->
  exists q', swsr sz tp tc
    (Sys f' (<[tp := (val, pp')]> (puts s)) (gets s)
         (if publishes (fifo s) f' then sent s ++ [val] else sent s) (received s)) q' val pp' gp.
Proof.
  intros [Hp Hg [Hm1 Hm2] Hz Hh Hs Hpl Hgl] E.
  assert (Hk : publishes (fifo s) (fifo s) = false) by (apply publishes_refl; done).
  destruct pp as [c|c w|c w|w|w|e]; cbn in E, Hpl; try done.
  - simplify_eq. exists q. split; cbn; rewrite ?Hk, ?Hp, ?insert_singleton_eq; done.
  - subst w. rewrite (holds_full _ q Hh), Hm1 in E.
    destruct (Z.eqb_spec (zlen q + 1) (size (fifo s))); simplify_eq;
      exists q; split; cbn; rewrite ?Hk, ?Hp, ?insert_singleton_eq; try done.
    destruct Hh as (?&?&?&?&?&?). split; [done|lia].
  - destruct Hpl as [-> Hlt]. rewrite Hm1 in E. simplify_eq.
    destruct (holds_store _ q val Hh) as [Hh' Hv].
    exists q. split; cbn; rewrite ?publishes_refl, ?Hp, ?insert_singleton_eq; try done.
  - destruct Hpl as (-> & Hlt & Hv). simplify_eq.
    exists (q ++ [val]). split; cbn; rewrite ?(publish_changes _ q Hh Hlt), ?Hp, ?insert_singleton_eq; try done.
    + apply holds_publish; done.
    + rewrite Hs, (assoc_L (++)). done.
    + destruct gp; try done; cbn in Hgl.
      * destruct Hgl. split; [done|]. destruct q; done.
      * destruct Hgl as (?&x&q'&->&?). split; [done|]. exists x, (q' ++ [val]). done.
  - simplify_eq. exists q. split; cbn; rewrite ?Hk, ?Hp, ?insert_singleton_eq; done.
Qed.

Lemma put_local_pop f x q val r pp : put_local f (x :: q) val pp ->
  put_local (set_rdidx f r) q val pp.
Proof.
  destruct pp; cbn; rewrite ?zlen_cons; try done.
  - intros [-> ?]. split; [done|lia].
  - intros (-> & ? & ?). split_and!; [done|lia|done].
Qed.

Lemma swsr_get_step sz tp tc s q val pp gp f' gp' : swsr sz tp tc s q val pp gp ->
  get_step (fifo s) gp = (f', gp') ->
  exists q', swsr sz tp tc
    (Sys f' (puts s) (<[tc := gp']> (gets s)) (sent s)
         (if consumes (fifo s) f' then received s ++ got gp' else received s)) q' val pp gp'.
Proof.
  intros [Hp Hg [Hm1 Hm2] Hz Hh Hs Hpl Hgl] E.
  assert (Hk : consumes (fifo s) (fifo s) = false) by (apply consumes_refl; done).
  destruct gp as [c|c r|c r|c r v|r v|e v]; cbn in E, Hgl; try done.
  - simplify_eq. exists q. split; cbn; rewrite ?Hk, ?Hg, ?insert_singleton_eq; done.
  - subst r. rewrite (holds_empty _ q Hh) in E.
    case_bool_decide; injection E as <- <-;
      exists q; split; cbn; rewrite ?Hk, ?Hg, ?insert_singleton_eq; done.
  - destruct Hgl as [-> Hq]. rewrite Hm2 in E. simplify_eq. destruct q as [|x q]; [done|].
    destruct (holds_consume _ x q Hh) as [Hx _].
    exists (x :: q). split; cbn; rewrite ?Hk, ?Hg, ?insert_singleton_eq; try done.
    split; [done|]. exists x, q. done.
  - destruct Hgl as (-> & x & q' & -> & ->). simplify_eq.
    destruct (holds_consume _ x q' Hh) as [Hx Hh'].
    exists q'. split; cbn; rewrite ?(consume_changes _ x q' Hh), ?Hg, ?insert_singleton_eq; try done.
    + rewrite Hs, <- (assoc_L (++)). done.
    + apply put_local_pop with x. done.
  - simplify_eq. exists q. split; cbn; rewrite ?Hk, ?Hg, ?insert_singleton_eq; done.
Qed.

Lemma swsr_step sz tp tc s q val pp gp s' : swsr sz tp tc s q val pp gp -> step s s' ->
  exists q' val' pp' gp', swsr sz tp tc s' q' val' pp' gp'.
Proof.
  intros I Hst. pose proof (swsr_puts _ _ _ _ _ _ _ _ I) as Hp. pose proof (swsr_gets _ _ _ _ _ _ _ _ I) as Hg.
  destruct Hst as [s t v f' p p' Ht E|s t f' p p' Ht E|s t v v' e Ht|s t e v Ht];
    rewrite ?Hp, ?Hg in Ht; apply lookup_singleton_Some in Ht as [<- [=]]; subst.
  - destruct (swsr_put_step _ _ _ _ _ _ _ _ _ _ I E) as [q' I']. eauto.
  - destruct (swsr_get_step _ _ _ _ _ _ _ _ _ _ I E) as [q' I']. eauto.
  - exists q, v', (PutReadW 0), gp. destruct I. split; cbn; rewrite ?Hp, ?insert_singleton_eq; done.
  - exists q, val, pp, (GetReadR 0). destruct I. split; cbn; rewrite ?Hg, ?insert_singleton_eq; done.
Qed.

Lemma swsr_fresh tp tc f : holds f [] -> op_put f = Single -> op_get f = Single ->
  swsr (size f) tp tc (fresh f [tp] [tc]) [] 0 (PutDone 0) (GetDone 0 None).
Proof. intros. split; cbn; rewrite ?insert_empty; done. Qed.

Lemma swsr_reach sz tp tc s q val pp gp s' : swsr sz tp tc s q val pp gp -> rtc step s s' ->
  exists q' val' pp' gp', swsr sz tp tc s' q' val' pp' gp'.
Proof.
  intros I H. revert q val pp gp I. induction H as [|s1 s2 s3 Hst _ IH]; intros q val pp gp I.
  - eauto 10.
  - destruct (swsr_step _ _ _ _ _ _ _ _ _ I Hst) as (q2&v2&p2&g2&I2). eauto.
Qed.

(** C35: one producer and one consumer may interleave their loads and stores in any way: the
    elements received, in order, followed by those still in the table, are exactly the elements
    sent, in order; the table never holds more than [size - 1] of them; [put] answers [EAGAIN]
    exactly when the table is full, and [get] exactly when it is empty, at the moment of the
    load of the other side's index. *)
Theorem kfifo_swsr_fifo (f : kfifo_s) (tp tc : Z) (s : sys) :
  holds f [] -> op_put f = Single -> op_get f = Single -> rtc step (fresh f [tp] [tc]) s ->
  exists q, holds (fifo s) q /\ size (fifo s) = size f /\ sent s = received s ++ q /\
    (forall val c w, puts s !! tp = Some (val, PutReadR c w) ->
       (put_step (fifo s) val (PutReadR c w)).2 = PutDone EAGAIN <-> zlen q + 1 = size f) /\
    (forall c r, gets s !! tc = Some (GetReadW c r) ->
       (get_step (fifo s) (GetReadW c r)).2 = GetDone EAGAIN None <-> q = []).
Proof.
  intros Hh Hp Hg Hr. eapply swsr_reach in Hr as (q&val&pp&gp&I); [|apply swsr_fresh; done].
  destruct I as [Hps Hgs [Hm1 Hm2] Hsz Hh' Hs Hpl Hgl]. exists q. split_and!; try done.
  - intros v c w Ht. rewrite Hps, lookup_singleton_eq in Ht. simplify_eq. cbn in Hpl. subst w. cbn.
    rewrite (holds_full _ q Hh'), Hm1. destruct (Z.eqb_spec (zlen q + 1) (size (fifo s))); cbn; intuition congruence.
  - intros c r Ht. rewrite Hgs, lookup_singleton_eq in Ht. simplify_eq. cbn in Hgl. subst r. cbn.
    rewrite (holds_empty _ q Hh'). case_bool_decide; cbn; intuition congruence.
Qed.

Definition small_fifo (p g : access) : kfifo_s := Kfifo 0 0 p g 4 [0; 0; 0; 0].

Lemma small_holds p g : holds (small_fifo p g) [].
Proof. unfold holds. cbn. split_and!; try lia; try done. apply ring_nil. Qed.

(** Concrete executions: a schedule of calls and steps. *)
Inductive action := CallPut (t val : Z) | CallGet (t : Z) | DoPut (t : Z) | DoGet (t : Z).

Definition act (s : sys) (a : action) : option sys :=
  match a with
  | CallPut t val =>
      '(_, p) ← puts s !! t;
      match p with
      | PutDone _ => Some (Sys (fifo s) (<[t := (val, PutReadW 0)]> (puts s)) (gets s) (sent s) (received s))
      | _ => None
      end
  | CallGet t =>
      p ← gets s !! t;
      match p with
      | GetDone _ _ => Some (Sys (fifo s) (puts s) (<[t := GetReadR 0]> (gets s)) (sent s) (received s))
      | _ => None
      end
  | DoPut t =>
      '(val, p) ← puts s !! t;
      let '(f', p') := put_step (fifo s) val p in
      Some (Sys f' (<[t := (val, p')]> (puts s)) (gets s)
                (if publishes (fifo s) f' then sent s ++ [val] else sent s) (received s))
  | DoGet t =>
      p ← gets s !! t;
      let '(f', p') := get_step (fifo s) p in
      Some (Sys f' (puts s) (<[t := p']> (gets s)) (sent s)
                (if consumes (fifo s) f' then received s ++ got p' else received s))
  end.

Fixpoint schedule (s : sys) (l : list action) : option sys :=
  match l with [] => Some s | a :: l => s ← act s a; schedule s l end.

Lemma act_step s a s' : act s a = Some s' -> step s s'.
Proof.
  destruct a as [t val|t|t|t]; cbn; intros H.
  - destruct (puts s !! t) as [[v []]|] eqn:E; simplify_eq/=. eapply step_call_put; done.
  - destruct (gets s !! t) as [[]|] eqn:E; simplify_eq/=. eapply step_call_get; done.
  - destruct (puts s !! t) as [[v p]|] eqn:E; simplify_eq/=.
    destruct (put_step (fifo s) v p) eqn:Ep. simplify_eq. eapply step_put; done.
  - destruct (gets s !! t) as [p|] eqn:E; simplify_eq/=.
    destruct (get_step (fifo s) p) eqn:Ep. simplify_eq. eapply step_get; done.
Qed.

Lemma schedule_steps l s s' : schedule s l = Some s' -> rtc step s s'.
Proof.
  revert s. induction l as [|a l IH]; intros s H; simplify_eq/=; [apply rtc_refl|].
  destruct (act s a) as [s1|] eqn:E; simplify_eq/=. eapply rtc_l; [eapply act_step, E|]. apply IH, H.
Qed.

(** The producer puts 7 and has loaded the index of the second put, of 8; the consumer takes 7 in between. *)
Definition demo_actions : list action :=
  [CallPut 1 7; DoPut 1; DoPut 1; CallGet 2; DoPut 1; DoPut 1; DoPut 1; DoGet 2; DoGet 2; CallPut 1 8; DoPut 1; DoGet 2; DoGet 2; DoGet 2].
Definition demo_sys : sys := default (fresh (small_fifo Single Single) [1] [2]) (schedule (fresh (small_fifo Single Single) [1] [2]) demo_actions).

Lemma kfifo_swsr_fifo_witness : sent demo_sys = [7] /\ received demo_sys = [7] /\
  (exists c w, puts demo_sys !! 1 = Some (8, PutReadR c w)) /\
  exists q, holds (fifo demo_sys) q /\ q = [] /\
    (forall c w, puts demo_sys !! 1 = Some (8, PutReadR c w) -> (put_step (fifo demo_sys) 8 (PutReadR c w)).2 <> PutDone EAGAIN).
Proof.
  assert (Hr : rtc step (fresh (small_fifo Single Single) [1] [2]) demo_sys).
  { apply (schedule_steps demo_actions). unfold demo_sys. destruct (schedule _ demo_actions) eqn:E; [reflexivity|vm_compute in E; discriminate]. }
  destruct (kfifo_swsr_fifo (small_fifo Single Single) 1 2 demo_sys (small_holds _ _) eq_refl eq_refl Hr) as (q & Hh & Hs & Hq & Hp & _).
  assert (E : q = []) by (replace (sent demo_sys) with [7] in Hq by (vm_compute; reflexivity); replace (received demo_sys) with [7] in Hq by (vm_compute; reflexivity); injection Hq; done).
  split; [vm_compute; reflexivity|]. split; [vm_compute; reflexivity|]. split; [vm_compute; eauto|]. exists q. split; [exact Hh|]. split; [exact E|].
  intros c w Ht He. apply (Hp 8 c w Ht) in He. rewrite E in He. vm_compute in He. discriminate.
Defined.

(** without interference, in every access mode: [put] appends to the queue or answers
    [EAGAIN] when [size - 1] elements are there, [get] removes the oldest element or answers
    [EAGAIN] when there is none, and both are what the sequence of their shared accesses does;
    [kfifo_isEmpty] is exact, and [kfifo_isFull] answers whether the FIFO holds exactly one
    element. *)
Theorem kfifo_queue (f : kfifo_s) (q : list Z) (val : Z) : holds f q ->
  (zlen q + 1 = size f -> kfifo_put f val = (EAGAIN, f)) /\
  (zlen q + 1 < size f -> exists f', kfifo_put f val = (0, f') /\ holds f' (q ++ [val])) /\
  (q = [] -> kfifo_get f = (EAGAIN, None, f)) /\
  (forall x q', q = x :: q' -> exists f', kfifo_get f = (0, Some x, f') /\ holds f' q') /\
  put_run 4 f val (PutReadW 0) = ((kfifo_put f val).2, PutDone (kfifo_put f val).1) /\
  get_run 4 f (GetReadR 0) = ((kfifo_get f).2, GetDone (kfifo_get f).1.1 (kfifo_get f).1.2) /\
  kfifo_isEmpty f = bool_decide (q = []) /\
  (2 <= size f -> kfifo_isFull f = (zlen q =? 1)).
Proof.
  intros Hh. pose proof (holds_full f q Hh) as Hf. pose proof (holds_empty f q Hh) as He.
  destruct (holds_store f q val Hh) as [Hst Hv]. split_and!.
  - intros E. rewrite E, Z.eqb_refl in Hf. unfold kfifo_put, single_put, multi_put. rewrite Hf.
    destruct (op_put f); done.
  - intros Hlt. rewrite (proj2 (Z.eqb_neq (zlen q + 1) (size f))) in Hf by lia.
    unfold kfifo_put, single_put, multi_put. rewrite Hf.
    exists (set_wridx (set_tbl f (wridx f) val) ((wridx f +! 1) mod size f)).
    split; [destruct (op_put f); done|]. apply (holds_publish _ q val Hst); done.
  - intros ->. rewrite bool_decide_true in He by done.
    unfold kfifo_get, single_get, multi_get. rewrite He. destruct (op_get f); done.
  - intros x q' ->. rewrite bool_decide_false in He by done.
    destruct (holds_consume f x q' Hh) as [Hx Hh']. eexists. split; [|exact Hh'].
    unfold kfifo_get, single_get, multi_get. rewrite He, Hx. destruct (op_get f); done.
  - unfold kfifo_put, single_put, multi_put. cbn.
    destruct ((wridx f +! 1) mod size f =? rdidx f); [destruct (op_put f); done|].
    destruct (op_put f) eqn:Ho; cbn; rewrite ?Z.eqb_refl; cbn; rewrite ?Ho; done.
  - unfold kfifo_get, single_get, multi_get. cbn.
    destruct (rdidx f =? wridx f); [destruct (op_get f); done|]. cbn.
    destruct (op_get f) eqn:Ho; cbn; rewrite ?Z.eqb_refl; done.
  - exact He.
  - intros H2. destruct Hh as (?&?&?&?&Hw&?). pose proof (zlen_nonneg q). unfold kfifo_isFull.
    rewrite ring_succ by lia. rewrite Hw. unfold ring_idx. rewrite mod_once by lia.
    destruct (Z.ltb_spec (rdidx f + zlen q) (size f)), (Z.ltb_spec (rdidx f + 1) (size f)); zcases; lia.
Qed.

Lemma kfifo_queue_witness :
  exists f', kfifo_put (small_fifo Multi Single) 7 = (0, f') /\ holds f' ([] ++ [7]).
Proof. apply (kfifo_queue (small_fifo Multi Single) [] 7 (small_holds _ _)). vm_compute. done. Defined.

(** With several writers an index is published before its element is stored: the consumer can
    receive the old contents of the cell, a value nobody sent. *)
Theorem kfifo_mw_reads_unwritten :
  exists s, rtc step (fresh (small_fifo Multi Single) [1] [2]) s /\ sent s = [7] /\ received s = [0].
Proof.
  assert (H : (s ← schedule (fresh (small_fifo Multi Single) [1] [2])
                     [CallPut 1 7; DoPut 1; DoPut 1; DoPut 1; CallGet 2; DoGet 2; DoGet 2; DoGet 2; DoGet 2];
               Some (sent s, received s)) = Some ([7], [0])) by (vm_compute; reflexivity).
  destruct (schedule _ _) as [s|] eqn:E; [|discriminate]. cbn in H. injection H as H1 H2.
  exists s. exact (conj (schedule_steps _ _ _ E) (conj H1 H2)).
Qed.

(** A writer that succeeds at its last attempt returns [EBUSY]: the cell is published, and its
    element is never stored. *)
Theorem kfifo_mw_busy_publishes (f : kfifo_s) val :
  put_step f val (PutCas threshold (wridx f)) =
    (set_wridx f ((wridx f +! 1) mod size f), PutDone EBUSY).
Proof. cbn. rewrite Z.eqb_refl. done. Qed.
