(* ===== verification/Mwmr.v ===== *)
(** * Mwmr: the byte channel of [kernel/kern/mwmr.c]

    A circular buffer of bytes; a read or a write that reaches the end of the buffer is done in
    two parts.  With [isAtomic] the body runs under the spinlock of the channel, so an operation
    is one step.  [mwmr_init] gets the outcome of its two allocations. *)

From S2P Require Import Prelude Ring.

(** [struct fifomwmr_s], without its lock *)
Record fifomwmr_s := Fifo {
  isAtomic : Z;
  status : Z;
  read_ptr : Z;
  write_ptr : Z;
  data : list Z;
  item : Z;
  length : Z;
}.

(** [for (i = 0; i < n; i++) dst[doff + i] = src[soff + i]]; [None]: an access out of bounds *)
Fixpoint copy (n : nat) (dst : list Z) (doff : Z) (src : list Z) (soff : Z) (i : Z) : option (list Z) :=
  match n with
  | O => Some dst
  | S n =>
      v ← zget src (soff + i);
      _ ← zget dst (doff + i);
      copy n (zset dst (doff + i) v) doff src soff (i + 1)
  end.

(** The two allocations: the descriptor, zeroed, and [size] bytes of data.  The second
    component of the result tells whether the descriptor was freed again. *)
Definition mwmr_init (item_ length_ isAtomic_ : Z) (desc_ok : bool) (alloc : Z -> option (list Z))
    : option fifomwmr_s * bool :=
  if negb desc_ok then (None, false)
  else match alloc (u32 (4 * item_ * length_)) with
       | None => (None, true)
       | Some d => (Some (Fifo isAtomic_ 0 0 0 d item_ (u32 (length_ * item_))), false)
       end.

(** The result: the number of bytes read, the buffer and the channel. *)
Definition mwmr_read (fifo : fifomwmr_s) (buff : list Z) (size : Z)
    : option (Z * list Z * fifomwmr_s) :=
  if size =? 0 then Some (0, buff, fifo)
  else
    let rnum := if status fifo <? size then status fifo else size in
    if rnum =? 0 then Some (rnum, buff, fifo)
    else
      buff ← (if read_ptr fifo +! rnum <=? length fifo
              then copy (Z.to_nat rnum) buff 0 (data fifo) (read_ptr fifo) 0
              else
                let size1 := length fifo -! read_ptr fifo in
                let size2 := rnum - size1 in
                buff ← copy (Z.to_nat size1) buff 0 (data fifo) (read_ptr fifo) 0;
                copy (Z.to_nat size2) buff size1 (data fifo) 0 0);
      Some (rnum, buff,
            Fifo (isAtomic fifo) (status fifo -! rnum) ((read_ptr fifo +! rnum) mod length fifo)
                 (write_ptr fifo) (data fifo) (item fifo) (length fifo)).

Definition mwmr_write (fifo : fifomwmr_s) (buff : list Z) (size : Z) : option (Z * fifomwmr_s) :=
  if size =? 0 then Some (0, fifo)
  else
    let free_space := length fifo -! status fifo in
    let wnum := if free_space <? size then free_space else size in
    if wnum =? 0 then Some (wnum, fifo)
    else
      data' ← (if write_ptr fifo +! wnum <=? length fifo
               then copy (Z.to_nat wnum) (data fifo) (write_ptr fifo) buff 0 0
               else
                 let size1 := length fifo -! write_ptr fifo in
                 let size2 := wnum - size1 in
                 d ← copy (Z.to_nat size1) (data fifo) (write_ptr fifo) buff 0 0;
                 copy (Z.to_nat size2) d 0 buff size1 0);
      Some (wnum,
            Fifo (isAtomic fifo) (status fifo +! wnum) (read_ptr fifo)
                 ((write_ptr fifo +! wnum) mod length fifo) data' (item fifo) (length fifo)).

(** The pointers that are freed, [None] when there is no channel. *)
Definition mwmr_destroy (fifo : option fifomwmr_s) : option (list Z * fifomwmr_s) :=
  fifo ← fifo; Some (data fifo, fifo).

(** ** The queue of bytes a channel holds *)

Definition holds (fifo : fifomwmr_s) (q : list Z) : Prop :=
  0 < length fifo < 2 ^ 30 /\ length fifo <= zlen (data fifo) /\ 0 <= read_ptr fifo < length fifo /\
  status fifo = zlen q /\ zlen q <= length fifo /\
  write_ptr fifo = ring_idx (length fifo) (read_ptr fifo) (zlen q) /\
  ring_rep (length fifo) (data fifo) (read_ptr fifo) q.

Lemma copy_ok n dst doff src soff i : 0 <= doff -> 0 <= soff -> 0 <= i ->
  doff + i + Z.of_nat n <= zlen dst -> soff + i + Z.of_nat n <= zlen src ->
  exists dst', copy n dst doff src soff i = Some dst' /\ zlen dst' = zlen dst /\
    (forall j, 0 <= j ->
       zget dst' j = if (doff + i <=? j) && (j <? doff + i + Z.of_nat n)
                     then zget src (j - doff + soff) else zget dst j).
Proof.
  revert dst i. induction n as [|n IH]; intros dst i ? ? ? Hd Hs; cbn [copy].
  - exists dst. split_and!; try done. intros j Hj. zcases; cbn; lia || done.
  - destruct (zget_is_Some src (soff + i)) as [v Hv]; [lia|].
    destruct (zget_is_Some dst (doff + i)) as [o Ho]; [lia|].
    rewrite Hv. cbn. rewrite Ho. cbn.
    destruct (IH (zset dst (doff + i) v) (i + 1)) as (dst' & E & El & Ej); rewrite ?zlen_zset; try lia.
    exists dst'. rewrite zlen_zset in El. split_and!; try done. intros j Hj. rewrite Ej by done.
    destruct (decide (j = doff + i)) as [->|].
    + rewrite zget_zset_eq by lia. replace (doff + i - doff + soff) with (soff + i) by lia. rewrite Hv.
      zcases; cbn; lia || done.
    + rewrite zget_zset_ne by lia. zcases; cbn; lia || done.
Qed.

(** The two loops of a transfer between positions [p, p + n) of the ring and [0, n) of a linear
    buffer. *)
Lemma zlist_ext {A} (l1 l2 : list A) : zlen l1 = zlen l2 ->
  (forall i, 0 <= i < zlen l1 -> zget l1 i = zget l2 i) -> l1 = l2.
Proof.
  intros Hl H. apply list_eq_same_length with (List.length l1); [unfold zlen in Hl; lia|done|].
  intros i x y Hi Hx Hy. specialize (H (Z.of_nat i)). unfold zget, zlen in H. rewrite Nat2Z.id in H.
  rewrite H in Hx by lia. congruence.
Qed.

Lemma zget_take {A} (l : list A) n i : 0 <= i < n -> zget (take (Z.to_nat n) l) i = zget l i.
Proof. intros. unfold zget. apply lookup_take_lt. lia. Qed.
Lemma zget_drop {A} (l : list A) n i : 0 <= i -> 0 <= n -> zget (drop (Z.to_nat n) l) i = zget l (n + i).
Proof. intros. unfold zget. rewrite lookup_drop. f_equal. lia. Qed.
Lemma zlen_take {A} (l : list A) n : 0 <= n <= zlen l -> zlen (take (Z.to_nat n) l) = n.
Proof. intros. unfold zlen in *. rewrite length_take. lia. Qed.
Lemma zlen_drop {A} (l : list A) n : 0 <= n <= zlen l -> zlen (drop (Z.to_nat n) l) = zlen l - n.
Proof. intros. unfold zlen in *. rewrite length_drop. lia. Qed.
Lemma zget_app_r {A} (l1 l2 : list A) i : zlen l1 <= i -> zget (l1 ++ l2) i = zget l2 (i - zlen l1).
Proof. intros. unfold zget, zlen in *. rewrite lookup_app_r by lia. f_equal. lia. Qed.

Lemma read_out (size : Z) (t : list Z) (rd : Z) (q buff : list Z) (n : Z) :
  0 < size < 2 ^ 30 -> size <= zlen t -> 0 <= rd < size -> 0 < n <= zlen q -> zlen q <= size ->
  n <= zlen buff -> ring_rep size t rd q ->
  (if rd +! n <=? size then copy (Z.to_nat n) buff 0 t rd 0
   else buff ← copy (Z.to_nat (size -! rd)) buff 0 t rd 0;
        copy (Z.to_nat (n - (size -! rd))) buff (size -! rd) t 0 0)
  = Some (take (Z.to_nat n) q ++ drop (Z.to_nat n) buff).
Proof.
  intros ? ? ? ? ? ? Hr. rewrite !u32_small by (unfold is_u32; lia).
  assert (Hcell : forall i, 0 <= i < n ->
            zget t (if rd + i <? size then rd + i else rd + i - size) = zget q i).
  { intros i Hi. rewrite <- Hr by lia. unfold ring_idx. rewrite mod_once by lia. done. }
  assert (Hfin : forall b, zlen b = zlen buff ->
            (forall j, 0 <= j -> zget b j = if j <? n then zget q j else zget buff j) ->
            b = take (Z.to_nat n) q ++ drop (Z.to_nat n) buff).
  { intros b Hl Hb. apply zlist_ext; [rewrite zlen_app, zlen_take, zlen_drop; lia|]. intros i Hi.
    rewrite Hb by lia. destruct (Z.ltb_spec i n).
    - rewrite zget_app_l by (rewrite zlen_take; lia). rewrite zget_take by lia. done.
    - rewrite zget_app_r by (rewrite zlen_take; lia). rewrite zlen_take, zget_drop by lia. f_equal. lia. }
  destruct (Z.leb_spec (rd + n) size).
  - destruct (copy_ok (Z.to_nat n) buff 0 t rd 0) as (b & -> & Hl & Hb); [lia..|].
    f_equal. apply Hfin; [done|]. intros j Hj. rewrite Hb by done.
    rewrite Z2Nat.id, !Z.add_0_l, Z.sub_0_r by lia. rewrite (proj2 (Z.leb_le _ _)) by lia. cbn.
    destruct (Z.ltb_spec j n); [|done]. rewrite <- Hcell by lia.
    rewrite (proj2 (Z.ltb_lt (rd + j) size)) by lia. f_equal. lia.
  - destruct (copy_ok (Z.to_nat (size - rd)) buff 0 t rd 0) as (b & -> & Hl & Hb); [lia..|]. cbn.
    destruct (copy_ok (Z.to_nat (n - (size - rd))) b (size - rd) t 0 0) as (b' & -> & Hl' & Hb'); [lia..|].
    f_equal. apply Hfin; [lia|]. intros j Hj. rewrite Hb', Hb by done.
    rewrite !Z2Nat.id, !Z.add_0_l, !Z.add_0_r by lia.
    destruct (Z.ltb_spec j n) as [Hjn|]; [rewrite <- Hcell by lia|]; zcases; cbn; try lia; try done;
      f_equal; lia.
Qed.

(** The same for a write at [wr]: the cells of the ring at distance less than [n] from [wr] get
    the bytes of the buffer and no other cell changes. *)
Lemma write_in (size : Z) (t : list Z) (wr : Z) (buff : list Z) (n : Z) :
  0 < size < 2 ^ 30 -> size <= zlen t -> 0 <= wr < size -> 0 < n <= size -> n <= zlen buff ->
  exists t', (if wr +! n <=? size then copy (Z.to_nat n) t wr buff 0 0
              else d ← copy (Z.to_nat (size -! wr)) t wr buff 0 0;
                   copy (Z.to_nat (n - (size -! wr))) d 0 buff (size -! wr) 0) = Some t' /\
    zlen t' = zlen t /\
    (forall i, 0 <= i < size -> zget t' (ring_idx size wr i) =
                                if i <? n then zget buff i else zget t (ring_idx size wr i)).
Proof.
  intros ? ? ? ? ?. rewrite !u32_small by (unfold is_u32; lia).
  destruct (Z.leb_spec (wr + n) size).
  - destruct (copy_ok (Z.to_nat n) t wr buff 0 0) as (t' & -> & Hl & Hb); [lia..|].
    exists t'. split_and!; try done. intros i Hi. unfold ring_idx. rewrite mod_once by lia.
    rewrite Hb by (zcases; lia). rewrite Z2Nat.id by lia. zcases; cbn; try lia; try done; f_equal; lia.
  - destruct (copy_ok (Z.to_nat (size - wr)) t wr buff 0 0) as (b & -> & Hl & Hb); [lia..|]. cbn.
    destruct (copy_ok (Z.to_nat (n - (size - wr))) b 0 buff (size - wr) 0) as (b' & -> & Hl' & Hb'); [lia..|].
    exists b'. split_and!; [done|lia|]. intros i Hi. unfold ring_idx. rewrite mod_once by lia.
    rewrite Hb' by (zcases; lia). rewrite Hb by (zcases; lia). rewrite !Z2Nat.id by lia.
    zcases; cbn; try lia; try done; f_equal; lia.
Qed.

Lemma ring_idx_add s rd i j : ring_idx s (ring_idx s rd i) j = ring_idx s rd (i + j).
Proof. unfold ring_idx. rewrite Zplus_mod_idemp_l. f_equal. lia. Qed.
Lemma ring_idx_bound s rd i : 0 < s -> 0 <= ring_idx s rd i < s.
Proof. intros. apply Z.mod_pos_bound. lia. Qed.

(** A cell of the ring at distance [i] from the reader, seen from the writer. *)
Lemma ring_append s (t t' : list Z) rd q l : 0 < s -> 0 <= rd < s -> zlen q + zlen l <= s ->
  ring_rep s t rd q ->
  (forall i, 0 <= i < s -> zget t' (ring_idx s (ring_idx s rd (zlen q)) i) =
             if i <? zlen l then zget l i else zget t (ring_idx s (ring_idx s rd (zlen q)) i)) ->
  ring_rep s t' rd (q ++ l).
Proof.
  intros ? ? ? Hr Ht i Hi. rewrite zlen_app in Hi. pose proof (zlen_nonneg q). pose proof (zlen_nonneg l).
  destruct (Z.lt_ge_cases i (zlen q)).
  - specialize (Ht (i - zlen q + s)). rewrite !ring_idx_add in Ht.
    replace (zlen q + (i - zlen q + s)) with (i + s) in Ht by lia.
    assert (E : ring_idx s rd (i + s) = ring_idx s rd i).
    { unfold ring_idx. rewrite <- (Z_mod_plus_full (rd + i) 1 s). f_equal. lia. }
    rewrite E in Ht. rewrite Ht by lia. rewrite (proj2 (Z.ltb_ge _ _)) by lia.
    rewrite zget_app_l by lia. apply Hr. lia.
  - specialize (Ht (i - zlen q)). rewrite !ring_idx_add in Ht.
    replace (zlen q + (i - zlen q)) with i in Ht by lia. rewrite Ht by lia.
    rewrite (proj2 (Z.ltb_lt _ _)) by lia. rewrite zget_app_r by lia. done.
Qed.

Lemma ring_drop s (t : list Z) rd q n : 0 < s -> 0 <= n <= zlen q -> ring_rep s t rd q ->
  ring_rep s t (ring_idx s rd n) (drop (Z.to_nat n) q).
Proof.
  intros ? ? Hr i Hi. rewrite zlen_drop in Hi by lia. rewrite ring_idx_add, zget_drop by lia. apply Hr. lia.
Qed.

Section Ops.
Implicit Types (fifo : fifomwmr_s) (q buff : list Z).

Lemma mwmr_read_ok fifo q buff size : holds fifo q -> is_u32 size -> size <= zlen buff ->
  let n := Z.min size (zlen q) in
  exists fifo', mwmr_read fifo buff size = Some (n, take (Z.to_nat n) q ++ drop (Z.to_nat n) buff, fifo') /\
    holds fifo' (drop (Z.to_nat n) q) /\ length fifo' = length fifo.
Proof.
  intros Hh [? ?] Hb n. pose proof (zlen_nonneg q). pose proof Hh as (?&?&?&Hs&?&Hw&Hr). unfold mwmr_read.
  destruct (Z.eqb_spec size 0) as [E|E].
  { exists fifo. replace n with 0 by lia. rewrite drop_0. done. }
  rewrite Hs. replace (if zlen q <? size then zlen q else size) with n by (zcases; lia).
  destruct (Z.eqb_spec n 0) as [E'|E'].
  { exists fifo. rewrite E', drop_0. done. }
  rewrite (read_out (length fifo) (data fifo) (read_ptr fifo) q buff n) by (done || lia).
  cbn [mbind option_bind]. eexists. split; [done|]. split; [|done]. unfold holds. cbn.
  rewrite !u32_small by (unfold is_u32; lia). rewrite zlen_drop by lia.
  pose proof (ring_idx_bound (length fifo) (read_ptr fifo) n) as Hi.
  change ((read_ptr fifo + n) mod length fifo) with (ring_idx (length fifo) (read_ptr fifo) n).
  split_and!; try lia.
  - rewrite ring_idx_add, Hw. f_equal. lia.
  - apply ring_drop; [lia..|done].
Qed.

Lemma mwmr_write_ok fifo q buff size : holds fifo q -> is_u32 size -> size <= zlen buff ->
  let n := Z.min size (length fifo - zlen q) in
  exists fifo', mwmr_write fifo buff size = Some (n, fifo') /\
    holds fifo' (q ++ take (Z.to_nat n) buff) /\ length fifo' = length fifo.
Proof.
  intros Hh [? ?] Hb n. pose proof (zlen_nonneg q). pose proof Hh as (?&?&?&Hs&?&Hw&Hr). unfold mwmr_write.
  destruct (Z.eqb_spec size 0) as [E|E].
  { exists fifo. replace n with 0 by lia. rewrite app_nil_r. done. }
  rewrite Hs, (u32_small (length fifo - zlen q)) by (unfold is_u32; lia).
  replace (if length fifo - zlen q <? size then length fifo - zlen q else size) with n by (zcases; lia).
  destruct (Z.eqb_spec n 0) as [E'|E'].
  { exists fifo. rewrite E', app_nil_r. done. }
  pose proof (ring_idx_bound (length fifo) (read_ptr fifo) (zlen q)) as Hi.
  destruct (write_in (length fifo) (data fifo) (write_ptr fifo) buff n) as (t' & -> & Hl & Ht); [lia..|].
  cbn [mbind option_bind]. eexists. split; [done|]. split; [|done]. unfold holds. cbn.
  rewrite !u32_small by (unfold is_u32; lia). rewrite zlen_app, zlen_take by lia.
  split_and!; try lia.
  - rewrite Hw. change ((ring_idx (length fifo) (read_ptr fifo) (zlen q) + n) mod length fifo)
      with (ring_idx (length fifo) (ring_idx (length fifo) (read_ptr fifo) (zlen q)) n).
    apply ring_idx_add.
  - apply ring_append with (data fifo); rewrite ?zlen_take by lia; try lia; try done.
    intros i Hi'. rewrite <- Hw, Ht by lia. destruct (Z.ltb_spec i n); [|done].
    rewrite zget_take by lia. done.
Qed.
End Ops.

(** C39: a byte channel is a bounded queue of bytes: a write appends as many of its bytes as fit
    and says how many, a read takes as many bytes as asked and available from the front and
    leaves the rest of its buffer alone; a new channel is empty; and no transfer leaves the
    buffers. *)
Theorem mwmr_bounded_queue (fifo : fifomwmr_s) (q buff : list Z) (size : Z) :
  holds fifo q -> is_u32 size -> size <= zlen buff ->
  (let n := Z.min size (length fifo - zlen q) in
   exists fifo', mwmr_write fifo buff size = Some (n, fifo') /\
     holds fifo' (q ++ take (Z.to_nat n) buff) /\ length fifo' = length fifo) /\
  (let n := Z.min size (zlen q) in
   exists fifo', mwmr_read fifo buff size = Some (n, take (Z.to_nat n) q ++ drop (Z.to_nat n) buff, fifo') /\
     holds fifo' (drop (Z.to_nat n) q) /\ length fifo' = length fifo).
Proof. intros. split; [apply mwmr_write_ok|apply mwmr_read_ok]; done. Qed.

Lemma mwmr_init_holds item_ length_ isAtomic_ (alloc : Z -> option (list Z)) :
  0 < item_ -> 0 < length_ -> item_ * length_ < 2 ^ 30 ->
  (forall n d, alloc n = Some d -> zlen d = n) ->
  forall fifo freed, mwmr_init item_ length_ isAtomic_ true alloc = (Some fifo, freed) ->
  holds fifo [] /\ length fifo = item_ * length_.
Proof.
  intros ? ? ? Ha fifo freed. unfold mwmr_init. cbn. rewrite !u32_small by (unfold is_u32; nia).
  destruct (alloc _) as [d|] eqn:E; intros; simplify_eq. apply Ha in E. unfold holds. cbn.
  split; [|lia]. assert (0 < item_ * length_) by nia. split_and!; try lia; try done; [unfold zlen; cbn; lia|apply ring_nil].
Qed.

(** A channel of four bytes of which two are used, at the end of the buffer. *)
Definition small_channel : fifomwmr_s := Fifo 1 2 2 0 [5; 6; 7; 8; 0; 0; 0; 0] 1 4.

Lemma small_channel_holds : holds small_channel [7; 8].
Proof.
  unfold holds. cbn. split_and!; try lia; try done.
  intros i Hi. unfold zlen in Hi. cbn in Hi. assert (i = 0 \/ i = 1) as [-> | ->] by lia; done.
Qed.

Lemma mwmr_bounded_queue_witness :
  exists fifo', mwmr_write small_channel [1; 2; 3] 3 = Some (2, fifo') /\
    holds fifo' [7; 8; 1; 2] /\ length fifo' = 4.
Proof.
  apply (mwmr_bounded_queue small_channel [7; 8] [1; 2; 3] 3 small_channel_holds); vm_compute; intuition discriminate.
Defined.
