(* ===== verification/Keysdb.v ===== *)
(** * Keysdb: the two-level table of keys of [kernel/kern/keysdb.c]

    A root table of 1024 pointers to records of 64 cells maps the keys of 16 bits to pointers;
    0 is [NULL].  A record belongs to one cell of the root, so the model keeps it in that cell.
    [mem] is the answers of [kmem_alloc] to come, [true] for an object.  An operation runs
    without interference, so its compare-and-swap succeeds. *)

From S2P Require Import Prelude Bits Ring.

Definition KEYS_PER_REC : Z := 64.
Definition KEYS_PER_REC_LOG2 : Z := 6.
Definition PMM_PAGE_SIZE : Z := 4096.

(** [struct keys_record_s] *)
Definition keys_record : Type := list Z.

(** [struct keysdb_s] *)
Record keysdb_s := Keysdb {
  root : list (option keys_record);
  records_nr : Z;
  records_bits : Z;
  key_width : Z;
  keys_per_record : Z;
}.

Definition set_root (db : keysdb_s) (i : Z) (rec : option keys_record) : keysdb_s :=
  Keysdb (zset (root db) i rec) (records_nr db) (records_bits db) (key_width db) (keys_per_record db).

Definition zero_record : keys_record := replicate (Z.to_nat KEYS_PER_REC) 0.

(** The page of the root is zeroed; [page_ok]: the allocation of the page succeeds.  The
    assertion on the width of the keys does not stop the kernel. *)
Definition keysdb_init (db : keysdb_s) (width : Z) (page_ok : bool) : Z * keysdb_s :=
  let nr := PMM_PAGE_SIZE / 4 in
  let bits := bits_log2 nr in
  if page_ok then (0, Keysdb (replicate (Z.to_nat nr) None) nr bits width KEYS_PER_REC)
  else (ENOMEM, Keysdb (root db) nr bits width KEYS_PER_REC).

(** The records that are freed, before the page. *)
Definition keysdb_destroy (db : keysdb_s) : Z * list keys_record :=
  (0, omap (fun i => mjoin (zget (root db) i)) (seqZ 0 (records_nr db))).

Definition keysdb_index (db : keysdb_s) (key : Z) : Z * Z :=
  let bits := key_width db -! records_bits db in
  (Z.shiftr key bits, Z.land key ((1 <<! bits) -! 1)).

(** The end of both insertions: [None] is an access out of the tables. *)
Definition put_key (db : keysdb_s) (rec_i key_i value : Z) : option (Z * keysdb_s) :=
  rec ← mjoin (zget (root db) rec_i);
  old ← zget rec key_i;
  if negb (old =? 0) then Some (EEXIST, db)
  else Some (0, set_root db rec_i (Some (zset rec key_i value))).

Definition keysdb_insert_seq (db : keysdb_s) (mem : list bool) (key value : Z)
    : option (Z * keysdb_s * list bool) :=
  let '(rec_i, key_i) := keysdb_index db key in
  slot ← zget (root db) rec_i;
  match slot with
  | None =>
      match mem with
      | true :: mem =>
          '(err, db) ← put_key (set_root db rec_i (Some zero_record)) rec_i key_i value;
          Some (err, db, mem)
      | _ => Some (ENOMEM, db, tail mem)
      end
  | Some _ => '(err, db) ← put_key db rec_i key_i value; Some (err, db, mem)
  end.

(** [while(( *ptr == NULL) && (isAtomic == false))]: [rec] is the record allocated by the call, if
    any; it is zeroed before the compare-and-swap.  The result has the record too. *)
Fixpoint insert_loop (fuel : nat) (db : keysdb_s) (mem : list bool) (rec_i : Z)
    (rec : option keys_record) (isAtomic : bool) : option (Z * keysdb_s * list bool) :=
  match fuel with
  | O => None
  | S fuel =>
      slot ← zget (root db) rec_i;
      if bool_decide (slot = None) && negb isAtomic then
        match rec, mem with
        | Some r, _ => insert_loop fuel (set_root db rec_i (Some r)) mem rec_i rec true
        | None, true :: mem =>
            insert_loop fuel (set_root db rec_i (Some zero_record)) mem rec_i (Some zero_record) true
        | None, _ => Some (ENOMEM, db, tail mem)
        end
      else Some (0, db, mem)
  end.

(** The record of the call is in the root, so it is not freed. *)
Definition keysdb_insert (db : keysdb_s) (mem : list bool) (key value : Z)
    : option (Z * keysdb_s * list bool) :=
  let '(rec_i, key_i) := keysdb_index db key in
  '(err, db, mem) ← insert_loop 2 db mem rec_i None false;
  if negb (err =? 0) then Some (err, db, mem)
  else '(err, db) ← put_key db rec_i key_i value; Some (err, db, mem).

(** The removed value, [NULL] when the key is not bound. *)
Definition keysdb_remove (db : keysdb_s) (key : Z) : option (Z * keysdb_s) :=
  let '(rec_i, key_i) := keysdb_index db key in
  slot ← zget (root db) rec_i;
  match slot with
  | None => Some (0, db)
  | Some rec => value ← zget rec key_i; Some (value, set_root db rec_i (Some (zset rec key_i 0)))
  end.

Definition keysdb_lookup (db : keysdb_s) (key : Z) : option Z :=
  let '(rec_i, key_i) := keysdb_index db key in
  slot ← zget (root db) rec_i;
  match slot with None => Some 0 | Some rec => zget rec key_i end.

(** [for(i = 0; i < keys_nr; i++)]; the result has the value of [i] at the end. *)
Fixpoint bind_loop (n : nat) (db : keysdb_s) (mem : list bool) (key_start value i : Z)
    : option (Z * Z * keysdb_s * list bool) :=
  match n with
  | O => Some (0, i, db, mem)
  | S n =>
      '(err, db, mem) ← keysdb_insert db mem (key_start +! i) value;
      if negb (err =? 0) then Some (err, i, db, mem) else bind_loop n db mem key_start value (i + 1)
  end.

(** [while((err != 0) && (i != 0))] *)
Fixpoint unbind_back (i : nat) (db : keysdb_s) (key_start : Z) : option keysdb_s :=
  match i with
  | O => Some db
  | S i => '(_, db) ← keysdb_remove db (key_start +! Z.of_nat i); unbind_back i db key_start
  end.

Definition keysdb_bind (db : keysdb_s) (mem : list bool) (key_start keys_nr value : Z)
    : option (Z * keysdb_s * list bool) :=
  '(err, i, db, mem) ← bind_loop (Z.to_nat keys_nr) db mem key_start value 0;
  if negb (err =? 0) then db ← unbind_back (Z.to_nat i) db key_start; Some (err, db, mem)
  else Some (err, db, mem).

Fixpoint unbind_loop (n : nat) (db : keysdb_s) (key_start i : Z) : option keysdb_s :=
  match n with
  | O => Some db
  | S n => '(_, db) ← keysdb_remove db (key_start +! i); unbind_loop n db key_start (i + 1)
  end.

Definition keysdb_unbind (db : keysdb_s) (key_start keys_nr : Z) : option (Z * keysdb_s) :=
  db ← unbind_loop (Z.to_nat keys_nr) db key_start 0; Some (0, db).

(** ** The finite map of keys *)

Definition is_key (k : Z) : Prop := 0 <= k < 2 ^ 16.

Record models (db : keysdb_s) (m : gmap Z Z) : Prop := {
  models_nr : records_nr db = 1024;
  models_bits : records_bits db = 10;
  models_width : key_width db = 16;
  models_root : zlen (root db) = 1024;
  models_rec : forall i r, zget (root db) i = Some (Some r) -> zlen r = KEYS_PER_REC;
  models_lookup : forall k, is_key k -> keysdb_lookup db k = Some (default 0 (m !! k));
  models_dom : forall k v, m !! k = Some v -> is_key k /\ v <> 0;
}.

Section Laws.
Implicit Types (db : keysdb_s) (m : gmap Z Z) (k v : Z).

Lemma index_eq db m k : models db m -> is_key k -> keysdb_index db k = (k / 64, k mod 64).
Proof.
  intros M Hk. unfold keysdb_index. rewrite (models_bits _ _ M), (models_width _ _ M).
  change (16 -! 10) with 6. rewrite Z.shiftr_div_pow2 by lia. f_equal.
  change ((1 <<! 6) -! 1) with (Z.ones 6). apply Z.land_ones. lia.
Qed.

Lemma rec_bound k : is_key k -> 0 <= k / 64 < 1024 /\ 0 <= k mod 64 < 64.
Proof. unfold is_key. intros. split; [|apply Z.mod_pos_bound; lia]. pose proof (Z.div_mod k 64). pose proof (Z.mod_pos_bound k 64). lia. Qed.

Lemma index_inj k j : k / 64 = j / 64 -> k mod 64 = j mod 64 -> k = j.
Proof. intros. rewrite (Z.div_mod k 64), (Z.div_mod j 64) by lia. lia. Qed.

Lemma root_slot db m k : models db m -> is_key k -> exists slot, zget (root db) (k / 64) = Some slot.
Proof. intros M Hk. apply zget_is_Some. rewrite (models_root _ _ M). apply rec_bound. done. Qed.

(** What a lookup finds in the record of the key. *)
Lemma rec_lookup db m k rec : models db m -> is_key k -> zget (root db) (k / 64) = Some (Some rec) ->
  zlen rec = 64 /\ zget rec (k mod 64) = Some (default 0 (m !! k)).
Proof.
  intros M Hk Hr. split; [apply (models_rec _ _ M _ _ Hr)|].
  pose proof (models_lookup _ _ M k Hk) as Hl. unfold keysdb_lookup in Hl.
  rewrite (index_eq _ _ _ M Hk), Hr in Hl. exact Hl.
Qed.

(** A new record of zeros changes no lookup. *)
Lemma models_new_rec db m k : models db m -> is_key k -> zget (root db) (k / 64) = Some None ->
  models (set_root db (k / 64) (Some zero_record)) m.
Proof.
  intros M Hk Hn. pose proof (rec_bound k Hk). pose proof (models_root _ _ M) as Hroot.
  split; try apply M.
  - cbn. rewrite zlen_zset. done.
  - intros i r. cbn. unfold zget, zset. destruct (decide (Z.to_nat i = Z.to_nat (k / 64))) as [->|].
    + rewrite list_lookup_insert_eq; [|unfold zlen in *; lia]. intros [= <-]. done.
    + rewrite list_lookup_insert_ne by congruence. apply (models_rec _ _ M).
  - intros j Hj. rewrite <- (models_lookup _ _ M j Hj). unfold keysdb_lookup.
    change (keysdb_index (set_root _ _ _)) with (keysdb_index db).
    rewrite (index_eq _ _ _ M Hj). cbn. pose proof (rec_bound j Hj).
    destruct (decide (j / 64 = k / 64)) as [->|].
    + rewrite zget_zset_eq by lia. rewrite Hn. cbn. unfold zget.
      apply lookup_replicate_2. unfold KEYS_PER_REC. lia.
    + rewrite zget_zset_ne by lia. done.
Qed.

(** A store into a cell of a record is an update of the map. *)
Lemma models_store db m k v rec : models db m -> is_key k ->
  zget (root db) (k / 64) = Some (Some rec) ->
  models (set_root db (k / 64) (Some (zset rec (k mod 64) v)))
         (if v =? 0 then delete k m else <[k := v]> m).
Proof.
  intros M Hk Hr. pose proof (rec_bound k Hk). destruct (rec_lookup _ _ _ _ M Hk Hr) as [Hlen _].
  pose proof (models_root _ _ M) as Hroot. split; try apply M.
  - cbn. rewrite zlen_zset. done.
  - intros i r. cbn. unfold zget, zset. destruct (decide (Z.to_nat i = Z.to_nat (k / 64))) as [->|].
    + rewrite list_lookup_insert_eq; [|unfold zlen in *; lia]. intros [= <-].
      unfold zlen in *. rewrite length_insert. done.
    + rewrite list_lookup_insert_ne by congruence. apply (models_rec _ _ M).
  - intros j Hj. unfold keysdb_lookup. change (keysdb_index (set_root _ _ _)) with (keysdb_index db).
    rewrite (index_eq _ _ _ M Hj). cbn. pose proof (rec_bound j Hj).
    assert (Hold : j <> k -> (if v =? 0 then delete k m else <[k := v]> m) !! j = m !! j).
    { intros. destruct (v =? 0); [apply lookup_delete_ne|apply lookup_insert_ne]; done. }
    destruct (decide (j / 64 = k / 64)) as [E|].
    + rewrite E, zget_zset_eq by lia. cbn. destruct (decide (j = k)) as [->|Hne].
      * rewrite zget_zset_eq by lia. destruct (Z.eqb_spec v 0) as [->|];
          rewrite ?lookup_delete_eq, ?lookup_insert_eq; done.
      * rewrite zget_zset_ne; [|lia|lia|intros ?; apply Hne, index_inj; done].
        rewrite Hold by done. rewrite <- E in Hr. apply (rec_lookup _ _ _ _ M Hj Hr).
    + rewrite zget_zset_ne by lia. rewrite Hold by congruence.
      rewrite <- (models_lookup _ _ M j Hj). unfold keysdb_lookup. rewrite (index_eq _ _ _ M Hj). done.
  - intros j w. destruct (Z.eqb_spec v 0).
    + rewrite lookup_delete_Some. intros [_ Hm]. apply (models_dom _ _ M _ _ Hm).
    + rewrite lookup_insert_Some. intros [[<- <-]|[_ Hm]]; [done|]. apply (models_dom _ _ M _ _ Hm).
Qed.

Lemma put_key_ok db m k v rec : models db m -> is_key k -> v <> 0 ->
  zget (root db) (k / 64) = Some (Some rec) ->
  exists err db', put_key db (k / 64) (k mod 64) v = Some (err, db') /\
    ((err = 0 /\ m !! k = None /\ models db' (<[k := v]> m)) \/
     (err = EEXIST /\ is_Some (m !! k) /\ models db' m)).
Proof.
  intros M Hk Hv Hr. destruct (rec_lookup _ _ _ _ M Hk Hr) as [Hlen Hc].
  unfold put_key. rewrite Hr. cbn. rewrite Hc. cbn.
  destruct (m !! k) as [w|] eqn:Hm; cbn.
  - destruct (models_dom _ _ M _ _ Hm) as [_ Hw]. rewrite (proj2 (Z.eqb_neq w 0) Hw). cbn. eauto 10.
  - do 2 eexists. split; [done|]. left. split_and!; [done..|].
    pose proof (models_store _ _ _ v _ M Hk Hr) as M'. rewrite (proj2 (Z.eqb_neq v 0) Hv) in M'. done.
Qed.

(** Both insertions, on every branch. *)
Lemma keysdb_insert_ok db m mem k v : models db m -> is_key k -> v <> 0 ->
  keysdb_insert db mem k v = keysdb_insert_seq db mem k v /\
  exists err db' mem', keysdb_insert db mem k v = Some (err, db', mem') /\
    ((err = 0 /\ m !! k = None /\ models db' (<[k := v]> m)) \/
     (err = EEXIST /\ is_Some (m !! k) /\ models db' m) \/
     (err = ENOMEM /\ m !! k = None /\ head mem <> Some true /\ models db' m)).
Proof.
  intros M Hk Hv. destruct (root_slot _ _ _ M Hk) as [slot Hs].
  unfold keysdb_insert, keysdb_insert_seq. rewrite (index_eq _ _ _ M Hk). cbn [insert_loop]. rewrite Hs. cbn [mbind option_bind].
  destruct slot as [rec|].
  - cbn. destruct (put_key_ok _ _ _ _ _ M Hk Hv Hs) as (err & db' & -> & Hd). cbn.
    split; [done|]. do 3 eexists. split; [done|]. tauto.
  - assert (Hnone : m !! k = None).
    { pose proof (models_lookup _ _ M k Hk) as Hl. unfold keysdb_lookup in Hl.
      rewrite (index_eq _ _ _ M Hk), Hs in Hl. injection Hl as Hl.
      destruct (m !! k) as [w|] eqn:E; [|done]. destruct (models_dom _ _ M _ _ E) as [_ Hw]. cbn in Hl. congruence. }
    pose proof (rec_bound k Hk). pose proof (models_root _ _ M).
    assert (Hz : zget (root (set_root db (k / 64) (Some zero_record))) (k / 64) = Some (Some zero_record))
      by (cbn; apply zget_zset_eq; lia).
    destruct mem as [|[] mem].
    + cbn. split; [done|]. do 3 eexists. split; [done|]. right. right. done.
    + cbn [bool_decide decide decide_rel andb negb]. rewrite bool_decide_true by done. cbn [andb negb].
      rewrite Hz. cbn [mbind option_bind]. rewrite bool_decide_false by done. cbn.
      destruct (put_key_ok _ _ _ _ _ (models_new_rec _ _ _ M Hk Hs) Hk Hv Hz) as (err & db' & -> & Hd). cbn.
      split; [done|]. do 3 eexists. split; [done|]. tauto.
    + cbn. split; [done|]. do 3 eexists. split; [done|]. right. right. done.
Qed.

Lemma remove_ok db m k : models db m -> is_key k ->
  exists db', keysdb_remove db k = Some (default 0 (m !! k), db') /\ models db' (delete k m).
Proof.
  intros M Hk. destruct (root_slot _ _ _ M Hk) as [slot Hs].
  unfold keysdb_remove. rewrite (index_eq _ _ _ M Hk), Hs. cbn. destruct slot as [rec|].
  - destruct (rec_lookup _ _ _ _ M Hk Hs) as [_ ->]. cbn. eexists. split; [done|].
    apply (models_store _ _ _ 0 _ M Hk Hs).
  - pose proof (models_lookup _ _ M k Hk) as Hl. unfold keysdb_lookup in Hl.
    rewrite (index_eq _ _ _ M Hk), Hs in Hl. injection Hl as Hl.
    assert (m !! k = None) as Hn.
    { destruct (m !! k) as [w|] eqn:E; [|done]. destruct (models_dom _ _ M _ _ E) as [_ Hw]. cbn in Hl. congruence. }
    exists db. rewrite Hn, delete_id by done. done.
Qed.
End Laws.

(** ** Ranges of keys *)

(** [m'] is [m] with [o] for the keys of [lo, hi). *)
Definition ranged (m m' : gmap Z Z) (lo hi : Z) (o : option Z) : Prop :=
  forall k, m' !! k = if (lo <=? k) && (k <? hi) then o else m !! k.

Section Ranges.
Implicit Types (db : keysdb_s) (m : gmap Z Z).

Lemma ranged_empty m lo o : ranged m m lo lo o.
Proof. intros k. zcases; cbn; lia || done. Qed.

Lemma bind_loop_ok n : forall db m mem s v i, models db m -> v <> 0 -> 0 <= s -> 0 <= i ->
  s + i + Z.of_nat n <= 2 ^ 16 ->
  exists err i' db' mem' m', bind_loop n db mem s v i = Some (err, i', db', mem') /\
    i <= i' <= i + Z.of_nat n /\ models db' m' /\ ranged m m' (s + i) (s + i') (Some v) /\
    (forall k, s + i <= k < s + i' -> m !! k = None) /\
    ((err = 0 /\ i' = i + Z.of_nat n) \/
     (err = EEXIST /\ i' < i + Z.of_nat n /\ is_Some (m !! (s + i'))) \/
     (err = ENOMEM /\ i' < i + Z.of_nat n /\ m !! (s + i') = None)).
Proof.
  induction n as [|n IH]; intros db m mem s v i M Hv Hs Hi Hb; cbn [bind_loop].
  - exists 0, i, db, mem, m. split_and!; try done; try lia; try apply ranged_empty.
  - rewrite u32_small by (unfold is_u32; lia).
    destruct (keysdb_insert_ok db m mem (s + i) v M) as [_ (err & db1 & mem1 & -> & Hc)];
      [unfold is_key; lia|done|]. cbn [mbind option_bind].
    destruct Hc as [(-> & Hn & M1)|[(-> & Hsome & M1)|(-> & Hn & _ & M1)]]; cbn [Z.eqb negb].
    + destruct (IH db1 _ mem1 s v (i + 1) M1 Hv Hs) as (err & i' & db2 & mem2 & m2 & -> & Hi' & M2 & Hr & Hab & Hc); [lia..|].
      exists err, i', db2, mem2, m2. split_and!; try done; try lia.
      * intros k. rewrite Hr. destruct (decide (k = s + i)) as [->|].
        -- rewrite lookup_insert_eq. zcases; cbn; lia || done.
        -- rewrite lookup_insert_ne by done. zcases; cbn; lia || done.
      * intros k Hk. destruct (decide (k = s + i)) as [->|]; [done|].
        rewrite <- (lookup_insert_ne m (s + i) k v) by done. apply Hab. lia.
      * rewrite lookup_insert_ne in Hc by lia. destruct Hc as [[-> ->]|[[-> Hc]|[-> Hc]]].
        -- left. lia.
        -- right. left. split_and!; [done|lia|apply Hc].
        -- right. right. split_and!; [done|lia|apply Hc].
    + exists EEXIST, i, db1, mem1, m. split_and!; try done; try lia; try apply ranged_empty.
      right. left. split_and!; [done|lia|done].
    + exists ENOMEM, i, db1, mem1, m. split_and!; try done; try lia; try apply ranged_empty.
      right. right. split_and!; [done|lia|done].
Qed.

Lemma unbind_back_ok j : forall db m s, models db m -> 0 <= s -> s + Z.of_nat j <= 2 ^ 16 ->
  exists db' m', unbind_back j db s = Some db' /\ models db' m' /\ ranged m m' s (s + Z.of_nat j) None.
Proof.
  induction j as [|j IH]; intros db m s M Hs Hb; cbn [unbind_back].
  - exists db, m. rewrite Z.add_0_r. split_and!; try done. apply ranged_empty.
  - rewrite u32_small by (unfold is_u32; lia).
    destruct (remove_ok db m (s + Z.of_nat j) M) as (db1 & -> & M1); [unfold is_key; lia|].
    cbn [mbind option_bind]. destruct (IH db1 _ s M1 Hs) as (db2 & m2 & -> & M2 & Hr); [lia|].
    exists db2, m2. split_and!; try done. intros k. rewrite Hr.
    destruct (decide (k = s + Z.of_nat j)) as [->|].
    + rewrite lookup_delete_eq. zcases; cbn; lia || done.
    + rewrite lookup_delete_ne by done. zcases; cbn; lia || done.
Qed.

Lemma unbind_loop_ok n : forall db m s i, models db m -> 0 <= s -> 0 <= i -> s + i + Z.of_nat n <= 2 ^ 16 ->
  exists db' m', unbind_loop n db s i = Some db' /\ models db' m' /\
    ranged m m' (s + i) (s + i + Z.of_nat n) None.
Proof.
  induction n as [|n IH]; intros db m s i M Hs Hi Hb; cbn [unbind_loop].
  - exists db, m. rewrite Z.add_0_r. split_and!; try done. apply ranged_empty.
  - rewrite u32_small by (unfold is_u32; lia).
    destruct (remove_ok db m (s + i) M) as (db1 & -> & M1); [unfold is_key; lia|].
    cbn [mbind option_bind]. destruct (IH db1 _ s (i + 1) M1 Hs) as (db2 & m2 & -> & M2 & Hr); [lia..|].
    exists db2, m2. split_and!; try done. intros k. rewrite Hr.
    destruct (decide (k = s + i)) as [->|].
    + rewrite lookup_delete_eq. zcases; cbn; lia || done.
    + rewrite lookup_delete_ne by done. zcases; cbn; lia || done.
Qed.

(** A range is bound entirely or not at all. *)
Lemma bind_ok db m mem s n v : models db m -> v <> 0 -> 0 <= s -> 0 <= n -> s + n <= 2 ^ 16 ->
  exists err db' mem' m', keysdb_bind db mem s n v = Some (err, db', mem') /\ models db' m' /\
    ((err = 0 /\ (forall k, s <= k < s + n -> m !! k = None) /\ ranged m m' s (s + n) (Some v)) \/
     (err = EEXIST /\ (exists k, s <= k < s + n /\ is_Some (m !! k)) /\ m' = m) \/
     (err = ENOMEM /\ m' = m)).
Proof.
  intros M Hv Hs Hn Hb.
  destruct (bind_loop_ok (Z.to_nat n) db m mem s v 0 M Hv Hs) as (err & i & db1 & mem1 & m1 & E & Hi & M1 & Hr & Hab & Hc);
    [lia..|].
  rewrite Z2Nat.id in * by lia. rewrite !Z.add_0_l, !Z.add_0_r in *. unfold keysdb_bind. rewrite E. cbn [mbind option_bind].
  destruct (unbind_back_ok (Z.to_nat i) db1 m1 s M1 Hs) as (db2 & m2 & Eb & M2 & Hr2); [lia|].
  rewrite Z2Nat.id in * by lia.
  assert (Hback : m2 = m).
  { apply map_eq. intros k. rewrite Hr2, Hr.
    destruct (Z.leb_spec s k), (Z.ltb_spec k (s + i)); cbn; try done. rewrite Hab by lia. done. }
  destruct Hc as [[-> ->]|[(-> & Hlt & Hsome)|(-> & Hlt & _)]]; cbn [Z.eqb negb].
  - exists 0, db1, mem1, m1. split_and!; try done. left. done.
  - rewrite Eb. exists EEXIST, db2, mem1, m2. split_and!; try done. right. left. split_and!; try done.
    exists (s + i). split; [lia|done].
  - rewrite Eb. exists ENOMEM, db2, mem1, m2. split_and!; try done. right. right. done.
Qed.
End Ranges.

Lemma init_models db : exists db', keysdb_init db 16 true = (0, db') /\ models db' ∅.
Proof.
  eexists. split; [reflexivity|]. split; try done.
  - intros i r H. unfold zget in H. cbn in H. apply lookup_replicate in H as [? _]. done.
  - intros k Hk. pose proof (rec_bound k Hk). rewrite lookup_empty. unfold keysdb_lookup, keysdb_index. cbn.
    change (16 -! _) with 6. rewrite Z.shiftr_div_pow2 by lia.
    unfold zget. rewrite lookup_replicate_2; [done|]. change (Z.to_nat (PMM_PAGE_SIZE / 4)) with (Z.to_nat 1024). change (2 ^ 6) with 64. lia.
Qed.

(** C34: the table of keys is a finite map from the keys of 16 bits to non-null values: it starts
    empty; an insertion, in its two variants, binds the key, answers [EEXIST] for a bound key or
    [ENOMEM] for want of a record, in both cases without a change; a removal gives the value
    back and unbinds the key; [keysdb_bind] binds its whole range or nothing; [keysdb_unbind]
    unbinds its range; a lookup finds what is bound. *)
Theorem keysdb_finite_map (db : keysdb_s) (m : gmap Z Z) (mem : list bool) (k v n : Z) :
  models db m -> is_key k -> v <> 0 -> 0 <= n -> k + n <= 2 ^ 16 ->
  keysdb_lookup db k = Some (default 0 (m !! k)) /\
  keysdb_insert db mem k v = keysdb_insert_seq db mem k v /\
  (exists err db' mem', keysdb_insert db mem k v = Some (err, db', mem') /\
     ((err = 0 /\ m !! k = None /\ models db' (<[k := v]> m)) \/
      (err = EEXIST /\ is_Some (m !! k) /\ models db' m) \/
      (err = ENOMEM /\ m !! k = None /\ head mem <> Some true /\ models db' m))) /\
  (exists db', keysdb_remove db k = Some (default 0 (m !! k), db') /\ models db' (delete k m)) /\
  (exists err db' mem' m', keysdb_bind db mem k n v = Some (err, db', mem') /\ models db' m' /\
      ((err = 0 /\ (forall j, k <= j < k + n -> m !! j = None) /\ ranged m m' k (k + n) (Some v)) \/
       (err = EEXIST /\ (exists j, k <= j < k + n /\ is_Some (m !! j)) /\ m' = m) \/
       (err = ENOMEM /\ m' = m))) /\
  (exists db' m', keysdb_unbind db k n = Some (0, db') /\ models db' m' /\ ranged m m' k (k + n) None).
Proof.
  intros M Hk Hv Hn Hb. pose proof Hk as [Hk0 _].
  split_and!; [apply M, Hk|apply (keysdb_insert_ok _ m)|apply (keysdb_insert_ok _ m)|apply remove_ok|apply bind_ok|]; try done.
  destruct (unbind_loop_ok (Z.to_nat n) db m k 0 M Hk0) as (db' & m' & E & M' & Hr); [lia..|].
  exists db', m'. unfold keysdb_unbind. rewrite E. split_and!; try done.
  rewrite Z.add_0_r, Z2Nat.id in Hr by lia. done.
Qed.

(** An empty table. *)
Definition empty_db : keysdb_s := Keysdb (replicate 1024 None) 1024 10 16 64.

Lemma empty_db_models : models empty_db ∅.
Proof. destruct (init_models empty_db) as (db & E & M). injection E as <-. exact M. Qed.

Lemma keysdb_finite_map_witness :
  keysdb_lookup empty_db 70 = Some 0 /\
  exists db', keysdb_remove empty_db 70 = Some (0, db') /\ models db' (delete 70 ∅).
Proof.
  assert (H : is_key 70) by (unfold is_key; lia).
  destruct (keysdb_finite_map empty_db ∅ [true] 70 9 4 empty_db_models H ltac:(lia) ltac:(lia) ltac:(lia))
    as (H1 & _ & _ & H2 & _).
  exact (conj H1 H2).
Defined.

Example keysdb_bind_rolls_back :
  ('(_, db, mem) ← keysdb_insert empty_db [true; true] 66 9;
   '(err, db, _) ← keysdb_bind db mem 62 6 7;
   Some (err, keysdb_lookup db <$> [62; 63; 64; 65; 66])) =
  Some (EEXIST, [Some 0; Some 0; Some 0; Some 0; Some 9]).
Proof. vm_compute. reflexivity. Qed.
