(* ===== verification/Heap.v ===== *)
(** * Heap: the kernel heap of [kernel/mm/heap_manager.c]

    A block of the heap starts with a header of eight bytes that has its size; the next block
    follows it.  The memory of the model is the header found at each address.  The body of an
    operation runs under the spinlock of the manager, so it is one step. *)

From S2P Require Import Prelude Bits.

Definition CACHE_LINE_SIZE : Z := 64.

(** [struct block_info_s]: one bit for [busy] and 31 bits for [size]. *)
Record block_info_s := Info { busy : Z; bsize : Z; heap_mgr : Z }.
Definition SIZEOF_INFO : Z := 8.

(** [struct heap_manager_s], without its lock *)
Record heap_manager_s := Heap {
  flags : Z;
  base : Z;
  start : Z;
  limit : Z;
  current : Z;
  next : Z;
}.

Definition set_next (h : heap_manager_s) (n : Z) : heap_manager_s :=
  Heap (flags h) (base h) (start h) (limit h) (current h) n.

(** The headers in memory and the heap managers, by address *)
Record world := World { hdr : Z -> block_info_s; mgrs : gmap Z heap_manager_s }.

Definition set_bsize (b : block_info_s) (s : Z) : block_info_s := Info (busy b) (s mod 2 ^ 31) (heap_mgr b).
Definition set_busy (b : block_info_s) (v : Z) : block_info_s := Info v (bsize b) (heap_mgr b).
Definition set_mgr (b : block_info_s) (m : Z) : block_info_s := Info (busy b) (bsize b) m.

Definition upd (m : Z -> block_info_s) (a : Z) (f : block_info_s -> block_info_s) : Z -> block_info_s :=
  <[a := f (m a)]> m.

Definition heap_manager_init (w : world) (heap_mgr heap_base heap_start heap_limit : Z) : Z * world :=
  let m := upd (hdr w) heap_start (fun b => set_busy (set_bsize b (heap_limit -! heap_start)) 0) in
  (0, World m (<[heap_mgr := Heap 0 heap_base heap_start heap_limit heap_start heap_start]> (mgrs w))).

(** The loop of [heap_manager_malloc]: [None] is out of fuel, [Some None] is no block. *)
Fixpoint find_block (fuel : nat) (m : Z -> block_info_s) (limit current effective_size : Z) : option (option Z) :=
  match fuel with
  | O => None
  | S fuel =>
      if negb (busy (m current) =? 0) || (bsize (m current) <? effective_size) then
        let current := current +! bsize (m current) in
        if limit <=? current then Some None else find_block fuel m limit current effective_size
      else Some (Some current)
  end.

(** Every block has at least 64 bytes. *)
Definition heap_fuel (h : heap_manager_s) : nat := Z.to_nat ((limit h - start h) / 64 + 1).

(** The result is the pointer, 0 for [NULL]; [None] when [heap_mgr] is not a heap. *)
Definition heap_manager_malloc (w : world) (heap_mgr size : Z) : option (Z * world) :=
  h ← mgrs w !! heap_mgr;
  let effective_size := ARROUND_UP (size +! SIZEOF_INFO) CACHE_LINE_SIZE in
  let first := if limit h -! effective_size <? next h then start h else next h in
  found ← find_block (heap_fuel h) (hdr w) (limit h) first effective_size;
  match found with
  | None => Some (0, w)
  | Some current =>
      let size := bsize (hdr w current) in
      let '(m, h) :=
        if CACHE_LINE_SIZE <=? size -! effective_size then
          let next := current +! effective_size in
          let m := upd (hdr w) next (fun b => set_busy (set_bsize b (size -! effective_size)) 0) in
          (upd m current (fun b => set_busy (set_bsize b effective_size) 1), set_next h next)
        else (upd (hdr w) current (fun b => set_busy b 1), h) in
      Some (current +! SIZEOF_INFO,
            World (upd m current (fun b => set_mgr b heap_mgr)) (<[heap_mgr := h]> (mgrs w)))
  end.

(** The loop of [heap_manager_free]. *)
Fixpoint merge_next (fuel : nat) (m : Z -> block_info_s) (limit current : Z) : option (Z -> block_info_s) :=
  match fuel with
  | O => None
  | S fuel =>
      let next := current +! bsize (m current) in
      if (next =? 0) || (limit <=? next) || (busy (m next) =? 1) then Some m
      else merge_next fuel (upd m current (fun b => set_bsize b (bsize b + bsize (m next)))) limit current
  end.

Definition heap_manager_free (w : world) (ptr : Z) : option world :=
  if ptr =? 0 then Some w
  else
    let current := ptr -! SIZEOF_INFO in
    let id := heap_mgr (hdr w current) in
    h ← mgrs w !! id;
    let m := upd (hdr w) current (fun b => set_busy b 0) in
    m ← merge_next (heap_fuel h) m (limit h) current;
    let h := if current <? next h then set_next h current else h in
    Some (World m (<[id := h]> (mgrs w))).

(** ** The blocks of a heap *)

(** The blocks in the order of their addresses: size and whether it is busy. *)
Definition blocks := list (Z * bool).

Fixpoint total (bs : blocks) : Z := match bs with [] => 0 | (sz, _) :: bs => sz + total bs end.

(** The blocks [bs] tile the memory from [a] on; the busy ones belong to the heap [id]. *)
Fixpoint tiles (id : Z) (m : Z -> block_info_s) (a : Z) (bs : blocks) : Prop :=
  match bs with
  | [] => True
  | (sz, b) :: bs =>
      64 <= sz /\ bsize (m a) = sz /\ busy (m a) = Z.b2z b /\ (b = true -> heap_mgr (m a) = id) /\
      tiles id m (a + sz) bs
  end.

(** The blocks with their addresses *)
Fixpoint placed (a : Z) (bs : blocks) : list (Z * Z * bool) :=
  match bs with [] => [] | (sz, b) :: bs => (a, sz, b) :: placed (a + sz) bs end.

Record heap_ok (w : world) (id : Z) (h : heap_manager_s) (bs : blocks) : Prop := {
  ok_mgr : mgrs w !! id = Some h;
  ok_start : 64 <= start h;
  ok_limit : limit h = start h + total bs;
  ok_range : total bs < 2 ^ 31 /\ limit h <= 2 ^ 32 - 64;
  ok_tiles : tiles id (hdr w) (start h) bs;
  ok_next : next h ∈ (placed (start h) bs).*1.*1;
}.

Section Tiles.
Context (id : Z).
Implicit Types (m : Z -> block_info_s) (bs p s : blocks).

Lemma total_app p s : total (p ++ s) = total p + total s.
Proof. induction p as [|[sz b] p IH]; cbn; lia. Qed.

Lemma tiles_app m a p s : tiles id m a (p ++ s) <-> tiles id m a p /\ tiles id m (a + total p) s.
Proof.
  revert a. induction p as [|[sz b] p IH]; intros a; cbn.
  - rewrite Z.add_0_r. tauto.
  - rewrite IH. replace (a + (sz + total p)) with (a + sz + total p) by lia. tauto.
Qed.

Lemma placed_app a p s : placed a (p ++ s) = placed a p ++ placed (a + total p) s.
Proof.
  revert a. induction p as [|[sz b] p IH]; intros a; cbn.
  - rewrite Z.add_0_r. done.
  - rewrite IH. do 3 f_equal. lia.
Qed.

Lemma tiles_total m a bs : tiles id m a bs -> 64 * Z.of_nat (length bs) <= total bs.
Proof. revert a. induction bs as [|[sz b] bs IH]; intros a; cbn; [lia|]. intros (?&_&_&_&H). apply IH in H. lia. Qed.

Lemma tiles_nonneg m a bs : tiles id m a bs -> 0 <= total bs.
Proof. intros H. apply tiles_total in H. lia. Qed.

(** Headers outside of the tiled range do not matter. *)
Lemma tiles_frame m m' a bs : (forall x, a <= x < a + total bs -> m' x = m x) ->
  tiles id m a bs -> tiles id m' a bs.
Proof.
  revert a. induction bs as [|[sz b] bs IH]; intros a Hf; cbn; [done|].
  intros (?&?&?&?&Ht). pose proof (tiles_nonneg _ _ _ Ht). cbn in Hf. rewrite Hf by lia.
  split_and!; try done. apply IH; [|done]. intros x Hx. apply Hf. lia.
Qed.

Lemma upd_ne m a x f : x <> a -> upd m a f x = m x.
Proof. intros. apply fn_lookup_insert_ne. done. Qed.
Lemma upd_eq m a f : upd m a f a = f (m a).
Proof. apply fn_lookup_insert. Qed.

(** A placed block lies inside the range, and two placed blocks do not overlap. *)
Lemma placed_bounds m a bs x sz b : tiles id m a bs -> (x, sz, b) ∈ placed a bs ->
  a <= x /\ 64 <= sz /\ x + sz <= a + total bs.
Proof.
  revert a. induction bs as [|[sz' b'] bs IH]; intros a; cbn.
  - intros _ H. apply not_elem_of_nil in H. done.
  - intros (?&_&_&_&Ht) [E|Hin]%elem_of_cons.
    + pose proof (tiles_nonneg _ _ _ Ht). simplify_eq. lia.
    + apply IH in Hin; [lia|done].
Qed.

Lemma placed_start_ge m a bs x : tiles id m a bs -> x ∈ (placed a bs).*1.*1 -> a <= x.
Proof.
  intros Ht Hin. apply list_elem_of_fmap in Hin as ([y b] & -> & Hin).
  apply list_elem_of_fmap in Hin as ([[x z] b'] & E & Hin). simplify_eq/=.
  apply (placed_bounds _ _ _ _ _ _ Ht) in Hin. lia.
Qed.

Lemma placed_disjoint m a bs x1 z1 b1 x2 z2 b2 : tiles id m a bs ->
  (x1, z1, b1) ∈ placed a bs -> (x2, z2, b2) ∈ placed a bs ->
  (x1 = x2 /\ z1 = z2 /\ b1 = b2) \/ x1 + z1 <= x2 \/ x2 + z2 <= x1.
Proof.
  revert a. induction bs as [|[sz b] bs IH]; intros a; cbn.
  - intros _ H. apply not_elem_of_nil in H. done.
  - intros (?&_&_&_&Ht) [E1|H1]%elem_of_cons [E2|H2]%elem_of_cons; simplify_eq.
    + left. done.
    + apply (placed_bounds _ _ _ _ _ _ Ht) in H2. lia.
    + apply (placed_bounds _ _ _ _ _ _ Ht) in H1. lia.
    + eauto.
Qed.

Lemma placed_split a bs x sz b : (x, sz, b) ∈ placed a bs ->
  exists p s, bs = p ++ (sz, b) :: s /\ x = a + total p.
Proof.
  revert a. induction bs as [|[sz' b'] bs IH]; intros a; cbn.
  - intros H. apply not_elem_of_nil in H. done.
  - intros [E|H]%elem_of_cons.
    + simplify_eq. exists [], bs. split; [done|]. cbn. lia.
    + apply IH in H as (p & s & -> & ->). exists ((sz', b') :: p), s. split; [done|]. cbn. lia.
Qed.
End Tiles.


(** The block does not fit a request. *)
Definition unfit (eff : Z) (b : Z * bool) : Prop := b.2 = true \/ b.1 < eff.

Section Search.
Context (id : Z).
Implicit Types (m : Z -> block_info_s) (bs p s : blocks).

(** First fit from a block on. *)
Lemma find_block_ok m limit eff bs : forall fuel a, bs <> [] -> 0 <= a ->
  (length bs <= fuel)%nat -> tiles id m a bs -> limit = a + total bs -> limit < 2 ^ 32 ->
  (find_block fuel m limit a eff = Some None /\ Forall (unfit eff) bs) \/
  (exists p sz s, bs = p ++ (sz, false) :: s /\ eff <= sz /\ Forall (unfit eff) p /\
     find_block fuel m limit a eff = Some (Some (a + total p))).
Proof.
  induction bs as [|[sz b] bs IH]; intros fuel a Hne Ha Hf Ht Hl Hlim; [done|].
  destruct Ht as (Hsz & Hs & Hb & _ & Ht).
  destruct fuel as [|fuel]; [cbn in Hf; lia|]. cbn [find_block]. rewrite Hs, Hb.
  pose proof (tiles_nonneg _ _ _ _ Ht). cbn in Hl.
  destruct (negb (Z.b2z b =? 0) || (sz <? eff)) eqn:E.
  - assert (Hu : unfit eff (sz, b)).
    { unfold unfit. cbn. destruct b; [left; done|right]. cbn in E. apply Z.ltb_lt in E. done. }
    rewrite u32_small by (unfold is_u32; lia). destruct bs as [|b' bs].
    + cbn in Hl. rewrite (proj2 (Z.leb_le _ _)) by lia. left. split; [done|]. constructor; done.
    + rewrite (proj2 (Z.leb_gt limit (a + sz))).
      2:{ destruct b' as [sz' b']. destruct Ht as (?&_&_&_&Ht'). apply tiles_nonneg in Ht'. cbn in *. lia. }
      destruct (IH fuel (a + sz)) as [[-> HF]|(p & z & s & -> & Hz & HF & ->)]; try done; try lia.
      { cbn in *. lia. }
      * left. split; [done|]. constructor; done.
      * right. exists ((sz, b) :: p), z, s. split_and!; try done; [constructor; done|]. cbn. do 2 f_equal. lia.
  - apply orb_false_iff in E as [E1 E2]. right. exists [], sz, bs.
    destruct b; [done|]. split_and!; [done|apply Z.ltb_ge in E2; lia|done|]. cbn. rewrite Z.add_0_r. done.
Qed.

(** The free blocks at the head of a list of blocks. *)
Fixpoint free_run bs : blocks * blocks :=
  match bs with
  | (sz, false) :: bs => let '(f, r) := free_run bs in ((sz, false) :: f, r)
  | _ => ([], bs)
  end.

Lemma free_run_app bs f r : free_run bs = (f, r) -> bs = f ++ r.
Proof.
  revert f r. induction bs as [|[sz []] bs IH]; cbn [free_run]; intros f r; [by intros [= <- <-]..|].
  destruct (free_run bs) as [f' r'] eqn:E. intros [= <- <-]. cbn. f_equal. apply IH. done.
Qed.

Lemma free_run_rest bs f r sz b : free_run bs = (f, r) -> head r = Some (sz, b) -> b = true.
Proof.
  revert f r. induction bs as [|[sz' []] bs IH]; cbn [free_run]; intros f r;
    [by intros [= <- <-]|intros [= <- <-] [= <- <-]; done|].
  destruct (free_run bs) as [f' r'] eqn:E. intros [= <- <-]. eapply IH; done.
Qed.

(** The loop of [free] swallows exactly the free blocks that follow. *)
Lemma merge_next_ok limit a bs : forall fuel m sz f r,
  0 < a -> 64 <= sz -> (length bs < fuel)%nat -> bsize (m a) = sz -> busy (m a) = 0 ->
  tiles id m (a + sz) bs -> limit = a + sz + total bs -> limit < 2 ^ 32 -> sz + total bs < 2 ^ 31 ->
  free_run bs = (f, r) ->
  exists m', merge_next fuel m limit a = Some m' /\ bsize (m' a) = sz + total f /\ busy (m' a) = 0 /\
    (forall x, x <> a -> m' x = m x).
Proof.
  induction bs as [|[s b] bs IH]; intros fuel m sz f r Ha Hsz Hfu Hs Hb Ht Hl Hlim Hz Hrun;
    (destruct fuel as [|fuel]; [cbn in Hfu; lia|]); cbn [merge_next]; rewrite Hs;
    cbn in Hl; rewrite u32_small by (unfold is_u32; (lia || (destruct Ht as (?&_&_&_&?%tiles_nonneg); lia))).
  - cbn in Hrun. simplify_eq. rewrite (proj2 (Z.leb_le _ _)), orb_true_r by lia. cbn.
    exists m. split_and!; try done. lia.
  - destruct Ht as (Hs64 & Hss & Hbb & _ & Ht). pose proof (tiles_nonneg _ _ _ _ Ht).
    rewrite (proj2 (Z.leb_gt _ _)), (proj2 (Z.eqb_neq _ _)), Hbb by lia. cbn in Hrun.
    destruct b; cbn [Z.b2z Z.eqb Pos.eqb orb].
    + simplify_eq. exists m. split_and!; try done. cbn. lia.
    + destruct (free_run bs) as [f' r'] eqn:Er. simplify_eq. cbn in Hz.
      destruct (IH fuel (upd m a (fun b => set_bsize b (bsize b + bsize (m (a + bsize (m a)))))) (bsize (m a) + bsize (m (a + bsize (m a)))) f' r)
        as (m' & -> & E1 & E2 & E3); rewrite ?upd_eq; cbn; try done; try lia.
      { cbn in Hfu. lia. }
      { rewrite Z.mod_small by lia. done. }
      { rewrite Z.add_assoc. eapply tiles_frame; [|exact Ht]. intros x Hx. apply upd_ne. lia. }
      exists m'. split_and!; try done; [lia|]. intros x Hx. rewrite E3, upd_ne by done. done.
Qed.
End Search.

(** What [malloc] makes of the free block it takes. *)
Definition carve (eff sz : Z) : blocks :=
  if 64 <=? sz - eff then [(eff, true); (sz - eff, false)] else [(sz, true)].

Lemma total_carve eff sz : total (carve eff sz) = sz.
Proof. unfold carve. zcases; cbn; lia. Qed.

(** The size of the block a request needs *)
Definition needs (size : Z) : Z := ARROUND_UP (size +! SIZEOF_INFO) CACHE_LINE_SIZE.

Lemma needs_ok size : 0 <= size < 2 ^ 31 -> size + 8 <= needs size < size + 72 /\ needs size mod 64 = 0.
Proof.
  intros. unfold needs, SIZEOF_INFO. rewrite u32_small by (unfold is_u32; lia).
  change CACHE_LINE_SIZE with (2 ^ 6). destruct (ARROUND_UP_spec (size + 8) 6) as [H1 H2]; [lia..|].
  change (2 ^ 6) with 64 in *. lia.
Qed.
Lemma needs_64 size : 0 <= size < 2 ^ 31 -> 64 <= needs size.
Proof.
  intros Hs. destruct (needs_ok size Hs) as [H1 H2].
  pose proof (Z.div_mod (needs size) 64). lia.
Qed.

Section Ops.
Context (id : Z).
Implicit Types (w : world) (h : heap_manager_s) (bs p s : blocks).

Lemma heap_fuel_ok w h bs : heap_ok w id h bs -> (length bs < heap_fuel h)%nat.
Proof.
  intros O. pose proof (tiles_total _ _ _ _ (ok_tiles _ _ _ _ O)). unfold heap_fuel.
  rewrite (ok_limit _ _ _ _ O). replace (start h + total bs - start h) with (total bs) by lia.
  pose proof (Z.div_le_mono (64 * Z.of_nat (length bs)) (total bs) 64).
  rewrite Z.mul_comm, Z.div_mul in H0 by lia. lia.
Qed.

(** The state after [malloc] took the block [sz] at the end of [p]. *)
Lemma take_block w h p sz s size : heap_ok w id h (p ++ (sz, false) :: s) ->
  0 <= size < 2 ^ 31 -> needs size <= sz ->
  let a := start h + total p in
  let eff := needs size in
  let '(m, h') :=
    if CACHE_LINE_SIZE <=? bsize (hdr w a) -! eff then
      let next := a +! eff in
      let m := upd (hdr w) next (fun b => set_busy (set_bsize b (bsize (hdr w a) -! eff)) 0) in
      (upd m a (fun b => set_busy (set_bsize b eff) 1), set_next h next)
    else (upd (hdr w) a (fun b => set_busy b 1), h) in
  heap_ok (World (upd m a (fun b => set_mgr b id)) (<[id := h']> (mgrs w))) id h'
          (p ++ carve eff sz ++ s) /\ start h' = start h.
Proof.
  intros [Hm Hst Hl [Hr1 Hr2] Ht Hn] Hsz Hfit. cbv zeta.
  pose proof (needs_64 size Hsz) as H64. set (eff := needs size) in *. set (a := start h + total p).
  rewrite total_app in *. cbn in Hl, Hr1. apply tiles_app in Ht as [Htp (Hsz64 & Hs & Hb & _ & Hts)].
  fold a in Hs, Hb, Hts. rewrite Hs. unfold CACHE_LINE_SIZE, carve.
  pose proof (tiles_nonneg _ _ _ _ Htp). pose proof (tiles_nonneg _ _ _ _ Hts).
  rewrite (u32_small (sz - eff)) by (unfold is_u32; lia). destruct (Z.leb_spec 64 (sz - eff)).
  - rewrite (u32_small (a + eff)) by (unfold is_u32; lia).
    split; [|done]. split; cbn; rewrite ?lookup_insert_eq; try done.
    + rewrite total_app. cbn. lia.
    + rewrite total_app. cbn. lia.
    + apply tiles_app. split.
      { eapply tiles_frame; [|exact Htp]. intros x Hx. rewrite !upd_ne by lia. done. }
      fold a. cbn. rewrite !upd_eq, (upd_ne _ a (a + eff)), (upd_ne _ a (a + eff)), upd_eq by lia. cbn.
      rewrite !Z.mod_small by lia. split_and!; try done; try lia.
      eapply tiles_frame; [|replace (a + eff + (sz - eff)) with (a + sz) by lia; exact Hts].
      intros x Hx. rewrite !upd_ne by lia. done.
    + rewrite placed_app, !fmap_app. fold a. cbn. rewrite elem_of_app, !elem_of_cons. tauto.
  - split; [|done]. split; cbn; rewrite ?lookup_insert_eq; try done.
    + rewrite total_app. cbn. lia.
    + rewrite total_app. cbn. lia.
    + apply tiles_app. split.
      { eapply tiles_frame; [|exact Htp]. intros x Hx. rewrite !upd_ne by lia. done. }
      fold a. cbn. rewrite !upd_eq. cbn. split_and!; try done; try lia.
      eapply tiles_frame; [|exact Hts]. intros x Hx. rewrite !upd_ne by lia. done.
    + revert Hn. rewrite !placed_app, !fmap_app. done.
Qed.

(** The first block that is looked at. *)
Lemma first_block w h bs eff : heap_ok w id h bs ->
  exists p s, bs = p ++ s /\ s <> [] /\
    (if limit h -! eff <? next h then start h else next h) = start h + total p /\
    ((limit h -! eff <? next h) = true -> p = []).
Proof.
  intros O. pose proof (ok_next _ _ _ _ O) as Hn.
  apply list_elem_of_fmap in Hn as ([y b] & E1 & Hn). apply list_elem_of_fmap in Hn as ([[x sz] b'] & E2 & Hn).
  simplify_eq/=. apply placed_split in Hn as (p & s & -> & Hx).
  destruct (limit h -! eff <? next h).
  - exists [], (p ++ (sz, b') :: s). split_and!; try done; [destruct p; done|cbn; lia].
  - exists p, ((sz, b') :: s). split_and!; try done.
Qed.

(** [malloc]: either every block from the cursor on is busy or too small, and nothing changes,
    or a free block that is large enough is split or taken whole. *)
Lemma heap_malloc_ok w h bs size : heap_ok w id h bs -> 0 <= size < 2 ^ 31 ->
  exists r w', heap_manager_malloc w id size = Some (r, w') /\
  ((r = 0 /\ w' = w /\ exists p s, bs = p ++ s /\ Forall (unfit (needs size)) s /\
      (p = [] \/ start h + total p = next h)) \/
   (exists p sz s h', bs = p ++ (sz, false) :: s /\ needs size <= sz /\ r = start h + total p + 8 /\
      heap_ok w' id h' (p ++ carve (needs size) sz ++ s) /\ start h' = start h)).
Proof.
  intros O Hs. destruct (first_block w h bs (needs size) O) as (p & s & -> & Hne & Hfirst & Hp0).
  pose proof (heap_fuel_ok _ _ _ O) as Hfu. rewrite length_app in Hfu.
  pose proof O as [Hm Hst Hl [Hr1 Hr2] Ht Hn]. rewrite total_app in *. apply tiles_app in Ht as [Htp Hts].
  pose proof (tiles_nonneg _ _ _ _ Htp). pose proof (tiles_nonneg _ _ _ _ Hts).
  unfold heap_manager_malloc. rewrite Hm. cbn [mbind option_bind]. fold (needs size). rewrite Hfirst.
  destruct (find_block_ok id (hdr w) (limit h) (needs size) s (heap_fuel h) (start h + total p))
    as [[-> HF]|(p1 & sz & s1 & -> & Hz & HF & ->)]; try done; try lia; cbn [mbind option_bind].
  - do 2 eexists. split; [done|]. left. split_and!; try done. exists p, s. split_and!; try done.
    destruct (limit h -! needs size <? next h); [left; auto|right; done].
  - rewrite app_assoc in O. pose proof (take_block w h (p ++ p1) sz s1 size O Hs Hz) as T. cbv zeta in T.
    rewrite total_app, Z.add_assoc in T.
    set (a := start h + total p + total p1) in *.
    destruct (if CACHE_LINE_SIZE <=? bsize (hdr w a) -! needs size then _ else _) as [m h'] eqn:E.
    destruct T as [O' Hst']. do 2 eexists. split; [done|]. right. exists (p ++ p1), sz, s1, h'.
    rewrite total_app, Z.add_assoc. fold a. rewrite app_assoc. split_and!; try done.
    unfold SIZEOF_INFO. apply u32_small. apply tiles_app in Hts as [Hts1 (?&_&_&_&?%tiles_nonneg)].
    apply tiles_nonneg in Hts1. rewrite total_app in *. cbn in *. unfold is_u32. lia.
Qed.

(** [free] of a busy block merges it with the free blocks that follow. *)
Lemma heap_free_ok w h p sz s f r : heap_ok w id h (p ++ (sz, true) :: s) -> free_run s = (f, r) ->
  exists w' h', heap_manager_free w (start h + total p + 8) = Some w' /\
    heap_ok w' id h' (p ++ (sz + total f, false) :: r) /\ start h' = start h.
Proof.
  intros O Hrun. pose proof (heap_fuel_ok _ _ _ O) as Hfu. rewrite length_app in Hfu. cbn in Hfu.
  destruct O as [Hm Hst Hl [Hr1 Hr2] Ht Hn]. rewrite total_app in *. cbn in Hl, Hr1.
  apply tiles_app in Ht as [Htp (Hsz & Hs & Hb & Hid & Hts)]. set (a := start h + total p) in *.
  pose proof (tiles_nonneg _ _ _ _ Htp). pose proof (tiles_nonneg _ _ _ _ Hts).
  unfold heap_manager_free, SIZEOF_INFO. rewrite (proj2 (Z.eqb_neq _ _)) by lia.
  replace (a + 8 -! 8) with a by (rewrite u32_small; [lia|unfold is_u32; lia]).
  rewrite Hid, Hm by done. cbn [mbind option_bind].
  destruct (merge_next_ok id (limit h) a s (heap_fuel h) (upd (hdr w) a (fun b => set_busy b 0)) sz f r)
    as (m' & -> & E1 & E2 & E3); rewrite ?upd_eq; try done; try lia.
  { eapply tiles_frame; [|exact Hts]. intros x Hx. apply upd_ne. lia. }
  cbn [mbind option_bind]. apply free_run_app in Hrun as ->.
  apply tiles_app in Hts as [Htf Htr]. pose proof (tiles_nonneg _ _ _ _ Htf). pose proof (tiles_nonneg _ _ _ _ Htr).
  rewrite total_app in *.
  eexists _, (if a <? next h then set_next h a else h). split; [done|]. split; [|destruct (a <? next h); done].
  assert (Hh : forall h', limit h' = limit h -> start h' = start h ->
            next h' ∈ (placed (start h) (p ++ (sz + total f, false) :: r)).*1.*1 ->
            heap_ok (World m' (<[id := h']> (mgrs w))) id h' (p ++ (sz + total f, false) :: r)).
  { intros h' Eh1 Eh2 Hn'. split; cbn; rewrite ?lookup_insert_eq, ?total_app, ?Eh1, ?Eh2; cbn; try done; try lia.
    apply tiles_app. split.
    - eapply tiles_frame; [|exact Htp]. intros x Hx. rewrite E3, upd_ne by lia. done.
    - fold a. cbn. split_and!; try done; try lia. eapply tiles_frame; [|rewrite Z.add_assoc; exact Htr].
      intros x Hx. rewrite E3, upd_ne by lia. done. }
  destruct (Z.ltb_spec a (next h)); (apply Hh; [done..|]).
  - rewrite placed_app, !fmap_app. cbn. rewrite elem_of_app, elem_of_cons. right. left. done.
  - revert Hn. rewrite !placed_app, !fmap_app. fold a. cbn. rewrite !elem_of_app, !elem_of_cons.
    intros [?|[?|Hin]]; [tauto..|]. exfalso.
    apply (placed_start_ge id (hdr w)) in Hin; [lia|]. apply tiles_app. done.
Qed.
End Ops.

Lemma heap_init_ok w id b s l : 64 <= s -> 64 <= l - s < 2 ^ 31 -> l <= 2 ^ 32 - 64 ->
  exists w' h, heap_manager_init w id b s l = (0, w') /\ heap_ok w' id h [(l - s, false)] /\
    start h = s /\ limit h = l.
Proof.
  intros ? ? ?. unfold heap_manager_init. eexists _, (Heap 0 b s l s s). split; [done|]. split; [|done].
  split; cbn; rewrite ?lookup_insert_eq, ?upd_eq; cbn; try done; try lia.
  - rewrite u32_small, Z.mod_small by (unfold is_u32; lia). split_and!; try done; lia.
  - apply elem_of_cons. left. done.
Qed.

(** ** Clients of a heap *)

Inductive request := Malloc (size : Z) | Free (ptr : Z).

(** The client of a heap frees only what it holds; [live] has the size of each region it holds. *)
Definition serve (id : Z) (w : world) (live : gmap Z Z) (r : request) : option (world * gmap Z Z) :=
  match r with
  | Malloc size =>
      '(p, w) ← heap_manager_malloc w id size;
      Some (w, if p =? 0 then live else <[p := size]> live)
  | Free p =>
      match live !! p with
      | None => Some (w, live)
      | Some _ => w ← heap_manager_free w p; Some (w, delete p live)
      end
  end.

Fixpoint serve_all (id : Z) (w : world) (live : gmap Z Z) (rs : list request) : option (world * gmap Z Z) :=
  match rs with
  | [] => Some (w, live)
  | r :: rs => '(w, live) ← serve id w live r; serve_all id w live rs
  end.

Definition size_ok (r : request) : Prop := match r with Malloc size => 0 <= size < 2 ^ 31 | Free _ => True end.

(** The busy blocks are exactly those of the regions the client holds. *)
Record held (start : Z) (bs : blocks) (live : gmap Z Z) : Prop := {
  held_busy : forall p s, live !! p = Some s -> 0 <= s /\ exists sz, (p - 8, sz, true) ∈ placed start bs /\ s + 8 <= sz;
  held_live : forall a sz, (a, sz, true) ∈ placed start bs -> is_Some (live !! (a + 8));
}.

Lemma carve_busy a eff sz x z : (x, z, true) ∈ placed a (carve eff sz) <->
  x = a /\ z = if 64 <=? sz - eff then eff else sz.
Proof.
  unfold carve. destruct (64 <=? sz - eff); cbn; rewrite !elem_of_cons, elem_of_nil;
    split; [intros [?|[?|[]]]|intros [-> ->]|intros [?|[]]|intros [-> ->]]; simplify_eq; auto.
Qed.

Lemma free_run_idle s f r a x z : free_run s = (f, r) -> (x, z, true) ∈ placed a f -> False.
Proof.
  revert f r a. induction s as [|[sz []] s IH]; cbn [free_run]; intros f r a;
    [by intros [= <- <-] ?%elem_of_nil..|].
  destruct (free_run s) as [f' r'] eqn:E. intros [= <- <-]. cbn.
  intros [?|Hin]%elem_of_cons; [simplify_eq|]. eapply IH; done.
Qed.

Section Client.
Context (id : Z).

Lemma held_malloc h p sz s live size : held (start h) (p ++ (sz, false) :: s) live ->
  0 <= size -> size + 8 <= needs size -> needs size <= sz ->
  held (start h) (p ++ carve (needs size) sz ++ s) (<[start h + total p + 8 := size]> live).
Proof.
  intros [H1 H2] ? Hn Hle. set (a := start h + total p).
  assert (Hb : forall x z, (x, z, true) ∈ placed (start h) (p ++ carve (needs size) sz ++ s) <->
            (x, z, true) ∈ placed (start h) (p ++ (sz, false) :: s) \/
            (x = a /\ z = if 64 <=? sz - needs size then needs size else sz)).
  { intros x z. rewrite !placed_app, total_carve. fold a. cbn. rewrite !elem_of_app, elem_of_cons, carve_busy.
    split; [tauto|]. intros [[?|[?|?]]|?]; simplify_eq; tauto. }
  split.
  - intros q z. rewrite lookup_insert_Some. intros [[<- <-]|[_ Hq]].
    + split; [done|]. eexists. rewrite Hb. replace (a + 8 - 8) with a by lia.
      split; [right; done|]. zcases; lia.
    + destruct (H1 _ _ Hq) as (? & z' & Hin & ?). split; [done|]. exists z'. rewrite Hb. auto.
  - intros x z. rewrite Hb. intros [Hin|[-> _]].
    + destruct (H2 _ _ Hin) as [v Hv]. destruct (decide (x = a)) as [->|].
      * rewrite lookup_insert_eq. eauto.
      * rewrite lookup_insert_ne by lia. eauto.
    + rewrite lookup_insert_eq. eauto.
Qed.

Lemma held_free m h p sz s f r live : tiles id m (start h) (p ++ (sz, true) :: s) ->
  held (start h) (p ++ (sz, true) :: s) live -> free_run s = (f, r) ->
  held (start h) (p ++ (sz + total f, false) :: r) (delete (start h + total p + 8) live).
Proof.
  intros Ht [H1 H2] Hrun. pose proof (free_run_app _ _ _ Hrun) as ->. set (a := start h + total p).
  apply tiles_app in Ht as [Htp (Hsz & _ & _ & _ & Hts)]. fold a in Hts.
  assert (Hb : forall x z, (x, z, true) ∈ placed (start h) (p ++ (sz + total f, false) :: r) <->
            (x, z, true) ∈ placed (start h) (p ++ (sz, true) :: f ++ r) /\ x <> a).
  { intros x z. rewrite !placed_app. fold a. cbn. rewrite placed_app, Z.add_assoc, !elem_of_app, !elem_of_cons.
    pose proof (placed_bounds id m (start h) p x z true Htp) as B1.
    pose proof (placed_bounds id m (a + sz) (f ++ r) x z true Hts) as B2.
    rewrite placed_app, elem_of_app in B2. rewrite elem_of_app.
    split.
    - intros [Hin|[?|Hin]]; [|simplify_eq|]; (split; [tauto|]); [apply B1 in Hin|specialize (B2 (or_intror Hin))]; lia.
    - intros [[Hin|[?|[Hin|Hin]]] Hne]; simplify_eq; try tauto. exfalso. eapply free_run_idle; done. }
  split.
  - intros q z [Hq Hl]%lookup_delete_Some. destruct (H1 _ _ Hl) as (? & z' & Hin & ?).
    split; [done|]. exists z'. rewrite Hb. split_and!; try done. lia.
  - intros x z [Hin Hne]%Hb. rewrite lookup_delete_ne by lia. eapply H2; done.
Qed.

Lemma serve_ok w h bs live r : heap_ok w id h bs -> held (start h) bs live -> size_ok r ->
  exists w' h' bs' live', serve id w live r = Some (w', live') /\
    heap_ok w' id h' bs' /\ held (start h') bs' live' /\ start h' = start h /\ total bs' = total bs.
Proof.
  intros O Hh Hr. destruct r as [size|ptr]; cbn in *.
  - destruct (heap_malloc_ok id w h bs size O Hr) as (r & w' & -> & Hc). cbn.
    destruct Hc as [(-> & -> & _)|(p & sz & s & h' & -> & Hfit & -> & O' & Hst)].
    + cbn. eauto 10.
    + pose proof (tiles_app id (hdr w) (start h) p ((sz, false) :: s)) as [[Ht _] _]; [apply O|].
      apply tiles_nonneg in Ht. pose proof (ok_start _ _ _ _ O). rewrite (proj2 (Z.eqb_neq _ _)) by lia.
      do 4 eexists. split; [done|]. split; [exact O'|]. rewrite Hst. split_and!; [|done|].
      * destruct (needs_ok size Hr). apply held_malloc; try done; lia.
      * rewrite !total_app, total_carve. cbn. done.
  - destruct (live !! ptr) as [s0|] eqn:El; [|eauto 10].
    destruct (held_busy _ _ _ Hh _ _ El) as (_ & sz & Hin & _).
    apply placed_split in Hin as (p & s & -> & Hp). destruct (free_run s) as [f r] eqn:Hrun.
    destruct (heap_free_ok id w h p sz s f r O Hrun) as (w' & h' & E & O' & Hst).
    replace (start h + total p + 8) with ptr in E by lia. rewrite E. cbn.
    do 4 eexists. split; [done|]. split; [exact O'|]. rewrite Hst. split_and!; [|done|].
    + replace ptr with (start h + total p + 8) by lia.
      eapply held_free; [apply O|done|done].
    + apply free_run_app in Hrun as ->. rewrite !total_app. cbn. rewrite total_app. lia.
Qed.

Lemma serve_all_ok rs : forall w h bs live, heap_ok w id h bs -> held (start h) bs live -> Forall size_ok rs ->
  exists w' h' bs' live', serve_all id w live rs = Some (w', live') /\
    heap_ok w' id h' bs' /\ held (start h') bs' live' /\ start h' = start h /\ total bs' = total bs.
Proof.
  induction rs as [|r rs IH]; intros w h bs live O Hh HF; cbn [serve_all]; [eauto 10|].
  apply Forall_cons in HF as [Hr HF].
  destruct (serve_ok w h bs live r O Hh Hr) as (w1 & h1 & bs1 & live1 & -> & O1 & H1 & E1 & E2). cbn [mbind option_bind].
  destruct (IH w1 h1 bs1 live1 O1 H1 HF) as (w2 & h2 & bs2 & live2 & -> & O2 & H2 & E3 & E4).
  exists w2, h2, bs2, live2. split_and!; try done; congruence.
Qed.
End Client.

(** C3: from its initialisation on, whatever sequence of allocations of less than 2^31 bytes each ([size_ok]; the size of a larger request wraps around when it
    is rounded, [heap_malloc_overflow]) and of frees of held regions a heap of less than 2^31 bytes serves, every loop terminates; the regions held lie inside the heap and are
    pairwise disjoint; and once all are given back, no block is busy. *)
Theorem heap_regions_disjoint (w : world) (id b s l : Z) (rs : list request) :
  64 <= s -> 64 <= l - s < 2 ^ 31 -> l <= 2 ^ 32 - 64 -> Forall size_ok rs ->
  exists w' live', serve_all id (heap_manager_init w id b s l).2 ∅ rs = Some (w', live') /\
    (forall p n, live' !! p = Some n -> s + 8 <= p /\ p + n <= l) /\
    (forall p1 n1 p2 n2, live' !! p1 = Some n1 -> live' !! p2 = Some n2 -> p1 <> p2 ->
       p1 + n1 <= p2 - 8 \/ p2 + n2 <= p1 - 8) /\
    (live' = ∅ -> exists h' bs', heap_ok w' id h' bs' /\ Forall (fun b => b.2 = false) bs').
Proof.
  intros H1 H2 H3 HF. destruct (heap_init_ok w id b s l H1 H2 H3) as (w0 & h & -> & O & Hs & Hl).
  destruct (serve_all_ok id rs w0 h _ ∅ O) as (w' & h' & bs' & live' & E & O' & [B1 B2] & Hs' & Ht'); [|done|].
  { split; [intros ? ?; rewrite lookup_empty; done|]. cbn. intros a sz [?|?%elem_of_nil]%elem_of_cons; simplify_eq; done. }
  pose proof (ok_tiles _ _ _ _ O') as T. cbn in Ht'.
  exists w', live'. split_and!; [exact E|..].
  - intros p n Hp. destruct (B1 _ _ Hp) as (_ & sz & Hin & ?). apply (placed_bounds _ _ _ _ _ _ _ T) in Hin. lia.
  - intros p1 n1 p2 n2 Hp1 Hp2 Hne. destruct (B1 _ _ Hp1) as (_ & sz1 & Hin1 & ?), (B1 _ _ Hp2) as (_ & sz2 & Hin2 & ?).
    pose proof (placed_disjoint _ _ _ _ _ _ _ _ _ _ T Hin1 Hin2). lia.
  - intros ->. exists h', bs'. split; [done|]. apply Forall_forall. intros [sz []] Hin; [exfalso|done].
    apply list_elem_of_split in Hin as (p & q & ->).
    destruct (B2 (start h' + total p) sz) as [v Hv].
    + rewrite placed_app. cbn. apply elem_of_app. right. apply elem_of_cons. left. done.
    + rewrite lookup_empty in Hv. done.
Qed.

Definition no_world : world := World (fun _ => Info 0 0 0) ∅.

Lemma heap_regions_disjoint_witness :
  exists w' live', serve_all 1 (heap_manager_init no_world 1 4096 4096 8192).2 ∅ [Malloc 100; Malloc 20; Free 4104] = Some (w', live') /\
    (forall p n, live' !! p = Some n -> 4096 + 8 <= p /\ p + n <= 8192) /\
    (forall p1 n1 p2 n2, live' !! p1 = Some n1 -> live' !! p2 = Some n2 -> p1 <> p2 ->
       p1 + n1 <= p2 - 8 \/ p2 + n2 <= p1 - 8) /\
    (live' = ∅ -> exists h' bs', heap_ok w' 1 h' bs' /\ Forall (fun b => b.2 = false) bs').
Proof.
  apply (heap_regions_disjoint no_world 1 4096 4096 8192 [Malloc 100; Malloc 20; Free 4104]); [lia..|].
  repeat constructor; cbn; lia.
Defined.

(** The search starts at the cursor and does not come back to the blocks before it: here a
    request of 40 bytes is refused although the heap has a free block of 64. *)
Theorem heap_malloc_incomplete :
  ('(w, live) ← serve_all 1 (heap_manager_init no_world 1 4096 4096 4608).2 ∅
                  [Malloc 40; Malloc 40; Free 4104; Malloc 100; Malloc 220];
   '(p, w) ← heap_manager_malloc w 1 40;
   Some (p, busy (hdr w 4096), bsize (hdr w 4096), needs 40)) = Some (0, 0, 64, 64).
Proof. vm_compute. reflexivity. Qed.

(** The size of a request is added to that of the header modulo [2 ^ 32]: a request of almost
    four gigabytes is given a block of 64 bytes. *)
Theorem heap_malloc_overflow :
  ('(p, w) ← heap_manager_malloc (heap_manager_init no_world 1 4096 4096 8192).2 1 (2 ^ 32 - 4);
   Some (p, bsize (hdr w (p - 8)))) = Some (4104, 64).
Proof. vm_compute. reflexivity. Qed.
