(* ===== verification/Kcm.v ===== *)
(** * Kcm: the object caches of [kernel/mm/kcm.c]

    A cache cuts pages into blocks of one size.  The descriptor of a page ([page_info_s]) is at
    the start of the page and has a bitmap of its free blocks.  The pages are on the active, the
    busy or the free list; the model has each list as the sequence of the addresses of its pages,
    which is what the doubly linked lists of [ListH] implement.  [mem] is the answers of
    [page_alloc] to come: the address of a page with what its first four words, which become the
    bitmap, hold.  The operations run under the spinlock of the cache. *)

From S2P Require Import Prelude Bits.

Definition KCM_ALIGNE : Z := 64.
Definition KCM_PAGE_SIZE : Z := 4096.
Definition KCM_PAGE_MASK : Z := ~! (KCM_PAGE_SIZE -! 1).
Definition KCM_PAGE_ACTIVE : Z := 0x001.
Definition KCM_PAGE_BUSY : Z := 0x002.
Definition SIZEOF_PAGE_INFO : Z := 40.
Definition SIZEOF_BITMAP : Z := 16.

(** [struct page_info_s]; [kcm] is the only cache of the model and [page] is known by the address
    of its contents. *)
Record page_info_s := PageInfo {
  bitmap : bitmap_t;
  blk_tbl : Z;
  current_index : Z;
  refcount : Z;
  flags : Z;
}.

Definition set_flags (pi : page_info_s) (f : Z) : page_info_s :=
  PageInfo (bitmap pi) (blk_tbl pi) (current_index pi) (refcount pi) f.
Definition PAGE_IS (pi : page_info_s) (f : Z) : bool := negb (Z.land (flags pi) f =? 0).
Definition PAGE_SET (pi : page_info_s) (f : Z) : page_info_s := set_flags pi (Z.lor (flags pi) f).
Definition PAGE_CLEAR (pi : page_info_s) (f : Z) : page_info_s :=
  set_flags pi (Z.land (flags pi) (Z.lnot f) mod 256).

(** [struct kcm_s]; [obj_init] and [obj_destroy] tell whether the pointers are set. *)
Record kcm_s := Kcm {
  size : Z;
  blocks_nr : Z;
  aligne : Z;
  activelist : list Z;
  busylist : list Z;
  freelist : list Z;
  free_pages_nr : Z;
  free_pages_min : Z;
  free_pages_max : Z;
  busy_pages_nr : Z;
  active_pages_nr : Z;
  obj_init : bool;
  obj_destroy : bool;
}.

(** The calls a cache makes to its client. *)
Inductive call := Ctor (ptr : Z) | Dtor (ptr : Z) | PageFree (page : Z).

(** The cache, the descriptors of its pages, and the calls made *)
Record world := World { kcm : kcm_s; infos : gmap Z page_info_s; calls : list call }.

Definition set_kcm (w : world) (k : kcm_s) : world := World k (infos w) (calls w).
Definition set_info (w : world) (pg : Z) (pi : page_info_s) : world :=
  World (kcm w) (<[pg := pi]> (infos w)) (calls w).
Definition add_calls (w : world) (l : list call) : world := World (kcm w) (infos w) (calls w ++ l).

Definition set_lists (k : kcm_s) (a b f : list Z) (fn bn an : Z) : kcm_s :=
  Kcm (size k) (blocks_nr k) (aligne k) a b f fn (free_pages_min k) (free_pages_max k) bn an
      (obj_init k) (obj_destroy k).

Definition list_unlink (x : Z) (l : list Z) : list Z := filter (fun y => y <> x) l.

(** ** Operations *)

(** The address of the block, 0 when the page has none *)
Definition get_block (w : world) (pg : Z) : option (Z * world) :=
  pi ← infos w !! pg;
  if blocks_nr (kcm w) <=? current_index pi then Some (0, w)
  else
    index ← bitmap_ffs2 (bitmap pi) (current_index pi) SIZEOF_BITMAP;
    if index =? -1 then Some (0, w)
    else
      bm ← bitmap_clear (bitmap pi) index;
      Some (blk_tbl pi +! index *! size (kcm w),
            set_info w pg (PageInfo bm (blk_tbl pi) ((index + 1) mod 256) ((refcount pi + 1) mod 256) (flags pi))).

Definition put_block (w : world) (ptr : Z) : option (Z * world) :=
  let pg := Z.land ptr KCM_PAGE_MASK in
  pi ← infos w !! pg;
  let index := (ptr -! blk_tbl pi) / size (kcm w) in
  bm ← bitmap_set (bitmap pi) index;
  let pi := PageInfo bm (blk_tbl pi) (if index <? current_index pi then index mod 256 else current_index pi)
                     ((refcount pi - 1) mod 256) (flags pi) in
  let k := kcm w in
  if PAGE_IS pi KCM_PAGE_BUSY then
    let pi := PAGE_CLEAR pi KCM_PAGE_BUSY in
    Some (0, set_info (set_kcm w (set_lists k (list_unlink pg (activelist k) ++ [pg]) (list_unlink pg (busylist k))
                                            (list_unlink pg (freelist k)) (free_pages_nr k)
                                            (busy_pages_nr k -! 1) (active_pages_nr k +! 1))) pg pi)
  else if negb (PAGE_IS pi KCM_PAGE_ACTIVE) && (refcount pi =? 0) then
    Some (0, set_info (set_kcm w (set_lists k (list_unlink pg (activelist k)) (list_unlink pg (busylist k))
                                            (pg :: list_unlink pg (freelist k)) (free_pages_nr k +! 1)
                                            (busy_pages_nr k) (active_pages_nr k -! 1))) pg pi)
  else Some (0, set_info w pg pi).

(** The addresses given to the constructors, and to the destructors, of the blocks of a page *)
Definition blocks_from (k : kcm_s) (tbl : Z) : list Z :=
  (fun i => tbl +! size k *! i) <$> seqZ 0 (blocks_nr k).

Definition freelist_populate (w : world) (mem : list (option (Z * bitmap_t)))
    : option (Z * world * list (option (Z * bitmap_t))) :=
  match mem with
  | [] | None :: _ => Some (-1, w, tail mem)
  | Some (pg, contents) :: mem =>
      let k := kcm w in
      bm ← bitmap_set_range contents 0 (blocks_nr k);
      let tbl := pg +! ARROUND_UP SIZEOF_PAGE_INFO (aligne k) in
      let w := set_info w pg (PageInfo bm tbl 0 0 0) in
      let w := if obj_init k then add_calls w (Ctor <$> blocks_from k tbl) else w in
      Some (0, set_kcm w (set_lists k (activelist k) (busylist k) (pg :: freelist k) (free_pages_nr k +! 1)
                                    (busy_pages_nr k) (active_pages_nr k)), mem)
  end.

(** The loop of [freelist_get] *)
Fixpoint populate_loop (fuel : nat) (w : world) (mem : list (option (Z * bitmap_t)))
    : option (world * list (option (Z * bitmap_t))) :=
  let k := kcm w in
  if free_pages_nr k <? (free_pages_min k +! free_pages_max k) / 2 then
    match fuel with
    | O => None
    | S fuel =>
        '(err, w, mem) ← freelist_populate w mem;
        if negb (err =? 0) then Some (w, mem) else populate_loop fuel w mem
    end
  else Some (w, mem).

(** The page, 0 when there is none *)
Definition freelist_get (w : world) (mem : list (option (Z * bitmap_t)))
    : option (Z * world * list (option (Z * bitmap_t))) :=
  '(w, mem) ← (if free_pages_nr (kcm w) <=? free_pages_min (kcm w)
               then populate_loop (Z.to_nat ((free_pages_min (kcm w) + free_pages_max (kcm w)) / 2)) w mem
               else Some (w, mem));
  let k := kcm w in
  if free_pages_nr k =? 0 then Some (0, w, mem)
  else
    pg ← head (freelist k);
    Some (pg, set_kcm w (set_lists k (activelist k) (busylist k) (list_unlink pg (freelist k))
                                   (free_pages_nr k -! 1) (busy_pages_nr k) (active_pages_nr k)), mem).

Definition kcm_init (w : world) (mem : list (option (Z * bitmap_t)))
    (size_ aligne_ fmin fmax : Z) (ctor dtor : bool) : option (Z * world * list (option (Z * bitmap_t))) :=
  let al := if negb (aligne_ =? 0) && (aligne_ <? 33) then 32 else KCM_ALIGNE in
  let sz := ARROUND_UP size_ al in
  let nr := KCM_PAGE_SIZE / sz in
  let remaining := KCM_PAGE_SIZE mod sz in
  let nr := if SIZEOF_PAGE_INFO <=? remaining then nr else nr -! 1 in
  let w := set_kcm w (Kcm sz nr al [] [] [] 0 fmin fmax 0 0 ctor dtor) in
  '(pg, w, mem) ← freelist_get w mem;
  if pg =? 0 then Some (-1, w, mem)
  else
    pi ← infos w !! pg;
    let k := kcm w in
    let w := set_kcm w (set_lists k (pg :: activelist k) (busylist k) (freelist k) (free_pages_nr k)
                                  (busy_pages_nr k) (active_pages_nr k +! 1)) in
    Some (0, set_info w pg (PAGE_SET pi KCM_PAGE_ACTIVE), mem).

(** The page that becomes active *)
Definition compute_active_page (w : world) (mem : list (option (Z * bitmap_t)))
    : option (Z * world * list (option (Z * bitmap_t))) :=
  pg ← head (activelist (kcm w));
  '(new, w, mem) ←
    match tail (activelist (kcm w)) with
    | new :: _ => Some (new, w, mem)
    | [] =>
        '(new, w, mem) ← freelist_get w mem;
        if new =? 0 then Some (0, w, mem)
        else
          let k := kcm w in
          Some (new, set_kcm w (set_lists k (activelist k ++ [new]) (busylist k) (freelist k) (free_pages_nr k)
                                          (busy_pages_nr k) (active_pages_nr k +! 1)), mem)
    end;
  if new =? 0 then Some (pg, w, mem)
  else
    pi ← infos w !! pg;
    let pi := PAGE_SET (PAGE_CLEAR pi KCM_PAGE_ACTIVE) KCM_PAGE_BUSY in
    let k := kcm w in
    let w := set_kcm w (set_lists k (list_unlink pg (activelist k)) (pg :: busylist k) (freelist k)
                                  (free_pages_nr k) (busy_pages_nr k +! 1) (active_pages_nr k -! 1)) in
    let w := set_info w pg pi in
    pin ← infos w !! new;
    Some (new, set_info w new (PAGE_SET pin KCM_PAGE_ACTIVE), mem).

Definition kcm_alloc (w : world) (mem : list (option (Z * bitmap_t)))
    : option (Z * world * list (option (Z * bitmap_t))) :=
  pg ← head (activelist (kcm w));
  '(ptr, w) ← get_block w pg;
  if negb (ptr =? 0) then Some (ptr, w, mem)
  else
    '(new, w, mem) ← compute_active_page w mem;
    if negb (new =? pg) then '(ptr, w) ← get_block w new; Some (ptr, w, mem)
    else Some (0, w, mem).

Definition kcm_free (w : world) (ptr : Z) : option world :=
  if ptr =? 0 then Some w else '(_, w) ← put_block w ptr; Some w.

(** [list_foreach] reads the successor before the body runs: the loop visits the pages that were
    on the list. *)
Fixpoint release_loop (w : world) (l : list Z) : world :=
  match l with
  | [] => w
  | pg :: l =>
      let k := kcm w in
      if free_pages_nr k <=? free_pages_min k then w
      else
        let w := set_kcm w (set_lists k (activelist k) (busylist k) (list_unlink pg (freelist k))
                                      (free_pages_nr k -! 1) (busy_pages_nr k) (active_pages_nr k)) in
        let w := if obj_destroy k then add_calls w (Dtor <$> blocks_from k (pg +! SIZEOF_PAGE_INFO)) else w in
        release_loop (World (kcm w) (delete pg (infos w)) (calls w ++ [PageFree pg])) l
  end.
Definition freelist_release (w : world) : world := release_loop w (freelist (kcm w)).
Definition kcm_release (w : world) : world := freelist_release w.

(** ** Pages *)

(** The number of blocks of a page of [n] blocks that are in use *)
Definition used_nr (bm : bitmap_t) (n : Z) : Z :=
  zlen (filter (fun k => bit bm k = false) (seqZ 0 n)).

Record page_ok (n sz pg : Z) (pi : page_info_s) : Prop := {
  page_addr : 0 < pg /\ pg + 4096 <= 2 ^ 32 /\ pg mod 4096 = 0;
  page_bitmap : bitmap_wf (bitmap pi) /\ zlen (bitmap pi) = 4;
  page_tbl : blk_tbl pi = pg + 64;
  page_index : 0 <= current_index pi <= n;
  page_bits : forall k, 0 <= k < 128 -> bit (bitmap pi) k = true -> current_index pi <= k < n;
  page_refs : refcount pi = used_nr (bitmap pi) n;
}.

(** The sizes of a cache: [n] blocks of [sz] bytes fit a page after its descriptor. *)
Definition geometry (n sz : Z) : Prop := 0 < n <= 127 /\ 0 < sz /\ 64 + n * sz <= 4096.


Lemma used_bounds bm n : 0 <= n -> 0 <= used_nr bm n <= n.
Proof.
  intros Hn. pose proof (zlen_seqZ 0 n Hn) as E. unfold used_nr, zlen in *.
  pose proof (length_filter (fun k => bit bm k = false) (seqZ 0 n)). lia.
Qed.

Lemma used_all bm n : 0 <= n -> (forall k, 0 <= k < n -> bit bm k = false) <-> used_nr bm n = n.
Proof.
  intros Hn. pose proof (zlen_seqZ 0 n Hn) as E. unfold used_nr. split.
  - intros H. rewrite (filter_same _ (fun _ => True)).
    + rewrite filter_all. done.
    + intros k Hk%elem_of_seqZ. rewrite H by lia. done.
  - intros H k Hk. destruct (bit bm k) eqn:Eb; [|done]. exfalso. unfold zlen in *.
    pose proof (length_filter_lt (fun k => bit bm k = false) (seqZ 0 n) k) as L.
    cut (length (filter (fun k => bit bm k = false) (seqZ 0 n)) < length (seqZ 0 n))%nat; [lia|].
    apply L; [apply elem_of_seqZ; lia|congruence].
Qed.

Lemma used_none bm n : (forall k, 0 <= k < n -> bit bm k = true) -> used_nr bm n = 0.
Proof.
  intros H. unfold used_nr. rewrite (filter_same _ (fun _ => False)).
  - induction (seqZ 0 n) as [|y l IH]; [done|]. rewrite filter_cons_False by tauto. done.
  - intros k Hk%elem_of_seqZ. rewrite H by lia. done.
Qed.

Lemma used_none_inv bm n k : used_nr bm n = 0 -> 0 <= k < n -> bit bm k = true.
Proof.
  intros H Hk. destruct (bit bm k) eqn:E; [done|]. exfalso.
  assert (Hin : k ∈ filter (fun k => bit bm k = false) (seqZ 0 n)).
  { apply list_elem_of_filter. split; [done|]. apply elem_of_seqZ. lia. }
  unfold used_nr, zlen in H. destruct (filter _ _); [apply not_elem_of_nil in Hin; done|]. cbn in H. lia.
Qed.

(** A block that changes hands *)
Lemma used_flip bm bm' n k : 0 <= k < n -> bit bm' k = false -> bit bm k = true ->
  (forall j, 0 <= j -> j <> k -> bit bm' j = bit bm j) -> used_nr bm' n = used_nr bm n + 1.
Proof.
  intros Hk H1 H2 H. unfold used_nr. apply filter_flip with k; try done.
  - apply NoDup_seqZ.
  - apply elem_of_seqZ. lia.
  - congruence.
  - intros y Hy%elem_of_seqZ Hne. rewrite H by lia. done.
Qed.

Section Blocks.
Context (n sz : Z) (G : geometry n sz).
Implicit Types (w : world) (pi : page_info_s).

Lemma block_addr pg k : 0 < pg -> pg + 4096 <= 2 ^ 32 -> 0 <= k < n ->
  0 <= k * sz /\ k * sz + sz <= 4096 - 64 /\ pg + 64 +! k *! sz = pg + 64 + k * sz.
Proof.
  intros. destruct G as (?&?&?). assert (0 <= k * sz) by nia. assert ((k + 1) * sz <= n * sz) by nia.
  split; [done|]. split; [lia|]. rewrite (u32_small (k * sz)), u32_small by (unfold is_u32; lia). done.
Qed.

(** [get_block]: a page that is not full gives a free block of its own. *)
Lemma get_block_ok w pg pi : blocks_nr (kcm w) = n -> size (kcm w) = sz ->
  infos w !! pg = Some pi -> page_ok n sz pg pi ->
  (used_nr (bitmap pi) n = n /\ get_block w pg = Some (0, w)) \/
  (exists k pi', 0 <= k < n /\ bit (bitmap pi) k = true /\
     get_block w pg = Some (pg + 64 + k * sz, set_info w pg pi') /\ page_ok n sz pg pi' /\
     flags pi' = flags pi /\ used_nr (bitmap pi') n = used_nr (bitmap pi) n + 1 /\
     forall j, 0 <= j -> bit (bitmap pi') j = negb (j =? k) && bit (bitmap pi) j).
Proof.
  intros Hn Hs Hi [Ha [Hwf Hl] Ht Hc Hb Hr]. destruct G as (Hn' & Hsz & Hfit).
  assert (Hcap : W * zlen (bitmap pi) = 128) by (rewrite Hl; done).
  unfold get_block. rewrite Hi. cbn [mbind option_bind]. rewrite Hn.
  destruct (Z.leb_spec n (current_index pi)).
  { left. split; [|done]. apply used_all; [lia|]. intros k Hk.
    destruct (bit (bitmap pi) k) eqn:E; [|done]. apply Hb in E; lia. }
  destruct (scan2_spec true (bitmap pi) (current_index pi) SIZEOF_BITMAP Hwf) as (r & E & Hf);
    [rewrite Hcap; done|lia|].
  change (scan2 (skip_of true) true) with (scan2 0 true) in E.
  unfold bitmap_ffs2. rewrite E. cbn [mbind option_bind].
  destruct Hf as [[-> Hf]|(Hrr & Hrb & Hf)].
  - left. split; [|done]. apply used_all; [lia|]. intros k Hk.
    destruct (Z.lt_ge_cases k (current_index pi)).
    + destruct (bit (bitmap pi) k) eqn:E'; [|done]. apply Hb in E'; lia.
    + apply Hf. lia.
  - right. rewrite (proj2 (Z.eqb_neq r (-1))) by lia.
    pose proof (Hb r ltac:(lia) Hrb) as Hrn.
    destruct (bitmap_clear_bit (bitmap pi) r Hwf) as (bm & -> & Hwf' & Hl' & Hbm); [lia|]. cbn [mbind option_bind].
    rewrite Hs, Ht. destruct Ha as (Hpg & Hlim & Hmod).
    destruct (block_addr pg r Hpg Hlim ltac:(lia)) as (_ & _ & ->).
    assert (Hused : used_nr bm n = used_nr (bitmap pi) n + 1).
    { apply used_flip with r; [lia| | |]; try done.
      - rewrite Hbm, Z.eqb_refl by lia. done.
      - intros j Hj Hne. rewrite Hbm, (proj2 (Z.eqb_neq _ _)) by done. done. }
    pose proof (used_bounds bm n ltac:(lia)).
    exists r, (PageInfo bm (pg + 64) ((r + 1) mod 256) ((refcount pi + 1) mod 256) (flags pi)).
    split_and!; try done; try lia. split; cbn; try done.
    + split; [done|congruence].
    + rewrite Z.mod_small by lia. lia.
    + intros k Hk. rewrite Hbm, Z.mod_small by lia. intros [Hne Hbk]%andb_true_iff.
      apply Hb in Hbk as Hbk'; [|done]. destruct (Z.eqb_spec k r); [done|].
      destruct (Z.lt_ge_cases k r); [|lia]. rewrite Hf in Hbk by lia. done.
    + rewrite Hr, Hused, Z.mod_small by lia. done.
Qed.
End Blocks.

Section Put.
Context (n sz : Z) (G : geometry n sz).
Implicit Types (w : world) (pi : page_info_s).

Lemma block_page pg k : 0 < pg -> pg + 4096 <= 2 ^ 32 -> pg mod 4096 = 0 -> 0 <= k < n ->
  Z.land (pg + 64 + k * sz) KCM_PAGE_MASK = pg.
Proof.
  intros. destruct (block_addr n sz G pg k) as (?&?&_); [lia..|]. destruct G as (?&?&?).
  unfold KCM_PAGE_MASK, KCM_PAGE_SIZE. change 4096 with (2 ^ 12) at 1.
  rewrite pow2_mask_clear by (unfold is_u32; lia). change (2 ^ 12) with 4096.
  pose proof (Z.div_mod pg 4096). rewrite <- (Z.mod_unique (pg + 64 + k * sz) 4096 (pg / 4096) (64 + k * sz)); lia.
Qed.

(** The page after [put_block] gave a block back, before its lists are looked at. *)
Lemma put_page pg pi k : page_ok n sz pg pi -> 0 <= k < n -> bit (bitmap pi) k = false ->
  let ptr := pg + 64 + k * sz in
  Z.land ptr KCM_PAGE_MASK = pg /\ (ptr -! blk_tbl pi) / sz = k /\
  exists bm, bitmap_set (bitmap pi) k = Some bm /\
    (forall j, 0 <= j -> bit bm j = (j =? k) || bit (bitmap pi) j) /\
    used_nr bm n = used_nr (bitmap pi) n - 1 /\
    (refcount pi - 1) mod 256 = used_nr bm n /\
    (forall fl, page_ok n sz pg (PageInfo bm (blk_tbl pi) (if k <? current_index pi then k mod 256 else current_index pi)
                                   ((refcount pi - 1) mod 256) fl)).
Proof.
  intros [(Hpg & Hlim & Hmod) [Hwf Hl] Ht Hc Hb Hr] Hk Hbit ptr. subst ptr.
  split; [apply block_page; done|].
  destruct (block_addr n sz G pg k) as (?&?&_); [lia..|]. destruct G as (Hn & Hsz & Hfit).
  split. { rewrite Ht, u32_small by (unfold is_u32; lia). replace (pg + 64 + k * sz - (pg + 64)) with (k * sz) by lia. apply Z.div_mul. lia. }
  destruct (bitmap_set_bit (bitmap pi) k Hwf) as (bm & E & Hwf' & Hl' & Hbm); [rewrite Hl; unfold W; lia|].
  exists bm. split; [done|]. split; [done|].
  assert (Hu : used_nr (bitmap pi) n = used_nr bm n + 1).
  { apply used_flip with k; try done.
    - rewrite Hbm, Z.eqb_refl by lia. done.
    - intros j Hj Hne. rewrite Hbm, (proj2 (Z.eqb_neq _ _)) by done. done. }
  pose proof (used_bounds bm n). assert (Hm : (refcount pi - 1) mod 256 = used_nr bm n) by (rewrite Z.mod_small; lia).
  split; [lia|]. split; [done|]. intros fl. split; cbn; try done.
  - split; [done|congruence].
  - destruct (Z.ltb_spec k (current_index pi)); rewrite ?Z.mod_small by lia; lia.
  - intros j Hj. rewrite Hbm by lia. intros [Hjk|Hbj]%orb_true_iff.
    + apply Z.eqb_eq in Hjk as ->. destruct (Z.ltb_spec k (current_index pi)); rewrite ?Z.mod_small by lia; lia.
    + apply Hb in Hbj; [|done]. destruct (Z.ltb_spec k (current_index pi)); rewrite ?Z.mod_small by lia; lia.
Qed.
End Put.

(** ** The cache *)

(** The pages of the list [l] have a descriptor in order, with property [P]. *)
Definition listed (n sz : Z) (infos : gmap Z page_info_s) (l : list Z) (P : page_info_s -> Prop) : Prop :=
  forall pg, pg ∈ l -> exists pi, infos !! pg = Some pi /\ page_ok n sz pg pi /\ P pi.

Definition is_head (pi : page_info_s) : Prop := flags pi = KCM_PAGE_ACTIVE.
Definition is_spare (n : Z) (pi : page_info_s) : Prop := flags pi = 0 /\ used_nr (bitmap pi) n < n.
Definition is_full (n : Z) (pi : page_info_s) : Prop := flags pi = KCM_PAGE_BUSY /\ used_nr (bitmap pi) n = n.
Definition is_empty (n : Z) (pi : page_info_s) : Prop := flags pi = 0 /\ used_nr (bitmap pi) n = 0.

(** The invariant, with the pages [loose] that are on no list for a while. *)
Record inv (n sz : Z) (w : world) (loose : list Z) : Prop := {
  inv_geo : geometry n sz /\ blocks_nr (kcm w) = n /\ size (kcm w) = sz /\ (aligne (kcm w) = 32 \/ aligne (kcm w) = 64);
  inv_nodup : NoDup (activelist (kcm w) ++ busylist (kcm w) ++ freelist (kcm w) ++ loose);
  inv_dom : forall pg pi, infos w !! pg = Some pi ->
    pg ∈ activelist (kcm w) ++ busylist (kcm w) ++ freelist (kcm w) ++ loose;
  inv_head : listed n sz (infos w) (take 1 (activelist (kcm w))) is_head;
  inv_rest : listed n sz (infos w) (drop 1 (activelist (kcm w))) (is_spare n);
  inv_busy : listed n sz (infos w) (busylist (kcm w)) (is_full n);
  inv_free : listed n sz (infos w) (freelist (kcm w)) (is_empty n);
  inv_loose : listed n sz (infos w) loose (is_empty n);
  inv_counts : free_pages_nr (kcm w) = zlen (freelist (kcm w)) /\ busy_pages_nr (kcm w) = zlen (busylist (kcm w)) /\
    active_pages_nr (kcm w) = zlen (activelist (kcm w));
  inv_marks : 0 <= free_pages_min (kcm w) /\ 0 <= free_pages_max (kcm w) /\
    free_pages_min (kcm w) + free_pages_max (kcm w) < 2 ^ 32;
}.

Definition kcm_ok (n sz : Z) (w : world) : Prop := inv n sz w [] /\ activelist (kcm w) <> [].

(** The block at address [p] is in the hands of a client. *)
Definition live (w : world) (p : Z) : Prop :=
  exists pg pi k, infos w !! pg = Some pi /\ 0 <= k < blocks_nr (kcm w) /\
    bit (bitmap pi) k = false /\ p = pg + 64 + k * size (kcm w).

(** The pages that [page_alloc] is going to give are new, and the bits of their first words that
    no block stands for are clear. *)
Record mem_ok (n : Z) (w : world) (mem : list (option (Z * bitmap_t))) : Prop := {
  mem_nodup : NoDup (omap (fun o => fst <$> o) mem);
  mem_fresh : forall pg bm, Some (pg, bm) ∈ mem -> infos w !! pg = None;
  mem_page : forall pg bm, Some (pg, bm) ∈ mem ->
    0 < pg /\ pg + 4096 <= 2 ^ 32 /\ pg mod 4096 = 0 /\ bitmap_wf bm /\ zlen bm = 4 /\
    (forall k, n <= k < 128 -> bit bm k = false);
}.

Definition same_live (w w' : world) : Prop := forall p, live w' p <-> live w p.

Lemma pages_bound (l : list Z) : NoDup l ->
  (forall pg, pg ∈ l -> 0 < pg /\ pg + 4096 <= 2 ^ 32 /\ pg mod 4096 = 0) -> zlen l <= 2 ^ 20.
Proof.
  intros Hnd Hp. assert (Hsub : l ⊆+ (fun i => 4096 * i) <$> seqZ 0 (2 ^ 20)).
  { apply NoDup_submseteq; [done|]. intros pg Hin. destruct (Hp pg Hin) as (?&?&?).
    apply list_elem_of_fmap. exists (pg / 4096). pose proof (Z.div_mod pg 4096).
    split; [lia|]. apply elem_of_seqZ. lia. }
  apply submseteq_length in Hsub. rewrite length_fmap, length_seqZ in Hsub. unfold zlen. lia.
Qed.

Section Inv.
Context (n sz : Z).
Implicit Types (w : world) (pi : page_info_s) (P Q : page_info_s -> Prop).

Lemma listed_update m l P pg pi : pg ∉ l -> listed n sz m l P -> listed n sz (<[pg := pi]> m) l P.
Proof. intros Hn Hl q Hq. rewrite lookup_insert_ne by congruence. apply Hl, Hq. Qed.

Lemma listed_subset m l l' P : (forall q, q ∈ l' -> q ∈ l) -> listed n sz m l P -> listed n sz m l' P.
Proof. intros H Hl q Hq. apply Hl, H, Hq. Qed.

Lemma listed_cons m pg l P : (exists pi, m !! pg = Some pi /\ page_ok n sz pg pi /\ P pi) ->
  listed n sz m l P -> listed n sz m (pg :: l) P.
Proof. intros H Hl q [->|Hq]%elem_of_cons; [done|apply Hl, Hq]. Qed.

Lemma listed_nil m P : listed n sz m [] P.
Proof. intros q Hq. apply not_elem_of_nil in Hq. done. Qed.

Lemma inv_addr w X : inv n sz w X -> forall pg,
  pg ∈ activelist (kcm w) ++ busylist (kcm w) ++ freelist (kcm w) ++ X ->
  exists pi, infos w !! pg = Some pi /\ page_ok n sz pg pi.
Proof.
  intros I pg. rewrite <- (take_drop 1 (activelist (kcm w))), !elem_of_app.
  intros [[H|H]|[H|[H|H]]]; [apply (inv_head _ _ _ _ I) in H|apply (inv_rest _ _ _ _ I) in H|
    apply (inv_busy _ _ _ _ I) in H|apply (inv_free _ _ _ _ I) in H|apply (inv_loose _ _ _ _ I) in H];
    destruct H as (pi & ? & ? & _); eauto.
Qed.

(** No counter of a cache overflows. *)
Lemma inv_small w X : inv n sz w X ->
  zlen (activelist (kcm w)) + zlen (busylist (kcm w)) + zlen (freelist (kcm w)) + zlen X <= 2 ^ 20.
Proof.
  intros I. pose proof (pages_bound _ (inv_nodup _ _ _ _ I)) as H. rewrite !zlen_app in H.
  rewrite <- !Z.add_assoc. apply H. intros pg Hpg. destruct (inv_addr w X I pg Hpg) as (pi & _ & O). apply O.
Qed.

(** A page without used blocks does not change the live blocks. *)
Lemma live_new_page w w' pg pi : infos w !! pg = None -> infos w' = <[pg := pi]> (infos w) ->
  (forall k, 0 <= k < blocks_nr (kcm w) -> bit (bitmap pi) k = true) ->
  blocks_nr (kcm w') = blocks_nr (kcm w) -> size (kcm w') = size (kcm w) -> same_live w w'.
Proof.
  intros Hn Hi Hu Hb Hs p. unfold live. rewrite Hi, Hb, Hs. split.
  - intros (q & pi' & k & Hq & Hk & Hbit & ->). apply lookup_insert_Some in Hq as [[<- <-]|[_ Hq]].
    + rewrite Hu in Hbit by done. done.
    + exists q, pi', k. done.
  - intros (q & pi' & k & Hq & Hk & Hbit & ->). exists q, pi', k. split; [|done].
    rewrite lookup_insert_ne by congruence. done.
Qed.

Lemma live_same_infos w w' : infos w' = infos w -> blocks_nr (kcm w') = blocks_nr (kcm w) ->
  size (kcm w') = size (kcm w) -> same_live w w'.
Proof. intros Hi Hb Hs p. unfold live. rewrite Hi, Hb, Hs. done. Qed.
End Inv.

(** The lengths that occur in the context are not negative. *)
Ltac zlens :=
  repeat match goal with
  | H : context [zlen ?l] |- _ =>
      assert_fails (assert (0 <= zlen l) by assumption); pose proof (zlen_nonneg l)
  end.

Ltac inv_facts I :=
  let G := fresh "G" in let Hbn := fresh "Hbn" in let Hsz := fresh "Hsz" in let Hal := fresh "Hal" in
  let Hnd := fresh "Hnd" in let Hdom := fresh "Hdom" in let Hhd := fresh "Hhd" in let Hre := fresh "Hre" in
  let Hbu := fresh "Hbu" in let Hfr := fresh "Hfr" in let Hlo := fresh "Hlo" in
  let Hcf := fresh "Hcf" in let Hcb := fresh "Hcb" in let Hca := fresh "Hca" in let Hma := fresh "Hma" in
  pose proof (inv_small _ _ _ _ I); destruct I as [(G & Hbn & Hsz & Hal) Hnd Hdom Hhd Hre Hbu Hfr Hlo (Hcf & Hcb & Hca) Hma].

Section Populate.
Context (n sz : Z).
Implicit Types (w : world) (mem : list (option (Z * bitmap_t))).

Lemma mem_ok_tail w o mem : mem_ok n w (o :: mem) -> mem_ok n w mem.
Proof.
  intros [H1 H2 H3]. split.
  - destruct o; cbn in H1; [apply NoDup_cons in H1 as [_ H1]|]; exact H1.
  - intros. eapply H2. apply elem_of_cons. eauto.
  - intros. eapply H3. apply elem_of_cons. eauto.
Qed.

Lemma mem_ok_use w w' pg bm pi mem : mem_ok n w (Some (pg, bm) :: mem) ->
  infos w' = <[pg := pi]> (infos w) -> mem_ok n w' mem.
Proof.
  intros M Hi. pose proof (mem_ok_tail _ _ _ M) as [H1 H2 H3]. destruct M as [Hnd _ _]. split; try done.
  intros q b Hin. rewrite Hi, lookup_insert_ne; [eauto|]. intros ->.
  cbn in Hnd. apply NoDup_cons in Hnd as [Hnin _]. apply Hnin. apply list_elem_of_omap. eauto.
Qed.

Lemma populate_ok w X mem : inv n sz w X -> mem_ok n w mem ->
  exists err w' mem', freelist_populate w mem = Some (err, w', mem') /\ inv n sz w' X /\ mem_ok n w' mem' /\
    same_live w w' /\ (forall q pj, infos w !! q = Some pj -> infos w' !! q = Some pj) /\
    activelist (kcm w') = activelist (kcm w) /\ busylist (kcm w') = busylist (kcm w) /\
    free_pages_min (kcm w') = free_pages_min (kcm w) /\ free_pages_max (kcm w') = free_pages_max (kcm w) /\
    ((err = 0 /\ free_pages_nr (kcm w') = free_pages_nr (kcm w) + 1 /\ exists x, mem = Some x :: mem') \/
     (err = -1 /\ w' = w /\ (mem = None :: mem' \/ mem' = []))).
Proof.
  intros I M. unfold freelist_populate. destruct mem as [|[[pg contents]|] mem].
  - exists (-1), w, []. split_and!; try done. right. auto.
  - destruct (mem_page _ _ _ M pg contents) as (Hpg & Hlim & Hmod & Hwf & Hl & Hhigh); [apply elem_of_cons; auto|].
    pose proof (mem_fresh _ _ _ M pg contents) as Hnew. rewrite elem_of_cons in Hnew. specialize (Hnew (or_introl eq_refl)).
    inv_facts I. destruct G as (Hn & Hsz' & Hfit). rewrite Hbn.
    destruct (bitmap_set_range_bits contents 0 n Hwf) as (bm & -> & Hwf' & Hl' & Hbm); [lia|lia|rewrite Hl; unfold W; lia|].
    cbn [mbind option_bind].
    assert (Hall : forall k, 0 <= k < n -> bit bm k = true).
    { intros k Hk. rewrite Hbm by lia. unfold in_range. rewrite (proj2 (Z.leb_le _ _)), (proj2 (Z.ltb_lt _ _)), orb_true_r by lia. done. }
    assert (Htbl : pg +! ARROUND_UP SIZEOF_PAGE_INFO (aligne (kcm w)) = pg + 64).
    { destruct Hal as [-> | ->]; change (ARROUND_UP SIZEOF_PAGE_INFO _) with 64; rewrite u32_small by (unfold is_u32; lia); done. }
    assert (Hout : pg ∉ activelist (kcm w) ++ busylist (kcm w) ++ freelist (kcm w) ++ X).
    { intros Hin. destruct (inv_addr n sz w X) with pg as (pi & Hpi & _); [split; done|done|]. congruence. }
    assert (Hpage : page_ok n sz pg (PageInfo bm (pg + 64) 0 0 0)).
    { split; cbn; try done; try lia.
      - split; [done|congruence].
      - intros k Hk. rewrite Hbm by lia. unfold in_range. intros [Hb|Hb]%orb_true_iff; [|lia].
        destruct (Z.lt_ge_cases k n); [lia|]. rewrite Hhigh in Hb by lia. done.
      - rewrite used_none by done. done. }
    rewrite Htbl. set (k := kcm w) in *. set (pi := PageInfo bm (pg + 64) 0 0 0) in *.
    set (w1 := if obj_init k then _ else _).
    assert (Ek : kcm w1 = k) by (subst w1; destruct (obj_init k); done).
    assert (Ei : infos w1 = <[pg := pi]> (infos w)) by (subst w1; destruct (obj_init k); done).
    rewrite !not_elem_of_app in Hout. destruct Hout as (Ho1 & Ho2 & Ho3 & Ho4).
    rewrite <- (take_drop 1 (activelist k)), elem_of_app in Ho1.
    do 3 eexists. split; [done|]. split_and!; try done.
    + split; cbn; rewrite ?Ei; fold k; try done.
      * rewrite <- (Permutation_middle (busylist k) (freelist k ++ X) pg), <- (Permutation_middle (activelist k)).
        apply NoDup_cons. split; [|done]. rewrite !not_elem_of_app, <- (take_drop 1 (activelist k)), elem_of_app at 1.
        tauto.
      * intros q pi'. rewrite lookup_insert_Some. intros [[<- _]|[_ Hq]].
        { rewrite !elem_of_app, elem_of_cons. tauto. }
        { apply Hdom in Hq. rewrite !elem_of_app in Hq. rewrite !elem_of_app, elem_of_cons, !elem_of_app. tauto. }
      * apply listed_update; [tauto|done].
      * apply listed_update; [tauto|done].
      * apply listed_update; done.
      * apply listed_cons; [|apply listed_update; done]. exists pi. rewrite lookup_insert_eq.
        split_and!; try done. split; [done|]. apply used_none. done.
      * apply listed_update; done.
      * rewrite Hcf, zlen_cons, u32_small by (zlens; unfold is_u32; lia). done.
    + eapply mem_ok_use; [exact M|]. cbn. exact Ei.
    + eapply live_new_page; [exact Hnew|exact Ei| |done..]. fold k. rewrite Hbn. exact Hall.
    + intros q pj Hq. cbn. rewrite Ei, lookup_insert_ne by congruence. done.
    + left. split; [done|]. cbn. rewrite u32_small by (zlens; unfold is_u32; lia). eauto.
  - exists (-1), w, mem. split_and!; try done; [eapply mem_ok_tail; done|]. right. auto.
Qed.
End Populate.

Lemma unlink_notin x l : x ∉ l -> list_unlink x l = l.
Proof.
  intros Hx. unfold list_unlink. rewrite (filter_same _ (fun _ => True)); [apply filter_all|].
  intros y Hy. split; [done|]. intros _ ->. done.
Qed.
Lemma unlink_head x l : x ∉ l -> list_unlink x (x :: l) = l.
Proof. intros. unfold list_unlink. rewrite filter_cons_False by tauto. apply unlink_notin. done. Qed.
Lemma unlink_split x l1 l2 : x ∉ l1 -> x ∉ l2 -> list_unlink x (l1 ++ x :: l2) = l1 ++ l2.
Proof.
  intros H1 H2. unfold list_unlink. rewrite filter_app.
  change (filter _ (x :: l2)) with (list_unlink x (x :: l2)). rewrite unlink_head by done.
  change (filter _ l1) with (list_unlink x l1). rewrite unlink_notin by done. done.
Qed.

(** What the steps that move pages keep of a cache. *)
Record kept (w w' : world) : Prop := {
  kept_live : same_live w w';
  kept_infos : forall q pi, infos w !! q = Some pi -> infos w' !! q = Some pi;
  kept_active : activelist (kcm w') = activelist (kcm w);
  kept_busy : busylist (kcm w') = busylist (kcm w);
  kept_min : free_pages_min (kcm w') = free_pages_min (kcm w);
  kept_max : free_pages_max (kcm w') = free_pages_max (kcm w);
}.

Lemma kept_refl w : kept w w.
Proof. split; done. Qed.
Lemma kept_trans w1 w2 w3 : kept w1 w2 -> kept w2 w3 -> kept w1 w3.
Proof.
  intros [L1 J1 ? ? ?] [L2 J2 ? ? ?]. split; try congruence; [|auto]. intros p. rewrite (L2 p). apply L1.
Qed.

(** [page_alloc] refused a page between the answers [mem] and [mem'], or has no more answers. *)
Definition refused (mem mem' : list (option (Z * bitmap_t))) : Prop :=
  (exists given, mem = given ++ None :: mem') \/ mem' = [].

Section Get.
Context (n sz : Z).
Implicit Types (w : world) (mem : list (option (Z * bitmap_t))).

(** The loop ends with enough pages or with a refusal of [page_alloc]. *)
Lemma populate_loop_ok X : forall fuel w mem, inv n sz w X -> mem_ok n w mem ->
  (free_pages_min (kcm w) + free_pages_max (kcm w)) / 2 - free_pages_nr (kcm w) <= Z.of_nat fuel ->
  exists w' mem', populate_loop fuel w mem = Some (w', mem') /\ inv n sz w' X /\ mem_ok n w' mem' /\ kept w w' /\
    ((free_pages_min (kcm w) + free_pages_max (kcm w)) / 2 <= free_pages_nr (kcm w') \/ refused mem mem').
Proof.
  induction fuel as [|fuel IH]; intros w mem I M Hf; cbn [populate_loop]; pose proof I as I'; inv_facts I';
    rewrite (u32_small (_ + _)) by (unfold is_u32; lia).
  - rewrite (proj2 (Z.ltb_ge _ _)) by lia. exists w, mem. split_and!; try done. left. lia.
  - destruct (Z.ltb_spec (free_pages_nr (kcm w)) ((free_pages_min (kcm w) + free_pages_max (kcm w)) / 2)).
    2:{ exists w, mem. split_and!; try done. left. lia. }
    destruct (populate_ok n sz w X mem I M) as (err & w1 & mem1 & E & I1 & M1 & L1 & J1 & A1 & B1 & Mi1 & Ma1 & Hc).
    rewrite E. cbn [mbind option_bind]. assert (K1 : kept w w1) by (split; done).
    destruct Hc as [(-> & Hnr & x & ->)|(-> & -> & Hno)]; cbn [Z.eqb negb].
    + destruct (IH w1 mem1 I1 M1) as (w2 & mem2 & -> & I2 & M2 & K2 & Hc2); [rewrite Mi1, Ma1; lia|].
      exists w2, mem2. split_and!; try done; [eapply kept_trans; done|].
      rewrite Mi1, Ma1 in Hc2. destruct Hc2 as [?|[[d ->]|Hd]]; [left; done|right; left|right; right; done].
      exists (Some x :: d). done.
    + exists w, mem1. split_and!; try done. right. destruct Hno as [-> |?]; [left; exists []; done|right; done].
Qed.

(** A page of the free list, without used blocks, or none when [page_alloc] refused one. *)
Lemma freelist_get_ok w mem : inv n sz w [] -> mem_ok n w mem ->
  1 <= (free_pages_min (kcm w) + free_pages_max (kcm w)) / 2 ->
  exists pg w' mem', freelist_get w mem = Some (pg, w', mem') /\ mem_ok n w' mem' /\ kept w w' /\
    ((pg <> 0 /\ inv n sz w' [pg]) \/ (pg = 0 /\ inv n sz w' [] /\ refused mem mem')).
Proof.
  intros I M Hmid. unfold freelist_get.
  assert (exists w1 mem1,
    (if free_pages_nr (kcm w) <=? free_pages_min (kcm w)
     then populate_loop (Z.to_nat ((free_pages_min (kcm w) + free_pages_max (kcm w)) / 2)) w mem
     else Some (w, mem)) = Some (w1, mem1) /\ inv n sz w1 [] /\ mem_ok n w1 mem1 /\ kept w w1 /\
     (1 <= free_pages_nr (kcm w1) \/ refused mem mem1)) as (w1 & mem1 & -> & I1 & M1 & K1 & Hc).
  { pose proof I as I'. inv_facts I'. destruct (Z.leb_spec (free_pages_nr (kcm w)) (free_pages_min (kcm w))).
    - destruct (populate_loop_ok [] (Z.to_nat ((free_pages_min (kcm w) + free_pages_max (kcm w)) / 2)) w mem I M)
        as (w1 & mem1 & E & I1 & M1 & K1 & Hc); [pose proof (zlen_nonneg (freelist (kcm w))); lia|].
      exists w1, mem1. split_and!; try done. destruct Hc; [left; lia|right; done].
    - exists w, mem. split_and!; try done. left. lia. }
  cbn [mbind option_bind]. pose proof I1 as I'. inv_facts I'.
  destruct (Z.eqb_spec (free_pages_nr (kcm w1)) 0) as [E0|E0].
  - exists 0, w1, mem1. split_and!; try done. right. split_and!; try done. destruct Hc; [lia|done].
  - destruct (freelist (kcm w1)) as [|pg F] eqn:EF; [done|]. cbn [head mbind option_bind].
    assert (Hpg : pg ∉ activelist (kcm w1) /\ pg ∉ busylist (kcm w1) /\ pg ∉ F).
    { rewrite app_nil_r in Hnd. rewrite <- (Permutation_middle (busylist (kcm w1)) F pg), <- Permutation_middle in Hnd.
      apply NoDup_cons in Hnd as [Hn _]. rewrite !not_elem_of_app in Hn. done. }
    destruct Hpg as (Hp1 & Hp2 & Hp3). rewrite unlink_head by done.
    do 3 eexists. split; [done|]. split_and!.
    + destruct M1 as [? ? ?]. split; done.
    + eapply kept_trans; [exact K1|]. split; done.
    + left. destruct (Hfr pg) as (pi & Hpi & Hok & He); [apply elem_of_cons; auto|].
      split. { destruct Hok as [(?&_) _ _ _ _ _]. lia. }
      assert (HP : activelist (kcm w1) ++ busylist (kcm w1) ++ F ++ [pg] ≡ₚ activelist (kcm w1) ++ busylist (kcm w1) ++ (pg :: F) ++ []).
      { rewrite app_nil_r, <- (Permutation_cons_append F pg). done. }
      split; cbn; try done.
      * rewrite HP. done.
      * intros q pi' Hq. rewrite HP. eapply Hdom. done.
      * eapply listed_subset; [|exact Hfr]. intros q Hq. apply elem_of_cons. auto.
      * apply listed_cons; [eauto|apply listed_nil].
      * rewrite zlen_cons in *. split_and!; try done. rewrite u32_small by (zlens; unfold is_u32; lia). lia.
Qed.
End Get.

Section Alloc.
Context (n sz : Z).
Implicit Types (w : world) (mem : list (option (Z * bitmap_t))) (pi : page_info_s).

Lemma block_inj (G : geometry n sz) pg1 pi1 k1 pg2 pi2 k2 : page_ok n sz pg1 pi1 -> page_ok n sz pg2 pi2 ->
  0 <= k1 < n -> 0 <= k2 < n -> pg1 + 64 + k1 * sz = pg2 + 64 + k2 * sz -> pg1 = pg2 /\ k1 = k2.
Proof.
  intros [(?&?&?) _ _ _ _ _] [(?&?&?) _ _ _ _ _] Hk1 Hk2 E.
  assert (pg1 = pg2) as ->.
  { rewrite <- (block_page n sz G pg1 k1), <- (block_page n sz G pg2 k2) by done. rewrite E. done. }
  split; [done|]. destruct G as (_ & Hs & _). nia.
Qed.

Lemma inv_page w X pg pi : inv n sz w X -> infos w !! pg = Some pi -> page_ok n sz pg pi.
Proof. intros I H. destruct (inv_addr n sz w X I pg) as (pi' & E & O); [eapply inv_dom; done|]. congruence. Qed.

(** A block taken from a page is new, and nothing else changes. *)
Lemma live_take w w' X pg pi pi' k : inv n sz w X -> infos w !! pg = Some pi ->
  infos w' = <[pg := pi']> (infos w) -> blocks_nr (kcm w') = n -> size (kcm w') = sz ->
  0 <= k < n -> bit (bitmap pi) k = true ->
  (forall j, 0 <= j -> bit (bitmap pi') j = negb (j =? k) && bit (bitmap pi) j) ->
  ~ live w (pg + 64 + k * sz) /\ forall p, live w' p <-> p = pg + 64 + k * sz \/ live w p.
Proof.
  intros I Hpg Hi Hb Hs Hk Hbit Hb'. pose proof (inv_geo _ _ _ _ I) as (G & Hbn & Hsz & _). unfold live.
  rewrite Hi, Hb, Hs, Hbn, Hsz. split.
  - intros (q & pj & j & Hq & Hj & Hbj & E).
    eapply (block_inj G pg pi k q pj j) in E as [-> ->]; try done; [congruence|eapply inv_page; done..].
  - intros p. split.
    + intros (q & pj & j & Hq & Hj & Hbj & ->). apply lookup_insert_Some in Hq as [[<- <-]|[Hne Hq]].
      * rewrite Hb' in Hbj by lia. destruct (Z.eqb_spec j k) as [->|]; [auto|]. right. exists pg, pi, j. done.
      * right. exists q, pj, j. done.
    + intros [->|(q & pj & j & Hq & Hj & Hbj & ->)].
      * exists pg, pi', k. rewrite lookup_insert_eq, Hb', Z.eqb_refl by lia. done.
      * destruct (decide (q = pg)) as [->|Hne].
        -- exists pg, pi', j. rewrite lookup_insert_eq, Hb' by lia. simplify_eq. rewrite Hbj, andb_false_r. done.
        -- exists q, pj, j. rewrite lookup_insert_ne by done. done.
Qed.

Lemma inv_head_update w X pg rest pi' : inv n sz w X -> activelist (kcm w) = pg :: rest ->
  page_ok n sz pg pi' -> flags pi' = KCM_PAGE_ACTIVE -> inv n sz (set_info w pg pi') X.
Proof.
  intros I EA Hok Hfl. inv_facts I. rewrite EA in *. cbn [take drop] in *.
  assert (Hout : pg ∉ rest /\ pg ∉ busylist (kcm w) /\ pg ∉ freelist (kcm w) /\ pg ∉ X).
  { cbn in Hnd. apply NoDup_cons in Hnd as [Hn _]. rewrite !not_elem_of_app in Hn. done. }
  destruct Hout as (?&?&?&?). rewrite drop_0 in Hre.
  split; cbn; rewrite ?EA; cbn [take drop]; rewrite ?drop_0; try done; try (apply listed_update; done).
  - intros q pi. rewrite lookup_insert_Some. intros [[<- _]|[_ Hq]]; [apply elem_of_cons; auto|eauto].
  - apply listed_cons; [|apply listed_nil]. rewrite lookup_insert_eq. eauto.
Qed.

(** [get_block] on the active page. *)
Lemma get_head_ok w X pg rest : inv n sz w X -> activelist (kcm w) = pg :: rest ->
  (exists pi, infos w !! pg = Some pi /\ used_nr (bitmap pi) n = n /\ get_block w pg = Some (0, w)) \/
  (exists p w', get_block w pg = Some (p, w') /\ p <> 0 /\ inv n sz w' X /\ activelist (kcm w') = pg :: rest /\
     ~ live w p /\ forall q, live w' q <-> q = p \/ live w q).
Proof.
  intros I EA. pose proof (inv_geo _ _ _ _ I) as (G & Hbn & Hsz & _).
  destruct (inv_head _ _ _ _ I pg) as (pi & Hpi & Hok & Hfl); [rewrite EA; apply elem_of_cons; auto|].
  destruct (get_block_ok n sz G w pg pi Hbn Hsz Hpi Hok) as [[Hu E]|(k & pi' & Hk & Hbit & E & Hok' & Hfl' & _ & Hb')].
  - left. eauto.
  - right. do 2 eexists. split; [exact E|].
    assert (pg + 64 + k * sz <> 0).
    { destruct (block_addr n sz G pg k) as (?&_&_); try done; apply (page_addr _ _ _ _ Hok) || (pose proof (page_addr _ _ _ _ Hok); lia). }
    destruct (live_take w (set_info w pg pi') X pg pi pi' k) as [Hnl Hl]; try done.
    split_and!; try done. eapply inv_head_update; try done. rewrite Hfl'. done.
Qed.

(** A full active page goes to the busy list and its successor becomes active. *)
Lemma switch_ok w pg new r pi pin : inv n sz w [] -> activelist (kcm w) = pg :: new :: r ->
  infos w !! pg = Some pi -> used_nr (bitmap pi) n = n -> infos w !! new = Some pin ->
  let w' := set_info (set_info (set_kcm w
               (set_lists (kcm w) (list_unlink pg (activelist (kcm w))) (pg :: busylist (kcm w)) (freelist (kcm w))
                  (free_pages_nr (kcm w)) (busy_pages_nr (kcm w) +! 1) (active_pages_nr (kcm w) -! 1)))
               pg (PAGE_SET (PAGE_CLEAR pi KCM_PAGE_ACTIVE) KCM_PAGE_BUSY)) new (PAGE_SET pin KCM_PAGE_ACTIVE) in
  new <> pg /\ inv n sz w' [] /\ activelist (kcm w') = new :: r /\ same_live w w' /\
  exists pin', infos w' !! new = Some pin' /\ used_nr (bitmap pin') n < n.
Proof.
  intros I EA Hpi Hfull Hpin w'. pose proof I as I'. inv_facts I'. rewrite EA in Hnd, Hdom, Hhd, Hre, Hca, H.
  cbn [take drop] in Hhd, Hre. rewrite !app_nil_r in Hnd, Hdom. rewrite ?drop_0 in Hre.
  destruct (Hhd pg) as (pi0 & E0 & Hok & Hfl); [apply elem_of_cons; auto|]. rewrite Hpi in E0. injection E0 as <-.
  destruct (Hre new) as (pin0 & E0 & Hokn & Hfln & Hun); [apply elem_of_cons; auto|]. rewrite Hpin in E0. injection E0 as <-.
  pose proof Hnd as Hnd'. cbn in Hnd'. apply NoDup_cons in Hnd' as [Hpg Hnd']. apply NoDup_cons in Hnd' as [Hnew Hnd'].
  rewrite elem_of_cons, !elem_of_app in Hpg. rewrite !elem_of_app in Hnew.
  assert (Hne : new <> pg) by (intros E; apply Hpg; left; done). split; [done|].
  assert (EU : list_unlink pg (activelist (kcm w)) = new :: r)
    by (rewrite EA; apply unlink_head; rewrite elem_of_cons; tauto).
  assert (Hset1 : PAGE_SET (PAGE_CLEAR pi KCM_PAGE_ACTIVE) KCM_PAGE_BUSY = set_flags pi KCM_PAGE_BUSY).
  { unfold PAGE_SET, PAGE_CLEAR, set_flags. cbn. rewrite Hfl. done. }
  assert (Hset2 : PAGE_SET pin KCM_PAGE_ACTIVE = set_flags pin KCM_PAGE_ACTIVE).
  { unfold PAGE_SET, set_flags. rewrite Hfln. done. }
  assert (Hinf : infos w' = <[new := set_flags pin KCM_PAGE_ACTIVE]> (<[pg := set_flags pi KCM_PAGE_BUSY]> (infos w)))
    by (subst w'; rewrite Hset1, Hset2; done).
  split; [|split; [exact EU|split]].
  - split; rewrite ?Hinf; cbn; rewrite ?EU; cbn [take drop app]; rewrite ?drop_0, ?app_nil_r; try done.
    + change (NoDup (new :: (r ++ pg :: busylist (kcm w) ++ freelist (kcm w)))).
    rewrite <- (Permutation_middle r), (Permutation_swap pg new). exact Hnd.
    + intros q pj. rewrite !lookup_insert_Some, !elem_of_cons, !elem_of_app, elem_of_cons, !elem_of_app.
      intros [[<- _]|[_ [[<- _]|[_ Hq]]]]; [tauto..|]. apply Hdom in Hq. rewrite !elem_of_app, !elem_of_cons in Hq. tauto.
    + apply listed_cons; [|apply listed_nil]. rewrite lookup_insert_eq. eexists. split; [done|]. split; [|done].
      destruct Hokn. split; done.
    + apply listed_update; [tauto|]. apply listed_update; [tauto|]. eapply listed_subset; [|exact Hre]. intros. apply elem_of_cons. auto.
    + apply listed_cons.
      * rewrite lookup_insert_ne, lookup_insert_eq by done. eexists. split; [done|]. split; [destruct Hok; split; done|done].
      * apply listed_update; [tauto|]. apply listed_update; [tauto|done].
    + apply listed_update; [tauto|]. apply listed_update; [tauto|done].
    + apply listed_nil.
    + rewrite !zlen_cons in *. rewrite !u32_small by (zlens; unfold is_u32; lia). split_and!; lia.
  - intros p. unfold live. rewrite Hinf. cbn. split; intros (q & pj & j & Hq & Hj & Hbj & ->).
    + apply lookup_insert_Some in Hq as [[<- <-]|[_ Hq]]; [exists new, pin, j; done|].
      apply lookup_insert_Some in Hq as [[<- <-]|[_ Hq]]; [exists pg, pi, j; done|exists q, pj, j; done].
    + destruct (decide (q = new)) as [->|]; [|destruct (decide (q = pg)) as [->|]].
      * exists new, (set_flags pin KCM_PAGE_ACTIVE), j. rewrite lookup_insert_eq. simplify_eq. done.
      * exists pg, (set_flags pi KCM_PAGE_BUSY), j. rewrite lookup_insert_ne, lookup_insert_eq by done. simplify_eq. done.
      * exists q, pj, j. rewrite !lookup_insert_ne by done. done.
  - rewrite Hinf, lookup_insert_eq. eexists. split; [done|]. done.
Qed.

(** The page [new] of the free list, put at the end of the active list. *)
Lemma append_ok w new pg : inv n sz w [new] -> activelist (kcm w) = [pg] ->
  let w' := set_kcm w (set_lists (kcm w) (activelist (kcm w) ++ [new]) (busylist (kcm w)) (freelist (kcm w))
              (free_pages_nr (kcm w)) (busy_pages_nr (kcm w)) (active_pages_nr (kcm w) +! 1)) in
  inv n sz w' [] /\ activelist (kcm w') = [pg; new].
Proof.
  intros I EA w'. inv_facts I. rewrite EA in Hnd, Hdom, Hhd, Hre, Hca, H. subst w'. split; [|cbn; rewrite EA; done].
  assert (HP : [pg; new] ++ busylist (kcm w) ++ freelist (kcm w) ++ [] ≡ₚ [pg] ++ busylist (kcm w) ++ freelist (kcm w) ++ [new]).
  { rewrite app_nil_r. cbn. apply Permutation_skip. rewrite (assoc_L (++)), <- Permutation_cons_append. done. }
  split; cbn [kcm set_kcm set_lists infos activelist busylist freelist free_pages_nr busy_pages_nr active_pages_nr
              blocks_nr size aligne free_pages_min free_pages_max]; rewrite ?EA; cbn [take drop app] in *; try done.
  - rewrite HP. done.
  - intros q pi Hq. rewrite HP. eapply Hdom. done.
  - intros q Hq. destruct (Hlo q Hq) as (pi & ? & ? & ? & Hu). exists pi. split_and!; try done. split; [done|].
    rewrite Hu. destruct G as (?&_). lia.
  - apply listed_nil.
  - split_and!; try done. rewrite Hca. done.
Qed.

Lemma compute_active_ok w mem pg rest pi : inv n sz w [] -> mem_ok n w mem ->
  1 <= (free_pages_min (kcm w) + free_pages_max (kcm w)) / 2 ->
  activelist (kcm w) = pg :: rest -> infos w !! pg = Some pi -> used_nr (bitmap pi) n = n ->
  exists new w' mem', compute_active_page w mem = Some (new, w', mem') /\ inv n sz w' [] /\ same_live w w' /\
    ((new = pg /\ activelist (kcm w') = pg :: rest /\ refused mem mem') \/
     (new <> pg /\ exists r pin, activelist (kcm w') = new :: r /\ infos w' !! new = Some pin /\ used_nr (bitmap pin) n < n)).
Proof.
  intros I M Hmid EA Hpi Hfull. unfold compute_active_page. rewrite EA. cbn [head tail mbind option_bind].
  destruct rest as [|new r].
  - destruct (freelist_get_ok n sz w mem I M Hmid) as (new & w1 & mem1 & -> & M1 & K1 & Hc). cbn [mbind option_bind].
    destruct K1 as [L1 J1 A1 B1 _ _]. destruct Hc as [[Hnz I1]|(-> & I1 & Href)].
    + rewrite (proj2 (Z.eqb_neq _ _)) by done. cbn [mbind option_bind]. rewrite (proj2 (Z.eqb_neq _ _)) by done.
      rewrite EA in A1. destruct (append_ok w1 new pg I1 A1) as [I2 A2]. set (w2 := set_kcm w1 _) in *.
      assert (Hpi2 : infos w2 !! pg = Some pi) by (apply J1, Hpi). destruct (inv_rest _ _ _ _ I2 new) as (pin & Hpin & _);
        [rewrite A2; apply elem_of_cons; auto|].
      destruct (switch_ok w2 pg new [] pi pin I2 A2 Hpi2 Hfull Hpin) as (Hne & I3 & A3 & L3 & pin' & Hpin' & Hu).
      rewrite Hpi2. cbn [mbind option_bind].
      cbn [set_info set_kcm infos]. rewrite lookup_insert_ne by done. rewrite Hpin.
      cbn [mbind option_bind]. do 3 eexists. split; [done|]. split; [exact I3|]. split.
      { intros p. rewrite (L3 p). apply L1. }
      right. split; [done|]. exists [], pin'. done.
    + cbn. exists pg, w1, mem1. split_and!; try done. left. rewrite A1, EA. done.
  - destruct (inv_rest _ _ _ _ I new) as (pin & Hpin & Hokn & _); [rewrite EA; apply elem_of_cons; auto|].
    cbn [mbind option_bind]. rewrite (proj2 (Z.eqb_neq _ _)) by (pose proof (page_addr _ _ _ _ Hokn); lia). rewrite Hpi. cbn [mbind option_bind].
    destruct (switch_ok w pg new r pi pin I EA Hpi Hfull Hpin) as (Hne & I3 & A3 & L3 & pin' & Hpin' & Hu).
    cbn [set_info set_kcm infos]. rewrite lookup_insert_ne by done. rewrite Hpin. cbn [mbind option_bind].
    do 3 eexists. split; [done|]. split; [exact I3|]. split; [exact L3|].
    right. split; [done|]. eauto.
Qed.
End Alloc.

Section Cache.
Context (n sz : Z).
Implicit Types (w : world) (mem : list (option (Z * bitmap_t))) (pi : page_info_s).

Lemma kcm_alloc_ok w mem : kcm_ok n sz w -> mem_ok n w mem ->
  1 <= (free_pages_min (kcm w) + free_pages_max (kcm w)) / 2 ->
  exists p w' mem', kcm_alloc w mem = Some (p, w', mem') /\ kcm_ok n sz w' /\
    ((p <> 0 /\ ~ live w p /\ forall q, live w' q <-> q = p \/ live w q) \/
     (p = 0 /\ same_live w w' /\ refused mem mem')).
Proof.
  intros [I HA] M Hmid. destruct (activelist (kcm w)) as [|pg rest] eqn:EA; [done|].
  unfold kcm_alloc. rewrite EA. cbn [head mbind option_bind].
  destruct (get_head_ok n sz w [] pg rest I EA) as [(pi & Hpi & Hfull & ->)|(p & w1 & -> & Hp & I1 & A1 & Hn & Hl)];
    cbn [mbind option_bind].
  - cbn [Z.eqb negb].
    destruct (compute_active_ok n sz w mem pg rest pi I M Hmid EA Hpi Hfull)
      as (new & w1 & mem1 & -> & I1 & L1 & Hc). cbn [mbind option_bind].
    destruct Hc as [(-> & A1 & Href)|(Hne & r & pin & A1 & Hpin & Hu)].
    + rewrite Z.eqb_refl. cbn [negb]. exists 0, w1, mem1. split; [done|]. split; [split; [done|congruence]|]. right. done.
    + rewrite (proj2 (Z.eqb_neq _ _) Hne). cbn [negb].
      destruct (get_head_ok n sz w1 [] new r I1 A1) as [(pin' & Hpin' & Hfull' & _)|(p & w2 & -> & Hp & I2 & A2 & Hn & Hl)].
      { rewrite Hpin in Hpin'. injection Hpin' as <-. lia. }
      cbn [mbind option_bind]. exists p, w2, mem1. split; [done|]. split; [split; [done|congruence]|]. left.
      split; [done|]. split; [rewrite <- (L1 p); done|]. intros q. rewrite Hl, (L1 q). done.
  - rewrite (proj2 (Z.eqb_neq _ _) Hp). cbn [negb]. exists p, w1, mem. split; [done|]. split; [split; [done|congruence]|]. left. done.
Qed.

(** The block [k] of page [pg] goes back; the other blocks stay. *)
Lemma live_give w w' X pg pi pi' k : inv n sz w X -> infos w !! pg = Some pi ->
  infos w' = <[pg := pi']> (infos w) -> blocks_nr (kcm w') = n -> size (kcm w') = sz ->
  0 <= k < n -> bit (bitmap pi) k = false ->
  (forall j, 0 <= j -> bit (bitmap pi') j = (j =? k) || bit (bitmap pi) j) ->
  forall p, live w' p <-> live w p /\ p <> pg + 64 + k * sz.
Proof.
  intros I Hpg Hi Hb Hs Hk Hbit Hb' p. pose proof (inv_geo _ _ _ _ I) as (G & Hbn & Hsz & _). unfold live.
  rewrite Hi, Hb, Hs, Hbn, Hsz. split.
  - intros (q & pj & j & Hq & Hj & Hbj & ->). apply lookup_insert_Some in Hq as [[<- <-]|[Hne Hq]].
    + rewrite Hb' in Hbj by lia. apply orb_false_iff in Hbj as [Hjk Hbj]. apply Z.eqb_neq in Hjk.
      split; [exists pg, pi, j; done|]. destruct G as (_ & ? & _). nia.
    + split; [exists q, pj, j; done|]. intros E.
      eapply (block_inj n sz G q pj j pg pi k) in E as [-> _]; try done; eapply inv_page; done.
  - intros [(q & pj & j & Hq & Hj & Hbj & ->) Hne]. destruct (decide (q = pg)) as [->|Hq'].
    + exists pg, pi', j. rewrite lookup_insert_eq, Hb' by lia. simplify_eq. rewrite Hbj, orb_false_r.
      rewrite (proj2 (Z.eqb_neq j k)) by congruence. done.
    + exists q, pj, j. rewrite lookup_insert_ne by done. done.
Qed.

(** Where the page of a live block is *)
Lemma live_place w pg pi k : inv n sz w [] -> activelist (kcm w) <> [] -> infos w !! pg = Some pi ->
  0 <= k < n -> bit (bitmap pi) k = false ->
  (exists rest, activelist (kcm w) = pg :: rest /\ flags pi = KCM_PAGE_ACTIVE) \/
  (exists h r1 r2, activelist (kcm w) = h :: r1 ++ pg :: r2 /\ flags pi = 0) \/
  (exists b1 b2, busylist (kcm w) = b1 ++ pg :: b2 /\ flags pi = KCM_PAGE_BUSY).
Proof.
  intros I HA Hpi Hk Hbit. destruct (activelist (kcm w)) as [|h r] eqn:EA; [done|].
  pose proof (inv_dom _ _ _ _ I pg pi Hpi) as Hin. rewrite EA, app_nil_r, !elem_of_app, elem_of_cons in Hin.
  pose proof (inv_head _ _ _ _ I) as Hh. pose proof (inv_rest _ _ _ _ I) as Hr. rewrite EA in Hh, Hr.
  cbn [take drop] in Hh, Hr. rewrite drop_0 in Hr.
  destruct Hin as [[->|Hin]|[Hin|Hin]].
  - left. exists r. split; [done|]. destruct (Hh h) as (pi' & E & _ & Hfl); [apply elem_of_cons; auto|]. congruence.
  - right. left. destruct (Hr pg Hin) as (pi' & E & _ & Hfl & _).
    apply list_elem_of_split in Hin as (r1 & r2 & ->). exists h, r1, r2. split; [done|congruence].
  - right. right. destruct (inv_busy _ _ _ _ I pg Hin) as (pi' & E & _ & Hfl & _).
    apply list_elem_of_split in Hin as (b1 & b2 & ->). exists b1, b2. split; [done|congruence].
  - exfalso. destruct (inv_free _ _ _ _ I pg Hin) as (pi' & E & _ & _ & Hu).
    rewrite Hpi in E. injection E as <-. rewrite (used_none_inv _ _ k Hu Hk) in Hbit. done.
Qed.
End Cache.

(** Membership in lists built with [::] and [++] *)
Ltac elems := repeat (rewrite elem_of_app || rewrite elem_of_cons || rewrite elem_of_nil).
Ltac elems_in H := repeat (rewrite elem_of_app in H || rewrite elem_of_cons in H || rewrite elem_of_nil in H).

Section Free.
Context (n sz : Z).
Implicit Types (w : world) (pi : page_info_s).

(** A page of the active list, not the first, keeps its place. *)
Lemma inv_spare_update w pg h r1 r2 pi' : inv n sz w [] -> activelist (kcm w) = h :: r1 ++ pg :: r2 ->
  page_ok n sz pg pi' -> is_spare n pi' -> inv n sz (set_info w pg pi') [].
Proof.
  intros I EA Hok Hsp. inv_facts I. rewrite EA in Hnd, Hdom, Hhd, Hre. cbn [take drop] in *. rewrite drop_0 in Hre.
  pose proof Hnd as Hnd'. cbn in Hnd'. rewrite <- (assoc_L (++)) in Hnd'. cbn in Hnd'.
  rewrite <- (Permutation_middle r1), (Permutation_swap pg h) in Hnd'. apply NoDup_cons in Hnd' as [Hout _].
  elems_in Hout.
  split; cbn; rewrite ?EA; cbn [take drop]; rewrite ?drop_0; try done;
    try (apply listed_update; [elems; tauto|done]).
  - intros q pj. rewrite lookup_insert_Some. intros [[<- _]|[_ Hq]]; [|eauto].
    elems. tauto.
  - intros q Hq. destruct (decide (q = pg)) as [->|Hne].
    + rewrite lookup_insert_eq. eauto.
    + rewrite lookup_insert_ne by done. apply Hre. done.
  - rewrite <- EA. done.
Qed.

(** A page of the active list without used blocks goes to the free list. *)
Lemma inv_spare_free w pg h r1 r2 pi' : inv n sz w [] -> activelist (kcm w) = h :: r1 ++ pg :: r2 ->
  page_ok n sz pg pi' -> is_empty n pi' ->
  let k := kcm w in
  let w' := set_info (set_kcm w (set_lists k (list_unlink pg (activelist k)) (list_unlink pg (busylist k))
                                   (pg :: list_unlink pg (freelist k)) (free_pages_nr k +! 1)
                                   (busy_pages_nr k) (active_pages_nr k -! 1))) pg pi' in
  inv n sz w' [] /\ activelist (kcm w') <> [].
Proof.
  intros I EA Hok Hem k w'. inv_facts I. rewrite EA in Hnd, Hdom, Hhd, Hre, Hca, H. cbn [take drop] in *. rewrite drop_0 in Hre.
  pose proof Hnd as Hnd'. cbn in Hnd'. rewrite <- (assoc_L (++)), app_nil_r in Hnd'. cbn in Hnd'.
  rewrite <- (Permutation_middle r1), (Permutation_swap pg h) in Hnd'. pose proof Hnd' as Hnd''.
  apply NoDup_cons in Hnd'' as [Hout _]. elems_in Hout.
  assert (EU : list_unlink pg (activelist k) = h :: r1 ++ r2).
  { subst k. rewrite EA. apply (unlink_split pg (h :: r1) r2); rewrite ?elem_of_cons; tauto. }
  assert (EB : list_unlink pg (busylist k) = busylist k) by (apply unlink_notin; tauto).
  assert (EF : list_unlink pg (freelist k) = freelist k) by (apply unlink_notin; tauto).
  split; [|subst w'; cbn [kcm set_info set_kcm set_lists activelist]; rewrite EU; done].
  subst w'. split; cbn [kcm set_info set_kcm set_lists activelist busylist freelist infos blocks_nr size aligne free_pages_nr
    busy_pages_nr active_pages_nr free_pages_min free_pages_max]; rewrite ?EU, ?EB, ?EF; cbn [take drop];
    rewrite ?drop_0, ?app_nil_r; try done;
    try (apply listed_update; [elems; tauto|]); try done.
  - rewrite app_comm_cons, (assoc_L (++)), <- (Permutation_middle _ (freelist k)), <- (assoc_L (++)). cbn.
    rewrite <- (assoc_L (++)). exact Hnd'.
  - intros q pj. rewrite lookup_insert_Some. elems.
    intros [[<- _]|[_ Hq]]; [tauto|]. apply Hdom in Hq. elems_in Hq. tauto.
  - eapply listed_subset; [|exact Hre]. intros q. elems. tauto.
  - apply listed_cons; [rewrite lookup_insert_eq; eauto|]. apply listed_update; [tauto|done].
  - rewrite zlen_cons, zlen_app, zlen_cons in Hca, H. subst k. rewrite Hcf, Hca, !zlen_cons, zlen_app.
    rewrite !u32_small by (zlens; unfold is_u32; lia). split_and!; try done; lia.
Qed.

(** A full page that gets a block back goes to the end of the active list. *)
Lemma inv_busy_free w pg b1 b2 pi' : inv n sz w [] -> activelist (kcm w) <> [] -> busylist (kcm w) = b1 ++ pg :: b2 ->
  page_ok n sz pg pi' -> is_spare n pi' ->
  let k := kcm w in
  let w' := set_info (set_kcm w (set_lists k (list_unlink pg (activelist k) ++ [pg]) (list_unlink pg (busylist k))
                                   (list_unlink pg (freelist k)) (free_pages_nr k)
                                   (busy_pages_nr k -! 1) (active_pages_nr k +! 1))) pg pi' in
  inv n sz w' [] /\ activelist (kcm w') <> [].
Proof.
  intros I HA EB0 Hok Hsp k w'. inv_facts I. rewrite EB0 in Hnd, Hdom, Hbu, Hcb, H.
  destruct (activelist (kcm w)) as [|h r] eqn:EA; [done|]. cbn [take drop] in *. rewrite drop_0 in Hre.
  pose proof Hnd as Hnd'. rewrite app_nil_r, <- (assoc_L (++)) in Hnd'. cbn [app] in Hnd'.
  rewrite <- (Permutation_middle b1), <- (Permutation_middle r), (Permutation_swap pg h) in Hnd'. pose proof Hnd' as Hnd''.
  apply NoDup_cons in Hnd'' as [Hout _]. elems_in Hout.
  assert (EU : list_unlink pg (activelist k) = h :: r) by (subst k; rewrite EA; apply unlink_notin; rewrite elem_of_cons; tauto).
  assert (EB : list_unlink pg (busylist k) = b1 ++ b2) by (subst k; rewrite EB0; apply unlink_split; tauto).
  assert (EF : list_unlink pg (freelist k) = freelist k) by (apply unlink_notin; tauto).
  split; [|subst w'; cbn [kcm set_info set_kcm set_lists activelist]; rewrite EU; done].
  subst w'. split; cbn [kcm set_info set_kcm set_lists activelist busylist freelist infos blocks_nr size aligne free_pages_nr
    busy_pages_nr active_pages_nr free_pages_min free_pages_max]; rewrite ?EU, ?EB, ?EF; cbn [take drop app];
    rewrite ?drop_0, ?app_nil_r; try done;
    try (apply listed_update; [elems; tauto|]); try done.
  - rewrite <- (Permutation_cons_append r pg). cbn [app]. rewrite (Permutation_swap pg h), <- (assoc_L (++)). exact Hnd'.
  - intros q pj. rewrite lookup_insert_Some. elems.
    intros [[<- _]|[_ Hq]]; [tauto|]. apply Hdom in Hq. elems_in Hq. tauto.
  - intros q [Hq|Hq]%elem_of_app.
    + rewrite lookup_insert_ne by (intros ->; tauto). apply Hre. done.
    + apply elem_of_cons in Hq as [->|Hq]; [|apply not_elem_of_nil in Hq; done]. rewrite lookup_insert_eq. eauto.
  - eapply listed_subset; [|exact Hbu]. intros q. elems. tauto.
  - rewrite zlen_app, zlen_cons in Hcb, H. rewrite zlen_cons in Hca, H. subst k. rewrite Hcb, Hca, zlen_cons, !zlen_app.
    change (zlen [pg]) with 1. rewrite !u32_small by (zlens; unfold is_u32; lia). split_and!; try done; lia.
Qed.
End Free.

Section Whole.
Context (n sz : Z).
Implicit Types (w : world) (mem : list (option (Z * bitmap_t))) (pi : page_info_s).

Lemma kcm_free_ok w p : kcm_ok n sz w -> live w p ->
  exists w', kcm_free w p = Some w' /\ kcm_ok n sz w' /\ forall q, live w' q <-> live w q /\ q <> p.
Proof.
  intros [I HA] (pg & pi & k & Hpi & Hk & Hbit & ->).
  pose proof (inv_geo _ _ _ _ I) as (G & Hbn & Hsz & _). rewrite Hbn in Hk. rewrite Hsz.
  pose proof (inv_page n sz w [] pg pi I Hpi) as Hok.
  destruct (put_page n sz G pg pi k Hok Hk Hbit) as (Hmask & Hidx & bm & Hset & Hbm & Hused & Href & Hok').
  assert (Hnz : pg + 64 + k * sz <> 0).
  { destruct (page_addr _ _ _ _ Hok) as (?&?&_). destruct (block_addr n sz G pg k) as (?&_&_); try done. lia. }
  unfold kcm_free, put_block. rewrite (proj2 (Z.eqb_neq _ _) Hnz), Hmask, Hpi. cbn [mbind option_bind].
  rewrite Hsz, Hidx, Hset. cbn [mbind option_bind].
  set (ci := if k <? current_index pi then _ else _) in *.
  assert (Hlive : forall w' fl, infos w' = <[pg := PageInfo bm (blk_tbl pi) ci ((refcount pi - 1) mod 256) fl]> (infos w) ->
    blocks_nr (kcm w') = n -> size (kcm w') = sz -> forall q, live w' q <-> live w q /\ q <> pg + 64 + k * sz).
  { intros. eapply live_give; done. }
  pose proof (used_bounds (bitmap pi) n ltac:(destruct G; lia)) as Hub.
  destruct (live_place n sz w pg pi k I HA Hpi Hk Hbit) as [(rest & EA & Hfl)|[(h & r1 & r2 & EA & Hfl)|(b1 & b2 & EB & Hfl)]];
    unfold PAGE_IS, PAGE_CLEAR; cbn [flags refcount]; rewrite Hfl; cbn [Z.land Pos.land Z.eqb negb andb KCM_PAGE_ACTIVE KCM_PAGE_BUSY].
  - eexists. split; [done|]. split; [split; [|cbn; congruence]|eapply Hlive; done].
    eapply inv_head_update; [done|exact EA|apply Hok'|done].
  - destruct (Z.eqb_spec ((refcount pi - 1) mod 256) 0) as [E0|E0].
    + eexists. split; [done|]. split; [|eapply Hlive; done].
      eapply inv_spare_free; [done|exact EA|apply Hok'|]. split; [done|]. cbn. lia.
    + eexists. split; [done|]. split; [split; [|cbn; congruence]|eapply Hlive; done].
      eapply inv_spare_update; [done|exact EA|apply Hok'|]. split; [done|]. cbn. lia.
  - eexists. split; [done|]. split; [|eapply Hlive; done].
    eapply inv_busy_free; [done|done|exact EB|apply Hok'|]. split; [done|]. cbn. lia.
Qed.

(** A page of the free list is given up. *)
Lemma drop_page_ok w w' pg F : inv n sz w [] -> freelist (kcm w) = pg :: F ->
  infos w' = delete pg (infos w) ->
  kcm w' = set_lists (kcm w) (activelist (kcm w)) (busylist (kcm w)) (list_unlink pg (freelist (kcm w)))
             (free_pages_nr (kcm w) -! 1) (busy_pages_nr (kcm w)) (active_pages_nr (kcm w)) ->
  inv n sz w' [] /\ same_live w w' /\ freelist (kcm w') = F.
Proof.
  intros I EF Hi Hk. pose proof (inv_geo _ _ _ _ I) as (G & Hbn & Hsz & _).
  pose proof I as I'. inv_facts I'. rewrite EF in Hnd, Hdom, Hfr, Hcf, H. rewrite zlen_cons in Hcf, H.
  pose proof Hnd as Hnd'. rewrite app_nil_r in Hnd'. rewrite <- (Permutation_middle (busylist (kcm w)) F pg), <- Permutation_middle in Hnd'.
  apply NoDup_cons in Hnd' as [Hout Hnd']. elems_in Hout.
  assert (EU : list_unlink pg (freelist (kcm w)) = F) by (rewrite EF; apply unlink_head; tauto).
  destruct (Hfr pg) as (pi & Hpi & _ & _ & Hu); [apply elem_of_cons; auto|].
  assert (Hdel : forall l P, pg ∉ l -> listed n sz (infos w) l P -> listed n sz (delete pg (infos w)) l P).
  { intros l P Hn Hl q Hq. rewrite lookup_delete_ne by congruence. apply Hl, Hq. }
  assert (Htake : pg ∉ take 1 (activelist (kcm w)) /\ pg ∉ drop 1 (activelist (kcm w))).
  { rewrite <- (take_drop 1 (activelist (kcm w))) in Hout. elems_in Hout. tauto. }
  split_and!; [| |rewrite Hk; cbn; done].
  - split; rewrite ?Hi, ?Hk; cbn; rewrite ?EU, ?app_nil_r; try done; try (apply Hdel; [tauto|done]).
    + intros q pj [Hne Hq]%lookup_delete_Some. apply Hdom in Hq. elems_in Hq. elems. assert (q <> pg) by congruence. tauto.
    + apply Hdel; [tauto|]. eapply listed_subset; [|exact Hfr]. intros. apply elem_of_cons. auto.
    + apply listed_nil.
    + split_and!; try done. rewrite Hcf, u32_small by (zlens; unfold is_u32; lia). lia.
  - intros p. unfold live. rewrite Hi, Hk. cbn. rewrite Hbn. split; intros (q & pj & j & Hq & Hj & Hbj & ->).
    + apply lookup_delete_Some in Hq as [_ Hq]. exists q, pj, j. done.
    + exists q, pj, j. split; [|done]. rewrite lookup_delete_ne; [done|]. intros <-.
      rewrite Hpi in Hq. injection Hq as <-. rewrite (used_none_inv _ _ j Hu Hj) in Hbj. done.
Qed.

Lemma release_loop_ok F : forall w, kcm_ok n sz w -> freelist (kcm w) = F ->
  kcm_ok n sz (release_loop w F) /\ same_live w (release_loop w F) /\
  free_pages_nr (kcm (release_loop w F)) = Z.min (free_pages_nr (kcm w)) (free_pages_min (kcm w)).
Proof.
  induction F as [|pg F IH]; intros w [I HA] EF; cbn [release_loop].
  - pose proof (inv_counts _ _ _ _ I) as (Hc & _). rewrite EF in Hc. pose proof (inv_marks _ _ _ _ I).
    split; [split; done|]. split; [done|]. rewrite Hc. unfold zlen. cbn. lia.
  - destruct (Z.leb_spec (free_pages_nr (kcm w)) (free_pages_min (kcm w))).
    + split; [split; done|]. split; [done|]. lia.
    + pose proof (inv_counts _ _ _ _ I) as (Hc & _). pose proof (inv_small _ _ _ _ I) as Hsm. rewrite EF in Hsm, Hc.
      pose proof (inv_marks _ _ _ _ I) as Hma.
      match goal with |- context [release_loop ?x F] => set (w1 := x) end.
      destruct (drop_page_ok w w1 pg F I EF) as (I1 & L1 & F1).
      { subst w1. destruct (obj_destroy (kcm w)); done. }
      { subst w1. destruct (obj_destroy (kcm w)); done. }
      assert (A1 : activelist (kcm w1) = activelist (kcm w) /\ free_pages_nr (kcm w1) = free_pages_nr (kcm w) -! 1 /\
                   free_pages_min (kcm w1) = free_pages_min (kcm w)) by (subst w1; destruct (obj_destroy (kcm w)); done).
      destruct A1 as (A1 & N1 & M1). rewrite u32_small in N1 by (rewrite zlen_cons in *; zlens; unfold is_u32; lia).
      destruct (IH w1) as (O2 & L2 & N2); [split; [done|congruence]|done|].
      split; [done|]. split; [intros p; rewrite (L2 p); apply L1|]. rewrite N2, N1, M1. lia.
Qed.
End Whole.

(** ** Initialisation *)

(** The size and the number of the blocks of a cache for objects of [size_] bytes *)
Definition block_size (size_ aligne_ : Z) : Z :=
  ARROUND_UP size_ (if negb (aligne_ =? 0) && (aligne_ <? 33) then 32 else KCM_ALIGNE).
Definition block_count (sz : Z) : Z :=
  if SIZEOF_PAGE_INFO <=? KCM_PAGE_SIZE mod sz then KCM_PAGE_SIZE / sz else KCM_PAGE_SIZE / sz -! 1.

Lemma block_size_bounds size_ aligne_ : 0 < size_ <= 1024 ->
  let sz := block_size size_ aligne_ in size_ <= sz <= 1024 /\ 32 <= sz /\ sz mod 32 = 0.
Proof.
  intros Hs. unfold block_size, KCM_ALIGNE.
  assert (H : forall m, 5 <= m <= 6 -> let r := ARROUND_UP size_ (2 ^ m) in size_ <= r <= 1024 /\ 32 <= r /\ r mod 32 = 0).
  { intros m Hm. destruct (ARROUND_UP_spec size_ m) as [Hmod Hr]; [lia..| |].
    { assert (2 ^ m <= 2 ^ 6) by (apply Z.pow_le_mono_r; lia). lia. }
    assert (m = 5 \/ m = 6) as [-> | ->] by lia; change (2 ^ 5) with 32 in *; change (2 ^ 6) with 64 in *;
      cbv zeta in *; set (r := ARROUND_UP size_ _) in *; clearbody r; Z.to_euclidean_division_equations; lia. }
  destruct (_ && _); [apply (H 5)|apply (H 6)]; lia.
Qed.

(** The blocks fit the page, except for blocks of 32 bytes. *)
Lemma init_geometry sz : 64 <= sz <= 1024 -> sz mod 32 = 0 -> geometry (block_count sz) sz.
Proof.
  intros Hs Hm. unfold geometry, block_count, SIZEOF_PAGE_INFO, KCM_PAGE_SIZE.
  pose proof (Z.div_mod 4096 sz ltac:(lia)) as E. pose proof (Z.mod_pos_bound 4096 sz ltac:(lia)).
  assert (4 <= 4096 / sz) by (apply Z.div_le_lower_bound; lia).
  assert (4096 / sz <= 64) by (apply Z.div_le_upper_bound; lia).
  assert (Hr : (4096 mod sz) mod 32 = 0).
  { apply Z.mod_divide in Hm as [c ->]; [|lia]. apply Z.mod_divide; [lia|].
    exists (128 - c * (4096 / (c * 32))). lia. }
  set (q := 4096 / sz) in *. set (r := 4096 mod sz) in *. clearbody q r.
  destruct (Z.leb_spec 40 r).
  - split; [lia|]. split; [lia|]. assert (64 <= r) by (Z.to_euclidean_division_equations; lia). lia.
  - rewrite u32_small by (unfold is_u32; lia). split; [lia|]. split; [lia|]. nia.
Qed.

(** The empty memory of pages: no descriptor yet *)
Lemma kcm_init_ok w mem size_ aligne_ fmin fmax ctor dtor :
  let sz := block_size size_ aligne_ in
  let n := block_count sz in
  infos w = ∅ -> 0 < size_ <= 1024 -> 64 <= sz -> 0 <= fmin -> 0 <= fmax ->
  1 <= (fmin + fmax) / 2 -> fmin + fmax < 2 ^ 32 -> mem_ok n w mem ->
  exists err w' mem', kcm_init w mem size_ aligne_ fmin fmax ctor dtor = Some (err, w', mem') /\
    ((err = 0 /\ kcm_ok n sz w' /\ (forall p, ~ live w' p) /\
      free_pages_min (kcm w') = fmin /\ free_pages_max (kcm w') = fmax) \/ (err = -1 /\ refused mem mem')).
Proof.
  intros sz n Hw Hs H64 Hmin Hmax Hmid Hsum M. destruct (block_size_bounds size_ aligne_ Hs) as (Hsz & _ & Hm).
  assert (G : geometry n sz) by (apply init_geometry; subst sz; lia).
  unfold kcm_init. fold (block_size size_ aligne_). fold sz. fold (block_count sz). fold n.
  match goal with |- context [freelist_get ?x mem] => set (w0 := x) end.
  assert (I0 : inv n sz w0 []).
  { split; cbn; try done; try (apply listed_nil).
    - split_and!; try done; [apply G..|]. destruct (negb (aligne_ =? 0) && (aligne_ <? 33)); auto.
    - apply NoDup_nil. done.
    - intros pg pi. rewrite Hw, lookup_empty. done. }
  assert (M0 : mem_ok n w0 mem) by (destruct M; split; done).
  destruct (freelist_get_ok n sz w0 mem I0 M0 Hmid) as (pg & w1 & mem1 & -> & M1 & K1 & Hc). cbn [mbind option_bind].
  destruct Hc as [[Hpg I1]|(-> & I1 & Href)].
  2:{ exists (-1), w1, mem1. split; [done|]. right. done. }
  rewrite (proj2 (Z.eqb_neq _ _) Hpg). destruct K1 as [L1 J1 A1 B1 Mi1 Ma1].
  pose proof I1 as I'. inv_facts I'. rewrite A1 in Hnd, Hdom, Hca, H. rewrite B1 in Hnd, Hdom, Hcb, H. cbn [activelist busylist kcm w0 set_kcm] in *.
  destruct (Hlo pg) as (pi & Hpi & Hok & Hfl & Hu); [apply elem_of_cons; auto|]. rewrite Hpi. cbn [mbind option_bind].
  do 3 eexists. split; [done|]. left. split; [done|].
  assert (Hset : PAGE_SET pi KCM_PAGE_ACTIVE = set_flags pi KCM_PAGE_ACTIVE) by (unfold PAGE_SET; rewrite Hfl; done).
  assert (HnF : pg ∉ freelist (kcm w1)).
  { intros Hin. rewrite !app_nil_l in Hnd. apply NoDup_app in Hnd as (_ & Hd & _). apply (Hd pg Hin). apply elem_of_cons. auto. }
  split_and!; [split|..].
  - rewrite Hset. split; cbn; rewrite ?A1, ?B1; cbn; rewrite ?app_nil_r; try done.
    + rewrite !app_nil_l in Hnd. rewrite <- Permutation_cons_append in Hnd. done.
    + intros q pj. rewrite lookup_insert_Some. intros [[<- _]|[_ Hq]]; [apply elem_of_cons; auto|].
      apply Hdom in Hq. elems_in Hq. elems. tauto.
    + apply listed_cons; [|apply listed_nil]. rewrite lookup_insert_eq. eexists. split; [done|]. split; [destruct Hok; split; done|done].
    + apply listed_nil.
    + apply listed_nil.
    + apply listed_update; done.
    + apply listed_nil.
    + split_and!; try done. rewrite Hca. done.
  - cbn. done.
  - intros p (q & pj & j & Hq & Hj & Hbj & ->). cbn in Hq, Hj. rewrite Hbn in Hj.
    destruct (L1 (q + 64 + j * size (kcm w1))) as [Hl _].
    destruct Hl as (q0 & pj0 & j0 & Hq0 & _).
    { apply lookup_insert_Some in Hq as [[<- <-]|[_ Hq]].
      - cbn in Hbj. rewrite (used_none_inv _ _ j Hu Hj) in Hbj. done.
      - exists q, pj, j. rewrite Hbn. done. }
    cbn in Hq0. rewrite Hw, lookup_empty in Hq0. done.
  - cbn. exact Mi1.
  - cbn. exact Ma1.
Qed.

(** C2: A cache hands out blocks of its pages, under two conditions that the code does not establish: its [n] blocks
    fit a page after the descriptor ([geometry], in [kcm_ok]; a cache of objects of at most 32 bytes aligned on 32 breaks it, [kcm_small_blocks_overrun]), and
    the pages that it gets from [page_alloc] are new and hold clear bits past the last block where the bitmap is going to be ([mem_ok]; [freelist_populate] does
    not clear them, [kcm_dirty_page_overrun]).  Then [kcm_alloc] returns a block that no client holds,
    inside one page and disjoint from all blocks held, or [NULL] after [page_alloc] refused a
    page; [kcm_free] takes back exactly the block it is given; [kcm_release] gives empty pages
    back down to the low mark and touches no block that is held. *)
Theorem kcm_contract (n sz : Z) (w : world) (mem : list (option (Z * bitmap_t))) :
  kcm_ok n sz w -> mem_ok n w mem -> 1 <= (free_pages_min (kcm w) + free_pages_max (kcm w)) / 2 ->
  (exists p w' mem', kcm_alloc w mem = Some (p, w', mem') /\ kcm_ok n sz w' /\
     ((p <> 0 /\ ~ live w p /\ forall q, live w' q <-> q = p \/ live w q) \/
      (p = 0 /\ same_live w w' /\ refused mem mem'))) /\
  (forall p, live w p ->
     exists w', kcm_free w p = Some w' /\ kcm_ok n sz w' /\ forall q, live w' q <-> live w q /\ q <> p) /\
  (kcm_ok n sz (kcm_release w) /\ same_live w (kcm_release w) /\
     free_pages_nr (kcm (kcm_release w)) = Z.min (free_pages_nr (kcm w)) (free_pages_min (kcm w))) /\
  (forall p, live w p -> exists pg, pg mod 4096 = 0 /\ pg + 64 <= p /\ p + sz <= pg + 4096) /\
  (forall p q, live w p -> live w q -> p = q \/ p + sz <= q \/ q + sz <= p).
Proof.
  intros O M Hmid. split; [apply kcm_alloc_ok; done|]. split; [intros p; apply kcm_free_ok; done|].
  split; [apply release_loop_ok; done|]. destruct O as [I _].
  pose proof (inv_geo _ _ _ _ I) as (G & Hbn & Hsz & _). split.
  - intros p (pg & pi & k & Hpi & Hk & _ & ->). rewrite Hbn in Hk. rewrite Hsz.
    destruct (page_addr _ _ _ _ (inv_page _ _ _ _ _ _ I Hpi)) as (?&?&?).
    destruct (block_addr n sz G pg k) as (?&?&_); try done. exists pg. split; [done|lia].
  - intros p q (pg & pi & k & Hpi & Hk & _ & ->) (pg' & pi' & k' & Hpi' & Hk' & _ & ->).
    rewrite Hbn in Hk, Hk'. rewrite Hsz.
    destruct (page_addr _ _ _ _ (inv_page _ _ _ _ _ _ I Hpi)) as (?&?&?).
    destruct (page_addr _ _ _ _ (inv_page _ _ _ _ _ _ I Hpi')) as (?&?&?).
    destruct (block_addr n sz G pg k) as (?&?&_); try done. destruct (block_addr n sz G pg' k') as (?&?&_); try done.
    destruct (decide (pg = pg')) as [->|Hne].
    + destruct G as (_ & ? & _). destruct (Z.lt_trichotomy k k') as [?|[->|?]]; [right; left; nia|left; done|right; right; nia].
    + right. pose proof (Z.div_mod pg 4096). pose proof (Z.div_mod pg' 4096). lia.
Qed.

(** a cache for objects of at most 1024 bytes whose blocks have at least 64 bytes starts with
    no block held and in order for the contract above, or fails because [page_alloc] refused. *)
Theorem kcm_init_correct (w : world) (mem : list (option (Z * bitmap_t))) (size_ aligne_ fmin fmax : Z) (ctor dtor : bool) :
  let sz := block_size size_ aligne_ in
  let n := block_count sz in
  infos w = ∅ -> 0 < size_ <= 1024 -> 64 <= sz -> 0 <= fmin -> 0 <= fmax ->
  1 <= (fmin + fmax) / 2 -> fmin + fmax < 2 ^ 32 -> mem_ok n w mem ->
  exists err w' mem', kcm_init w mem size_ aligne_ fmin fmax ctor dtor = Some (err, w', mem') /\
    ((err = 0 /\ kcm_ok n sz w' /\ (forall p, ~ live w' p) /\
      free_pages_min (kcm w') = fmin /\ free_pages_max (kcm w') = fmax) \/ (err = -1 /\ refused mem mem')).
Proof. intros sz n. intros. apply kcm_init_ok; done. Qed.

(** ** Examples *)

Definition no_kcm : world := World (Kcm 0 0 0 [] [] [] 0 0 0 0 0 false false) ∅ [].

(** The answers of [page_alloc]: pages that hold [contents]. *)
Definition pages (contents : bitmap_t) (l : list Z) : list (option (Z * bitmap_t)) :=
  (fun pg => Some (pg, contents)) <$> l.

Definition zero_page : bitmap_t := [0; 0; 0; 0].

Lemma zero_bits k : 0 <= k < 128 -> bit zero_page k = false.
Proof.
  intros. unfold bit, zero_page, zget.
  assert (Hw : forall i, default 0 ([0; 0; 0; 0] !! i) = 0) by (intros [|[|[|[|i]]]]; done).
  rewrite Hw. apply Z.testbit_0_l.
Qed.

Lemma zero_mem n : 0 <= n -> mem_ok n no_kcm (pages zero_page [4096; 8192]).
Proof.
  intros Hn.
  assert (Hin : forall pg bm, Some (pg, bm) ∈ pages zero_page [4096; 8192] -> bm = zero_page /\ (pg = 4096 \/ pg = 8192)).
  { cbn. intros pg bm. elems. intros [?|[?|[]]]; simplify_eq; auto. }
  split.
  - cbn. apply (bool_decide_eq_true _). vm_compute. reflexivity.
  - intros pg bm _. done.
  - intros pg bm [-> Hpg]%Hin. assert (bitmap_wf zero_page) by (apply (bool_decide_eq_true _); vm_compute; reflexivity).
    destruct Hpg as [-> | ->]; (split_and!; try done; try lia; intros; apply zero_bits; lia).
Qed.

Lemma kcm_init_correct_witness :
  exists err w' mem', kcm_init no_kcm (pages zero_page [4096; 8192]) 1000 0 1 1 true true = Some (err, w', mem') /\
    ((err = 0 /\ kcm_ok 3 1024 w' /\ (forall p, ~ live w' p) /\
      free_pages_min (kcm w') = 1 /\ free_pages_max (kcm w') = 1) \/ (err = -1 /\ refused (pages zero_page [4096; 8192]) mem')).
Proof.
  apply (kcm_init_correct no_kcm (pages zero_page [4096; 8192]) 1000 0 1 1 true true); try lia; try done.
  apply zero_mem. vm_compute. discriminate.
Defined.

(** A cache that has just been initialised, with its first page *)
Definition small_kcm : world :=
  match kcm_init no_kcm (pages zero_page [4096]) 1000 0 1 1 true true with Some (_, w, _) => w | None => no_kcm end.

Lemma small_kcm_ok : kcm_ok 3 1024 small_kcm.
Proof.
  assert (M : mem_ok 3 no_kcm (pages zero_page [4096])).
  { destruct (zero_mem 3) as [H1 H2 H3]; [lia|]. split.
    - cbn. apply NoDup_singleton.
    - intros pg bm Hin. apply (H2 pg bm). cbn in *. elems_in Hin. elems. tauto.
    - intros pg bm Hin. apply (H3 pg bm). cbn in *. elems_in Hin. elems. tauto. }
  assert (H64 : 64 <= block_size 1000 0) by (vm_compute; discriminate).
  destruct (kcm_init_ok no_kcm (pages zero_page [4096]) 1000 0 1 1 true true) as (err & w & mem & E & Hc);
    [reflexivity|lia|exact H64|lia|lia|vm_compute; discriminate|lia|exact M|].
  unfold small_kcm. rewrite E. destruct Hc as [(_ & O & _)|(-> & _)]; [exact O|]. vm_compute in E. discriminate.
Qed.

Lemma kcm_contract_witness :
  exists p w' mem', kcm_alloc small_kcm [] = Some (p, w', mem') /\ kcm_ok 3 1024 w' /\
     ((p <> 0 /\ ~ live small_kcm p /\ forall q, live w' q <-> q = p \/ live small_kcm q) \/
      (p = 0 /\ same_live small_kcm w' /\ refused [] mem')).
Proof.
  apply (kcm_contract 3 1024 small_kcm [] small_kcm_ok); [|vm_compute; discriminate].
  split; [apply NoDup_nil; done|intros ? ? ?%not_elem_of_nil; done..].
Defined.

(** [n] allocations in a row; the last address *)
Fixpoint alloc_many (n : nat) (w : world) (mem : list (option (Z * bitmap_t))) (last : Z)
    : option (Z * world * list (option (Z * bitmap_t))) :=
  match n with
  | O => Some (last, w, mem)
  | S n => '(p, w, mem) ← kcm_alloc w mem; alloc_many n w mem p
  end.

(** With an alignment of 32 and objects of at most 32 bytes, the 127 blocks do not fit the page
    after its descriptor: the last one is in the next page. *)
Theorem kcm_small_blocks_overrun :
  ('(_, w, mem) ← kcm_init no_kcm (pages zero_page [4096]) 32 32 1 1 false false;
   '(p, w, _) ← alloc_many 127 w mem 0;
   Some (p, blocks_nr (kcm w), activelist (kcm w))) = Some (4096 + 4096, 127, [4096]).
Proof. vm_compute. reflexivity. Qed.

(** [freelist_populate] sets the bits of the blocks in a bitmap it does not clear.  When the page
    holds other set bits, a block after the last one can be handed out: here the three blocks
    are taken, the first one goes back, and the second allocation after that crosses the end of
    the page. *)
Theorem kcm_dirty_page_overrun :
  ('(_, w, mem) ← kcm_init no_kcm (pages (replicate 4 (2 ^ 32 - 1)) [4096]) 1000 0 1 1 false false;
   '(_, w, mem) ← alloc_many 3 w mem 0;
   w ← kcm_free w (4096 + 64);
   '(p, w, _) ← alloc_many 2 w mem 0;
   Some (p - 4096, p + size (kcm w) - 4096)) = Some (64 + 3 * 1024, 64 + 4 * 1024).
Proof. vm_compute. reflexivity. Qed.

(** The destructors are called on other addresses than the constructors. *)
Theorem kcm_dtor_misplaced :
  ('(_, w, mem) ← kcm_init no_kcm (pages zero_page [4096; 8192; 12288]) 1000 0 0 4 true true;
   Some (omap (fun c => match c with Dtor p => Some p | _ => None end) (calls (kcm_release w)),
         head (calls w))) = Some ([4096 + 40; 4096 + 1064; 4096 + 2088], Some (Ctor (4096 + 64))).
Proof. vm_compute. reflexivity. Qed.
