(* ===== verification/Rbtree.v ===== *)
(** * Rbtree: the red-black trees of [kernel/libk/rbtree.c] and [rbtree.h]

    The operations are translated at the level of pointers.  A node is the [struct rb_node] of the
    source, with the address of its parent and its colour packed in one word; a tree is its root
    pointer and a store from addresses to nodes, the nodes being fields of the objects of a client.
    Reading or writing a node that is not in the store faults ([None]).  [RbShape] gives the trees
    that a store represents, [RbInsert] and [RbErase] the theorems. *)

From S2P Require Import Prelude.

(** ** Data *)

Definition RB_RED : Z := 0.
Definition RB_BLACK : Z := 1.

Record rb_node := RbNode { rb_parent_color : Z; rb_right : Z; rb_left : Z }.

(** [struct rb_root] with the store of the nodes *)
Record rb_tree := RbTree { rb_root : Z; nodes : gmap Z rb_node }.

(** *** The macros on a node *)

Definition rb_parent (n : rb_node) : Z := Z.land (rb_parent_color n) (~! 3).
Definition rb_color (n : rb_node) : Z := Z.land (rb_parent_color n) 1.
Definition rb_is_red (n : rb_node) : bool := rb_color n =? 0.
Definition rb_is_black (n : rb_node) : bool := negb (rb_color n =? 0).

(** *** Accesses through a pointer *)

Section Access.
Implicit Types (s : rb_tree) (p v : Z).

Definition get s p : option rb_node := nodes s !! p.
Definition put s p (n : rb_node) : rb_tree := RbTree (rb_root s) (<[p := n]> (nodes s)).
Definition set_root s v : rb_tree := RbTree v (nodes s).

Definition set_parent_color s p v : option rb_tree :=
  n ← get s p; Some (put s p (RbNode v (rb_right n) (rb_left n))).
Definition set_right s p v : option rb_tree :=
  n ← get s p; Some (put s p (RbNode (rb_parent_color n) v (rb_left n))).
Definition set_left s p v : option rb_tree :=
  n ← get s p; Some (put s p (RbNode (rb_parent_color n) (rb_right n) v)).

Definition rb_set_red s p : option rb_tree :=
  n ← get s p; set_parent_color s p (Z.land (rb_parent_color n) (~! 1)).
Definition rb_set_black s p : option rb_tree :=
  n ← get s p; set_parent_color s p (Z.lor (rb_parent_color n) 1).
Definition rb_set_parent s p v : option rb_tree :=
  n ← get s p; set_parent_color s p (Z.lor (Z.land (rb_parent_color n) 3) v).
Definition rb_set_color s p color : option rb_tree :=
  n ← get s p; set_parent_color s p (Z.lor (Z.land (rb_parent_color n) (~! 1)) color).

(** [p && rb_is_red(p)] and [!p || rb_is_black(p)] *)
Definition is_red s p : option bool :=
  if p =? 0 then Some false else n ← get s p; Some (rb_is_red n).
Definition is_black s p : option bool :=
  if p =? 0 then Some true else n ← get s p; Some (rb_is_black n).

Definition RB_EMPTY_ROOT s : bool := rb_root s =? 0.
Definition RB_EMPTY_NODE s p : option bool := n ← get s p; Some (rb_parent n =? p).
Definition RB_CLEAR_NODE s p : option rb_tree := rb_set_parent s p p.
End Access.

(** A [struct rb_node **]: the root pointer or a child field of a node *)
Inductive rb_link := LinkRoot | LinkLeft (p : Z) | LinkRight (p : Z).

Definition load_link (s : rb_tree) (l : rb_link) : option Z :=
  match l with
  | LinkRoot => Some (rb_root s)
  | LinkLeft p => rb_left <$> get s p
  | LinkRight p => rb_right <$> get s p
  end.

Definition store_link (s : rb_tree) (l : rb_link) (v : Z) : option rb_tree :=
  match l with
  | LinkRoot => Some (set_root s v)
  | LinkLeft p => set_left s p v
  | LinkRight p => set_right s p v
  end.

Definition rb_link_node (s : rb_tree) (node parent : Z) (rb_link : rb_link) : option rb_tree :=
  n ← get s node;
  store_link (put s node (RbNode parent 0 0)) rb_link node.

(** ** Rotations *)

Definition __rb_rotate_left (s : rb_tree) (node : Z) : option rb_tree :=
  n ← get s node;
  let right := rb_right n in
  let parent := rb_parent n in
  r ← get s right;
  s ← set_right s node (rb_left r);
  s ← (if rb_left r =? 0 then Some s else rb_set_parent s (rb_left r) node);
  s ← set_left s right node;
  s ← rb_set_parent s right parent;
  s ← (if negb (parent =? 0) then
         p ← get s parent;
         if node =? rb_left p then set_left s parent right else set_right s parent right
       else Some (set_root s right));
  rb_set_parent s node right.

Definition __rb_rotate_right (s : rb_tree) (node : Z) : option rb_tree :=
  n ← get s node;
  let left := rb_left n in
  let parent := rb_parent n in
  l ← get s left;
  s ← set_left s node (rb_right l);
  s ← (if rb_right l =? 0 then Some s else rb_set_parent s (rb_right l) node);
  s ← set_right s left node;
  s ← rb_set_parent s left parent;
  s ← (if negb (parent =? 0) then
         p ← get s parent;
         if node =? rb_right p then set_right s parent left else set_left s parent left
       else Some (set_root s left));
  rb_set_parent s node left.

(** Loops climb or descend a tree: the number of nodes in the store bounds their length. *)
Definition tree_fuel (s : rb_tree) : nat := S (size (nodes s)).
#[global] Arguments tree_fuel : simpl never.

(** ** Insertion *)

Fixpoint insert_color_loop (fuel : nat) (s : rb_tree) (node : Z) : option rb_tree :=
  match fuel with
  | O => None
  | S fuel =>
      n ← get s node;
      let parent := rb_parent n in
      if parent =? 0 then Some s else
      p ← get s parent;
      if negb (rb_is_red p) then Some s else
      let gparent := rb_parent p in
      g ← get s gparent;
      if parent =? rb_left g then
        let uncle := rb_right g in
        red ← is_red s uncle;
        if (red : bool) then
          s ← rb_set_black s uncle;
          s ← rb_set_black s parent;
          s ← rb_set_red s gparent;
          insert_color_loop fuel s gparent
        else
          '(s, parent, node) ←
            (if rb_right p =? node then s ← __rb_rotate_left s parent; Some (s, node, parent)
             else Some (s, parent, node));
          s ← rb_set_black s parent;
          s ← rb_set_red s gparent;
          s ← __rb_rotate_right s gparent;
          insert_color_loop fuel s node
      else
        let uncle := rb_left g in
        red ← is_red s uncle;
        if (red : bool) then
          s ← rb_set_black s uncle;
          s ← rb_set_black s parent;
          s ← rb_set_red s gparent;
          insert_color_loop fuel s gparent
        else
          '(s, parent, node) ←
            (if rb_left p =? node then s ← __rb_rotate_right s parent; Some (s, node, parent)
             else Some (s, parent, node));
          s ← rb_set_black s parent;
          s ← rb_set_red s gparent;
          s ← __rb_rotate_left s gparent;
          insert_color_loop fuel s node
  end.

Definition rb_insert_color (s : rb_tree) (node : Z) : option rb_tree :=
  s ← insert_color_loop (tree_fuel s) s node;
  rb_set_black s (rb_root s).

(** ** Removal *)

Fixpoint erase_color_loop (fuel : nat) (s : rb_tree) (node parent : Z) : option (rb_tree * Z) :=
  match fuel with
  | O => None
  | S fuel =>
      black ← is_black s node;
      if negb black || (node =? rb_root s) then Some (s, node) else
      p ← get s parent;
      if rb_left p =? node then
        let other := rb_right p in
        o ← get s other;
        '(s, other) ←
          (if rb_is_red o then
             s ← rb_set_black s other;
             s ← rb_set_red s parent;
             s ← __rb_rotate_left s parent;
             p ← get s parent; Some (s, rb_right p)
           else Some (s, other));
        o ← get s other;
        bl ← is_black s (rb_left o);
        both ← (if (bl : bool) then is_black s (rb_right o) else Some false);
        if (both : bool) then
          s ← rb_set_red s other;
          n ← get s parent;
          erase_color_loop fuel s parent (rb_parent n)
        else
          br ← is_black s (rb_right o);
          '(s, other) ←
            (if (br : bool) then
               s ← rb_set_black s (rb_left o);
               s ← rb_set_red s other;
               s ← __rb_rotate_right s other;
               p ← get s parent; Some (s, rb_right p)
             else Some (s, other));
          p ← get s parent;
          s ← rb_set_color s other (rb_color p);
          s ← rb_set_black s parent;
          o ← get s other;
          s ← rb_set_black s (rb_right o);
          s ← __rb_rotate_left s parent;
          Some (s, rb_root s)
      else
        let other := rb_left p in
        o ← get s other;
        '(s, other) ←
          (if rb_is_red o then
             s ← rb_set_black s other;
             s ← rb_set_red s parent;
             s ← __rb_rotate_right s parent;
             p ← get s parent; Some (s, rb_left p)
           else Some (s, other));
        o ← get s other;
        bl ← is_black s (rb_left o);
        both ← (if (bl : bool) then is_black s (rb_right o) else Some false);
        if (both : bool) then
          s ← rb_set_red s other;
          n ← get s parent;
          erase_color_loop fuel s parent (rb_parent n)
        else
          bl ← is_black s (rb_left o);
          '(s, other) ←
            (if (bl : bool) then
               s ← rb_set_black s (rb_right o);
               s ← rb_set_red s other;
               s ← __rb_rotate_left s other;
               p ← get s parent; Some (s, rb_left p)
             else Some (s, other));
          p ← get s parent;
          s ← rb_set_color s other (rb_color p);
          s ← rb_set_black s parent;
          o ← get s other;
          s ← rb_set_black s (rb_left o);
          s ← __rb_rotate_right s parent;
          Some (s, rb_root s)
  end.

Definition __rb_erase_color (s : rb_tree) (node parent : Z) : option rb_tree :=
  '(s, node) ← erase_color_loop (tree_fuel s) s node parent;
  if node =? 0 then Some s else rb_set_black s node.

(** [while (node->rb_left) node = node->rb_left], and its mirror image *)
Fixpoint leftmost (fuel : nat) (s : rb_tree) (node : Z) : option Z :=
  match fuel with
  | O => None
  | S fuel => n ← get s node; if rb_left n =? 0 then Some node else leftmost fuel s (rb_left n)
  end.
Fixpoint rightmost (fuel : nat) (s : rb_tree) (node : Z) : option Z :=
  match fuel with
  | O => None
  | S fuel => n ← get s node; if rb_right n =? 0 then Some node else rightmost fuel s (rb_right n)
  end.

(** Removal of a node with at most one child *)
Definition erase_one (s : rb_tree) (node child : Z) : option rb_tree :=
  n ← get s node;
  let parent := rb_parent n in
  let color := rb_color n in
  s ← (if negb (child =? 0) then rb_set_parent s child parent else Some s);
  s ← (if negb (parent =? 0) then
         p ← get s parent;
         if rb_left p =? node then set_left s parent child else set_right s parent child
       else Some (set_root s child));
  if color =? RB_BLACK then __rb_erase_color s child parent else Some s.

(** Removal of a node with two children: its successor takes its place. *)
Definition erase_two (s : rb_tree) (old : Z) : option rb_tree :=
  o ← get s old;
  node ← leftmost (tree_fuel s) s (rb_right o);
  s ← (if negb (rb_parent o =? 0) then
         p ← get s (rb_parent o);
         if rb_left p =? old then set_left s (rb_parent o) node else set_right s (rb_parent o) node
       else Some (set_root s node));
  n ← get s node;
  let child := rb_right n in
  let parent := rb_parent n in
  let color := rb_color n in
  '(s, parent) ←
    (if parent =? old then Some (s, node)
     else
       s ← (if negb (child =? 0) then rb_set_parent s child parent else Some s);
       s ← set_left s parent child;
       o ← get s old;
       s ← set_right s node (rb_right o);
       s ← rb_set_parent s (rb_right o) node;
       Some (s, parent));
  o ← get s old;
  s ← set_parent_color s node (rb_parent_color o);
  s ← set_left s node (rb_left o);
  s ← rb_set_parent s (rb_left o) node;
  if color =? RB_BLACK then __rb_erase_color s child parent else Some s.

Definition rb_erase (s : rb_tree) (node : Z) : option rb_tree :=
  n ← get s node;
  if rb_left n =? 0 then erase_one s node (rb_right n)
  else if rb_right n =? 0 then erase_one s node (rb_left n)
  else erase_two s node.

(** ** Traversal *)

Definition rb_first (s : rb_tree) : option Z :=
  if rb_root s =? 0 then Some 0 else leftmost (tree_fuel s) s (rb_root s).
Definition rb_last (s : rb_tree) : option Z :=
  if rb_root s =? 0 then Some 0 else rightmost (tree_fuel s) s (rb_root s).

(** [while ((parent = rb_parent(node)) && node == parent->rb_right) node = parent], the final
    [parent] *)
Fixpoint climb_right (fuel : nat) (s : rb_tree) (node : Z) : option Z :=
  match fuel with
  | O => None
  | S fuel =>
      n ← get s node;
      let parent := rb_parent n in
      if parent =? 0 then Some parent else
      p ← get s parent;
      if node =? rb_right p then climb_right fuel s parent else Some parent
  end.
Fixpoint climb_left (fuel : nat) (s : rb_tree) (node : Z) : option Z :=
  match fuel with
  | O => None
  | S fuel =>
      n ← get s node;
      let parent := rb_parent n in
      if parent =? 0 then Some parent else
      p ← get s parent;
      if node =? rb_left p then climb_left fuel s parent else Some parent
  end.

Definition rb_next (s : rb_tree) (node : Z) : option Z :=
  n ← get s node;
  if rb_parent n =? node then Some 0
  else if negb (rb_right n =? 0) then leftmost (tree_fuel s) s (rb_right n)
  else climb_right (tree_fuel s) s node.

Definition rb_prev (s : rb_tree) (node : Z) : option Z :=
  n ← get s node;
  if rb_parent n =? node then Some 0
  else if negb (rb_left n =? 0) then rightmost (tree_fuel s) s (rb_left n)
  else climb_left (tree_fuel s) s node.

Definition rb_replace_node (s : rb_tree) (victim new : Z) : option rb_tree :=
  v ← get s victim;
  let parent := rb_parent v in
  s ← (if negb (parent =? 0) then
         p ← get s parent;
         if victim =? rb_left p then set_left s parent new else set_right s parent new
       else Some (set_root s new));
  s ← (if negb (rb_left v =? 0) then rb_set_parent s (rb_left v) new else Some s);
  s ← (if negb (rb_right v =? 0) then rb_set_parent s (rb_right v) new else Some s);
  v ← get s victim;
  _ ← get s new;
  Some (put s new v).
