(* ===== verification/RbShape.v ===== *)
(** * RbShape: the trees that a store of [Rbtree] nodes represents

    [tree] is the shape of a tree with the address and the colour of its nodes, a context ([ctx]) the
    path from a position up to the root with the subtrees aside.  [at_focus s k t] says that the store [s]
    holds the tree [t] at the position [k]; the pointer operations are given as moves of the
    focus.  Directions make the mirror images of the source one lemma. *)

From S2P Require Import Prelude Rbtree.

(** ** Addresses and the packed word *)

(** The address of a node: not null, 32 bits, aligned on 4 *)
Definition addr_ok (a : Z) : Prop := 0 < a < 2 ^ 32 /\ a mod 4 = 0.
#[export] Instance addr_ok_dec a : Decision (addr_ok a).
Proof. unfold addr_ok. apply _. Defined.

Inductive color := Red | Black.
#[export] Instance color_eq_dec : EqDecision color.
Proof. solve_decision. Defined.

Definition color_bit (c : color) : Z := match c with Red => 0 | Black => 1 end.

(** The word that holds the parent [p] and the colour [c] *)
Definition pack (p : Z) (c : color) : Z := p + color_bit c.

(** A parent pointer is null or the address of a node. *)
Definition link_ok (p : Z) : Prop := 0 <= p < 2 ^ 32 /\ p mod 4 = 0.

Lemma addr_link a : addr_ok a -> link_ok a.
Proof. unfold addr_ok, link_ok. lia. Qed.
Lemma link_null : link_ok 0.
Proof. unfold link_ok. done. Qed.
#[export] Hint Resolve addr_link link_null : kernel.

Lemma link_low p n : link_ok p -> 0 <= n < 2 -> Z.testbit p n = false.
Proof.
  intros [_ Hm] Hn. change 4 with (2 ^ 2) in Hm.
  rewrite <- (Z.mod_pow2_bits_low p 2) by lia. rewrite Hm. apply Z.bits_0.
Qed.
Lemma link_high p n : link_ok p -> 32 <= n -> Z.testbit p n = false.
Proof. intros [Hb _]. apply testbit_is_u32_high. done. Qed.

Lemma color_bit_bits c n : 0 <= n -> Z.testbit (color_bit c) n = (n =? 0) && bool_decide (c = Black).
Proof.
  intros. destruct c; simpl; [rewrite Z.bits_0, andb_false_r; done|].
  rewrite andb_true_r. destruct (Z.eqb_spec n 0); subst; [done|]. change 1 with (2 ^ 0).
  apply Z.pow2_bits_false. lia.
Qed.

Lemma pack_lor p c : link_ok p -> pack p c = Z.lor p (color_bit c).
Proof.
  intros Hp. unfold pack. rewrite Z.add_nocarry_lxor, <- Z.lxor_lor; [done|..].
  all: apply Z.bits_inj'; intros n Hn; rewrite Z.land_spec, Z.bits_0, color_bit_bits by done.
  all: destruct (Z.eqb_spec n 0); subst; [rewrite link_low by (done || lia); done|rewrite andb_false_r; done].
Qed.

Lemma pack_bits p c n : link_ok p -> 0 <= n ->
  Z.testbit (pack p c) n = Z.testbit p n || ((n =? 0) && bool_decide (c = Black)).
Proof. intros. rewrite pack_lor, Z.lor_spec, color_bit_bits by done. done. Qed.

Lemma mask3_bits n : 0 <= n -> Z.testbit (~! 3) n = (2 <=? n) && (n <? 32).
Proof.
  intros. destruct (Z.ltb_spec n 32).
  - rewrite testbit_u32, Z.lnot_spec, andb_true_r by lia. change 3 with (Z.ones 2).
    destruct (Z.leb_spec 2 n); [rewrite Z.ones_spec_high|rewrite Z.ones_spec_low]; done || lia.
  - rewrite testbit_u32_high, andb_false_r by lia. done.
Qed.
Lemma mask1_bits n : 0 <= n -> Z.testbit (~! 1) n = (1 <=? n) && (n <? 32).
Proof.
  intros. destruct (Z.ltb_spec n 32).
  - rewrite testbit_u32, Z.lnot_spec, andb_true_r by lia. change 1 with (Z.ones 1) at 1.
    destruct (Z.leb_spec 1 n); [rewrite Z.ones_spec_high|rewrite Z.ones_spec_low]; done || lia.
  - rewrite testbit_u32_high, andb_false_r by lia. done.
Qed.

(** Equality of words made of a link and a colour, bit by bit *)
Ltac word_eq :=
  let n := fresh "n" in let Hn := fresh "Hn" in
  apply Z.bits_inj'; intros n Hn;
  rewrite ?Z.lor_spec, ?Z.land_spec, ?pack_bits, ?Z.lor_spec, ?mask3_bits, ?mask1_bits, ?color_bit_bits by done;
  assert (n = 0 \/ n = 1 \/ 2 <= n < 32 \/ 32 <= n) as [->|[->|[?|?]]] by lia;
  rewrite ?link_low by (done || lia); rewrite ?link_high by (done || lia);
  repeat match goal with
  | |- context [Z.leb ?a n] => destruct (Z.leb_spec a n); [|lia]
  | |- context [Z.ltb n ?a] => first [destruct (Z.ltb_spec n a); [|lia] | destruct (Z.ltb_spec n a); [lia|]]
  | |- context [Z.eqb n ?a] => destruct (Z.eqb_spec n a); [lia|]
  end;
  cbn; rewrite ?andb_true_r, ?andb_false_r, ?orb_false_r; try done.

Lemma pack_parent p c : link_ok p -> Z.land (pack p c) (~! 3) = p.
Proof. intros. word_eq. Qed.
Lemma pack_color p c : link_ok p -> Z.land (pack p c) 1 = color_bit c.
Proof. intros. change 1 with (color_bit Black). word_eq. Qed.
Lemma pack_set_parent p q c : link_ok p -> link_ok q -> Z.lor (Z.land (pack p c) 3) q = pack q c.
Proof.
  intros. change 3 with (Z.ones 2). rewrite (pack_lor q), (Z.lor_comm q) by done. f_equal.
  rewrite pack_lor, Z.land_lor_distr_l by done. rewrite !Z.land_ones by lia.
  replace (p mod 2 ^ 2) with 0 by (symmetry; apply H). destruct c; done.
Qed.
Lemma pack_set_red p c : link_ok p -> Z.land (pack p c) (~! 1) = pack p Red.
Proof. intros. word_eq. Qed.
Lemma pack_set_black p c : link_ok p -> Z.lor (pack p c) 1 = pack p Black.
Proof. intros. change 1 with (color_bit Black). word_eq. rewrite orb_true_r. done. Qed.
Lemma pack_set_color p c c' : link_ok p -> Z.lor (Z.land (pack p c) (~! 1)) (color_bit c') = pack p c'.
Proof. intros. word_eq. Qed.

(** ** Nodes by direction *)

Inductive dir := Lft | Rgt.
#[export] Instance dir_eq_dec : EqDecision dir.
Proof. solve_decision. Defined.
Definition opp (d : dir) : dir := match d with Lft => Rgt | Rgt => Lft end.

Definition child (d : dir) (n : rb_node) : Z := match d with Lft => rb_left n | Rgt => rb_right n end.
Definition set_child (d : dir) : rb_tree -> Z -> Z -> option rb_tree :=
  match d with Lft => set_left | Rgt => set_right end.
Definition rotate (d : dir) : rb_tree -> Z -> option rb_tree :=
  match d with Lft => __rb_rotate_left | Rgt => __rb_rotate_right end.

(** The node with parent [p], colour [c], child [near] on side [d] and [far] on the other *)
Definition cell (d : dir) (p : Z) (c : color) (near far : Z) : rb_node :=
  match d with Lft => RbNode (pack p c) far near | Rgt => RbNode (pack p c) near far end.

Lemma cell_opp d p c near far : cell (opp d) p c near far = cell d p c far near.
Proof. destruct d; done. Qed.
Lemma cell_parent d p c near far : link_ok p -> rb_parent (cell d p c near far) = p.
Proof. intros. destruct d; apply pack_parent; done. Qed.
Lemma cell_color d p c near far : link_ok p -> rb_color (cell d p c near far) = color_bit c.
Proof. intros. destruct d; apply pack_color; done. Qed.
Lemma cell_red d p c near far : link_ok p -> rb_is_red (cell d p c near far) = bool_decide (c = Red).
Proof. intros. unfold rb_is_red. rewrite cell_color by done. destruct c; done. Qed.
Lemma cell_black d p c near far : link_ok p -> rb_is_black (cell d p c near far) = bool_decide (c = Black).
Proof. intros. unfold rb_is_black. rewrite cell_color by done. destruct c; done. Qed.
Lemma cell_near d p c near far : child d (cell d p c near far) = near.
Proof. destruct d; done. Qed.
Lemma cell_far d p c near far : child (opp d) (cell d p c near far) = far.
Proof. destruct d; done. Qed.

Section Cells.
Context (s : rb_tree) (a : Z) (d : dir) (p : Z) (c : color) (near far : Z).
Hypothesis Hget : get s a = Some (cell d p c near far).

Lemma set_near_cell v : set_child d s a v = Some (put s a (cell d p c v far)).
Proof. destruct d; simpl; unfold set_left, set_right; rewrite Hget; done. Qed.
Lemma set_far_cell v : set_child (opp d) s a v = Some (put s a (cell d p c near v)).
Proof. destruct d; simpl; unfold set_left, set_right; rewrite Hget; done. Qed.

Hypothesis Hp : link_ok p.

Lemma set_word_cell (f : Z -> Z) q c' : f (pack p c) = pack q c' ->
  (n ← get s a; set_parent_color s a (f (rb_parent_color n))) = Some (put s a (cell d q c' near far)).
Proof.
  intros E. rewrite Hget. simpl. unfold set_parent_color. rewrite Hget. simpl.
  destruct d; simpl; rewrite E; done.
Qed.
Lemma set_parent_cell q : link_ok q -> rb_set_parent s a q = Some (put s a (cell d q c near far)).
Proof. intros. apply (set_word_cell (fun w => Z.lor (Z.land w 3) q)), pack_set_parent; done. Qed.
Lemma set_black_cell : rb_set_black s a = Some (put s a (cell d p Black near far)).
Proof. apply (set_word_cell (fun w => Z.lor w 1)), pack_set_black; done. Qed.
Lemma set_red_cell : rb_set_red s a = Some (put s a (cell d p Red near far)).
Proof. apply (set_word_cell (fun w => Z.land w (~! 1))), (pack_set_red p c); done. Qed.
Lemma set_color_cell c' : rb_set_color s a (color_bit c') = Some (put s a (cell d p c' near far)).
Proof. apply (set_word_cell (fun w => Z.lor (Z.land w (~! 1)) (color_bit c'))), pack_set_color; done. Qed.
End Cells.

Lemma get_put_eq s a n : get (put s a n) a = Some n.
Proof. apply lookup_insert_eq. Qed.
Lemma get_put_ne s a b n : a <> b -> get (put s a n) b = get s b.
Proof. apply lookup_insert_ne. Qed.
Lemma put_put s a n n' : put (put s a n) a n' = put s a n'.
Proof. unfold put. simpl. rewrite insert_insert_eq. done. Qed.

#[global] Arguments cell : simpl never.

(** ** Trees and contexts *)

Inductive tree := E | T (c : color) (l : tree) (a : Z) (r : tree).
#[export] Instance tree_eq_dec : EqDecision tree.
Proof. solve_decision. Defined.

(** The node with [near] on side [d] *)
Definition mk (d : dir) (c : color) (near : tree) (a : Z) (far : tree) : tree :=
  match d with Lft => T c near a far | Rgt => T c far a near end.

Definition ptr (t : tree) : Z := match t with E => 0 | T _ _ a _ => a end.
Definition col (t : tree) : color := match t with E => Black | T c _ _ _ => c end.
Fixpoint inorder (t : tree) : list Z :=
  match t with E => [] | T _ l a r => inorder l ++ a :: inorder r end.

Record frame := Frame { fdir : dir; fcol : color; faddr : Z; fsib : tree }.
Notation ctx := (list frame).

(** The pointer to the position of a context comes from its innermost frame. *)
Definition up (k : ctx) : Z := match k with [] => 0 | f :: _ => faddr f end.
Fixpoint plug (k : ctx) (t : tree) : tree :=
  match k with [] => t | Frame d c a sib :: k => plug k (mk d c t a sib) end.
Fixpoint ctx_addrs (k : ctx) : list Z :=
  match k with [] => [] | Frame d c a sib :: k => a :: inorder sib ++ ctx_addrs k end.

(** The tree [t] is in the store with [p] as the parent of its root. *)
Fixpoint rep (s : rb_tree) (p : Z) (t : tree) : Prop :=
  match t with
  | E => True
  | T c l a r => get s a = Some (cell Lft p c (ptr l) (ptr r)) /\ rep s a l /\ rep s a r
  end.
(** The context [k] is in the store, [q] being the pointer at its position. *)
Fixpoint rep_ctx (s : rb_tree) (k : ctx) (q : Z) : Prop :=
  match k with
  | [] => rb_root s = q
  | Frame d c a sib :: k => get s a = Some (cell d (up k) c q (ptr sib)) /\ rep s a sib /\ rep_ctx s k a
  end.

Definition addrs (k : ctx) (t : tree) : list Z := inorder t ++ ctx_addrs k.

Record at_focus (s : rb_tree) (k : ctx) (t : tree) : Prop := {
  foc_nodup : NoDup (addrs k t);
  foc_addr : Forall addr_ok (addrs k t);
  foc_tree : rep s (up k) t;
  foc_ctx : rep_ctx s k (ptr t);
}.

Definition represents (s : rb_tree) (t : tree) : Prop := at_focus s [] t.

Lemma mk_opp d c t1 a t2 : mk (opp d) c t1 a t2 = mk d c t2 a t1.
Proof. destruct d; done. Qed.
Lemma mk_T c l a r : T c l a r = mk Lft c l a r.
Proof. done. Qed.
Lemma ptr_mk d c t1 a t2 : ptr (mk d c t1 a t2) = a.
Proof. destruct d; done. Qed.
Lemma col_mk d c t1 a t2 : col (mk d c t1 a t2) = c.
Proof. destruct d; done. Qed.
Lemma inorder_mk d c t1 a t2 : inorder (mk d c t1 a t2) ≡ₚ a :: inorder t1 ++ inorder t2.
Proof. destruct d; simpl; [|rewrite (Permutation_app_comm (inorder t1))]; rewrite Permutation_middle; done. Qed.
Lemma rep_mk s p d c t1 a t2 :
  rep s p (mk d c t1 a t2) <-> get s a = Some (cell d p c (ptr t1) (ptr t2)) /\ rep s a t1 /\ rep s a t2.
Proof. destruct d; simpl; tauto. Qed.

(** Moving the focus *)
Lemma addrs_up d c a sib k t : addrs (Frame d c a sib :: k) t ≡ₚ addrs k (mk d c t a sib).
Proof.
  unfold addrs. simpl. rewrite inorder_mk. simpl. rewrite <- (assoc_L (++)), <- Permutation_middle. done.
Qed.
Lemma focus_up s d c a sib k t : at_focus s (Frame d c a sib :: k) t <-> at_focus s k (mk d c t a sib).
Proof.
  split; intros [H1 H2 H3 H4]; split.
  - rewrite <- addrs_up. done.
  - rewrite <- addrs_up. done.
  - apply rep_mk. destruct H4 as (?&?&?). done.
  - rewrite ptr_mk. apply H4.
  - rewrite addrs_up. done.
  - rewrite addrs_up. done.
  - apply rep_mk in H3. apply H3.
  - rewrite ptr_mk in H4. apply rep_mk in H3. simpl. tauto.
Qed.
Lemma focus_plug s k t : at_focus s k t <-> represents s (plug k t).
Proof.
  revert t. induction k as [|[d c a sib] k IH]; intros t; [done|]. rewrite focus_up, IH. done.
Qed.

Lemma addrs_plug k t : addrs k t ≡ₚ inorder (plug k t).
Proof.
  revert t. induction k as [|[d c b sib] k IH]; intros t; [unfold addrs; simpl; rewrite app_nil_r; done|].
  rewrite addrs_up. apply IH.
Qed.

(** ** Frame rules *)

Lemma rep_frame s s' p t : (forall a, a ∈ inorder t -> get s' a = get s a) -> rep s p t -> rep s' p t.
Proof.
  revert p. induction t as [|c l IHl a r IHr]; intros p Hf; [done|]. simpl in *. intros (H1 & H2 & H3).
  split_and!; [rewrite Hf by set_solver; done|apply IHl; [|done]..|apply IHr; [|done]]; set_solver.
Qed.
Lemma rep_ctx_frame s s' k q : rb_root s' = rb_root s -> (forall a, a ∈ ctx_addrs k -> get s' a = get s a) ->
  rep_ctx s k q -> rep_ctx s' k q.
Proof.
  intros Hr. revert q. induction k as [|[d c a sib] k IH]; intros q Hf; simpl in *; [congruence|].
  intros (H1 & H2 & H3). split_and!; [rewrite Hf by set_solver; done| |apply IH; [set_solver|done]].
  eapply rep_frame; [|done]. set_solver.
Qed.

Lemma up_link s k t : at_focus s k t -> link_ok (up k).
Proof.
  intros [_ Ha _ _]. destruct k as [|[d c a sib] k]; simpl; [auto with kernel|].
  apply addr_link. eapply Forall_forall; [exact Ha|]. unfold addrs. simpl. set_solver.
Qed.

(** ** Elementary changes of a store *)

(** The parent of the root of [t] becomes [q]. *)
Definition reparent (s : rb_tree) (t : tree) (q : Z) : rb_tree :=
  match t with E => s | T c l a r => put s a (cell Lft q c (ptr l) (ptr r)) end.
(** The pointer at the position of [k] becomes [q]. *)
Definition relink (s : rb_tree) (k : ctx) (q : Z) : rb_tree :=
  match k with [] => set_root s q | Frame d c a sib :: k => put s a (cell d (up k) c q (ptr sib)) end.

Lemma get_reparent s t q b : b ∉ inorder t -> get (reparent s t q) b = get s b.
Proof. destruct t; simpl; [done|]. intros. rewrite get_put_ne; set_solver. Qed.
Lemma root_reparent s t q : rb_root (reparent s t q) = rb_root s.
Proof. destruct t; done. Qed.
Lemma get_relink s k q b : b ∉ ctx_addrs k -> get (relink s k q) b = get s b.
Proof. destruct k as [|[]]; simpl; [done|]. intros. rewrite get_put_ne; set_solver. Qed.

Lemma ptr_zero t : Forall addr_ok (inorder t) -> (ptr t =? 0) = bool_decide (t = E).
Proof.
  intros Ha. destruct t as [|c l a r]; [done|]. rewrite bool_decide_eq_false_2 by done.
  apply Z.eqb_neq. simpl in *. apply Forall_app in Ha as [_ Ha]. apply Forall_cons_1 in Ha as [[? _] _]. lia.
Qed.
Lemma ptr_in t : t <> E -> ptr t ∈ inorder t.
Proof. destruct t; simpl; [done|set_solver]. Qed.

Lemma reparent_op s p t q : rep s p t -> Forall addr_ok (inorder t) -> link_ok p -> link_ok q ->
  (if ptr t =? 0 then Some s else rb_set_parent s (ptr t) q) = Some (reparent s t q).
Proof.
  intros Hr Ha Hp Hq. rewrite ptr_zero by done. destruct t as [|c l a r]; [done|].
  rewrite bool_decide_eq_false_2 by done. destruct Hr as (Hg & _). eapply set_parent_cell; done.
Qed.
Lemma reparent_rep s p t q : rep s p t -> NoDup (inorder t) -> rep (reparent s t q) q t.
Proof.
  destruct t as [|c l a r]; simpl; [done|]. intros (Hg & Hl & Hr) Hn.
  apply NoDup_app in Hn as (Hn1 & Hd & Hn2). apply NoDup_cons in Hn2 as [Ha Hn2].
  split_and!; [apply get_put_eq|eapply rep_frame; [|done]; intros b Hb; rewrite get_put_ne; set_solver..].
Qed.

(** The two forms that the source has of the update of the pointer to a node *)
Definition relink_code (d : dir) (s : rb_tree) (node parent q : Z) : option rb_tree :=
  if negb (parent =? 0) then
    p ← get s parent;
    if node =? child d p then set_child d s parent q else set_child (opp d) s parent q
  else Some (set_root s q).

Lemma relink_op d s k q v : rep_ctx s k q -> addr_ok q -> q ∉ ctx_addrs k -> Forall addr_ok (ctx_addrs k) ->
  relink_code d s q (up k) v = Some (relink s k v).
Proof.
  intros Hk Hq Hnq Ha. unfold relink_code. destruct k as [|[d' c a sib] k]; simpl in *; [done|].
  destruct Hk as (Hg & _). apply Forall_cons_1 in Ha as [[Ha _] Has].
  destruct (Z.eqb_spec a 0); [lia|]. simpl. rewrite Hg. simpl.
  assert (Hs : q <> ptr sib).
  { destruct sib as [|]; simpl; [destruct Hq; lia|]. set_solver. }
  pose proof (set_near_cell _ _ _ _ _ _ _ Hg v) as Hv. destruct d, d'; simpl in *; zcases; done.
Qed.
Lemma relink_rep s k q v : rep_ctx s k q -> NoDup (ctx_addrs k) -> rep_ctx (relink s k v) k v.
Proof.
  destruct k as [|[d c a sib] k]; simpl; [done|]. intros (Hg & Hs & Hk) Hn.
  apply NoDup_cons in Hn as [Hn _]. split_and!; [apply get_put_eq|..].
  - eapply rep_frame; [|done]. intros b Hb. rewrite get_put_ne; set_solver.
  - apply (rep_ctx_frame s); [done| |done]. intros b Hb. rewrite get_put_ne; set_solver.
Qed.

(** ** Operations at the focus *)

Section Focus.
Context (s : rb_tree) (k : ctx).

Lemma focus_get d c t1 a t2 : at_focus s k (mk d c t1 a t2) -> get s a = Some (cell d (up k) c (ptr t1) (ptr t2)).
Proof. intros [_ _ H _]. apply rep_mk in H. apply H. Qed.

Lemma focus_children d c t1 a t2 : at_focus s k (mk d c t1 a t2) -> rep s a t1 /\ rep s a t2.
Proof. intros [_ _ H _]. apply rep_mk in H. apply H. Qed.

Lemma focus_facts d c t1 a t2 : at_focus s k (mk d c t1 a t2) ->
  link_ok (up k) /\ addr_ok a /\ Forall addr_ok (inorder t1) /\ Forall addr_ok (inorder t2) /\
  a ∉ inorder t1 /\ a ∉ inorder t2 /\ a ∉ ctx_addrs k /\ NoDup (inorder t1) /\ NoDup (inorder t2) /\
  (forall b, b ∈ inorder t1 -> b ∉ inorder t2 /\ b ∉ ctx_addrs k) /\ (forall b, b ∈ inorder t2 -> b ∉ ctx_addrs k) /\
  NoDup (ctx_addrs k) /\ Forall addr_ok (ctx_addrs k).
Proof.
  intros Hf. pose proof (up_link _ _ _ Hf) as Hup. destruct Hf as [Hn Ha _ _]. unfold addrs in *.
  rewrite inorder_mk in Hn, Ha. simpl in *. apply Forall_cons_1 in Ha as [Haa Ha].
  rewrite !Forall_app in Ha. destruct Ha as [[Ha1 Ha2] Ha3].
  apply NoDup_cons in Hn as [Hna Hn]. apply NoDup_app in Hn as (Hn1 & Hd & Hn3).
  apply NoDup_app in Hn1 as (Hn1 & Hd1 & Hn2).
  split_and!; try assumption; set_solver.
Qed.

Lemma focus_recolor d c c' t1 a t2 : at_focus s k (mk d c t1 a t2) ->
  at_focus (put s a (cell d (up k) c' (ptr t1) (ptr t2))) k (mk d c' t1 a t2).
Proof.
  intros Hf. pose proof (focus_facts _ _ _ _ _ Hf) as Hfa. dand.
  assert (Hio : inorder (mk d c' t1 a t2) = inorder (mk d c t1 a t2)) by (destruct d; done).
  destruct Hf as [Hn Ha Ht Hk]. apply rep_mk in Ht as (Hg & Hl & Hr). split.
  - unfold addrs. rewrite Hio. done.
  - unfold addrs. rewrite Hio. done.
  - apply rep_mk. split_and!; [apply get_put_eq|..].
    + eapply rep_frame; [|done]. intros b Hb. rewrite get_put_ne; set_solver.
    + eapply rep_frame; [|done]. intros b Hb. rewrite get_put_ne; set_solver.
  - rewrite ptr_mk in *. apply (rep_ctx_frame s); [done| |done]. intros b Hb. rewrite get_put_ne; set_solver.
Qed.

Lemma focus_black d c t1 a t2 : at_focus s k (mk d c t1 a t2) ->
  exists s', rb_set_black s a = Some s' /\ at_focus s' k (mk d Black t1 a t2).
Proof.
  intros Hf. pose proof (focus_facts _ _ _ _ _ Hf) as Hfa. dand. eexists. split.
  - eapply set_black_cell; [apply focus_get; done|done].
  - apply (focus_recolor d c). done.
Qed.
Lemma focus_red d c t1 a t2 : at_focus s k (mk d c t1 a t2) ->
  exists s', rb_set_red s a = Some s' /\ at_focus s' k (mk d Red t1 a t2).
Proof.
  intros Hf. pose proof (focus_facts _ _ _ _ _ Hf) as Hfa. dand. eexists. split.
  - eapply set_red_cell; [apply focus_get; done|done].
  - apply (focus_recolor d c). done.
Qed.
Lemma focus_color d c c' t1 a t2 : at_focus s k (mk d c t1 a t2) ->
  exists s', rb_set_color s a (color_bit c') = Some s' /\ at_focus s' k (mk d c' t1 a t2).
Proof.
  intros Hf. pose proof (focus_facts _ _ _ _ _ Hf) as Hfa. dand. eexists. split.
  - eapply set_color_cell; [apply focus_get; done|done].
  - apply (focus_recolor d c). done.
Qed.
End Focus.

(** ** Rotations *)

Lemma rotate_unfold d s node : rotate d s node =
  (n ← get s node;
   let other := child (opp d) n in
   o ← get s other;
   s ← set_child (opp d) s node (child d o);
   s ← (if child d o =? 0 then Some s else rb_set_parent s (child d o) node);
   s ← set_child d s other node;
   s ← rb_set_parent s other (rb_parent n);
   s ← relink_code d s node (rb_parent n) other;
   rb_set_parent s node other).
Proof. destruct d; done. Qed.

(** Reading a store after the elementary changes *)
Ltac store_get :=
  repeat first
    [ rewrite get_put_eq
    | rewrite get_put_ne by set_solver
    | rewrite get_reparent by set_solver
    | rewrite get_relink by set_solver ].

Lemma inorder_rotate d cx A x cy B y C cx' cy' :
  inorder (mk d cy' (mk d cx' A x B) y C) = inorder (mk d cx A x (mk d cy B y C)).
Proof. destruct d; simpl; rewrite <- (assoc_L (++)); done. Qed.

Lemma rotate_ok d s k cx A x cy B y C : at_focus s k (mk d cx A x (mk d cy B y C)) ->
  exists s', rotate d s x = Some s' /\ at_focus s' k (mk d cy (mk d cx A x B) y C).
Proof.
  intros Hf. pose proof (focus_facts _ _ _ _ _ _ _ Hf) as Hx.
  assert (Hf2 : at_focus s (Frame (opp d) cx x A :: k) (mk d cy B y C)) by (apply focus_up; rewrite mk_opp; done).
  pose proof (focus_facts _ _ _ _ _ _ _ Hf2) as Hy. simpl in Hy. clear Hf2.
  pose proof (focus_get _ _ _ _ _ _ _ Hf) as Hgx. rewrite ptr_mk in Hgx.
  destruct Hf as [Hn Ha Ht Hk]. apply rep_mk in Ht as (_ & HA & Hy'). apply rep_mk in Hy' as (Hgy & HB & HC).
  rewrite ptr_mk in Hk. dand. rewrite inorder_mk in *.
  assert (Hxy : x <> y) by set_solver.
  rewrite rotate_unfold, Hgx. simpl. rewrite cell_far, Hgy. simpl. rewrite cell_near.
  rewrite (set_far_cell _ _ _ _ _ _ _ Hgx). simpl. set (s1 := put s x _).
  assert (HB1 : rep s1 y B) by (eapply rep_frame; [|exact HB]; intros b Hb; unfold s1; store_get; done).
  rewrite (reparent_op s1 y B x) by auto with kernel. simpl. set (s2 := reparent s1 B x).
  assert (Hgy2 : get s2 y = Some (cell d x cy (ptr B) (ptr C))) by (unfold s2, s1; store_get; done).
  rewrite (set_near_cell _ _ _ _ _ _ _ Hgy2). simpl.
  rewrite (set_parent_cell _ _ d x cy x (ptr C)), put_put by (try apply get_put_eq; rewrite ?cell_parent; auto with kernel).
  simpl. rewrite cell_parent by done. set (s3 := put s2 y _).
  assert (Hk3 : rep_ctx s3 k x).
  { apply (rep_ctx_frame s); [unfold s3, s2; simpl; rewrite root_reparent; done| |done].
    intros b Hb. unfold s3, s2, s1. store_get. done. }
  rewrite (relink_op d s3 k x y) by done. simpl. set (s4 := relink s3 k y).
  assert (Hgx4 : get s4 x = Some (cell d (up k) cx (ptr A) (ptr B))) by (unfold s4, s3, s2, s1; store_get; done).
  rewrite (set_parent_cell _ _ _ _ _ _ _ Hgx4) by auto with kernel. eexists. split; [done|].
  split.
  - unfold addrs. rewrite (inorder_rotate d cx A x cy B y C). done.
  - unfold addrs. rewrite (inorder_rotate d cx A x cy B y C). done.
  - apply rep_mk. rewrite ptr_mk. split_and!; [unfold s4, s3; store_get; done|apply rep_mk; split_and!|].
    + store_get. done.
    + eapply rep_frame; [|exact HA]. intros b Hb. unfold s4, s3, s2, s1. store_get. done.
    + eapply rep_frame; [|apply (reparent_rep s1 y B x); done]. intros b Hb.
      unfold s4, s3. rewrite get_put_ne, get_relink, get_put_ne by set_solver. done.
    + eapply rep_frame; [|exact HC]. intros b Hb. unfold s4, s3, s2, s1. store_get. done.
  - rewrite ptr_mk. apply (rep_ctx_frame s4); [done| |apply (relink_rep _ _ x); done].
    intros b Hb. rewrite get_put_ne by set_solver. done.
Qed.

(** ** Moving the focus to a child *)

Lemma focus_near s k d c t1 a t2 : at_focus s k (mk d c t1 a t2) -> at_focus s (Frame d c a t2 :: k) t1.
Proof. apply focus_up. Qed.
Lemma focus_far s k d c t1 a t2 : at_focus s k (mk d c t1 a t2) -> at_focus s (Frame (opp d) c a t1 :: k) t2.
Proof. rewrite focus_up, mk_opp. done. Qed.
Lemma leave_near s k d c t1 a t2 : at_focus s (Frame d c a t2 :: k) t1 -> at_focus s k (mk d c t1 a t2).
Proof. apply focus_up. Qed.
Lemma leave_far s k d c t1 a t2 : at_focus s (Frame (opp d) c a t1 :: k) t2 -> at_focus s k (mk d c t1 a t2).
Proof. rewrite focus_up, mk_opp. done. Qed.

Lemma plug_app k1 k2 t : plug (k1 ++ k2) t = plug k2 (plug k1 t).
Proof. revert t. induction k1 as [|[] k1 IH]; intros t; simpl; [done|apply IH]. Qed.

(** Any node of a tree can be the focus. *)
Lemma focus_at t a : a ∈ inorder t -> exists k c l r, t = plug k (T c l a r).
Proof.
  induction t as [|c l IHl b r IHr]; simpl; [set_solver|].
  intros [Hl|[->|Hr]%elem_of_cons]%elem_of_app.
  - destruct (IHl Hl) as (k & c' & l' & r' & ->). exists (k ++ [Frame Lft c b r]), c', l', r'.
    rewrite plug_app. done.
  - exists [], c, l, r. done.
  - destruct (IHr Hr) as (k & c' & l' & r' & ->). exists (k ++ [Frame Rgt c b l]), c', l', r'.
    rewrite plug_app. done.
Qed.

(** The addresses before and after the position of a context *)
Fixpoint before (k : ctx) : list Z :=
  match k with
  | [] => []
  | Frame Lft _ _ _ :: k => before k
  | Frame Rgt _ a sib :: k => before k ++ inorder sib ++ [a]
  end.
Fixpoint after (k : ctx) : list Z :=
  match k with
  | [] => []
  | Frame Lft _ a sib :: k => a :: inorder sib ++ after k
  | Frame Rgt _ _ _ :: k => after k
  end.

Lemma inorder_plug k t : inorder (plug k t) = before k ++ inorder t ++ after k.
Proof.
  revert t. induction k as [|[[] c a sib] k IH]; intros t; simpl; rewrite ?IH, ?app_nil_r; [done|..]; simpl.
  - rewrite <- !(assoc_L (++)). done.
  - rewrite <- !(assoc_L (++)). done.
Qed.

Lemma inorder_plug_ext k t t' : inorder t = inorder t' -> inorder (plug k t) = inorder (plug k t').
Proof. intros Ht. rewrite !inorder_plug, Ht. done. Qed.
Lemma inorder_mk_ext d c c' t1 t1' a t2 t2' : inorder t1 = inorder t1' -> inorder t2 = inorder t2' ->
  inorder (mk d c t1 a t2) = inorder (mk d c' t1' a t2').
Proof. intros H1 H2. destruct d; simpl; rewrite H1, H2; done. Qed.

(** Enough fuel for any path *)
Lemma ctx_length k : (length k <= length (ctx_addrs k))%nat.
Proof. induction k as [|[] k IH]; simpl; [done|]. rewrite length_app. lia. Qed.

Lemma rep_dom s p t a : rep s p t -> a ∈ inorder t -> is_Some (get s a).
Proof.
  revert p. induction t as [|c l IHl b r IHr]; simpl; intros p; [set_solver|].
  intros (Hg & Hl & Hr) [H|[->|H]%elem_of_cons]%elem_of_app; eauto.
Qed.
Lemma rep_ctx_dom s k q a : rep_ctx s k q -> a ∈ ctx_addrs k -> is_Some (get s a).
Proof.
  revert q. induction k as [|[] k IH]; simpl; intros q; [set_solver|].
  intros (Hg & Hs & Hk) [->|[H|H]%elem_of_app]%elem_of_cons; eauto using rep_dom.
Qed.
Lemma focus_size s k t : at_focus s k t -> (length (addrs k t) <= size (nodes s))%nat.
Proof.
  intros [Hn _ Ht Hk]. rewrite <- size_dom, <- (size_list_to_set (C := gset Z) (addrs k t)) by done.
  apply subseteq_size. intros a Ha%elem_of_list_to_set. apply elem_of_dom.
  apply elem_of_app in Ha as [Ha|Ha]; [eapply rep_dom|eapply rep_ctx_dom]; done.
Qed.
Lemma focus_fuel s k t : at_focus s k t -> (length k + length (inorder t) < tree_fuel s)%nat.
Proof.
  intros Hf. pose proof (focus_size _ _ _ Hf) as H. unfold addrs in H. rewrite length_app in H.
  pose proof (ctx_length k). unfold tree_fuel. lia.
Qed.

(** The two children of a node are different. *)
Lemma focus_ptr_ne s k d c t1 a t2 : at_focus s k (mk d c t1 a t2) -> t1 <> E -> ptr t1 <> ptr t2.
Proof.
  intros Hf%focus_facts H1 Heq. destruct Hf as (_ & _ & Ha & _ & _ & _ & _ & _ & _ & Hd & _).
  pose proof (ptr_in _ H1) as Hin. destruct (Hd _ Hin) as [Hn _]. destruct t2 as [|c' l b r].
  - simpl in Heq. rewrite Heq in Hin. eapply Forall_forall in Ha; [|exact Hin]. destruct Ha; lia.
  - apply Hn. rewrite Heq. apply ptr_in. done.
Qed.

(** ** The first and the last node of a subtree *)

Definition extreme (d : dir) : nat -> rb_tree -> Z -> option Z := match d with Lft => leftmost | Rgt => rightmost end.

Lemma extreme_unfold d fuel s node : extreme d (S fuel) s node =
  (n ← get s node; if child d n =? 0 then Some node else extreme d fuel s (child d n)).
Proof. destruct d; done. Qed.

(** Every frame of [k] goes to side [d]. *)
Definition along (d : dir) (k : list frame) : Prop := Forall (fun f => fdir f = d) k.

Lemma rep_cell d s p t : rep s p t -> t <> E -> exists t1 t2, t = mk d (col t) t1 (ptr t) t2 /\
  get s (ptr t) = Some (cell d p (col t) (ptr t1) (ptr t2)) /\ rep s (ptr t) t1 /\ rep s (ptr t) t2.
Proof.
  destruct t as [|c l a r]; [done|]. intros (Hg & Hl & Hr) _. simpl.
  destruct d; [exists l, r|exists r, l]; done.
Qed.

Lemma extreme_ok d fuel s p t : rep s p t -> Forall addr_ok (inorder t) -> t <> E -> (length (inorder t) <= fuel)%nat ->
  exists k c y t', extreme d fuel s (ptr t) = Some y /\ t = plug k (mk d c E y t') /\ along d k.
Proof.
  revert p t. induction fuel as [|fuel IH]; intros p t Ht Ha Hne Hfu.
  { destruct t; [done|]. simpl in Hfu. rewrite length_app in Hfu. simpl in Hfu. lia. }
  destruct (rep_cell d _ _ _ Ht Hne) as (t1 & t2 & Et & Hg & H1 & H2). rewrite extreme_unfold, Hg. simpl.
  set (a := ptr t) in *. set (c := col t) in *. clearbody a c. subst t.
  rewrite inorder_mk in Ha. apply Forall_cons_1 in Ha as [_ Ha]. apply Forall_app in Ha as [Ha1 Ha2].
  assert (Hl : length (inorder (mk d c t1 a t2)) = S (length (inorder t1) + length (inorder t2)))
    by (rewrite inorder_mk; simpl; rewrite length_app; done).
  rewrite cell_near, ptr_zero by done. case_bool_decide as H0.
  - subst t1. exists [], c, a, t2. split_and!; [done|done|constructor].
  - destruct (IH a t1) as (k & c' & y & t' & E1 & Et1 & Hk); [done|done|done|lia|].
    exists (k ++ [Frame d c a t2]), c', y, t'. rewrite plug_app, <- Et1. split_and!; [done|done|].
    apply Forall_app. split; [done|]. repeat constructor.
Qed.

(** Nothing is before a position reached by going left only. *)
Lemma before_along k : along Lft k -> before k = [].
Proof. intros Hk. induction Hk as [|[d c a sib] k Hd Hk IH]; [done|]. simpl in Hd. subst d. done. Qed.
Lemma after_along k : along Rgt k -> after k = [].
Proof. intros Hk. induction Hk as [|[d c a sib] k Hd Hk IH]; [done|]. simpl in Hd. subst d. done. Qed.
