(* ===== verification/RbInsert.v ===== *)
(** * RbInsert: insertion into the red-black trees

    The red-black invariant, and [rb_link_node] followed by [rb_insert_color]. *)

From S2P Require Import Prelude Rbtree RbShape.

(** ** The red-black invariant *)

(** [t] has no red node with a red child, and [n] black nodes on each of its paths. *)
Fixpoint rbt (n : nat) (t : tree) : Prop :=
  match t with
  | E => n = O
  | T Red l _ r => col l = Black /\ col r = Black /\ rbt n l /\ rbt n r
  | T Black l _ r => match n with O => False | S n => rbt n l /\ rbt n r end
  end.

Definition red_black (t : tree) : Prop := col t = Black /\ exists n, rbt n t.

(** A tree with a root of colour [c] and [n] black nodes per path fits at the position of [k]. *)
Fixpoint rbt_ctx (k : list frame) (c : color) (n : nat) : Prop :=
  match k with
  | [] => c = Black
  | Frame _ Red _ sib :: k => rbt n sib /\ c = Black /\ col sib = Black /\ rbt_ctx k Red n
  | Frame _ Black _ sib :: k => rbt n sib /\ rbt_ctx k Black (S n)
  end.

Lemma rbt_red d n t1 a t2 : rbt n (mk d Red t1 a t2) <-> col t1 = Black /\ col t2 = Black /\ rbt n t1 /\ rbt n t2.
Proof. destruct d; simpl; tauto. Qed.
Lemma rbt_black d n t1 a t2 : rbt (S n) (mk d Black t1 a t2) <-> rbt n t1 /\ rbt n t2.
Proof. destruct d; simpl; tauto. Qed.
Lemma rbt_black_inv d n t1 a t2 : rbt n (mk d Black t1 a t2) -> exists m, n = S m /\ rbt m t1 /\ rbt m t2.
Proof. destruct n; [destruct d; done|]. rewrite rbt_black. eauto. Qed.

Lemma rbt_ctx_black k n : rbt_ctx k Red n -> rbt_ctx k Black n.
Proof. destruct k as [|[d [] a sib] k]; simpl; [done|intuition done|done]. Qed.

Lemma rbt_plug k t n : rbt n t -> rbt_ctx k (col t) n -> red_black (plug k t).
Proof.
  revert t n. induction k as [|[d [] a sib] k IH]; simpl; intros t n Ht Hk.
  - split; [done|eauto].
  - destruct Hk as (Hs & Hc & Hcs & Hk). apply (IH _ n); [apply rbt_red; done|rewrite col_mk; done].
  - destruct Hk as (Hs & Hk). apply (IH _ (S n)); [apply rbt_black; done|rewrite col_mk; done].
Qed.
Lemma rbt_unplug k t : red_black (plug k t) -> exists n, rbt n t /\ rbt_ctx k (col t) n.
Proof.
  revert t. induction k as [|[d [] a sib] k IH]; simpl; intros t.
  - intros [Hc [n Hn]]. eauto.
  - intros (n & Hn & Hk)%IH. rewrite col_mk in Hk. apply rbt_red in Hn as (?&?&?&?). exists n. done.
  - intros (n & Hn & Hk)%IH. rewrite col_mk in Hk. apply rbt_black_inv in Hn as (m & -> & ?&?). exists m. done.
Qed.

(** The addresses of a context do not matter. *)
Lemma rbt_ctx_addr k1 d c a b sib k2 c' n :
  rbt_ctx (k1 ++ Frame d c a sib :: k2) c' n <-> rbt_ctx (k1 ++ Frame d c b sib :: k2) c' n.
Proof.
  revert c' n. induction k1 as [|[d1 [] a1 s1] k1 IH]; intros c' n; simpl; [destruct c; done|rewrite IH; done..].
Qed.

(** A tree that is red-black once its root is black *)
Definition almost_red_black (t : tree) : Prop :=
  match t with E => True | T _ l a r => red_black (T Black l a r) end.

Lemma red_black_almost t : red_black t -> almost_red_black t.
Proof. destruct t as [|[] l a r]; simpl; [done|intros [? _]; done|done]. Qed.

Lemma blacken_root s t : represents s t -> almost_red_black t -> t <> E ->
  exists s' t', rb_set_black s (rb_root s) = Some s' /\ represents s' t' /\ red_black t' /\ inorder t' = inorder t.
Proof.
  intros Hr Ht Hne. destruct t as [|c l a r]; [done|].
  destruct (focus_black s [] Lft c l a r) as (s' & Hs & Hf); [done|].
  destruct Hr as [_ _ _ Hroot]. simpl in Hroot. rewrite Hroot. exists s', (T Black l a r). done.
Qed.

(** ** The loop of [rb_insert_color] *)

#[local] Arguments insert_color_loop : simpl never.

(** One side of the loop: the parent is the child of the grandparent on side [d]. *)
Definition insert_side (d : dir) (fuel : nat) (s : rb_tree) (node parent gparent : Z) (p g : rb_node) : option rb_tree :=
  let uncle := child (opp d) g in
  red ← is_red s uncle;
  if (red : bool) then
    s ← rb_set_black s uncle;
    s ← rb_set_black s parent;
    s ← rb_set_red s gparent;
    insert_color_loop fuel s gparent
  else
    '(s, parent, node) ←
      (if child (opp d) p =? node then s ← rotate d s parent; Some (s, node, parent)
       else Some (s, parent, node));
    s ← rb_set_black s parent;
    s ← rb_set_red s gparent;
    s ← rotate (opp d) s gparent;
    insert_color_loop fuel s node.

Lemma insert_loop_unfold fuel s node : insert_color_loop (S fuel) s node =
  (n ← get s node;
   let parent := rb_parent n in
   if parent =? 0 then Some s else
   p ← get s parent;
   if negb (rb_is_red p) then Some s else
   let gparent := rb_parent p in
   g ← get s gparent;
   if parent =? rb_left g then insert_side Lft fuel s node parent gparent p g
   else insert_side Rgt fuel s node parent gparent p g).
Proof. done. Qed.

Lemma is_red_ptr s p t : rep s p t -> Forall addr_ok (inorder t) -> link_ok p ->
  is_red s (ptr t) = Some (bool_decide (col t = Red)).
Proof.
  intros Ht Ha Hp. unfold is_red. rewrite ptr_zero by done. destruct t as [|c l a r]; [done|].
  rewrite bool_decide_eq_false_2 by done. destruct Ht as (Hg & _). simpl. rewrite Hg. simpl.
  rewrite cell_red by done. done.
Qed.
Lemma is_black_ptr s p t : rep s p t -> Forall addr_ok (inorder t) -> link_ok p ->
  is_black s (ptr t) = Some (bool_decide (col t = Black)).
Proof.
  intros Ht Ha Hp. unfold is_black. rewrite ptr_zero by done. destruct t as [|c l a r]; [done|].
  rewrite bool_decide_eq_false_2 by done. destruct Ht as (Hg & _). simpl. rewrite Hg. simpl.
  rewrite cell_black by done. done.
Qed.

(** The loop stops at a black parent. *)
Lemma insert_loop_stop s k d a sib t fuel : at_focus s (Frame d Black a sib :: k) t -> t <> E ->
  insert_color_loop (S fuel) s (ptr t) = Some s.
Proof.
  intros Hf Ht. destruct t as [|c' l b r]; [done|]. rewrite insert_loop_unfold. simpl.
  pose proof (focus_get _ _ Lft _ _ _ _ Hf) as Hg. pose proof (up_link _ _ _ Hf) as Hup.
  rewrite Hg. simpl. rewrite (cell_parent Lft) by done. simpl in Hup |- *.
  apply leave_near in Hf. pose proof (focus_get _ _ _ _ _ _ _ Hf) as Hg'. pose proof (focus_facts _ _ _ _ _ _ _ Hf) as Hfa.
  dand. destruct (Z.eqb_spec a 0) as [->|]; [unfold addr_ok in *; lia|]. rewrite Hg'. simpl. rewrite cell_red by done. done.
Qed.

(** The last step of the rebalancing: parent [q] and grandparent [g] change places. *)
Lemma insert_rotate s k d N q M g U : at_focus s k (mk d Black (mk d Red N q M) g U) ->
  exists s1 s2 s3, rb_set_black s q = Some s1 /\ rb_set_red s1 g = Some s2 /\ rotate (opp d) s2 g = Some s3 /\
    at_focus s3 k (mk d Black N q (mk d Red M g U)).
Proof.
  intros Hf. apply focus_near in Hf. destruct (focus_black _ _ _ _ _ _ _ Hf) as (s1 & E1 & H1).
  apply leave_near in H1. destruct (focus_red _ _ _ _ _ _ _ H1) as (s2 & E2 & H2).
  rewrite <- (mk_opp d Red), <- (mk_opp d Black) in H2.
  destruct (rotate_ok _ _ _ _ _ _ _ _ _ _ H2) as (s3 & E3 & H3). rewrite !mk_opp in H3.
  exists s1, s2, s3. done.
Qed.

(** A red node over black subtrees, at a position where a black tree fits *)
Record unbalanced (k : list frame) (l r : tree) (n : nat) : Prop := {
  unb_left : col l = Black /\ rbt n l;
  unb_right : col r = Black /\ rbt n r;
  unb_ctx : rbt_ctx k Black n;
}.

Definition loop_ends (r : option rb_tree) (l : list Z) : Prop :=
  exists s' t', r = Some s' /\ represents s' t' /\ almost_red_black t' /\ t' <> E /\ inorder t' = l.

Lemma plug_nonempty k t : t <> E -> plug k t <> E.
Proof. revert t. induction k as [|[[] c a sib] k IH]; intros t Ht; simpl; [done|apply IH; done..]. Qed.

(** The loop has nothing to do when the tree is red-black. *)
Lemma loop_done s k t n : at_focus s k t -> rbt n t -> rbt_ctx k (col t) n -> t <> E ->
  loop_ends (Some s) (inorder (plug k t)).
Proof.
  intros Hf Ht Hk Hne. exists s, (plug k t). split_and!; try done.
  - rewrite <- focus_plug. done.
  - apply red_black_almost. eapply rbt_plug; done.
  - apply plug_nonempty. done.
Qed.

(** The uncle is black: one or two rotations end the loop. *)
Lemma insert_black_uncle d dp fuel s k l a r sp p g u n : (1 <= fuel)%nat ->
  at_focus s k (mk d Black (mk dp Red (T Red l a r) p sp) g u) ->
  col l = Black -> rbt n l -> col r = Black -> rbt n r -> rbt n sp -> col sp = Black -> rbt n u -> col u = Black ->
  rbt_ctx k Black (S n) ->
  loop_ends
    ('(s, parent, node) ←
      (if child (opp d) (cell dp g Red a (ptr sp)) =? a then s ← rotate d s p; Some (s, a, p)
       else Some (s, p, a));
     s ← rb_set_black s parent;
     s ← rb_set_red s g;
     s ← rotate (opp d) s g;
     insert_color_loop fuel s node)
    (inorder (plug k (mk d Black (mk dp Red (T Red l a r) p sp) g u))).
Proof.
  intros Hfu Hf Hcl Hl Hcr Hr Hsp Hcsp Hu Hcu Hk. destruct fuel as [|fuel]; [lia|].
  assert (Hio : forall t1 t2, inorder t1 = inorder t2 -> inorder (plug k t1) = inorder (plug k t2)).
  { intros t1 t2 Ht. rewrite !inorder_plug, Ht. done. }
  assert (exists s1 nn nf M q m, (if child (opp d) (cell dp g Red a (ptr sp)) =? a then s ← rotate d s p; Some (s, a, p)
      else Some (s, p, a)) = Some (s1, q, m) /\
      at_focus s1 k (mk d Black (mk d Red (mk d Red nn m nf) q M) g u) /\
      rbt n nn /\ rbt n nf /\ rbt n M /\ col nn = Black /\ col nf = Black /\ col M = Black /\
      inorder (mk d Red (mk d Red nn m nf) q M) = inorder (mk dp Red (T Red l a r) p sp))
    as (s1 & nn & nf & M & q & m & -> & Hf1 & Hnn & Hnf & HM & Hcnn & Hcnf & HcM & Hi).
  { pose proof Hf as Hf'. apply focus_near in Hf'. 
    assert (Hne : a <> ptr sp) by (eapply (focus_ptr_ne _ _ _ _ (T Red l a r)); done).
    destruct (decide (dp = d)) as [->|Hd].
    - rewrite cell_far. destruct (Z.eqb_spec (ptr sp) a); [congruence|].
      exists s, (match d with Lft => l | Rgt => r end), (match d with Lft => r | Rgt => l end), sp, p, a.
      split; [done|]. split_and!; destruct d; first [exact Hf|done].
    - assert (dp = opp d) as -> by (destruct d, dp; done). rewrite cell_near, Z.eqb_refl.
      set (nn := match d with Lft => l | Rgt => r end). set (nf := match d with Lft => r | Rgt => l end).
      assert (EN : T Red l a r = mk d Red nn a nf) by (destruct d; done). rewrite EN, mk_opp in Hf' |- *.
      destruct (rotate_ok _ _ _ _ _ _ _ _ _ _ Hf') as (s1 & E1 & H1). rewrite E1. simpl.
      exists s1, sp, nn, nf, a, p. split; [done|]. apply leave_near in H1. rewrite (inorder_rotate d Red sp p Red nn a nf).
      split_and!; try done; unfold nn, nf; destruct d; done. }
  simpl. destruct (insert_rotate _ _ _ _ _ _ _ _ Hf1) as (s2 & s3 & s4 & -> & E3 & E4 & Hf4).
  simpl. rewrite E3. simpl. rewrite E4. simpl.
  assert (insert_color_loop (S fuel) s4 m = Some s4) as ->.
  { rewrite <- (ptr_mk d Red nn m nf). eapply insert_loop_stop; [exact (focus_near _ _ _ _ _ _ _ Hf4)|destruct d; done]. }
  rewrite (Hio _ (mk d Black (mk d Red nn m nf) q (mk d Red M g u))).
  - apply (loop_done _ _ _ (S n)); [done| |rewrite col_mk; done|destruct d; done].
    apply rbt_black. split; apply rbt_red; done.
  - rewrite <- (inorder_rotate d Black _ q Red M g u Red Black). destruct d; simpl in *; rewrite Hi; done.
Qed.

Lemma insert_loop_ok fuel s k l a r n : (length k < fuel)%nat -> at_focus s k (T Red l a r) -> unbalanced k l r n ->
  loop_ends (insert_color_loop fuel s a) (inorder (plug k (T Red l a r))).
Proof.
  revert s k l a r n. induction fuel as [|fuel IH]; intros s k l a r n Hfu Hf [[Hcl Hl] [Hcr Hr] Hk]; [lia|].
  rewrite insert_loop_unfold. pose proof (focus_get _ _ Lft _ _ _ _ Hf) as Hga. pose proof (up_link _ _ _ Hf) as Hup.
  rewrite Hga. simpl. rewrite (cell_parent Lft) by done.
  destruct k as [|[dp cp p sp] k]; simpl in Hup |- *.
  { exists s, (T Red l a r). split_and!; try done. split; [done|]. exists (S n). done. }
  pose proof Hf as Hfp. apply leave_near in Hfp. pose proof (focus_facts _ _ _ _ _ _ _ Hfp) as Hfa.
  pose proof (focus_get _ _ _ _ _ _ _ Hfp) as Hgp. destruct Hfa as (Hup2 & [Hp0 Hp4] & _).
  destruct (Z.eqb_spec p 0); [lia|]. rewrite Hgp. simpl. rewrite cell_red by done.
  destruct cp; simpl.
  2: { eapply (loop_done _ (Frame dp Black p sp :: k) _ n); try done. }
  destruct Hk as (Hsp & _ & Hcsp & Hk). rewrite cell_parent by done.
  destruct k as [|[d cg g u] k]; simpl in Hk; [done|].
  destruct cg; [destruct Hk as (_ & ? & _); done|]. destruct Hk as (Hu & Hk). simpl in Hup2 |- *.
  pose proof Hfp as Hfg. apply leave_near in Hfg. pose proof (focus_facts _ _ _ _ _ _ _ Hfg) as Hfa.
  pose proof (focus_get _ _ _ _ _ _ _ Hfg) as Hgg. rewrite ptr_mk in Hgg. rewrite Hgg. simpl.
  destruct Hfa as (Hupg & Hgok & _ & HU & _).
  (* the side of the parent *)
  assert (Hside : (if p =? rb_left (cell d (up k) Black p (ptr u)) then
        insert_side Lft fuel s a p g (cell dp g Red a (ptr sp)) (cell d (up k) Black p (ptr u)) else
        insert_side Rgt fuel s a p g (cell dp g Red a (ptr sp)) (cell d (up k) Black p (ptr u))) =
      insert_side d fuel s a p g (cell dp g Red a (ptr sp)) (cell d (up k) Black p (ptr u))).
  { assert (p <> ptr u) by (rewrite <- (ptr_mk dp Red (T Red l a r) p sp); eapply focus_ptr_ne; [done|destruct dp; done]).
    destruct d; cbn; zcases; done. }
  rewrite Hside. unfold insert_side. rewrite cell_far. destruct (focus_children _ _ _ _ _ _ _ Hfg) as [_ Hru].
  rewrite (is_red_ptr s g) by auto with kernel. simpl. case_bool_decide as Hcu.
  - destruct u as [|[] ul ub ur]; [done| |done]. apply focus_far in Hfg. simpl.
    destruct (focus_black _ _ Lft _ _ _ _ Hfg) as (s1 & -> & H1). simpl. apply leave_far, focus_near in H1.
    destruct (focus_black _ _ _ _ _ _ _ H1) as (s2 & -> & H2). simpl. apply leave_near in H2.
    destruct (focus_red _ _ _ _ _ _ _ H2) as (s3 & -> & H3). simpl.
    set (P := mk dp Black (T Red l a r) p sp) in *. set (U := T Black ul ub ur).
    assert (HPb : rbt (S n) P) by (apply rbt_black; done).
    assert (HUb : rbt (S n) U) by (destruct Hu as (?&?&?&?); done).
    replace (inorder (plug k (mk d Black (mk dp Red (T Red l a r) p sp) g (T Red ul ub ur))))
      with (inorder (plug k (mk d Red P g U))) by (rewrite !inorder_plug; unfold P, U; destruct d, dp; done).
    destruct d; apply (IH _ _ _ _ _ (S n)); try done; simpl in *; try lia.
    all: split; try done; (split; [unfold P, U; rewrite ?col_mk; done|done]).
  - apply (insert_black_uncle _ _ _ _ _ _ _ _ _ _ _ _ n); try done; [simpl in Hfu; lia|]. destruct (col u); done.
Qed.

(** ** Linking a node *)

(** The address of the pointer at the position of [k] *)
Definition link_of (k : list frame) : rb_link :=
  match k with
  | [] => LinkRoot
  | Frame Lft _ a _ :: _ => LinkLeft a
  | Frame Rgt _ a _ :: _ => LinkRight a
  end.

Lemma store_link_relink s k q v : rep_ctx s k q -> store_link s (link_of k) v = Some (relink s k v).
Proof.
  destruct k as [|[d c a sib] k]; simpl; [done|]. intros (Hg & _).
  pose proof (set_near_cell _ _ _ _ _ _ _ Hg v) as Hv. destruct d; exact Hv.
Qed.

Lemma link_node_ok s k a : at_focus s k E -> addr_ok a -> a ∉ ctx_addrs k -> is_Some (get s a) ->
  exists s', rb_link_node s a (up k) (link_of k) = Some s' /\ at_focus s' k (T Red E a E).
Proof.
  intros Hf Ha Hna [n Hn]. pose proof (up_link _ _ _ Hf) as Hup. destruct Hf as [Hnd Had _ Hk]. unfold addrs in *. simpl in *.
  unfold rb_link_node. rewrite Hn. simpl.
  assert (Ec : RbNode (up k) 0 0 = cell Lft (up k) Red 0 0) by (unfold cell, pack; simpl; rewrite Z.add_0_r; done).
  rewrite Ec.
  assert (Hk1 : rep_ctx (put s a (cell Lft (up k) Red 0 0)) k 0).
  { apply (rep_ctx_frame s); [done| |done]. intros b Hb. rewrite get_put_ne by set_solver. done. }
  rewrite (store_link_relink _ _ _ _ Hk1). eexists. split; [done|]. split; unfold addrs; simpl.
  - apply NoDup_cons. done.
  - apply Forall_cons. done.
  - rewrite get_relink, get_put_eq by done. done.
  - eapply relink_rep; done.
Qed.

Lemma insert_ok s k a : at_focus s k E -> red_black (plug k E) -> addr_ok a -> a ∉ inorder (plug k E) -> is_Some (get s a) ->
  exists s1 s2 t', rb_link_node s a (up k) (link_of k) = Some s1 /\ rb_insert_color s1 a = Some s2 /\
    represents s2 t' /\ red_black t' /\ inorder t' = before k ++ a :: after k.
Proof.
  intros Hf Hrb Ha Hna Hs.
  rewrite <- addrs_plug in Hna. unfold addrs in Hna. simpl in Hna.
  destruct (link_node_ok s k a) as (s1 & E1 & H1); [done..|].
  destruct (rbt_unplug _ _ Hrb) as (n & Hn & Hk). simpl in Hn, Hk. subst n.
  destruct (insert_loop_ok (tree_fuel s1) s1 k E a E 0) as (s2 & t2 & E2 & H2 & Ht2 & Hne & Hi).
  { pose proof (focus_fuel _ _ _ H1). lia. }
  { done. }
  { split; done. }
  destruct (blacken_root s2 t2) as (s3 & t3 & E3 & H3 & Hrb3 & Hi3); [done..|].
  exists s1, s3, t3. split; [done|]. unfold rb_insert_color. rewrite E2. simpl. split; [done|].
  split_and!; [done..|]. rewrite Hi3, Hi, inorder_plug. done.
Qed.

(** ** Balance *)

Fixpoint height (t : tree) : nat := match t with E => O | T _ l _ r => S (height l `max` height r) end.

Lemma rbt_size n t : rbt n t -> (2 ^ n <= S (length (inorder t)))%nat.
Proof.
  revert n. induction t as [|[] l IHl a r IHr]; simpl; intros n.
  - intros ->. done.
  - intros (_ & _ & Hl & Hr). rewrite length_app. simpl. specialize (IHl _ Hl). lia.
  - destruct n as [|n]; [done|]. intros [Hl Hr]. rewrite length_app. simpl.
    specialize (IHl _ Hl). specialize (IHr _ Hr). lia.
Qed.
Lemma rbt_height n t : rbt n t -> (height t <= 2 * n + match col t with Red => 1 | Black => 0 end)%nat.
Proof.
  revert n. induction t as [|[] l IHl a r IHr]; simpl; intros n.
  - lia.
  - intros (Hcl & Hcr & Hl & Hr). specialize (IHl _ Hl). specialize (IHr _ Hr). rewrite Hcl in IHl. rewrite Hcr in IHr. lia.
  - destruct n as [|n]; [done|]. intros [Hl Hr]. specialize (IHl _ Hl). specialize (IHr _ Hr).
    destruct (col l), (col r); lia.
Qed.
Lemma red_black_height t : red_black t -> (height t <= 2 * Nat.log2 (S (length (inorder t))))%nat.
Proof.
  intros [Hc [n Hn]]. pose proof (rbt_height _ _ Hn) as Hh. rewrite Hc in Hh. pose proof (rbt_size _ _ Hn) as Hsz.
  apply Nat.log2_le_pow2 in Hsz; lia.
Qed.
