(* ===== verification/RbErase.v ===== *)
(** * RbErase: removal from the red-black trees *)

From S2P Require Import Prelude Rbtree RbShape RbInsert.

#[local] Arguments erase_color_loop : simpl never.

(** ** The loop of [__rb_erase_color] *)

(** One side of the loop: the node is the child of its parent on side [d]. *)
Definition erase_last (d : dir) (s : rb_tree) (other parent : Z) : option (rb_tree * Z) :=
  p ← get s parent;
  s ← rb_set_color s other (rb_color p);
  s ← rb_set_black s parent;
  o ← get s other;
  s ← rb_set_black s (child (opp d) o);
  s ← rotate d s parent;
  Some (s, rb_root s).

Definition erase_black_other (d : dir) (fuel : nat) (s : rb_tree) (other parent : Z) : option (rb_tree * Z) :=
  o ← get s other;
  bl ← is_black s (rb_left o);
  both ← (if (bl : bool) then is_black s (rb_right o) else Some false);
  if (both : bool) then
    s ← rb_set_red s other;
    n ← get s parent;
    erase_color_loop fuel s parent (rb_parent n)
  else
    far ← is_black s (child (opp d) o);
    '(s, other) ←
      (if (far : bool) then
         s ← rb_set_black s (child d o);
         s ← rb_set_red s other;
         s ← rotate (opp d) s other;
         p ← get s parent; Some (s, child (opp d) p)
       else Some (s, other));
    erase_last d s other parent.

Definition erase_side (d : dir) (fuel : nat) (s : rb_tree) (parent : Z) (p : rb_node) : option (rb_tree * Z) :=
  let other := child (opp d) p in
  o ← get s other;
  '(s, other) ←
    (if rb_is_red o then
       s ← rb_set_black s other;
       s ← rb_set_red s parent;
       s ← rotate d s parent;
       p ← get s parent; Some (s, child (opp d) p)
     else Some (s, other));
  erase_black_other d fuel s other parent.

Lemma erase_loop_unfold fuel s node parent : erase_color_loop (S fuel) s node parent =
  (black ← is_black s node;
   if negb black || (node =? rb_root s) then Some (s, node) else
   p ← get s parent;
   if rb_left p =? node then erase_side Lft fuel s parent p else erase_side Rgt fuel s parent p).
Proof. done. Qed.

(** A tree with one black node per path too few, or with a red root *)
Definition deficient (n : nat) (t : tree) : Prop :=
  match t with T Red l _ r => rbt n l /\ rbt n r | _ => rbt n t end.

Lemma rbt_deficient n t : rbt n t -> deficient n t.
Proof. destruct t as [|[] l a r]; simpl; tauto. Qed.

(** What the loop leaves to the end of [__rb_erase_color] *)
Definition erase_ends (r : option (rb_tree * Z)) (l : list Z) : Prop :=
  exists s x s' t', r = Some (s, x) /\ (if x =? 0 then Some s else rb_set_black s x) = Some s' /\
    represents s' t' /\ red_black t' /\ inorder t' = l.

(** The loop ends at the root of a red-black tree. *)
Lemma ends_at_root s t : represents s t -> red_black t -> erase_ends (Some (s, rb_root s)) (inorder t).
Proof.
  intros Hr Ht. destruct (decide (t = E)) as [->|Hne].
  - pose proof Hr as [_ _ _ Hroot]. simpl in Hroot. exists s, (rb_root s), s, E. rewrite Hroot. done.
  - destruct (blacken_root s t) as (s' & t' & E1 & H1 & H2 & H3); [done|apply red_black_almost; done|done|].
    exists s, (rb_root s), s', t'. split_and!; try done.
    destruct Hr as [_ Ha _ Hroot]. simpl in Hroot. unfold addrs in Ha. simpl in Ha. rewrite app_nil_r in Ha.
    rewrite Hroot in *. rewrite ptr_zero, bool_decide_eq_false_2; done.
Qed.
Lemma ends_balanced s k t n : at_focus s k t -> rbt n t -> rbt_ctx k (col t) n ->
  erase_ends (Some (s, rb_root s)) (inorder (plug k t)).
Proof. intros Hf Ht Hk. apply ends_at_root; [rewrite <- focus_plug; done|eapply rbt_plug; done]. Qed.

(** The loop ends at a red node. *)
Lemma ends_red s k l a r n : at_focus s k (T Red l a r) -> deficient n (T Red l a r) -> rbt_ctx k Black (S n) ->
  erase_ends (Some (s, a)) (inorder (plug k (T Red l a r))).
Proof.
  intros Hf [Hl Hr] Hk. destruct (focus_black _ _ Lft _ _ _ _ Hf) as (s' & E1 & H1).
  pose proof (focus_facts _ _ Lft _ _ _ _ Hf) as (_ & [Ha _] & _).
  exists s, a, s', (plug k (T Black l a r)). split_and!; [done| |rewrite <- focus_plug; done| |].
  - destruct (Z.eqb_spec a 0); [lia|done].
  - apply (rbt_plug _ _ (S n)); done.
  - rewrite !inorder_plug. done.
Qed.

(** The root pointer is the last address of a context. *)
Lemma root_in_ctx s k q : rep_ctx s k q -> k <> [] -> rb_root s ∈ ctx_addrs k.
Proof.
  revert q. induction k as [|[d c a sib] k IH]; intros q; [done|]. intros (_ & _ & Hk) _. simpl.
  destruct k as [|f k]; [simpl in *; set_solver|]. specialize (IH _ Hk). set_solver.
Qed.
Lemma at_root s k t : at_focus s k t -> (ptr t =? rb_root s) = bool_decide (k = []).
Proof.
  intros [Hn Ha Ht Hk]. case_bool_decide as Hkn.
  - subst k. simpl in Hk. rewrite Hk. apply Z.eqb_refl.
  - pose proof (root_in_ctx _ _ _ Hk Hkn) as Hin. apply Z.eqb_neq. intros Heq. rewrite <- Heq in Hin.
    unfold addrs in *. apply NoDup_app in Hn as (_ & Hd & _). destruct t as [|c l a r].
    + eapply Forall_forall in Ha; [|apply elem_of_app; right; exact Hin]. destruct Ha; simpl in *; lia.
    + eapply Hd; [|exact Hin]. apply ptr_in. done.
Qed.

(** The far child of the sibling is red: the last rotation. *)
Lemma erase_last_ok d s k cp t p B o C n : at_focus s k (mk d cp t p (mk d Black B o C)) ->
  rbt n t -> rbt n B -> rbt n C -> col C = Red -> rbt_ctx (Frame d cp p (mk d Black B o C) :: k) Black (S n) ->
  erase_ends (erase_last d s o p) (inorder (plug k (mk d cp t p (mk d Black B o C)))).
Proof.
  intros Hf Ht HB HC Hcc Hk. unfold erase_last. pose proof (focus_get _ _ _ _ _ _ _ Hf) as Hgp.
  pose proof (up_link _ _ _ Hf) as Hup. rewrite Hgp. simpl. rewrite cell_color by done.
  apply focus_far in Hf. destruct (focus_color _ _ _ _ cp _ _ _ Hf) as (s1 & -> & H1). simpl. apply leave_far in H1.
  destruct (focus_black _ _ _ _ _ _ _ H1) as (s2 & -> & H2). simpl. apply focus_far in H2.
  rewrite (focus_get _ _ _ _ _ _ _ H2). simpl. rewrite cell_far. destruct C as [|[] C1 c C2]; try done.
  simpl in HC |- *. apply focus_far in H2. destruct (focus_black _ _ Lft _ _ _ _ H2) as (s3 & -> & H3). simpl.
  apply leave_far, leave_far in H3. destruct (rotate_ok _ _ _ _ _ _ _ _ _ _ H3) as (s4 & -> & H4). simpl.
  replace (inorder (plug k (mk d cp t p (mk d Black B o (T Red C1 c C2)))))
    with (inorder (plug k (mk d cp (mk d Black t p B) o (T Black C1 c C2))))
    by (rewrite !inorder_plug, (inorder_rotate d cp t p Black B o); destruct d; done).
  assert (HL : rbt (S n) (mk d Black t p B)) by (apply rbt_black; done).
  assert (HR : rbt (S n) (T Black C1 c C2)) by (destruct HC as (_ & _ & ? & ?); done).
  destruct cp; simpl in Hk.
  - eapply (ends_balanced _ _ _ (S n)); [done| |rewrite col_mk; apply Hk]. apply rbt_red. rewrite col_mk. done.
  - eapply (ends_balanced _ _ _ (S (S n))); [done| |rewrite col_mk; apply Hk]. apply rbt_black. done.
Qed.

Lemma both_black s k d c B o C : at_focus s k (mk d c B o C) ->
  is_black s (ptr B) = Some (bool_decide (col B = Black)) /\ is_black s (ptr C) = Some (bool_decide (col C = Black)) /\
  (bl ← is_black s (rb_left (cell d (up k) c (ptr B) (ptr C)));
   if (bl : bool) then is_black s (rb_right (cell d (up k) c (ptr B) (ptr C))) else Some false) =
  Some (bool_decide (col B = Black) && bool_decide (col C = Black)).
Proof.
  intros Hf. pose proof (focus_facts _ _ _ _ _ _ _ Hf) as (_ & Ho & HaB & HaC & _).
  destruct (focus_children _ _ _ _ _ _ _ Hf) as [HB HC].
  pose proof (is_black_ptr s o B HB HaB (addr_link _ Ho)) as EB. pose proof (is_black_ptr s o C HC HaC (addr_link _ Ho)) as EC.
  split_and!; [done..|]. revert EB EC. generalize (bool_decide (col B = Black)), (bool_decide (col C = Black)).
  intros b1 b2 EB EC. destruct d; unfold cell; cbn; rewrite ?EB, ?EC; cbn; destruct b1, b2; cbn; rewrite ?EB, ?EC; done.
Qed.

(** A node with its colour and its children by direction *)
Lemma by_dir d t : t <> E -> exists t1 t2, t = mk d (col t) t1 (ptr t) t2.
Proof. destruct t as [|c l a r]; [done|]. intros _. destruct d; simpl; eauto. Qed.
Lemma red_by_dir d t : col t = Red -> exists t1 t2, t = mk d Red t1 (ptr t) t2.
Proof. intros Hc. destruct (by_dir d t) as (t1 & t2 & Ht); [destruct t; done|]. rewrite Hc in Ht. eauto. Qed.
Lemma not_red t : col t <> Red -> col t = Black.
Proof. destruct (col t); done. Qed.
Lemma not_black t : col t <> Black -> col t = Red.
Proof. destruct (col t); done. Qed.

(** The loop stops at a red node. *)
Lemma erase_loop_red fuel s k t n q : (1 <= fuel)%nat -> at_focus s k t -> col t = Red -> deficient n t ->
  rbt_ctx k Black (S n) -> erase_ends (erase_color_loop fuel s (ptr t) q) (inorder (plug k t)).
Proof.
  intros Hfu Hf Hc Ht Hk. destruct fuel as [|fuel]; [lia|]. destruct t as [|[] l a r]; [done| |done].
  pose proof (up_link _ _ _ Hf) as Hup. pose proof Hf as [_ Had Hrep _].
  rewrite erase_loop_unfold, (is_black_ptr s (up k) _ Hrep) by (try done; unfold addrs in Had; apply Forall_app in Had; apply Had).
  simpl. apply ends_red with n; done.
Qed.

(** What the loop does one level up, by induction *)
Definition loop_upwards (fuel : nat) (k : list frame) : Prop := forall s t n, at_focus s k t ->
  deficient n t -> rbt_ctx k Black (S n) -> erase_ends (erase_color_loop fuel s (ptr t) (up k)) (inorder (plug k t)).

Lemma erase_black_other_ok d fuel s k cp t p B o C n : (1 <= fuel)%nat -> (cp = Black -> loop_upwards fuel k) ->
  at_focus s k (mk d cp t p (mk d Black B o C)) -> col t = Black ->
  rbt n t -> rbt n B -> rbt n C -> rbt_ctx (Frame d cp p (mk d Black B o C) :: k) Black (S n) ->
  erase_ends (erase_black_other d fuel s o p) (inorder (plug k (mk d cp t p (mk d Black B o C)))).
Proof.
  intros Hfu IH Hf Hct Ht HB HC Hk. unfold erase_black_other. pose proof Hf as Hfo. apply focus_far in Hfo.
  destruct (both_black _ _ _ _ _ _ _ Hfo) as (EB & EC & Eboth). rewrite (focus_get _ _ _ _ _ _ _ Hfo). simpl in Eboth |- *.
  rewrite cell_near, cell_far.
  assert (Hbind : forall X (g : bool -> option X), (bl ← is_black s (rb_left (cell d p Black (ptr B) (ptr C)));
     both ← (if (bl : bool) then is_black s (rb_right (cell d p Black (ptr B) (ptr C))) else Some false); g both) =
     g (bool_decide (col B = Black) && bool_decide (col C = Black))).
  { intros X g. destruct (is_black s (rb_left _)) as [b|]; [|done]. simpl in Eboth |- *. rewrite Eboth. done. }
  rewrite Hbind. case_bool_decide as HcB; [case_bool_decide as HcC|]; cbn [andb].
  - destruct (focus_red _ _ _ _ _ _ _ Hfo) as (s1 & -> & H1). simpl. apply leave_far in H1.
    rewrite (focus_get _ _ _ _ _ _ _ H1). simpl. rewrite cell_parent by (eapply up_link; done).
    replace (inorder (plug k (mk d cp t p (mk d Black B o C)))) with (inorder (plug k (mk d cp t p (mk d Red B o C))))
      by (rewrite !inorder_plug; destruct d; done).
    rewrite <- (ptr_mk d cp t p (mk d Red B o C)) at 1.
    assert (HR : rbt n (mk d Red B o C)) by (apply rbt_red; done).
    destruct cp; simpl in Hk.
    + apply erase_loop_red with n; [done|done|apply col_mk|destruct d; done|apply rbt_ctx_black; apply Hk].
    + apply (IH eq_refl _ _ (S n)); [done|apply rbt_deficient, rbt_black; done|apply Hk].
  - rewrite EC. simpl.
    apply erase_last_ok with n; try done. apply not_black. done.
  - rewrite EC. simpl. case_bool_decide as HcC; simpl.
    2: { apply erase_last_ok with n; try done. apply not_black. done. }
    destruct (red_by_dir d B) as (B1 & B2 & EqB); [apply not_black; done|].
    set (b := ptr B) in *. rewrite EqB in Hfo, HB, Hk |- *. clearbody b. clear EqB EB Eboth Hbind Hf HcB.
    apply rbt_red in HB as (Hc1 & Hc2 & H1 & H2). apply focus_near in Hfo.
    destruct (focus_black _ _ _ _ _ _ _ Hfo) as (s1 & -> & Hs1). simpl. apply leave_near in Hs1.
    destruct (focus_red _ _ _ _ _ _ _ Hs1) as (s2 & -> & Hs2). simpl.
    rewrite <- (mk_opp d Red), <- (mk_opp d Black) in Hs2.
    destruct (rotate_ok _ _ _ _ _ _ _ _ _ _ Hs2) as (s3 & -> & Hs3). rewrite !mk_opp in Hs3. simpl.
    apply leave_far in Hs3. rewrite (focus_get _ _ _ _ _ _ _ Hs3). simpl. rewrite cell_far, ptr_mk.
    replace (inorder (plug k (mk d cp t p (mk d Black (mk d Red B1 b B2) o C))))
      with (inorder (plug k (mk d cp t p (mk d Black B1 b (mk d Red B2 o C)))))
      by (apply inorder_plug_ext, inorder_mk_ext; [done|symmetry; apply inorder_rotate]).
    apply erase_last_ok with n; try done.
    + apply rbt_red. done.
    + apply col_mk.
    + assert (rbt (S n) (mk d Black B1 b (mk d Red B2 o C))) by (apply rbt_black; split; [|apply rbt_red]; done).
      destruct cp; simpl in *; [rewrite ?col_mk in *|]; tauto.
Qed.

Lemma rbt_nonempty n t : rbt (S n) t -> t <> E.
Proof. intros Ht ->. done. Qed.

Lemma erase_side_ok d fuel s k cp t p O n : (1 <= fuel)%nat -> loop_upwards fuel k ->
  at_focus s k (mk d cp t p O) -> col t = Black -> rbt n t -> rbt_ctx (Frame d cp p O :: k) Black (S n) ->
  erase_ends (erase_side d fuel s p (cell d (up k) cp (ptr t) (ptr O))) (inorder (plug k (mk d cp t p O))).
Proof.
  intros Hfu IH Hf Hct Ht Hk. unfold erase_side. rewrite cell_far.
  assert (HO : rbt (S n) O) by (destruct cp; apply Hk).
  destruct (by_dir d O) as (B & C & EO); [eapply rbt_nonempty; done|]. set (o := ptr O) in *. clearbody o.
  destruct (col O) eqn:HcO; rewrite EO in *; clear EO O.
  - (* a red sibling: one rotation leads to a black one *)
    rewrite col_mk in HcO. apply rbt_red in HO as (HcB & HcC & HB & HC).
    destruct cp; [destruct Hk as (_ & _ & Hcs & _); rewrite col_mk in Hcs; done|]. destruct Hk as [_ Hk].
    apply focus_far in Hf. rewrite (focus_get _ _ _ _ _ _ _ Hf). simpl.
    assert (Hup : link_ok p) by (eapply (up_link _ (Frame (opp d) Black p t :: k)); done).
    rewrite cell_red by done. simpl.
    destruct (focus_black _ _ _ _ _ _ _ Hf) as (s1 & -> & H1). simpl. apply leave_far in H1.
    destruct (focus_red _ _ _ _ _ _ _ H1) as (s2 & -> & H2). simpl.
    destruct (rotate_ok _ _ _ _ _ _ _ _ _ _ H2) as (s3 & -> & H3). simpl. apply focus_near in H3.
    rewrite (focus_get _ _ _ _ _ _ _ H3). simpl. rewrite cell_far.
    destruct (by_dir d B) as (B1 & B2 & EB); [eapply rbt_nonempty; done|]. rewrite HcB in EB.
    set (b := ptr B) in *. clearbody b. subst B. apply rbt_black in HB as [HB1 HB2].
    replace (inorder (plug k (mk d Black t p (mk d Red (mk d Black B1 b B2) o C))))
      with (inorder (plug (Frame d Black o C :: k) (mk d Red t p (mk d Black B1 b B2))))
      by (simpl; apply inorder_plug_ext, inorder_rotate).
    apply erase_black_other_ok with n; try done.
    simpl. rewrite col_mk. split_and!; try done. apply rbt_black. done.
  - rewrite col_mk in HcO. apply rbt_black in HO as [HB HC]. pose proof Hf as Hfo. apply focus_far in Hfo.
    rewrite (focus_get _ _ _ _ _ _ _ Hfo). simpl.
    assert (Hup : link_ok p) by (eapply (up_link _ (Frame (opp d) cp p t :: k)); done).
    rewrite cell_red by done. simpl. apply erase_black_other_ok with n; done.
Qed.

Lemma erase_loop_ok fuel s k t n : (length k < fuel)%nat -> at_focus s k t -> deficient n t -> rbt_ctx k Black (S n) ->
  erase_ends (erase_color_loop fuel s (ptr t) (up k)) (inorder (plug k t)).
Proof.
  revert s k t n. induction fuel as [|fuel IH]; intros s k t n Hfu Hf Hd Hk; [lia|].
  destruct (decide (col t = Red)) as [Hc|Hc%not_red]; [apply erase_loop_red with n; [lia|done..]|].
  assert (Ht : rbt n t) by (destruct t as [|[] l a r]; done).
  rewrite erase_loop_unfold. pose proof (up_link _ _ _ Hf) as Hup. pose proof Hf as [_ Had Hrep _].
  rewrite (is_black_ptr s (up k) _ Hrep) by (try done; unfold addrs in Had; apply Forall_app in Had; apply Had).
  rewrite bool_decide_eq_true_2 by done. simpl. rewrite (at_root _ _ _ Hf). case_bool_decide as Hkn.
  - subst k. pose proof Hf as [_ _ _ Hroot]. simpl in Hroot. rewrite <- Hroot.
    apply (ends_balanced _ [] _ n); done.
  - destruct k as [|[d cp p O] k]; [done|]. simpl. simpl in Hfu.
    pose proof Hf as Hfp. apply leave_near in Hfp. rewrite (focus_get _ _ _ _ _ _ _ Hfp). simpl.
    assert (HO : O <> E) by (destruct cp; eapply rbt_nonempty; apply Hk).
    assert (Hne : ptr O <> ptr t).
    { rewrite <- (mk_opp d) in Hfp. eapply focus_ptr_ne; [exact Hfp|done]. }
    assert (Hs : forall X (x y : X), (if rb_left (cell d (up k) cp (ptr t) (ptr O)) =? ptr t then x else y) =
        match d with Lft => x | Rgt => y end).
    { intros. destruct d; unfold cell; simpl; zcases; done. }
    rewrite Hs. assert (HS : erase_ends (erase_side d fuel s p (cell d (up k) cp (ptr t) (ptr O))) (inorder (plug k (mk d cp t p O)))).
    { apply erase_side_ok with n; try done; [lia|]. intros s' t' n' Hf' Hd' Hk'. apply (IH _ _ _ n'); try done. lia. }
    destruct d; exact HS.
Qed.

Lemma erase_color_ok s k t n : at_focus s k t -> deficient n t -> rbt_ctx k Black (S n) ->
  exists s' t', __rb_erase_color s (ptr t) (up k) = Some s' /\ represents s' t' /\ red_black t' /\
    inorder t' = inorder (plug k t).
Proof.
  intros Hf Hd Hk.
  destruct (erase_loop_ok (tree_fuel s) s k t n) as (s1 & x & s' & t' & E1 & E2 & H); [|done..|].
  { pose proof (focus_fuel _ _ _ Hf). lia. }
  exists s', t'. unfold __rb_erase_color. rewrite E1. simpl. done.
Qed.

(** ** Unlinking a node *)

Lemma reparent_op' s p t q : rep s p t -> Forall addr_ok (inorder t) -> link_ok p -> link_ok q ->
  (if negb (ptr t =? 0) then rb_set_parent s (ptr t) q else Some s) = Some (reparent s t q).
Proof. intros. rewrite <- (reparent_op s p) by done. destruct (ptr t =? 0); done. Qed.

Lemma relink_op' s k q v : rep_ctx s k q -> addr_ok q -> q ∉ ctx_addrs k -> Forall addr_ok (ctx_addrs k) ->
  (if negb (up k =? 0) then
     p ← get s (up k);
     if rb_left p =? q then set_left s (up k) v else set_right s (up k) v
   else Some (set_root s v)) = Some (relink s k v).
Proof.
  intros. rewrite <- (relink_op Lft s k q v) by done. unfold relink_code. destruct (up k =? 0); simpl; [done|].
  destruct (get s (up k)) as [n|]; simpl; [|done]. rewrite Z.eqb_sym. done.
Qed.

(** The only child of a node takes its place. *)
Lemma splice_ok s k d c t a : at_focus s k (mk d c t a E) ->
  exists s', (s ← (if negb (ptr t =? 0) then rb_set_parent s (ptr t) (up k) else Some s);
     (if negb (up k =? 0) then
        p ← get s (up k);
        if rb_left p =? a then set_left s (up k) (ptr t) else set_right s (up k) (ptr t)
      else Some (set_root s (ptr t)))) = Some s' /\ at_focus s' k t.
Proof.
  intros Hf. pose proof (focus_facts _ _ _ _ _ _ _ Hf) as Hfa. destruct (focus_children _ _ _ _ _ _ _ Hf) as [Ht _].
  destruct Hf as [Hn Ha _ Hk]. rewrite ptr_mk in Hk. unfold addrs in Hn, Ha. rewrite inorder_mk in Hn, Ha. simpl in Hn, Ha.
  rewrite app_nil_r in Hn, Ha. dand. apply NoDup_cons in Hn as [_ Hn]. apply Forall_cons_1 in Ha as [_ Ha].
  rewrite (reparent_op' s a) by auto with kernel. simpl. set (s1 := reparent s t (up k)).
  assert (Hk1 : rep_ctx s1 k a).
  { apply (rep_ctx_frame s); [unfold s1; rewrite root_reparent; done| |done].
    intros b Hb. unfold s1. rewrite get_reparent by set_solver. done. }
  rewrite (relink_op' s1 k a) by done. eexists. split; [done|]. split; [done|done|..].
  - eapply rep_frame; [|apply (reparent_rep s a); done]. intros b Hb. rewrite get_relink by set_solver. done.
  - eapply relink_rep; done.
Qed.

Lemma erase_one_ok s k d c t a : at_focus s k (mk d c t a E) -> red_black (plug k (mk d c t a E)) ->
  exists s' t', erase_one s a (ptr t) = Some s' /\ represents s' t' /\ red_black t' /\ inorder t' = inorder (plug k t).
Proof.
  intros Hf Hrb. pose proof (up_link _ _ _ Hf) as Hup. destruct (splice_ok _ _ _ _ _ _ Hf) as (s1 & E1 & H1).
  unfold erase_one. rewrite (focus_get _ _ _ _ _ _ _ Hf). simpl. rewrite cell_parent, cell_color by done.
  destruct (rbt_unplug _ _ Hrb) as (m & Hm & Hk). rewrite col_mk in Hk.
  destruct (if negb (ptr t =? 0) then rb_set_parent s (ptr t) (up k) else Some s) as [s0|]; [|done].
  simpl in E1 |- *. rewrite E1. simpl. destruct c.
  - apply rbt_red in Hm as (Hc & _ & Hm & _). exists s1, (plug k t). split_and!; try done; [rewrite <- focus_plug; done|].
    eapply rbt_plug; [done|]. rewrite Hc. apply rbt_ctx_black. done.
  - apply rbt_black_inv in Hm as (n & -> & Hn & _). apply (erase_color_ok _ _ _ n); [done|apply rbt_deficient; done|done].
Qed.

(** The first node of a subtree, at least one level below its root, is cut off: the update of the
    pointers to its right child. *)
Lemma cut_first s p k f cs y sr : k <> [] -> along Lft k -> rep s p (plug k (T cs E y sr)) -> link_ok p ->
  NoDup (inorder (plug k (T cs E y sr))) -> Forall addr_ok (inorder (plug k (T cs E y sr))) -> f = up k ->
  get s y = Some (cell Lft f cs 0 (ptr sr)) /\ rep s y sr /\ f ∈ inorder (plug k sr) /\
  exists s', set_left (reparent s sr f) f (ptr sr) = Some s' /\ rep s' p (plug k sr) /\ ptr (plug k sr) = ptr (plug k (T cs E y sr)) /\
    rb_root s' = rb_root s /\ (forall b, b ∉ inorder (plug k sr) -> get s' b = get s b).
Proof.
  revert s p f. induction k as [|[d ct a rt] k IH] using rev_ind; intros s p f Hne Hal Hr Hp Hn Ha ->; [done|].
  apply Forall_app in Hal as [Hal Hd]. apply Forall_cons_1 in Hd as [Hd _]. simpl in Hd. subst d.
  rewrite !plug_app in *. simpl in Hr, Hn, Ha |- *. destruct Hr as (Hga & Hl & Hrt).
  apply NoDup_app in Hn as (Hn1 & Hdis & Hn2). apply NoDup_cons in Hn2 as [Hna Hn2].
  apply Forall_app in Ha as [Ha1 Ha2]. apply Forall_cons_1 in Ha2 as [Haa Ha2]. destruct k as [|fr k].
  - simpl in *. destruct Hl as (Hgy & _ & Hsr). apply NoDup_cons in Hn1 as [Hny Hn1]. apply Forall_cons_1 in Ha1 as [Hay Ha1].
    split_and!; [done|done|set_solver|].
    assert (Hga1 : get (reparent s sr a) a = Some (cell Lft p ct y (ptr rt))) by (rewrite get_reparent by set_solver; done).
    change set_left with (set_child Lft). rewrite (set_near_cell _ _ _ _ _ _ _ Hga1). eexists. split; [done|].
    split_and!; [apply get_put_eq|..]; simpl.
    + eapply rep_frame; [|apply (reparent_rep s y); done]. intros b Hb. rewrite get_put_ne by set_solver. done.
    + eapply rep_frame; [|exact Hrt]. intros b Hb. rewrite get_put_ne, get_reparent by set_solver. done.
    + done.
    + apply root_reparent.
    + intros b Hb. rewrite get_put_ne, get_reparent by set_solver. done.
  - assert (Eu : up ((fr :: k) ++ [Frame Lft ct a rt]) = up (fr :: k)) by done. rewrite Eu. clear Eu.
    destruct (IH s a (up (fr :: k))) as (Hgy & Hsr & Hf & s' & Es & Hr' & Hptr & Hroot & Hfr); try done; [auto with kernel|].
    assert (Hsub : forall b, b ∈ inorder (plug (fr :: k) sr) -> b ∈ inorder (plug (fr :: k) (T cs E y sr))).
    { intros b. rewrite !inorder_plug. simpl. set_solver. }
    split_and!; [done|done|set_solver|]. exists s'. rewrite Hptr. split_and!; try done.
    + rewrite Hfr by set_solver. done.
    + eapply rep_frame; [|exact Hrt]. intros b Hb. apply Hfr. set_solver.
    + intros b Hb. apply Hfr. set_solver.
Qed.

(** [rb_erase] of a node with two children: the successor [node] of [old] is cut off the tree, *)
Definition cut_successor (s : rb_tree) (old node : Z) : option (rb_tree * Z * Z * Z) :=
  n ← get s node;
  let child := rb_right n in
  let parent := rb_parent n in
  let color := rb_color n in
  '(s, parent) ←
    (if parent =? old then Some (s, node)
     else
       s ← (if negb (child =? 0) then rb_set_parent s child parent else Some s);
       s ← set_left s parent child;
       o ← get s old;
       s ← set_right s node (rb_right o);
       s ← rb_set_parent s (rb_right o) node;
       Some (s, parent));
  Some (s, child, parent, color).
(** and becomes a copy of [old]. *)
Definition copy_node (s : rb_tree) (old node : Z) : option rb_tree :=
  o ← get s old;
  s ← set_parent_color s node (rb_parent_color o);
  s ← set_left s node (rb_left o);
  rb_set_parent s (rb_left o) node.

Lemma erase_two_unfold s old : erase_two s old =
  (o ← get s old;
   node ← leftmost (tree_fuel s) s (rb_right o);
   s ← (if negb (rb_parent o =? 0) then
          p ← get s (rb_parent o);
          if rb_left p =? old then set_left s (rb_parent o) node else set_right s (rb_parent o) node
        else Some (set_root s node));
   '(s, child, parent, color) ← cut_successor s old node;
   s ← copy_node s old node;
   if color =? RB_BLACK then __rb_erase_color s child parent else Some s).
Proof.
  unfold erase_two, cut_successor, copy_node.
  repeat (first [done | match goal with |- (?x ≫= _) = (?x ≫= _) => destruct x as [?|]; simpl end]).
  destruct (get _ z) as [n|]; simpl; [|done].
  match goal with |- (?x ≫= _) = _ => destruct x as [[s' q]|]; simpl; [|done] end.
  repeat match goal with |- (?x ≫= _) = _ => destruct x as [?|]; simpl; [|done] end. done.
Qed.

Lemma copy_node_ok s a y pc ry ly p c l r : get s a = Some (cell Lft p c (ptr l) r) ->
  get s y = Some (RbNode pc ry ly) -> y <> a -> addr_ok y -> addr_ok a -> l <> E ->
  rep s a l -> Forall addr_ok (inorder l) -> NoDup (inorder l) -> y ∉ inorder l ->
  exists s', copy_node s a y = Some s' /\ get s' y = Some (cell Lft p c (ptr l) ry) /\ rep s' y l /\
    rb_root s' = rb_root s /\ (forall b, b <> y -> b ∉ inorder l -> get s' b = get s b).
Proof.
  intros Hga Hg Hne Hy Ha Hl Hr Hal Hn Hyl. unfold copy_node. rewrite Hga. simpl.
  unfold set_parent_color. rewrite Hg. simpl. unfold set_left. rewrite get_put_eq. simpl. rewrite put_put. set (s1 := put s y _).
  assert (H1 : rep s1 a l) by (eapply rep_frame; [|exact Hr]; intros b Hb; unfold s1; rewrite get_put_ne by set_solver; done).
  pose proof (reparent_op s1 a l y H1 Hal (addr_link _ Ha) (addr_link _ Hy)) as E1.
  rewrite ptr_zero, bool_decide_eq_false_2 in E1 by done.
  change (rb_left (cell Lft p c (ptr l) r)) with (ptr l). rewrite E1. eexists. split; [done|]. split_and!.
  - rewrite get_reparent by done. apply get_put_eq.
  - apply (reparent_rep s1 a); done.
  - rewrite root_reparent. done.
  - intros b Hb Hbl. rewrite get_reparent by done. apply get_put_ne. done.
Qed.

(** The parent of the position of a context under the node [y] *)
Definition up_from (y : Z) (k : list frame) : Z := match k with [] => y | _ => up k end.
Lemma up_from_ne k y : k <> [] -> up_from y k = up k.
Proof. destruct k; done. Qed.

Lemma cut_successor_ok s a p c l r km cs y sr : get s a = Some (cell Lft p c (ptr l) (ptr r)) -> addr_ok a -> rep s a r ->
  along Lft km -> r = plug km (T cs E y sr) -> NoDup (inorder r) -> Forall addr_ok (inorder r) -> a ∉ inorder r ->
  exists s' pc ly, cut_successor s a y = Some (s', ptr sr, up_from y km, color_bit cs) /\
    get s' y = Some (RbNode pc (ptr (plug km sr)) ly) /\ rep s' y (plug km sr) /\ rb_root s' = rb_root s /\
    (forall b, b ∉ inorder r -> get s' b = get s b).
Proof.
  intros Hga Ha Hr Hal -> Hn Had Hna. unfold cut_successor. destruct km as [|f km].
  - simpl in *. destruct Hr as (Hgy & _ & Hsr). rewrite Hgy. simpl. rewrite (cell_parent Lft), (cell_color Lft) by auto with kernel.
    rewrite Z.eqb_refl. simpl. exists s, (pack a cs), 0. split_and!; try done.
  - assert (Hne : plug (f :: km) sr <> E) by (destruct f as [[] ? ? ?]; simpl; apply plug_nonempty; done).
    assert (Hk : f :: km <> []) by done. rewrite (up_from_ne (f :: km)) by done. revert Hk Hne. set (k := f :: km) in *. clearbody k. intros Hk Hne. clear f km. assert (Hir : inorder (plug k (T cs E y sr)) = y :: inorder (plug k sr)).
    { rewrite !inorder_plug, before_along by done. done. }
    destruct (cut_first s a k (up k) cs y sr) as (Hgy & Hsr & Hfin & s1 & E1 & H1 & Hptr & Hroot & Hfr); try done; [auto with kernel|].
    rewrite Hir in Hn, Had, Hna. apply NoDup_cons in Hn as [Hny Hn]. apply Forall_cons_1 in Had as [Hay Had].
    assert (Hfok : addr_ok (up k)) by (eapply Forall_forall; [|exact Hfin]; done).
    rewrite Hgy. simpl. rewrite (cell_parent Lft), (cell_color Lft) by auto with kernel.
    assert (Hfa : up k <> a) by set_solver. destruct (Z.eqb_spec (up k) a); [done|].
    assert (Hasr : Forall addr_ok (inorder sr)).
    { rewrite inorder_plug in Had. apply Forall_app in Had as [_ Had]. apply Forall_app in Had as [Had _]. done. }
    change (rb_right (cell Lft (up k) cs 0 (ptr sr))) with (ptr sr).
    rewrite (reparent_op' s y sr (up k)) by auto with kernel. simpl. rewrite E1. simpl.
    rewrite (Hfr a) by set_solver. rewrite Hga. simpl. change (rb_right (cell Lft p c (ptr l) ?x)) with x.
    assert (Hgy1 : get s1 y = Some (cell Lft (up k) cs 0 (ptr sr))) by (rewrite Hfr by done; done).
    change set_right with (set_child (opp Lft)). rewrite (set_far_cell _ _ Lft _ _ _ _ Hgy1). simpl. set (s2 := put s1 y _).
    assert (H2 : rep s2 a (plug k sr)) by (eapply rep_frame; [|exact H1]; intros b Hb; unfold s2; rewrite get_put_ne by set_solver; done).
    pose proof (reparent_op s2 a (plug k sr) y H2 Had (addr_link _ Ha) (addr_link _ Hay)) as E2.
    rewrite ptr_zero, bool_decide_eq_false_2, Hptr in E2 by done.
    rewrite E2. simpl. eexists _, _, _. split; [done|]. split_and!.
    + rewrite get_reparent by done. unfold s2. rewrite get_put_eq, Hptr. done.
    + apply (reparent_rep s2 a); done.
    + rewrite root_reparent. done.
    + intros b Hb. rewrite Hir in Hb. apply not_elem_of_cons in Hb as [Hb1 Hb2].
      rewrite get_reparent by done. unfold s2. rewrite get_put_ne by done. apply Hfr. done.
Qed.

Lemma erase_two_ok s k c l a r : at_focus s k (T c l a r) -> red_black (plug k (T c l a r)) -> l <> E -> r <> E ->
  exists s' t', erase_two s a = Some s' /\ represents s' t' /\ red_black t' /\ inorder t' = before k ++ (inorder l ++ inorder r) ++ after k.
Proof.
  intros Hf Hrb Hl Hr. pose proof (focus_facts _ _ Lft _ _ _ _ Hf) as Hfa. pose proof (focus_get _ _ Lft _ _ _ _ Hf) as Hga.
  destruct (focus_children _ _ Lft _ _ _ _ Hf) as [Hrl Hrr]. pose proof Hf as [Hnd Had _ Hk]. simpl in Hk.
  destruct Hfa as (Hup & Ha & Hal & Har & Hnal & Hnar & Hnak & Hndl & Hndr & Hdl & Hdr & Hndk & Hak).
  rewrite erase_two_unfold, Hga. simpl.
  change (rb_right (cell Lft (up k) c (ptr l) (ptr r))) with (ptr r).
  destruct (extreme_ok Lft (tree_fuel s) s a r) as (km & cs & y & sr & Ey & Er & Halong); try done.
  { pose proof (focus_fuel _ _ _ Hf) as H. simpl in H. rewrite length_app in H. simpl in H. lia. }
  simpl in Ey. rewrite Ey. simpl. rewrite (cell_parent Lft) by done. simpl in Er.
  assert (Hir : inorder r = y :: inorder (plug km sr)) by (rewrite Er, !inorder_plug, before_along by done; done).
  assert (Hyr : y ∈ inorder r) by (rewrite Hir; apply elem_of_cons; auto).
  assert (Hyok : addr_ok y) by (eapply Forall_forall; [|exact Hyr]; done).
  assert (Hyl : y ∉ inorder l) by (intros Hin; destruct (Hdl y Hin) as [Hx _]; done). assert (Hya : y <> a) by congruence.
  rewrite (relink_op' s k a y) by done. simpl. set (s1 := relink s k y).
  assert (Hget1 : forall b, b ∉ ctx_addrs k -> get s1 b = get s b) by (intros; apply get_relink; done).
  assert (Hrl1 : rep s1 a l) by (eapply rep_frame; [|exact Hrl]; intros b Hb; apply Hget1; apply Hdl; done).
  assert (Hrr1 : rep s1 a r) by (eapply rep_frame; [|exact Hrr]; intros b Hb; apply Hget1; apply Hdr; done).
  destruct (cut_successor_ok s1 a (up k) c l r km cs y sr) as (s2 & pc & ly & E2 & Hgy2 & Hr2 & Hroot2 & Hfr2); try done.
  { rewrite Hget1; done. }
  rewrite E2. simpl.
  destruct (copy_node_ok s2 a y pc (ptr (plug km sr)) ly (up k) c l (ptr r)) as (s3 & E3 & Hgy3 & Hl3 & Hroot3 & Hfr3); try done.
  { rewrite Hfr2, Hget1; done. }
  { eapply rep_frame; [|exact Hrl1]. intros b Hb. apply Hfr2. apply Hdl. done. }
  rewrite E3. simpl.
  assert (Hf3 : at_focus s3 k (T c l y (plug km sr))).
  { rewrite Hir in Hndr, Har, Hdl, Hdr. apply NoDup_cons in Hndr as [Hyn Hndr]. apply Forall_cons_1 in Har as [_ Har].
    unfold addrs in Hnd, Had. simpl in Hnd, Had. rewrite Hir in Hnd, Had. split; unfold addrs; simpl.
    - rewrite <- (assoc_L (++)) in Hnd |- *. simpl in *. apply NoDup_app in Hnd as (H1 & H2 & H3).
      apply NoDup_cons in H3 as [_ H3]. apply NoDup_app. split_and!; [done| |done]. intros b Hb Hb'. apply (H2 b Hb).
      apply elem_of_cons. auto.
    - rewrite <- (assoc_L (++)) in Had |- *. simpl in *. apply Forall_app in Had as [H1 H2].
      apply Forall_cons_1 in H2 as [_ H2]. apply Forall_app. done.
    - split_and!; [done|done|]. eapply rep_frame; [|exact Hr2]. intros b Hb. apply Hfr3; [congruence|].
      intros Hbl. destruct (Hdl b Hbl) as [Hx _]. apply Hx, elem_of_cons. auto.
    - apply (rep_ctx_frame s1); [congruence| |eapply relink_rep; done]. intros b Hb.
      assert (b ∉ inorder r) by (rewrite Hir; intros Hbr; apply (Hdr b Hbr); done).
      rewrite Hfr3, Hfr2; [done|done|congruence|]. intros Hbl. destruct (Hdl b Hbl) as [_ Hx]. done. }
  assert (Hf4 : at_focus s3 (km ++ Frame Rgt c y l :: k) sr).
  { rewrite focus_plug, plug_app. simpl. rewrite <- focus_plug. exact Hf3. }
  assert (Hup4 : up_from y km = up (km ++ Frame Rgt c y l :: k)) by (destruct km; done). rewrite Hup4.
  assert (Hin : inorder (plug (km ++ Frame Rgt c y l :: k) sr) = before k ++ (inorder l ++ inorder r) ++ after k).
  { rewrite plug_app. simpl. rewrite inorder_plug. simpl. rewrite Hir. done. }
  assert (Hrb' : red_black (plug (km ++ Frame Rgt c a l :: k) (T cs E y sr))) by (rewrite plug_app, <- Er; exact Hrb).
  destruct (rbt_unplug _ _ Hrb') as (m & Hm & Hkm). rewrite rbt_ctx_addr with (b := y) in Hkm. rewrite <- Hin. destruct cs; simpl.
  - destruct Hm as (_ & Hcs & _ & Hm). exists s3, (plug (km ++ Frame Rgt c y l :: k) sr).
    split_and!; try done; [rewrite <- focus_plug; done|]. eapply rbt_plug; [done|]. rewrite Hcs. apply rbt_ctx_black. done.
  - destruct m as [|m]; [done|]. destruct Hm as [_ Hm]. apply (erase_color_ok _ _ _ m); [done|apply rbt_deficient; done|done].
Qed.

Lemma erase_ok s t a : represents s t -> red_black t -> a ∈ inorder t ->
  exists s' t' l1 l2, rb_erase s a = Some s' /\ represents s' t' /\ red_black t' /\
    inorder t = l1 ++ a :: l2 /\ inorder t' = l1 ++ l2.
Proof.
  intros Hr Hrb (k & c & l & r & ->)%focus_at. pose proof Hr as Hf. rewrite <- focus_plug in Hf.
  pose proof (focus_facts _ _ Lft _ _ _ _ Hf) as (_ & _ & Hal & Har & _).
  unfold rb_erase. rewrite (focus_get _ _ Lft _ _ _ _ Hf). simpl.
  change (rb_left (cell Lft (up k) c (ptr l) (ptr r))) with (ptr l).
  change (rb_right (cell Lft (up k) c (ptr l) (ptr r))) with (ptr r).
  assert (Hgoal : forall r' : option rb_tree, (exists s' t', r' = Some s' /\ represents s' t' /\ red_black t' /\
      inorder t' = before k ++ (inorder l ++ inorder r) ++ after k) ->
      exists s' t' l1 l2, r' = Some s' /\ represents s' t' /\ red_black t' /\
        inorder (plug k (T c l a r)) = l1 ++ a :: l2 /\ inorder t' = l1 ++ l2).
  { intros r' (s' & t' & E1 & H1 & H2 & H3). exists s', t', (before k ++ inorder l), (inorder r ++ after k).
    rewrite inorder_plug, H3. simpl. rewrite <- !(assoc_L (++)). done. }
  apply Hgoal. rewrite !ptr_zero by done. case_bool_decide as H1; [|case_bool_decide as H2].
  - subst l. destruct (erase_one_ok s k Rgt c r a) as (s' & t' & E1 & H1 & H2 & H3); [done|done|].
    exists s', t'. rewrite inorder_plug in H3. done.
  - subst r. destruct (erase_one_ok s k Lft c l a) as (s' & t' & E1 & H2 & H3 & H4); [done|done|].
    exists s', t'. rewrite inorder_plug in H4. simpl. rewrite app_nil_r. done.
  - apply (erase_two_ok s k c l a r); done.
Qed.

(** ** Traversal *)

Section Traversal.
Context (s : rb_tree).

Lemma climb_right_ok fuel k t : at_focus s k t -> t <> E -> (length k < fuel)%nat ->
  climb_right fuel s (ptr t) = Some (hd 0 (after k)).
Proof.
  revert k t. induction fuel as [|fuel IH]; intros k t Hf Hne Hfu; [lia|]. simpl.
  pose proof (up_link _ _ _ Hf) as Hup. destruct (rep_cell Lft s (up k) t) as (t1 & t2 & _ & Hg & _); [apply Hf|done|].
  rewrite Hg. simpl. rewrite (cell_parent Lft) by done. destruct k as [|[d c a sib] k]; [done|]. simpl in *.
  pose proof Hf as Hfp. apply leave_near in Hfp. pose proof (focus_facts _ _ _ _ _ _ _ Hfp) as (_ & [Ha _] & _).
  destruct (Z.eqb_spec a 0); [lia|]. rewrite (focus_get _ _ _ _ _ _ _ Hfp). simpl.
  pose proof (focus_ptr_ne _ _ _ _ _ _ _ Hfp Hne) as Hs. destruct d; unfold cell; simpl; zcases; try done.
  apply (IH _ (T c sib a t)); [done|done|lia].
Qed.
Lemma climb_left_ok fuel k t : at_focus s k t -> t <> E -> (length k < fuel)%nat ->
  climb_left fuel s (ptr t) = Some (default 0 (last (before k))).
Proof.
  revert k t. induction fuel as [|fuel IH]; intros k t Hf Hne Hfu; [lia|]. simpl.
  pose proof (up_link _ _ _ Hf) as Hup. destruct (rep_cell Lft s (up k) t) as (t1 & t2 & _ & Hg & _); [apply Hf|done|].
  rewrite Hg. simpl. rewrite (cell_parent Lft) by done. destruct k as [|[d c a sib] k]; [done|]. simpl in *.
  pose proof Hf as Hfp. apply leave_near in Hfp. pose proof (focus_facts _ _ _ _ _ _ _ Hfp) as (_ & [Ha _] & _).
  destruct (Z.eqb_spec a 0); [lia|]. rewrite (focus_get _ _ _ _ _ _ _ Hfp). simpl.
  pose proof (focus_ptr_ne _ _ _ _ _ _ _ Hfp Hne) as Hs. destruct d; unfold cell; simpl; zcases; try done.
  - apply (IH _ (T c t a sib)); [done|done|lia].
  - rewrite (assoc_L (++)), last_snoc. done.
Qed.

(** The ends of a subtree in order *)
Lemma first_ok p t : rep s p t -> Forall addr_ok (inorder t) -> t <> E -> (length (inorder t) < tree_fuel s)%nat ->
  leftmost (tree_fuel s) s (ptr t) = Some (hd 0 (inorder t)).
Proof.
  intros Ht Ha Hne Hfu. change leftmost with (extreme Lft). destruct (extreme_ok Lft (tree_fuel s) s p t) as (k & c & y & t' & -> & -> & Hk); [done|done|done|lia|].
  rewrite inorder_plug, before_along by done. done.
Qed.
Lemma last_ok p t : rep s p t -> Forall addr_ok (inorder t) -> t <> E -> (length (inorder t) < tree_fuel s)%nat ->
  rightmost (tree_fuel s) s (ptr t) = Some (default 0 (last (inorder t))).
Proof.
  intros Ht Ha Hne Hfu. change rightmost with (extreme Rgt). destruct (extreme_ok Rgt (tree_fuel s) s p t) as (k & c & y & t' & -> & -> & Hk); [done|done|done|lia|].
  rewrite inorder_plug, after_along, app_nil_r by done. simpl. rewrite (assoc_L (++)), last_snoc. done.
Qed.
End Traversal.

Lemma hd_inorder_app t l : t <> E -> hd 0 (inorder t ++ l) = hd 0 (inorder t).
Proof. destruct t as [|c t1 a t2]; [done|]. simpl. destruct (inorder t1); done. Qed.
Lemma last_app_inorder t l : t <> E -> last (l ++ inorder t) = last (inorder t).
Proof.
  intros Hne. destruct (inorder t) as [|x l' _] eqn:Ht using rev_ind; [destruct t as [|c t1 a t2]; [done|]; simpl in Ht; destruct (inorder t1); done|].
  rewrite (assoc_L (++)), !last_snoc. done.
Qed.

#[local] Arguments climb_right : simpl never.
#[local] Arguments climb_left : simpl never.
#[local] Arguments leftmost : simpl never.
#[local] Arguments rightmost : simpl never.

Lemma next_prev_ok s t l1 a l2 : represents s t -> inorder t = l1 ++ a :: l2 ->
  rb_next s a = Some (hd 0 l2) /\ rb_prev s a = Some (default 0 (last l1)).
Proof.
  intros Hr Hin. assert (Hat : a ∈ inorder t) by (rewrite Hin; set_solver).
  destruct (focus_at _ _ Hat) as (k & c & l & r & ->). pose proof Hr as Hf. rewrite <- focus_plug in Hf.
  assert (Hnd : NoDup (inorder (plug k (T c l a r)))) by (rewrite <- addrs_plug; apply Hf).
  assert (l1 = before k ++ inorder l /\ l2 = inorder r ++ after k) as [-> ->].
  { apply (nodup_split _ _ _ _ a); [rewrite <- Hin; done|]. rewrite <- Hin, inorder_plug. simpl. rewrite <- !(assoc_L (++)). done. }
  pose proof (focus_facts _ _ Lft _ _ _ _ Hf) as (Hup & Ha & Hal & Har & _ & _ & Hak & _).
  destruct (focus_children _ _ Lft _ _ _ _ Hf) as [Hrl Hrr].
  pose proof (focus_fuel _ _ _ Hf) as Hfu. simpl in Hfu. rewrite length_app in Hfu. simpl in Hfu.
  assert (Hpa : up k <> a) by (destruct k as [|[]]; simpl in *; [destruct Ha; lia|set_solver]).
  unfold rb_next, rb_prev. rewrite (focus_get _ _ Lft _ _ _ _ Hf). simpl. rewrite (cell_parent Lft) by done.
  change (rb_left (cell Lft (up k) c (ptr l) (ptr r))) with (ptr l).
  change (rb_right (cell Lft (up k) c (ptr l) (ptr r))) with (ptr r).
  destruct (Z.eqb_spec (up k) a); [done|]. rewrite !ptr_zero by done. split.
  - case_bool_decide as H1; cbn [negb].
    + subst r. apply (climb_right_ok s _ k (T c l a E)); [done|done|lia].
    + rewrite (first_ok s a r), hd_inorder_app by (done || lia). done.
  - case_bool_decide as H1; cbn [negb].
    + subst l. simpl. rewrite app_nil_r. apply (climb_left_ok s _ k (T c E a r)); [done|done|lia].
    + rewrite (last_ok s a l), last_app_inorder by (done || lia). done.
Qed.

(** ** Replacement *)

Lemma replace_ok s k c l a r b : at_focus s k (T c l a r) -> addr_ok b -> b ∉ addrs k (T c l a r) -> is_Some (get s b) ->
  exists s', rb_replace_node s a b = Some s' /\ at_focus s' k (T c l b r).
Proof.
  intros Hf Hb Hnb [nb Hgb]. pose proof (focus_facts _ _ Lft _ _ _ _ Hf) as Hfa. pose proof (focus_get _ _ Lft _ _ _ _ Hf) as Hga.
  destruct (focus_children _ _ Lft _ _ _ _ Hf) as [Hrl Hrr]. pose proof Hf as [Hnd Had _ Hk]. simpl in Hk.
  destruct Hfa as (Hup & Ha & Hal & Har & Hnal & Hnar & Hnak & Hndl & Hndr & Hdl & Hdr & Hndk & Hak).
  unfold addrs in Hnb. simpl in Hnb. rewrite !not_elem_of_app, not_elem_of_cons in Hnb. destruct Hnb as [[Hbl [Hba Hbr]] Hbk].
  unfold rb_replace_node. rewrite Hga. simpl. rewrite (cell_parent Lft) by done.
  change (rb_left (cell Lft (up k) c (ptr l) (ptr r))) with (ptr l).
  change (rb_right (cell Lft (up k) c (ptr l) (ptr r))) with (ptr r).
  pose proof (relink_op Lft s k a b Hk Ha Hnak Hak) as E1. unfold relink_code in E1. simpl in E1. rewrite E1. simpl.
  set (s1 := relink s k b).
  assert (Hrl1 : rep s1 a l) by (eapply rep_frame; [|exact Hrl]; intros x Hx; apply get_relink, Hdl; done).
  assert (Hrr1 : rep s1 a r) by (eapply rep_frame; [|exact Hrr]; intros x Hx; apply get_relink, Hdr; done).
  rewrite (reparent_op' s1 a l b) by auto with kernel. simpl. set (s2 := reparent s1 l b).
  assert (Hrr2 : rep s2 a r).
  { eapply rep_frame; [|exact Hrr1]. intros x Hx. apply get_reparent. intros Hxl. destruct (Hdl x Hxl) as [H _]. done. }
  rewrite (reparent_op' s2 a r b) by auto with kernel. simpl. set (s3 := reparent s2 r b).
  assert (Hget3 : forall x, x ∉ inorder l -> x ∉ inorder r -> x ∉ ctx_addrs k -> get s3 x = get s x).
  { intros x H1 H2 H3. unfold s3, s2, s1. rewrite !get_reparent, get_relink by done. done. }
  rewrite !Hget3, Hga, Hgb by done. simpl. eexists. split; [done|].
  assert (Hputl : forall x, x ∈ inorder l -> b <> x) by congruence. assert (Hputr : forall x, x ∈ inorder r -> b <> x) by congruence.
  split; unfold addrs in *; simpl in *.
  - rewrite <- (assoc_L (++)) in Hnd |- *. simpl in *. apply NoDup_app in Hnd as (H1 & H2 & H3). apply NoDup_cons in H3 as [_ H3].
    apply NoDup_app. split_and!; [done| |apply NoDup_cons; split; [rewrite not_elem_of_app|]; done].
    intros x Hx [->|Hx']%elem_of_cons; [done|]. apply (H2 x Hx), elem_of_cons. auto.
  - rewrite <- (assoc_L (++)) in Had |- *. simpl in *. apply Forall_app in Had as [H1 H2]. apply Forall_cons_1 in H2 as [_ H2].
    apply Forall_app. split; [done|]. apply Forall_cons. done.
  - split_and!; [apply get_put_eq|..].
    + eapply rep_frame; [|apply (reparent_rep s1 a l b); done]. intros x Hx. rewrite get_put_ne by auto.
      unfold s3. apply get_reparent. intros Hxr. destruct (Hdl x Hx) as [H _]. done.
    + eapply rep_frame; [|apply (reparent_rep s2 a r b); done]. intros x Hx. rewrite get_put_ne by auto. done.
  - apply (rep_ctx_frame s1); [unfold s3, s2; simpl; rewrite !root_reparent; done| |apply (relink_rep _ _ a); done].
    intros x Hx. rewrite get_put_ne by congruence. unfold s3, s2. rewrite !get_reparent; [done| |].
    + intros H. destruct (Hdl x H) as [_ H']. done.
    + intros H. apply (Hdr x H). done.
Qed.
