(* ===== verification/RbSpec.v ===== *)
(** * RbSpec: what the red-black trees promise to their clients

    A tree stands for the sequence of its nodes in order ([rb_models]).  A client finds a null link
    between two neighbours of the sequence ([position]) with a search of its own, links its node there and
    rebalances; the theorems say what happens to the sequence, and that paths stay short. *)

From S2P Require Import Prelude Rbtree RbShape RbInsert RbErase.

(** The store [s] holds a red-black tree whose nodes are [l], in order. *)
Definition rb_models (s : rb_tree) (l : list Z) : Prop :=
  exists t, represents s t /\ red_black t /\ inorder t = l.

(** The null pointer between the nodes [l1] and the nodes [l2]: it is the field [link] of [parent]. *)
Definition position (s : rb_tree) (l1 l2 : list Z) (parent : Z) (link : rb_link) : Prop :=
  exists k, at_focus s k E /\ red_black (plug k E) /\ before k = l1 /\ after k = l2 /\ parent = up k /\ link = link_of k.

Lemma models_nodup s l : rb_models s l -> NoDup l /\ Forall addr_ok l.
Proof.
  intros (t & [Hn Ha _ _] & _ & <-). unfold addrs in *. simpl in *. rewrite app_nil_r in *. done.
Qed.

Lemma models_empty m : rb_models (RbTree 0 m) [].
Proof.
  exists E. split; [|split; [|done]].
  - split; unfold addrs; simpl; [constructor|constructor|done|done].
  - split; [done|]. exists O. done.
Qed.

(** Between two neighbours there is a null link. *)
Lemma around_left k c a sib : before (k ++ [Frame Lft c a sib]) = before k /\
  after (k ++ [Frame Lft c a sib]) = after k ++ a :: inorder sib.
Proof.
  induction k as [|[[] c' a' sib'] k [IH1 IH2]]; simpl; rewrite ?IH1, ?IH2, ?app_nil_r, <- ?(assoc_L (++)); done.
Qed.
Lemma around_right k c a sib : before (k ++ [Frame Rgt c a sib]) = inorder sib ++ a :: before k /\
  after (k ++ [Frame Rgt c a sib]) = after k.
Proof.
  induction k as [|[[] c' a' sib'] k [IH1 IH2]]; simpl; rewrite ?IH1, ?IH2, ?app_nil_r, <- ?(assoc_L (++)); done.
Qed.

Lemma gap_in_tree t l1 l2 : inorder t = l1 ++ l2 -> exists k, t = plug k E /\ before k = l1 /\ after k = l2.
Proof.
  revert l1 l2. induction t as [|c l IHl a r IHr]; simpl; intros l1 l2 Heq.
  { exists []. destruct l1, l2; done. }
  assert (Hleft : forall k, inorder l = l1 ++ k -> l2 = k ++ a :: inorder r ->
      exists k, T c l a r = plug k E /\ before k = l1 /\ after k = l2).
  { intros k Hl ->. destruct (IHl _ _ Hl) as (k' & -> & <- & <-). exists (k' ++ [Frame Lft c a r]).
    rewrite plug_app. split; [done|]. apply around_left. }
  apply app_eq_inv in Heq as [(k & Hl & Hr)|(k & Hl & Hr)]; [apply (Hleft k); done|]. destruct k as [|x k]; simpl in Hr.
  - rewrite app_nil_r in Hl. apply (Hleft []); [rewrite app_nil_r|]; done.
  - injection Hr as <- Hr. destruct (IHr _ _ Hr) as (k' & -> & <- & <-). exists (k' ++ [Frame Rgt c a l]).
    rewrite plug_app. split; [done|]. rewrite Hl. apply around_right.
Qed.

Lemma position_exists s l1 l2 : rb_models s (l1 ++ l2) -> exists parent link, position s l1 l2 parent link.
Proof.
  intros (t & Hr & Hrb & Hin). destruct (gap_in_tree t l1 l2 Hin) as (k & -> & Hb & Ha).
  exists (up k), (link_of k), k. rewrite focus_plug. done.
Qed.

Lemma position_models s l1 l2 parent link : position s l1 l2 parent link -> rb_models s (l1 ++ l2).
Proof.
  intros (k & Hf & Hrb & <- & <- & _). exists (plug k E). rewrite <- focus_plug, inorder_plug. done.
Qed.

Lemma insert_at_position s l1 l2 parent link a : position s l1 l2 parent link -> addr_ok a -> a ∉ l1 ++ l2 ->
  is_Some (get s a) ->
  exists s1 s2, rb_link_node s a parent link = Some s1 /\ rb_insert_color s1 a = Some s2 /\ rb_models s2 (l1 ++ a :: l2).
Proof.
  intros (k & Hf & Hrb & <- & <- & -> & ->) Ha Hna Hs.
  destruct (insert_ok s k a) as (s1 & s2 & t & E1 & E2 & H1 & H2 & H3); try done; [rewrite inorder_plug; done|].
  exists s1, s2. split_and!; try done. exists t. done.
Qed.

Lemma erase_models s l1 a l2 : rb_models s (l1 ++ a :: l2) -> exists s', rb_erase s a = Some s' /\ rb_models s' (l1 ++ l2).
Proof.
  intros Hm. pose proof (models_nodup _ _ Hm) as [Hn _]. destruct Hm as (t & Hr & Hrb & Hin).
  destruct (erase_ok s t a) as (s' & t' & k1 & k2 & E1 & H1 & H2 & H3 & H4); [done|done|rewrite Hin; set_solver|].
  rewrite Hin in H3. apply nodup_split in H3 as [-> ->]; [|done]. exists s'. split; [done|]. exists t'. done.
Qed.

Lemma walk_models s l1 a l2 : rb_models s (l1 ++ a :: l2) ->
  rb_next s a = Some (hd 0 l2) /\ rb_prev s a = Some (default 0 (last l1)).
Proof. intros (t & Hr & _ & Hin). eapply next_prev_ok; done. Qed.

Lemma ends_models s l : rb_models s l -> rb_first s = Some (hd 0 l) /\ rb_last s = Some (default 0 (last l)).
Proof.
  intros (t & Hr & _ & <-). pose proof (focus_fuel _ _ _ Hr) as Hfu. simpl in Hfu.
  destruct Hr as [Hn Ha Ht Hroot]. simpl in Hroot, Ht. unfold addrs in Ha. simpl in Ha. rewrite app_nil_r in Ha.
  unfold rb_first, rb_last. rewrite Hroot, ptr_zero by done. case_bool_decide as Hne; [subst t; done|].
  split; [apply (first_ok s 0)|apply (last_ok s 0)]; done || lia.
Qed.

Lemma replace_models s l1 a l2 b : rb_models s (l1 ++ a :: l2) -> addr_ok b -> b ∉ l1 ++ a :: l2 -> is_Some (get s b) ->
  exists s', rb_replace_node s a b = Some s' /\ rb_models s' (l1 ++ b :: l2).
Proof.
  intros Hm Hb Hnb Hs. pose proof (models_nodup _ _ Hm) as [Hn _]. destruct Hm as (t & Hr & Hrb & Hin).
  assert (Hat : a ∈ inorder t) by (rewrite Hin; set_solver).
  destruct (focus_at _ _ Hat) as (k & c & l & r & ->). pose proof Hr as Hf. rewrite <- focus_plug in Hf.
  destruct (replace_ok s k c l a r b) as (s' & E1 & H1); try done; [rewrite addrs_plug, Hin; done|].
  exists s'. split; [done|]. exists (plug k (T c l b r)). rewrite <- focus_plug. split_and!; [done|..].
  - destruct (rbt_unplug _ _ Hrb) as (n & Hn1 & Hn2). apply (rbt_plug _ _ n); [destruct c; done|done].
  - rewrite inorder_plug in Hin |- *. simpl in Hin |- *. rewrite <- Hin in Hn.
    assert (Heq : (before k ++ inorder l) ++ a :: inorder r ++ after k = l1 ++ a :: l2) by (rewrite <- Hin, <- !(assoc_L (++)); done).
    apply nodup_split in Heq as [<- <-]; [rewrite <- !(assoc_L (++)); done|]. rewrite Heq, <- Hin. done.
Qed.

(** Paths from the root *)
Lemma plug_height k t : (length k + height t <= height (plug k t))%nat.
Proof. revert t. induction k as [|[[] c a sib] k IH]; intros t; simpl; [done|..]; etransitivity; [|apply IH| |apply IH]; simpl; lia. Qed.

Lemma path_bound s k t : at_focus s k t -> red_black (plug k t) ->
  (length k <= 2 * Nat.log2 (S (length (inorder (plug k t)))))%nat.
Proof. intros _ Hrb. pose proof (red_black_height _ Hrb). pose proof (plug_height k t). lia. Qed.

(** The link of a position holds the null pointer. *)
Lemma position_null s l1 l2 parent link : position s l1 l2 parent link -> load_link s link = Some 0.
Proof.
  intros (k & [_ _ _ Hk] & _ & _ & _ & _ & ->). destruct k as [|[d c a sib] k]; simpl in *; [congruence|].
  destruct Hk as (Hg & _). destruct d; simpl; rewrite Hg; done.
Qed.

(** ** A tree to evaluate *)

(** [rb_link_node] and [rb_insert_color] *)
Definition link_insert (s : rb_tree) (a parent : Z) (link : rb_link) : option rb_tree :=
  s ← rb_link_node s a parent link; rb_insert_color s a.

Definition demo_nodes : gmap Z rb_node := list_to_map ((fun a => (a, RbNode 0 0 0)) <$> [16; 32; 48; 64; 80; 96]).
Definition demo_rb : option rb_tree :=
  s ← link_insert (RbTree 0 demo_nodes) 16 0 LinkRoot;
  s ← link_insert s 32 16 (LinkRight 16);
  s ← link_insert s 48 32 (LinkRight 32);
  s ← link_insert s 64 48 (LinkRight 48);
  link_insert s 80 64 (LinkRight 64).
Definition demo_shape : tree := T Black (T Black E 16 E) 32 (T Black (T Red E 48 E) 64 (T Red E 80 E)).

Lemma demo_rb_value : exists s, demo_rb = Some s /\ represents s demo_shape /\ red_black demo_shape /\ is_Some (get s 96).
Proof.
  destruct demo_rb as [s|] eqn:Hs; [|vm_compute in Hs; discriminate]. exists s. vm_compute in Hs. injection Hs as <-.
  split_and!; [done| | |vm_compute; eauto].
  - split; [apply (bool_decide_unpack (NoDup _)); vm_compute; done|apply (bool_decide_unpack (Forall addr_ok _)); vm_compute; done|..].
    + vm_compute. done.
    + done.
  - split; [done|]. exists 2%nat. vm_compute. done.
Qed.

(** ** Theorems *)

(** C18: insertion into a red-black tree of libk/rbtree.c.  In a tree that stands for [l1 ++ l2] there is a null link between
    [l1] and [l2]; when rb_link_node puts a new node there and rb_insert_color rebalances, no dangling pointer is followed, the loops end, the tree is
    red-black again (black root, no red node with a red child, as many black nodes on every path) with parent pointers that agree, and
    it stands for [l1 ++ a :: l2]. *)
Theorem rb_insert_correct s l1 l2 a : rb_models s (l1 ++ l2) -> addr_ok a -> a ∉ l1 ++ l2 -> is_Some (get s a) ->
  (exists parent link, position s l1 l2 parent link) /\
  forall parent link, position s l1 l2 parent link ->
    load_link s link = Some 0 /\
    exists s1 s2, rb_link_node s a parent link = Some s1 /\ rb_insert_color s1 a = Some s2 /\ rb_models s2 (l1 ++ a :: l2).
Proof.
  intros Hm Ha Hna Hs. split; [apply position_exists; done|]. intros parent link Hp.
  split; [eapply position_null; done|apply insert_at_position; done].
Qed.

Lemma rb_insert_correct_witness :
  exists s, rb_models s ([16; 32] ++ [48; 64; 80]) /\ exists s2, rb_models s2 ([16; 32] ++ 96 :: [48; 64; 80]).
Proof.
  destruct demo_rb_value as (s & _ & Hr & Hrb & Hs). exists s.
  assert (Hm : rb_models s ([16; 32] ++ [48; 64; 80])) by (exists demo_shape; done). split; [exact Hm|].
  destruct (rb_insert_correct s [16; 32] [48; 64; 80] 96) as [(p & l & Hp) H].
  - exact Hm.
  - apply (bool_decide_unpack (addr_ok 96)). vm_compute. done.
  - apply (bool_decide_unpack (96 ∉ _)). vm_compute. done.
  - exact Hs.
  - destruct (H p l Hp) as (_ & s1 & s2 & _ & _ & H2). exists s2. exact H2.
Defined.

(** C17: removal from a red-black tree.  rb_erase of any node returns, follows no dangling pointer, and leaves a red-black tree that
    stands for the same sequence without the node; rb_replace_node puts another node in its place. *)
Theorem rb_erase_correct s l1 a l2 : rb_models s (l1 ++ a :: l2) ->
  (exists s', rb_erase s a = Some s' /\ rb_models s' (l1 ++ l2)) /\
  (forall b, addr_ok b -> b ∉ l1 ++ a :: l2 -> is_Some (get s b) ->
     exists s', rb_replace_node s a b = Some s' /\ rb_models s' (l1 ++ b :: l2)).
Proof. intros Hm. split; [apply erase_models; done|]. intros. apply replace_models; done. Qed.

Lemma rb_erase_correct_witness :
  exists s s', rb_models s ([16] ++ 32 :: [48; 64; 80]) /\ rb_erase s 32 = Some s' /\ rb_models s' ([16] ++ [48; 64; 80]).
Proof.
  destruct demo_rb_value as (s & _ & Hr & Hrb & _). exists s.
  assert (Hm : rb_models s ([16] ++ 32 :: [48; 64; 80])) by (exists demo_shape; done).
  destruct (rb_erase_correct s [16] 32 [48; 64; 80] Hm) as [(s' & E1 & H1) _]. exists s'. split; [exact Hm|split; [exact E1|exact H1]].
Defined.

(** traversal of a red-black tree.  rb_first and rb_last return the ends of the sequence that a tree stands for, rb_next and
    rb_prev the neighbours of a node in it, and NULL where there is none. *)
Theorem rb_walk_in_order s l : rb_models s l ->
  rb_first s = Some (hd 0 l) /\ rb_last s = Some (default 0 (last l)) /\
  forall l1 a l2, l = l1 ++ a :: l2 -> rb_next s a = Some (hd 0 l2) /\ rb_prev s a = Some (default 0 (last l1)).
Proof.
  intros Hm. destruct (ends_models _ _ Hm) as [H1 H2]. split_and!; [done..|]. intros l1 a l2 ->. apply walk_models. done.
Qed.

Lemma rb_walk_in_order_witness : exists s, rb_models s [16; 32; 48; 64; 80] /\ rb_first s = Some 16 /\ rb_next s 48 = Some 64 /\ rb_prev s 16 = Some 0.
Proof.
  destruct demo_rb_value as (s & _ & Hr & Hrb & _). exists s.
  assert (Hm : rb_models s [16; 32; 48; 64; 80]) by (exists demo_shape; done).
  destruct (rb_walk_in_order s _ Hm) as (H1 & _ & H). split_and!; [exact Hm|exact H1|..].
  - destruct (H [16; 32] 48 [64; 80] eq_refl) as [H2 _]. exact H2.
  - destruct (H [] 16 [32; 48; 64; 80] eq_refl) as [_ H2]. exact H2.
Defined.
