(* ===== verification/Pmm.v ===== *)
(** * Pmm: the page tables of [kernel/arch/tsar/pmm.c], with [arch-pmm.h] and [mm/pmm.h]

    A virtual address space of the TSAR machine has a directory of 2048 words ([pgdir]), one for 2 MB.  A word is 0, or
    maps a huge page, or points to a table: a page of 512 entries of two words, the attributes and the number of a
    physical page.  Tables are pages of physical memory, kept by number in [tables].  The pages come from
    [kmem_alloc], whose answer is an argument. *)

From S2P Require Import Prelude Bits.

(** ** Constants *)

Definition PMM_PAGE_SHIFT : Z := 12.
Definition PMM_PAGE_SIZE : Z := 0x1000.
Definition PMM_HUGE_PAGE_SHIFT : Z := 21.
Definition PMM_HUGE_PAGE_SIZE : Z := 0x200000.
Definition PMM_HUGE_PAGE_MASK : Z := 0x1FFFFF.

Definition _PMM_BIT_ORDER (x : Z) : Z := Z.shiftl 1 x.
Definition PMM_PRESENT : Z := _PMM_BIT_ORDER 31.
Definition PMM_READ : Z := _PMM_BIT_ORDER 31.
Definition PMM_HUGE : Z := _PMM_BIT_ORDER 30.
Definition MMU_PTD1 : Z := _PMM_BIT_ORDER 30.
Definition PMM_ACCESSED : Z := Z.lor (_PMM_BIT_ORDER 29) (_PMM_BIT_ORDER 28).
Definition PMM_CACHED : Z := _PMM_BIT_ORDER 27.
Definition PMM_WRITE : Z := _PMM_BIT_ORDER 26.
Definition PMM_EXECUTE : Z := _PMM_BIT_ORDER 25.
Definition PMM_USER : Z := _PMM_BIT_ORDER 24.
Definition PMM_GLOBAL : Z := _PMM_BIT_ORDER 23.
Definition PMM_DIRTY : Z := _PMM_BIT_ORDER 22.
Definition PMM_COW : Z := 0x01.
Definition PMM_MIGRATE : Z := 0x02.
Definition PMM_SWAP : Z := 0x04.
Definition PMM_LOCKED : Z := 0x08.
Definition PMM_CLEAR : Z := 0x10.

Definition MMU_PTE_MASK : Z := 0x001FF000.
Definition MMU_PDE_PPN_MASK : Z := 0x0007FFFF.
Definition MMU_PDE_ATTR_MASK : Z := 0xFFC00000.
Definition MMU_PPN_MASK : Z := _PMM_BIT_ORDER 28 - 1.
Definition MMU_PDE (vma : Z) : Z := Z.shiftr vma PMM_HUGE_PAGE_SHIFT.
(** The offset of an entry in its table, in bytes *)
Definition MMU_PTE (vma : Z) : Z := Z.shiftl (Z.shiftr (Z.land vma MMU_PTE_MASK) PMM_PAGE_SHIFT) 3.

Definition CONFIG_KERNEL_OFFSET : Z := 0x80000000.
Definition CONFIG_PPN_BITS_NR : Z := 20.

(** [x & flag] as a condition *)
Definition is_set (x flag : Z) : bool := negb (Z.land x flag =? 0).

Definition pmm_except_isWrite (flags : Z) : bool := Z.land flags 0x1000 =? 0.
Definition pmm_except_isExecute (flags : Z) : bool := is_set flags 0x0010.
Definition pmm_except_isPresent (flags : Z) : bool := is_set flags 0x0003.
Definition pmm_except_isRights (flags : Z) : bool := is_set flags 0x0004.
Definition pmm_except_isInKernelMode (flags : Z) : bool := is_set flags 0x0100.

(** ** Data *)

Record pmm_page_info := PageInfo { attr : Z; ppn : Z }.

(** An address space: its directory, and the pages of physical memory that hold tables *)
Record pmm_s := Pmm { pgdir : list Z; tables : gmap Z (list Z) }.

(** A page of zeros *)
Definition zero_table : list Z := replicate 1024 0.

(** The cluster of a page, for [clstr_nr] clusters *)
Definition pmm_ppn2ppm (clstr_nr ppn : Z) : Z :=
  let clstr_nr := if negb (clstr_nr =? 1) then clstr_nr -! 1 else clstr_nr in
  Z.shiftr ppn (CONFIG_PPN_BITS_NR - bits_nr clstr_nr).

(** ** Operations *)

(** [((uint_t * )((char * )pte + MMU_PTE(vaddr)))[i]] *)
Definition load_pte (pm : pmm_s) (table vaddr i : Z) : option Z :=
  t ← tables pm !! table; zget t (MMU_PTE vaddr / 4 + i).
Definition store_pte (pm : pmm_s) (table vaddr i v : Z) : option pmm_s :=
  t ← tables pm !! table;
  _ ← zget t (MMU_PTE vaddr / 4 + i);
  Some (Pmm (pgdir pm) (<[table := zset t (MMU_PTE vaddr / 4 + i) v]> (tables pm))).

(** The installation of a new table in the null word of the directory.  [alloc] is the answer of [pmm_alloc_pages], a page of zeros; [race] is
    the word that the compare-and-swap finds: 0, or what another processor has put there since it was read.  The result is the error, the state,
    the table to use, and the page given back. *)
Definition install_table (pm : pmm_s) (vaddr : Z) (alloc : option Z) (race : Z) : Z * pmm_s * Z * option Z :=
  match alloc with
  | None => (ENOMEM, pm, 0, None)
  | Some pte_ppn =>
      let tbls := <[pte_ppn := zero_table]> (tables pm) in
      if race =? 0 then
        (0, Pmm (zset (pgdir pm) (MMU_PDE vaddr) (Z.lor (Z.lor PMM_PRESENT MMU_PTD1) pte_ppn)) tbls, pte_ppn, None)
      else
        (0, Pmm (zset (pgdir pm) (MMU_PDE vaddr) race) tbls, Z.land race MMU_PPN_MASK, Some pte_ppn)
  end.

Definition pmm_set_page (pm : pmm_s) (vaddr : Z) (info : pmm_page_info) (alloc : option Z) (race : Z) :
    option (Z * pmm_s * option Z) :=
  pde_val ← zget (pgdir pm) (MMU_PDE vaddr);
  let isHuge := is_set (attr info) PMM_HUGE in
  let '(at', pn) :=
    if is_set (attr info) PMM_CLEAR then ((if isHuge then PMM_HUGE else 0), 0) else (attr info, ppn info) in
  if isHuge then
    if negb (pn =? 0) && (negb (pde_val =? 0) || is_set at' PMM_COW) then Some (EINVAL, pm, None)
    else Some (0, Pmm (zset (pgdir pm) (MMU_PDE vaddr) (Z.lor (Z.lxor at' PMM_HUGE) (Z.shiftr pn 9))) (tables pm), None)
  else
    let '(err, pm, table, freed) :=
      if pde_val =? 0 then install_table pm vaddr alloc race else (0, pm, Z.land pde_val MMU_PPN_MASK, None) in
    if negb (err =? 0) then Some (err, pm, freed) else
    pm ← store_pte pm table vaddr 0 at';
    pm ← store_pte pm table vaddr 1 pn;
    Some (0, pm, freed).

Definition pmm_get_page (pm : pmm_s) (vaddr : Z) : option pmm_page_info :=
  val ← zget (pgdir pm) (MMU_PDE vaddr);
  if negb (is_set val PMM_PRESENT) then Some (PageInfo 0 0)
  else if negb (is_set val PMM_HUGE) then
    Some (PageInfo (Z.lor (Z.land val MMU_PDE_ATTR_MASK) PMM_HUGE)
      (Z.shiftr (Z.lor (Z.land val MMU_PDE_PPN_MASK <<! PMM_HUGE_PAGE_SHIFT) (Z.land vaddr PMM_HUGE_PAGE_MASK)) PMM_PAGE_SHIFT))
  else
    let table := Z.land val MMU_PPN_MASK in
    a ← load_pte pm table vaddr 0;
    p ← load_pte pm table vaddr 1;
    Some (PageInfo a (Z.land p MMU_PPN_MASK)).

(** [pmm_lock_page] up to its loop: the table of the entry *)
Definition lock_table (pm : pmm_s) (vaddr : Z) (alloc : option Z) (race : Z) : option (Z * pmm_s * Z * option Z) :=
  pde_val ← zget (pgdir pm) (MMU_PDE vaddr);
  if negb (pde_val =? 0) && negb (is_set pde_val PMM_HUGE) then Some (EINVAL, pm, 0, None)
  else if pde_val =? 0 then Some (install_table pm vaddr alloc race)
  else Some (0, pm, Z.land pde_val MMU_PPN_MASK, None).

(** [pmm_lock_page], run without interference: an entry of null attributes takes the lock.  The result is the error, the state, what is read
    and whether the caller has the lock. *)
Definition pmm_lock_page (pm : pmm_s) (vaddr : Z) (alloc : option Z) (race : Z) : option (Z * pmm_s * pmm_page_info * bool) :=
  '(err, pm, table, _) ← lock_table pm vaddr alloc race;
  if negb (err =? 0) then Some (err, pm, PageInfo 0 0, false) else
  a ← load_pte pm table vaddr 0;
  pm ← (if a =? 0 then store_pte pm table vaddr 0 (Z.lor a PMM_LOCKED) else Some pm);
  a' ← load_pte pm table vaddr 0;
  p ← load_pte pm table vaddr 1;
  Some (0, pm, PageInfo a' (Z.land p MMU_PPN_MASK), a =? 0).

(** [pmm_unlock_page], run without interference, on the entry at [vaddr] of the table [table] *)
Definition pmm_unlock_page (pm : pmm_s) (table vaddr : Z) : option pmm_s :=
  a ← load_pte pm table vaddr 0;
  if is_set a PMM_LOCKED then store_pte pm table vaddr 0 (Z.land a (~! PMM_LOCKED)) else Some pm.

(** ** Life of an address space *)

(** Copy of the words of the kernel, the upper half of a directory *)
Definition copy_kernel_half (dst src : list Z) : list Z := take 1024 dst ++ drop 1024 src.

(** [pmm_init]: a directory of zeros, with the kernel of the first task.  [boot] is the directory to copy from, for the
    initial task. *)
Definition pmm_init (boot : option (list Z)) (alloc : option Z) : Z * option (list Z * Z) :=
  match alloc with
  | None => (ENOMEM, None)
  | Some ppn =>
      let dir := replicate 2048 0 in
      let dir := match boot with Some src => copy_kernel_half dir src | None => dir end in
      (0, Some (dir, ppn))
  end.

Definition pmm_dup (dst : pmm_s) (src : list Z) : pmm_s := Pmm (copy_kernel_half (pgdir dst) src) (tables dst).

(** [pmm_release]: the words of user space are cleared, and the pages that they name given back, in order. *)
Definition release_page (val : Z) : Z :=
  if is_set val PMM_HUGE then Z.land val MMU_PPN_MASK
  else Z.land val MMU_PDE_PPN_MASK <<! (PMM_HUGE_PAGE_SHIFT - PMM_PAGE_SHIFT).
Fixpoint release_loop (n : nat) (i : Z) (dir : list Z) : option (list Z * list Z) :=
  match n with
  | O => Some (dir, [])
  | S n =>
      val ← zget dir i;
      if negb (val =? 0) && is_set val PMM_PRESENT then
        '(dir, freed) ← release_loop n (i + 1) (zset dir i 0);
        Some (dir, release_page val :: freed)
      else release_loop n (i + 1) dir
  end.
Definition pmm_release (pm : pmm_s) : option (pmm_s * list Z) :=
  '(dir, freed) ← release_loop (Z.to_nat (Z.shiftr CONFIG_KERNEL_OFFSET PMM_HUGE_PAGE_SHIFT)) 0 (pgdir pm);
  Some (Pmm dir (tables pm), freed).

(** ** Regions *)

Definition pmm_region_dup (dst : pmm_s) (src : list Z) (vaddr : Z) : pmm_s :=
  Pmm (take (Z.to_nat (MMU_PDE vaddr)) (pgdir dst) ++ drop (Z.to_nat (MMU_PDE vaddr)) src) (tables dst).

(** [pmm_region_attr_set]: present pages get the attributes [at']. *)
Fixpoint attr_set_loop (count : nat) (pm : pmm_s) (vaddr at' page_size : Z) : option pmm_s :=
  match count with
  | O => Some pm
  | S count =>
      info ← pmm_get_page pm vaddr;
      pm ← (if negb (ppn info =? 0) && is_set (attr info) PMM_PRESENT then
              '(_, pm, _) ← pmm_set_page pm vaddr (PageInfo at' (ppn info)) None 0; Some pm
            else Some pm);
      attr_set_loop count pm (vaddr +! page_size) at' page_size
  end.
Definition pmm_region_attr_set (pm : pmm_s) (vaddr pages_nr at' : Z) : option pmm_s :=
  let page_size := if is_set at' PMM_HUGE then PMM_HUGE_PAGE_SIZE else PMM_PAGE_SIZE in
  attr_set_loop (Z.to_nat pages_nr) pm vaddr at' page_size.
