(* ===== verification/PmmSpec.v ===== *)
(** * PmmSpec: the page tables implement a map from virtual pages to page descriptors *)

From S2P Require Import Prelude Bits Pmm.

(** ** Words *)

Lemma is_set_bit x k : 0 <= k -> is_set x (_PMM_BIT_ORDER k) = Z.testbit x k.
Proof.
  intros Hk. unfold is_set, _PMM_BIT_ORDER. destruct (Z.testbit x k) eqn:Hb.
  - apply negb_true_iff, Z.eqb_neq. intros H0. assert (Hc : Z.testbit (Z.land x (Z.shiftl 1 k)) k = true).
    { rewrite Z.land_spec, Hb, testbit_one_shift, Z.eqb_refl by lia. done. }
    rewrite H0, Z.bits_0 in Hc. done.
  - apply negb_false_iff, Z.eqb_eq. apply Z.bits_inj'. intros n Hn. rewrite Z.land_spec, testbit_one_shift, Z.bits_0 by lia.
    destruct (Z.eqb_spec n k); subst; [rewrite Hb|rewrite andb_false_r]; done.
Qed.

Lemma ppn_mask x : 0 <= x -> Z.land x MMU_PPN_MASK = x mod 2 ^ 28.
Proof. intros. change MMU_PPN_MASK with (Z.ones 28). apply Z.land_ones. lia. Qed.
Lemma ppn_small x : 0 <= x < 2 ^ 28 -> Z.land x MMU_PPN_MASK = x.
Proof. intros. rewrite ppn_mask, Z.mod_small by lia. done. Qed.

(** The word that points to the table [p] *)
Lemma table_word p : 0 <= p < 2 ^ 28 ->
  let w := Z.lor (Z.lor PMM_PRESENT MMU_PTD1) p in
  w <> 0 /\ Z.testbit w 31 = true /\ Z.testbit w 30 = true /\ Z.land w MMU_PPN_MASK = p.
Proof.
  intros Hp w. assert (H31 : Z.testbit w 31 = true) by (unfold w; rewrite !Z.lor_spec; done).
  split_and!; [intros H0; rewrite H0, Z.bits_0 in H31; done|done|unfold w; rewrite !Z.lor_spec; done|].
  unfold w. rewrite Z.land_lor_distr_l, (ppn_small p) by done.
  change (Z.land (Z.lor PMM_PRESENT MMU_PTD1) MMU_PPN_MASK) with 0. apply Z.lor_0_l.
Qed.

(** The page, and the places of its words in the directory and in the table *)
Definition vpn (vaddr : Z) : Z := Z.shiftr vaddr PMM_PAGE_SHIFT.
Definition slot (vaddr : Z) : Z := 2 * (vpn vaddr mod 512).

Lemma vpn_bound vaddr : is_u32 vaddr -> 0 <= vpn vaddr < 2 ^ 20.
Proof.
  intros [H0 H1]. unfold vpn, PMM_PAGE_SHIFT. rewrite Z.shiftr_div_pow2 by lia. split; [apply Z.div_pos; lia|].
  apply Z.div_lt_upper_bound; lia.
Qed.
Lemma pde_vpn vaddr : MMU_PDE vaddr = vpn vaddr / 512.
Proof.
  unfold MMU_PDE, vpn, PMM_HUGE_PAGE_SHIFT, PMM_PAGE_SHIFT. rewrite !Z.shiftr_div_pow2, Z.div_div by lia. done.
Qed.
Lemma pde_bound vaddr : is_u32 vaddr -> 0 <= MMU_PDE vaddr < 2048.
Proof.
  intros Hv. pose proof (vpn_bound _ Hv). rewrite pde_vpn. split; [apply Z.div_pos; lia|apply Z.div_lt_upper_bound; lia].
Qed.
Lemma pte_slot vaddr : MMU_PTE vaddr / 4 = slot vaddr.
Proof.
  unfold MMU_PTE, slot. rewrite Z.shiftl_mul_pow2 by lia. rewrite Z.shiftr_land. change (Z.shiftr MMU_PTE_MASK PMM_PAGE_SHIFT) with (Z.ones 9).
  fold (vpn vaddr). rewrite Z.land_ones by lia. change (2 ^ 9) with 512. change (2 ^ 3) with (2 * 4).
  rewrite Z.mul_assoc, Z.div_mul by lia. lia.
Qed.
Lemma slot_bound vaddr : 0 <= slot vaddr <= 1022.
Proof. unfold slot. pose proof (Z.mod_pos_bound (vpn vaddr) 512). lia. Qed.

(** Two addresses have the same words exactly when they are in the same page. *)
Lemma same_page v v' : vpn v = vpn v' <-> MMU_PDE v = MMU_PDE v' /\ slot v = slot v'.
Proof.
  rewrite !pde_vpn. unfold slot. split; [intros ->; done|]. intros [H1 H2].
  rewrite (Z.div_mod (vpn v) 512), (Z.div_mod (vpn v') 512) by lia. lia.
Qed.

(** ** Invariant *)

(** The word [v] of a directory points to a table. *)
Definition to_table (v : Z) : Prop := Z.testbit v 31 = true /\ Z.testbit v 30 = true.

Lemma zero_to_table : ~ to_table 0.
Proof. intros [H _]. done. Qed.

Record pmm_wf (pm : pmm_s) : Prop := {
  wf_len : zlen (pgdir pm) = 2048;
  wf_word : forall i v, 0 <= i -> zget (pgdir pm) i = Some v -> v = 0 \/ Z.testbit v 31 = true;
  wf_table : forall i v, 0 <= i -> zget (pgdir pm) i = Some v -> to_table v ->
    exists t, tables pm !! Z.land v MMU_PPN_MASK = Some t /\ zlen t = 1024;
  wf_own : forall i j v w, 0 <= i -> 0 <= j -> zget (pgdir pm) i = Some v -> zget (pgdir pm) j = Some w ->
    to_table v -> to_table w -> Z.land v MMU_PPN_MASK = Z.land w MMU_PPN_MASK -> i = j;
}.

(** A page that no word of the directory uses as a table *)
Definition not_a_table (pm : pmm_s) (p : Z) : Prop :=
  forall i v, 0 <= i -> zget (pgdir pm) i = Some v -> to_table v -> Z.land v MMU_PPN_MASK <> p.

(** ** Reading *)

Section Reading.
Context (pm : pmm_s) (vaddr : Z).

Lemma get_unmapped : zget (pgdir pm) (MMU_PDE vaddr) = Some 0 -> pmm_get_page pm vaddr = Some (PageInfo 0 0).
Proof. intros Hv. unfold pmm_get_page. rewrite Hv. done. Qed.

Lemma get_table v t : zget (pgdir pm) (MMU_PDE vaddr) = Some v -> to_table v ->
  tables pm !! Z.land v MMU_PPN_MASK = Some t ->
  pmm_get_page pm vaddr =
    (a ← zget t (slot vaddr); p ← zget t (slot vaddr + 1); Some (PageInfo a (Z.land p MMU_PPN_MASK))).
Proof.
  intros Hv [H31 H30] Ht. unfold pmm_get_page. rewrite Hv. simpl. unfold PMM_PRESENT, PMM_HUGE.
  rewrite !is_set_bit, H31, H30 by lia. simpl. unfold load_pte. rewrite Ht. simpl. rewrite pte_slot, Z.add_0_r. done.
Qed.
End Reading.

(** Reading depends on the word of the directory and on the table it points to. *)
Lemma get_frame pm pm' vaddr v : zget (pgdir pm) (MMU_PDE vaddr) = Some v -> zget (pgdir pm') (MMU_PDE vaddr) = Some v ->
  (to_table v -> tables pm' !! Z.land v MMU_PPN_MASK = tables pm !! Z.land v MMU_PPN_MASK) ->
  pmm_get_page pm' vaddr = pmm_get_page pm vaddr.
Proof.
  intros Hv Hv' Ht. unfold pmm_get_page. rewrite Hv, Hv'. simpl. unfold PMM_PRESENT, PMM_HUGE. rewrite !is_set_bit by lia.
  destruct (Z.testbit v 31) eqn:H31, (Z.testbit v 30) eqn:H30; simpl; [|done..]. unfold load_pte. rewrite Ht by done. done.
Qed.

(** ** Writing an entry *)

Lemma zget_zset_pair {A} (t : list A) i a b j : 0 <= i -> i + 1 < zlen t -> 0 <= j ->
  zget (zset (zset t i a) (i + 1) b) j = if j =? i then Some a else if j =? i + 1 then Some b else zget t j.
Proof.
  intros Hi Hl Hj. destruct (Z.eqb_spec j i) as [->|H1].
  { rewrite zget_zset_ne, zget_zset_eq by lia. done. }
  destruct (Z.eqb_spec j (i + 1)) as [->|H2].
  - rewrite zget_zset_eq by (rewrite zlen_zset; lia). done.
  - rewrite !zget_zset_ne by lia. done.
Qed.

(** The two stores of [pmm_set_page] into a table *)
Lemma store_entry pm table vaddr t a p : tables pm !! table = Some t -> zlen t = 1024 ->
  exists t', zlen t' = 1024 /\
    (pm ← store_pte pm table vaddr 0 a; store_pte pm table vaddr 1 p) = Some (Pmm (pgdir pm) (<[table := t']> (tables pm))) /\
    forall j, 0 <= j -> zget t' j = if j =? slot vaddr then Some a else if j =? slot vaddr + 1 then Some p else zget t j.
Proof.
  intros Ht Hl. pose proof (slot_bound vaddr) as Hs. exists (zset (zset t (slot vaddr) a) (slot vaddr + 1) p).
  split; [rewrite !zlen_zset; done|]. split; [|intros; apply zget_zset_pair; lia].
  unfold store_pte. rewrite Ht, pte_slot, Z.add_0_r. simpl.
  destruct (zget_is_Some t (slot vaddr)) as [x ->]; [lia|]. simpl. rewrite lookup_insert_eq. simpl. rewrite ?pte_slot.
  destruct (zget_is_Some (zset t (slot vaddr) a) (slot vaddr + 1)) as [y ->]; [rewrite zlen_zset; lia|]. simpl.
  rewrite insert_insert_eq. done.
Qed.

(** An address space after the entry of [vaddr] changed in its table *)
Lemma entry_written pm vaddr v t' a p : pmm_wf pm -> is_u32 vaddr -> zget (pgdir pm) (MMU_PDE vaddr) = Some v -> to_table v ->
  zlen t' = 1024 ->
  (forall t, tables pm !! Z.land v MMU_PPN_MASK = Some t ->
     forall j, 0 <= j -> zget t' j = if j =? slot vaddr then Some a else if j =? slot vaddr + 1 then Some p else zget t j) ->
  let pm' := Pmm (pgdir pm) (<[Z.land v MMU_PPN_MASK := t']> (tables pm)) in
  pmm_wf pm' /\
  forall u, is_u32 u -> pmm_get_page pm' u = if vpn u =? vpn vaddr then Some (PageInfo a (Z.land p MMU_PPN_MASK)) else pmm_get_page pm u.
Proof.
  intros Hwf Hva Hv Htab Hl Ht' pm'. pose proof (pde_bound _ Hva) as Hpde. pose proof Hwf as [Hlen Hw Htb Hown].
  destruct (Htb _ _ (proj1 Hpde) Hv Htab) as (t & Ht & Htl). specialize (Ht' t Ht). split.
  - split; simpl; try done. intros i w Hi Hgi Hti. destruct (decide (Z.land w MMU_PPN_MASK = Z.land v MMU_PPN_MASK)) as [->|Hne].
    + rewrite lookup_insert_eq. eauto.
    + rewrite lookup_insert_ne by done. eapply Htb; done.
  - intros u Hu. pose proof (pde_bound _ Hu) as Hpu. pose proof (slot_bound u). pose proof (slot_bound vaddr).
    destruct (zget_is_Some (pgdir pm) (MMU_PDE u)) as [w Hgw]; [lia|].
    destruct (decide (MMU_PDE u = MMU_PDE vaddr)) as [Heq|Hne].
    + assert (w = v) as -> by (rewrite Heq in Hgw; congruence).
      rewrite (get_table pm' u v t') by (try done; simpl; apply lookup_insert_eq).
      rewrite (get_table pm u v t) by done. rewrite !Ht' by lia.
      destruct (Z.eqb_spec (vpn u) (vpn vaddr)) as [Hvp|Hvp].
      * apply same_page in Hvp as [_ ->]. rewrite Z.eqb_refl. destruct (Z.eqb_spec (slot vaddr + 1) (slot vaddr)); [lia|].
        rewrite Z.eqb_refl. done.
      * assert (slot u <> slot vaddr) by (intros Hs; apply Hvp, same_page; done).
        assert (Hodd : slot u + 1 <> slot vaddr /\ slot u <> slot vaddr + 1) by (unfold slot; lia).
        destruct (Z.eqb_spec (slot u) (slot vaddr)), (Z.eqb_spec (slot u) (slot vaddr + 1)), (Z.eqb_spec (slot u + 1) (slot vaddr)),
          (Z.eqb_spec (slot u + 1) (slot vaddr + 1)); try lia. done.
    + destruct (Z.eqb_spec (vpn u) (vpn vaddr)) as [Hvp|Hvp]; [apply same_page in Hvp as [? _]; done|].
      apply (get_frame pm pm' u w); [done|done|]. intros Htw. simpl. apply lookup_insert_ne. intros Hpp.
      apply Hne. symmetry. apply (Hown _ _ v w); try done; lia.
Qed.

(** ** Installing a table *)

Lemma zero_table_get j : 0 <= j < 1024 -> zget zero_table j = Some 0.
Proof. intros. unfold zget, zero_table. rewrite lookup_replicate_2; [done|lia]. Qed.

Lemma table_installed pm vaddr p : pmm_wf pm -> is_u32 vaddr -> zget (pgdir pm) (MMU_PDE vaddr) = Some 0 ->
  0 <= p < 2 ^ 28 -> not_a_table pm p ->
  let w := Z.lor (Z.lor PMM_PRESENT MMU_PTD1) p in
  let pm' := Pmm (zset (pgdir pm) (MMU_PDE vaddr) w) (<[p := zero_table]> (tables pm)) in
  pmm_wf pm' /\ zget (pgdir pm') (MMU_PDE vaddr) = Some w /\
  forall u, is_u32 u -> pmm_get_page pm' u = pmm_get_page pm u.
Proof.
  intros Hwf Hva Hv Hp Hfresh w pm'. pose proof (pde_bound _ Hva) as Hpde. pose proof Hwf as [Hlen Hw Htb Hown].
  destruct (table_word p Hp) as (Hw0 & H31 & H30 & Hmask). fold w in Hw0, H31, H30, Hmask.
  assert (Hget : forall i, 0 <= i -> zget (pgdir pm') i = if i =? MMU_PDE vaddr then Some w else zget (pgdir pm) i).
  { intros i Hi. simpl. destruct (Z.eqb_spec i (MMU_PDE vaddr)) as [->|]; [apply zget_zset_eq; lia|apply zget_zset_ne; lia]. }
  assert (Htw : zget (pgdir pm') (MMU_PDE vaddr) = Some w) by (rewrite Hget, Z.eqb_refl by lia; done).
  assert (Hother : forall i v, 0 <= i -> i <> MMU_PDE vaddr -> zget (pgdir pm) i = Some v -> to_table v ->
     tables pm' !! Z.land v MMU_PPN_MASK = tables pm !! Z.land v MMU_PPN_MASK).
  { intros i v Hi Hne Hgi Hti. simpl. apply lookup_insert_ne. intros Heq. apply (Hfresh i v Hi Hgi Hti). done. }
  split; [|split; [done|]].
  - split.
    + simpl. rewrite zlen_zset. done.
    + intros i v Hi. rewrite Hget by done. destruct (Z.eqb_spec i (MMU_PDE vaddr)); [intros [= <-]; auto|apply Hw; done].
    + intros i v Hi. rewrite Hget by done. destruct (Z.eqb_spec i (MMU_PDE vaddr)) as [->|Hne].
      * intros [= <-] _. exists zero_table. rewrite Hmask. simpl. rewrite lookup_insert_eq. done.
      * intros Hgi Hti. rewrite (Hother i v) by done. eapply Htb; done.
    + intros i j v u Hi Hj. rewrite !Hget by done.
      destruct (Z.eqb_spec i (MMU_PDE vaddr)) as [->|Hni], (Z.eqb_spec j (MMU_PDE vaddr)) as [->|Hnj]; [done|..].
      * intros [= <-] Hgj _ Htj Heq. exfalso. apply (Hfresh j u Hj Hgj Htj). congruence.
      * intros Hgi [= <-] Hti _ Heq. exfalso. apply (Hfresh i v Hi Hgi Hti). congruence.
      * apply Hown; done.
  - intros u Hu. pose proof (pde_bound _ Hu) as Hpu. destruct (decide (MMU_PDE u = MMU_PDE vaddr)) as [Heq|Hne].
    + pose proof (slot_bound u). rewrite (get_unmapped pm u) by (rewrite Heq; done).
      rewrite (get_table pm' u w zero_table); [|rewrite Heq; done|done|rewrite Hmask; simpl; apply lookup_insert_eq].
      rewrite !zero_table_get by lia. done.
    + destruct (zget_is_Some (pgdir pm) (MMU_PDE u)) as [v Hgv]; [lia|].
      apply (get_frame pm pm' u v); [done| |intros; apply (Hother (MMU_PDE u)); done || lia].
      rewrite Hget by lia. destruct (Z.eqb_spec (MMU_PDE u) (MMU_PDE vaddr)); done.
Qed.

(** ** Setting a page *)

(** The descriptor that [pmm_set_page] stores: [PMM_CLEAR] asks for an empty one. *)
Definition stored (info : pmm_page_info) : pmm_page_info :=
  if is_set (attr info) PMM_CLEAR then PageInfo 0 0 else info.

(** [vaddr] is not mapped by a huge page. *)
Definition small_slot (pm : pmm_s) (vaddr : Z) : Prop :=
  exists v, zget (pgdir pm) (MMU_PDE vaddr) = Some v /\ (v = 0 \/ to_table v).

Lemma set_small pm vaddr info alloc : pmm_wf pm -> is_u32 vaddr -> is_set (attr info) PMM_HUGE = false ->
  0 <= ppn info < 2 ^ 28 -> small_slot pm vaddr -> (forall p, alloc = Some p -> 0 <= p < 2 ^ 28 /\ not_a_table pm p) ->
  (zget (pgdir pm) (MMU_PDE vaddr) = Some 0 /\ alloc = None /\ pmm_set_page pm vaddr info alloc 0 = Some (ENOMEM, pm, None)) \/
  exists pm', pmm_set_page pm vaddr info alloc 0 = Some (0, pm', None) /\ pmm_wf pm' /\ small_slot pm' vaddr /\
    forall u, is_u32 u -> pmm_get_page pm' u = if vpn u =? vpn vaddr then Some (stored info) else pmm_get_page pm u.
Proof.
  intros Hwf Hva Hnh Hpp (v & Hv & Hkind) Halloc. pose proof (pde_bound _ Hva) as Hpde.
  unfold pmm_set_page. rewrite Hv. simpl. rewrite Hnh.
  set (a := attr (stored info)). set (p := ppn (stored info)).
  assert (Epair : (if is_set (attr info) PMM_CLEAR then (0, 0) else (attr info, ppn info)) = (a, p))
    by (unfold a, p, stored; destruct (is_set (attr info) PMM_CLEAR); done).
  assert (Estored : PageInfo a p = stored info) by (unfold a, p; destruct (stored info); done).
  assert (Hp : 0 <= p < 2 ^ 28) by (unfold p, stored; destruct (is_set (attr info) PMM_CLEAR); simpl; lia).
  rewrite Epair. clearbody a p.
  (* the stores, once the word of the directory points to a table *)
  assert (Hstore : forall pm1 w freed, pmm_wf pm1 -> zget (pgdir pm1) (MMU_PDE vaddr) = Some w -> to_table w ->
     exists pm', (pm ← store_pte pm1 (Z.land w MMU_PPN_MASK) vaddr 0 a; pm ← store_pte pm (Z.land w MMU_PPN_MASK) vaddr 1 p;
        Some (0, pm, freed : option Z)) = Some (0, pm', freed) /\ pmm_wf pm' /\ small_slot pm' vaddr /\
       forall u, is_u32 u -> pmm_get_page pm' u = if vpn u =? vpn vaddr then Some (stored info) else pmm_get_page pm1 u).
  { intros pm1 w freed Hwf1 Hw Htw. destruct (wf_table _ Hwf1 _ _ (proj1 Hpde) Hw Htw) as (t & Ht & Htl).
    destruct (store_entry pm1 (Z.land w MMU_PPN_MASK) vaddr t a p Ht Htl) as (t' & Htl' & Hst & Hj).
    destruct (entry_written pm1 vaddr w t' a p) as [Hwf' Hget']; try done; [intros t0 Ht0; rewrite Ht in Ht0; injection Ht0 as <-; done|].
    exists (Pmm (pgdir pm1) (<[Z.land w MMU_PPN_MASK := t']> (tables pm1))). split_and!.
    - destruct (store_pte pm1 _ _ _ _) as [pm2|]; [|done]. simpl in *. rewrite Hst. done.
    - done.
    - exists w. auto.
    - intros u Hu. rewrite <- Estored, <- (ppn_small p) by done. apply Hget'. done. }
  destruct (Z.eqb_spec v 0) as [->|Hv0].
  - destruct alloc as [q|]; [|left; done]. right. destruct (Halloc q eq_refl) as [Hq Hfresh]. simpl.
    destruct (table_installed pm vaddr q) as (Hwf1 & Hw1 & Hget1); try done.
    destruct (table_word q Hq) as (_ & H31 & H30 & Hmask).
    destruct (Hstore _ _ None Hwf1 Hw1 (conj H31 H30)) as (pm' & E1 & Hwf' & Hs' & Hget'). rewrite Hmask in E1.
    exists pm'. split_and!; try done. intros u Hu. rewrite Hget' by done. rewrite Hget1 by done. done.
  - right. destruct Hkind as [|Htv]; [done|]. destruct (Hstore pm v None Hwf Hv Htv) as (pm' & E1 & H1). exists pm'. simpl. done.
Qed.

(** When another processor installs a table first, the page is given back and its table is used. *)
Lemma set_raced pm vaddr info p r : zget (pgdir pm) (MMU_PDE vaddr) = Some 0 -> is_u32 vaddr -> zlen (pgdir pm) = 2048 -> r <> 0 ->
  is_set (attr info) PMM_HUGE = false ->
  pmm_set_page pm vaddr info (Some p) r =
    ('(err, pm', _) ← pmm_set_page (Pmm (zset (pgdir pm) (MMU_PDE vaddr) r) (<[p := zero_table]> (tables pm))) vaddr info None 0;
     Some (err, pm', Some p)).
Proof.
  intros Hv Hva Hl Hr Hnh. pose proof (pde_bound _ Hva). unfold pmm_set_page. rewrite Hv. simpl.
  rewrite zget_zset_eq by lia. simpl. rewrite Hnh. destruct (if is_set (attr info) PMM_CLEAR then _ else _) as [a q].
  destruct (Z.eqb_spec r 0); [done|]. simpl. destruct (store_pte _ _ _ 0 a) as [pm1|]; [|done]. simpl.
  destruct (store_pte pm1 _ _ 1 q) as [pm2|]; done.
Qed.

(** ** Huge pages *)

(** Attributes that the word of a directory can hold *)
Definition pde_attr (a : Z) : Prop := Z.land a MMU_PDE_ATTR_MASK = a.

Lemma attr_mask_bits n : 0 <= n -> Z.testbit MMU_PDE_ATTR_MASK n = (22 <=? n) && (n <? 32).
Proof.
  intros Hn. change MMU_PDE_ATTR_MASK with (Z.shiftl (Z.ones 10) 22). rewrite Z.shiftl_spec by lia.
  destruct (Z.leb_spec 22 n); [|rewrite Z.testbit_neg_r by lia; done]. simpl.
  destruct (Z.ltb_spec n 32); [apply Z.ones_spec_low|apply Z.ones_spec_high]; lia.
Qed.
Lemma pde_attr_bits a n : pde_attr a -> 0 <= n -> (n < 22 \/ 32 <= n) -> Z.testbit a n = false.
Proof.
  intros Ha Hn Hr. rewrite <- Ha, Z.land_spec, attr_mask_bits by done.
  destruct (Z.leb_spec 22 n), (Z.ltb_spec n 32); try lia; rewrite ?andb_false_r; done.
Qed.
Lemma huge_bits n : 0 <= n -> Z.testbit PMM_HUGE n = (n =? 30).
Proof. intros. apply testbit_one_shift; lia. Qed.

(** The word of a huge page: its attributes and the number of its frame *)
Lemma huge_word a f : pde_attr a -> Z.testbit a 30 = true -> 0 <= f < 2 ^ 11 ->
  let w := Z.lor (Z.lxor a PMM_HUGE) f in
  Z.testbit w 30 = false /\ Z.testbit w 31 = Z.testbit a 31 /\
  Z.lor (Z.land w MMU_PDE_ATTR_MASK) PMM_HUGE = a /\ Z.land w MMU_PDE_PPN_MASK = f.
Proof.
  intros Ha H30 Hf w.
  assert (Hfb : forall n, 11 <= n -> Z.testbit f n = false).
  { intros n Hn. rewrite <- (Z.mod_small f (2 ^ 11)) by lia. apply Z.mod_pow2_bits_high. lia. }
  assert (Hw : forall n, 0 <= n -> Z.testbit w n = xorb (Z.testbit a n) (n =? 30) || Z.testbit f n).
  { intros n Hn. unfold w. rewrite Z.lor_spec, Z.lxor_spec, huge_bits by done. done. }
  split_and!.
  - rewrite Hw, H30, Hfb by lia. done.
  - rewrite Hw, Hfb, orb_false_r by lia. destruct (Z.testbit a 31); done.
  - apply Z.bits_inj'. intros n Hn. rewrite Z.lor_spec, Z.land_spec, Hw, attr_mask_bits, huge_bits by done.
    destruct (Z.eqb_spec n 30) as [->|]; [rewrite H30, Hfb by lia; done|].
    destruct (Z.leb_spec 22 n), (Z.ltb_spec n 32); simpl; rewrite ?andb_false_r, ?andb_true_r; try rewrite (pde_attr_bits a n) by (done || lia); try done.
    rewrite Hfb by lia. destruct (Z.testbit a n); done.
  - change MMU_PDE_PPN_MASK with (Z.ones 19). rewrite <- (Z.mod_small f (2 ^ 19)) by lia. rewrite <- Z.land_ones by lia.
    apply Z.bits_inj'. intros n Hn. rewrite !Z.land_spec, Hw by done.
    destruct (Z.ltb_spec n 19); [|rewrite Z.ones_spec_high by lia; rewrite !andb_false_r; done].
    rewrite (pde_attr_bits a n) by (done || lia). destruct (Z.eqb_spec n 30); [lia|]. done.
Qed.

Lemma get_huge pm vaddr a f : zget (pgdir pm) (MMU_PDE vaddr) = Some (Z.lor (Z.lxor a PMM_HUGE) f) -> is_u32 vaddr ->
  pde_attr a -> Z.testbit a 30 = true -> Z.testbit a 31 = true -> 0 <= f < 2 ^ 11 ->
  pmm_get_page pm vaddr = Some (PageInfo a (f * 512 + vpn vaddr mod 512)).
Proof.
  intros Hv Hva Ha H30 H31 Hf. destruct (huge_word a f Ha H30 Hf) as (W30 & W31 & Wa & Wp).
  unfold pmm_get_page. rewrite Hv. simpl. set (w := Z.lor (Z.lxor a PMM_HUGE) f) in *.
  assert (is_set w PMM_PRESENT = true) as -> by (unfold PMM_PRESENT; rewrite is_set_bit by lia; congruence).
  assert (is_set w PMM_HUGE = false) as -> by (unfold PMM_HUGE; rewrite is_set_bit by lia; congruence).
  cbn [negb]. rewrite Wa, Wp. do 2 f_equal. change PMM_HUGE_PAGE_MASK with (Z.ones 21).
  rewrite Z.land_ones, u32_small by (try lia; rewrite Z.shiftl_mul_pow2 by (unfold PMM_HUGE_PAGE_SHIFT; lia); unfold is_u32, PMM_HUGE_PAGE_SHIFT; lia).
  unfold PMM_HUGE_PAGE_SHIFT, PMM_PAGE_SHIFT. rewrite Z.shiftr_lor, Z.shiftr_shiftl_l by lia. change (21 - 12) with 9.
  replace (Z.shiftr (vaddr mod 2 ^ 21) 12) with (vpn vaddr mod 512).
  2: { unfold vpn, PMM_PAGE_SHIFT. rewrite !Z.shiftr_div_pow2 by lia. change 512 with (2 ^ 9). change (2 ^ 21) with (2 ^ 12 * 2 ^ 9).
    rewrite Z.rem_mul_r by lia. rewrite Z.add_comm, (Z.mul_comm (2 ^ 12)), Z.div_add_l by lia.
    rewrite (Z.div_small (vaddr mod 2 ^ 12)) by (apply Z.mod_pos_bound; lia). lia. }
  rewrite Z.shiftl_mul_pow2 by lia. change (2 ^ 9) with 512. pose proof (Z.mod_pos_bound (vpn vaddr) 512).
  rewrite <- Z.add_lor_land. replace (Z.land (f * 512) (vpn vaddr mod 512)) with 0; [lia|]. symmetry.
  change 512 with (2 ^ 9). rewrite <- Z.shiftl_mul_pow2 by lia. apply Z.bits_inj'. intros n Hn. rewrite Z.land_spec, Z.bits_0.
  destruct (Z.ltb_spec n 9); [rewrite Z.shiftl_spec_low by lia; done|rewrite Z.mod_pow2_bits_high by lia; apply andb_false_r].
Qed.

Lemma set_huge pm vaddr info alloc race : pmm_wf pm -> is_u32 vaddr -> pde_attr (attr info) ->
  Z.testbit (attr info) 30 = true -> Z.testbit (attr info) 31 = true -> 0 < ppn info < 2 ^ 20 ->
  forall v, zget (pgdir pm) (MMU_PDE vaddr) = Some v ->
  (v <> 0 -> pmm_set_page pm vaddr info alloc race = Some (EINVAL, pm, None)) /\
  (v = 0 -> exists pm', pmm_set_page pm vaddr info alloc race = Some (0, pm', None) /\ pmm_wf pm' /\
    forall u, is_u32 u -> pmm_get_page pm' u =
      if MMU_PDE u =? MMU_PDE vaddr then Some (PageInfo (attr info) (ppn info / 512 * 512 + vpn u mod 512)) else pmm_get_page pm u).
Proof.
  intros Hwf Hva Ha H30 H31 Hp v Hv. pose proof (pde_bound _ Hva) as Hpde. unfold pmm_set_page. rewrite Hv. cbn [mbind option_bind].
  assert (Eh : is_set (attr info) PMM_HUGE = true) by (unfold PMM_HUGE; rewrite is_set_bit by lia; done).
  assert (Ec : is_set (attr info) PMM_CLEAR = false).
  { change PMM_CLEAR with (_PMM_BIT_ORDER 4). rewrite is_set_bit by lia. apply pde_attr_bits; done || lia. }
  assert (Eo : is_set (attr info) PMM_COW = false).
  { change PMM_COW with (_PMM_BIT_ORDER 0). rewrite is_set_bit by lia. apply pde_attr_bits; done || lia. }
  rewrite Eh, Ec, Eo. destruct (Z.eqb_spec (ppn info) 0); [lia|]. rewrite orb_false_r. split.
  { intros Hv0. destruct (Z.eqb_spec v 0); done. }
  intros ->. change (negb (0 =? 0)) with false. cbn [negb andb]. rewrite Z.shiftr_div_pow2 by lia. change (2 ^ 9) with 512. set (f := ppn info / 512).
  assert (Hf : 0 <= f < 2 ^ 11) by (unfold f; split; [apply Z.div_pos; lia|apply Z.div_lt_upper_bound; lia]).
  set (w := Z.lor (Z.lxor (attr info) PMM_HUGE) f). destruct (huge_word (attr info) f Ha H30 Hf) as (W30 & W31 & _). fold w in W30, W31.
  set (pm' := Pmm (zset (pgdir pm) (MMU_PDE vaddr) w) (tables pm)). exists pm'. split; [done|]. pose proof Hwf as [Hlen Hw Htb Hown].
  assert (Hget : forall i, 0 <= i -> zget (pgdir pm') i = if i =? MMU_PDE vaddr then Some w else zget (pgdir pm) i).
  { intros i Hi. simpl. destruct (Z.eqb_spec i (MMU_PDE vaddr)) as [->|]; [apply zget_zset_eq; lia|apply zget_zset_ne; lia]. }
  assert (Hnt : ~ to_table w) by (intros [_ H]; congruence). split.
  - split.
    + simpl. rewrite zlen_zset. done.
    + intros i u Hi. rewrite Hget by done. destruct (i =? MMU_PDE vaddr); [|apply Hw; done]. intros [= <-]. right. congruence.
    + intros i u Hi. rewrite Hget by done. destruct (i =? MMU_PDE vaddr); [intros [= <-]; done|apply Htb; done].
    + intros i j u u' Hi Hj. rewrite !Hget by done. destruct (i =? MMU_PDE vaddr); [intros [= <-]; done|].
      destruct (j =? MMU_PDE vaddr); [intros _ [= <-]; done|apply Hown; done].
  - intros u Hu. pose proof (pde_bound _ Hu). destruct (Z.eqb_spec (MMU_PDE u) (MMU_PDE vaddr)) as [Heq|Hne].
    + apply get_huge; try done. rewrite Hget, Heq, Z.eqb_refl by lia. done.
    + destruct (zget_is_Some (pgdir pm) (MMU_PDE u)) as [x Hx]; [lia|]. apply (get_frame pm pm' u x); [done| |done].
      rewrite Hget by lia. destruct (Z.eqb_spec (MMU_PDE u) (MMU_PDE vaddr)); done.
Qed.

(** ** Release of user space *)

Lemma release_words_ok n i dir : 0 <= i -> i + Z.of_nat n <= zlen dir ->
  (forall j v, i <= j < i + Z.of_nat n -> zget dir j = Some v -> v = 0 \/ Z.testbit v 31 = true) ->
  exists dir', release_loop n i dir = Some (dir', release_page <$> filter (fun v => v <> 0) (take n (drop (Z.to_nat i) dir))) /\
    zlen dir' = zlen dir /\
    forall j, 0 <= j -> zget dir' j = if (i <=? j) && (j <? i + Z.of_nat n) then Some 0 else zget dir j.
Proof.
  revert i dir. induction n as [|n IH]; intros i dir Hi Hl Hw.
  { exists dir. split_and!; [done|done|]. intros j Hj. destruct (Z.leb_spec i j), (Z.ltb_spec j (i + Z.of_nat 0)); try lia; done. }
  destruct (zget_is_Some dir i) as [v Hv]; [lia|]. cbn [release_loop]. rewrite Hv. cbn [mbind option_bind].
  assert (Hdrop : drop (Z.to_nat i) dir = v :: drop (Z.to_nat (i + 1)) dir).
  { replace (Z.to_nat (i + 1)) with (S (Z.to_nat i)) by lia. apply drop_S. done. }
  assert (Hv' : v = 0 \/ (v <> 0 /\ is_set v PMM_PRESENT = true)).
  { destruct (decide (v = 0)) as [|Hv0]; [auto|]. right. split; [done|]. unfold PMM_PRESENT. rewrite is_set_bit by lia.
    destruct (Hw i v) as [|]; [lia|done|done|done]. }
  rewrite Hdrop. cbn [take]. destruct Hv' as [->|[Hv0 Hp]].
  - change (negb (0 =? 0) && is_set 0 PMM_PRESENT) with false. cbn iota.
    destruct (IH (i + 1) dir) as (dir' & E1 & Hl' & Hg); [lia|lia|intros j u Hj; apply Hw; lia|].
    rewrite filter_cons_False by (intros H; apply H; done). exists dir'. split_and!; [done|done|]. intros j Hj. rewrite Hg by done.
    destruct (Z.eqb_spec j i) as [->|]; zcases; try lia; simpl; congruence.
  - destruct (Z.eqb_spec v 0); [done|]. rewrite Hp. cbn [negb andb].
    destruct (IH (i + 1) (zset dir i 0)) as (dir' & E1 & Hl' & Hg); [lia|rewrite zlen_zset; lia| |].
    { intros j u Hj. rewrite zget_zset_ne by lia. apply Hw. lia. }
    assert (Hdrop' : drop (Z.to_nat (i + 1)) (zset dir i 0) = drop (Z.to_nat (i + 1)) dir) by (apply drop_insert_lt; lia).
    rewrite Hdrop' in E1. rewrite E1. cbn [mbind option_bind]. rewrite filter_cons_True by done. exists dir'.
    rewrite zlen_zset in Hl'. split_and!; [done|done|]. intros j Hj. rewrite Hg by done.
    destruct (Z.eqb_spec j i) as [->|]; [rewrite zget_zset_eq by lia|rewrite zget_zset_ne by lia]; zcases; try lia; done.
Qed.

(** The user words of a directory *)
Definition user_words (pm : pmm_s) : list Z := take 1024 (pgdir pm).

Lemma release_ok pm : pmm_wf pm -> exists pm', pmm_release pm = Some (pm', release_page <$> filter (fun v => v <> 0) (user_words pm)) /\
  pmm_wf pm' /\ user_words pm' = replicate 1024 0 /\
  forall u, is_u32 u -> pmm_get_page pm' u = if u <? CONFIG_KERNEL_OFFSET then Some (PageInfo 0 0) else pmm_get_page pm u.
Proof.
  intros Hwf. pose proof Hwf as [Hlen Hw Htb Hown]. unfold pmm_release. change (Z.to_nat (Z.shiftr CONFIG_KERNEL_OFFSET PMM_HUGE_PAGE_SHIFT)) with 1024%nat.
  destruct (release_words_ok 1024 0 (pgdir pm)) as (dir & E1 & Hl & Hg); [lia|lia|intros j v Hj; apply Hw; lia|].
  change (drop (Z.to_nat 0) (pgdir pm)) with (pgdir pm) in E1. rewrite E1. cbn [mbind option_bind]. eexists. split; [done|].
  assert (Hget : forall i v, 0 <= i -> zget dir i = Some v -> (i < 1024 /\ v = 0) \/ (1024 <= i /\ zget (pgdir pm) i = Some v)).
  { intros i v Hi. rewrite Hg by done. destruct (Z.leb_spec 0 i), (Z.ltb_spec i (0 + Z.of_nat 1024)); try lia; simpl.
    - intros [= <-]. left. lia.
    - intros. right. split; [lia|done]. }
  split_and!.
  - split; simpl.
    + lia.
    + intros i v Hi H. destruct (Hget i v Hi H) as [[_ ->]|[_ H']]; eauto.
    + intros i v Hi H Ht. destruct (Hget i v Hi H) as [[_ ->]|[_ H']]; [apply zero_to_table in Ht; done|]. eapply Htb; done.
    + intros i j v w Hi Hj H1 H2 Hv Hw'. destruct (Hget i v Hi H1) as [[_ ->]|[_ H1']]; [apply zero_to_table in Hv; done|].
      destruct (Hget j w Hj H2) as [[_ ->]|[_ H2']]; [apply zero_to_table in Hw'; done|]. apply (Hown i j v w); done.
  - unfold user_words. cbn [pgdir]. apply list_eq. intros n. destruct (decide (n < 1024)%nat) as [Hn|Hn].
    + rewrite lookup_take_lt by lia. rewrite lookup_replicate_2 by lia. specialize (Hg (Z.of_nat n)).
      unfold zget in Hg. rewrite Nat2Z.id in Hg. rewrite Hg by lia. destruct (Z.leb_spec 0 (Z.of_nat n)), (Z.ltb_spec (Z.of_nat n) (0 + Z.of_nat 1024)); try lia. done.
    + rewrite lookup_take_ge by lia. symmetry. apply lookup_replicate_None. lia.
  - intros u Hu. pose proof (pde_bound _ Hu) as Hp.
    assert (Hpde : MMU_PDE u < 1024 <-> u < CONFIG_KERNEL_OFFSET).
    { unfold MMU_PDE, PMM_HUGE_PAGE_SHIFT, CONFIG_KERNEL_OFFSET. rewrite Z.shiftr_div_pow2 by lia. split; intros H.
      - pose proof (Z.div_mod u (2 ^ 21)). pose proof (Z.mod_pos_bound u (2 ^ 21)). lia.
      - apply Z.div_lt_upper_bound; lia. }
    specialize (Hg (MMU_PDE u) (proj1 Hp)). change (0 + Z.of_nat 1024) with 1024 in Hg.
    destruct (Z.leb_spec 0 (MMU_PDE u)), (Z.ltb_spec (MMU_PDE u) 1024), (Z.ltb_spec u CONFIG_KERNEL_OFFSET); try lia; simpl in Hg.
    + apply get_unmapped. done.
    + destruct (zget_is_Some (pgdir pm) (MMU_PDE u)) as [v Hv]; [lia|]. rewrite Hv in Hg. apply (get_frame pm _ u v); done.
Qed.

(** ** Creation *)

Lemma empty_dir_wf m : pmm_wf (Pmm (replicate 2048 0) m).
Proof.
  assert (Hz : forall i v, zget (replicate 2048 0) i = Some v -> v = 0) by (intros i v [-> _]%lookup_replicate; done).
  split; cbn [pgdir].
  - unfold zlen. rewrite length_replicate. done.
  - intros i v _ H. apply Hz in H. auto.
  - intros i v _ H Ht. apply Hz in H. subst v. apply zero_to_table in Ht. done.
  - intros i j v w _ _ H _ Ht. apply Hz in H. subst v. apply zero_to_table in Ht. done.
Qed.

(** A space with one page at 0x5000, its table in the page 7 *)
Definition demo_space : pmm_s := Pmm (zset (replicate 2048 0) 0 (Z.lor (Z.lor PMM_PRESENT MMU_PTD1) 7)) {[ 7 := zero_table ]}.

Lemma demo_space_wf : pmm_wf demo_space /\ not_a_table demo_space 9.
Proof.
  destruct (table_installed (Pmm (replicate 2048 0) ∅) 0x5000 7) as (Hwf & _); [apply empty_dir_wf|done|done|done| |].
  { intros i v _ H Ht. cbn [pgdir] in H. apply lookup_replicate in H as [-> _]. apply zero_to_table in Ht. done. }
  split; [exact Hwf|]. intros i v Hi Hv Ht Heq. cbn [pgdir demo_space] in Hv. destruct (decide (i = 0)) as [->|Hne].
  - vm_compute in Hv. injection Hv as <-. vm_compute in Heq. discriminate.
  - rewrite zget_zset_ne in Hv by lia. apply lookup_replicate in Hv as [-> _]. apply zero_to_table in Ht. done.
Qed.

(** ** Theorems *)

(** C26: page tables.  Outside of huge pages, the directory and the tables of an address space implement a map from virtual pages to descriptors: on a space in order,
    pmm_set_page of a page of 4 KB, in a slot of the directory that does not hold a huge page ([small_slot]; over one, the walk takes the frame of the huge page for a table, [pmm_set_over_huge]),
    stores exactly the descriptor of its page, or clears it for PMM_CLEAR, whatever the address in the page,
    changes what pmm_get_page returns for no other page, leaves the space in order, and fails only with ENOMEM, with nothing changed, when a new
    table is needed and none can be allocated; when another processor installs the table first, the page allocated for it is given back. *)
Theorem pmm_tables_refine pm vaddr info alloc : pmm_wf pm -> is_u32 vaddr -> is_set (attr info) PMM_HUGE = false ->
  0 <= ppn info < 2 ^ 28 -> small_slot pm vaddr -> (forall p, alloc = Some p -> 0 <= p < 2 ^ 28 /\ not_a_table pm p) ->
  ((zget (pgdir pm) (MMU_PDE vaddr) = Some 0 /\ alloc = None /\ pmm_set_page pm vaddr info alloc 0 = Some (ENOMEM, pm, None)) \/
   exists pm', pmm_set_page pm vaddr info alloc 0 = Some (0, pm', None) /\ pmm_wf pm' /\ small_slot pm' vaddr /\
     forall u, is_u32 u -> pmm_get_page pm' u = if vpn u =? vpn vaddr then Some (stored info) else pmm_get_page pm u) /\
  (forall p r, zget (pgdir pm) (MMU_PDE vaddr) = Some 0 -> r <> 0 ->
     pmm_set_page pm vaddr info (Some p) r =
       ('(err, pm', _) ← pmm_set_page (Pmm (zset (pgdir pm) (MMU_PDE vaddr) r) (<[p := zero_table]> (tables pm))) vaddr info None 0;
        Some (err, pm', Some p))).
Proof.
  intros Hwf Hva Hnh Hp Hs Ha. split; [apply set_small; done|]. intros p r Hv Hr. apply set_raced; try done. apply Hwf.
Qed.

Lemma pmm_tables_refine_witness :
  exists pm', pmm_set_page demo_space 0x5000 (PageInfo PMM_PRESENT 0x123) (Some 9) 0 = Some (0, pm', None) /\
    pmm_get_page pm' 0x5ABC = Some (PageInfo PMM_PRESENT 0x123).
Proof.
  destruct demo_space_wf as [Hwf Hf].
  destruct (pmm_tables_refine demo_space 0x5000 (PageInfo PMM_PRESENT 0x123) (Some 9)) as [[(_ & H & _)|(pm' & E1 & _ & _ & Hg)] _].
  - exact Hwf.
  - done.
  - vm_compute. done.
  - cbn [ppn]. lia.
  - eexists. split; [vm_compute; reflexivity|]. right. vm_compute. done.
  - intros p [= <-]. split; [lia|exact Hf].
  - discriminate H.
  - exists pm'. split; [exact E1|]. assert (Hu : is_u32 0x5ABC) by (split; lia).
    specialize (Hg 0x5ABC Hu). exact Hg.
Defined.

(** huge pages and release.  pmm_set_page of a huge page fills a null word of the directory, so that every page of its 2 MB has the attributes and its place in the
    frame, changes no other page, and answers EINVAL with nothing changed when the word is in use.  pmm_release empties user space exactly: it clears the words below the kernel,
    keeps the others, and gives back the page of every word that was not 0, once. *)
Theorem pmm_huge_and_release pm : pmm_wf pm ->
  (forall vaddr info alloc race v, is_u32 vaddr -> pde_attr (attr info) ->
     is_set (attr info) PMM_HUGE = true -> is_set (attr info) PMM_PRESENT = true -> 0 < ppn info < 2 ^ 20 ->
     zget (pgdir pm) (MMU_PDE vaddr) = Some v ->
     (v <> 0 -> pmm_set_page pm vaddr info alloc race = Some (EINVAL, pm, None)) /\
     (v = 0 -> exists pm', pmm_set_page pm vaddr info alloc race = Some (0, pm', None) /\ pmm_wf pm' /\
       forall u, is_u32 u -> pmm_get_page pm' u =
         if MMU_PDE u =? MMU_PDE vaddr then Some (PageInfo (attr info) (ppn info / 512 * 512 + vpn u mod 512)) else pmm_get_page pm u)) /\
  (exists pm', pmm_release pm = Some (pm', release_page <$> filter (fun v => v <> 0) (user_words pm)) /\
     pmm_wf pm' /\ user_words pm' = replicate 1024 0 /\
     forall u, is_u32 u -> pmm_get_page pm' u = if u <? CONFIG_KERNEL_OFFSET then Some (PageInfo 0 0) else pmm_get_page pm u).
Proof.
  intros Hwf. split; [|apply release_ok; done]. intros vaddr info alloc race v Hva Ha H30 H31 Hp Hv.
  unfold PMM_HUGE in H30. unfold PMM_PRESENT in H31. rewrite is_set_bit in H30, H31 by lia. apply set_huge; done.
Qed.

Lemma pmm_huge_and_release_witness :
  exists pm', pmm_release demo_space = Some (pm', [7]) /\ pmm_get_page pm' 0x5000 = Some (PageInfo 0 0).
Proof.
  destruct (pmm_huge_and_release demo_space) as [_ (pm' & E1 & _ & _ & Hg)]; [apply demo_space_wf|].
  exists pm'. split; [rewrite E1; f_equal; f_equal; vm_compute; done|].
  assert (Hu : is_u32 0x5000) by (split; lia). specialize (Hg 0x5000 Hu). exact Hg.
Defined.

(** *** Behaviours that the callers have to avoid *)

Definition huge_space : pmm_s := Pmm (zset (replicate 2048 0) 1 (Z.lor PMM_PRESENT 3)) ∅.

(** A small page inside of a huge page: the word of the huge page is taken for the address of a table. *)
Theorem pmm_set_over_huge :
  pmm_get_page huge_space 0x200000 = Some (PageInfo (Z.lor PMM_PRESENT PMM_HUGE) 0x600) /\
  pmm_set_page huge_space 0x200000 (PageInfo PMM_PRESENT 0x777) None 0 = None.
Proof. split; vm_compute; done. Qed.

(** [pmm_region_attr_set] of huge pages changes nothing: [pmm_set_page] refuses to overwrite a word of the directory. *)
Theorem pmm_attr_set_huge_ignored :
  pmm_region_attr_set huge_space 0x200000 1 (Z.lor PMM_PRESENT (Z.lor PMM_HUGE PMM_WRITE)) = Some huge_space.
Proof.
  unfold pmm_region_attr_set. assert (H : forall s, pmm_region_attr_set huge_space 0x200000 1 (Z.lor PMM_PRESENT (Z.lor PMM_HUGE PMM_WRITE)) = s -> s = Some huge_space).
  { intros s <-. vm_compute. done. }
  apply H. done.
Qed.
