(* ===== verification/Fat.v ===== *)
(** * Fat: the file allocation table of [kernel/fs/fat32/fat32_access.c]

    The pages of the device are in a mapper: [cache] gives the words of a page by its index, and a page that is not there is one
    that [mapper_get_page] cannot read.  [dirty] are the pages that the code marks for a delayed write.  The read-write lock of
    [vfat_alloc_fat_entry] and the locks of the pages make the accesses of an operation one step. *)

From S2P Require Import Prelude Pmm.

Definition ENOSPC : Z := 28.
Definition EBADBLK : Z := 124.
Definition VFS_IO_ERR : Z := EIO.
Definition VFS_ENOSPC : Z := ENOSPC.
Definition VFS_EBADBLK : Z := EBADBLK.

Record vfat_context_s := VfatContext {
  fat_begin_lba : Z; fat_blk_count : Z; bytes_per_sector : Z; bytes_per_cluster : Z; cluster_begin_lba : Z; sectors_per_cluster : Z;
  rootdir_first_cluster : Z; last_allocated_sector : Z; last_allocated_index : Z;
}.

(** The context and its mapper *)
Record vfat := Vfat { ctx : vfat_context_s; cache : gmap Z (list Z); dirty : gset Z }.

Definition set_cursor (sector index : Z) (v : vfat) : vfat :=
  let c := ctx v in
  Vfat (VfatContext (fat_begin_lba c) (fat_blk_count c) (bytes_per_sector c) (bytes_per_cluster c) (cluster_begin_lba c)
         (sectors_per_cluster c) (rootdir_first_cluster c) sector index) (cache v) (dirty v).

(** [buffer[i]] in the page [id], a load and a store with [set_page_dirty] *)
Definition load_word (v : vfat) (id i : Z) : option Z := buf ← cache v !! id; zget buf i.
Definition store_word (v : vfat) (id i x : Z) : option vfat :=
  buf ← cache v !! id;
  if decide (0 <= i < zlen buf) then Some (Vfat (ctx v) (<[id := zset buf i x]> (cache v)) ({[id]} ∪ dirty v)) else None.

(** The error and the next cluster, which stays [next] after an error *)
Definition vfat_query_fat (v : vfat) (cluster_index next : Z) : option (Z * Z) :=
  let c := ctx v in
  let cluster_offset := fat_begin_lba c *! bytes_per_sector c +! cluster_index *! 4 in
  let page_id := Z.shiftr cluster_offset PMM_PAGE_SHIFT in
  match cache v !! page_id with
  | None => Some (-1, next)
  | Some _ =>
      let byte := cluster_offset mod PMM_PAGE_SIZE in
      if negb (byte mod 4 =? 0) then None
      else data ← load_word v page_id (byte / 4); Some (0, Z.land data 0x0FFFFFFF)
  end.

Fixpoint vfat_cluster_count (fuel : nat) (v : vfat) (cluster_index next i : Z) : option Z :=
  if next <? 0x0FFFFFF8 then
    match fuel with
    | O => None
    | S fuel => '(_, next) ← vfat_query_fat v cluster_index next; vfat_cluster_count fuel v next next (i + 1)
    end
  else Some i.

(** ** Allocation *)

(** The loop over the words of a sector, from [index] on: the first that is free *)
Fixpoint alloc_index (n : nat) (v : vfat) (page base index : Z) : option (option Z) :=
  match n with
  | O => Some None
  | S n => x ← load_word v page (base + index);
           if Z.land x 0x0FFFFFFF =? 0 then Some (Some index) else alloc_index n v page base (index + 1)
  end.

(** The entry [index] of [sector] is taken: the word, the cursor, the number of the cluster *)
Definition alloc_take (v : vfat) (page base sector index : Z) : option (vfat * Z) :=
  let c := ctx v in
  let sector_size := bytes_per_sector c in
  let EOF_sector := fat_begin_lba c +! fat_blk_count c in
  v ← store_word v page (base + index) 0x0FFFFFF8;
  let v :=
    if negb (index =? sector_size / 4 -! 1) then set_cursor sector ((index +! 1) mod (sector_size / 4)) v
    else
      let last_allocated_sector := sector +! 1 in
      if last_allocated_sector =? EOF_sector then set_cursor (fat_begin_lba c) 2 v
      else set_cursor last_allocated_sector ((index +! 1) mod (sector_size / 4)) v in
  Some (v, index +! (sector -! fat_begin_lba c) *! (sector_size / 4)).

(** The loop over the sectors: the error, the state, the new cluster *)
Fixpoint alloc_sectors (n : nat) (v : vfat) (sector last_allocated_index : Z) (page : option Z) (old_page_id : Z) : option (Z * vfat * Z) :=
  match n with
  | O => Some (0, v, 0)
  | S n =>
      let sector_size := bytes_per_sector (ctx v) in
      let sectors_per_page := PMM_PAGE_SIZE / sector_size in
      let page_id := sector / sectors_per_page in
      let page := if negb (page_id =? old_page_id) then (if decide (is_Some (cache v !! page_id)) then Some page_id else None) else page in
      match page with
      | None => if negb (page_id =? old_page_id) then Some (VFS_IO_ERR, v, 0) else None
      | Some page =>
          let base := sector mod sectors_per_page * (sector_size / 4) in
          found ← alloc_index (Z.to_nat (sector_size / 4 - last_allocated_index)) v page base last_allocated_index;
          match found with
          | Some index => '(v, new_cluster) ← alloc_take v page base sector index; Some (0, v, new_cluster)
          | None => alloc_sectors n v (sector +! 1) 0 (Some page) page_id
          end
      end
  end.

Definition vfat_alloc_fat_entry (v : vfat) : option (Z * vfat * Z) :=
  let c := ctx v in
  let EOF_sector := fat_begin_lba c +! fat_blk_count c in
  let last_allocated_sector := last_allocated_sector c in
  alloc_sectors (Z.to_nat (EOF_sector - last_allocated_sector)) v last_allocated_sector (last_allocated_index c) None 0xFFFFFFFF.

(** ** Release *)

(** The page and the word of a cluster, by its sector *)
Definition fat_place (c : vfat_context_s) (cluster : Z) : Z * Z :=
  let sector_size := bytes_per_sector c in
  let sectors_per_page := PMM_PAGE_SIZE / sector_size in
  let lba := fat_begin_lba c +! (cluster *! 4) / sector_size in
  (lba / sectors_per_page, lba mod sectors_per_page * (sector_size / 4) + cluster mod (sector_size / 4)).

Fixpoint vfat_free_fat_entry (fuel : nat) (v : vfat) (current_index : Z) : option (Z * vfat) :=
  if (0 <? current_index) && (current_index <? 0x0FFFFFF7) then
    match fuel with
    | O => None
    | S fuel =>
        let '(page, i) := fat_place (ctx v) current_index in
        match cache v !! page with
        | None => Some (VFS_IO_ERR, v)
        | Some _ =>
            x ← load_word v page i;
            v ← store_word v page i 0;
            vfat_free_fat_entry fuel v (Z.land x 0x0FFFFFFF)
        end
    end
  else Some (0, v).

(** ** Extension of a chain *)

(** The error, the state, the next cluster *)
Definition vfat_extend_cluster (fuel : nat) (v : vfat) (current_vfat_cluster : Z) : option (Z * vfat * Z) :=
  '(err, v, next_cluster) ← vfat_alloc_fat_entry v;
  if negb (err =? 0) then Some (err, v, next_cluster)
  else if next_cluster =? 0 then Some (0, v, next_cluster)
  else
    let '(page, i) := fat_place (ctx v) current_vfat_cluster in
    let error v := '(_, v) ← vfat_free_fat_entry fuel v next_cluster; Some (-1, v, 0) in
    match cache v !! page with
    | None => error v
    | Some _ =>
        x ← load_word v page i;
        if 0x0FFFFFF8 <=? Z.land x 0x0FFFFFFF then v ← store_word v page i next_cluster; Some (0, v, next_cluster)
        else
          let '(page, i) := fat_place (ctx v) next_cluster in
          match cache v !! page with
          | None => error v
          | Some _ => v ← store_word v page i 0; Some (0, v, next_cluster)
          end
    end.

(** The loop of [vfat_cluster_lookup]: the error, the state, the cluster, and whether the chain was extended *)
Fixpoint lookup_loop (n : nat) (fuel : nat) (v : vfat) (current_vfat_cluster old_cluster_offset old_page_id extended : Z) : option (Z * vfat * Z * Z) :=
  match n with
  | O => Some (0, v, current_vfat_cluster, extended)
  | S n =>
      x ← load_word v old_page_id (old_cluster_offset mod (PMM_PAGE_SIZE / 4));
      let next_cluster := Z.land x 0x0FFFFFFF in
      if next_cluster =? 0x0FFFFFF7 then Some (VFS_EBADBLK, v, 0, extended)
      else
        '(err, v, next_cluster, extended) ←
          (if 0x0FFFFFF8 <=? next_cluster then
             '(err, v, next_cluster) ← vfat_extend_cluster fuel v current_vfat_cluster;
             if negb (err =? 0) then Some (VFS_IO_ERR, v, next_cluster, extended)
             else if next_cluster =? 0 then Some (VFS_ENOSPC, v, next_cluster, extended)
             else Some (0, v, next_cluster, 1)
           else Some (0, v, next_cluster, extended));
        if negb (err =? 0) then Some (err, v, 0, extended)
        else
          let cluster_offset := fat_begin_lba (ctx v) *! (bytes_per_sector (ctx v) / 4) +! next_cluster in
          let page_id := cluster_offset / (PMM_PAGE_SIZE / 4) in
          if negb (page_id =? old_page_id) && bool_decide (cache v !! page_id = None) then Some (VFS_IO_ERR, v, 0, extended)
          else lookup_loop n fuel v next_cluster cluster_offset page_id extended
  end.

Definition vfat_cluster_lookup (fuel : nat) (v : vfat) (node_cluster cluster_rank : Z) : option (Z * vfat * Z * Z) :=
  let c := ctx v in
  if bytes_per_cluster c =? 0 then None
  else
    let old_cluster_offset := fat_begin_lba c *! (bytes_per_sector c / 4) +! node_cluster in
    let old_page_id := old_cluster_offset / (PMM_PAGE_SIZE / 4) in
    match cache v !! old_page_id with
    | None => Some (VFS_IO_ERR, v, 0, 0)
    | Some _ => lookup_loop (Z.to_nat cluster_rank) fuel v node_cluster old_cluster_offset old_page_id 0
    end.
