(* ===== verification/FatSpec.v ===== *)
(** * FatSpec: the file allocation table as a store of files

    The words of the table are numbered by the clusters, whatever page and sector they are in; a file is the chain of its
    clusters.  The operations of [Fat] against this reading, and the contract that they implement. *)

From S2P Require Import Prelude Pmm Fat.

Definition FREE_MASK : Z := 0x0FFFFFFF.
Definition EOC : Z := 0x0FFFFFF8.

(** Words of a sector, entries of the table, the first word of the table on the device *)
Definition sector_words (c : vfat_context_s) : Z := bytes_per_sector c / 4.
Definition fat_entries (c : vfat_context_s) : Z := fat_blk_count c * sector_words c.
Definition fat_base (c : vfat_context_s) : Z := fat_begin_lba c * sector_words c.

(** The sizes that the code can work with *)
Record geometry (c : vfat_context_s) : Prop := {
  geo_sector : 512 <= bytes_per_sector c /\ bytes_per_sector c mod 4 = 0;
  geo_page : PMM_PAGE_SIZE mod bytes_per_sector c = 0;
  geo_begin : 0 <= fat_begin_lba c; geo_count : 0 < fat_blk_count c;
  geo_size : (fat_begin_lba c + fat_blk_count c) * bytes_per_sector c <= 2 ^ 32;
  geo_entries : fat_entries c <= 0x0FFFFFF7;
  geo_cluster : bytes_per_cluster c <> 0;
}.

Definition word_of (v : vfat) (w : Z) : option Z := load_word v (w / 1024) (w mod 1024).
Definition entry (v : vfat) (cl : Z) : Z := Z.land (default 0 (word_of v (fat_base (ctx v) + cl))) FREE_MASK.

(** The pages of the table are in the cache. *)
Definition pages_ok (v : vfat) : Prop :=
  forall cl, 0 <= cl < fat_entries (ctx v) -> exists buf, cache v !! ((fat_base (ctx v) + cl) / 1024) = Some buf /\ zlen buf = 1024.

Definition cursor_ok (c : vfat_context_s) : Prop :=
  fat_begin_lba c <= last_allocated_sector c < fat_begin_lba c + fat_blk_count c /\ 0 <= last_allocated_index c < sector_words c /\
  (last_allocated_sector c = fat_begin_lba c -> 2 <= last_allocated_index c).

(** The first entry that an allocation looks at *)
Definition cursor (c : vfat_context_s) : Z := (last_allocated_sector c - fat_begin_lba c) * sector_words c + last_allocated_index c.

Definition set_entry (v : vfat) (cl x : Z) : vfat :=
  let w := fat_base (ctx v) + cl in
  Vfat (ctx v) (alter (fun buf => zset buf (w mod 1024) x) (w / 1024) (cache v)) ({[w / 1024]} ∪ dirty v).

(** ** Places *)

Section Places.
Context (c : vfat_context_s) (G : geometry c).
Notation q := (sector_words c).

Lemma sector_words_eq : bytes_per_sector c = 4 * q /\ 128 <= q.
Proof. destruct G as [[H1 H2] _ _ _ _ _ _]. unfold sector_words. pose proof (Z.div_mod (bytes_per_sector c) 4). lia. Qed.

Lemma page_sectors : exists k, 0 < k /\ PMM_PAGE_SIZE / bytes_per_sector c = k /\ k * q = 1024.
Proof.
  destruct sector_words_eq as [E Hq]. pose proof (geo_page _ G) as Hp. unfold PMM_PAGE_SIZE in *.
  pose proof (Z.div_mod 4096 (bytes_per_sector c) ltac:(lia)) as Hd. exists (4096 / bytes_per_sector c). split_and!; [|done|]; nia.
Qed.

Lemma fat_bounds : 0 <= fat_base c /\ 0 < fat_entries c <= 0x0FFFFFF7 /\ (fat_base c + fat_entries c) * 4 <= 2 ^ 32.
Proof.
  destruct sector_words_eq as [E Hq]. pose proof (geo_begin _ G). pose proof (geo_count _ G). pose proof (geo_size _ G) as Hs. pose proof (geo_entries _ G).
  rewrite E in Hs. unfold fat_base, fat_entries in *. split_and!; nia.
Qed.

(** The sector [j] of the table and the word [i] of the sector *)
Lemma sector_place j i : 0 <= j -> 0 <= i < q ->
  (fat_begin_lba c + j) / (PMM_PAGE_SIZE / bytes_per_sector c) = (fat_base c + (j * q + i)) / 1024 /\
  (fat_begin_lba c + j) mod (PMM_PAGE_SIZE / bytes_per_sector c) * q + i = (fat_base c + (j * q + i)) mod 1024.
Proof.
  intros Hj Hi. destruct page_sectors as (k & Hk & -> & Ek). unfold fat_base. set (s := fat_begin_lba c + j).
  replace (fat_begin_lba c * q + (j * q + i)) with (s * q + i) by (unfold s; lia). clearbody s.
  pose proof (Z.div_mod s k ltac:(lia)) as Hs. pose proof (Z.mod_pos_bound s k Hk) as Hm.
  assert (E : s * q + i = 1024 * (s / k) + (s mod k * q + i)) by (rewrite Hs at 1; rewrite <- Ek; ring). assert (Hr : 0 <= s mod k * q + i < 1024) by nia.
  split; [apply (Z.div_unique_pos _ _ _ (s mod k * q + i))|apply (Z.mod_unique_pos _ _ (s / k))]; [exact Hr|exact E|exact Hr|exact E].
Qed.

Lemma entry_split cl : 0 <= cl -> cl = cl / q * q + cl mod q /\ 0 <= cl / q /\ 0 <= cl mod q < q.
Proof.
  intros Hc. destruct sector_words_eq as [_ Hq]. pose proof (Z.div_mod cl q ltac:(lia)). pose proof (Z.mod_pos_bound cl q ltac:(lia)).
  pose proof (Z.div_pos cl q). lia.
Qed.

Lemma fat_place_entry cl : 0 <= cl < fat_entries c -> fat_place c cl = ((fat_base c + cl) / 1024, (fat_base c + cl) mod 1024).
Proof.
  intros Hc. destruct sector_words_eq as [E Hq]. destruct fat_bounds as (B1 & B2 & B3). destruct (entry_split cl ltac:(lia)) as (E1 & E2 & E3).
  unfold fat_place. fold q. assert (El : (cl *! 4) / bytes_per_sector c = cl / q).
  { rewrite u32_small by (unfold is_u32; lia). rewrite E, (Z.mul_comm cl 4), Z.div_mul_cancel_l by lia. done. }
  rewrite El, u32_small. 2:{ unfold is_u32, fat_base in *. pose proof (geo_begin _ G). nia. }
  destruct (sector_place (cl / q) (cl mod q) E2 E3) as [P1 P2]. rewrite P1, P2, <- E1. done.
Qed.

Lemma lookup_offset cl : 0 <= cl < fat_entries c -> fat_begin_lba c *! (bytes_per_sector c / 4) +! cl = fat_base c + cl.
Proof.
  intros Hc. destruct fat_bounds as (B1 & B2 & B3). rewrite u32_add_l. unfold fat_base, sector_words in *. apply u32_small. unfold is_u32. lia.
Qed.

Lemma query_offset cl : 0 <= cl < fat_entries c -> fat_begin_lba c *! bytes_per_sector c +! cl *! 4 = (fat_base c + cl) * 4.
Proof.
  intros Hc. destruct fat_bounds as (B1 & B2 & B3). destruct sector_words_eq as [E Hq].
  rewrite u32_add_l. rewrite (Z.add_comm _ (cl *! 4)), u32_add_l, E. unfold fat_base in *. rewrite u32_small; [lia|]. unfold is_u32. nia.
Qed.

Lemma fat_limit : fat_begin_lba c + fat_blk_count c < 2 ^ 32.
Proof. destruct sector_words_eq as [E Hq]. pose proof (geo_begin _ G). pose proof (geo_count _ G). pose proof (geo_size _ G) as Hs. rewrite E in Hs. nia. Qed.
End Places.

(** ** Entries *)

Section Entries.
Implicit Types (v : vfat) (cl x : Z).

Lemma entry_range v cl : 0 <= entry v cl < 2 ^ 28.
Proof.
  unfold entry, FREE_MASK. change 0x0FFFFFFF with (Z.ones 28). rewrite Z.land_ones by lia. apply Z.mod_pos_bound. lia.
Qed.

Lemma load_entry v cl : pages_ok v -> 0 <= cl < fat_entries (ctx v) ->
  exists x, word_of v (fat_base (ctx v) + cl) = Some x /\ Z.land x FREE_MASK = entry v cl.
Proof.
  intros P Hc. destruct (P cl Hc) as (buf & Hb & Hl). unfold entry, word_of, load_word. rewrite Hb. cbn.
  destruct (zget_is_Some buf ((fat_base (ctx v) + cl) mod 1024)) as [x Hx]; [rewrite Hl; apply Z.mod_pos_bound; lia|].
  rewrite Hx. exists x. done.
Qed.

Lemma page_present v cl : pages_ok v -> 0 <= cl < fat_entries (ctx v) -> exists buf, cache v !! ((fat_base (ctx v) + cl) / 1024) = Some buf.
Proof. intros P Hc. destruct (P cl Hc) as (buf & Hb & _). eauto. Qed.

Lemma store_fat_entry v cl x : pages_ok v -> 0 <= cl < fat_entries (ctx v) ->
  store_word v ((fat_base (ctx v) + cl) / 1024) ((fat_base (ctx v) + cl) mod 1024) x = Some (set_entry v cl x).
Proof.
  intros P Hc. destruct (P cl Hc) as (buf & Hb & Hl). unfold store_word, set_entry. rewrite Hb. cbn [mbind option_bind].
  rewrite decide_True by (rewrite Hl; apply Z.mod_pos_bound; lia). do 2 f_equal. apply map_eq. intros k.
  destruct (decide (k = (fat_base (ctx v) + cl) / 1024)) as [->|Hne].
  - rewrite lookup_insert_eq, lookup_alter_eq, Hb. done.
  - rewrite lookup_insert_ne, lookup_alter_ne by done. done.
Qed.

Lemma set_entry_pages v cl x : pages_ok v -> pages_ok (set_entry v cl x).
Proof.
  intros P cl' Hc. cbn in *. destruct (P cl' Hc) as (buf & Hb & Hl).
  destruct (decide ((fat_base (ctx v) + cl') / 1024 = (fat_base (ctx v) + cl) / 1024)) as [E|Hne].
  - rewrite <- E, lookup_alter_eq, Hb. eexists. split; [done|]. rewrite zlen_zset. done.
  - rewrite lookup_alter_ne by done. eauto.
Qed.

Lemma word_set_entry v cl x w : pages_ok v -> 0 <= cl < fat_entries (ctx v) -> word_of (set_entry v cl x) w =
  if decide (w = fat_base (ctx v) + cl) then Some x else word_of v w.
Proof.
  intros P Hc. destruct (P cl Hc) as (buf & Hb & Hl). unfold word_of, load_word, set_entry. cbn.
  pose proof (Z.div_mod w 1024 ltac:(lia)). pose proof (Z.div_mod (fat_base (ctx v) + cl) 1024 ltac:(lia)).
  pose proof (Z.mod_pos_bound w 1024 ltac:(lia)). pose proof (Z.mod_pos_bound (fat_base (ctx v) + cl) 1024 ltac:(lia)).
  destruct (decide (w / 1024 = (fat_base (ctx v) + cl) / 1024)) as [E|Hne].
  - rewrite E, lookup_alter_eq, Hb. cbn. destruct (decide (w = fat_base (ctx v) + cl)) as [->|Hw]; [apply zget_zset_eq; lia|].
    apply zget_zset_ne; [lia|lia|]. intros Em. apply Hw. lia.
  - rewrite lookup_alter_ne by done. rewrite decide_False; [done|]. congruence.
Qed.

Lemma entry_set_same v cl x : pages_ok v -> 0 <= cl < fat_entries (ctx v) -> entry (set_entry v cl x) cl = Z.land x FREE_MASK.
Proof. intros P Hc. unfold entry. cbn [ctx set_entry]. rewrite word_set_entry, decide_True by done. done. Qed.
Lemma entry_set_other v cl cl' x : pages_ok v -> 0 <= cl < fat_entries (ctx v) -> cl' <> cl -> entry (set_entry v cl x) cl' = entry v cl'.
Proof. intros P Hc Hne. unfold entry. cbn [ctx set_entry]. rewrite word_set_entry, decide_False by (done || lia). done. Qed.
End Entries.

(** ** Allocation *)

Section Alloc.
Context (v : vfat) (G : geometry (ctx v)) (P : pages_ok v).
Notation c := (ctx v).
Notation q := (sector_words (ctx v)).

Lemma alloc_index_spec n j i : 0 <= j < fat_blk_count c -> 0 <= i -> n = Z.to_nat (q - i) ->
  let base := (fat_begin_lba c + j) mod (PMM_PAGE_SIZE / bytes_per_sector c) * q in
  let page := (fat_begin_lba c + j) / (PMM_PAGE_SIZE / bytes_per_sector c) in
  (exists i', i <= i' < q /\ alloc_index n v page base i = Some (Some i') /\ entry v (j * q + i') = 0 /\ forall k, i <= k < i' -> entry v (j * q + k) <> 0) \/
  (alloc_index n v page base i = Some None /\ forall k, i <= k < q -> entry v (j * q + k) <> 0).
Proof.
  intros Hj Hi -> base page. remember (Z.to_nat (q - i)) as n eqn:En. revert i Hi En. induction n as [|n IH]; intros i Hi En.
  - right. split; [done|]. intros k Hk. lia.
  - assert (Hiq : i < q) by lia. destruct (sector_words_eq c G) as [_ Hq]. assert (Hr : 0 <= j * q + i < fat_entries c) by (unfold fat_entries; nia).
    destruct (load_entry v (j * q + i) P Hr) as (x & Hx & Ex). unfold word_of in Hx.
    destruct (sector_place c G j i ltac:(lia) ltac:(lia)) as [P1 P2]. rewrite <- P1, <- P2 in Hx. fold page base in Hx.
    cbn [alloc_index]. rewrite Hx. cbn [mbind option_bind]. change 0x0FFFFFFF with FREE_MASK. rewrite Ex.
    destruct (Z.eqb_spec (entry v (j * q + i)) 0) as [E0|E0].
    + left. exists i. split_and!; try done; lia.
    + destruct (IH (i + 1) ltac:(lia) ltac:(lia)) as [(i' & H1 & H2 & H3 & H4)|[H1 H2]].
      * left. exists i'. split; [lia|]. split; [done|]. split; [done|]. intros k Hk. destruct (decide (k = i)) as [->|]; [done|]. apply H4. lia.
      * right. split; [done|]. intros k Hk. destruct (decide (k = i)) as [->|]; [done|]. apply H2. lia.
Qed.

(** The state after the entry [cl] is taken *)
Definition taken (cl : Z) : vfat :=
  let w := set_entry v cl EOC in
  if cl + 1 =? fat_entries c then set_cursor (fat_begin_lba c) 2 w
  else set_cursor (fat_begin_lba c + (cl + 1) / q) ((cl + 1) mod q) w.

Lemma alloc_take_spec j i : 0 <= j < fat_blk_count c -> 0 <= i < q ->
  alloc_take v ((fat_begin_lba c + j) / (PMM_PAGE_SIZE / bytes_per_sector c))
    ((fat_begin_lba c + j) mod (PMM_PAGE_SIZE / bytes_per_sector c) * q) (fat_begin_lba c + j) i = Some (taken (j * q + i), j * q + i).
Proof.
  intros Hj Hi. destruct (sector_words_eq c G) as [Eq Hq]. destruct (fat_bounds c G) as (B1 & B2 & B3). pose proof (geo_begin c G) as Hb0. pose proof (fat_limit c G) as Hlim. pose proof (geo_size c G) as Hsz.
  destruct (sector_place c G j i ltac:(lia) Hi) as [P1 P2]. assert (Hr : 0 <= j * q + i < fat_entries c) by (unfold fat_entries; nia).
  unfold alloc_take. rewrite P1, P2, store_fat_entry by done. cbn [mbind option_bind]. fold q. unfold fat_base in B3.
  assert (Hq32 : q < 2 ^ 32) by nia.
  rewrite (u32_small (fat_begin_lba c + fat_blk_count c)), (u32_small (q - 1)), (u32_small (i + 1)), (u32_small (fat_begin_lba c + j + 1)),
    (u32_small (fat_begin_lba c + j - fat_begin_lba c)) by (unfold is_u32; lia).
  replace (fat_begin_lba c + j - fat_begin_lba c) with j by lia. rewrite (u32_small (j * q)) by (unfold is_u32, fat_entries in *; nia).
  rewrite (u32_small (i + j * q)) by (unfold is_u32; lia).
  assert (Ediv : i + 1 < q -> (j * q + i + 1) / q = j /\ (j * q + i + 1) mod q = i + 1).
  { intros Hlt. split; symmetry; [apply (Z.div_unique_pos _ _ _ (i + 1))|apply (Z.mod_unique_pos _ _ j)]; lia. }
  assert (Elast : i + 1 = q -> (j * q + i + 1) / q = j + 1 /\ (j * q + i + 1) mod q = 0).
  { intros Hlt. split; symmetry; [apply (Z.div_unique_pos _ _ _ 0)|apply (Z.mod_unique_pos _ _ (j + 1))]; lia. }
  unfold taken. rewrite (Z.add_comm i (j * q)). do 2 f_equal. destruct (Z.eqb_spec i (q - 1)) as [Ei|Ei]; cbn [negb].
  - destruct (Elast ltac:(lia)) as [-> ->]. rewrite Ei. replace (q - 1 + 1) with q by lia. rewrite Z.mod_same by lia.
    unfold fat_entries. destruct (Z.eqb_spec (j * q + (q - 1) + 1) (fat_blk_count c * q)) as [Ec|Ec];
      destruct (Z.eqb_spec (fat_begin_lba c + j + 1) (fat_begin_lba c + fat_blk_count c)) as [Ed|Ed]; try done; [nia|nia|]. f_equal. lia.
  - destruct (Ediv ltac:(lia)) as [-> ->]. rewrite (Z.mod_small (i + 1)) by lia. rewrite (proj2 (Z.eqb_neq _ _)); [done|]. unfold fat_entries. nia.
Qed.

Lemma alloc_sectors_spec n j i page old : 0 <= j <= fat_blk_count c -> n = Z.to_nat (fat_blk_count c - j) -> 0 <= i < q ->
  (page = None /\ old = 0xFFFFFFFF) \/ page = Some old ->
  (exists cl, j * q + i <= cl < fat_entries c /\ alloc_sectors n v (fat_begin_lba c + j) i page old = Some (0, taken cl, cl) /\
     entry v cl = 0 /\ forall k, j * q + i <= k < cl -> entry v k <> 0) \/
  (alloc_sectors n v (fat_begin_lba c + j) i page old = Some (0, v, 0) /\ forall k, j * q + i <= k < fat_entries c -> entry v k <> 0).
Proof.
  destruct (sector_words_eq c G) as [_ Hq]. destruct (fat_bounds c G) as (B1 & B2 & B3). pose proof (geo_begin c G) as Hb0. pose proof (fat_limit c G) as Hlim.
  intros Hj En Hi Hpage. revert j i page old Hj En Hi Hpage. induction n as [|n IH]; intros j i page old Hj En Hi Hpage.
  { right. split; [done|]. intros k Hk. assert (j = fat_blk_count c) by lia. subst j. unfold fat_entries in Hk. lia. }
  assert (Hj' : 0 <= j < fat_blk_count c) by lia. cbn [alloc_sectors]. fold q.
  assert (Hr : 0 <= j * q + i < fat_entries c) by (unfold fat_entries; nia).
  destruct (page_present v (j * q + i) P Hr) as [buf Hbuf]. destruct (sector_place c G j i ltac:(lia) Hi) as [P1 P2]. rewrite <- P1 in Hbuf.
  assert (Hid : 0 <= (fat_begin_lba c + j) / (PMM_PAGE_SIZE / bytes_per_sector c) < 0xFFFFFFFF).
  { rewrite P1. split; [apply Z.div_pos; lia|]. apply Z.div_lt_upper_bound; lia. }
  set (id := (fat_begin_lba c + j) / (PMM_PAGE_SIZE / bytes_per_sector c)) in *.
  assert (Epage : (if negb (id =? old) then if decide (is_Some (cache v !! id)) then Some id else None else page) = Some id).
  { destruct (Z.eqb_spec id old) as [E|E]; cbn [negb].
    - destruct Hpage as [[_ ->]| ->]; [lia|congruence].
    - rewrite decide_True by eauto. done. }
  rewrite Epage. pose proof (alloc_index_spec _ j i Hj' ltac:(lia) eq_refl) as Hai. cbv zeta in Hai. fold id in Hai. destruct Hai as [(i' & H1 & H2 & H3 & H4)|[H1 H2]].
  - rewrite H2. cbn [mbind option_bind]. unfold id. rewrite (alloc_take_spec j i' Hj' ltac:(lia)). cbn [mbind option_bind].
    left. exists (j * q + i'). split; [unfold fat_entries; nia|]. split; [done|]. split; [done|]. intros k Hk. replace k with (j * q + (k - j * q)) by lia. apply H4. lia.
  - rewrite H1. cbn [mbind option_bind]. rewrite (u32_small (fat_begin_lba c + j + 1)) by (unfold is_u32; lia).
    replace (fat_begin_lba c + j + 1) with (fat_begin_lba c + (j + 1)) by lia.
    assert (Hrow : forall k, j * q + i <= k < (j + 1) * q -> entry v k <> 0).
    { intros k Hk. replace k with (j * q + (k - j * q)) by lia. apply H2. lia. }
    destruct (IH (j + 1) 0 (Some id) id ltac:(lia) ltac:(lia) ltac:(lia) ltac:(auto)) as [(cl & G1 & G2 & G3 & G4)|[G1 G2]].
    + left. exists cl. split; [lia|]. split; [done|]. split; [done|]. intros k Hk. destruct (Z.lt_ge_cases k ((j + 1) * q)); [apply Hrow|apply G4]; lia.
    + right. split; [done|]. intros k Hk. destruct (Z.lt_ge_cases k ((j + 1) * q)); [apply Hrow|apply G2]; lia.
Qed.

(** An allocation takes the first free entry from the cursor on. *)
Lemma alloc_spec : cursor_ok c ->
  (exists cl, cursor c <= cl < fat_entries c /\ vfat_alloc_fat_entry v = Some (0, taken cl, cl) /\
     entry v cl = 0 /\ forall k, cursor c <= k < cl -> entry v k <> 0) \/
  (vfat_alloc_fat_entry v = Some (0, v, 0) /\ forall k, cursor c <= k < fat_entries c -> entry v k <> 0).
Proof.
  intros (C1 & C2 & C3). destruct (sector_words_eq c G) as [_ Hq]. pose proof (geo_begin c G) as Hb0. pose proof (fat_limit c G) as Hlim. pose proof (geo_count c G).
  unfold vfat_alloc_fat_entry, cursor. rewrite (u32_small (fat_begin_lba c + fat_blk_count c)) by (unfold is_u32; lia).
  pose proof (alloc_sectors_spec (Z.to_nat (fat_begin_lba c + fat_blk_count c - last_allocated_sector c)) (last_allocated_sector c - fat_begin_lba c)
    (last_allocated_index c) None 0xFFFFFFFF ltac:(lia) ltac:(lia) C2 ltac:(auto)) as H0.
  replace (fat_begin_lba c + (last_allocated_sector c - fat_begin_lba c)) with (last_allocated_sector c) in H0 by lia. exact H0.
Qed.

Lemma cursor_low : cursor_ok c -> 2 <= cursor c.
Proof.
  intros (C1 & C2 & C3). destruct (sector_words_eq c G) as [_ Hq]. unfold cursor.
  destruct (decide (last_allocated_sector c = fat_begin_lba c)) as [E|E]; [pose proof (C3 E); nia|nia].
Qed.

(** After the entry [cl] is taken, the next search starts after it, or at the beginning when it is the last one. *)
Lemma taken_cursor cl : 2 <= cl < fat_entries c ->
  cursor_ok (ctx (taken cl)) /\ cursor (ctx (taken cl)) = if cl + 1 =? fat_entries c then 2 else cl + 1.
Proof.
  intros Hc. destruct (sector_words_eq c G) as [_ Hq]. pose proof (geo_count c G). unfold taken. destruct (Z.eqb_spec (cl + 1) (fat_entries c)) as [E|E].
  - unfold cursor_ok, cursor, sector_words; cbn. fold q. split; [split_and!; lia|lia].
  - pose proof (Z.div_mod (cl + 1) q ltac:(lia)). pose proof (Z.mod_pos_bound (cl + 1) q ltac:(lia)). pose proof (Z.div_pos (cl + 1) q ltac:(lia) ltac:(lia)).
    assert ((cl + 1) / q < fat_blk_count c) by (apply Z.div_lt_upper_bound; [lia|]; unfold fat_entries in *; lia).
    unfold cursor_ok, cursor, sector_words; cbn. fold q. split; [|lia]. split_and!; try lia.
Qed.
End Alloc.
