(* ===== verification/FatChain.v ===== *)
(** * FatChain: files as chains of clusters, and the contract of the file allocation table *)

From S2P Require Import Prelude Pmm Fat FatSpec.

(** What every operation keeps *)
Definition core (v : vfat) : Prop := geometry (ctx v) /\ pages_ok v /\ cursor_ok (ctx v).

(** [v'] is [v] with other entries: the table has the same size. *)
Definition same_size (v v' : vfat) : Prop := fat_entries (ctx v') = fat_entries (ctx v).

(** The clusters of a file, from one to the last *)
Fixpoint links (v : vfat) (l : list Z) : Prop :=
  match l with
  | [] => False
  | x :: l' => 2 <= x < fat_entries (ctx v) /\ match l' with [] => EOC <= entry v x | y :: _ => entry v x = y /\ links v l' end
  end.

Section Links.
Implicit Types (v : vfat) (l : list Z) (x y : Z).

Lemma links_range v l x : links v l -> x ∈ l -> 2 <= x < fat_entries (ctx v).
Proof.
  induction l as [|z l IH]; cbn; [done|]. intros [Hz Hl] Hx. apply elem_of_cons in Hx as [->|Hx]; [done|].
  destruct l as [|y l]; [inversion Hx|]. apply IH; [apply Hl|done].
Qed.

Lemma links_used v l x : links v l -> x ∈ l -> entry v x <> 0.
Proof.
  induction l as [|z l IH]; cbn; [done|]. intros [Hz Hl] Hx. apply elem_of_cons in Hx as [->|Hx].
  - destruct l as [|y l]; [unfold EOC in *; lia|]. destruct Hl as [-> Hl]. cbn in Hl. lia.
  - destruct l as [|y l]; [inversion Hx|]. apply IH; [apply Hl|done].
Qed.

Lemma links_frame v v' l : same_size v v' -> (forall x, x ∈ l -> entry v' x = entry v x) -> links v l -> links v' l.
Proof.
  intros Hs. induction l as [|z l IH]; cbn; [done|]. intros Hf [Hz Hl]. rewrite Hs. split; [done|]. rewrite Hf by set_solver.
  destruct l as [|y l]; [done|]. split; [apply Hl|]. apply IH; [set_solver|apply Hl].
Qed.

Lemma links_next v pre x y l : links v (pre ++ x :: y :: l) -> entry v x = y.
Proof. induction pre as [|z pre IH]; cbn; [tauto|]. intros [_ Hl]. apply IH. destruct pre; apply Hl. Qed.

Lemma links_last v pre x : links v (pre ++ [x]) -> EOC <= entry v x.
Proof. induction pre as [|z pre IH]; cbn; [tauto|]. intros [_ Hl]. apply IH. destruct pre; apply Hl. Qed.

(** The last cluster is linked to a new one. *)
Lemma links_snoc v v' pre x y : same_size v v' -> links v (pre ++ [x]) -> NoDup (pre ++ [x]) -> y ∉ pre ++ [x] -> 2 <= y < fat_entries (ctx v) ->
  entry v' x = y -> EOC <= entry v' y -> (forall k, k <> x -> k <> y -> entry v' k = entry v k) -> links v' ((pre ++ [x]) ++ [y]).
Proof.
  intros Hs. induction pre as [|z pre IH]; cbn [app].
  - intros [Hx _] _ Hy Hr E1 E2 _. cbn. rewrite Hs. tauto.
  - intros Hl Hnd Hy Hr E1 E2 Hf. apply NoDup_cons in Hnd as [Hz Hnd]. rewrite elem_of_app, list_elem_of_singleton in Hz. rewrite elem_of_cons in Hy.
    cbn in Hl. destruct Hl as [Hzr Hl]. cbn. rewrite Hs. split; [done|].
    assert (Ez : entry v' z = entry v z) by (apply Hf; [intros ->; tauto|intros ->; tauto]).
    destruct pre as [|w pre]; cbn in *.
    + destruct Hl as [Ew Hl]. split; [congruence|]. rewrite Hs. tauto.
    + destruct Hl as [Ew Hl]. split; [congruence|]. apply (IH Hl Hnd); tauto.
Qed.

End Links.

Lemma range_length (l : list Z) n : 0 <= n -> NoDup l -> (forall x, x ∈ l -> 2 <= x < n) -> zlen l <= n.
Proof.
  intros Hn Hnd Hr. assert (Hsub : l ⊆+ seqZ 0 n).
  { apply NoDup_submseteq; [done|]. intros x Hx. apply elem_of_seqZ. pose proof (Hr x Hx). lia. }
  apply submseteq_length in Hsub. rewrite length_seqZ in Hsub. unfold zlen. lia.
Qed.

Lemma mask_small x : 0 <= x < 2 ^ 28 -> Z.land x FREE_MASK = x.
Proof. intros H. unfold FREE_MASK. change 0x0FFFFFFF with (Z.ones 28). rewrite Z.land_ones by lia. apply Z.mod_small. done. Qed.

(** ** Operations, entry by entry *)

Section Ops.
Implicit Types (v : vfat) (x cl : Z).

Lemma core_entries v : core v -> 0 < fat_entries (ctx v) <= 0x0FFFFFF7.
Proof. intros (G & _). apply (fat_bounds _ G). Qed.

Lemma set_entry_core v cl x : core v -> core (set_entry v cl x).
Proof. intros (G & P & C). split; [done|]. split; [|done]. apply set_entry_pages. done. Qed.

Lemma alloc_core v : core v ->
  (exists cl v', vfat_alloc_fat_entry v = Some (0, v', cl) /\ core v' /\ same_size v v' /\ cursor (ctx v) <= cl /\ 2 <= cl < fat_entries (ctx v) /\ entry v cl = 0 /\
     entry v' cl = EOC /\ forall k, k <> cl -> entry v' k = entry v k) \/
  (vfat_alloc_fat_entry v = Some (0, v, 0) /\ forall k, cursor (ctx v) <= k < fat_entries (ctx v) -> entry v k <> 0).
Proof.
  intros (G & P & C). pose proof (cursor_low v G C) as Hlow. destruct (alloc_spec v G P C) as [(cl & H1 & H2 & H3 & _)|[H1 H2]]; [left|right; done].
  exists cl, (taken v cl). destruct (taken_cursor v G cl ltac:(lia)) as [Hcur _].
  assert (Hent : forall k, entry (taken v cl) k = entry (set_entry v cl EOC) k) by (intros k; unfold taken; destruct (_ =? _); done).
  split_and!; try done; try lia.
  - split_and!; [|intros k Hk|done]; unfold taken in *; destruct (_ =? _); try (destruct G; split; done); apply (set_entry_pages v cl EOC P k Hk).
  - unfold same_size, taken. destruct (_ =? _); done.
  - rewrite Hent, entry_set_same by (done || lia). done.
  - intros k Hk. rewrite Hent, entry_set_other by (done || lia). done.
Qed.

Lemma place_load v cl : core v -> 0 <= cl < fat_entries (ctx v) ->
  exists buf x, fat_place (ctx v) cl = ((fat_base (ctx v) + cl) / 1024, (fat_base (ctx v) + cl) mod 1024) /\
    cache v !! ((fat_base (ctx v) + cl) / 1024) = Some buf /\
    load_word v ((fat_base (ctx v) + cl) / 1024) ((fat_base (ctx v) + cl) mod 1024) = Some x /\ Z.land x FREE_MASK = entry v cl.
Proof.
  intros (G & P & C) Hc. destruct (page_present v cl P Hc) as [buf Hb]. destruct (load_entry v cl P Hc) as (x & Hx & Ex).
  exists buf, x. split_and!; try done. apply fat_place_entry; done.
Qed.

Lemma extend_core fuel v x : core v -> 2 <= x < fat_entries (ctx v) -> EOC <= entry v x ->
  (exists cl v', vfat_extend_cluster fuel v x = Some (0, v', cl) /\ core v' /\ same_size v v' /\ 2 <= cl < fat_entries (ctx v) /\ entry v cl = 0 /\
     entry v' cl = EOC /\ entry v' x = cl /\ forall k, k <> cl -> k <> x -> entry v' k = entry v k) \/
  (vfat_extend_cluster fuel v x = Some (0, v, 0) /\ forall k, cursor (ctx v) <= k < fat_entries (ctx v) -> entry v k <> 0).
Proof.
  intros Hcore Hx Hend. destruct (alloc_core v Hcore) as [(cl & v1 & E & Hc1 & Hs & Hcu & Hcl & Hz & Hn & Ho)|[E Hfull]]; unfold vfat_extend_cluster; rewrite E; cbn [mbind option_bind].
  2:{ right. done. }
  left. assert (Hne : x <> cl) by (intros ->; unfold EOC in *; lia). cbn [negb Z.eqb]. rewrite (proj2 (Z.eqb_neq cl 0)) by lia.
  assert (Hxr : 0 <= x < fat_entries (ctx v1)) by (rewrite Hs; lia).
  destruct (place_load v1 x Hc1 Hxr) as (buf & y & -> & -> & -> & Ey). cbn [mbind option_bind].
  change 0x0FFFFFFF with FREE_MASK. rewrite Ey, Ho by done. rewrite (proj2 (Z.leb_le _ _)) by exact Hend.
  pose proof (core_entries v Hcore) as Hent.
  rewrite store_fat_entry by (done || apply Hc1). cbn [mbind option_bind]. exists cl, (set_entry v1 x cl).
  split; [done|]. split; [apply set_entry_core; done|]. split; [done|]. split; [done|]. split; [done|]. split_and!.
  - rewrite entry_set_other by (apply Hc1 || done || congruence). done.
  - rewrite entry_set_same by (apply Hc1 || done). apply mask_small. lia.
  - intros k Hk1 Hk2. rewrite entry_set_other by (apply Hc1 || done). apply Ho. done.
Qed.

(** A turn of the loop of the release *)
Lemma free_turn fuel v x : core v -> 2 <= x < fat_entries (ctx v) ->
  vfat_free_fat_entry (S fuel) v x = vfat_free_fat_entry fuel (set_entry v x 0) (entry v x).
Proof.
  intros Hc Hx. pose proof (core_entries v Hc) as Hent. cbn [vfat_free_fat_entry].
  rewrite (proj2 (Z.ltb_lt 0 x)), (proj2 (Z.ltb_lt x 0x0FFFFFF7)) by lia. cbn [andb].
  destruct (place_load v x Hc ltac:(lia)) as (buf & z & -> & -> & -> & Ez). cbn [mbind option_bind].
  rewrite store_fat_entry by (apply Hc || lia). cbn [mbind option_bind]. change 0x0FFFFFFF with FREE_MASK. rewrite Ez. done.
Qed.

Lemma free_end fuel v x : EOC <= x -> vfat_free_fat_entry fuel v x = Some (0, v).
Proof.
  unfold EOC. intros Hx. assert (Hlt : (x <? 0x0FFFFFF7) = false) by (apply Z.ltb_ge; lia).
  destruct fuel; cbn [vfat_free_fat_entry]; rewrite Hlt, andb_false_r; done.
Qed.

(** The release of a chain *)
Lemma free_core l : forall fuel v x, core v -> links v (x :: l) -> NoDup (x :: l) -> zlen (x :: l) <= Z.of_nat fuel ->
  exists v', vfat_free_fat_entry fuel v x = Some (0, v') /\ core v' /\ ctx v' = ctx v /\
    forall k, entry v' k = if decide (k ∈ x :: l) then 0 else entry v k.
Proof.
  induction l as [|y l IH]; intros fuel v x Hc Hl Hnd Hf; pose proof (links_range v _ x Hl ltac:(set_solver)) as Hx;
    rewrite zlen_cons in Hf; (destruct fuel as [|fuel]; [exfalso; unfold zlen in Hf; lia|]); rewrite free_turn by done;
    pose proof (set_entry_core v x 0 Hc) as Hc'; assert (Hk0 : forall k, entry (set_entry v x 0) k = if decide (k = x) then 0 else entry v k)
      by (intros k; destruct (decide (k = x)) as [->|]; [rewrite entry_set_same by (apply Hc || lia)|rewrite entry_set_other by (apply Hc || lia)]; done).
  - rewrite free_end by apply Hl. exists (set_entry v x 0). split_and!; try done.
    intros k. rewrite Hk0. destruct (decide (k = x)) as [->|Hne]; [rewrite decide_True by set_solver|rewrite decide_False by set_solver]; done.
  - destruct Hl as [_ [Ey Hl]]. rewrite Ey. apply NoDup_cons in Hnd as [Hnx Hnd].
    assert (Hl' : links (set_entry v x 0) (y :: l)) by (apply (links_frame v); [done| |done]; intros k Hk; rewrite Hk0, decide_False; [done|congruence]).
    destruct (IH fuel (set_entry v x 0) y Hc' Hl' Hnd ltac:(lia)) as (v' & E & Hcv & Ec & Hk). exists v'. split_and!; try done.
    intros k. rewrite Hk, Hk0. destruct (decide (k = x)) as [->|Hne]; [rewrite (decide_True (P := x ∈ x :: y :: l)) by set_solver; destruct (decide (x ∈ y :: l)); done|].
    destruct (decide (k ∈ y :: l)) as [Hin|Hni]; [rewrite decide_True by set_solver|rewrite decide_False by set_solver]; done.
Qed.
End Ops.

(** ** Growth of a chain *)

(** The chain [L] of [v] has the new clusters [new] at its end in [v'], which were free, and nothing else has changed. *)
Record grown (v v' : vfat) (L new : list Z) : Prop := {
  gr_core : core v'; gr_size : same_size v v'; gr_links : links v' (L ++ new); gr_nodup : NoDup (L ++ new);
  gr_fresh : forall k, k ∈ new -> 2 <= k < fat_entries (ctx v) /\ entry v k = 0;
  gr_frame : forall k, k ∉ L ++ new -> entry v' k = entry v k;
}.

Section Growth.
Implicit Types (v : vfat) (L new : list Z).

Lemma grown_refl v L : core v -> links v L -> NoDup L -> grown v v L [].
Proof. intros Hc Hl Hnd. split; rewrite ?app_nil_r; try done. intros k Hk. inversion Hk. Qed.

Lemma grown_one v v' pre x cl : core v' -> same_size v v' -> links v (pre ++ [x]) -> NoDup (pre ++ [x]) -> 2 <= cl < fat_entries (ctx v) ->
  entry v cl = 0 -> entry v' cl = EOC -> entry v' x = cl -> (forall k, k <> cl -> k <> x -> entry v' k = entry v k) -> grown v v' (pre ++ [x]) [cl].
Proof.
  intros Hc Hs Hl Hnd Hcl Hz He Hx Hf. assert (Hni : cl ∉ pre ++ [x]) by (intros Hin; apply (links_used v _ cl Hl Hin); done).
  split; try done.
  - apply (links_snoc v); try done; [rewrite He; lia|]. auto.
  - apply NoDup_app. split_and!; [done| |apply NoDup_singleton]. intros k Hk Hk'. apply list_elem_of_singleton in Hk' as ->. done.
  - intros k Hk. apply list_elem_of_singleton in Hk as ->. done.
  - intros k Hk. apply Hf; set_solver.
Qed.

Lemma grown_trans v v1 v2 L new1 new2 : grown v v1 L new1 -> grown v1 v2 (L ++ new1) new2 -> grown v v2 L (new1 ++ new2).
Proof.
  intros [A1 A2 A3 A4 A5 A6] [B1 B2 B3 B4 B5 B6]. rewrite <- app_assoc in *. split; try done.
  - unfold same_size in *. congruence.
  - intros k Hk. apply elem_of_app in Hk as [Hk|Hk]; [auto|]. destruct (B5 k Hk) as [C1 C2]. unfold same_size in A2. rewrite A2 in C1. split; [done|].
    rewrite <- A6; [done|]. intros Hin. rewrite app_assoc in B4. apply NoDup_app in B4 as (_ & Hd & _). exact (Hd k Hin Hk).
  - intros k Hk. rewrite B6 by done. apply A6. rewrite !elem_of_app in *. tauto.
Qed.

(** Where the walk along the chain stands *)
Definition walk_at v x off pg : Prop := off = fat_base (ctx v) + x /\ pg = off / 1024.

Lemma walk_load v x off pg : core v -> 2 <= x < fat_entries (ctx v) -> walk_at v x off pg ->
  exists w, load_word v pg (off mod (PMM_PAGE_SIZE / 4)) = Some w /\ Z.land w FREE_MASK = entry v x.
Proof. intros (G & P & C) Hx [-> ->]. destruct (load_entry v x P ltac:(lia)) as (w & Hw & Ew). exists w. done. Qed.

Lemma walk_next v x : core v -> 2 <= x < fat_entries (ctx v) ->
  let off := fat_begin_lba (ctx v) *! (bytes_per_sector (ctx v) / 4) +! x in
  walk_at v x off (off / (PMM_PAGE_SIZE / 4)) /\ cache v !! (off / (PMM_PAGE_SIZE / 4)) <> None.
Proof.
  intros (G & P & C) Hx off. unfold off. rewrite lookup_offset by (done || lia). change (PMM_PAGE_SIZE / 4) with 1024. split; [done|].
  destruct (page_present v x P ltac:(lia)) as [buf ->]. done.
Qed.

(** What the walk of [n] steps gives *)
Definition walk_result (n : nat) v (pre rest : list Z) (x ext : Z) (r : option (Z * vfat * Z * Z)) : Prop :=
  let L := pre ++ x :: rest in
  exists new v', grown v v' L new /\
    ((exists y ext', r = Some (0, v', y, ext') /\ (L ++ new) !! (length pre + n)%nat = Some y /\ length new = (n - length rest)%nat /\
        ext' = match new with [] => ext | _ => 1 end /\ (new = [] -> v' = v)) \/
     (exists ext', r = Some (VFS_ENOSPC, v', 0, ext') /\ (length new < n - length rest)%nat /\
        forall k, cursor (ctx v') <= k < fat_entries (ctx v') -> entry v' k <> 0)).

Lemma lookup_loop_spec n : forall fuel v pre x rest off pg ext, core v -> links v (pre ++ x :: rest) -> NoDup (pre ++ x :: rest) -> walk_at v x off pg ->
  walk_result n v pre rest x ext (lookup_loop n fuel v x off pg ext).
Proof.
  induction n as [|n IH]; intros fuel v pre x rest off pg ext Hc Hl Hnd Hw.
  { exists [], v. split; [apply grown_refl; done|]. left. exists x, ext. split_and!; try done. rewrite app_nil_r, Nat.add_0_r, list_lookup_middle; done. }
  pose proof (core_entries v Hc) as Hent. pose proof (links_range v _ x Hl ltac:(set_solver)) as Hx. cbn [lookup_loop].
  destruct (walk_load v x off pg Hc Hx Hw) as (w & -> & Ew). cbn [mbind option_bind]. change 0x0FFFFFFF with FREE_MASK. rewrite Ew.
  destruct rest as [|y rest].
  - pose proof (links_last v pre x Hl) as Hend. rewrite (proj2 (Z.eqb_neq _ 0x0FFFFFF7)) by (unfold EOC in *; lia). rewrite (proj2 (Z.leb_le 0x0FFFFFF8 _)) by exact Hend.
    destruct (extend_core fuel v x Hc Hx Hend) as [(cl & v1 & -> & Hc1 & Hs & Hcl & Hz & He & Hxe & Hf)|[-> Hfull]]; cbn [mbind option_bind negb Z.eqb].
    2:{ exists [], v. split; [apply grown_refl; done|]. right. exists ext. split_and!; try done. cbn. lia. }
    rewrite (proj2 (Z.eqb_neq cl 0)) by lia. cbn [mbind option_bind negb Z.eqb].
    pose proof (grown_one v v1 pre x cl Hc1 Hs Hl Hnd Hcl Hz He Hxe Hf) as Hg1. pose proof Hg1 as [_ _ Hl1 Hnd1 _ _].
    destruct (walk_next v1 cl Hc1 ltac:(unfold same_size in Hs; lia)) as [Hw1 Hpg].
    rewrite (bool_decide_eq_false_2 _ Hpg), andb_false_r. destruct (IH fuel v1 (pre ++ [x]) cl [] _ _ 1 Hc1 Hl1 Hnd1 Hw1) as (new & v' & Hg & Hres).
    exists (cl :: new), v'. split; [apply (grown_trans v v1 v' _ [cl]); done|]. destruct Hres as [(y & ext' & -> & Hy & Hlen & He' & Hsame)|(ext' & -> & Hlen & Hfull)].
    + left. exists y, ext'. rewrite Nat.sub_0_r in Hlen. split_and!; [done| |cbn in *; lia|destruct new; done|done].
      rewrite <- Hy, <- !app_assoc, length_app. cbn. f_equal. lia.
    + right. exists ext'. split_and!; [done|cbn in *; lia|done].
  - pose proof (links_next v pre x y rest Hl) as Ey. rewrite Ey. pose proof (links_range v _ y Hl ltac:(set_solver)) as Hy.
    rewrite (proj2 (Z.eqb_neq _ 0x0FFFFFF7)), (proj2 (Z.leb_gt 0x0FFFFFF8 _)) by lia. cbn [mbind option_bind negb Z.eqb].
    destruct (walk_next v y Hc Hy) as [Hw1 Hpg]. rewrite (bool_decide_eq_false_2 _ Hpg), andb_false_r.
    assert (Ea : pre ++ x :: y :: rest = (pre ++ [x]) ++ y :: rest) by (rewrite <- app_assoc; done).
    rewrite Ea in Hl, Hnd. destruct (IH fuel v (pre ++ [x]) y rest _ _ ext Hc Hl Hnd Hw1) as (new & v' & Hg & Hres).
    exists new, v'. rewrite Ea. split; [done|]. destruct Hres as [(z & ext' & -> & Hz & Hlen & He' & Hsame)|(ext' & -> & Hlen & Hfull)].
    + left. exists z, ext'. split_and!; try done. rewrite <- Hz, length_app. cbn. f_equal. lia.
    + right. exists ext'. done.
Qed.

Lemma query_core v x next : core v -> 2 <= x < fat_entries (ctx v) -> vfat_query_fat v x next = Some (0, entry v x).
Proof.
  intros Hc Hx. pose proof Hc as (G & P & C). unfold vfat_query_fat. rewrite query_offset by (done || lia).
  replace (Z.shiftr ((fat_base (ctx v) + x) * 4) PMM_PAGE_SHIFT) with ((fat_base (ctx v) + x) / 1024).
  2:{ unfold PMM_PAGE_SHIFT. rewrite Z.shiftr_div_pow2 by lia. change (2 ^ 12) with (1024 * 4). rewrite Z.div_mul_cancel_r by lia. done. }
  destruct (page_present v x P ltac:(lia)) as [buf ->]. change PMM_PAGE_SIZE with (1024 * 4). rewrite Z.mul_mod_distr_r, Z.mod_mul, Z.div_mul by lia. cbn [negb Z.eqb].
  destruct (load_entry v x P ltac:(lia)) as (w & Hw & Ew). unfold word_of in Hw. rewrite Hw. cbn [mbind option_bind]. change 0x0FFFFFFF with FREE_MASK. rewrite Ew. done.
Qed.

Lemma count_core l : forall fuel v x next i, core v -> links v (x :: l) -> zlen (x :: l) <= Z.of_nat fuel -> next < EOC ->
  vfat_cluster_count fuel v x next i = Some (i + zlen (x :: l)).
Proof.
  induction l as [|y l IH]; intros fuel v x next i Hc Hl Hf Hn; pose proof (links_range v _ x Hl ltac:(set_solver)) as Hx; pose proof (core_entries v Hc) as Hent;
    rewrite zlen_cons in Hf; (destruct fuel as [|fuel]; [exfalso; unfold zlen in Hf; lia|]); cbn [vfat_cluster_count];
    rewrite (proj2 (Z.ltb_lt next 0x0FFFFFF8)) by exact Hn; rewrite query_core by done; cbn [mbind option_bind]; destruct Hl as [_ Hl].
  - assert (Hlt : (entry v x <? 0x0FFFFFF8) = false) by (apply Z.ltb_ge; exact Hl). destruct fuel; cbn [vfat_cluster_count]; rewrite Hlt; f_equal; cbn; lia.
  - destruct Hl as [-> Hl]. pose proof (links_range v _ y Hl ltac:(set_solver)) as Hy. rewrite IH; [|done|done|lia|unfold EOC; lia]. f_equal. rewrite !zlen_cons. lia.
Qed.
End Growth.
