(* ===== verification/FatStore.v ===== *)
(** * FatStore: the contract of the file allocation table

    A store has files, each the list of its clusters under its first one, and a set of free clusters.  [fat_step] says what an operation may do
    to it; the operations of [Fat] implement it. *)

From S2P Require Import Prelude Pmm Fat FatSpec FatChain.

Record store := Store { files : gmap Z (list Z); free : gset Z }.

Inductive fat_op := Create | Cluster (f rank : Z) | Count (f : Z) | Delete (f : Z).

(** The calls: the error, the cluster or the number that they give *)
Definition run_op (fuel : nat) (v : vfat) (o : fat_op) : option (Z * Z * vfat) :=
  match o with
  | Create => '(err, v, cl) ← vfat_alloc_fat_entry v; Some (err, cl, v)
  | Cluster f rank => '(err, v, cl, _) ← vfat_cluster_lookup fuel v f rank; Some (err, cl, v)
  | Count f => n ← vfat_cluster_count fuel v f 0 0; Some (0, n, v)
  | Delete f => '(err, v) ← vfat_free_fat_entry fuel v f; Some (err, 0, v)
  end.

(** [low] and [low']: the place from which an allocation searches, before and after *)
Inductive fat_step (low : Z) (st : store) (low' : Z) : fat_op -> Z * Z -> store -> Prop :=
| fat_create cl : cl ∈ free st -> low <= cl -> fat_step low st low' Create (0, cl) (Store (<[cl := [cl]]> (files st)) (free st ∖ {[cl]}))
| fat_create_full : (forall k, k ∈ free st -> k < low) -> low' = low -> fat_step low st low' Create (0, 0) st
| fat_cluster f l rank y : files st !! f = Some l -> zget l rank = Some y -> low' = low -> fat_step low st low' (Cluster f rank) (0, y) st
| fat_cluster_grow f l rank new y : files st !! f = Some l -> NoDup new -> (forall k, k ∈ new -> k ∈ free st) -> new <> [] ->
    zlen (l ++ new) = rank + 1 -> zget (l ++ new) rank = Some y ->
    fat_step low st low' (Cluster f rank) (0, y) (Store (<[f := l ++ new]> (files st)) (free st ∖ list_to_set new))
| fat_cluster_full f l rank new : files st !! f = Some l -> NoDup new -> (forall k, k ∈ new -> k ∈ free st) -> zlen (l ++ new) <= rank ->
    (forall k, k ∈ free st -> k ∉ new -> k < low') ->
    fat_step low st low' (Cluster f rank) (VFS_ENOSPC, 0) (Store (<[f := l ++ new]> (files st)) (free st ∖ list_to_set new))
| fat_count f l : files st !! f = Some l -> low' = low -> fat_step low st low' (Count f) (0, zlen l) st
| fat_delete f l : files st !! f = Some l -> low' = low -> fat_step low st low' (Delete f) (0, 0) (Store (delete f (files st)) (free st ∪ list_to_set l)).

(** The operations that a client may call *)
Definition legal (st : store) (o : fat_op) : Prop :=
  match o with Create => True | Cluster f rank => is_Some (files st !! f) /\ 0 <= rank | Count f | Delete f => is_Some (files st !! f) end.

(** The store that a table stands for *)
Record repr (v : vfat) (st : store) : Prop := {
  rp_core : core v;
  rp_free : forall cl, cl ∈ free st <-> 2 <= cl < fat_entries (ctx v) /\ entry v cl = 0;
  rp_file : forall f l, files st !! f = Some l -> head l = Some f /\ links v l /\ NoDup l;
  rp_disj : forall f g l m x, files st !! f = Some l -> files st !! g = Some m -> x ∈ l -> x ∈ m -> f = g;
}.

Section Contract.
Implicit Types (v : vfat) (st : store).

Lemma repr_file v st f l : repr v st -> files st !! f = Some l -> exists l', l = f :: l'.
Proof. intros R Hf. destruct (rp_file _ _ R f l Hf) as [Hh _]. destruct l as [|x l']; [done|]. injection Hh as ->. eauto. Qed.

Lemma repr_length v st f l : repr v st -> files st !! f = Some l -> zlen l <= fat_entries (ctx v).
Proof.
  intros R Hf. destruct (rp_file _ _ R f l Hf) as (_ & Hl & Hnd). pose proof (core_entries v (rp_core _ _ R)).
  apply range_length; [lia|done|]. intros x Hx. apply (links_range v l); done.
Qed.

(** A free cluster is in no file. *)
Lemma free_not_in v st f l x : repr v st -> files st !! f = Some l -> x ∈ free st -> x ∉ l.
Proof. intros R Hf Hx Hin. apply (links_used v l x); [apply (rp_file _ _ R f l Hf)|done|]. apply (rp_free _ _ R). done. Qed.

Lemma repr_create v v' st cl : repr v st -> core v' -> same_size v v' -> 2 <= cl < fat_entries (ctx v) -> entry v cl = 0 -> entry v' cl = EOC ->
  (forall k, k <> cl -> entry v' k = entry v k) -> repr v' (Store (<[cl := [cl]]> (files st)) (free st ∖ {[cl]})).
Proof.
  intros R Hc Hs Hcl Hz He Hf. assert (Hfree : cl ∈ free st) by (apply (rp_free _ _ R); done). split; cbn; [done| | |].
  - intros k. rewrite elem_of_difference, elem_of_singleton, (rp_free _ _ R), Hs. destruct (decide (k = cl)) as [->|Hne]; [rewrite He; unfold EOC; lia|].
    rewrite Hf by done. tauto.
  - intros f l. destruct (decide (f = cl)) as [->|Hne].
    + rewrite lookup_insert_eq. intros [= <-]. split; [done|]. split; [|apply NoDup_singleton]. cbn. rewrite Hs, He. split; [done|]. lia.
    + rewrite lookup_insert_ne by done. intros Hl. destruct (rp_file _ _ R f l Hl) as (H1 & H2 & H3). split_and!; try done.
      apply (links_frame v); [done| |done]. intros x Hx. apply Hf. intros ->. apply (free_not_in v st f l cl); done.
  - intros f g l m x. destruct (decide (f = cl)) as [->|Hnf], (decide (g = cl)) as [->|Hng]; rewrite ?lookup_insert_eq, ?lookup_insert_ne by done; try done.
    + intros [= <-] Hm Hx Hxm. apply list_elem_of_singleton in Hx as ->. destruct (free_not_in v st g m cl R Hm Hfree Hxm).
    + intros Hl [= <-] Hxl Hx. apply list_elem_of_singleton in Hx as ->. destruct (free_not_in v st f l cl R Hl Hfree Hxl).
    + apply (rp_disj _ _ R).
Qed.

Lemma repr_grown v v' st f l new : repr v st -> files st !! f = Some l -> grown v v' l new ->
  repr v' (Store (<[f := l ++ new]> (files st)) (free st ∖ list_to_set new)).
Proof.
  intros R Hf [Hc Hs Hl Hnd Hfr Hframe]. unfold same_size in Hs. assert (Hnew : forall k, k ∈ new -> k ∈ free st) by (intros k Hk; apply (rp_free _ _ R); auto).
  assert (Hother : forall g m x, g <> f -> files st !! g = Some m -> x ∈ m -> x ∉ l ++ new).
  { intros g m x Hg Hm Hx Hin. apply elem_of_app in Hin as [Hin|Hin]; [apply Hg; apply (rp_disj _ _ R g f m l x); done|].
    apply (free_not_in v st g m x); auto. }
  split; cbn; [done| | |].
  - intros k. rewrite elem_of_difference, elem_of_list_to_set, (rp_free _ _ R), Hs. destruct (decide (k ∈ l ++ new)) as [Hin|Hni].
    + pose proof (links_used v' _ k Hl Hin) as Hu. apply elem_of_app in Hin as [Hin|Hin]; [|naive_solver].
      pose proof (links_used v l k ltac:(apply (rp_file _ _ R f l Hf)) Hin). naive_solver.
    + rewrite Hframe by done. assert (k ∉ new) by (intros Hk; apply Hni; rewrite elem_of_app; auto). tauto.
  - intros g m. destruct (decide (g = f)) as [->|Hne].
    + rewrite lookup_insert_eq. intros [= <-]. split_and!; try done. destruct (repr_file v st f l R Hf) as [l' ->]. done.
    + rewrite lookup_insert_ne by done. intros Hm. destruct (rp_file _ _ R g m Hm) as (H1 & H2 & H3). split_and!; try done.
      apply (links_frame v); [done| |done]. intros x Hx. apply Hframe. apply (Hother g m); done.
  - intros g h m k x. destruct (decide (g = f)) as [->|Hg], (decide (h = f)) as [->|Hh]; rewrite ?lookup_insert_eq, ?lookup_insert_ne by done; try done.
    + intros [= <-] Hk Hx Hxk. destruct (Hother h k x Hh Hk Hxk Hx).
    + intros Hm [= <-] Hxm Hx. destruct (Hother g m x Hg Hm Hxm Hx).
    + apply (rp_disj _ _ R).
Qed.

Lemma repr_delete v v' st f l : repr v st -> files st !! f = Some l -> core v' -> ctx v' = ctx v ->
  (forall k, entry v' k = if decide (k ∈ l) then 0 else entry v k) -> repr v' (Store (delete f (files st)) (free st ∪ list_to_set l)).
Proof.
  intros R Hf Hc Ec He. assert (Hlr : forall x, x ∈ l -> 2 <= x < fat_entries (ctx v)) by (intros x; apply links_range; apply (rp_file _ _ R f l Hf)).
  split; cbn; [done| | |].
  - intros k. rewrite elem_of_union, elem_of_list_to_set, (rp_free _ _ R), Ec, He. destruct (decide (k ∈ l)) as [Hin|Hni]; [pose proof (Hlr k Hin)|]; tauto.
  - intros g m Hm. apply lookup_delete_Some in Hm as [Hne Hm]. destruct (rp_file _ _ R g m Hm) as (H1 & H2 & H3). split_and!; try done.
    apply (links_frame v); [unfold same_size; congruence| |done]. intros x Hx. rewrite He, decide_False; [done|]. intros Hin. apply Hne. apply (rp_disj _ _ R f g l m x); done.
  - intros g h m k x Hm Hk. apply lookup_delete_Some in Hm as [_ Hm]. apply lookup_delete_Some in Hk as [_ Hk]. apply (rp_disj _ _ R); done.
Qed.
End Contract.

Section Steps.
Context (fuel : nat) (v : vfat) (st : store) (R : repr v st) (Hfuel : fat_entries (ctx v) <= Z.of_nat fuel).

(** The run of [o] is a step of the store. *)
Definition implements (o : fat_op) : Prop :=
  exists err r v' st', run_op fuel v o = Some (err, r, v') /\ fat_step (cursor (ctx v)) st (cursor (ctx v')) o (err, r) st' /\ repr v' st'.

Lemma create_implements : implements Create.
Proof.
  unfold implements, run_op. destruct (alloc_core v (rp_core _ _ R)) as [(cl & v' & -> & Hc & Hs & Hcu & Hcl & Hz & He & Hf)|[-> Hfull]]; cbn [mbind option_bind].
  - exists 0, cl, v'. eexists. split; [done|]. split; [|apply (repr_create v); done]. apply fat_create; [|done]. apply (rp_free _ _ R). done.
  - exists 0, 0, v, st. split; [done|]. split; [|done]. apply fat_create_full; [|done]. intros k Hk. apply (rp_free _ _ R) in Hk as [Hk Hz].
    destruct (Z.lt_ge_cases k (cursor (ctx v))) as [|Hge]; [done|]. destruct (Hfull k ltac:(lia) Hz).
Qed.

Lemma cluster_implements f rank : is_Some (files st !! f) -> 0 <= rank -> implements (Cluster f rank).
Proof.
  intros [l Hf] Hrank. destruct (rp_file _ _ R f l Hf) as (_ & Hl & Hnd). destruct (repr_file v st f l R Hf) as [l' ->].
  pose proof (links_range v _ f Hl ltac:(set_solver)) as Hfr. pose proof (rp_core _ _ R) as Hc. unfold implements, run_op, vfat_cluster_lookup.
  rewrite (proj2 (Z.eqb_neq _ 0)) by (apply Hc). destruct (walk_next v f Hc Hfr) as [Hw Hpg]. destruct (cache v !! _) as [buf|]; [|done].
  destruct (lookup_loop_spec (Z.to_nat rank) fuel v [] f l' _ _ 0 Hc Hl Hnd Hw) as (new & v' & Hg & Hres). cbn [app length Nat.add] in *.
  pose proof (repr_grown v v' st f (f :: l') new R Hf Hg) as R'. pose proof (gr_nodup _ _ _ _ Hg) as Hnd'. apply NoDup_app in Hnd' as (_ & _ & Hndn).
  assert (Hnew : forall k, k ∈ new -> k ∈ free st) by (intros k Hk; apply (rp_free _ _ R); apply (gr_fresh _ _ _ _ Hg); done).
  destruct Hres as [(y & ext' & -> & Hy & Hlen & _ & Hsame)|(ext' & -> & Hlen & Hfull)]; cbn [mbind option_bind].
  - destruct (decide (new = [])) as [->|Hne].
    + rewrite (Hsame eq_refl) in *. exists 0, y, v, st. split; [done|]. split; [|done]. apply fat_cluster with (f :: l'); [done| |done]. rewrite app_nil_r in Hy. exact Hy.
    + exists 0, y, v'. eexists. split; [done|]. split; [|exact R']. apply fat_cluster_grow; try done. destruct new as [|z new]; [done|].
      rewrite zlen_app, !zlen_cons. cbn in Hlen. unfold zlen. lia.
  - exists VFS_ENOSPC, 0, v'. eexists. split; [done|]. split; [|exact R']. apply fat_cluster_full; try done; [unfold zlen; rewrite length_app; cbn; lia|].
    intros k Hk Hkn. assert (Hk' : k ∈ free st ∖ list_to_set new) by (rewrite elem_of_difference, elem_of_list_to_set; done).
    apply (rp_free _ _ R') in Hk' as [Hkr Hz]. destruct (Z.lt_ge_cases k (cursor (ctx v'))) as [|Hge]; [done|]. destruct (Hfull k ltac:(lia) Hz).
Qed.

Lemma count_implements f : is_Some (files st !! f) -> implements (Count f).
Proof.
  intros [l Hf]. destruct (rp_file _ _ R f l Hf) as (_ & Hl & Hnd). pose proof (repr_length v st f l R Hf) as Hlen. destruct (repr_file v st f l R Hf) as [l' ->].
  unfold implements, run_op. rewrite (count_core l') by (apply R || done || lia). cbn [mbind option_bind].
  exists 0, (0 + zlen (f :: l')), v, st. split; [done|]. split; [|done]. rewrite Z.add_0_l. apply fat_count; done.
Qed.

Lemma delete_implements f : is_Some (files st !! f) -> implements (Delete f).
Proof.
  intros [l Hf]. destruct (rp_file _ _ R f l Hf) as (_ & Hl & Hnd). pose proof (repr_length v st f l R Hf) as Hlen. destruct (repr_file v st f l R Hf) as [l' ->].
  unfold implements, run_op. destruct (free_core l' fuel v f (rp_core _ _ R) Hl Hnd ltac:(lia)) as (v' & -> & Hc & Ec & He). cbn [mbind option_bind].
  exists 0, 0, v'. eexists. split; [done|]. split; [|apply (repr_delete v v' st f (f :: l')); done]. apply fat_delete; [done|]. rewrite Ec. done.
Qed.
End Steps.

(** C5: The file allocation table implements a store of files: whatever the sector size and the place of the table on the device, from a
    table whose files are disjoint chains, an allocation takes a free cluster from the cursor on and reports a full table exactly when
    there is none there; the cluster of a file at a rank is found, or the file grows by as many free clusters as are missing, or ENOSPC is
    answered when the search finds no more; counting and releasing visit the whole chain and nothing else.  Every loop ends, no access leaves a page, and
    the other files do not change. *)
Theorem fat_implements_store fuel v st o : repr v st -> legal st o -> fat_entries (ctx v) <= Z.of_nat fuel ->
  exists err r v' st', run_op fuel v o = Some (err, r, v') /\ fat_step (cursor (ctx v)) st (cursor (ctx v')) o (err, r) st' /\ repr v' st'.
Proof.
  intros R Ho Hf. destruct o as [|f rank|f|f]; cbn in Ho.
  - apply (create_implements fuel v st R).
  - apply (cluster_implements fuel v st R Hf f rank (proj1 Ho) (proj2 Ho)).
  - apply (count_implements fuel v st R Hf f Ho).
  - apply (delete_implements fuel v st R Hf f Ho).
Qed.

(** A table of one sector of 512 bytes, in the second page: the root at 2, a file at 3 and 4. *)
Definition demo_vfat : vfat :=
  Vfat (VfatContext 8 1 512 512 9 1 2 8 2) {[1 := [EOC; EOC; EOC; 4; EOC] ++ replicate 1019 0]} ∅.
Definition demo_store : store := Store (<[2 := [2]]> {[3 := [3; 4]]}) (list_to_set (seqZ 5 123)).

Lemma demo_repr : repr demo_vfat demo_store.
Proof.
  assert (Hg : geometry (ctx demo_vfat)) by (split; vm_compute; repeat split; discriminate || done).
  assert (Hfree : forallb (fun k => bool_decide (entry demo_vfat k = 0) && negb (bool_decide (k <= 4)) || negb (bool_decide (entry demo_vfat k = 0)) && bool_decide (k <= 4)) (seqZ 0 128) = true)
    by (vm_compute; reflexivity).
  split.
  - split; [done|]. split; [|vm_compute; repeat split; discriminate || done]. intros cl Hc. change (fat_entries (ctx demo_vfat)) with 128 in Hc.
    exists ([EOC; EOC; EOC; 4; EOC] ++ replicate 1019 0). change (fat_base (ctx demo_vfat)) with 1024.
    replace ((1024 + cl) / 1024) with 1 by (apply (Z.div_unique_pos _ _ _ cl); lia). split; [apply lookup_singleton_eq|vm_compute; reflexivity].
  - intros cl. unfold demo_store. cbn [free]. rewrite elem_of_list_to_set, elem_of_seqZ. change (fat_entries (ctx demo_vfat)) with 128.
    rewrite forallb_forall in Hfree. destruct (decide (0 <= cl < 128)) as [Hr|]; [|lia].
    assert (Hin : In cl (seqZ 0 128)) by (apply list_elem_of_In, elem_of_seqZ; lia). pose proof (Hfree cl Hin) as Hb.
    do 2 case_bool_decide; cbn in Hb; try done; lia.
  - intros f l Hf. unfold demo_store in Hf. cbn in Hf. apply lookup_insert_Some in Hf as [[<- <-]|[_ Hf]].
    + split; [done|]. split; [vm_compute; repeat split; discriminate || done|apply NoDup_singleton].
    + apply lookup_singleton_Some in Hf as [<- <-]. split; [done|]. split; [vm_compute; repeat split; discriminate || done|].
      apply NoDup_cons. split; [rewrite list_elem_of_singleton; lia|apply NoDup_singleton].
  - clear Hfree Hg. intros f g l m x Hf Hg'. unfold demo_store in *. cbn in *.
    apply lookup_insert_Some in Hf as [[<- <-]|[_ Hf]]; apply lookup_insert_Some in Hg' as [[<- <-]|[_ Hg']]; try done;
      rewrite ?lookup_singleton_Some in *; dand; subst; rewrite ?elem_of_cons, ?elem_of_nil; intros; lia.
Qed.

(** The file at 3 grows to reach the rank 3. *)
Lemma fat_implements_store_witness : repr demo_vfat demo_store /\ legal demo_store (Cluster 3 3) /\
  exists err r v' st', run_op 128 demo_vfat (Cluster 3 3) = Some (err, r, v') /\ fat_step (cursor (ctx demo_vfat)) demo_store (cursor (ctx v')) (Cluster 3 3) (err, r) st' /\ repr v' st'.
Proof.
  assert (Hl : legal demo_store (Cluster 3 3)) by (split; [vm_compute; eexists; reflexivity|lia]).
  split; [apply demo_repr|]. split; [exact Hl|]. apply (fat_implements_store 128 demo_vfat demo_store (Cluster 3 3) demo_repr Hl). vm_compute. discriminate.
Defined.

(** ** Behaviours that differ from what the code means *)

(** The search does not come back to the entries before the cursor: with the last entry taken by a file and every other one free, no cluster is
    found. *)
Definition full_from_cursor : vfat := Vfat (VfatContext 8 1 512 512 9 1 2 8 127) {[1 := [EOC; EOC; EOC] ++ replicate 124 0 ++ [EOC] ++ replicate 896 0]} ∅.

Theorem vfat_alloc_no_wrap :
  vfat_alloc_fat_entry full_from_cursor = Some (0, full_from_cursor, 0) /\ forall cl, 3 <= cl < 127 -> entry full_from_cursor cl = 0.
Proof.
  split; [vm_compute; reflexivity|]. assert (H : forallb (fun cl => entry full_from_cursor cl =? 0) (seqZ 3 124) = true) by (vm_compute; reflexivity).
  rewrite forallb_forall in H. intros cl Hc. apply Z.eqb_eq, H, list_elem_of_In, elem_of_seqZ. lia.
Qed.

(** [vfat_extend_cluster] on a cluster that has a next one gives back the cluster that it took, and returns it as the next cluster. *)
Theorem vfat_extend_stale :
  exists v, vfat_extend_cluster 128 demo_vfat 3 = Some (0, v, 5) /\ entry v 5 = 0 /\ entry v 3 = 4.
Proof. eexists. split; [vm_compute; reflexivity|]. split; vm_compute; reflexivity. Qed.
