(* ===== verification/FatDir.v ===== *)
(** * FatDir: directories of FAT32, [kernel/fs/fat32/fat32_node.c] and [vfat_locate_entry] of [fat32_access.c]

    The mapper of a directory gives its pages, tables of entries: a page that is not there is one that [mapper_get_page] cannot read.
    [m_dirty] are the pages marked by [set_page_dirty].  The name of a node is the memory from its first byte on, the null byte and what follows it included.
    The locks of the pages make an operation one step. *)

From S2P Require Import Prelude Pmm Fat.

Definition ENOENT : Z := 2.
Definition ENOTDIR : Z := 20.
Definition ENOTEMPTY : Z := 39.
Definition VFS_FOUND : Z := 0.
Definition VFS_NOT_FOUND : Z := ENOENT.
Definition VFS_ENOTEMPTY : Z := ENOTEMPTY.
Definition VFS_ENOTDIR : Z := ENOTDIR.
Definition VFS_EINVAL : Z := EINVAL.
Definition VFS_VFAT_TYPE : Z := 3.
Definition VFS_DIR : Z := 0x1.
Definition VFS_FIFO : Z := 0x2.
Definition VFS_DEV : Z := 0xC.
Definition VFS_RD_ONLY : Z := 0x40.
Definition VFS_SYS : Z := 0x80.
Definition VFS_ARCHIVE : Z := 0x100.
Definition VFAT_ATTR_READ_ONLY : Z := 0x01.
Definition VFAT_ATTR_SYSTEM : Z := 0x04.
Definition VFAT_ATTR_DIRECTORY : Z := 0x10.
Definition VFAT_ATTR_ARCHIVE : Z := 0x20.

Record vfat_DirEntry_s := DirEntry { DIR_Name : list Z; DIR_Attr : Z; DIR_FstClusHI : Z; DIR_FstClusLO : Z; DIR_FileSize : Z }.

Inductive mapper_op := vfat_file_mapper_op | vfat_node_mapper_op.
Record mapper_s := Mapper { m_pages : gmap Z (list vfat_DirEntry_s); m_dirty : gset Z; m_ops : option mapper_op }.

Record vfat_node_s := VfatNode { flags : Z; parent_cluster : Z; node_cluster : Z; entry_index : Z }.

(** [n_vfat_op]: [n_op == &vfat_n_op] *)
Record vfs_node_s := VfsNode { n_type : Z; n_name : list Z; n_attr : Z; n_count : Z; n_links : Z; n_size : Z; n_vfat_op : bool; n_pv : vfat_node_s; n_mapper : mapper_s }.

Definition set_n_attr a n := VfsNode (n_type n) (n_name n) a (n_count n) (n_links n) (n_size n) (n_vfat_op n) (n_pv n) (n_mapper n).
Definition set_n_links k n := VfsNode (n_type n) (n_name n) (n_attr n) (n_count n) k (n_size n) (n_vfat_op n) (n_pv n) (n_mapper n).
Definition set_n_size s n := VfsNode (n_type n) (n_name n) (n_attr n) (n_count n) (n_links n) s (n_vfat_op n) (n_pv n) (n_mapper n).
Definition set_n_pv i n := VfsNode (n_type n) (n_name n) (n_attr n) (n_count n) (n_links n) (n_size n) (n_vfat_op n) i (n_mapper n).
Definition set_n_mapper m n := VfsNode (n_type n) (n_name n) (n_attr n) (n_count n) (n_links n) (n_size n) (n_vfat_op n) (n_pv n) m.
Definition set_m_ops o m := Mapper (m_pages m) (m_dirty m) (Some o).
Definition set_page_dirty p m := Mapper (m_pages m) ({[p]} ∪ m_dirty m) (m_ops m).
Definition add_page p l m := Mapper (<[p := l]> (m_pages m)) (m_dirty m) (m_ops m).

(** [PMM_PAGE_SIZE / sizeof(struct vfat_DirEntry_s)] *)
Definition entries_nr : Z := PMM_PAGE_SIZE / 32.

Definition SPACE : Z := 32.
Definition DOT : Z := 46.
Definition FREED : Z := 0xE5.

(** ** Names *)

(** At most [n] bytes, up to a space *)
Fixpoint copy_until (n : nat) (l : list Z) : list Z :=
  match n, l with S n, x :: l => if x =? SPACE then [] else x :: copy_until n l | _, _ => [] end.

(** The string that is written *)
Definition vfat_getshortname (from : list Z) : list Z :=
  copy_until 8 from ++ (if negb (default SPACE (zget from 8) =? SPACE) then DOT :: copy_until 3 (drop 8 from) else []) ++ [0].

(** The loop of [vfat_convert_name]: the bytes it copies and what is left of the name *)
Fixpoint convert_loop (n : nat) (str1 : list Z) : option (list Z * list Z) :=
  match str1 with
  | [] => None
  | x :: l => if (x =? 0) || (x =? DOT) then Some ([], str1)
              else match n with O => Some ([], str1) | S n => '(c, r) ← convert_loop n l; Some (x :: c, r) end
  end.

(** [None]: the bytes of the extension are not in the memory of the name *)
Definition vfat_convert_name (str1 : list Z) : option (list Z) :=
  '(c, r) ← convert_loop 11 str1;
  let str2 := c ++ replicate (11 - length c) SPACE in
  match r with
  | x :: ext => if (zlen c <=? 8) && (x =? DOT) then (if decide (3 <= zlen ext) then Some (take 8 str2 ++ take 3 ext) else None) else Some str2
  | [] => None
  end.

(** The string of C at the head of a memory, and [strcmp(a, b) == 0] *)
Fixpoint c_string (l : list Z) : list Z := match l with [] => [] | x :: l => if x =? 0 then [] else x :: c_string l end.
Definition same_string (a b : list Z) : bool := bool_decide (c_string a = c_string b).

(** ** Search *)

Definition name0 (e : vfat_DirEntry_s) : Z := default 0 (zget (DIR_Name e) 0).

Inductive located := LNext | LReturn (err : Z) | LFound (i : Z) (e : vfat_DirEntry_s).

(** The loop over the entries of a page *)
Fixpoint locate_page (l : list vfat_DirEntry_s) (entry : Z) (entry_name : option (list Z)) : located :=
  match l with
  | [] => LNext
  | e :: l =>
      if name0 e =? 0 then LReturn VFS_NOT_FOUND
      else if name0 e =? FREED then locate_page l (entry + 1) entry_name
      else if name0 e =? DOT then locate_page l (entry + 1) entry_name
      else match entry_name with
           | None => LReturn VFS_ENOTEMPTY
           | Some name =>
               if DIR_Attr e =? 0x0F then locate_page l (entry + 1) entry_name
               else if same_string (vfat_getshortname (DIR_Name e)) name then LFound entry e
               else locate_page l (entry + 1) entry_name
           end
  end.

(** The loop over the pages: the error, and the index and the copy of the entry *)
Fixpoint locate_pages (fuel : nat) (d : mapper_s) (current_page : Z) (entry_name : option (list Z)) : option (Z * option (Z * vfat_DirEntry_s)) :=
  match fuel with
  | O => None
  | S fuel =>
      match m_pages d !! current_page with
      | None => Some (VFS_IO_ERR, None)
      | Some page =>
          match locate_page page 0 entry_name with
          | LReturn err => Some (err, None)
          | LFound i e => Some (VFS_FOUND, Some (current_page *! entries_nr +! i, e))
          | LNext => locate_pages fuel d (current_page + 1) entry_name
          end
      end
  end.
Definition vfat_locate_entry (fuel : nat) (d : mapper_s) (entry_name : option (list Z)) : option (Z * option (Z * vfat_DirEntry_s)) :=
  locate_pages fuel d 0 entry_name.

(** ** Creation *)

(** The first entry of a page that is free *)
Fixpoint free_in_page (l : list vfat_DirEntry_s) (entry : Z) : option (Z * vfat_DirEntry_s) :=
  match l with [] => None | e :: l => if (name0 e =? 0) || (name0 e =? FREED) then Some (entry, e) else free_in_page l (entry + 1) end.

(** The loop over the pages: the page and the entry, or [inl err] *)
Fixpoint find_free (fuel : nat) (d : mapper_s) (current_page : Z) : option (Z + Z * Z * vfat_DirEntry_s) :=
  match fuel with
  | O => None
  | S fuel =>
      match m_pages d !! current_page with
      | None => Some (inl VFS_IO_ERR)
      | Some page => match free_in_page page 0 with Some (i, e) => Some (inr (current_page, i, e)) | None => find_free fuel d (current_page + 1) end
      end
  end.

(** [dir[entry] = e] in a page; [None]: outside of the page *)
Definition store_entry (d : mapper_s) (page entry : Z) (e : vfat_DirEntry_s) : option mapper_s :=
  l ← m_pages d !! page; if decide (0 <= entry < zlen l) then Some (add_page page (zset l entry e) d) else None.
Definition set_name0 (x : Z) (e : vfat_DirEntry_s) : vfat_DirEntry_s :=
  DirEntry (zset (DIR_Name e) 0 x) (DIR_Attr e) (DIR_FstClusHI e) (DIR_FstClusLO e) (DIR_FileSize e).

(** A page of zeros *)
Definition zero_entry : vfat_DirEntry_s := DirEntry (replicate 11 0) 0 0 0 0.
Definition zero_page : list vfat_DirEntry_s := replicate (Z.to_nat entries_nr) zero_entry.

(** The entry after the last one becomes the end, in the same page or in a new page; [add_err] is the outcome of [kmem_alloc] and [mapper_add_page] *)
Definition mark_next (d : mapper_s) (page entry add_err : Z) : option (Z * mapper_s) :=
  if entry =? entries_nr - 1 then
    if negb (add_err =? 0) then Some (add_err, d) else Some (0, set_page_dirty (page + 1) (add_page (page + 1) zero_page d))
  else
    l ← m_pages d !! page; e ← zget l (entry + 1); d ← store_entry d page (entry + 1) (set_name0 0 e); Some (0, d).

Definition has (a b : Z) : bool := negb (Z.land a b =? 0).
Definition entry_attr (n_attr : Z) : Z :=
  let a := 0 in
  let a := if has n_attr (Z.lor VFS_SYS (Z.lor VFS_FIFO VFS_DEV)) then Z.lor a VFAT_ATTR_SYSTEM else a in
  let a := if has n_attr VFS_ARCHIVE then Z.lor a VFAT_ATTR_ARCHIVE else a in
  let a := if has n_attr (Z.lor VFS_RD_ONLY (Z.lor VFS_FIFO VFS_DEV)) then Z.lor a VFAT_ATTR_READ_ONLY else a in
  if has n_attr VFS_DIR then Z.lor a VFAT_ATTR_DIRECTORY else a.

(** The node once its entry is written: its mapper gets a first page when it is a directory, unless [own_err] *)
Definition created_node (c : vfat_context_s) (parent_cluster new_cluster entry_index own_err : Z) (node : vfs_node_s) : vfs_node_s :=
  let info := VfatNode (flags (n_pv node)) parent_cluster new_cluster entry_index in
  let node := set_n_mapper (set_m_ops vfat_file_mapper_op (n_mapper node)) (set_n_pv info node) in
  if has (n_attr node) VFS_DIR then
    let node := set_n_pv (VfatNode VFAT_ATTR_DIRECTORY parent_cluster new_cluster entry_index) node in
    let node := set_n_size (bytes_per_cluster c) node in
    let m := set_m_ops vfat_node_mapper_op (n_mapper node) in
    set_n_mapper (if own_err =? 0 then add_page 0 zero_page m else m) node
  else node.

(** From the search of a free entry on: the error, the table, the mapper of the parent and the node.  [add_err] and [own_err]: the outcomes of the two additions of a
    page to a mapper *)
Definition create_entry (fuel : nat) (v : vfat) (parent node : vfs_node_s) (new_cluster add_err own_err : Z) : option (Z * vfat * mapper_s * vfs_node_s) :=
  let d := n_mapper parent in
  let failed err := '(_, v) ← vfat_free_fat_entry fuel v new_cluster; Some (err, v, d, node) in
  place ← find_free fuel d 0;
  match place with
  | inl err => failed err
  | inr (page, entry, e) =>
      let current_offset := (page *! entries_nr +! entry +! 1) *! 32 in
      '(err, d) ← (if name0 e =? 0 then mark_next d page entry add_err else Some (0, d));
      if negb (err =? 0) then failed err
      else
        let node := if (name0 e =? 0) && (entry =? entries_nr - 1) && (current_offset =? n_size node)
                    then set_n_size ((n_size node + bytes_per_cluster (ctx v)) mod 2 ^ 64) node else node in
        name ← vfat_convert_name (n_name node);
        d ← store_entry d page entry (DirEntry name (entry_attr (n_attr node)) (Z.shiftr new_cluster 16) (Z.land new_cluster 0xFFFF) 0);
        Some (0, v, set_page_dirty page d, created_node (ctx v) (node_cluster (n_pv parent)) new_cluster (page *! entries_nr +! entry) own_err node)
  end.

Definition vfat_create_node (fuel : nat) (v : vfat) (parent node : vfs_node_s) (add_err own_err : Z) : option (Z * vfat * mapper_s * vfs_node_s) :=
  if negb (n_type node =? VFS_VFAT_TYPE) then Some (VFS_EINVAL, v, n_mapper parent, node)
  else if has (n_attr node) (Z.lor VFS_FIFO VFS_DEV) then create_entry fuel v parent node 0 add_err own_err
  else
    '(err, v, new_cluster) ← vfat_alloc_fat_entry v;
    if negb (err =? 0) then Some (VFS_IO_ERR, v, n_mapper parent, node)
    else if new_cluster =? 0 then Some (- VFS_ENOSPC, v, n_mapper parent, node)
    else create_entry fuel v parent node new_cluster add_err own_err.

(** ** Lookup *)

(** The attributes that an entry adds to those of the node *)
Definition lookup_attr (dir_attr attr : Z) : Z :=
  let attr := if has dir_attr VFAT_ATTR_DIRECTORY then Z.lor attr VFS_DIR else attr in
  let attr := if has dir_attr VFAT_ATTR_SYSTEM then Z.lor attr VFS_SYS else attr in
  let attr := if has dir_attr VFAT_ATTR_ARCHIVE then Z.lor attr VFS_ARCHIVE else attr in
  if has dir_attr VFAT_ATTR_READ_ONLY then Z.lor attr VFS_RD_ONLY else attr.

(** A node without cluster is a device or a FIFO *)
Definition special_attr (cluster attr : Z) : Z :=
  if (cluster =? 0) && has attr VFS_SYS && has attr VFS_RD_ONLY && has attr VFS_DIR
  then Z.ldiff (Z.lor attr VFS_DEV) (Z.lor VFS_SYS (Z.lor VFS_RD_ONLY VFS_DIR))
  else if (cluster =? 0) && has attr VFS_SYS && has attr VFS_RD_ONLY then Z.ldiff (Z.lor attr VFS_FIFO) (Z.lor VFS_SYS VFS_RD_ONLY)
  else attr.

(** The error and the node *)
Definition vfat_lookup_node (fuel : nat) (v : vfat) (parent node : vfs_node_s) : option (Z * vfs_node_s) :=
  if negb (has (flags (n_pv parent)) VFAT_ATTR_DIRECTORY) then Some (VFS_ENOTDIR, node)
  else
    '(err, found) ← vfat_locate_entry fuel (n_mapper parent) (Some (n_name node));
    if negb (err =? 0) then Some (err, node)
    else
      '(entry_index, dir) ← found;
      if has (n_attr node) VFS_DIR && negb (has (DIR_Attr dir) VFAT_ATTR_DIRECTORY) then Some (VFS_ENOTDIR, node)
      else
        let node := if has (DIR_Attr dir) VFAT_ATTR_DIRECTORY then node else set_n_size (DIR_FileSize dir) node in
        let node := set_n_links 1 (set_n_attr (lookup_attr (DIR_Attr dir) (n_attr node)) node) in
        let cluster := Z.lor (u32 (Z.shiftl (DIR_FstClusHI dir) 16)) (Z.land 0x0000FFFF (DIR_FstClusLO dir)) in
        let node := set_n_pv (VfatNode (DIR_Attr dir) (node_cluster (n_pv parent)) cluster entry_index) node in
        let node := set_n_attr (special_attr cluster (n_attr node)) node in
        node ← (if negb (cluster =? 0) && has (n_attr node) VFS_DIR
                then n ← vfat_cluster_count fuel v cluster 0 0; Some (set_n_size (n *! bytes_per_cluster (ctx v)) node) else Some node);
        Some (VFS_FOUND, set_n_mapper (set_m_ops (if has (n_attr node) VFS_DIR then vfat_node_mapper_op else vfat_file_mapper_op) (n_mapper node)) node).

(** ** Update of the entry of a node *)

Definition write_attr (n_attr a : Z) : Z :=
  let a := if has n_attr VFS_DIR then Z.lor a VFAT_ATTR_DIRECTORY else a in
  let a := if has n_attr VFS_SYS then Z.lor a VFAT_ATTR_SYSTEM else a in
  let a := if has n_attr VFS_ARCHIVE then Z.lor a VFAT_ATTR_ARCHIVE else a in
  if has n_attr VFS_RD_ONLY then Z.lor a VFAT_ATTR_READ_ONLY else a.

(** The size of a pointer is 4; [None]: the entry is outside of the page *)
Definition vfat_write_node (parent node : vfs_node_s) : option (Z * mapper_s) :=
  let d := n_mapper parent in
  let i := entry_index (n_pv node) in
  let page := Z.shiftr (i *! 4) PMM_PAGE_SHIFT in
  if negb (n_type node =? VFS_VFAT_TYPE) then Some (VFS_EINVAL, d)
  else
    match m_pages d !! page with
    | None => Some (VFS_IO_ERR, d)
    | Some l =>
        e ← zget l i;
        d ← store_entry d page i (DirEntry (DIR_Name e) (write_attr (n_attr node) (DIR_Attr e)) (DIR_FstClusHI e) (DIR_FstClusLO e) (u32 (n_size node)));
        Some (0, set_page_dirty page d)
    end.

(** ** Removal *)

(** The first byte of the name becomes the end or the mark of a freed entry, after the entry that follows *)
Definition remove_entry (d : mapper_s) (i : Z) : option (Z * mapper_s) :=
  let page := Z.shiftr (i *! 32) PMM_PAGE_SHIFT in
  match m_pages d !! page with
  | None => Some (VFS_IO_ERR, d)
  | Some l =>
      let entry := i mod entries_nr in
      e ← zget l entry;
      let mark next := d ← store_entry d page entry (set_name0 (if name0 next =? 0 then 0 else FREED) e); Some (0, set_page_dirty page d) in
      if i =? entries_nr - 1 then
        match m_pages d !! (page + 1) with
        | None => Some (VFS_IO_ERR, d)
        | Some l' => next ← zget l' 0; mark next
        end
      else next ← zget l (entry + 1); mark next
  end.

(** The error, the table and the mapper of the parent.  The copy of the entry that the search makes through a field of the request that is not set is left out *)
Definition vfat_unlink_node (fuel : nat) (v : vfat) (parent node : vfs_node_s) : option (Z * vfat * mapper_s) :=
  let d := n_mapper parent in
  '(err, i) ← (if has (n_attr node) VFS_FIFO && negb (n_vfat_op node)
    then '(err, found) ← vfat_locate_entry fuel d (Some (n_name node));
         if negb (err =? 0) then Some (err, 0) else '(i, _) ← found; Some (0, i)
    else Some (0, entry_index (n_pv node)));
  if negb (err =? 0) then Some (err, v, d)
  else if n_count node =? 0 then
    if (n_links node =? 0) && negb (has (n_attr node) VFS_FIFO)
    then '(err, v) ← vfat_free_fat_entry fuel v (node_cluster (n_pv node)); Some (err, v, d)
    else Some (0, v, d)
  else '(err, d) ← remove_entry d i; Some (err, v, d).
