(* ===== verification/FatDirSpec.v ===== *)
(** * FatDirSpec: the names and the entries of a FAT32 directory

    A valid name comes back from the entry that is made of it; the entries of a directory are a sequence of slots that ends at the first null
    name, of which the searches find the first that they look for. *)

From S2P Require Import Prelude Pmm Fat FatDir.

(** ** Names *)

(** A byte of a name before its extension *)
Definition name_byte (x : Z) : Prop := x <> 0 /\ x <> DOT /\ x <> SPACE.

(** A name of at most eight bytes, with an extension of at most three or without one; [junk] is what follows in memory *)
Inductive valid_name : list Z -> Prop :=
| name_plain base junk : 1 <= zlen base <= 8 -> Forall name_byte base -> head base <> Some FREED -> valid_name (base ++ 0 :: junk)
| name_ext base ext junk : 1 <= zlen base <= 8 -> Forall name_byte base -> head base <> Some FREED ->
    zlen ext <= 3 -> Forall (fun x => x <> 0 /\ x <> SPACE) ext -> 2 <= zlen junk -> valid_name (base ++ DOT :: ext ++ 0 :: junk).

Section Names.
Implicit Types (l base ext : list Z).

Lemma convert_loop_spec base x l : Forall name_byte base -> x = 0 \/ x = DOT -> forall n, (length base <= n)%nat -> convert_loop n (base ++ x :: l) = Some (base, x :: l).
Proof.
  intros Hb Hx. induction Hb as [|y base [H1 [H2 H3]] Hb IH]; intros n Hn.
  - destruct n; cbn; destruct Hx as [-> | ->]; done.
  - destruct n as [|n]; cbn in Hn; [lia|]. cbn. rewrite (proj2 (Z.eqb_neq y 0)), (proj2 (Z.eqb_neq y DOT)) by done. cbn. rewrite IH by lia. done.
Qed.

(** The copy of a base that fills the place or is followed by a space *)
Lemma copy_until_base base r n : Forall name_byte base -> length base = n \/ (length base < n)%nat /\ head r = Some SPACE -> copy_until n (base ++ r) = base.
Proof.
  intros Hb. revert n. induction Hb as [|y base [H1 [H2 H3]] Hb IH]; intros n Hn.
  - destruct n; [done|]. cbn in Hn. destruct Hn as [?|[_ Hr]]; [lia|]. destruct r as [|x r]; [done|]. injection Hr as ->. done.
  - destruct n as [|n]; cbn in Hn; [lia|]. cbn. rewrite (proj2 (Z.eqb_neq y SPACE)) by done. f_equal. apply IH. destruct Hn as [?|[??]]; [left|right]; auto with lia.
Qed.

Lemma c_string_app l r : Forall (fun y => y <> 0) l -> c_string (l ++ r) = l ++ c_string r.
Proof. induction 1 as [|y l Hy Hl IH]; [done|]. cbn. rewrite (proj2 (Z.eqb_neq y 0)), IH by done. done. Qed.

Lemma base_bytes base : Forall name_byte base -> Forall (fun y => y <> 0) base.
Proof. intros Hb. eapply Forall_impl; [exact Hb|]. intros x [? _]. done. Qed.

(** The string of what is copied from an extension and its end *)
Lemma copy_until_ext ext junk n : Forall (fun y => y <> 0 /\ y <> SPACE) ext -> (length ext <= n)%nat -> c_string (copy_until n (take n (ext ++ 0 :: junk)) ++ [0]) = ext.
Proof.
  intros He. revert n. induction He as [|y ext [Hy1 Hy2] He IH]; intros n Hn.
  - destruct n; done.
  - destruct n as [|n]; cbn in Hn; [lia|]. cbn. rewrite (proj2 (Z.eqb_neq y SPACE)) by done. cbn. rewrite (proj2 (Z.eqb_neq y 0)), IH by (done || lia). done.
Qed.

(** The first eight bytes of an entry *)
Definition padded base : list Z := take 8 (base ++ replicate (11 - length base) SPACE).

Lemma length_padded base : zlen base <= 8 -> length (padded base) = 8%nat.
Proof. intros Hl. unfold zlen in Hl. unfold padded. rewrite length_take, length_app, length_replicate. lia. Qed.

Lemma copy_padded base r : zlen base <= 8 -> Forall name_byte base -> copy_until 8 (padded base ++ r) = base.
Proof.
  intros Hl Hb. unfold zlen in Hl. unfold padded. rewrite take_app_ge, <- app_assoc by lia. apply copy_until_base; [done|].
  destruct (decide (length base = 8%nat)) as [E|E]; [auto|right]. split; [lia|]. rewrite take_replicate.
  replace ((8 - length base) `min` (11 - length base))%nat with (S (7 - length base)) by lia. done.
Qed.

(** The name of an entry, and the string that a search compares *)
Lemma convert_name_spec name : valid_name name ->
  exists n, vfat_convert_name name = Some n /\ zlen n = 11 /\ c_string (vfat_getshortname n) = c_string name /\ head n = head name.
Proof.
  intros Hn. unfold vfat_convert_name. destruct Hn as [base junk Hl Hb Hh|base ext junk Hl Hb Hh He Hx Hj].
  - rewrite (convert_loop_spec base 0 junk) by (unfold zlen in Hl; auto with lia). cbn [mbind option_bind]. change (0 =? DOT) with false. rewrite andb_false_r.
    set (n := base ++ replicate (11 - length base) SPACE). exists n. split; [done|]. unfold zlen in Hl.
    assert (Hlen : length n = 11%nat) by (unfold n; rewrite length_app, length_replicate; lia). split; [unfold zlen; lia|].
    split; [|unfold n; destruct base; [cbn in Hl; lia|done]]. assert (En : n = padded base ++ replicate 3 SPACE).
    { rewrite <- (take_drop 8 n). f_equal. unfold n. rewrite drop_app_ge by lia. rewrite drop_replicate. f_equal. lia. }
    unfold vfat_getshortname. rewrite En. rewrite copy_padded by (done || unfold zlen; lia).
    unfold zget. rewrite (lookup_app_r (padded base)) by (rewrite length_padded; unfold zlen; lia). rewrite length_padded by (unfold zlen; lia). cbn.
    rewrite !c_string_app by (apply base_bytes; done). done.
  - rewrite (convert_loop_spec base DOT) by (unfold zlen in Hl; auto with lia). cbn [mbind option_bind]. rewrite (proj2 (Z.leb_le (zlen base) 8)) by lia. cbn [andb]. change (DOT =? DOT) with true.
    rewrite decide_True by (rewrite zlen_app, zlen_cons; pose proof (zlen_nonneg ext); lia). cbn match. fold (padded base). eexists. split; [done|].
    assert (Ht : length (take 3 (ext ++ 0 :: junk)) = 3%nat) by (unfold zlen in *; rewrite length_take, length_app; cbn [length]; lia).
    split; [unfold zlen; rewrite length_app, length_padded, Ht by lia; done|]. split.
    + unfold vfat_getshortname. rewrite copy_padded by (done || lia). unfold zget. rewrite (lookup_app_r (padded base)) by (rewrite length_padded; lia).
      rewrite length_padded by lia. rewrite drop_app_length' by (rewrite length_padded; lia). change (Z.to_nat 8 - 8)%nat with O.
      assert (Hx0 : exists x, take 3 (ext ++ 0 :: junk) !! 0%nat = Some x /\ x <> SPACE).
      { destruct Hx as [|x ext [_ Hx] _]; [exists 0; done|exists x; done]. }
      destruct Hx0 as (x & -> & Hx1). cbn [from_option]. unfold id. rewrite (proj2 (Z.eqb_neq x SPACE)) by done. cbn [negb].
      rewrite (c_string_app base _ (base_bytes base Hb)), (c_string_app base (DOT :: _) (base_bytes base Hb)). cbn [app]. cbn [c_string]. change (DOT =? 0) with false. cbn match. do 2 f_equal.
      rewrite copy_until_ext by (done || unfold zlen in He; lia). rewrite c_string_app by (eapply Forall_impl; [exact Hx|]; intros ? [??]; done). cbn. rewrite app_nil_r. done.
    + unfold padded. destruct base; [unfold zlen in Hl; cbn in Hl; lia|done].
Qed.

Lemma valid_name_head name : valid_name name -> exists x, head name = Some x /\ x <> 0 /\ x <> DOT /\ x <> FREED.
Proof.
  intros [base junk Hl Hb Hh|base ext junk Hl Hb Hh He Hx Hj]; (destruct Hb as [|x base [Hx0 [Hx1 _]] Hb]; [unfold zlen in Hl; cbn in Hl; lia|]); exists x; cbn in *; split_and!; congruence.
Qed.
End Names.

(** ** Slots *)

Definition slot (d : mapper_s) (k : Z) : option vfat_DirEntry_s := l ← m_pages d !! (k / entries_nr); zget l (k mod entries_nr).

(** A directory of [T] entries: the pages are there up to the end, which is the first null name *)
Record dir_wf (d : mapper_s) (T : Z) : Prop := {
  wf_end : 0 <= T < 2 ^ 27;
  wf_page : forall p, 0 <= p <= T / entries_nr -> exists l, m_pages d !! p = Some l /\ zlen l = entries_nr;
  wf_used : forall k e, 0 <= k < T -> slot d k = Some e -> name0 e <> 0;
  wf_last : exists e, slot d T = Some e /\ name0 e = 0;
  wf_name : forall k e, slot d k = Some e -> zlen (DIR_Name e) = 11;
}.

(** The first slot that satisfies [f] *)
Definition first (f : vfat_DirEntry_s -> bool) (d : mapper_s) (k : Z) (e : vfat_DirEntry_s) : Prop :=
  slot d k = Some e /\ f e = true /\ forall j e', 0 <= j < k -> slot d j = Some e' -> f e' = false.

Section Slots.
Implicit Types (d : mapper_s) (f : vfat_DirEntry_s -> bool).

Lemma slot_index p i : 0 <= i < entries_nr -> (p * entries_nr + i) / entries_nr = p /\ (p * entries_nr + i) mod entries_nr = i.
Proof. unfold entries_nr. change (PMM_PAGE_SIZE / 32) with 128. intros. split; [rewrite Z.div_add_l, Z.div_small; lia|rewrite Z.add_comm, Z.mod_add, Z.mod_small; lia]. Qed.

Lemma slot_place k : k = k / entries_nr * entries_nr + k mod entries_nr /\ 0 <= k mod entries_nr < entries_nr.
Proof. unfold entries_nr. change (PMM_PAGE_SIZE / 32) with 128. pose proof (Z.div_mod k 128). pose proof (Z.mod_pos_bound k 128). lia. Qed.

Lemma slot_page_le j k : j <= k -> j / entries_nr <= k / entries_nr.
Proof. intros. apply Z.div_le_mono; [done|lia]. Qed.

Lemma slot_is_Some d T k : dir_wf d T -> 0 <= k <= T -> exists e, slot d k = Some e.
Proof.
  intros W Hk. unfold slot. destruct (wf_page _ _ W (k / entries_nr)) as (l & -> & Hl).
  { split; [apply Z.div_pos; [lia|done]|apply slot_page_le; lia]. }
  apply zget_is_Some. rewrite Hl. apply slot_place.
Qed.

(** The end of a directory stops a search that it satisfies, at the latest. *)
Lemma first_exists d T f : dir_wf d T -> (forall e, name0 e = 0 -> f e = true) -> exists k e, 0 <= k <= T /\ first f d k e.
Proof.
  intros W Hf. set (P k := exists e, slot d k = Some e /\ f e = true).
  assert (HP : forall k, Decision (P k)).
  { intros k. unfold P. destruct (slot d k) as [e|]; [|right; intros (? & ? & _); done].
    destruct (f e) eqn:E; [left; eauto|right; intros (? & [= <-] & ?); congruence]. }
  pose proof (wf_end _ _ W) as [HT _]. destruct (wf_last _ _ W) as (e & He & Hz).
  destruct (list_find P (seqZ 0 (T + 1))) as [[i k]|] eqn:E.
  - apply list_find_Some in E as (Hi & (e' & Hs & Hfe) & Hmin). apply lookup_seqZ in Hi as [-> Hi]. exists (0 + Z.of_nat i), e'. split; [lia|]. split; [done|]. split; [done|].
    intros j e2 Hj He2. destruct (f e2) eqn:E2; [|done]. destruct (Hmin (Z.to_nat j) j); [|lia|exists e2; done]. apply lookup_seqZ. lia.
  - apply list_find_None in E. rewrite Forall_forall in E. destruct (E T); [apply elem_of_seqZ; lia|]. exists e. auto.
Qed.

(** What a search of one page finds *)
Lemma page_find d T f k e p : dir_wf d T -> first f d k e -> 0 <= k <= T -> 0 <= p <= k / entries_nr ->
  exists l, m_pages d !! p = Some l /\ list_find f l = if decide (p = k / entries_nr) then Some (Z.to_nat (k mod entries_nr), e) else None.
Proof.
  intros W (Hs & Hf & Hmin) Hk Hp. destruct (slot_place k) as [Ek Hr]. destruct (wf_page _ _ W p) as (l & Hl & Hlen); [pose proof (slot_page_le k T); lia|].
  exists l. split; [done|].
  assert (Hbefore : forall i x, l !! i = Some x -> p * entries_nr + Z.of_nat i < k -> f x = false).
  { intros i x Hi Hlt. pose proof (lookup_lt_Some _ _ _ Hi). destruct (slot_index p (Z.of_nat i)) as [E1 E2]; [unfold zlen in Hlen; lia|].
    apply (Hmin (p * entries_nr + Z.of_nat i)); [revert Hlt; unfold entries_nr; change (PMM_PAGE_SIZE / 32) with 128; lia|]. unfold slot. rewrite E1, E2, Hl. unfold zget. cbn. rewrite Nat2Z.id. done. }
  destruct (decide (p = k / entries_nr)) as [->|Hne].
  - apply list_find_Some. unfold slot in Hs. rewrite Hl in Hs. cbn in Hs. unfold zget in Hs. split_and!; [done|rewrite Hf; done|].
    intros i x Hi Hlt. rewrite (Hbefore i x Hi); [auto|lia].
  - apply list_find_None. apply Forall_forall. intros x [i Hi]%list_elem_of_lookup. rewrite (Hbefore i x Hi); [auto|].
    pose proof (lookup_lt_Some _ _ _ Hi). unfold zlen in Hlen. revert Hlen Hr Ek Hp Hne. unfold entries_nr. change (PMM_PAGE_SIZE / 32) with 128. lia.
Qed.
End Slots.

(** ** Searches *)

(** The entries that are seen by a search for a name, or for anything *)
Definition stop (name : option (list Z)) (e : vfat_DirEntry_s) : bool :=
  (name0 e =? 0) || negb (name0 e =? FREED) && negb (name0 e =? DOT) &&
    match name with None => true | Some n => negb (DIR_Attr e =? 0x0F) && same_string (vfat_getshortname (DIR_Name e)) n end.
Definition outcome (name : option (list Z)) (k : Z) (e : vfat_DirEntry_s) : located :=
  if name0 e =? 0 then LReturn VFS_NOT_FOUND else match name with None => LReturn VFS_ENOTEMPTY | Some _ => LFound k e end.
Definition vacant (e : vfat_DirEntry_s) : bool := (name0 e =? 0) || (name0 e =? FREED).

Section Searches.
Implicit Types (d : mapper_s).

Lemma list_find_bool (f : vfat_DirEntry_s -> bool) e l : list_find f (e :: l) = if f e then Some (0%nat, e) else prod_map S id <$> list_find f l.
Proof. cbn. destruct (f e); done. Qed.

Lemma locate_page_find l i name : locate_page l i name = match list_find (stop name) l with None => LNext | Some (j, e) => outcome name (i + Z.of_nat j) e end.
Proof.
  revert i. induction l as [|e l IH]; intros i; [done|]. rewrite list_find_bool. cbn [locate_page].
  assert (Hnext : locate_page l (i + 1) name = match prod_map S id <$> list_find (stop name) l with None => LNext | Some (j, e) => outcome name (i + Z.of_nat j) e end).
  { rewrite IH. destruct (list_find _ l) as [[j e']|]; cbn; [|done]. f_equal. lia. }
  unfold stop at 1. destruct (name0 e =? 0) eqn:E0; cbn [orb]; [unfold outcome; rewrite E0; done|].
  destruct (name0 e =? FREED); cbn [negb andb]; [exact Hnext|].
  destruct (name0 e =? DOT); cbn [negb andb]; [exact Hnext|].
  destruct name as [n|]; [|unfold outcome; rewrite E0; done].
  destruct (DIR_Attr e =? 0x0F); cbn [negb andb]; [exact Hnext|].
  destruct (same_string _ n); [unfold outcome; rewrite E0, Z.add_0_r; done|exact Hnext].
Qed.

Lemma free_in_page_find l i : free_in_page l i = prod_map (fun j => i + Z.of_nat j) id <$> list_find vacant l.
Proof.
  revert i. induction l as [|e l IH]; intros i; [done|]. rewrite list_find_bool. cbn [free_in_page]. fold (vacant e). destruct (vacant e).
  - cbn. rewrite Z.add_0_r. done.
  - rewrite IH. destruct (list_find vacant l) as [[j e']|]; cbn; [|done]. do 2 f_equal. lia.
Qed.

Lemma place_number d T k : dir_wf d T -> 0 <= k <= T -> k / entries_nr *! entries_nr +! k mod entries_nr = k.
Proof.
  intros W Hk. pose proof (wf_end _ _ W). destruct (slot_place k) as [E Hr]. assert (0 <= k / entries_nr) by (apply Z.div_pos; [lia|done]).
  unfold u32. rewrite (Z.mod_small (k / entries_nr * entries_nr)); [rewrite <- E; apply Z.mod_small; lia|].
  revert E Hr. unfold entries_nr. change (PMM_PAGE_SIZE / 32) with 128. lia.
Qed.

Definition result (name : option (list Z)) (k : Z) (e : vfat_DirEntry_s) : Z * option (Z * vfat_DirEntry_s) :=
  if name0 e =? 0 then (VFS_NOT_FOUND, None) else match name with None => (VFS_ENOTEMPTY, None) | Some _ => (VFS_FOUND, Some (k, e)) end.

Lemma locate_pages_first fuel d T name k e p : dir_wf d T -> first (stop name) d k e -> 0 <= k <= T -> 0 <= p <= k / entries_nr -> k / entries_nr < p + Z.of_nat fuel ->
  locate_pages fuel d p name = Some (result name k e).
Proof.
  intros W F Hk. revert p. induction fuel as [|fuel IH]; intros p Hp Hf; [lia|].
  cbn [locate_pages]. destruct (page_find d T (stop name) k e p W F Hk Hp) as (l & -> & Hl). rewrite locate_page_find, Hl. destruct (decide (p = k / entries_nr)) as [->|].
  - unfold outcome, result. destruct (name0 e =? 0); [done|]. destruct name; [|done]. rewrite Z2Nat.id by apply slot_place. rewrite Z.add_0_l, (place_number d T) by done. done.
  - apply IH; lia.
Qed.

Lemma locate_first fuel d T name k e : dir_wf d T -> first (stop name) d k e -> 0 <= k <= T -> k / entries_nr < Z.of_nat fuel ->
  vfat_locate_entry fuel d name = Some (result name k e).
Proof. intros W F Hk Hf. apply (locate_pages_first fuel d T); try done. split; [done|apply Z.div_pos; [lia|done]]. Qed.

Lemma find_free_first fuel d T k e p : dir_wf d T -> first vacant d k e -> 0 <= k <= T -> 0 <= p <= k / entries_nr -> k / entries_nr < p + Z.of_nat fuel ->
  find_free fuel d p = Some (inr (k / entries_nr, k mod entries_nr, e)).
Proof.
  intros W F Hk. revert p. induction fuel as [|fuel IH]; intros p Hp Hf; [lia|].
  cbn [find_free]. destruct (page_find d T vacant k e p W F Hk Hp) as (l & -> & Hl). rewrite free_in_page_find, Hl. destruct (decide (p = k / entries_nr)) as [->|].
  - cbn. rewrite Z2Nat.id by apply slot_place. done.
  - apply IH; lia.
Qed.
End Searches.
