(* ===== verification/FatDirMap.v ===== *)
(** * FatDirMap: the entries of a directory as a finite map, and the changes of one entry *)

From S2P Require Import Prelude Pmm Fat FatDir FatDirSpec.

(** The entries that have a name for a search, and this name *)
Definition live (e : vfat_DirEntry_s) : bool := negb (name0 e =? FREED) && negb (name0 e =? DOT) && negb (DIR_Attr e =? 0x0F).
Definition shortname (e : vfat_DirEntry_s) : list Z := c_string (vfat_getshortname (DIR_Name e)).

(** A directory of names, each with the index of its entry and the entry *)
Notation names := (gmap (list Z) (Z * vfat_DirEntry_s)).

Record holds (d : mapper_s) (T : Z) (M : names) : Prop := {
  h_wf : dir_wf d T;
  h_map : forall name k e, M !! name = Some (k, e) <-> 0 <= k < T /\ slot d k = Some e /\ live e = true /\ shortname e = name;
}.

(** The pages that change are marked for a write *)
Definition saved (d d' : mapper_s) : Prop := m_dirty d ⊆ m_dirty d' /\ forall p, m_pages d' !! p <> m_pages d !! p -> p ∈ m_dirty d'.

(** The store of one entry *)
Record stored (d d' : mapper_s) (k : Z) (e : vfat_DirEntry_s) : Prop := {
  sd_slot : forall j, slot d' j = if decide (j = k) then Some e else slot d j;
  sd_len : forall p l, m_pages d !! p = Some l -> exists l', m_pages d' !! p = Some l' /\ zlen l' = zlen l;
  sd_page : forall p, p <> k / entries_nr -> m_pages d' !! p = m_pages d !! p;
  sd_dirty : m_dirty d' = m_dirty d;
}.

Section Changes.
Implicit Types (d : mapper_s) (e : vfat_DirEntry_s).

Lemma stop_live n e : stop (Some n) e = (name0 e =? 0) || live e && bool_decide (shortname e = c_string n).
Proof. unfold stop, live, same_string, shortname. destruct (name0 e =? 0), (name0 e =? FREED), (name0 e =? DOT), (DIR_Attr e =? 0x0F); done. Qed.

Lemma store_slot d k e l : m_pages d !! (k / entries_nr) = Some l -> zlen l = entries_nr ->
  exists d', store_entry d (k / entries_nr) (k mod entries_nr) e = Some d' /\ stored d d' k e.
Proof.
  intros Hl Hlen. destruct (slot_place k) as [Ek Hr]. unfold store_entry. rewrite Hl. cbn [mbind option_bind]. rewrite decide_True by lia. eexists. split; [done|]. split; cbn.
  - intros j. unfold slot. cbn. destruct (slot_place j) as [Ej Hrj]. destruct (decide (j / entries_nr = k / entries_nr)) as [E|E].
    + rewrite E, lookup_insert_eq, Hl. cbn. destruct (decide (j = k)) as [->|Hne]; [apply zget_zset_eq; lia|]. apply zget_zset_ne; [lia|lia|]. intros E2. apply Hne. rewrite Ej, Ek, E, E2. done.
    + rewrite lookup_insert_ne by done. rewrite decide_False by congruence. done.
  - intros p l' Hp. destruct (decide (p = k / entries_nr)) as [->|Hne]; [rewrite lookup_insert_eq; eexists; split; [done|]; rewrite zlen_zset; congruence|].
    rewrite lookup_insert_ne by done. eauto.
  - intros p Hp. apply lookup_insert_ne. done.
  - done.
Qed.

Lemma wf_slot_page d T k : dir_wf d T -> 0 <= k <= T -> exists l, m_pages d !! (k / entries_nr) = Some l /\ zlen l = entries_nr.
Proof. intros W Hk. apply (wf_page _ _ W). split; [apply Z.div_pos; [lia|done]|apply slot_page_le; lia]. Qed.

Lemma stored_page d d' T k e p : dir_wf d T -> stored d d' k e -> 0 <= p <= T / entries_nr -> exists l, m_pages d' !! p = Some l /\ zlen l = entries_nr.
Proof. intros W S Hp. destruct (wf_page _ _ W p Hp) as (l & Hl & Hlen). destruct (sd_len _ _ _ _ S p l Hl) as (l' & Hl' & E). exists l'. split; [done|congruence]. Qed.

Lemma stored_name d d' T k e : dir_wf d T -> stored d d' k e -> zlen (DIR_Name e) = 11 -> forall j x, slot d' j = Some x -> zlen (DIR_Name x) = 11.
Proof. intros W S He j x. rewrite (sd_slot _ _ _ _ S). case_decide; [intros [= <-]; done|apply (wf_name _ _ W)]. Qed.

(** A name in place of another *)
Lemma wf_put d d' T k e : dir_wf d T -> stored d d' k e -> 0 <= k < T -> name0 e <> 0 -> zlen (DIR_Name e) = 11 -> dir_wf d' T.
Proof.
  intros W S Hk He Hn. split; [apply W|intros p; apply (stored_page d d' T k e); done| | |apply (stored_name d d' T k e); done].
  - intros j x Hj. rewrite (sd_slot _ _ _ _ S). case_decide; [intros [= <-]; done|apply (wf_used _ _ W); done].
  - destruct (wf_last _ _ W) as (x & Hx & Hz). exists x. rewrite (sd_slot _ _ _ _ S), decide_False by lia. done.
Qed.

(** A null name ends the directory. *)
Lemma wf_cut d d' T k e : dir_wf d T -> stored d d' k e -> 0 <= k <= T -> name0 e = 0 -> zlen (DIR_Name e) = 11 -> dir_wf d' k.
Proof.
  intros W S Hk He Hn. split.
  - pose proof (wf_end _ _ W). lia.
  - intros p Hp. apply (stored_page d d' T k e); try done. pose proof (slot_page_le k T). lia.
  - intros j x Hj. rewrite (sd_slot _ _ _ _ S), decide_False by lia. apply (wf_used _ _ W). lia.
  - exists e. rewrite (sd_slot _ _ _ _ S), decide_True; done.
  - apply (stored_name d d' T k e); done.
Qed.

(** A name at the end, when a null one follows *)
Lemma wf_append d d' T e x l : dir_wf d T -> stored d d' T e -> name0 e <> 0 -> zlen (DIR_Name e) = 11 -> T + 1 < 2 ^ 27 ->
  slot d (T + 1) = Some x -> name0 x = 0 -> m_pages d !! ((T + 1) / entries_nr) = Some l -> zlen l = entries_nr -> dir_wf d' (T + 1).
Proof.
  intros W S He Hn HT Hx Hx0 Hl Hlen. pose proof (wf_end _ _ W) as HT0. split.
  - lia.
  - intros p Hp. destruct (decide (p = (T + 1) / entries_nr)) as [->|Hne].
    + destruct (sd_len _ _ _ _ S _ l Hl) as (l' & ? & ?). exists l'. split; [done|congruence].
    + apply (stored_page d d' T T e); try done. revert Hp Hne. unfold entries_nr. change (PMM_PAGE_SIZE / 32) with 128. intros Hp Hne. pose proof (Z.div_mod T 128). pose proof (Z.mod_pos_bound T 128).
      pose proof (Z.div_mod (T + 1) 128). pose proof (Z.mod_pos_bound (T + 1) 128). lia.
  - intros j y Hj. rewrite (sd_slot _ _ _ _ S). case_decide; [intros [= <-]; done|apply (wf_used _ _ W); lia].
  - exists x. rewrite (sd_slot _ _ _ _ S), decide_False by lia. done.
  - apply (stored_name d d' T T e); done.
Qed.

(** The marked end after the last entry *)
Lemma mark_next_ok d T : dir_wf d T -> exists d1 x l, mark_next d (T / entries_nr) (T mod entries_nr) 0 = Some (0, d1) /\ dir_wf d1 T /\
  (forall j, j <= T -> slot d1 j = slot d j) /\ slot d1 (T + 1) = Some x /\ name0 x = 0 /\ m_pages d1 !! ((T + 1) / entries_nr) = Some l /\ zlen l = entries_nr /\
  m_dirty d ⊆ m_dirty d1 /\ forall p, p <> T / entries_nr -> m_pages d1 !! p <> m_pages d !! p -> p ∈ m_dirty d1.
Proof.
  intros W. destruct (slot_place T) as [ET Hr]. pose proof (wf_end _ _ W) as HT. destruct (wf_slot_page d T T W) as (l & Hl & Hlen); [lia|]. unfold mark_next. destruct (Z.eqb_spec (T mod entries_nr) (entries_nr - 1)) as [E|E].
  - destruct (slot_index (T / entries_nr + 1) 0) as [E1 E2]; [done|]. replace ((T / entries_nr + 1) * entries_nr + 0) with (T + 1) in * by lia. cbn [Z.eqb negb].
    assert (Hsl : forall j, j / entries_nr <> T / entries_nr + 1 -> slot (set_page_dirty (T / entries_nr + 1) (add_page (T / entries_nr + 1) zero_page d)) j = slot d j).
    { intros j Hj. unfold slot. cbn. rewrite lookup_insert_ne; done. }
    assert (Hold : forall j, j <= T -> slot (set_page_dirty (T / entries_nr + 1) (add_page (T / entries_nr + 1) zero_page d)) j = slot d j).
    { intros j Hj. apply Hsl. pose proof (slot_page_le j T Hj). lia. }
    eexists _, zero_entry, zero_page. split; [done|]. split_and!; try done.
    + split; [done| | | |].
      * intros p Hp. destruct (wf_page _ _ W p Hp) as (l' & ? & ?). exists l'. cbn. rewrite lookup_insert_ne by lia. done.
      * intros j x Hj. rewrite Hold by lia. apply (wf_used _ _ W). done.
      * rewrite Hold by lia. apply W.
      * intros j x. destruct (decide (j / entries_nr = T / entries_nr + 1)) as [Ej|Ej]; [|rewrite Hsl by done; apply (wf_name _ _ W)].
        unfold slot. cbn. rewrite Ej, lookup_insert_eq. cbn. intros Hx. apply (Forall_zget (fun x => x = zero_entry)) in Hx as ->; [done|]. apply Forall_replicate. done.
    + unfold slot. cbn. rewrite E1, E2, lookup_insert_eq. done.
    + cbn. rewrite E1. apply lookup_insert_eq.
    + cbn. apply union_subseteq_r.
    + cbn. intros p _ Hp. destruct (decide (p = T / entries_nr + 1)) as [->|Hne]; [apply elem_of_union_l, elem_of_singleton; done|]. rewrite lookup_insert_ne in Hp by done. done.
  - destruct (slot_index (T / entries_nr) (T mod entries_nr + 1)) as [E1 E2]; [lia|]. replace (T / entries_nr * entries_nr + (T mod entries_nr + 1)) with (T + 1) in * by lia.
    rewrite Hl. cbn [mbind option_bind]. destruct (zget_is_Some l (T mod entries_nr + 1)) as [x Hx]; [lia|]. rewrite Hx. cbn [mbind option_bind].
    assert (Hsx : slot d (T + 1) = Some x) by (unfold slot; rewrite E1, E2, Hl; done).
    assert (Hn : zlen (DIR_Name x) = 11) by (apply (wf_name _ _ W (T + 1)); done).
    destruct (store_slot d (T + 1) (set_name0 0 x) l) as (d1 & Hd1 & S); [congruence|done|]. rewrite E1, E2 in Hd1. rewrite Hd1. cbn [mbind option_bind].
    assert (Hold : forall j, j <= T -> slot d1 j = slot d j) by (intros j Hj; rewrite (sd_slot _ _ _ _ S), decide_False by lia; done).
    destruct (sd_len _ _ _ _ S (T / entries_nr) l Hl) as (l' & Hl' & Hlen'). exists d1, (set_name0 0 x), l'. rewrite E1. split_and!; try done.
    + split; [done| | | |].
      * intros p. apply (stored_page d d1 T (T + 1) (set_name0 0 x)); done.
      * intros j y Hj. rewrite Hold by lia. apply (wf_used _ _ W). done.
      * rewrite Hold by lia. apply W.
      * apply (stored_name d d1 T (T + 1) (set_name0 0 x)); try done. cbn. rewrite zlen_zset. done.
    + rewrite (sd_slot _ _ _ _ S), decide_True; done.
    + unfold name0. cbn. rewrite zget_zset_eq by lia. done.
    + congruence.
    + rewrite (sd_dirty _ _ _ _ S). done.
    + intros p Hp Hc. rewrite (sd_page _ _ _ _ S) in Hc by congruence. done.
Qed.
End Changes.

(** ** The map *)

Section Maps.
Context (d : mapper_s) (T : Z) (M : names) (H : holds d T M).
Let W := h_wf _ _ _ H.

(** A search by name is a lookup in the map, whatever comes first in the pages. *)
Lemma locate_map fuel n : T / entries_nr < Z.of_nat fuel ->
  vfat_locate_entry fuel d (Some n) = Some (match M !! c_string n with Some (k, e) => (VFS_FOUND, Some (k, e)) | None => (VFS_NOT_FOUND, None) end).
Proof.
  intros Hf. destruct (first_exists d T (stop (Some n)) W) as (k & e & Hk & F); [intros e He; unfold stop; rewrite He; done|].
  rewrite (locate_first fuel d T (Some n) k e W F Hk) by (pose proof (slot_page_le k T); lia). f_equal. destruct F as (Hs & Hst & Hmin). rewrite stop_live in Hst. unfold result.
  destruct (Z.eqb_spec (name0 e) 0) as [E|E].
  - destruct (M !! c_string n) as [[k0 e0]|] eqn:EM; [|done]. exfalso. apply (h_map _ _ _ H) in EM as (Hk0 & Hs0 & Hl0 & Hn0).
    assert (k = T) as ->. { destruct (decide (k < T)); [|lia]. destruct (wf_used _ _ W k e); [lia|done|done]. }
    specialize (Hmin k0 e0 Hk0 Hs0). rewrite stop_live, Hl0, bool_decide_eq_true_2 in Hmin by done. rewrite orb_true_r in Hmin. done.
  - cbn [orb] in Hst. apply andb_true_iff in Hst as [Hl Hn]. apply bool_decide_eq_true in Hn.
    assert (HM : M !! c_string n = Some (k, e)); [|rewrite HM; done]. apply (h_map _ _ _ H). split; [|done].
    destruct (decide (k = T)) as [->|]; [|lia]. destruct (wf_last _ _ W) as (x & Hx & Hx0). congruence.
Qed.

(** The search for anything in the directory *)
Lemma locate_any fuel : T / entries_nr < Z.of_nat fuel -> M <> ∅ -> vfat_locate_entry fuel d None = Some (VFS_ENOTEMPTY, None).
Proof.
  intros Hf HM. apply map_choose in HM as (n & [k0 e0] & EM). apply (h_map _ _ _ H) in EM as (Hk0 & Hs0 & Hl0 & _).
  destruct (first_exists d T (stop None) W) as (k & e & Hk & F); [intros e He; unfold stop; rewrite He; done|].
  rewrite (locate_first fuel d T None k e W F Hk) by (pose proof (slot_page_le k T); lia). destruct F as (Hs & _ & Hmin). unfold result.
  destruct (Z.eqb_spec (name0 e) 0) as [E|E]; [|done]. exfalso. assert (k = T) as ->. { destruct (decide (k < T)); [|lia]. destruct (wf_used _ _ W k e); [lia|done|done]. }
  specialize (Hmin k0 e0 Hk0 Hs0). unfold live in Hl0. apply andb_true_iff in Hl0 as [Hl0 _]. unfold stop in Hmin. rewrite Hl0, orb_true_r in Hmin. done.
Qed.

(** An entry for a new name, in a slot that was not listed *)
Lemma holds_put d' T' k e : dir_wf d' T' -> 0 <= k < T' -> slot d' k = Some e -> live e = true -> M !! shortname e = None ->
  (forall j, j <> k -> 0 <= j < T' -> j < T /\ slot d' j = slot d j) -> (forall j, 0 <= j < T -> j < T') -> (forall x, k < T -> slot d k = Some x -> live x = false) ->
  holds d' T' (<[shortname e := (k, e)]> M).
Proof.
  intros W' Hk Hs Hl Hnone Hsame HT Hold. split; [done|]. intros name j x. destruct (decide (name = shortname e)) as [->|Hne].
  - rewrite lookup_insert_eq. split; [intros [= <- <-]; done|]. intros (Hj & Hsj & Hlj & Hnj). destruct (decide (j = k)) as [->|Hjk]; [congruence|].
    destruct (Hsame j Hjk Hj) as [HjT E]. rewrite E in Hsj. assert (HM : M !! shortname e = Some (j, x)) by (apply (h_map _ _ _ H); split_and!; (done || lia)). congruence.
  - rewrite lookup_insert_ne by done. rewrite (h_map _ _ _ H). split.
    + intros (Hj & Hsj & Hlj & Hnj). assert (j <> k) as Hjk. { intros ->. rewrite (Hold x) in Hlj; [done|lia|done]. }
      destruct (Hsame j Hjk) as [_ E]; [pose proof (HT j); lia|]. rewrite E. split_and!; try done; [lia|]. apply HT. done.
    + intros (Hj & Hsj & Hlj & Hnj). destruct (decide (j = k)) as [->|Hjk]; [congruence|]. destruct (Hsame j Hjk Hj) as [HjT E]. rewrite <- E. split_and!; (done || lia).
Qed.

(** Another entry under the same name *)
Lemma holds_replace d' k e e' : M !! shortname e' = Some (k, e) -> dir_wf d' T -> slot d' k = Some e' -> live e' = true -> (forall j, j <> k -> slot d' j = slot d j) ->
  holds d' T (<[shortname e' := (k, e')]> M).
Proof.
  intros HM W' Hs' Hl' Hsame. split; [done|]. intros name j x. apply (h_map _ _ _ H) in HM as HM'. destruct HM' as (Hk & Hs & Hl & Hn). destruct (decide (name = shortname e')) as [->|Hne].
  - rewrite lookup_insert_eq. split; [intros [= <- <-]; done|]. intros (Hj & Hsj & Hlj & Hnj). destruct (decide (j = k)) as [->|Hjk]; [congruence|]. rewrite Hsame in Hsj by done.
    assert (M !! shortname e' = Some (j, x)) by (apply (h_map _ _ _ H); done). congruence.
  - rewrite lookup_insert_ne by done. rewrite (h_map _ _ _ H). destruct (decide (j = k)) as [->|Hjk]; [|rewrite Hsame by done; done].
    split; intros (_ & Hsj & _ & Hnj); rewrite ?Hs, ?Hs' in Hsj; injection Hsj as <-; congruence.
Qed.

(** The entry of a name is cleared. *)
Lemma holds_remove d' T' name k e : M !! name = Some (k, e) -> dir_wf d' T' -> (forall x, k < T' -> slot d' k = Some x -> live x = false) ->
  (forall j, j <> k -> slot d' j = slot d j) -> (forall j, j <> k -> 0 <= j -> (j < T' <-> j < T)) -> holds d' T' (delete name M).
Proof.
  intros HM W' Hd Hsame HT. split; [done|]. intros name' j x. rewrite lookup_delete_Some, (h_map _ _ _ H). apply (h_map _ _ _ H) in HM as HM'. destruct HM' as (Hk & Hs & Hl & Hn). split.
  - intros (Hne & Hj & Hsj & Hlj & Hnj). assert (j <> k) as Hjk by congruence. rewrite Hsame by done. split_and!; try done; [lia|]. apply HT; (done || lia).
  - intros (Hj & Hsj & Hlj & Hnj). destruct (decide (j = k)) as [->|Hjk]; [rewrite (Hd x) in Hlj; [done|lia|done]|]. rewrite Hsame in Hsj by done.
    split_and!; try done; [|lia|apply HT; (done || lia)]. intros E. assert (M !! name = Some (j, x)) by (apply (h_map _ _ _ H); rewrite <- Hn, E, <- Hnj in *; split_and!; try done; [lia|apply HT; (done || lia)]). congruence.
Qed.
End Maps.
