(* ===== verification/FatDirStore.v ===== *)
(** * FatDirStore: the contract of the FAT32 directories

    A volume has the store of files of [FatStore] and a directory of names.  [dir_step] says what looking a name up, creating a node and removing one may do to
    both; the operations of [FatDir] implement it. *)

From S2P Require Import Prelude Pmm Fat FatSpec FatChain FatStore FatDir FatDirSpec FatDirMap.

(** The first cluster that an entry gives *)
Definition cluster_of (e : vfat_DirEntry_s) : Z := Z.lor (u32 (Z.shiftl (DIR_FstClusHI e) 16)) (Z.land 0x0000FFFF (DIR_FstClusLO e)).
Definition special (n : vfs_node_s) : bool := has (n_attr n) (Z.lor VFS_FIFO VFS_DEV).
(** A FIFO that another file system has taken over is searched by name *)
Definition foreign (n : vfs_node_s) : bool := has (n_attr n) VFS_FIFO && negb (n_vfat_op n).

Record volume (v : vfat) (st : store) (d : mapper_s) (T : Z) (M : names) : Prop := {
  vo_store : repr v st;
  vo_dir : holds d T M;
  vo_ref : forall name k e, M !! name = Some (k, e) -> cluster_of e <> 0 -> is_Some (files st !! cluster_of e);
}.

Inductive dir_op := Lookup (n : vfs_node_s) | Make (n : vfs_node_s) (add_err own_err : Z) | Update (n : vfs_node_s) | Unlink (n : vfs_node_s).

(** The calls: the error, the table, the mapper of the parent and the node *)
Definition run_dir (fuel : nat) (v : vfat) (parent : vfs_node_s) (o : dir_op) : option (Z * vfat * mapper_s * vfs_node_s) :=
  match o with
  | Lookup n => '(err, n) ← vfat_lookup_node fuel v parent n; Some (err, v, n_mapper parent, n)
  | Make n add_err own_err => vfat_create_node fuel v parent n add_err own_err
  | Update n => '(err, d) ← vfat_write_node parent n; Some (err, v, d, n)
  | Unlink n => '(err, v, d) ← vfat_unlink_node fuel v parent n; Some (err, v, d, n)
  end.

(** [n'] is [n] filled from the entry [e] of index [k] *)
Record found (bpc pcl : Z) (st : store) (k : Z) (e : vfat_DirEntry_s) (n n' : vfs_node_s) : Prop := {
  fo_name : n_name n' = n_name n; fo_links : n_links n' = 1;
  fo_attr : n_attr n' = special_attr (cluster_of e) (lookup_attr (DIR_Attr e) (n_attr n));
  fo_pv : n_pv n' = VfatNode (DIR_Attr e) pcl (cluster_of e) k;
  fo_file : has (DIR_Attr e) VFAT_ATTR_DIRECTORY = false -> has (n_attr n') VFS_DIR = false -> n_size n' = DIR_FileSize e;
  fo_dir : forall l, has (n_attr n') VFS_DIR = true -> files st !! cluster_of e = Some l -> cluster_of e <> 0 -> n_size n' = zlen l *! bpc;
  fo_ops : m_ops (n_mapper n') = Some (if has (n_attr n') VFS_DIR then vfat_node_mapper_op else vfat_file_mapper_op);
}.

(** [n'] is [n] with the entry [e] of index [k] made for it *)
Record made (bpc pcl own_err k : Z) (e : vfat_DirEntry_s) (n n' : vfs_node_s) : Prop := {
  ma_entry : shortname e = c_string (n_name n) /\ DIR_Attr e = entry_attr (n_attr n) /\ DIR_FileSize e = 0;
  ma_name : n_name n' = n_name n; ma_attr : n_attr n' = n_attr n;
  ma_pv : n_pv n' = VfatNode (if has (n_attr n) VFS_DIR then VFAT_ATTR_DIRECTORY else flags (n_pv n)) pcl (cluster_of e) k;
  ma_dir : has (n_attr n) VFS_DIR = true -> n_size n' = bpc /\ m_ops (n_mapper n') = Some vfat_node_mapper_op /\ (own_err = 0 -> m_pages (n_mapper n') !! 0 = Some zero_page);
}.

(** The entry [e] with the attributes and the size of [n] *)
Definition updated (n : vfs_node_s) (e : vfat_DirEntry_s) : vfat_DirEntry_s :=
  DirEntry (DIR_Name e) (write_attr (n_attr n) (DIR_Attr e)) (DIR_FstClusHI e) (DIR_FstClusLO e) (u32 (n_size n)).

Inductive dir_step (low bpc pcl : Z) (st : store) (M : names) : dir_op -> Z * vfs_node_s -> store -> names -> Prop :=
| step_absent n : M !! c_string (n_name n) = None -> dir_step low bpc pcl st M (Lookup n) (VFS_NOT_FOUND, n) st M
| step_not_dir n k e : M !! c_string (n_name n) = Some (k, e) -> has (n_attr n) VFS_DIR = true -> has (DIR_Attr e) VFAT_ATTR_DIRECTORY = false ->
    dir_step low bpc pcl st M (Lookup n) (VFS_ENOTDIR, n) st M
| step_found n k e n' : M !! c_string (n_name n) = Some (k, e) -> found bpc pcl st k e n n' -> dir_step low bpc pcl st M (Lookup n) (VFS_FOUND, n') st M
| step_special n add_err own_err k e n' : special n = true -> cluster_of e = 0 -> made bpc pcl own_err k e n n' ->
    dir_step low bpc pcl st M (Make n add_err own_err) (0, n') st (<[c_string (n_name n) := (k, e)]> M)
| step_made n add_err own_err k e n' : special n = false -> cluster_of e ∈ free st -> low <= cluster_of e -> made bpc pcl own_err k e n n' ->
    dir_step low bpc pcl st M (Make n add_err own_err) (0, n') (Store (<[cluster_of e := [cluster_of e]]> (files st)) (free st ∖ {[cluster_of e]})) (<[c_string (n_name n) := (k, e)]> M)
| step_full n add_err own_err : special n = false -> (forall k, k ∈ free st -> k < low) -> dir_step low bpc pcl st M (Make n add_err own_err) (- VFS_ENOSPC, n) st M
| step_failed n add_err own_err : add_err <> 0 -> dir_step low bpc pcl st M (Make n add_err own_err) (add_err, n) st M
| step_updated n k e : M !! c_string (n_name n) = Some (k, e) -> dir_step low bpc pcl st M (Update n) (0, n) st (<[c_string (n_name n) := (k, updated n e)]> M)
| step_missing n : foreign n = true -> M !! c_string (n_name n) = None -> dir_step low bpc pcl st M (Unlink n) (VFS_NOT_FOUND, n) st M
| step_unlinked n k e : n_count n <> 0 -> M !! c_string (n_name n) = Some (k, e) -> dir_step low bpc pcl st M (Unlink n) (0, n) st (delete (c_string (n_name n)) M)
| step_released n l : n_count n = 0 -> n_links n = 0 -> has (n_attr n) VFS_FIFO = false -> files st !! node_cluster (n_pv n) = Some l ->
    dir_step low bpc pcl st M (Unlink n) (0, n) (Store (delete (node_cluster (n_pv n)) (files st)) (free st ∪ list_to_set l)) M
| step_kept n : n_count n = 0 -> n_links n <> 0 \/ has (n_attr n) VFS_FIFO = true -> dir_step low bpc pcl st M (Unlink n) (0, n) st M.

(** The operations that a client may call.  Names to create are of 8.3 form and new.  An update is of a name that is listed, with the index of its entry, which is not a volume
    name.  A removal is of a name that is listed, with the index of its entry; a release is of a file that no name gives. *)
Definition legal_dir (T : Z) (st : store) (M : names) (o : dir_op) : Prop :=
  match o with
  | Lookup n => True
  | Make n add_err own_err => n_type n = VFS_VFAT_TYPE /\ valid_name (n_name n) /\ M !! c_string (n_name n) = None /\ T + 1 < 2 ^ 27
  | Update n => n_type n = VFS_VFAT_TYPE /\ exists k e, M !! c_string (n_name n) = Some (k, e) /\ entry_index (n_pv n) = k /\ Z.testbit (DIR_Attr e) 3 = false
  | Unlink n =>
      (foreign n = true /\ M !! c_string (n_name n) = None) \/
      (n_count n <> 0 /\ exists k e, M !! c_string (n_name n) = Some (k, e) /\ entry_index (n_pv n) = k) \/
      (n_count n = 0 /\ (n_links n = 0 -> has (n_attr n) VFS_FIFO = false -> is_Some (files st !! node_cluster (n_pv n)) /\
         forall name k e, M !! name = Some (k, e) -> cluster_of e <> node_cluster (n_pv n)))
  end.

(** The calls of the code that go out of the page of the entry: an update after the first page, where the page is computed from four bytes per entry, and the removal of
    the last entry of a page other than the first, which looks for the entry that follows in the same page. *)
Definition leaves_page (M : names) (o : dir_op) : Prop :=
  match o with
  | Update n => exists k e, M !! c_string (n_name n) = Some (k, e) /\ entries_nr <= k
  | Unlink n => n_count n <> 0 /\ exists k e, M !! c_string (n_name n) = Some (k, e) /\ k mod entries_nr = entries_nr - 1 /\ k <> entries_nr - 1
  | _ => False
  end.

Section Entries.
Implicit Types (d : mapper_s) (e : vfat_DirEntry_s).

Lemma holds_dirty d T M p : holds d T M -> holds (set_page_dirty p d) T M.
Proof. intros [[W1 W2 W3 W4 W5] HM]. split; [split|]; done. Qed.

Lemma mark_next_inner d p i err : i <> entries_nr - 1 -> mark_next d p i err = mark_next d p i 0.
Proof. intros Hi. unfold mark_next. rewrite (proj2 (Z.eqb_neq _ _) Hi). done. Qed.

(** The place of a new entry: the search, the end that is marked, the store *)
Lemma place_entry fuel d T M e add_err : holds d T M -> T + 1 < 2 ^ 27 -> T / entries_nr < Z.of_nat fuel ->
  name0 e <> 0 -> live e = true -> zlen (DIR_Name e) = 11 -> M !! shortname e = None ->
  exists k x, 0 <= k <= T /\ find_free fuel d 0 = Some (inr (k / entries_nr, k mod entries_nr, x)) /\
    let r := if name0 x =? 0 then mark_next d (k / entries_nr) (k mod entries_nr) add_err else Some (0, d) in
    (add_err <> 0 /\ r = Some (add_err, d)) \/
    exists d1 d2 T', r = Some (0, d1) /\ store_entry d1 (k / entries_nr) (k mod entries_nr) e = Some d2 /\
      holds (set_page_dirty (k / entries_nr) d2) T' (<[shortname e := (k, e)]> M) /\ saved d (set_page_dirty (k / entries_nr) d2).
Proof.
  intros H HT Hf He Hl Hn HM. pose proof (h_wf _ _ _ H) as W. pose proof (wf_end _ _ W) as HT0.
  destruct (first_exists d T vacant W) as (k & x & Hk & F); [intros y Hy; unfold vacant; rewrite Hy; done|].
  exists k, x. split; [done|]. split.
  { apply (find_free_first fuel d T); try done; [split; [done|apply Z.div_pos; [lia|done]]|pose proof (slot_page_le k T); lia]. }
  destruct F as (Hs & Hv & _). cbv zeta. destruct (Z.eqb_spec (name0 x) 0) as [E|E].
  - assert (k = T) as ->. { destruct (decide (k < T)); [|lia]. destruct (wf_used _ _ W k x); [lia|done|done]. }
    destruct (decide (add_err <> 0 /\ T mod entries_nr = entries_nr - 1)) as [[Ha Em]|Hno].
    { left. split; [done|]. unfold mark_next. rewrite Em, Z.eqb_refl, (proj2 (Z.eqb_neq _ 0) Ha). done. }
    right. assert (Er : mark_next d (T / entries_nr) (T mod entries_nr) add_err = mark_next d (T / entries_nr) (T mod entries_nr) 0).
    { destruct (decide (add_err = 0)) as [->|]; [done|]. apply mark_next_inner. tauto. }
    destruct (mark_next_ok d T W) as (d1 & y & l & Hm & W1 & Hold & Hy & Hy0 & Hl1 & Hlen1 & Hd1 & Hsv).
    destruct (wf_slot_page d1 T T W1) as (l0 & Hl0 & Hlen0); [lia|]. destruct (store_slot d1 T e l0 Hl0 Hlen0) as (d2 & Hst & S).
    exists d1, d2, (T + 1). split; [congruence|]. split; [done|]. split.
    + apply holds_dirty. apply (holds_put d T M H d2); try done; [apply (wf_append d1 d2 T e y l); done|lia|rewrite (sd_slot _ _ _ _ S), decide_True; done| |lia|lia].
      intros j Hj Hjr. split; [lia|]. rewrite (sd_slot _ _ _ _ S), decide_False by done. apply Hold. lia.
    + split; cbn; rewrite (sd_dirty _ _ _ _ S); [set_solver|]. intros p Hp. destruct (decide (p = T / entries_nr)) as [->|Hne]; [set_solver|].
      rewrite (sd_page _ _ _ _ S) in Hp by done. apply elem_of_union_r. apply Hsv; done.
  - right. assert (k < T) by (destruct (decide (k = T)) as [->|]; [destruct (wf_last _ _ W) as (y & Hy & Hy0); congruence|lia]).
    unfold vacant in Hv. rewrite (proj2 (Z.eqb_neq _ 0) E) in Hv. cbn [orb] in Hv.
    destruct (wf_slot_page d T k W Hk) as (l0 & Hl0 & Hlen0). destruct (store_slot d k e l0 Hl0 Hlen0) as (d2 & Hst & S).
    exists d, d2, T. split; [done|]. split; [done|]. split.
    + apply holds_dirty. apply (holds_put d T M H d2); try done; [apply (wf_put d d2 T k e); (done || lia)|lia|rewrite (sd_slot _ _ _ _ S), decide_True; done| |lia|].
      * intros j Hj Hjr. split; [lia|]. rewrite (sd_slot _ _ _ _ S), decide_False; done.
      * intros y _ Hy. assert (y = x) as -> by congruence. unfold live. rewrite Hv. done.
    + split; cbn; rewrite (sd_dirty _ _ _ _ S); [set_solver|]. intros p Hp. destruct (decide (p = k / entries_nr)) as [->|Hne]; [set_solver|].
      rewrite (sd_page _ _ _ _ S) in Hp; done.
Qed.

Lemma saved_refl d : saved d d.
Proof. split; [done|]. intros p Hp. destruct Hp. done. Qed.

Lemma cluster_parts c name a s : 0 <= c < 2 ^ 32 -> cluster_of (DirEntry name a (Z.shiftr c 16) (Z.land c 0xFFFF) s) = c.
Proof.
  intros Hc. unfold cluster_of. cbn [DIR_FstClusHI DIR_FstClusLO]. unfold u32. change 0x0000FFFF with (Z.ones 16). apply Z.bits_inj'. intros i Hi.
  rewrite Z.lor_spec, Z.land_spec, Z.land_spec. destruct (decide (i < 16)).
  - rewrite Z.ones_spec_low, Z.mod_pow2_bits_low, Z.shiftl_spec_low by lia. rewrite andb_true_r. done.
  - rewrite Z.ones_spec_high by lia. cbn. rewrite orb_false_r. destruct (decide (i < 32)).
    + rewrite Z.mod_pow2_bits_low, Z.shiftl_spec, Z.shiftr_spec by lia. f_equal. lia.
    + rewrite Z.mod_pow2_bits_high by lia. symmetry. destruct (decide (c = 0)) as [->|]; [apply Z.bits_0|]. apply Z.bits_above_log2; [lia|]. apply Z.log2_lt_pow2; [lia|].
      apply Z.lt_le_trans with (2 ^ 32); [lia|]. apply Z.pow_le_mono_r; lia.
Qed.

(** The entry made for a valid name *)
Lemma new_entry n c : valid_name (n_name n) -> 0 <= c < 2 ^ 32 ->
  exists name, vfat_convert_name (n_name n) = Some name /\ forall e, e = DirEntry name (entry_attr (n_attr n)) (Z.shiftr c 16) (Z.land c 0xFFFF) 0 ->
    name0 e <> 0 /\ live e = true /\ zlen (DIR_Name e) = 11 /\ shortname e = c_string (n_name n) /\ cluster_of e = c.
Proof.
  intros Hn Hc. destruct (convert_name_spec _ Hn) as (name & Hcv & Hlen & Hsn & Hh). destruct (valid_name_head _ Hn) as (x & Hx & H0 & Hd & Hf). exists name. split; [done|].
  intros e ->. assert (E0 : name0 (DirEntry name (entry_attr (n_attr n)) (Z.shiftr c 16) (Z.land c 0xFFFF) 0) = x).
  { unfold name0. cbn. rewrite Hx in Hh. destruct name as [|y name]; [done|]. injection Hh as ->. done. }
  split_and!; [rewrite E0; done| |done|done|apply cluster_parts; done].
  unfold live. rewrite E0, (proj2 (Z.eqb_neq _ _) Hd), (proj2 (Z.eqb_neq _ _) Hf). cbn [DIR_Attr]. unfold entry_attr.
  repeat destruct (has _ _); reflexivity.
Qed.

(** An allocation moves the cursor and nothing else of the context. *)
Definition same_context (v1 v2 : vfat) : Prop := bytes_per_cluster (ctx v2) = bytes_per_cluster (ctx v1) /\ fat_entries (ctx v2) = fat_entries (ctx v1).

Lemma alloc_take_context w w' page base sector index c : alloc_take w page base sector index = Some (w', c) -> same_context w w'.
Proof.
  unfold alloc_take, store_word, same_context. destruct (cache w !! page) as [buf|]; [|done]. cbn [mbind option_bind]. destruct (decide _); [|done]. cbn [mbind option_bind].
  intros [= <- _]. destruct (negb _); [done|]. destruct (_ =? _); done.
Qed.

Lemma alloc_context w w' err c : vfat_alloc_fat_entry w = Some (err, w', c) -> same_context w w'.
Proof.
  unfold vfat_alloc_fat_entry. generalize (last_allocated_sector (ctx w)) at 2. generalize (last_allocated_index (ctx w)), (@None Z), 0xFFFFFFFF.
  generalize (Z.to_nat (fat_begin_lba (ctx w) +! fat_blk_count (ctx w) - last_allocated_sector (ctx w))). intros m. induction m as [|m IH]; intros i page old sector; [intros [= _ <- _]; done|].
  cbn [alloc_sectors]. destruct (if negb _ then _ else page) as [page'|]; [|destruct (negb _); [intros [= _ <- _]; done|done]].
  destruct (alloc_index _ _ _ _ _) as [[index|]|]; cbn [mbind option_bind]; [|apply IH|done].
  destruct (alloc_take _ _ _ _ _) as [[w1 c1]|] eqn:E; [|done]. cbn [mbind option_bind]. intros [= _ <- _]. apply (alloc_take_context _ _ _ _ _ _ _ E).
Qed.

Lemma write_attr_bit a b : Z.testbit (write_attr a b) 3 = Z.testbit b 3.
Proof. unfold write_attr. repeat destruct (has _ _); rewrite ?Z.lor_spec; rewrite ?orb_false_r; done. Qed.

Lemma entry_page k : 0 <= k < 2 ^ 27 -> Z.shiftr (k *! 32) PMM_PAGE_SHIFT = k / entries_nr.
Proof.
  intros Hk. unfold u32. rewrite Z.mod_small by lia. rewrite Z.shiftr_div_pow2 by done. change (2 ^ PMM_PAGE_SHIFT) with (128 * 32). change entries_nr with 128.
  rewrite Z.div_mul_cancel_r; lia.
Qed.

Lemma cleared_dead x e : zlen (DIR_Name e) = 11 -> name0 (set_name0 x e) = x.
Proof. intros Hn. unfold name0. cbn. rewrite zget_zset_eq by lia. done. Qed.

(** The entry that follows, where the code looks for it *)
Lemma remove_reads d k l next : m_pages d !! (k / entries_nr) = Some l -> slot d (k + 1) = Some next -> 0 <= k < 2 ^ 27 -> k mod entries_nr <> entries_nr - 1 \/ k = entries_nr - 1 ->
  remove_entry d k = (e ← zget l (k mod entries_nr); d' ← store_entry d (k / entries_nr) (k mod entries_nr) (set_name0 (if name0 next =? 0 then 0 else FREED) e); Some (0, set_page_dirty (k / entries_nr) d')).
Proof.
  intros Hl Hnext Hk Hlast. destruct (slot_place k) as [Ek Hr]. unfold remove_entry. rewrite (entry_page k Hk), Hl. destruct (zget l (k mod entries_nr)) as [e|]; [|done]. cbn [mbind option_bind].
  unfold slot in Hnext. destruct (Z.eqb_spec k (entries_nr - 1)) as [E|E].
  - rewrite E in Hnext |- *. change ((entries_nr - 1 + 1) / entries_nr) with 1 in Hnext. change ((entries_nr - 1 + 1) mod entries_nr) with 0 in Hnext. change ((entries_nr - 1) / entries_nr + 1) with 1.
    destruct (m_pages d !! 1) as [l'|]; [|done]. cbn [mbind option_bind] in Hnext. rewrite Hnext. done.
  - destruct (slot_index (k / entries_nr) (k mod entries_nr + 1)) as [E1 E2]; [lia|]. replace (k / entries_nr * entries_nr + (k mod entries_nr + 1)) with (k + 1) in * by lia.
    rewrite E1, E2, Hl in Hnext. cbn [mbind option_bind] in Hnext. rewrite Hnext. done.
Qed.
End Entries.

(** The removal of the last entry of a page other than the first reads past the page. *)
Theorem vfat_unlink_past_page d l k : m_pages d !! (k / entries_nr) = Some l -> zlen l = entries_nr -> 0 <= k < 2 ^ 27 -> k mod entries_nr = entries_nr - 1 -> k <> entries_nr - 1 ->
  remove_entry d k = None.
Proof.
  intros Hl Hlen Hk Hr Hne. unfold remove_entry. rewrite (entry_page k Hk), Hl, (proj2 (Z.eqb_neq _ _) Hne), Hr. destruct (zget l (entries_nr - 1)); [|done]. cbn [mbind option_bind].
  rewrite (zget_None l (entries_nr - 1 + 1)) by lia. done.
Qed.

(** The update of an entry after the first page goes to another page and leaves it. *)
Theorem vfat_write_past_page parent node l : n_type node = VFS_VFAT_TYPE -> entries_nr <= entry_index (n_pv node) < 2 ^ 27 ->
  m_pages (n_mapper parent) !! (entry_index (n_pv node) / 1024) = Some l -> zlen l = entries_nr -> vfat_write_node parent node = None.
Proof.
  intros Ht Hi Hl Hlen. change entries_nr with 128 in *. unfold vfat_write_node. rewrite Ht. cbn [Z.eqb negb VFS_VFAT_TYPE Pos.eqb].
  replace (Z.shiftr (entry_index (n_pv node) *! 4) PMM_PAGE_SHIFT) with (entry_index (n_pv node) / 1024).
  2:{ unfold u32. rewrite Z.mod_small, Z.shiftr_div_pow2 by (done || lia). change (2 ^ PMM_PAGE_SHIFT) with (1024 * 4). rewrite Z.div_mul_cancel_r by lia. done. }
  rewrite Hl, (zget_None l) by lia. done.
Qed.

Section Operations.
Context (fuel : nat) (v : vfat) (parent : vfs_node_s) (st : store) (T : Z) (M : names).
Context (V : volume v st (n_mapper parent) T M) (Hdir : has (flags (n_pv parent)) VFAT_ATTR_DIRECTORY = true).
Context (Hfuel : fat_entries (ctx v) <= Z.of_nat fuel) (Hpages : T / entries_nr < Z.of_nat fuel).

(** The run of [o] is a step of the volume. *)
Definition implements_dir (o : dir_op) : Prop :=
  exists err v' d' n' st' M' T', run_dir fuel v parent o = Some (err, v', d', n') /\
    dir_step (cursor (ctx v)) (bytes_per_cluster (ctx v)) (node_cluster (n_pv parent)) st M o (err, n') st' M' /\
    volume v' st' d' T' M' /\ saved (n_mapper parent) d'.

Lemma lookup_implements n : implements_dir (Lookup n).
Proof.
  unfold implements_dir, run_dir, vfat_lookup_node. rewrite Hdir. cbn [negb]. pose proof (vo_dir _ _ _ _ _ V) as H. rewrite (locate_map _ T M H fuel (n_name n) Hpages). cbn [mbind option_bind].
  pose proof (saved_refl (n_mapper parent)) as Hsv. destruct (M !! c_string (n_name n)) as [[k e]|] eqn:EM.
  2:{ eexists _, _, _, _, _, _, _. split; [done|]. split; [apply step_absent; done|]. done. }
  cbn [VFS_FOUND negb Z.eqb mbind option_bind]. destruct (has (n_attr n) VFS_DIR && negb (has (DIR_Attr e) VFAT_ATTR_DIRECTORY)) eqn:Ed.
  { apply andb_true_iff in Ed as [Ed1 Ed2]. apply negb_true_iff in Ed2. eexists _, _, _, _, _, _, _. split; [done|]. split; [apply (step_not_dir _ _ _ _ _ n k e); done|]. done. }
  fold (cluster_of e). set (n1 := if has (DIR_Attr e) VFAT_ATTR_DIRECTORY then n else set_n_size (DIR_FileSize e) n).
  assert (E1 : n_attr n1 = n_attr n /\ n_name n1 = n_name n) by (unfold n1; destruct (has (DIR_Attr e) VFAT_ATTR_DIRECTORY); split; reflexivity). destruct E1 as [E1 E1'].
  cbn [set_n_links set_n_attr set_n_pv n_attr n_links n_name n_size n_mapper]. rewrite E1. set (a := special_attr (cluster_of e) (lookup_attr (DIR_Attr e) (n_attr n))).
  destruct (negb (cluster_of e =? 0) && has a VFS_DIR) eqn:Ec.
  - apply andb_true_iff in Ec as [Ec1 Ec2]. apply negb_true_iff, Z.eqb_neq in Ec1. destruct (vo_ref _ _ _ _ _ V _ _ _ EM Ec1) as [l Hl].
    destruct (count_implements fuel v st (vo_store _ _ _ _ _ V) Hfuel (cluster_of e) ltac:(eauto)) as (err & r & v' & st' & Hrun & Hstep & _).
    unfold run_op in Hrun. destruct (vfat_cluster_count _ _ _ _ _) as [cnt|]; [|done]. cbn [mbind option_bind] in Hrun |- *. injection Hrun as <- <- <-.
    assert (cnt = zlen l) as -> by (inversion Hstep; congruence).
    eexists _, _, _, _, _, _, _. split; [done|]. split; [apply (step_found _ _ _ _ _ n k e); [done|]|done].
    split; cbn; try done; fold a; [rewrite Ec2; done|intros l2 _ Hl2; congruence].
  - cbn [mbind option_bind n_attr]. eexists _, _, _, _, _, _, _. split; [done|]. split; [apply (step_found _ _ _ _ _ n k e); [done|]|done].
    split; cbn; try done.
    + intros Hd _. unfold n1. rewrite Hd. done.
    + intros l Ha _ Hc. fold a in Ha. rewrite Ha, andb_true_r in Ec. apply negb_false_iff, Z.eqb_eq in Ec. done.
Qed.

(** The part of a creation after the first cluster is known *)
Lemma create_entry_ok v1 n c add_err own_err : valid_name (n_name n) -> M !! c_string (n_name n) = None -> T + 1 < 2 ^ 27 -> 0 <= c < 2 ^ 32 ->
  (add_err <> 0 /\ create_entry fuel v1 parent n c add_err own_err = ('(_, v) ← vfat_free_fat_entry fuel v1 c; Some (add_err, v, n_mapper parent, n))) \/
  exists d' T' k e n', create_entry fuel v1 parent n c add_err own_err = Some (0, v1, d', n') /\ cluster_of e = c /\
    made (bytes_per_cluster (ctx v1)) (node_cluster (n_pv parent)) own_err k e n n' /\ holds d' T' (<[c_string (n_name n) := (k, e)]> M) /\ saved (n_mapper parent) d'.
Proof.
  intros Hn HM HT Hc. destruct (new_entry n c Hn Hc) as (name & Hcv & He). pose proof (vo_dir _ _ _ _ _ V) as H.
  destruct (He _ eq_refl) as (He0 & Hel & Hlen & Hsn & Hcl). clear He. set (e := DirEntry name _ _ _ 0) in *.
  destruct (place_entry fuel (n_mapper parent) T M e add_err H HT Hpages He0 Hel Hlen ltac:(congruence)) as (k & x & Hk & Hff & Hr). cbv zeta in Hr.
  unfold create_entry. rewrite Hff. cbn [mbind option_bind]. destruct Hr as [[Ha Hr]|(d1 & d2 & T' & Hr & Hst & Hh & Hsv)]; rewrite Hr; cbn [mbind option_bind].
  - left. split; [done|]. rewrite (proj2 (Z.eqb_neq _ 0) Ha). done.
  - right. cbn [Z.eqb negb]. set (n1 := if _ && _ then _ else n). assert (E1 : n_attr n1 = n_attr n /\ n_name n1 = n_name n /\ n_pv n1 = n_pv n /\ n_mapper n1 = n_mapper n) by (unfold n1; destruct (_ && _); split_and!; reflexivity).
    destruct E1 as (E1 & E2 & E3 & E4). rewrite E2, Hcv, E1. cbn [mbind option_bind]. fold e. rewrite Hst. cbn [mbind option_bind]. rewrite (place_number _ T) by (apply H || done).
    eexists _, T', k, e, _. split; [done|]. split; [done|]. split; [|rewrite <- Hsn; done]. unfold created_node. cbn [set_n_mapper set_n_pv n_attr n_mapper n_pv]. rewrite E1.
    destruct (has (n_attr n) VFS_DIR) eqn:Ed; split; cbn; rewrite ?E1, ?E2, ?E3, ?E4, ?Ed, ?Hcl; try done.
    intros _. split_and!; [done|destruct (own_err =? 0); done|]. intros ->. cbn. apply lookup_insert_eq.
Qed.

Lemma free_no_file c : c ∈ free st -> files st !! c = None.
Proof.
  intros Hc. destruct (files st !! c) as [l|] eqn:El; [|done]. destruct (repr_file v st c l (vo_store _ _ _ _ _ V) El) as [l' ->].
  destruct (free_not_in v st c (c :: l') c (vo_store _ _ _ _ _ V) El Hc). apply list_elem_of_here.
Qed.

(** The release of a cluster that was just taken *)
Lemma taken_released c : c ∈ free st -> Store (delete c (<[c := [c]]> (files st))) (free st ∖ {[c]} ∪ list_to_set [c]) = st.
Proof.
  intros Hc. rewrite delete_insert_id by (apply free_no_file; done). destruct st as [fs fr]. cbn in *. f_equal. apply set_eq. intros x.
  destruct (decide (x = c)) as [->|]; set_solver.
Qed.

Lemma refs_put st' c name k e : (forall f, is_Some (files st !! f) -> is_Some (files st' !! f)) -> (c <> 0 -> is_Some (files st' !! c)) -> cluster_of e = c ->
  forall name' k' e', <[name := (k, e)]> M !! name' = Some (k', e') -> cluster_of e' <> 0 -> is_Some (files st' !! cluster_of e').
Proof.
  intros Hf Hc <- name' k' e'. destruct (decide (name' = name)) as [->|Hne].
  - rewrite lookup_insert_eq. intros [= _ <-]. done.
  - rewrite lookup_insert_ne by done. intros HM Hz. apply Hf. apply (vo_ref _ _ _ _ _ V _ _ _ HM Hz).
Qed.

Lemma make_implements n add_err own_err : legal_dir T st M (Make n add_err own_err) -> implements_dir (Make n add_err own_err).
Proof.
  intros (Ht & Hn & HM & HT). unfold implements_dir, run_dir, vfat_create_node. rewrite Ht, Z.eqb_refl. cbn [negb]. fold (special n). destruct (special n) eqn:Es.
  - destruct (create_entry_ok v n 0 add_err own_err Hn HM HT ltac:(lia)) as [[Ha ->]|(d' & T' & k & e & n' & -> & Hc & Hm & Hh & Hsv)].
    { replace (vfat_free_fat_entry fuel v 0) with (Some (0, v)) by (destruct fuel; done). cbn [mbind option_bind].
      eexists _, _, _, _, _, _, T. split; [done|]. split; [apply step_failed; done|]. split; [done|apply saved_refl]. }
    eexists _, _, _, _, _, _, T'. split; [done|]. split; [apply (step_special _ _ _ _ _ n add_err own_err k e); done|]. split; [|done].
    split; [apply V|done|]. apply (refs_put st 0); done.
  - destruct (create_implements fuel v st (vo_store _ _ _ _ _ V)) as (err & c & v1 & st1 & Hrun & Hstep & R1). unfold run_op in Hrun. destruct (vfat_alloc_fat_entry v) as [[[err' v1'] c']|] eqn:Ea; [|done].
    cbn [mbind option_bind] in Hrun |- *. injection Hrun as -> -> ->. inversion Hstep as [cl Hcl Hlow E1 E2 E3|Hfull Hcur E1 E2 E3| | | | |]; subst.
    + destruct (proj1 (rp_free _ _ (vo_store _ _ _ _ _ V) c) Hcl) as [Hr _]. pose proof (core_entries v (rp_core _ _ (vo_store _ _ _ _ _ V))) as Hn0.
      cbn [Z.eqb negb]. rewrite (proj2 (Z.eqb_neq c 0)) by lia. destruct (alloc_context _ _ _ _ Ea) as [Ebpc Een].
      destruct (create_entry_ok v1 n c add_err own_err Hn HM HT ltac:(lia)) as [[Ha ->]|(d' & T' & k & e & n' & -> & Hc & Hm & Hh & Hsv)].
      * assert (Hf1 : fat_entries (ctx v1) <= Z.of_nat fuel) by lia.
        destruct (delete_implements fuel v1 _ R1 Hf1 c) as (err & r & v2 & st2 & Hrun & Hstep2 & R2); [cbn; rewrite lookup_insert_eq; eauto|].
        unfold run_op in Hrun. destruct (vfat_free_fat_entry fuel v1 c) as [[err' v2']|]; [|done]. cbn [mbind option_bind] in Hrun |- *. injection Hrun as -> <- ->.
        inversion Hstep2 as [| | | | | |f l Hl Hcur E4 E5 E6]; subst. cbn in Hl. rewrite lookup_insert_eq in Hl. injection Hl as <-. cbn [files free] in R2. rewrite taken_released in R2 by done.
        eexists _, _, _, _, _, _, T. split; [done|]. split; [apply step_failed; done|]. split; [split; [done|apply V|apply V]|apply saved_refl].
      * rewrite Ebpc in Hm. eexists _, _, _, _, _, _, T'. split; [done|]. split; [apply (step_made _ _ _ _ _ n add_err own_err k e); try done; rewrite Hc; done|]. split; [|done].
        rewrite Hc. split; [done|done|]. apply (refs_put _ c); [|cbn; rewrite lookup_insert_eq; eauto|done]. intros f [l Hl]. cbn. destruct (decide (f = c)) as [->|]; [rewrite lookup_insert_eq; eauto|].
        rewrite lookup_insert_ne by done. eauto.
    + cbn [Z.eqb negb]. eexists _, _, _, _, _, _, T. split; [done|]. split; [apply step_full; done|]. split; [split; [done|apply V|apply V]|apply saved_refl].
Qed.

Lemma update_leaves n : legal_dir T st M (Update n) -> leaves_page M (Update n) -> run_dir fuel v parent (Update n) = None.
Proof.
  intros (Ht & k & e & HM & Hk & Hbit) (k' & e' & HM' & Hpage). assert (k' = k) as -> by congruence. pose proof (vo_dir _ _ _ _ _ V) as H. pose proof (h_wf _ _ _ H) as W.
  pose proof (wf_end _ _ W) as HT. apply (h_map _ _ _ H) in HM as (Hkr & _). unfold run_dir. pose proof (Z.div_mod k 1024 ltac:(lia)) as Hd. pose proof (Z.mod_pos_bound k 1024 ltac:(lia)).
  assert (0 <= k / 1024) by (apply Z.div_pos; lia). destruct (wf_slot_page _ T (k / 1024 * 128) W) as (l & Hp & Hlen); [lia|].
  change entries_nr with 128 in Hp. rewrite Z.div_mul in Hp by lia. rewrite (vfat_write_past_page parent n l Ht); rewrite ?Hk; try done. lia.
Qed.

Lemma unlink_leaves n : legal_dir T st M (Unlink n) -> leaves_page M (Unlink n) -> run_dir fuel v parent (Unlink n) = None.
Proof.
  intros Hleg (Hc & k & e & HM & Hlast & Hne). pose proof (vo_dir _ _ _ _ _ V) as H. pose proof (h_wf _ _ _ H) as W. pose proof (wf_end _ _ W) as HT.
  cbn in Hleg. destruct Hleg as [[_ HM']|[(_ & k' & e' & HM' & Hk)|[Hc' _]]]; [congruence| |done]. assert (k' = k) as -> by congruence.
  unfold run_dir, vfat_unlink_node. fold (foreign n). rewrite (locate_map _ T M H fuel (n_name n) Hpages), HM, Hk. cbn [mbind option_bind VFS_FOUND Z.eqb negb].
  replace (if foreign n then Some (0, k) else Some (0, k)) with (Some (0, k)) by (destruct (foreign n); done). cbn [mbind option_bind Z.eqb negb].
  rewrite (proj2 (Z.eqb_neq _ 0) Hc). apply (h_map _ _ _ H) in HM as (Hkr & _). destruct (wf_slot_page _ T k W) as (l & Hp & Hlen); [lia|].
  rewrite (vfat_unlink_past_page _ l k Hp Hlen) by (done || lia). done.
Qed.

Lemma update_implements n : legal_dir T st M (Update n) -> ~ leaves_page M (Update n) -> implements_dir (Update n).
Proof.
  intros (Ht & k & e & HM & Hk & Hbit) Hin. assert (Hpage : k < entries_nr) by (destruct (Z.lt_ge_cases k entries_nr); [done|destruct Hin; exists k, e; done]). pose proof (vo_dir _ _ _ _ _ V) as H. pose proof (h_wf _ _ _ H) as W. apply (h_map _ _ _ H) in HM as HM'. destruct HM' as (Hkr & Hs & Hl & Hn).
  destruct (wf_slot_page _ T k W) as (l & Hp & Hlen); [lia|]. unfold implements_dir, run_dir, vfat_write_node. rewrite Ht, Hk. cbn [Z.eqb negb VFS_VFAT_TYPE Pos.eqb].
  assert (E0 : k / entries_nr = 0 /\ k mod entries_nr = k) by (split; [apply Z.div_small|apply Z.mod_small]; lia). destruct E0 as [E0 E1].
  assert (E2 : Z.shiftr (k *! 4) PMM_PAGE_SHIFT = 0). { change entries_nr with 128 in Hpage. unfold u32. rewrite Z.mod_small, Z.shiftr_div_pow2 by (done || lia). apply Z.div_small. change (2 ^ PMM_PAGE_SHIFT) with 4096. lia. }
  rewrite E2. rewrite E0 in Hp. rewrite Hp. assert (He : zget l k = Some e) by (unfold slot in Hs; rewrite E0, Hp, E1 in Hs; done). rewrite He. cbn [mbind option_bind]. fold (updated n e).
  destruct (store_slot (n_mapper parent) k (updated n e) l) as (d2 & Hst & S); [rewrite E0; done|done|]. rewrite E0, E1 in Hst. rewrite Hst. cbn [mbind option_bind].
  assert (Hlive : live (updated n e) = true).
  { unfold live in *. cbn [DIR_Attr updated]. apply andb_true_iff in Hl as [Hl _]. change (name0 (updated n e)) with (name0 e). rewrite Hl. cbn [andb]. apply negb_true_iff, Z.eqb_neq.
    intros E. pose proof (write_attr_bit (n_attr n) (DIR_Attr e)) as Hb. rewrite E, Hbit in Hb. done. }
  eexists _, _, _, _, _, _, T. split; [done|]. split; [apply (step_updated _ _ _ _ _ n k e); done|]. split; [split; [apply V| |]|].
  - apply holds_dirty. rewrite <- Hn. change (shortname e) with (shortname (updated n e)).
    apply (holds_replace _ T M H d2 k e); [change (shortname (updated n e)) with (shortname e); rewrite Hn; done| |rewrite (sd_slot _ _ _ _ S), decide_True; done|done|].
    + apply (wf_put (n_mapper parent) d2 T k (updated n e)); try done; [apply (wf_used _ _ W k e); done|apply (wf_name _ _ W k e Hs)].
    + intros j Hj. rewrite (sd_slot _ _ _ _ S), decide_False; done.
  - intros name k' e'. destruct (decide (name = c_string (n_name n))) as [->|Hne].
    + rewrite lookup_insert_eq. intros [= _ <-]. apply (vo_ref _ _ _ _ _ V _ _ _ HM).
    + rewrite lookup_insert_ne by done. apply (vo_ref _ _ _ _ _ V).
  - split; cbn; rewrite (sd_dirty _ _ _ _ S); [set_solver|]. intros p Hpp. destruct (decide (p = 0)) as [->|]; [set_solver|]. rewrite (sd_page _ _ _ _ S) in Hpp by (rewrite E0; done). done.
Qed.

Lemma remove_entry_ok name k e : M !! name = Some (k, e) -> k mod entries_nr <> entries_nr - 1 \/ k = entries_nr - 1 ->
  exists d' T', remove_entry (n_mapper parent) k = Some (0, d') /\ holds d' T' (delete name M) /\ saved (n_mapper parent) d'.
Proof.
  intros HM Hlast. pose proof (vo_dir _ _ _ _ _ V) as H. pose proof (h_wf _ _ _ H) as W. pose proof (wf_end _ _ W) as HT. apply (h_map _ _ _ H) in HM as HM'. destruct HM' as (Hk & Hs & Hl & Hn).
  destruct (slot_is_Some _ T (k + 1) W) as [next Hnext]; [lia|]. destruct (wf_slot_page _ T k W) as (l & Hp & Hlen); [lia|].
  rewrite (remove_reads _ k l next) by (done || lia). assert (He : zget l (k mod entries_nr) = Some e) by (unfold slot in Hs; rewrite Hp in Hs; done). rewrite He. cbn [mbind option_bind].
  set (x := if name0 next =? 0 then 0 else FREED). pose proof (wf_name _ _ W k e Hs) as Hne. destruct (store_slot _ k (set_name0 x e) l Hp Hlen) as (d2 & -> & S). cbn [mbind option_bind].
  assert (Hn2 : zlen (DIR_Name (set_name0 x e)) = 11) by (cbn; rewrite zlen_zset; done). pose proof (cleared_dead x e Hne) as Hx.
  assert (Hsame : forall j, j <> k -> slot d2 j = slot (n_mapper parent) j) by (intros j Hj; rewrite (sd_slot _ _ _ _ S), decide_False; done).
  assert (Hk2 : slot d2 k = Some (set_name0 x e)) by (rewrite (sd_slot _ _ _ _ S), decide_True; done).
  assert (Hsv : saved (n_mapper parent) (set_page_dirty (k / entries_nr) d2)).
  { split; cbn; rewrite (sd_dirty _ _ _ _ S); [set_solver|]. intros p Hpp. destruct (decide (p = k / entries_nr)) as [->|]; [set_solver|]. rewrite (sd_page _ _ _ _ S) in Hpp; done. }
  unfold x in *. destruct (Z.eqb_spec (name0 next) 0) as [E|E].
  - assert (k + 1 = T) by (destruct (decide (k + 1 < T)); [|lia]; destruct (wf_used _ _ W (k + 1) next); (done || lia)).
    exists (set_page_dirty (k / entries_nr) d2), k. split; [done|]. split; [|done]. apply holds_dirty.
    apply (holds_remove _ T M H d2 k name k e); try done; [apply (wf_cut (n_mapper parent) d2 T k (set_name0 0 e)); (done || lia)|lia|lia].
  - exists (set_page_dirty (k / entries_nr) d2), T. split; [done|]. split; [|done]. apply holds_dirty.
    apply (holds_remove _ T M H d2 T name k e); try done; [apply (wf_put (n_mapper parent) d2 T k (set_name0 FREED e)); try done; rewrite Hx; done|].
    intros y _ Hy. assert (y = set_name0 FREED e) as -> by congruence. unfold live. rewrite Hx. done.
Qed.

Lemma unlink_implements n : legal_dir T st M (Unlink n) -> ~ leaves_page M (Unlink n) -> implements_dir (Unlink n).
Proof.
  intros Hleg Hin. unfold implements_dir, run_dir, vfat_unlink_node. pose proof (vo_dir _ _ _ _ _ V) as H. fold (foreign n). cbn in Hleg.
  rewrite (locate_map _ T M H fuel (n_name n) Hpages). destruct Hleg as [[Hf HM]|[(Hc & k & e & HM & Hk)|[Hc Hrel]]].
  - rewrite Hf, HM. cbn. eexists _, _, _, _, _, _, T. split; [done|]. split; [apply step_missing; done|]. split; [done|apply saved_refl].
  - assert (Hlast : k mod entries_nr <> entries_nr - 1 \/ k = entries_nr - 1).
    { destruct (decide (k mod entries_nr = entries_nr - 1)), (decide (k = entries_nr - 1)); auto. destruct Hin. split; [done|]. exists k, e. done. }
    destruct (remove_entry_ok _ k e HM Hlast) as (d' & T' & Hrm & Hh & Hsv). rewrite HM, Hk. cbn [mbind option_bind VFS_FOUND Z.eqb negb].
    replace (if foreign n then Some (0, k) else Some (0, k)) with (Some (0, k)) by (destruct (foreign n); done). cbn [mbind option_bind Z.eqb negb].
    rewrite (proj2 (Z.eqb_neq _ 0) Hc), Hrm. cbn [mbind option_bind]. eexists _, _, _, _, _, _, T'. split; [done|]. split; [apply (step_unlinked _ _ _ _ _ n k e); done|]. split; [|done].
    split; [apply V|done|]. intros name k' e' HM'. apply lookup_delete_Some in HM' as [_ HM']. apply (vo_ref _ _ _ _ _ V _ _ _ HM').
  - destruct (foreign n && bool_decide (M !! c_string (n_name n) = None)) eqn:Efm.
    { apply andb_true_iff in Efm as [Hf HM]. apply bool_decide_eq_true in HM. rewrite Hf, HM. cbn. eexists _, _, _, _, _, _, T. split; [done|]. split; [apply step_missing; done|]. split; [done|apply saved_refl]. }
    set (sel := if foreign n then _ else _). assert (Hsel : exists i, sel = Some (0, i)).
    { unfold sel. destruct (foreign n); [|eauto]. cbn [andb] in Efm. apply bool_decide_eq_false in Efm. destruct (M !! c_string (n_name n)) as [[k e]|]; [|done]. cbn. eauto. }
    destruct Hsel as [i ->]. cbn [mbind option_bind Z.eqb negb]. rewrite Hc. cbn [Z.eqb]. destruct ((n_links n =? 0) && negb (has (n_attr n) VFS_FIFO)) eqn:El.
    + apply andb_true_iff in El as [El Ef]. apply Z.eqb_eq in El. apply negb_true_iff in Ef. destruct (Hrel El Ef) as [[l Hl] Hno].
      destruct (delete_implements fuel v st (vo_store _ _ _ _ _ V) Hfuel _ ltac:(eauto)) as (err & r & v2 & st2 & Hrun & Hstep & R2).
      unfold run_op in Hrun. destruct (vfat_free_fat_entry fuel v _) as [[err' v2']|]; [|done]. cbn [mbind option_bind] in Hrun |- *. injection Hrun as -> <- ->.
      inversion Hstep as [| | | | | |f l' Hl' Hcur E4 E5 E6]; subst. eexists _, _, _, _, _, _, T. split; [done|]. split; [apply step_released; done|]. split; [|apply saved_refl].
      split; [done|done|]. intros name k e HM Hz. cbn. rewrite lookup_delete_ne by (intros E; apply (Hno name k e HM); done). apply (vo_ref _ _ _ _ _ V _ _ _ HM Hz).
    + cbn [mbind option_bind]. eexists _, _, _, _, _, _, T. split; [done|]. split; [|split; [done|apply saved_refl]]. apply step_kept; [done|].
      apply andb_false_iff in El as [El|El]; [left; apply Z.eqb_neq; done|right; apply negb_false_iff; done].
Qed.
End Operations.


(** A directory of one page, with the file of cluster 3 *)
Definition demo_entry : vfat_DirEntry_s := DirEntry [70; 79; 79; 32; 32; 32; 32; 32; 84; 88; 84] VFAT_ATTR_ARCHIVE 0 3 700.
Definition demo_dir : mapper_s := Mapper {[0 := zset zero_page 0 demo_entry]} ∅ (Some vfat_node_mapper_op).
Definition demo_name : list Z := [70; 79; 79; 46; 84; 88; 84].
Definition demo_names : names := {[demo_name := (0, demo_entry)]}.
Definition demo_parent : vfs_node_s := VfsNode VFS_VFAT_TYPE [47; 0] VFS_DIR 1 1 512 true (VfatNode VFAT_ATTR_DIRECTORY 0 2 0) demo_dir.
(** Nodes for the file and for a new directory *)
Definition demo_node : vfs_node_s := VfsNode VFS_VFAT_TYPE (demo_name ++ [0; 0; 0]) 0 1 1 0 true (VfatNode 0 0 0 0) (Mapper ∅ ∅ None).
Definition demo_new : vfs_node_s := VfsNode VFS_VFAT_TYPE [66; 73; 78; 0; 0; 0; 0] VFS_DIR 1 1 0 true (VfatNode 0 0 0 0) (Mapper ∅ ∅ None).

Lemma demo_slot k : 0 <= k < 128 -> slot demo_dir k = Some (if decide (k = 0) then demo_entry else zero_entry).
Proof.
  intros Hk. unfold slot. change entries_nr with 128. rewrite Z.div_small, Z.mod_small by done. cbn [demo_dir m_pages]. rewrite lookup_singleton_eq. cbn [mbind option_bind].
  destruct (decide (k = 0)) as [->|Hne]; [done|]. rewrite zget_zset_ne by lia. unfold zget, zero_page. apply lookup_replicate_2. change (Z.to_nat entries_nr) with 128%nat. lia.
Qed.

Lemma demo_slot_any k e : slot demo_dir k = Some e -> 0 <= k < 128.
Proof.
  unfold slot. cbn [demo_dir m_pages]. destruct (decide (k / entries_nr = 0)) as [E|E]; [|rewrite lookup_singleton_ne by done; done].
  intros _. apply Z.div_small_iff in E; [|done]. change entries_nr with 128 in E. lia.
Qed.

Lemma demo_volume : volume demo_vfat demo_store (n_mapper demo_parent) 1 demo_names.
Proof.
  split; [apply demo_repr| |].
  - split; [split|].
    + done.
    + intros p Hp. change (1 / entries_nr) with 0 in Hp. assert (p = 0) as -> by lia. eexists. split; [apply lookup_singleton_eq|done].
    + intros k e Hk. assert (k = 0) as -> by lia. cbn [n_mapper demo_parent]. rewrite demo_slot by lia. intros [= <-]. done.
    + exists zero_entry. cbn [n_mapper demo_parent]. rewrite demo_slot by lia. done.
    + intros k e. cbn [n_mapper demo_parent]. intros Hs. pose proof (demo_slot_any k e Hs). rewrite demo_slot in Hs by done. destruct (decide (k = 0)); injection Hs as <-; done.
    + intros name k e. unfold demo_names. rewrite lookup_singleton_Some. cbn [n_mapper demo_parent]. split.
      * intros [<- [= <- <-]]. split; [lia|]. split; [apply (demo_slot 0); lia|]. split; [done|vm_compute; reflexivity].
      * intros (Hk & Hs & _ & Hn). assert (k = 0) as -> by lia. rewrite demo_slot in Hs by lia. injection Hs as <-. split; [|done]. rewrite <- Hn. vm_compute. reflexivity.
  - intros name k e. unfold demo_names. rewrite lookup_singleton_Some. intros [<- [= <- <-]] _. change (cluster_of demo_entry) with 3. unfold demo_store. cbn [files]. rewrite lookup_insert_ne by done. eauto.
Qed.

Lemma demo_new_legal : legal_dir 1 demo_store demo_names (Make demo_new 0 0).
Proof.
  split; [done|]. split; [|split; [done|lia]]. apply (name_plain [66; 73; 78] [0; 0; 0]); [done| |done].
  repeat (apply Forall_cons; split; [unfold name_byte, DOT, SPACE; lia|]). apply Forall_nil. done.
Qed.

