(* ===== verification/FatDirRound.v ===== *)
(** * FatDirRound: a node that is created is found again, and the cases where the code of the directories goes wrong *)

From S2P Require Import Prelude Pmm Fat FatSpec FatChain FatStore FatDir FatDirSpec FatDirMap FatDirStore.

(** ** Attributes *)

Lemma has_bit a i : 0 <= i -> has a (2 ^ i) = Z.testbit a i.
Proof.
  intros Hi. unfold has. destruct (Z.testbit a i) eqn:E.
  - apply negb_true_iff, Z.eqb_neq. intros Hz. assert (Hb : Z.testbit (Z.land a (2 ^ i)) i = false) by (rewrite Hz; apply Z.bits_0). rewrite Z.land_spec, E, Z.pow2_bits_true in Hb by lia. done.
  - apply negb_false_iff, Z.eqb_eq. apply Z.bits_inj'. intros j Hj. rewrite Z.land_spec, Z.bits_0, Z.pow2_bits_eqb by lia. destruct (Z.eqb_spec i j) as [<-|]; [rewrite E; done|apply andb_false_r].
Qed.

Lemma has_lor a x y : has a (Z.lor x y) = has a x || has a y.
Proof.
  unfold has. rewrite Z.land_lor_distr_r. destruct (Z.eqb_spec (Z.land a x) 0) as [->|Hx]; [done|]. cbn. apply negb_true_iff, Z.eqb_neq. intros E. apply Hx. apply (Z.lor_eq_0_l _ _ E).
Qed.

(** The attributes that an entry keeps *)
Definition kept_attr : Z := Z.lor VFS_DIR (Z.lor VFS_RD_ONLY (Z.lor VFS_SYS VFS_ARCHIVE)).

Lemma attr_roundtrip a : has a (Z.lor VFS_FIFO VFS_DEV) = false -> lookup_attr (entry_attr a) 0 = Z.land a kept_attr /\ has (entry_attr a) VFAT_ATTR_DIRECTORY = has a VFS_DIR.
Proof.
  intros Hs. unfold entry_attr. rewrite !(has_lor a VFS_SYS), !(has_lor a VFS_RD_ONLY), Hs, !orb_false_r. unfold kept_attr. rewrite !Z.land_lor_distr_r.
  assert (Hbit : forall i, 0 <= i -> Z.land a (2 ^ i) = if has a (2 ^ i) then 2 ^ i else 0).
  { intros i Hi. rewrite has_bit by done. apply Z.bits_inj'. intros j Hj. rewrite Z.land_spec, Z.pow2_bits_eqb by done. destruct (Z.eqb_spec i j) as [<-|Hij].
    - rewrite andb_true_r. destruct (Z.testbit a i); [rewrite Z.pow2_bits_true by done; done|rewrite Z.bits_0; done].
    - rewrite andb_false_r. destruct (Z.testbit a i); [rewrite Z.pow2_bits_false by done; done|rewrite Z.bits_0; done]. }
  pose proof (Hbit 0 ltac:(done)) as H0. pose proof (Hbit 6 ltac:(done)) as H6. pose proof (Hbit 7 ltac:(done)) as H7. pose proof (Hbit 8 ltac:(done)) as H8.
  change (2 ^ 0) with VFS_DIR in H0. change (2 ^ 6) with VFS_RD_ONLY in H6. change (2 ^ 7) with VFS_SYS in H7. change (2 ^ 8) with VFS_ARCHIVE in H8. rewrite H0, H6, H7, H8.
  destruct (has a VFS_DIR), (has a VFS_RD_ONLY), (has a VFS_SYS), (has a VFS_ARCHIVE); split; reflexivity.
Qed.

(** A creation that succeeds keeps the geometry of the volume. *)
Lemma create_context fuel v parent st T M n add_err own_err v' d' n' :
  volume v st (n_mapper parent) T M -> has (flags (n_pv parent)) VFAT_ATTR_DIRECTORY = true -> legal_dir T st M (Make n add_err own_err) ->
  fat_entries (ctx v) <= Z.of_nat fuel -> T / entries_nr < Z.of_nat fuel -> vfat_create_node fuel v parent n add_err own_err = Some (0, v', d', n') -> same_context v v'.
Proof.
  intros V Hd (Ht & Hn & HM & HT) Hf Hp. unfold vfat_create_node. rewrite Ht, Z.eqb_refl. cbn [negb].
  assert (Htail : forall v1 c, 0 <= c < 2 ^ 32 -> create_entry fuel v1 parent n c add_err own_err = Some (0, v', d', n') -> v' = v1).
  { intros v1 c Hc. destruct (create_entry_ok fuel v parent st T M V Hp v1 n c add_err own_err Hn HM HT Hc) as [[Ha ->]|(? & ? & ? & ? & ? & -> & _)]; [|congruence].
    destruct (vfat_free_fat_entry fuel v1 c) as [[? ?]|]; cbn [mbind option_bind]; congruence. }
  fold (special n). destruct (special n); [intros E; rewrite (Htail v 0 ltac:(lia) E); done|].
  pose proof (core_entries v (rp_core _ _ (vo_store _ _ _ _ _ V))) as He.
  destruct (alloc_core v (rp_core _ _ (vo_store _ _ _ _ _ V))) as [(c & v1 & Ea & _ & _ & _ & Hc & _)|[Ea _]]; rewrite Ea; cbn [mbind option_bind Z.eqb negb]; [|done].
  rewrite (proj2 (Z.eqb_neq c 0)) by lia. intros E. rewrite (Htail v1 c ltac:(lia) E). apply (alloc_context _ _ _ _ Ea).
Qed.

(** C7: A file or a directory that is created under a name of 8.3 form ([valid_name], in [legal_dir]; a longer name is cut and not found again,
    [vfat_long_name_lost]), devices and FIFOs excepted ([special]), is found again under its name: a lookup with a new node gives the index of the entry, the first cluster, the attributes
    that FAT32 keeps, and the size, null for a file and one cluster for a directory. *)
Theorem fat_create_lookup fuel v parent st T M n add_err own_err v' d' n' m :
  volume v st (n_mapper parent) T M -> has (flags (n_pv parent)) VFAT_ATTR_DIRECTORY = true -> legal_dir T st M (Make n add_err own_err) ->
  fat_entries (ctx v) <= Z.of_nat fuel -> 2 ^ 20 <= Z.of_nat fuel -> special n = false ->
  vfat_create_node fuel v parent n add_err own_err = Some (0, v', d', n') -> c_string (n_name m) = c_string (n_name n) -> n_attr m = 0 ->
  exists m', vfat_lookup_node fuel v' (set_n_mapper d' parent) m = Some (VFS_FOUND, m') /\ n_attr m' = Z.land (n_attr n) kept_attr /\
    node_cluster (n_pv m') = node_cluster (n_pv n') /\ entry_index (n_pv m') = entry_index (n_pv n') /\
    n_size m' = if has (n_attr n) VFS_DIR then u32 (bytes_per_cluster (ctx v)) else 0.
Proof.
  intros V Hd Hleg Hf Hf2 Hsp Hrun Hname Hm0. pose proof (wf_end _ _ (h_wf _ _ _ (vo_dir _ _ _ _ _ V))) as HT.
  assert (Hpages : forall t, t < 2 ^ 27 -> t / entries_nr < Z.of_nat fuel) by (intros t Ht; change entries_nr with 128; assert (t / 128 < 2 ^ 20) by (apply Z.div_lt_upper_bound; lia); lia).
  destruct (create_context fuel v parent st T M n add_err own_err v' d' n' V Hd Hleg Hf (Hpages T ltac:(lia)) Hrun) as [Ebpc Een].
  destruct (make_implements fuel v parent st T M V Hd Hf (Hpages T ltac:(lia)) n add_err own_err Hleg) as (err & v1 & d1 & n1 & st' & M' & T' & Hrun' & Hstep & V' & _).
  unfold run_dir in Hrun'. rewrite Hrun in Hrun'. injection Hrun' as <- <- <- <-.
  inversion Hstep as [| | | |n0 ? ? k e ? _ Hfr Hlow [(Hsn & Ha & Hsz) _ _ Hpv _]| | | | | | |]; subst; try congruence. destruct (attr_roundtrip (n_attr n) Hsp) as [Hat Hdr].
  pose proof (wf_end _ _ (h_wf _ _ _ (vo_dir _ _ _ _ _ V'))) as HT'. destruct (proj1 (rp_free _ _ (vo_store _ _ _ _ _ V) _) Hfr) as [Hc _].
  destruct (lookup_implements fuel v' (set_n_mapper d' parent) _ T' _ V' Hd ltac:(lia) (Hpages T' ltac:(lia)) m) as (err & v2 & d2 & m' & st2 & M2 & T2 & Hrun2 & Hstep2 & _).
  unfold run_dir in Hrun2. destruct (vfat_lookup_node fuel v' (set_n_mapper d' parent) m) as [[err2 m2]|]; [|done]. cbn [mbind option_bind] in Hrun2. injection Hrun2 as -> <- <- ->.
  assert (HM2 : <[c_string (n_name n) := (k, e)]> M !! c_string (n_name m) = Some (k, e)) by (rewrite Hname; apply lookup_insert_eq).
  inversion Hstep2 as [? HM3|? ? ? HM3 Hd1|n3 k3 e3 ? HM3 F| | | | | | | | |]; subst; [congruence|rewrite Hm0 in Hd1; done|]. rewrite HM2 in HM3. injection HM3 as <- <-.
  assert (Eat : n_attr m' = Z.land (n_attr n) kept_attr).
  { rewrite (fo_attr _ _ _ _ _ _ _ F), Ha, Hm0, Hat. unfold special_attr. rewrite (proj2 (Z.eqb_neq _ 0)) by lia. done. }
  exists m'. rewrite (fo_pv _ _ _ _ _ _ _ F), Hpv. split_and!; try done. assert (Edir : has (n_attr m') VFS_DIR = has (n_attr n) VFS_DIR).
  { rewrite Eat. unfold has. rewrite <- Z.land_assoc. done. }
  destruct (has (n_attr n) VFS_DIR) eqn:En.
  - rewrite (fo_dir _ _ _ _ _ _ _ F [cluster_of e]); [|done|cbn; apply lookup_insert_eq|lia]. change (zlen [cluster_of e]) with 1. rewrite Z.mul_1_l, Ebpc. done.
  - rewrite (fo_file _ _ _ _ _ _ _ F); [done|rewrite Ha; done|done].
Qed.

Lemma demo_created fuel : 128 <= Z.of_nat fuel -> exists v' d' n', vfat_create_node fuel demo_vfat demo_parent demo_new 0 0 = Some (0, v', d', n').
Proof.
  intros Hf. destruct (make_implements fuel demo_vfat demo_parent demo_store 1 demo_names demo_volume eq_refl Hf ltac:(change (1 / entries_nr) with 0; lia) demo_new 0 0 demo_new_legal)
    as (err & v' & d' & n' & st' & M' & T' & Hrun & Hstep & _). unfold run_dir in Hrun. exists v', d', n'. rewrite Hrun.
  inversion Hstep as [| | | | |? ? ? _ Hfull|? ? ? Ha| | | | |]; subst; try done. specialize (Hfull 5). change (cursor (ctx demo_vfat)) with 2 in Hfull.
  assert (5 < 2) by (apply Hfull; unfold demo_store; cbn [free]; rewrite elem_of_list_to_set, elem_of_seqZ; lia). lia.
Qed.

Definition round_fuel : nat := Z.to_nat (2 ^ 20).
Lemma round_fuel_ok : Z.of_nat round_fuel = 2 ^ 20.
Proof. unfold round_fuel. apply Z2Nat.id. lia. Qed.

Lemma fat_create_lookup_witness :
  exists v' d' n' m', vfat_create_node round_fuel demo_vfat demo_parent demo_new 0 0 = Some (0, v', d', n') /\
    vfat_lookup_node round_fuel v' (set_n_mapper d' demo_parent) (set_n_attr 0 demo_new) = Some (VFS_FOUND, m') /\ n_attr m' = VFS_DIR /\ n_size m' = 512.
Proof.
  pose proof round_fuel_ok as Ef. assert (Hen : fat_entries (ctx demo_vfat) = 128) by reflexivity. destruct (demo_created round_fuel ltac:(lia)) as (v' & d' & n' & Hrun). exists v', d', n'.
  destruct (fat_create_lookup round_fuel demo_vfat demo_parent demo_store 1 demo_names demo_new 0 0 v' d' n' (set_n_attr 0 demo_new) demo_volume eq_refl demo_new_legal ltac:(lia) ltac:(lia) eq_refl Hrun eq_refl eq_refl)
    as (m' & Hl & Ha & _ & _ & Hs). exists m'. split; [exact Hrun|]. split; [exact Hl|]. split; [rewrite Ha; reflexivity|rewrite Hs; reflexivity].
Defined.

(** ** Where the code differs from what it means to do *)

(** A device that is created is found again as a FIFO: the attribute that tells them apart is not written. *)
Theorem vfat_device_becomes_fifo : special_attr 0 (lookup_attr (entry_attr VFS_DEV) 0) = VFS_FIFO.
Proof. reflexivity. Qed.

(** A short extension is not padded with spaces: the null byte and what follows it in memory are written. *)
Theorem vfat_extension_not_padded : vfat_convert_name [65; 46; 67; 0; 88; 89] = Some [65; 32; 32; 32; 32; 32; 32; 32; 67; 0; 88].
Proof. reflexivity. Qed.

(** A name of more than eight bytes without extension is not found again under this name. *)
Theorem vfat_long_name_lost : exists n, vfat_convert_name [76; 79; 78; 71; 78; 65; 77; 69; 83; 0] = Some n /\ same_string (vfat_getshortname n) [76; 79; 78; 71; 78; 65; 77; 69; 83; 0] = false.
Proof. eexists. split; reflexivity. Qed.
