(* ===== verification/FatFile.v ===== *)
(** * FatFile: the files of FAT32, [kernel/fs/fat32/fat32_file.c] and the transfer of their pages, [fat32_mapper.c]

    An open file keeps a cluster and its rank, from which the next search of a cluster starts.  A transfer of a page makes requests to the device, one for every cluster of the page, or
    one for a part of a cluster; the answers of [blkio_init] and [blkio_sync] are arguments. *)

From S2P Require Import Prelude Pmm Fat FatDir.

Definition BLKIO_RD : Z := 0x01.
Definition EEODIR : Z := 125.
Definition VFS_EODIR : Z := EEODIR.

(** [file_cluster]: the field [node_cluster] *)
Record vfat_file_s := VfatFile { file_cluster : Z; pg_current_cluster : Z; pg_current_rank : Z }.

Definition vfat_open (node_cluster : Z) : vfat_file_s := VfatFile node_cluster node_cluster 0.

(** The cluster from which a rank is searched and the distance to it *)
Definition search_from (fi : vfat_file_s) (cluster_rank : Z) : Z * Z :=
  if pg_current_rank fi <? cluster_rank then (pg_current_cluster fi, cluster_rank -! pg_current_rank fi) else (file_cluster fi, cluster_rank).

(** The error, the table and the file *)
Definition vfat_lseek (fuel : nat) (v : vfat) (fi : vfat_file_s) (f_offset : Z) : option (Z * vfat * vfat_file_s) :=
  if f_offset =? 0 then Some (0, v, VfatFile (file_cluster fi) (file_cluster fi) 0)
  else if bytes_per_cluster (ctx v) =? 0 then None
  else
    let cluster_rank := f_offset / bytes_per_cluster (ctx v) in
    if cluster_rank =? pg_current_rank fi then Some (0, v, VfatFile (file_cluster fi) (pg_current_cluster fi) cluster_rank)
    else
      let '(next_cluster, effective_rank) := search_from fi cluster_rank in
      if effective_rank =? 0 then Some (0, v, VfatFile (file_cluster fi) next_cluster cluster_rank)
      else
        '(err, v, next_cluster, _) ← vfat_cluster_lookup fuel v next_cluster effective_rank;
        if negb (err =? 0) then Some (err, v, fi) else Some (0, v, VfatFile (file_cluster fi) next_cluster cluster_rank).

(** ** Transfers *)

Definition VFAT_CONVERT_CLUSTER (c : vfat_context_s) (cluster : Z) : Z := cluster_begin_lba c +! (cluster -! 2) *! sectors_per_cluster c.

(** A request to the device: the first sector, the address in memory, the number of sectors *)
Record dev_request := Request { rq_src : Z; rq_dst : Z; rq_count : Z }.

Definition vfat_pgio_fat (c : vfat_context_s) (index vaddr : Z) : dev_request :=
  let sectors_per_page := PMM_PAGE_SIZE / bytes_per_sector c in Request (index *! sectors_per_page) vaddr sectors_per_page.

Definition clusters_per_page (c : vfat_context_s) : Z := if bytes_per_cluster c <=? PMM_PAGE_SIZE then PMM_PAGE_SIZE / bytes_per_cluster c else 1.

(** The first cluster of a page: the error, the table, [cluster_index[0]] and [extended[0]] *)
Definition first_cluster (fuel : nat) (v : vfat) (fi : vfat_file_s) (cluster_rank : Z) : option (Z * vfat * Z * Z) :=
  if cluster_rank =? pg_current_rank fi then Some (0, v, pg_current_cluster fi, 0)
  else
    let '(current_vfat_cluster, effective_rank) := search_from fi cluster_rank in
    if effective_rank =? 0 then Some (0, v, pg_current_cluster fi, 0) else vfat_cluster_lookup fuel v current_vfat_cluster effective_rank.

(** The other clusters: the error, the table, the elements of [cluster_index] and [extended] that are set.  [junk]: what [cluster_index] holds before *)
Fixpoint more_clusters (n : nat) (fuel : nat) (v : vfat) (rd : bool) (junk : Z) (current_vfat_cluster : Z) (acc : list (Z * Z)) : option (Z * vfat * list (Z * Z)) :=
  match n with
  | O => Some (0, v, acc)
  | S n =>
      '(err, v, cluster, extended) ← vfat_cluster_lookup fuel v current_vfat_cluster 1;
      if negb (err =? 0) then
        if (err =? VFS_ENOSPC) && rd then Some (0, v, acc ++ [(junk, 1)]) else Some (err, v, acc)
      else more_clusters n fuel v rd junk cluster (acc ++ [(cluster, extended)])
  end.

(** The first cluster that the transfer has added *)
Fixpoint first_extended (acc : list (Z * Z)) : Z :=
  match acc with [] => 0 | (_, extended) :: acc => if negb (extended =? 0) then 0 else 1 + first_extended acc end.

(** The loop over the requests: them, the last cluster and its rank *)
Fixpoint fill_requests (n : nat) (c : vfat_context_s) (index_table : list (Z * Z)) (i sector_start vaddr sector_count current_vfat_cluster cluster_rank : Z) : option (list dev_request * Z * Z) :=
  match n with
  | O => Some ([], current_vfat_cluster, cluster_rank)
  | S n =>
      let rq := Request sector_start vaddr sector_count in
      let i := i + 1 in
      '(rqs, cl, rank) ← (if (1 <? clusters_per_page c) && (i <? clusters_per_page c) then
                            '(cluster, _) ← zget index_table i;
                            fill_requests n c index_table i (VFAT_CONVERT_CLUSTER c cluster) (vaddr +! bytes_per_cluster c) sector_count cluster (cluster_rank +! 1)
                          else fill_requests n c index_table i sector_start vaddr sector_count current_vfat_cluster cluster_rank);
      Some (rq :: rqs, cl, rank)
  end.

(** The error, the table, the file and the requests *)
Definition vfat_pgio_reg (fuel : nat) (v : vfat) (fi : vfat_file_s) (index vaddr : Z) (rd : bool) (junk init_err sync_err : Z) : option (Z * vfat * vfat_file_s * list dev_request) :=
  let c := ctx v in
  if bytes_per_cluster c =? 0 then None
  else
    let cluster_rank := u32 (Z.shiftl index PMM_PAGE_SHIFT) / bytes_per_cluster c in
    '(err, v, cluster, extended) ← first_cluster fuel v fi cluster_rank;
    if negb (err =? 0) then Some (err, v, fi, [])
    else
      '(err, v, acc) ← more_clusters (Z.to_nat (clusters_per_page c - 1)) fuel v rd junk cluster [(cluster, extended)];
      if negb (err =? 0) then Some (err, v, fi, [])
      else
        let i := if rd then first_extended acc else clusters_per_page c in
        if i =? 0 then Some (0, v, fi, [])
        else
          let sector_start := VFAT_CONVERT_CLUSTER c cluster in
          let '(sector_start, sector_count) :=
            if bytes_per_cluster c <=? PMM_PAGE_SIZE then (sector_start, sectors_per_cluster c)
            else let sector_count := PMM_PAGE_SIZE / bytes_per_sector c in
                 (sector_start +! index mod Z.shiftr (bytes_per_cluster c) PMM_PAGE_SHIFT *! sector_count, sector_count) in
          if negb (init_err =? 0) then Some (init_err, v, fi, [])
          else
            '(rqs, cl, rank) ← fill_requests (Z.to_nat i) c acc 0 sector_start vaddr sector_count cluster cluster_rank;
            Some (sync_err, v, VfatFile (file_cluster fi) cl rank, rqs).

(** The pages of directories, and of files written back, start from the node *)
Definition vfat_node_page (fuel : nat) (v : vfat) (node_cluster : Z) (index vaddr : Z) (rd : bool) (junk init_err sync_err : Z) : option (Z * vfat * list dev_request) :=
  '(err, v, _, rqs) ← vfat_pgio_reg fuel v (VfatFile node_cluster node_cluster 0) index vaddr rd junk init_err sync_err; Some (err, v, rqs).

(** ** Listing of a directory *)

Record vfs_dirent_s := Dirent { d_type : Z; d_name : list Z }.

Definition dirent_type (e : vfat_DirEntry_s) : Z :=
  let t := if has (DIR_Attr e) VFAT_ATTR_DIRECTORY then VFS_DIR else 0 in
  let t := if has (DIR_Attr e) VFAT_ATTR_SYSTEM then Z.lor t VFS_SYS else t in
  let t := if has (DIR_Attr e) VFAT_ATTR_ARCHIVE then Z.lor t VFS_ARCHIVE else t in
  let t := if has (DIR_Attr e) VFAT_ATTR_READ_ONLY then Z.lor t VFS_RD_ONLY else t in
  special_attr (Z.lor (u32 (Z.shiftl (DIR_FstClusHI e) 16)) (Z.land 0x0000FFFF (DIR_FstClusLO e))) t.

(** The error, the entry and the offset of the file.  The offset is a multiple of the size of an entry *)
Fixpoint vfat_readdir (fuel : nat) (d : mapper_s) (f_offset : Z) : option (Z * option vfs_dirent_s * Z) :=
  match fuel with
  | O => None
  | S fuel =>
      match m_pages d !! Z.shiftr f_offset PMM_PAGE_SHIFT with
      | None => Some (VFS_IO_ERR, None, f_offset)
      | Some page =>
          if negb (f_offset mod 32 =? 0) then None
          else
            e ← zget page (f_offset mod PMM_PAGE_SIZE / 32);
            if name0 e =? 0 then Some (VFS_EODIR, None, f_offset)
            else if (name0 e =? FREED) || (DIR_Attr e =? 0x0F) || (name0 e =? DOT) then vfat_readdir fuel d (f_offset +! 32)
            else Some (0, Some (Dirent (dirent_type e) (vfat_getshortname (DIR_Name e))), f_offset +! 32)
      end
  end.
