(* ===== verification/FatFileSpec.v ===== *)
(** * FatFileSpec: the clusters of an open file, and the sectors of its pages *)

From S2P Require Import Prelude Pmm Fat FatSpec FatChain FatStore FatDir FatFile.

(** The chain [L] of a file in the table *)
Definition chain (v : vfat) (L : list Z) : Prop := core v /\ links v L /\ NoDup L.

(** The cluster and the rank that an open file keeps *)
Definition file_ok (L : list Z) (fi : vfat_file_s) : Prop := head L = Some (file_cluster fi) /\ 0 <= pg_current_rank fi /\ zget L (pg_current_rank fi) = Some (pg_current_cluster fi).

Lemma grown_chain v v' L new : grown v v' L new -> chain v' (L ++ new).
Proof. intros [H1 H2 H3 H4 H5 H6]. done. Qed.

(** A search from any cluster of a chain *)
Lemma lookup_at fuel v L p x n : chain v L -> 0 <= p -> zget L p = Some x -> 0 <= n ->
  exists new v', grown v v' L new /\
    ((exists y, vfat_cluster_lookup fuel v x n = Some (0, v', y, if decide (new = []) then 0 else 1) /\ zget (L ++ new) (p + n) = Some y /\ zlen (L ++ new) = Z.max (zlen L) (p + n + 1)) \/
     (exists ext, vfat_cluster_lookup fuel v x n = Some (VFS_ENOSPC, v', 0, ext) /\ zlen (L ++ new) <= p + n)).
Proof.
  intros (Hc & Hl & Hnd) Hp Hx Hn. assert (HL : L = take (Z.to_nat p) L ++ x :: drop (S (Z.to_nat p)) L) by (symmetry; apply take_drop_middle; done).
  pose proof (lookup_lt_Some _ _ _ Hx) as Hlt. assert (Hpre : length (take (Z.to_nat p) L) = Z.to_nat p) by (rewrite length_take; lia).
  assert (Hrest : length (drop (S (Z.to_nat p)) L) = (length L - S (Z.to_nat p))%nat) by (rewrite length_drop; done).
  assert (Hxr : 2 <= x < fat_entries (ctx v)) by (apply (links_range v L x Hl); rewrite HL; set_solver). unfold vfat_cluster_lookup. rewrite (proj2 (Z.eqb_neq _ 0)) by (apply Hc).
  destruct (walk_next v x Hc Hxr) as [Hw Hpg]. destruct (cache v !! _) as [buf|]; [|done]. rewrite HL in Hl, Hnd.
  destruct (lookup_loop_spec (Z.to_nat n) fuel v _ x _ _ _ 0 Hc Hl Hnd Hw) as (new & v' & Hg & Hres). rewrite <- HL, Hpre, Hrest in *. exists new, v'. split; [done|].
  destruct Hres as [(y & ext' & -> & Hy & Hlen & -> & _)|(ext' & -> & Hlen & _)].
  - left. exists y. split; [destruct new; done|]. split; [unfold zget; rewrite <- Hy; f_equal; lia|]. unfold zlen. rewrite length_app. lia.
  - right. exists ext'. split; [done|]. unfold zlen. rewrite length_app. lia.
Qed.

Lemma search_from_ok L fi rank : file_ok L fi -> 0 <= rank < 2 ^ 32 -> exists p, 0 <= p /\ zget L p = Some (search_from fi rank).1 /\ p + (search_from fi rank).2 = rank /\ 0 <= (search_from fi rank).2.
Proof.
  intros (Hh & Hr & Hc) Hrank. unfold search_from. destruct (Z.ltb_spec (pg_current_rank fi) rank) as [Hlt|Hge]; cbn.
  - exists (pg_current_rank fi). unfold u32. rewrite Z.mod_small by lia. split_and!; (done || lia).
  - exists 0. split_and!; try lia. unfold zget. destruct L; done.
Qed.

(** The seek of the file system finds the cluster of the offset, or makes the file long enough for it. *)
Lemma lseek_cluster fuel v L fi off : chain v L -> file_ok L fi -> 0 <= off < 2 ^ 32 -> 0 < bytes_per_cluster (ctx v) ->
  exists new v' fi' err, vfat_lseek fuel v fi off = Some (err, v', fi') /\ grown v v' L new /\
    ((err = 0 /\ file_ok (L ++ new) fi' /\ pg_current_rank fi' = off / bytes_per_cluster (ctx v)) \/ (err = VFS_ENOSPC /\ fi' = fi /\ zlen (L ++ new) <= off / bytes_per_cluster (ctx v))).
Proof.
  intros C F Ho Hb. pose proof F as (Hh & Hr & Hcur). assert (Hg0 : grown v v L []) by (apply grown_refl; apply C). unfold vfat_lseek. rewrite (proj2 (Z.eqb_neq (bytes_per_cluster _) 0)) by lia.
  set (rank := off / bytes_per_cluster (ctx v)). assert (Hrank : 0 <= rank < 2 ^ 32) by (split; [apply Z.div_pos; lia|apply (Z.le_lt_trans _ off); [apply Z.div_le_upper_bound; nia|lia]]).
  assert (H0 : zget L 0 = Some (file_cluster fi)) by (destruct L; done).
  destruct (Z.eqb_spec off 0) as [E|E].
  { eexists [], _, _, _. split; [done|]. split; [done|]. left. rewrite app_nil_r. split; [done|]. split; [done|]. cbn. unfold rank. rewrite E, Z.div_0_l by lia. done. }
  destruct (Z.eqb_spec rank (pg_current_rank fi)) as [Er|Er].
  { eexists [], _, _, _. split; [done|]. split; [done|]. left. rewrite app_nil_r. split; [done|]. split; [|done]. split; [done|]. cbn. rewrite Er. done. }
  destruct (search_from_ok L fi rank F Hrank) as (p & Hp & Hx & Hpe & He). destruct (search_from fi rank) as [start eff]. cbn in Hx, Hpe, He. destruct (Z.eqb_spec eff 0) as [E0|E0].
  - eexists [], _, _, _. split; [done|]. split; [done|]. left. rewrite app_nil_r. split; [done|]. split; [|done]. split; [done|]. cbn. split; [lia|]. replace rank with p by lia. done.
  - destruct (lookup_at fuel v L p start eff C Hp Hx He) as (new & v' & Hg & [(y & -> & Hy & Hlen)|(ext & -> & Hlen)]); cbn [mbind option_bind Z.eqb negb VFS_ENOSPC ENOSPC].
    + exists new, v'. eexists _, _. split; [done|]. split; [done|]. left. split; [done|]. split; [|done]. split; [destruct L; done|]. cbn. split; [lia|]. rewrite <- Hpe. done.
    + exists new, v'. eexists _, _. split; [done|]. split; [done|]. right. split_and!; try done. lia.
Qed.

(** ** The clusters of a page *)

(** [acc] has the clusters of [L] from the rank [p] on, and which of them were not in [L0] *)
Definition entries (L0 L : list Z) (p : Z) (acc : list (Z * Z)) : Prop :=
  forall j, 0 <= j < zlen acc -> exists cl, zget acc j = Some (cl, if p + j <? zlen L0 then 0 else 1) /\ zget L (p + j) = Some cl.

Lemma zget_prefix {A} (l k : list A) j x : zget l j = Some x -> zget (l ++ k) j = Some x.
Proof. apply lookup_app_l_Some. Qed.

Lemma entries_grow L0 L new p acc : entries L0 L p acc -> entries L0 (L ++ new) p acc.
Proof. intros H j Hj. destruct (H j Hj) as (cl & H1 & H2). exists cl. split; [done|]. apply zget_prefix. done. Qed.

Lemma entries_snoc L0 L p acc cl : entries L0 L p acc -> zget L (p + zlen acc) = Some cl -> entries L0 L p (acc ++ [(cl, if p + zlen acc <? zlen L0 then 0 else 1)]).
Proof.
  intros H Hcl j Hj. rewrite zlen_app in Hj. change (zlen [_]) with 1 in Hj. destruct (decide (j < zlen acc)) as [Hlt|Hge].
  - destruct (H j ltac:(lia)) as (x & H1 & H2). exists x. split; [apply zget_prefix; done|done].
  - assert (j = zlen acc) as -> by lia. exists cl. split; [|done]. unfold zget, zlen. rewrite Nat2Z.id. apply list_lookup_middle. done.
Qed.

(** The loop over the clusters after the first *)
Lemma more_ok n : forall fuel v rd junk L0 L p cur acc, chain v L -> 0 <= p -> entries L0 L p acc -> 0 < zlen acc -> zget L (p + zlen acc - 1) = Some cur -> zlen L = Z.max (zlen L0) (p + zlen acc) ->
  exists new v' acc', grown v v' L new /\ entries L0 (L ++ new) p acc' /\ zlen acc <= zlen acc' <= zlen acc + Z.of_nat n /\
    ((more_clusters n fuel v rd junk cur acc = Some (0, v', acc') /\ zlen acc' = zlen acc + Z.of_nat n /\ zlen (L ++ new) = Z.max (zlen L0) (p + zlen acc')) \/
     (rd = true /\ more_clusters n fuel v rd junk cur acc = Some (0, v', acc' ++ [(junk, 1)]) /\ zlen acc' < zlen acc + Z.of_nat n /\ zlen (L ++ new) = p + zlen acc') \/
     (rd = false /\ more_clusters n fuel v rd junk cur acc = Some (VFS_ENOSPC, v', acc') /\ zlen (L ++ new) < p + zlen acc + Z.of_nat n)).
Proof.
  induction n as [|n IH]; intros fuel v rd junk L0 L p cur acc C Hp He Ha Hcur Hlen; cbn [more_clusters].
  { exists [], v, acc. rewrite app_nil_r. split; [apply grown_refl; apply C|]. split; [done|]. split; [lia|]. left. split; [done|]. lia. }
  destruct (lookup_at fuel v L (p + zlen acc - 1) cur 1 C ltac:(lia) Hcur ltac:(lia)) as (new & v1 & Hg & [(y & -> & Hy & Hl1)|(ext & -> & Hl1)]); cbn [mbind option_bind].
  - replace (p + zlen acc - 1 + 1) with (p + zlen acc) in * by lia. cbn [Z.eqb negb]. pose proof (entries_grow L0 L new p acc He) as He1.
    assert (Eext : (if decide (new = []) then 0 else 1) = if p + zlen acc <? zlen L0 then 0 else 1).
    { rewrite zlen_app in Hl1. destruct (Z.ltb_spec (p + zlen acc) (zlen L0)) as [Hin|Hout].
      - rewrite decide_True; [done|]. destruct new; [done|]. rewrite zlen_cons in Hl1. pose proof (zlen_nonneg new). lia.
      - rewrite decide_False; [done|]. intros ->. change (zlen []) with 0 in Hl1. lia. }
    rewrite Eext. assert (El : zlen (acc ++ [(y, if p + zlen acc <? zlen L0 then 0 else 1)]) = zlen acc + 1) by (rewrite zlen_app; done).
    destruct (IH fuel v1 rd junk L0 (L ++ new) p y (acc ++ [(y, if p + zlen acc <? zlen L0 then 0 else 1)])) as (new2 & v2 & acc' & Hg2 & He2 & Hz & Hres).
    + apply (grown_chain v v1). done.
    + done.
    + apply entries_snoc; done.
    + lia.
    + rewrite El. replace (p + (zlen acc + 1) - 1) with (p + zlen acc) by lia. done.
    + lia.
    + exists (new ++ new2), v2, acc'. rewrite app_assoc. split; [apply (grown_trans v v1); done|]. split; [done|]. rewrite El in *. split; [lia|].
      destruct Hres as [(-> & ? & ?)|[(? & -> & ? & ?)|(? & -> & ?)]]; [left|right; left|right; right]; split_and!; (done || lia).
  - replace (p + zlen acc - 1 + 1) with (p + zlen acc) in * by lia. cbn [Z.eqb negb VFS_ENOSPC ENOSPC Pos.eqb]. exists new, v1, acc. split; [done|]. split; [apply entries_grow; done|]. split; [lia|].
    rewrite zlen_app in Hl1. pose proof (zlen_nonneg new). right. destruct rd; cbn [andb]; [left|right]; rewrite zlen_app; split_and!; (done || lia).
Qed.

Lemma first_extended_ok L0 L p acc : entries L0 L p acc -> 0 <= p -> first_extended acc = Z.min (zlen acc) (Z.max 0 (zlen L0 - p)).
Proof.
  revert p. induction acc as [|[cl ext] acc IH]; intros p He Hp; cbn [first_extended]; [change (zlen []) with 0; lia|]. pose proof (zlen_nonneg acc). rewrite zlen_cons in *.
  destruct (He 0) as (x & Hx & _); [rewrite zlen_cons; lia|]. cbn in Hx. injection Hx as -> ->. rewrite Z.add_0_r. destruct (Z.ltb_spec p (zlen L0)) as [Hlt|Hge]; cbn [Z.eqb negb]; [|lia].
  rewrite (IH (p + 1)); [lia| |lia]. intros j Hj. destruct (He (j + 1)) as (y & Hy & Hl); [rewrite zlen_cons; lia|]. replace (p + (j + 1)) with (p + 1 + j) in * by lia. exists y. split; [|done].
  unfold zget in *. replace (Z.to_nat (j + 1)) with (S (Z.to_nat j)) in Hy by lia. done.
Qed.

Lemma first_extended_junk L0 L p acc junk : entries L0 L p acc -> 0 <= p -> zlen L0 <= p + zlen acc -> first_extended (acc ++ [(junk, 1)]) = Z.min (zlen acc) (Z.max 0 (zlen L0 - p)).
Proof.
  revert p. induction acc as [|[cl ext] acc IH]; intros p He Hp Hle; cbn [first_extended app]; [change (zlen []) with 0 in *; cbn; lia|]. pose proof (zlen_nonneg acc). rewrite zlen_cons in *.
  destruct (He 0) as (x & Hx & _); [rewrite zlen_cons; lia|]. cbn in Hx. injection Hx as -> ->. rewrite Z.add_0_r. destruct (Z.ltb_spec p (zlen L0)) as [Hlt|Hge]; cbn [Z.eqb negb]; [|lia].
  rewrite (IH (p + 1)); [lia| |lia|lia]. intros j Hj. destruct (He (j + 1)) as (y & Hy & Hl); [rewrite zlen_cons; lia|]. replace (p + (j + 1)) with (p + 1 + j) in * by lia. exists y. split; [|done].
  unfold zget in *. replace (Z.to_nat (j + 1)) with (S (Z.to_nat j)) in Hy by lia. done.
Qed.

(** The requests of a page of several clusters *)
Lemma fill_ok c table n : 1 < clusters_per_page c -> forall i va cnt cl rank, 0 <= i < clusters_per_page c -> i + Z.of_nat n <= clusters_per_page c -> 0 <= va < 2 ^ 32 -> 0 <= rank -> rank + Z.of_nat n < 2 ^ 32 ->
  fst <$> zget table i = Some cl -> (forall j, i < j <= Z.min (i + Z.of_nat n) (clusters_per_page c - 1) -> exists e, zget table j = Some e) ->
  exists rqs cl', fill_requests n c table i (VFAT_CONVERT_CLUSTER c cl) va cnt cl rank = Some (rqs, cl', rank + (Z.min (i + Z.of_nat n) (clusters_per_page c - 1) - i)) /\ zlen rqs = Z.of_nat n /\
    fst <$> zget table (Z.min (i + Z.of_nat n) (clusters_per_page c - 1)) = Some cl' /\
    forall j, 0 <= j < Z.of_nat n -> exists x, fst <$> zget table (i + j) = Some x /\ zget rqs j = Some (Request (VFAT_CONVERT_CLUSTER c x) (u32 (va + j * bytes_per_cluster c)) cnt).
Proof.
  intros Hcpp. induction n as [|n IH]; intros i va cnt cl rank Hi Hin Hva Hr Hrn Hcl Htab; cbn [fill_requests].
  { exists [], cl. replace (Z.min (i + Z.of_nat 0) (clusters_per_page c - 1)) with i by lia. split; [do 3 f_equal; lia|]. split; [done|]. split; [done|]. intros j. lia. }
  rewrite (proj2 (Z.ltb_lt 1 _) Hcpp). cbn [andb]. assert (Hva0 : u32 (va + 0 * bytes_per_cluster c) = va) by (unfold u32; rewrite Z.mul_0_l, Z.add_0_r, Z.mod_small; lia).
  destruct (Z.ltb_spec (i + 1) (clusters_per_page c)) as [Hlt|Hge].
  - destruct (Htab (i + 1)) as ([x e] & Hx); [lia|]. rewrite Hx. cbn [mbind option_bind].
    assert (Er : rank +! 1 = rank + 1) by (apply Z.mod_small; lia). rewrite Er.
    destruct (IH (i + 1) (va +! bytes_per_cluster c) cnt x (rank + 1)) as (rqs & cl' & -> & Hlen & Hcl' & Hj); [lia|lia|apply Z.mod_pos_bound; lia|lia|lia|rewrite Hx; done|intros j Hj; apply Htab; lia|].
    cbn [mbind option_bind]. eexists _, cl'. replace (i + 1 + Z.of_nat n) with (i + Z.of_nat (S n)) in * by lia. split; [do 2 f_equal; lia|]. split; [rewrite zlen_cons; lia|]. split; [done|].
    intros j Hjr. destruct (decide (j = 0)) as [->|Hj0]; [exists cl; rewrite Z.add_0_r, Hva0; done|]. destruct (Hj (j - 1)) as (y & Hy & Hrq); [lia|]. exists y. replace (i + 1 + (j - 1)) with (i + j) in Hy by lia. split; [done|].
    unfold zget in *. replace (Z.to_nat j) with (S (Z.to_nat (j - 1))) by lia. change ((_ :: rqs) !! S (Z.to_nat (j - 1))) with (rqs !! Z.to_nat (j - 1)). rewrite Hrq. do 2 f_equal. unfold u32. rewrite Zplus_mod_idemp_l. f_equal. lia.
  - assert (n = O) as -> by lia. cbn [fill_requests mbind option_bind]. eexists _, cl. replace (Z.min (i + Z.of_nat 1) (clusters_per_page c - 1)) with i by lia. split; [do 2 f_equal; lia|]. split; [done|]. split; [done|].
    intros j Hj. assert (j = 0) as -> by lia. exists cl. rewrite Z.add_0_r, Hva0. done.
Qed.

(** The rank of the cluster that the code takes for the first one of a page whose first cluster has the rank [rank]: for the first page of a file it is the
    one that the file keeps *)
Definition start_rank (fi : vfat_file_s) (rank : Z) : Z := if (rank =? 0) && (0 <? pg_current_rank fi) then pg_current_rank fi else rank.

Lemma first_cluster_ok fuel v L fi rank start : chain v L -> file_ok L fi -> 0 <= rank < 2 ^ 32 -> start = start_rank fi rank ->
  exists new v', grown v v' L new /\
    ((exists y, first_cluster fuel v fi rank = Some (0, v', y, if start <? zlen L then 0 else 1) /\ zget (L ++ new) start = Some y /\ zlen (L ++ new) = Z.max (zlen L) (start + 1)) \/
     (exists y ext, first_cluster fuel v fi rank = Some (VFS_ENOSPC, v', y, ext) /\ zlen (L ++ new) <= start)).
Proof.
  intros C F Hrank ->. pose proof F as (Hh & Hr & Hcur). unfold first_cluster. pose proof (zget_Some_lt L _ _ Hr Hcur) as Hin.
  assert (Hkept : exists new v', grown v v' L new /\
    ((exists y, Some (0, v, pg_current_cluster fi, 0) = Some (0, v', y, if pg_current_rank fi <? zlen L then 0 else 1) /\ zget (L ++ new) (pg_current_rank fi) = Some y /\
        zlen (L ++ new) = Z.max (zlen L) (pg_current_rank fi + 1)) \/
     (exists y ext, Some (0, v, pg_current_cluster fi, 0) = Some (VFS_ENOSPC, v', y, ext) /\ zlen (L ++ new) <= pg_current_rank fi))).
  { exists [], v. split; [apply grown_refl; apply C|]. left. exists (pg_current_cluster fi). rewrite app_nil_r. rewrite (proj2 (Z.ltb_lt _ _)) by lia. split_and!; (done || lia). }
  unfold start_rank. destruct (Z.eqb_spec rank (pg_current_rank fi)) as [E|E].
  { replace (if (rank =? 0) && (0 <? pg_current_rank fi) then pg_current_rank fi else rank) with (pg_current_rank fi) by (destruct (_ && _); done). exact Hkept. }
  destruct (Z.eqb_spec rank 0) as [E0|E0]; cbn [andb].
  { rewrite (proj2 (Z.ltb_lt 0 _)) by lia. unfold search_from. rewrite (proj2 (Z.ltb_ge _ rank)) by lia. rewrite E0. exact Hkept. }
  destruct (search_from_ok L fi rank F Hrank) as (p & Hp & Hx & Hpe & He). assert (Hne : (search_from fi rank).2 <> 0).
  { unfold search_from. destruct (Z.ltb_spec (pg_current_rank fi) rank); cbn; [|lia]. unfold u32. rewrite Z.mod_small; lia. }
  destruct (search_from fi rank) as [start eff]. cbn in Hx, Hpe, He, Hne. rewrite (proj2 (Z.eqb_neq eff 0) Hne).
  destruct (lookup_at fuel v L p start eff C Hp Hx He) as (new & v' & Hg & [(y & -> & Hy & Hlen)|(ext & -> & Hlen)]); exists new, v'; (split; [done|]); rewrite Hpe in *; [left|right; eauto].
  exists y. split; [|done]. do 2 f_equal. rewrite zlen_app in Hlen. destruct (Z.ltb_spec rank (zlen L)).
  - rewrite decide_True; [done|]. destruct new; [done|]. rewrite zlen_cons in Hlen. pose proof (zlen_nonneg new). lia.
  - rewrite decide_False; [done|]. intros ->. change (zlen []) with 0 in Hlen. lia.
Qed.

(** The sectors of a page in a cluster *)
Definition sector_of (c : vfat_context_s) (index cl : Z) : Z :=
  if bytes_per_cluster c <=? PMM_PAGE_SIZE then VFAT_CONVERT_CLUSTER c cl
  else VFAT_CONVERT_CLUSTER c cl +! index mod Z.shiftr (bytes_per_cluster c) PMM_PAGE_SHIFT *! (PMM_PAGE_SIZE / bytes_per_sector c).
Definition sectors_of (c : vfat_context_s) : Z := if bytes_per_cluster c <=? PMM_PAGE_SIZE then sectors_per_cluster c else PMM_PAGE_SIZE / bytes_per_sector c.
Definition page_rank (c : vfat_context_s) (index : Z) : Z := index * PMM_PAGE_SIZE / bytes_per_cluster c.

(** Clusters and pages, one a multiple of the other *)
Definition sized (c : vfat_context_s) : Prop := 2 <= bytes_per_cluster c < 2 ^ 32 /\ (bytes_per_cluster c <= PMM_PAGE_SIZE -> PMM_PAGE_SIZE mod bytes_per_cluster c = 0).

Lemma clusters_pos c : sized c -> 1 <= clusters_per_page c <= 2048 /\ (clusters_per_page c = 1 \/ bytes_per_cluster c <= PMM_PAGE_SIZE).
Proof.
  intros [Hb Hd]. unfold clusters_per_page. change PMM_PAGE_SIZE with 4096 in *. destruct (Z.leb_spec (bytes_per_cluster c) 4096) as [Hle|]; [|lia].
  split; [|auto]. split; [apply Z.div_le_lower_bound; lia|apply Z.div_le_upper_bound; lia].
Qed.

Lemma page_rank_bound c index : sized c -> 0 <= index < 2 ^ 20 -> 0 <= page_rank c index /\ page_rank c index < 2 ^ 31.
Proof.
  intros [Hb _] Hi. unfold page_rank. change PMM_PAGE_SIZE with 4096. split; [apply Z.div_pos; lia|]. apply Z.div_lt_upper_bound; lia.
Qed.

(** The requests from the table of the clusters *)
Lemma requests_ok c (acc tb : list (Z * Z)) index va (L : list Z) rank start k : sized c -> 0 <= index < 2 ^ 20 -> 0 <= va < 2 ^ 32 -> 0 <= rank < 2 ^ 31 -> 0 < k <= clusters_per_page c -> k <= zlen acc ->
  (forall j, 0 <= j < zlen acc -> exists x e, zget tb j = Some (x, e) /\ zget L (start + j) = Some x) -> (k < clusters_per_page c -> is_Some (zget tb k)) -> zget L start = Some (default 0 (fst <$> zget tb 0)) ->
  exists rqs cl', fill_requests (Z.to_nat k) c tb 0 (sector_of c index (default 0 (fst <$> zget tb 0))) va (sectors_of c) (default 0 (fst <$> zget tb 0)) rank = Some (rqs, cl', rank + Z.min k (clusters_per_page c - 1)) /\
    zlen rqs = k /\ fst <$> zget tb (Z.min k (clusters_per_page c - 1)) = Some cl' /\
    forall j, 0 <= j < k -> exists x, zget L (start + j) = Some x /\ zget rqs j = Some (Request (sector_of c index x) (u32 (va + j * bytes_per_cluster c)) (sectors_of c)).
Proof.
  intros Hs Hi Hva Hr Hk Hka Htb Hnext H0. destruct (clusters_pos c Hs) as [Hcpp Hcase]. destruct (Htb 0 ltac:(lia)) as (x0 & e0 & Hx0 & HL0). rewrite Hx0 in *. cbn [fmap option_fmap option_map default from_option fst id] in *.
  rewrite Z.add_0_r in HL0. assert (Hva0 : u32 (va + 0 * bytes_per_cluster c) = va) by (unfold u32; rewrite Z.mul_0_l, Z.add_0_r, Z.mod_small; lia).
  destruct (decide (clusters_per_page c = 1)) as [E1|E1].
  - assert (k = 1) as -> by lia. change (Z.to_nat 1) with 1%nat. cbn [fill_requests]. rewrite E1. cbn [Z.ltb Z.compare Pos.compare Pos.compare_cont andb mbind option_bind].
    eexists _, x0. split; [rewrite Z.min_r by lia; rewrite Z.sub_diag, Z.add_0_r; done|]. split; [done|]. split; [rewrite Z.min_r, Z.sub_diag by lia; rewrite Hx0; done|]. intros j Hj. assert (j = 0) as -> by lia. exists x0. rewrite Z.add_0_r, Hva0. done.
  - assert (Hle : bytes_per_cluster c <= PMM_PAGE_SIZE) by tauto. unfold sector_of, sectors_of. rewrite (proj2 (Z.leb_le _ _) Hle).
    destruct (fill_ok c tb (Z.to_nat k) ltac:(lia) 0 va (sectors_per_cluster c) x0 rank) as (rqs & cl' & Hf & Hlen & Hcl & Hj); [lia|lia|lia|lia|lia|rewrite Hx0; done| |].
    { intros j Hj. destruct (decide (j < zlen acc)) as [Hlt|Hge]; [destruct (Htb j ltac:(lia)) as (x & e & Hx & _); eauto|]. assert (j = k) as -> by lia. destruct (Hnext ltac:(lia)) as [e He]. eauto. }
    rewrite Z2Nat.id in * by lia. rewrite Z.add_0_l, Z.sub_0_r in *. exists rqs, cl'. split; [done|]. split; [done|]. split; [done|]. intros j Hjr. destruct (Hj j Hjr) as (x & Hx & Hrq).
    rewrite Z.add_0_l in Hx. destruct (Htb j ltac:(lia)) as (y & e & Hy & HLy). rewrite Hy in Hx. injection Hx as <-. exists y. done.
Qed.

(** The file keeps a cluster of its chain, [d] ranks after the one that it gives for it *)
Definition file_off (L : list Z) (d : Z) (fi : vfat_file_s) : Prop :=
  head L = Some (file_cluster fi) /\ 0 <= pg_current_rank fi /\ zget L (pg_current_rank fi + d) = Some (pg_current_cluster fi).

(** What a transfer of the page [index] may answer, with the clusters from the rank [start] on: [l] is the chain before, [L] after *)
Inductive transfer (c : vfat_context_s) (l L : list Z) (fi : vfat_file_s) (index start va : Z) (rd : bool) (junk init_err sync_err : Z) : Z -> vfat_file_s -> list dev_request -> Prop :=
| transfer_full : zlen L < start + clusters_per_page c -> transfer c l L fi index start va rd junk init_err sync_err VFS_ENOSPC fi []
| transfer_new : rd = true -> zlen l <= start -> transfer c l L fi index start va rd junk init_err sync_err 0 fi []
| transfer_refused : init_err <> 0 -> transfer c l L fi index start va rd junk init_err sync_err init_err fi []
| transfer_done fi' rqs : init_err = 0 -> zlen rqs = (if rd then Z.min (clusters_per_page c) (zlen l - start) else clusters_per_page c) ->
    (forall j, 0 <= j < zlen rqs -> exists cl, zget L (start + j) = Some cl /\ zget rqs j = Some (Request (sector_of c index cl) (u32 (va + j * bytes_per_cluster c)) (sectors_of c))) ->
    file_off L (start - page_rank c index) fi' \/ rd = true /\ pg_current_cluster fi' = junk -> transfer c l L fi index start va rd junk init_err sync_err sync_err fi' rqs.

Lemma rank_computed c index : 0 <= index < 2 ^ 20 -> u32 (Z.shiftl index PMM_PAGE_SHIFT) / bytes_per_cluster c = page_rank c index.
Proof. intros Hi. unfold page_rank, u32. rewrite Z.shiftl_mul_pow2 by done. change (2 ^ PMM_PAGE_SHIFT) with 4096. change PMM_PAGE_SIZE with 4096. rewrite Z.mod_small by lia. done. Qed.

(** From the table of the clusters on *)
Lemma transfer_tail c l L fi acc tb index start va rd junk init_err sync_err k v : sized c -> 0 <= index < 2 ^ 20 -> 0 <= va < 2 ^ 32 -> head L = Some (file_cluster fi) -> entries l L start acc -> 0 < zlen acc ->
  tb = acc /\ zlen acc = clusters_per_page c \/ rd = true /\ tb = acc ++ [(junk, 1)] /\ zlen acc < clusters_per_page c /\ zlen l <= start + zlen acc ->
  k = (if rd then Z.min (clusters_per_page c) (Z.max 0 (zlen l - start)) else clusters_per_page c) ->
  exists err fi' rqs, (if k =? 0 then Some (0, v, fi, [])
    else if negb (init_err =? 0) then Some (init_err, v, fi, [])
    else '(rqs, cl, rank) ← fill_requests (Z.to_nat k) c tb 0 (sector_of c index (default 0 (fst <$> zget tb 0))) va (sectors_of c) (default 0 (fst <$> zget tb 0)) (page_rank c index);
         Some (sync_err, v, VfatFile (file_cluster fi) cl rank, rqs)) = Some (err, v : vfat, fi', rqs) /\ transfer c l L fi index start va rd junk init_err sync_err err fi' rqs.
Proof.
  intros Hs Hi Hva Hh He Ha Htb Hk. destruct (clusters_pos c Hs) as [Hcpp _]. destruct (page_rank_bound c index Hs Hi) as [Hr0 Hr1]. set (rank := page_rank c index) in *.
  destruct (Z.eqb_spec k 0) as [E|E].
  { eexists _, _, _. split; [done|]. apply transfer_new; destruct rd; (done || (fold rank; lia)). }
  destruct (Z.eqb_spec init_err 0) as [Ei|Ei]; cbn [negb]; [|eexists _, _, _; split; [done|]; apply transfer_refused; done].
  assert (Hin : forall j, 0 <= j < zlen acc -> exists x e, zget tb j = Some (x, e) /\ zget L (start + j) = Some x).
  { intros j Hj. destruct (He j Hj) as (x & Hx & HL). exists x. eexists. split; [|done]. destruct Htb as [[-> _]|(_ & -> & _)]; [done|apply zget_prefix; done]. }
  assert (Hk0 : 0 < k <= clusters_per_page c) by (destruct rd; lia).
  assert (Hka : k <= zlen acc) by (destruct Htb as [[_ Hl]|(-> & _ & Hl & Hle)]; [destruct rd; lia|lia]).
  assert (Hjunk : zlen acc < clusters_per_page c -> rd = true /\ zget tb (zlen acc) = Some (junk, 1)).
  { intros Hlt. destruct Htb as [[_ Hl]|(Hrd & -> & _)]; [lia|]. split; [done|]. unfold zget, zlen. rewrite Nat2Z.id. apply list_lookup_middle. done. }
  destruct (requests_ok c acc tb index va L rank start k Hs Hi Hva ltac:(lia)) as (rqs & cl' & -> & Hlen & Hcl & Hj); [done|done|done| | |].
  { intros Hlt. destruct (decide (k < zlen acc)) as [Hka2|Hka2]; [destruct (Hin k ltac:(lia)) as (x & e & -> & _); eauto|]. destruct (Hjunk ltac:(lia)) as [_ Hz]. replace k with (zlen acc) by lia. rewrite Hz. eauto. }
  { destruct (Hin 0 ltac:(lia)) as (x & e & -> & HL). rewrite Z.add_0_r in HL. done. }
  cbn [mbind option_bind]. eexists _, _, rqs. split; [done|]. apply transfer_done; [done|rewrite Hlen; destruct rd; fold rank; lia|rewrite Hlen; done|].
  set (m := Z.min k (clusters_per_page c - 1)) in *. destruct (decide (m < zlen acc)) as [Hm|Hm].
  - left. destruct (Hin m ltac:(lia)) as (x & e & Hx & HL). rewrite Hx in Hcl. injection Hcl as <-. split; [done|]. cbn. split; [lia|]. rewrite <- HL. f_equal. unfold rank. lia.
  - right. assert (zlen acc < clusters_per_page c) by lia. destruct (Hjunk ltac:(lia)) as [Hrd Hz]. split; [done|]. replace m with (zlen acc) in Hcl by lia. rewrite Hz in Hcl. injection Hcl as <-. done.
Qed.


Lemma demo_sized : sized (ctx demo_vfat).
Proof. split; [vm_compute; split; [discriminate|reflexivity]|reflexivity]. Qed.

Lemma demo_open : file_ok [3; 4] (vfat_open 3).
Proof. split; [done|]. split; [cbn; lia|done]. Qed.


(** The transfers of the demonstration: a read asks for the two clusters of the file, a write for eight *)
Example demo_read : ('(err, _, fi, rqs) ← vfat_pgio_reg 0 demo_vfat (vfat_open 3) 0 4096 true 0 0 0; Some (err, fi, rqs)) = Some (0, VfatFile 3 5 2, [Request 10 4096 1; Request 11 4608 1]).
Proof. vm_compute. reflexivity. Qed.

(** ** Where the code differs from what it means to do *)

(** The first page of a file is read from the cluster that the file keeps when another page was read before it. *)
Theorem vfat_first_page_elsewhere fuel v fi : 0 < pg_current_rank fi -> first_cluster fuel v fi 0 = Some (0, v, pg_current_cluster fi, 0).
Proof. intros H. unfold first_cluster, search_from. rewrite (proj2 (Z.eqb_neq 0 _)), (proj2 (Z.ltb_ge _ 0)) by lia. done. Qed.

(** A read that finds the table full keeps an element of the table of the clusters that was never set, as the cluster of the next rank. *)
Definition full_vfat : vfat := Vfat (VfatContext 8 1 512 512 9 1 2 8 127) {[1 := [EOC; EOC; EOC; 4] ++ replicate 1020 EOC]} ∅.
Theorem vfat_read_keeps_junk junk : ('(err, _, fi, _) ← vfat_pgio_reg 0 full_vfat (vfat_open 3) 0 4096 true junk 0 0; Some (err, fi)) = Some (0, VfatFile 3 junk 2).
Proof. vm_compute. reflexivity. Qed.
