(* ===== verification/FatReaddir.v ===== *)
(** * FatReaddir: the listing of a FAT32 directory, and the cases where the transfer of pages goes wrong *)

From S2P Require Import Prelude Pmm Fat FatSpec FatChain FatStore FatDir FatDirSpec FatDirMap FatDirStore FatFile FatFileSpec.

(** All the entries from an offset on, as a program lists them *)
Fixpoint list_dir (n fuel : nat) (d : mapper_s) (f_offset : Z) : option (list vfs_dirent_s) :=
  match n with
  | O => None
  | S n =>
      '(err, e, f_offset) ← vfat_readdir fuel d f_offset;
      if err =? VFS_EODIR then Some [] else if negb (err =? 0) then None else x ← e; l ← list_dir n fuel d f_offset; Some (x :: l)
  end.

Definition dirent_of (e : vfat_DirEntry_s) : vfs_dirent_s := Dirent (dirent_type e) (vfat_getshortname (DIR_Name e)).

Section Listing.
Context (d : mapper_s) (T : Z) (M : names) (H : holds d T M).
Let W := h_wf _ _ _ H.

Lemma readdir_place k : 0 <= k <= T -> Z.shiftr (k * 32) PMM_PAGE_SHIFT = k / entries_nr /\ k * 32 mod 32 = 0 /\ (k * 32) mod PMM_PAGE_SIZE / 32 = k mod entries_nr /\ (k < T -> k * 32 +! 32 = (k + 1) * 32).
Proof.
  intros Hk. pose proof (wf_end _ _ W). change entries_nr with 128. change PMM_PAGE_SIZE with (128 * 32). rewrite Z.shiftr_div_pow2 by done. change (2 ^ PMM_PAGE_SHIFT) with (128 * 32).
  rewrite Z.div_mul_cancel_r, Z.mul_mod_distr_r, Z.mod_mul, Z.div_mul by lia. split_and!; try done. intros Hlt. unfold u32. rewrite Z.mod_small; lia.
Qed.

(** One call gives the next entry that has a name. *)
Lemma readdir_next fuel : forall k, 0 <= k <= T -> T - k < Z.of_nat fuel ->
  (exists j e, k <= j < T /\ slot d j = Some e /\ live e = true /\ (forall i x, k <= i < j -> slot d i = Some x -> live x = false) /\ vfat_readdir fuel d (k * 32) = Some (0, Some (dirent_of e), (j + 1) * 32)) \/
  ((forall i x, k <= i < T -> slot d i = Some x -> live x = false) /\ vfat_readdir fuel d (k * 32) = Some (VFS_EODIR, None, T * 32)).
Proof.
  induction fuel as [|fuel IH]; intros k Hk Hf; [lia|]. cbn [vfat_readdir]. destruct (readdir_place k Hk) as (-> & -> & -> & Hnext). destruct (wf_slot_page d T k W Hk) as (l & Hl & _). rewrite Hl. cbn [Z.eqb negb].
  destruct (slot_is_Some d T k W Hk) as [e He]. assert (Hz : zget l (k mod entries_nr) = Some e) by (unfold slot in He; rewrite Hl in He; done). rewrite Hz. cbn [mbind option_bind].
  destruct (Z.eqb_spec (name0 e) 0) as [E0|E0].
  - right. assert (k = T) as -> by (destruct (decide (k < T)); [|lia]; destruct (wf_used _ _ W k e); (done || lia)). split; [lia|done].
  - assert (k < T) by (destruct (decide (k = T)) as [->|]; [destruct (wf_last _ _ W) as (x & Hx & Hx0); congruence|lia]). rewrite Hnext by done.
    assert (Hlive : live e = negb ((name0 e =? FREED) || (DIR_Attr e =? 0x0F) || (name0 e =? DOT))) by (unfold live; destruct (name0 e =? FREED), (DIR_Attr e =? 0x0F), (name0 e =? DOT); done).
    destruct ((name0 e =? FREED) || (DIR_Attr e =? 0x0F) || (name0 e =? DOT)); cbn in Hlive.
    + destruct (IH (k + 1) ltac:(lia) ltac:(lia)) as [(j & x & Hj & Hs & Hlx & Hno & Hr)|[Hno Hr]]; [left; exists j, x|right]; split_and!; try done; try lia.
      all: intros i y Hi Hy; destruct (decide (i = k)) as [->|]; [congruence|apply (Hno i); (done || lia)].
    + left. exists k, e. split; [lia|]. split_and!; try done. intros i x Hi. lia.
Qed.

(** The names of the entries from [k] on *)
Definition named_from (k : Z) (name : list Z) : Prop := exists j e, k <= j < T /\ slot d j = Some e /\ live e = true /\ shortname e = name.

Lemma list_dir_from fuel n : forall k, 0 <= k <= T -> T < Z.of_nat fuel -> T - k < Z.of_nat n ->
  exists L, list_dir n fuel d (k * 32) = Some L /\ NoDup ((fun x => c_string (d_name x)) <$> L) /\ forall name, name ∈ ((fun x => c_string (d_name x)) <$> L) <-> named_from k name.
Proof.
  induction n as [|n IH]; intros k Hk Hf Hn; [lia|]. cbn [list_dir]. destruct (readdir_next fuel k Hk ltac:(lia)) as [(j & e & Hj & Hs & Hl & Hno & ->)|[Hno ->]]; cbn [mbind option_bind].
  - cbn [Z.eqb VFS_EODIR EEODIR negb]. destruct (IH (j + 1) ltac:(lia) Hf ltac:(lia)) as (L & -> & Hnd & Hin). cbn [mbind option_bind]. exists (dirent_of e :: L). split; [done|]. cbn [fmap list_fmap].
    change (c_string (d_name (dirent_of e))) with (shortname e). split.
    + apply NoDup_cons. split; [|done]. intros (i & x & Hi & Hsx & Hlx & Hnx)%Hin. assert (M !! shortname e = Some (j, e)) by (apply (h_map _ _ _ H); split_and!; (done || lia)).
      assert (M !! shortname e = Some (i, x)) by (apply (h_map _ _ _ H); split_and!; (done || lia)). assert (i = j) by congruence. lia.
    + intros name. rewrite elem_of_cons, Hin. split.
      * intros [->|(i & x & Hi & Hsx)]; [exists j, e|exists i, x]; split_and!; (done || lia || tauto).
      * intros (i & x & Hi & Hsx & Hlx & Hnx). destruct (decide (i = j)) as [->|Hne]; [left; congruence|right]. exists i, x. split_and!; try done; [|lia].
        destruct (decide (i < j)) as [Hlt|]; [|lia]. rewrite (Hno i x) in Hlx; [done|lia|done].
  - rewrite Z.eqb_refl. exists []. split; [done|]. split; [apply NoDup_nil_2|]. intros name. split; [intros Hx; inversion Hx|]. intros (i & x & Hi & Hsx & Hlx & _). rewrite (Hno i x) in Hlx; done.
Qed.
End Listing.

(** C10: Listing a FAT32 directory from its start to its end gives every name of it exactly once and no other, whatever freed, long and dot entries are between them, and it ends. *)
Theorem fat_listing_exact d T M n fuel : holds d T M -> T < Z.of_nat fuel -> T < Z.of_nat n ->
  exists L, list_dir n fuel d 0 = Some L /\ NoDup ((fun x => c_string (d_name x)) <$> L) /\ forall name, name ∈ ((fun x => c_string (d_name x)) <$> L) <-> is_Some (M !! name).
Proof.
  intros H Hf Hn. pose proof (wf_end _ _ (h_wf _ _ _ H)). destruct (list_dir_from d T M H fuel n 0 ltac:(lia) Hf ltac:(lia)) as (L & HL & Hnd & Hin). exists L. split; [done|]. split; [done|]. intros name. rewrite Hin. split.
  - intros (j & e & Hj & Hs). exists (j, e). apply (h_map _ _ _ H). done.
  - intros [[j e] Hj]. apply (h_map _ _ _ H) in Hj as (Hj & Hs). exists j, e. done.
Qed.

Lemma fat_listing_exact_witness :
  exists L, list_dir 4 4 demo_dir 0 = Some L /\ NoDup ((fun x => c_string (d_name x)) <$> L) /\ (demo_name ∈ ((fun x => c_string (d_name x)) <$> L) <-> is_Some (demo_names !! demo_name)).
Proof.
  destruct (fat_listing_exact demo_dir 1 demo_names 4 4 (vo_dir _ _ _ _ _ demo_volume) ltac:(lia) ltac:(lia)) as (L & H1 & H2 & H3). exists L. split; [exact H1|]. split; [exact H2|exact (H3 demo_name)].
Defined.
