(* ===== verification/FatMount.v ===== *)
(** * FatMount: the context and the root of a FAT32 volume, [kernel/fs/fat32/fat32_context.c]

    The parameters of the volume are read from its first sector; those of a valid volume give the geometry on which the table, the directories and the transfers rely. *)

From S2P Require Import Prelude Pmm Fat FatSpec FatChain FatStore FatDir FatFile FatFileSpec.

(** The fields that are used of [struct vfat_bpb_s], packed, at their bytes in the sector *)
Record vfat_bpb_s := Bpb { BPB_BytsPerSec : Z; BPB_SecPerClus : Z; BPB_RsvdSecCnt : Z; BPB_NumFATs : Z; BPB_FATSz32 : Z; BPB_RootClus : Z }.

Definition byte (sector : list Z) (i : Z) : Z := default 0 (zget sector i).
Definition le16 (sector : list Z) (i : Z) : Z := byte sector i + 2 ^ 8 * byte sector (i + 1).
Definition le32 (sector : list Z) (i : Z) : Z := le16 sector i + 2 ^ 16 * le16 sector (i + 2).

Definition read_bpb (sector : list Z) : vfat_bpb_s := Bpb (le16 sector 11) (byte sector 13) (le16 sector 14) (byte sector 16) (le32 sector 36) (le32 sector 44).

(** [None]: the sizes of the sectors of the device and of the volume differ, and the kernel stops *)
Definition vfat_context_init (sector_size : Z) (bpb : vfat_bpb_s) : option vfat_context_s :=
  if negb (sector_size =? BPB_BytsPerSec bpb) then None
  else
    let fat_begin_lba := BPB_RsvdSecCnt bpb in
    Some (VfatContext fat_begin_lba (BPB_FATSz32 bpb) (BPB_BytsPerSec bpb) (BPB_BytsPerSec bpb *! BPB_SecPerClus bpb) (fat_begin_lba +! BPB_NumFATs bpb *! BPB_FATSz32 bpb)
            (BPB_SecPerClus bpb) (BPB_RootClus bpb) fat_begin_lba 2).

Definition vfat_read_root (fuel : nat) (v : vfat) (root : vfs_node_s) : option vfs_node_s :=
  n ← vfat_cluster_count fuel v (rootdir_first_cluster (ctx v)) 0 0;
  let root := set_n_size n (set_n_attr (Z.lor (n_attr root) VFS_DIR) (set_n_links 1 root)) in
  let root := set_n_mapper (set_m_ops vfat_node_mapper_op (n_mapper root)) root in
  Some (set_n_pv (VfatNode VFAT_ATTR_DIRECTORY 0 (rootdir_first_cluster (ctx v)) 0) root).

(** What the format asks for: sectors and clusters are powers of two, and the table is not larger than its entries can name *)
Record valid_bpb (b : vfat_bpb_s) : Prop := {
  vb_sector : BPB_BytsPerSec b ∈ [512; 1024; 2048; 4096];
  vb_cluster : BPB_SecPerClus b ∈ [1; 2; 4; 8; 16; 32; 64; 128];
  vb_reserved : 1 <= BPB_RsvdSecCnt b < 2 ^ 16;
  vb_table : 1 <= BPB_FATSz32 b /\ BPB_FATSz32 b * (BPB_BytsPerSec b / 4) <= 0x0FFFFFF7;
  vb_place : (BPB_RsvdSecCnt b + BPB_FATSz32 b) * BPB_BytsPerSec b <= 2 ^ 32;
}.

(** The context of a valid volume has the sizes with which the table and the transfers work, and the search of free clusters starts at the first. *)
Theorem fat_mount_geometry b : valid_bpb b -> exists c, vfat_context_init (BPB_BytsPerSec b) b = Some c /\ geometry c /\ cursor_ok c /\ cursor c = 2 /\ sized c /\ rootdir_first_cluster c = BPB_RootClus b.
Proof.
  intros [Hs Hc Hr [Ht Hn] Hp]. unfold vfat_context_init. rewrite Z.eqb_refl. cbn [negb]. eexists. split; [done|]. destruct b as [bs sc rs nf fs rc]. cbn in *.
  assert (Hcl : bs *! sc = bs * sc /\ 1 <= sc <= 128 /\ (bs * sc <= 4096 -> 4096 mod (bs * sc) = 0)).
  { clear -Hs Hc. rewrite !elem_of_cons, elem_of_nil in Hs. rewrite !elem_of_cons, elem_of_nil in Hc.
    destruct Hs as [->|[->|[->|[->|[]]]]], Hc as [->|[->|[->|[->|[->|[->|[->|[->|[]]]]]]]]]; (split; [reflexivity|split; [lia|]]); (intros _; reflexivity) || (intros Hle; exfalso; revert Hle; vm_compute; congruence). }
  destruct Hcl as (-> & Hsc & Hdiv).
  assert (Hbs : 512 <= bs <= 4096 /\ bs mod 4 = 0 /\ PMM_PAGE_SIZE mod bs = 0 /\ 128 <= bs / 4).
  { clear -Hs. rewrite !elem_of_cons, elem_of_nil in Hs. destruct Hs as [->|[->|[->|[->|[]]]]]; (split; [lia|split; [reflexivity|split; [reflexivity|vm_compute; discriminate]]]). }
  destruct Hbs as (Hb1 & Hb2 & Hb3 & Hb4). split_and!.
  - split; cbn; unfold fat_entries, sector_words; cbn; try done; try lia; nia.
  - unfold cursor_ok, sector_words. cbn. lia.
  - unfold cursor. cbn. lia.
  - split; cbn; [nia|]. exact Hdiv.
  - done.
Qed.

(** The size of the root is counted in clusters, while that of any other directory is in bytes. *)
Theorem vfat_root_size fuel v st l root : repr v st -> files st !! rootdir_first_cluster (ctx v) = Some l -> fat_entries (ctx v) <= Z.of_nat fuel ->
  exists root', vfat_read_root fuel v root = Some root' /\ n_size root' = zlen l /\ has (flags (n_pv root')) VFAT_ATTR_DIRECTORY = true /\ node_cluster (n_pv root') = rootdir_first_cluster (ctx v).
Proof.
  intros R Hl Hf. destruct (count_implements fuel v st R Hf _ ltac:(eauto)) as (err & r & v' & st' & Hrun & Hstep & _). unfold run_op in Hrun. unfold vfat_read_root.
  destruct (vfat_cluster_count _ _ _ _ _) as [n|]; [|done]. cbn [mbind option_bind] in *. injection Hrun as <- <- <-. eexists. split; [done|]. cbn. split; [inversion Hstep; congruence|done].
Qed.

(** A volume of 512 bytes per sector *)
Definition demo_sector : list Z := replicate 11 0 ++ [0; 2; 8; 32; 0; 2] ++ replicate 19 0 ++ [100; 0; 0; 0] ++ replicate 4 0 ++ [2; 0; 0; 0] ++ replicate 464 0.
Example demo_mount : vfat_context_init 512 (read_bpb demo_sector) = Some (VfatContext 32 100 512 4096 232 8 2 32 2) /\ valid_bpb (read_bpb demo_sector).
Proof. split; [reflexivity|]. split; vm_compute; try (split; congruence). all: set_solver. Qed.
