(* ===== verification/VfsFile.v ===== *)
(** * VfsFile: reading, writing and seeking in a file, [kernel/vfs/vfs.c] and [kernel/vfs/vfs_file.c]

    The pages of the node are tables of bytes; a page that is not there is one that [mapper_get_page] cannot give.  [f_dirty] are the pages marked by [set_page_dirty]
    and [f_written] those given to [writepage].  The operations [read] and [write] of the file are the
    default ones; the answers of the operation [lseek] of the file system and of the copies from user space are arguments.  [None]: an
    access outside of a page.  The locks of the file and of the node make a call one step. *)

From S2P Require Import Prelude Pmm.

Definition EBADF : Z := 9.
Definition EISDIR : Z := 21.
Definition EOVERFLOW : Z := 75.
Definition VFS_FIFO : Z := 0x2.
Definition VFS_DIRTY : Z := 4.
Definition VFS_O_PIPE : Z := 0x00010000.
Definition VFS_O_DIRECTORY : Z := 0x00040000.
Definition VFS_O_RDONLY : Z := 0x00100000.
Definition VFS_O_WRONLY : Z := 0x00200000.
Definition VFS_O_DEV : Z := 0x04000000.
Definition VFS_O_SYNC : Z := 0x08000000.
Definition VFS_SEEK_SET : Z := 0.
Definition VFS_SEEK_CUR : Z := 1.
Definition VFS_SEEK_END : Z := 2.
Definition UINT32_MAX : Z := 0xFFFFFFFF.

(** [n_saved]: the size that the operation [write] of the node was last called with *)
Record vfs_file_s := VfsFile {
  f_offset : Z; f_flags : Z; n_attr : Z; n_size : Z; n_state : Z; n_saved : option Z; f_pages : gmap Z (list Z); f_dirty : gset Z; f_written : gset Z;
}.

Definition set_f_offset o f := VfsFile o (f_flags f) (n_attr f) (n_size f) (n_state f) (n_saved f) (f_pages f) (f_dirty f) (f_written f).
Definition set_n_size s f := VfsFile (f_offset f) (f_flags f) (n_attr f) s (n_state f) (n_saved f) (f_pages f) (f_dirty f) (f_written f).
Definition set_n_state s f := VfsFile (f_offset f) (f_flags f) (n_attr f) (n_size f) s (n_saved f) (f_pages f) (f_dirty f) (f_written f).
Definition save_node f := VfsFile (f_offset f) (f_flags f) (n_attr f) (n_size f) (n_state f) (Some (n_size f)) (f_pages f) (f_dirty f) (f_written f).
Definition set_f_pages p f := VfsFile (f_offset f) (f_flags f) (n_attr f) (n_size f) (n_state f) (n_saved f) p (f_dirty f) (f_written f).
Definition set_page_dirty i f := VfsFile (f_offset f) (f_flags f) (n_attr f) (n_size f) (n_state f) (n_saved f) (f_pages f) ({[i]} ∪ f_dirty f) (f_written f).
Definition writepage i f := VfsFile (f_offset f) (f_flags f) (n_attr f) (n_size f) (n_state f) (n_saved f) (f_pages f) (f_dirty f) ({[i]} ∪ f_written f).

Definition VFS_IS (state flag : Z) : bool := negb (Z.land state flag =? 0).

(** [memcpy] from and to a page *)
Definition copy_from (page : list Z) (i n : Z) : option (list Z) :=
  if decide (0 <= i /\ i + n <= zlen page) then Some (take (Z.to_nat n) (drop (Z.to_nat i) page)) else None.
Definition copy_to (page : list Z) (i : Z) (data : list Z) : option (list Z) :=
  if decide (0 <= i /\ i + zlen data <= zlen page) then Some (take (Z.to_nat i) page ++ data ++ drop (Z.to_nat i + length data) page) else None.

(** ** Reading *)

(** The loop: an error, or the bytes and what is left of the size *)
Fixpoint read_loop (fuel : nat) (f : vfs_file_s) (size current_offset : Z) (out : list Z) : option (Z + list Z * Z) :=
  if (0 <? size) && (current_offset <? n_size f) then
    match fuel with
    | O => None
    | S fuel =>
        match f_pages f !! Z.shiftr current_offset PMM_PAGE_SHIFT with
        | None => Some (inl (- EIO))
        | Some page =>
            let bytes_left := if PMM_PAGE_SIZE <? n_size f - current_offset then PMM_PAGE_SIZE else n_size f - current_offset in
            if bytes_left <=? size then
              b ← copy_from page (current_offset mod PMM_PAGE_SIZE) bytes_left;
              read_loop fuel f (size -! bytes_left) (current_offset +! bytes_left) (out ++ b)
            else
              b ← copy_from page (current_offset mod PMM_PAGE_SIZE) size;
              read_loop fuel f 0 (current_offset +! 0) (out ++ b)
        end
    end
  else Some (inr (out, size)).

(** The number of bytes, or an error, and the bytes *)
Definition vfs_default_read (f : vfs_file_s) (size : Z) : option (Z * list Z) :=
  if VFS_IS (n_attr f) VFS_FIFO then Some (- EINVAL, [])
  else if size =? 0 then Some (0, [])
  else
    r ← read_loop (Z.to_nat size) f size (f_offset f) [];
    match r with inl err => Some (err, []) | inr (out, rest) => Some (s32 (size -! rest), out) end.

Definition vfs_read (f : vfs_file_s) (count : Z) : option (Z * list Z * vfs_file_s) :=
  if VFS_IS (f_flags f) VFS_O_DIRECTORY then Some (- EISDIR, [], f)
  else if negb (VFS_IS (f_flags f) VFS_O_RDONLY) then Some (- EBADF, [], f)
  else
    let available_size := u32 (n_size f - f_offset f) in
    let size_to_read := if VFS_IS (f_flags f) (Z.lor VFS_O_PIPE VFS_O_DEV) then count else if available_size <=? count then available_size else count in
    '(size, out) ← vfs_default_read f size_to_read;
    if size <? 0 then Some (size, out, f) else Some (size, out, set_f_offset (f_offset f +! size) f).

(** ** Writing *)

(** The loop: the error, if any, and the file.  [copy_err]: the answer of [cpu_uspace_copy] for the bytes that go to a place of the file *)
Fixpoint write_loop (fuel : nat) (copy_err : Z -> Z) (f : vfs_file_s) (buffer : list Z) (current_offset : Z) : option (option Z * vfs_file_s) :=
  if 0 <? zlen buffer then
    match fuel with
    | O => None
    | S fuel =>
        let index := Z.shiftr current_offset PMM_PAGE_SHIFT in
        match f_pages f !! index with
        | None => Some (Some (- EIO), f)
        | Some page =>
            let err := copy_err current_offset in
            if negb (err =? 0) then Some (Some (- err), set_f_pages (delete index (f_pages f)) f)
            else
              let n := if PMM_PAGE_SIZE <=? zlen buffer then PMM_PAGE_SIZE else zlen buffer in
              page ← copy_to page (current_offset mod PMM_PAGE_SIZE) (take (Z.to_nat n) buffer);
              let f := set_f_pages (<[index := page]> (f_pages f)) f in
              let f := if VFS_IS (f_flags f) VFS_O_SYNC then writepage index f else set_page_dirty index f in
              write_loop fuel copy_err f (drop (Z.to_nat n) buffer) (if PMM_PAGE_SIZE <=? zlen buffer then current_offset +! PMM_PAGE_SIZE else current_offset)
        end
    end
  else Some (None, f).

(** The number of bytes or an error *)
Definition vfs_default_write (copy_err : Z -> Z) (f : vfs_file_s) (buffer : list Z) : option (Z * vfs_file_s) :=
  if VFS_IS (n_attr f) VFS_FIFO then Some (- EINVAL, f)
  else if zlen buffer =? 0 then Some (0, f)
  else
    '(err, f) ← write_loop (length buffer) copy_err f buffer (f_offset f);
    Some (default (s32 (zlen buffer)) err, f).

Definition vfs_write (copy_err : Z -> Z) (f : vfs_file_s) (buffer : list Z) : option (Z * vfs_file_s) :=
  if VFS_IS (f_flags f) VFS_O_DIRECTORY then Some (EINVAL, f)
  else if negb (VFS_IS (f_flags f) VFS_O_WRONLY) then Some (EBADF, f)
  else
    let hasToLock := negb (VFS_IS (f_flags f) VFS_O_DEV) && (n_size f <? zlen buffer +! f_offset f) in
    '(size, f) ← vfs_default_write copy_err f buffer;
    if size <? 0 then Some (size, f)
    else
      let f := set_f_offset (f_offset f +! size) f in
      if hasToLock && (n_size f <? f_offset f) then
        let f := set_n_size (f_offset f) f in
        Some (size, if VFS_IS (f_flags f) VFS_O_SYNC then save_node f else set_n_state (Z.lor (n_state f) VFS_DIRTY) f)
      else Some (size, f).

(** ** Seeking *)

(** The move to a new offset.  [op_err]: the answer of the file system *)
Definition lseek_to (op_err : Z) (f : vfs_file_s) (new_offset : Z) : Z * vfs_file_s :=
  if UINT32_MAX <=? new_offset then (EOVERFLOW, f)
  else
    let hasToLock := u32 (n_size f) <? new_offset in
    if negb (op_err =? 0) then (- op_err, f)
    else
      let g := set_f_offset new_offset f in
      (0, if hasToLock then
            let g := if n_size g <? new_offset then set_n_size new_offset g else g in set_n_state (Z.lor (n_state g) VFS_DIRTY) g
          else g).

Definition vfs_lseek (op_err : Z) (f : vfs_file_s) (offset whence : Z) : Z * vfs_file_s :=
  if VFS_IS (f_flags f) VFS_O_DIRECTORY then (EBADF, f)
  else
    let node_size := u32 (n_size f) in
    if whence =? VFS_SEEK_SET then (if offset =? f_offset f then (0, f) else lseek_to op_err f offset)
    else if whence =? VFS_SEEK_CUR then lseek_to op_err f (f_offset f + offset)
    else if whence =? VFS_SEEK_END then lseek_to op_err f (node_size +! offset)
    else (EINVAL, f).
