(* ===== verification/VfsFileSpec.v ===== *)
(** * VfsFileSpec: a file is a sequence of bytes with a position

    Reads, writes and seeks of [VfsFile] against an abstract file, and the accesses for which the code leaves a page. *)

From S2P Require Import Prelude Pmm VfsFile.

(** The byte of a file at a place *)
Definition byte_at (pages : gmap Z (list Z)) (i : Z) : option Z := p ← pages !! (i / PMM_PAGE_SIZE); zget p (i mod PMM_PAGE_SIZE).

(** [n] bytes from [i] on start at a page or stay in one *)
Definition in_page (i n : Z) : Prop := i mod PMM_PAGE_SIZE = 0 \/ i mod PMM_PAGE_SIZE + n <= PMM_PAGE_SIZE.

(** The pages that are there are whole. *)
Definition whole (pages : gmap Z (list Z)) : Prop := forall k p, pages !! k = Some p -> zlen p = PMM_PAGE_SIZE.

(** The page of a place cannot be given. *)
Definition gone (pages : gmap Z (list Z)) (i : Z) : Prop := pages !! (i / PMM_PAGE_SIZE) = None.

Section Places.
Implicit Types (i j : Z).

Lemma page_of i : Z.shiftr i PMM_PAGE_SHIFT = i / PMM_PAGE_SIZE.
Proof. apply Z.shiftr_div_pow2. done. Qed.

Lemma place_split i : i = i / 4096 * 4096 + i mod 4096 /\ 0 <= i mod 4096 < 4096.
Proof. pose proof (Z.div_mod i 4096). pose proof (Z.mod_pos_bound i 4096). lia. Qed.

Lemma place_in i j : 0 <= j -> i mod 4096 + j < 4096 -> (i + j) / 4096 = i / 4096 /\ (i + j) mod 4096 = i mod 4096 + j.
Proof.
  intros Hj Hlt. destruct (place_split i) as [E Hr]. rewrite E at 1 3. rewrite <- Z.add_assoc. split; [rewrite Z.div_add_l, (Z.div_small (_ + _)); lia|].
  rewrite Z.add_comm, Z.mod_add, Z.mod_small; lia.
Qed.

Lemma next_page_start i n : i mod 4096 + n = 4096 -> (i + n) mod 4096 = 0.
Proof. intros E. destruct (place_split i) as [Ei Hr]. replace (i + n) with ((i / 4096 + 1) * 4096) by lia. apply Z.mod_mul. lia. Qed.

Lemma copy_from_ok page i n : 0 <= i -> 0 <= n -> i + n <= zlen page ->
  exists b, copy_from page i n = Some b /\ zlen b = n /\ forall j, 0 <= j < n -> zget b j = zget page (i + j).
Proof.
  intros Hi Hn Hle. unfold copy_from. rewrite decide_True by lia. eexists. split; [done|]. unfold zlen in *. split.
  - rewrite length_take, length_drop. lia.
  - intros j Hj. unfold zget. rewrite lookup_take_lt, lookup_drop by lia. f_equal. lia.
Qed.

Lemma copy_to_ok page i data : 0 <= i -> i + zlen data <= zlen page ->
  exists q, copy_to page i data = Some q /\ zlen q = zlen page /\ forall j, 0 <= j -> zget q j = if decide (i <= j < i + zlen data) then zget data (j - i) else zget page j.
Proof.
  intros Hi Hle. unfold copy_to. rewrite decide_True by lia. eexists. split; [done|]. unfold zlen in *. split.
  - rewrite !length_app, length_take, length_drop. lia.
  - intros j Hj. unfold zget. destruct (decide (i <= j < i + Z.of_nat (length data))) as [Hin|Hout].
    + rewrite lookup_app_r by (rewrite length_take; lia). rewrite length_take, lookup_app_l by lia. f_equal. lia.
    + destruct (decide (j < i)); [rewrite lookup_app_l by (rewrite length_take; lia); apply lookup_take_lt; lia|].
      rewrite lookup_app_r by (rewrite length_take; lia). rewrite length_take, lookup_app_r by lia. rewrite lookup_drop. f_equal. lia.
Qed.
End Places.

(** ** The loops *)

Lemma read_loop_ok fuel f : whole (f_pages f) -> n_size f < 2 ^ 31 -> forall size cur out,
  0 <= cur <= n_size f -> 0 <= size < 2 ^ 32 -> size <= Z.of_nat fuel -> in_page cur (Z.min size (n_size f - cur)) ->
  (exists b, read_loop fuel f size cur out = Some (inr (out ++ b, size - Z.min size (n_size f - cur))) /\ zlen b = Z.min size (n_size f - cur) /\
     forall j, 0 <= j < Z.min size (n_size f - cur) -> ~ gone (f_pages f) (cur + j) /\ zget b j = byte_at (f_pages f) (cur + j)) \/
  (read_loop fuel f size cur out = Some (inl (- EIO)) /\ exists j, 0 <= j < Z.min size (n_size f - cur) /\ gone (f_pages f) (cur + j)).
Proof.
  intros Hfull Hlim. unfold in_page, byte_at, whole, gone in *. change PMM_PAGE_SIZE with 4096 in *. induction fuel as [|fuel IH]; intros size cur out Hc Hs Hf Hp.
  all: cbn [read_loop]; destruct (Z.ltb_spec 0 size) as [Hs0|Hs0], (Z.ltb_spec cur (n_size f)) as [Hcn|Hcn]; cbn [andb]; try lia.
  all: try (left; exists []; rewrite app_nil_r; split; [do 3 f_equal; lia|split; [unfold zlen; cbn; lia|intros j; lia]]).
  rewrite page_of. change PMM_PAGE_SIZE with 4096. destruct (f_pages f !! (cur / 4096)) as [page|] eqn:Hpage.
  2:{ right. split; [done|]. exists 0. rewrite Z.add_0_r. split; [lia|done]. }
  pose proof (Hfull _ _ Hpage) as Hlen. destruct (place_split cur) as [Ec Hr].
  set (n := if 4096 <? n_size f - cur then 4096 else n_size f - cur). assert (Hn : n = Z.min 4096 (n_size f - cur)) by (unfold n; destruct (Z.ltb_spec 4096 (n_size f - cur)); lia).
  assert (Hbytes : forall m, 0 <= m -> cur mod 4096 + m <= 4096 -> exists b, copy_from page (cur mod 4096) m = Some b /\ zlen b = m /\
    forall j, 0 <= j < m -> f_pages f !! ((cur + j) / 4096) <> None /\ zget b j = p ← f_pages f !! ((cur + j) / 4096); zget p ((cur + j) mod 4096)).
  { intros m Hm Hle. destruct (copy_from_ok page (cur mod 4096) m) as (b & Hb & Hbl & Hbj); [lia|lia|lia|]. exists b. split_and!; try done.
    intros j Hj. destruct (place_in cur j) as [-> ->]; [lia|lia|]. rewrite Hpage. split; [done|]. apply Hbj. done. }
  destruct (Z.leb_spec n size) as [Hle|Hlt].
  - destruct (Hbytes n) as (b & -> & Hbl & Hbj); [lia|lia|]. cbn [mbind option_bind]. unfold u32. rewrite !Z.mod_small by lia.
    assert (Hnext : (cur + n) mod 4096 = 0 \/ cur + n = n_size f).
    { destruct (Z.ltb_spec 4096 (n_size f - cur)); [left; apply next_page_start; lia|right; lia]. }
    destruct (IH (size - n) (cur + n) (out ++ b)) as [(b' & -> & Hbl' & Hbj')|(-> & j & Hj & Hg)]; [lia|lia|lia|destruct Hnext as [Hz|Hz]; [left; done|rewrite Hz; right; pose proof (Z.mod_pos_bound (n_size f) 4096); lia]| |].
    2:{ right. split; [done|]. exists (n + j). rewrite Z.add_assoc. split; [lia|done]. }
    left. exists (b ++ b'). rewrite app_assoc. split; [do 3 f_equal; lia|]. split; [rewrite zlen_app; lia|]. intros j Hj. unfold zget. destruct (decide (j < n)).
    + rewrite lookup_app_l by (unfold zlen in Hbl; lia). apply Hbj. lia.
    + rewrite lookup_app_r by (unfold zlen in Hbl; lia). replace (Z.to_nat j - length b)%nat with (Z.to_nat (j - n)) by (unfold zlen in Hbl; lia).
      replace (cur + j) with (cur + n + (j - n)) by lia. apply Hbj'. lia.
  - destruct (Hbytes size) as (b & -> & Hbl & Hbj); [lia|lia|]. cbn [mbind option_bind]. left. exists b. replace (Z.min size (n_size f - cur)) with size by lia.
    split; [destruct fuel; cbn; do 3 f_equal; lia|]. split; done.
Qed.

(** An access that starts inside of a page and goes past its end leaves it at once, unless the page cannot be given. *)
Lemma read_loop_leaves fuel f size cur out : whole (f_pages f) -> 0 <= cur <= n_size f -> size <= Z.of_nat fuel -> ~ in_page cur (Z.min size (n_size f - cur)) ->
  read_loop fuel f size cur out = None \/
  (read_loop fuel f size cur out = Some (inl (- EIO)) /\ 0 < Z.min size (n_size f - cur) /\ gone (f_pages f) cur).
Proof.
  intros Hfull Hc Hf Hn. unfold in_page, whole, gone in *. change PMM_PAGE_SIZE with 4096 in *. destruct (place_split cur) as [Ec Hr].
  assert (Hpos : 0 < Z.min size (n_size f - cur)) by lia. destruct fuel as [|fuel]; [lia|]. cbn [read_loop].
  rewrite (proj2 (Z.ltb_lt 0 size)), (proj2 (Z.ltb_lt cur _)) by lia. cbn [andb]. rewrite page_of. change PMM_PAGE_SIZE with 4096.
  destruct (f_pages f !! (cur / 4096)) as [page|] eqn:Hpage; [left|right; done]. pose proof (Hfull _ _ Hpage) as Hlen.
  set (n := if 4096 <? _ then _ else _). assert (Hn2 : n = Z.min 4096 (n_size f - cur)) by (unfold n; destruct (Z.ltb_spec 4096 (n_size f - cur)); lia).
  unfold copy_from. destruct (Z.leb_spec n size); (rewrite decide_False; [done|lia]).
Qed.

(** [f'] is [f] with [data] from [cur] on in its pages; the pages that change are marked or written *)
Record overwritten (f f' : vfs_file_s) (cur : Z) (data : list Z) : Prop := {
  ow_full : whole (f_pages f');
  ow_there : forall k, is_Some (f_pages f !! k) -> is_Some (f_pages f' !! k);
  ow_bytes : forall i, byte_at (f_pages f') i = if decide (cur <= i < cur + zlen data) then zget data (i - cur) else byte_at (f_pages f) i;
  ow_same : f_offset f' = f_offset f /\ f_flags f' = f_flags f /\ n_attr f' = n_attr f /\ n_size f' = n_size f /\ n_state f' = n_state f /\ n_saved f' = n_saved f;
  ow_marks : forall k, k ∈ f_dirty f -> k ∈ f_dirty f';
  ow_writes : forall k, k ∈ f_written f -> k ∈ f_written f';
  ow_saved : forall k, f_pages f' !! k <> f_pages f !! k -> k ∈ (if VFS_IS (f_flags f) VFS_O_SYNC then f_written f' else f_dirty f');
}.

Definition mark_page (k : Z) (f : vfs_file_s) : vfs_file_s := if VFS_IS (f_flags f) VFS_O_SYNC then writepage k f else set_page_dirty k f.

(** The bytes that go to one page *)
Lemma overwrite_page f cur data page q : whole (f_pages f) -> 0 <= cur -> cur mod 4096 + zlen data <= 4096 ->
  f_pages f !! (cur / 4096) = Some page -> copy_to page (cur mod 4096) data = Some q -> overwritten f (mark_page (cur / 4096) (set_f_pages (<[cur / 4096 := q]> (f_pages f)) f)) cur data.
Proof.
  intros Hfull Hc Hle Hpage Hq. destruct (place_split cur) as [Ec Hr]. pose proof (Hfull _ _ Hpage) as Hlen. change PMM_PAGE_SIZE with 4096 in Hlen.
  destruct (copy_to_ok page (cur mod 4096) data) as (q' & Hq' & Hql & Hqj); [lia|lia|]. rewrite Hq in Hq'. injection Hq' as <-.
  assert (Ep : f_pages (mark_page (cur / 4096) (set_f_pages (<[cur / 4096 := q]> (f_pages f)) f)) = <[cur / 4096 := q]> (f_pages f)) by (unfold mark_page; destruct (VFS_IS _ _); done).
  split; rewrite ?Ep.
  - intros k p. destruct (decide (k = cur / 4096)) as [->|]; [rewrite lookup_insert_eq; intros [= <-]; change PMM_PAGE_SIZE with 4096; lia|rewrite lookup_insert_ne by done; apply Hfull].
  - intros k Hk. destruct (decide (k = cur / 4096)) as [->|]; [rewrite lookup_insert_eq; eauto|rewrite lookup_insert_ne; done].
  - intros i. unfold byte_at. change PMM_PAGE_SIZE with 4096. destruct (place_split i) as [Ei Hri]. destruct (decide (i / 4096 = cur / 4096)) as [E|E].
    + rewrite E, lookup_insert_eq, Hpage. cbn. rewrite Hqj by lia. destruct (decide (cur <= i < cur + zlen data)); [rewrite decide_True by lia; f_equal; lia|rewrite decide_False by lia; done].
    + rewrite lookup_insert_ne by done. rewrite decide_False; [done|]. intros Hin. apply E. destruct (place_in cur (i - cur)) as [E1 _]; [lia|lia|]. replace (cur + (i - cur)) with i in E1 by lia. done.
  - unfold mark_page. destruct (VFS_IS _ _); done.
  - intros k Hk. unfold mark_page. destruct (VFS_IS _ _); [done|]. apply elem_of_union_r. done.
  - intros k Hk. unfold mark_page. destruct (VFS_IS _ _); [|done]. apply elem_of_union_r. done.
  - intros k Hk. destruct (decide (k = cur / 4096)) as [->|]; [|rewrite lookup_insert_ne in Hk; done]. unfold mark_page. cbn [f_flags set_f_pages]. destruct (VFS_IS (f_flags f) VFS_O_SYNC); apply elem_of_union_l, elem_of_singleton; done.
Qed.

Lemma overwritten_nil f cur : whole (f_pages f) -> overwritten f f cur [].
Proof.
  intros Hfull. split; try done.
  intros i. rewrite decide_False; [done|]. change (zlen []) with 0. lia.
Qed.

Lemma overwritten_app f g h cur a b : overwritten f g cur a -> overwritten g h (cur + zlen a) b -> overwritten f h cur (a ++ b).
Proof.
  intros [F1 T1 B1 S1 D1 W1 M1] [F2 T2 B2 S2 D2 W2 M2]. assert (Efl : f_flags g = f_flags f) by tauto. split; try done.
  - auto.
  - intros i. rewrite B2, B1, zlen_app. pose proof (zlen_nonneg a). pose proof (zlen_nonneg b). unfold zget. destruct (decide (cur + zlen a <= i < cur + zlen a + zlen b)) as [Hin|Hout].
    + rewrite decide_True by lia. rewrite lookup_app_r by (unfold zlen in *; lia). f_equal. unfold zlen in *. lia.
    + destruct (decide (cur <= i < cur + zlen a)) as [Hin|Hn]; [rewrite decide_True by lia; rewrite lookup_app_l by (unfold zlen in *; lia); done|rewrite decide_False by lia; done].
  - intuition congruence.
  - auto.
  - auto.
  - intros k Hk. rewrite Efl in M2. destruct (decide (f_pages h !! k = f_pages g !! k)) as [E|E]; [|apply M2; done]. rewrite E in Hk. specialize (M1 k Hk). destruct (VFS_IS _ _); auto.
Qed.

(** How a write of [buffer] from [cur] on may end, after [g] has its first [n] bytes: a place where the page is gone or the copy fails, which takes the page away *)
Definition write_fails (copy_err : Z -> Z) (f g : vfs_file_s) (cur n err : Z) (f' : vfs_file_s) : Prop :=
  n mod PMM_PAGE_SIZE = 0 /\
  ((gone (f_pages f) (cur + n) /\ err = - EIO /\ f' = g) \/
   (copy_err (cur + n) <> 0 /\ err = - copy_err (cur + n) /\ f' = set_f_pages (delete ((cur + n) / PMM_PAGE_SIZE) (f_pages g)) g)).

Lemma write_loop_ok copy_err fuel : forall f buffer cur, whole (f_pages f) ->
  0 <= cur -> cur + zlen buffer < 2 ^ 31 -> zlen buffer <= Z.of_nat fuel -> in_page cur (zlen buffer) ->
  (exists f', write_loop fuel copy_err f buffer cur = Some (None, f') /\ overwritten f f' cur buffer /\
     forall j, 0 <= j < zlen buffer -> ~ gone (f_pages f) (cur + j) /\ (j mod PMM_PAGE_SIZE = 0 -> copy_err (cur + j) = 0)) \/
  (exists n g err f', write_loop fuel copy_err f buffer cur = Some (Some err, f') /\ 0 <= n < zlen buffer /\ overwritten f g cur (take (Z.to_nat n) buffer) /\
     write_fails copy_err f g cur n err f').
Proof.
  induction fuel as [|fuel IH]; intros f buffer cur Hfull Hc Hl Hf Hp; cbn [write_loop]; pose proof (zlen_nonneg buffer).
  - rewrite (proj2 (Z.ltb_ge 0 _)) by lia. assert (buffer = []) as -> by (destruct buffer; [done|]; rewrite zlen_cons in *; pose proof (zlen_nonneg buffer); lia).
    left. exists f. split; [done|]. split; [apply overwritten_nil; done|intros j; change (zlen []) with 0; lia].
  - destruct (Z.ltb_spec 0 (zlen buffer)) as [Hb|Hb].
    2:{ assert (buffer = []) as -> by (destruct buffer; [done|]; rewrite zlen_cons in *; pose proof (zlen_nonneg buffer); lia).
        left. exists f. split; [done|]. split; [apply overwritten_nil; done|intros j; change (zlen []) with 0; lia]. }
    rewrite page_of. unfold in_page, write_fails, gone in *. change PMM_PAGE_SIZE with 4096 in *. destruct (f_pages f !! (cur / 4096)) as [page|] eqn:Hpage.
    2:{ right. exists 0, f, (- EIO), f. rewrite Z.add_0_r. split; [done|]. split; [lia|]. split; [apply overwritten_nil; done|]. split; [done|]. left. done. }
    destruct (Z.eqb_spec (copy_err cur) 0) as [Herr|Herr]; cbn [negb].
    2:{ right. eexists 0, f, _, _. rewrite Z.add_0_r. split; [done|]. split; [lia|]. split; [apply overwritten_nil; done|]. split; [done|]. right. done. }
    destruct (place_split cur) as [Ec Hr]. pose proof (Hfull _ _ Hpage) as Hlen. change PMM_PAGE_SIZE with 4096 in Hlen.
    set (n := if 4096 <=? zlen buffer then 4096 else zlen buffer). assert (Hn : n = Z.min 4096 (zlen buffer)) by (unfold n; destruct (Z.leb_spec 4096 (zlen buffer)); lia).
    assert (Ht : zlen (take (Z.to_nat n) buffer) = n) by (unfold zlen in *; rewrite length_take; lia).
    assert (Hd : zlen (drop (Z.to_nat n) buffer) = zlen buffer - n) by (unfold zlen in *; rewrite length_drop; lia).
    destruct (copy_to_ok page (cur mod 4096) (take (Z.to_nat n) buffer)) as (q & Hq & _); [lia|lia|]. rewrite Hq. cbn [mbind option_bind].
    fold (mark_page (cur / 4096) (set_f_pages (<[cur / 4096 := q]> (f_pages f)) f)).
    pose proof (overwrite_page f cur (take (Z.to_nat n) buffer) page q Hfull Hc ltac:(lia) Hpage Hq) as Ho. set (g := mark_page _ _) in *.
    assert (Hback : forall k, f_pages g !! k = None -> f_pages f !! k = None).
    { intros k Hk. destruct (f_pages f !! k) eqn:E; [|done]. destruct (ow_there _ _ _ _ Ho k ltac:(rewrite E; eauto)) as [x Hx]. congruence. }
    assert (Hfirst : forall j, 0 <= j < n -> f_pages f !! ((cur + j) / 4096) <> None /\ (j mod 4096 = 0 -> copy_err (cur + j) = 0)).
    { intros j Hj. destruct (place_in cur j) as [-> _]; [lia|lia|]. rewrite Hpage. split; [done|]. rewrite Z.mod_small by lia. intros ->. rewrite Z.add_0_r. done. }
    destruct (Z.leb_spec 4096 (zlen buffer)) as [Hge|Hlt].
    + unfold u32. rewrite (Z.mod_small (cur + 4096)) by lia. assert (En : n = 4096) by lia. rewrite En in *.
      destruct (IH g (drop (Z.to_nat 4096) buffer) (cur + 4096)) as [(f' & -> & Ho' & Hok)|(m & h & err & f' & -> & Hm & Ho' & Hw)];
        [apply Ho|lia|lia|lia|left; change PMM_PAGE_SIZE with 4096; apply next_page_start; lia| |].
      * left. exists f'. split; [done|]. split; [rewrite <- (take_drop (Z.to_nat 4096) buffer); apply (overwritten_app f g); [done|]; rewrite Ht; done|].
        intros j Hj. destruct (decide (j < 4096)) as [Hj4|Hj4]; [apply Hfirst; lia|]. destruct (Hok (j - 4096)) as [H1 H2]; [lia|]. replace (cur + 4096 + (j - 4096)) with (cur + j) in * by lia.
        split; [intros H0; apply H1; destruct (f_pages g !! _) eqn:E; [|done]; exfalso|].
        { destruct Hj as [Hj _]. clear -H0 E Hpage. unfold g, mark_page in E. destruct (VFS_IS _ _) in E; cbn in E; apply lookup_insert_Some in E as [[E _]|[_ E]]; congruence. }
        intros Hz. apply H2. rewrite <- Hz. replace j with (j - 4096 + 1 * 4096) at 2 by lia. rewrite Z.mod_add by lia. done.
      * right. exists (4096 + m), h, err, f'. split; [done|]. split; [lia|]. split.
        { replace (Z.to_nat (4096 + m)) with (Z.to_nat 4096 + Z.to_nat m)%nat by lia. rewrite <- take_take_drop. apply (overwritten_app f g); [done|]. rewrite Ht. done. }
        unfold write_fails, gone in Hw. change PMM_PAGE_SIZE with 4096 in Hw. rewrite Z.add_assoc. destruct Hw as [Hz Hw]. split; [replace (4096 + m) with (m + 1 * 4096) by lia; rewrite Z.mod_add by lia; done|].
        destruct Hw as [(H1 & H2 & H3)|H1]; [left; auto|right; done].
    + assert (En : n = zlen buffer) by lia. rewrite En in *. left. exists g. unfold zlen at 1. rewrite Nat2Z.id, drop_all. split; [destruct fuel; done|]. split; [|done].
      unfold zlen in Ho. rewrite Nat2Z.id, firstn_all in Ho. done.
Qed.

Lemma write_loop_leaves copy_err fuel f buffer cur : whole (f_pages f) -> 0 <= cur -> zlen buffer <= Z.of_nat fuel -> ~ in_page cur (zlen buffer) ->
  write_loop fuel copy_err f buffer cur = None \/
  (0 < zlen buffer /\ exists err f', write_loop fuel copy_err f buffer cur = Some (Some err, f') /\ write_fails copy_err f f cur 0 err f').
Proof.
  intros Hfull Hc Hf Hn. unfold in_page, write_fails, gone, whole in *. change PMM_PAGE_SIZE with 4096 in *. destruct (place_split cur) as [Ec Hr].
  assert (Hpos : 0 < zlen buffer) by (pose proof (zlen_nonneg buffer); lia). destruct fuel as [|fuel]; [lia|]. cbn [write_loop]. rewrite (proj2 (Z.ltb_lt 0 _)) by lia. rewrite page_of. change PMM_PAGE_SIZE with 4096.
  rewrite Z.add_0_r. destruct (f_pages f !! (cur / 4096)) as [page|] eqn:Hpage; [|right; split; [done|]; eexists _, _; split; [done|]; split; [done|]; left; done].
  destruct (Z.eqb_spec (copy_err cur) 0) as [Herr|Herr]; cbn [negb]; [left|right; split; [done|]; eexists _, _; split; [done|]; split; [done|]; right; done].
  pose proof (Hfull _ _ Hpage) as Hlen. set (n := if 4096 <=? _ then _ else _). assert (Hn2 : n = Z.min 4096 (zlen buffer)) by (unfold n; destruct (Z.leb_spec 4096 (zlen buffer)); lia).
  unfold copy_to. rewrite decide_False; [done|]. unfold zlen in *. rewrite length_take. lia.
Qed.

(** ** The contract *)

Record file := File { size : Z; pos : Z; content : Z -> Z }.

(** [copy_err] and [op_err]: the answers of the copies from user space and of the file system *)
Inductive file_op := Read (count : Z) | Write (data : list Z) (copy_err : Z -> Z) | Seek (offset whence op_err : Z).

(** The place that a seek asks for: an end or the position is added to an offset of 32 bits *)
Definition target (b : file) (offset whence : Z) : option Z :=
  if whence =? VFS_SEEK_SET then Some offset else if whence =? VFS_SEEK_CUR then Some (pos b + offset) else if whence =? VFS_SEEK_END then Some (u32 (size b + offset)) else None.

(** What the calls may answer, where [lost] says of which places the page cannot be given.  A write that fails has written its first [n] bytes; a copy that fails takes the
    page away, with what it held. *)
Inductive file_step (lost : Z -> Prop) (b : file) : file_op -> Z * list Z -> file -> Prop :=
| step_read count out : zlen out = Z.min count (size b - pos b) -> (forall j, 0 <= j < zlen out -> ~ lost (pos b + j) /\ zget out j = Some (content b (pos b + j))) ->
    file_step lost b (Read count) (zlen out, out) (File (size b) (pos b + zlen out) (content b))
| step_read_error count j : 0 <= j < Z.min count (size b - pos b) -> lost (pos b + j) -> file_step lost b (Read count) (- EIO, []) b
| step_write data copy_err c :
    (forall j, 0 <= j < zlen data -> ~ lost (pos b + j) /\ (j mod PMM_PAGE_SIZE = 0 -> copy_err (pos b + j) = 0) /\ zget data j = Some (c (pos b + j))) ->
    (forall i, 0 <= i < size b -> ~ (pos b <= i < pos b + zlen data) -> c i = content b i) ->
    file_step lost b (Write data copy_err) (zlen data, []) (File (Z.max (size b) (pos b + zlen data)) (pos b + zlen data) c)
| step_write_error data copy_err n c : 0 <= n < zlen data -> n mod PMM_PAGE_SIZE = 0 -> lost (pos b + n) ->
    (forall j, 0 <= j < n -> zget data j = Some (c (pos b + j))) -> (forall i, 0 <= i < size b -> ~ (pos b <= i < pos b + n) -> c i = content b i) ->
    file_step lost b (Write data copy_err) (- EIO, []) (File (size b) (pos b) c)
| step_copy_error data copy_err n c : 0 <= n < zlen data -> n mod PMM_PAGE_SIZE = 0 -> copy_err (pos b + n) <> 0 ->
    (forall j, 0 <= j < n -> (pos b + j) / PMM_PAGE_SIZE <> (pos b + n) / PMM_PAGE_SIZE -> zget data j = Some (c (pos b + j))) ->
    (forall i, 0 <= i < size b -> ~ (pos b <= i < pos b + n) -> i / PMM_PAGE_SIZE <> (pos b + n) / PMM_PAGE_SIZE -> c i = content b i) ->
    file_step lost b (Write data copy_err) (- copy_err (pos b + n), []) (File (size b) (pos b) c)
| step_seek offset whence op_err t c : target b offset whence = Some t -> t < UINT32_MAX -> (forall i, 0 <= i < size b -> c i = content b i) ->
    file_step lost b (Seek offset whence op_err) (0, []) (File (Z.max (size b) t) t c)
| step_too_far offset whence op_err t : target b offset whence = Some t -> UINT32_MAX <= t -> file_step lost b (Seek offset whence op_err) (EOVERFLOW, []) b
| step_refused offset whence op_err : op_err <> 0 -> file_step lost b (Seek offset whence op_err) (- op_err, []) b
| step_no_whence offset whence op_err : target b offset whence = None -> file_step lost b (Seek offset whence op_err) (EINVAL, []) b.

(** The calls on an open regular file: the answer, the bytes read, the file *)
Definition run_file (f : vfs_file_s) (o : file_op) : option (Z * list Z * vfs_file_s) :=
  match o with
  | Read count => vfs_read f count
  | Write data copy_err => '(r, f) ← vfs_write copy_err f data; Some (r, [], f)
  | Seek offset whence op_err => let '(r, f) := vfs_lseek op_err f offset whence in Some (r, [], f)
  end.

(** [f] is open to read and write, and stands for [b]: the bytes that its pages hold are those of [b] *)
Record stands (f : vfs_file_s) (b : file) : Prop := {
  sd_flags : VFS_IS (f_flags f) VFS_O_DIRECTORY = false /\ VFS_IS (f_flags f) VFS_O_RDONLY = true /\ VFS_IS (f_flags f) VFS_O_WRONLY = true /\
    VFS_IS (f_flags f) (Z.lor VFS_O_PIPE VFS_O_DEV) = false /\ VFS_IS (f_flags f) VFS_O_DEV = false /\ VFS_IS (n_attr f) VFS_FIFO = false;
  sd_limit : 0 <= pos b <= size b /\ size b < 2 ^ 31;
  sd_whole : whole (f_pages f);
  sd_size : n_size f = size b; sd_pos : f_offset f = pos b;
  sd_bytes : forall i x, 0 <= i < size b -> byte_at (f_pages f) i = Some x -> x = content b i;
}.

(** What changes from [f] to [f'] is going to reach the device: a page that changes is marked, or given to [writepage] when the file is synchronous, and no mark is lost; so is the
    node when its size changes. *)
Record marked (f f' : vfs_file_s) : Prop := {
  mk_flags : f_flags f' = f_flags f;
  mk_dirty : forall k, k ∈ f_dirty f -> k ∈ f_dirty f';
  mk_written : forall k, k ∈ f_written f -> k ∈ f_written f';
  mk_pages : forall k, f_pages f' !! k <> f_pages f !! k -> f_pages f' !! k <> None -> k ∈ (if VFS_IS (f_flags f) VFS_O_SYNC then f_written f' else f_dirty f');
  mk_state : VFS_IS (n_state f) VFS_DIRTY = true -> VFS_IS (n_state f') VFS_DIRTY = true;
  mk_size : n_size f' <> n_size f -> VFS_IS (n_state f') VFS_DIRTY = true \/ (VFS_IS (f_flags f) VFS_O_SYNC = true /\ n_saved f' = Some (n_size f'));
}.

(** A client stays under 2^31 bytes; the errors of the copies are not negative. *)
Definition legal_file (b : file) (o : file_op) : Prop :=
  match o with
  | Read count => 0 <= count < 2 ^ 32
  | Write data copy_err => pos b + zlen data < 2 ^ 31 /\ forall i, 0 <= copy_err i
  | Seek offset whence _ => 0 <= offset < 2 ^ 32 /\ forall t, target b offset whence = Some t -> t < UINT32_MAX -> t < 2 ^ 31
  end.

(** An access that starts inside of a page and goes on after its end *)
Definition crosses (b : file) (o : file_op) : Prop :=
  match o with
  | Read count => ~ in_page (pos b) (Z.min count (size b - pos b))
  | Write data _ => ~ in_page (pos b) (zlen data)
  | Seek _ _ _ => False
  end.

Definition implements_file (f : vfs_file_s) (b : file) (o : file_op) : Prop :=
  (exists r out f' b', run_file f o = Some (r, out, f') /\ file_step (gone (f_pages f)) b o (r, out) b' /\ stands f' b' /\ marked f f') \/
  (crosses b o /\ run_file f o = None).

Lemma dirty_set s : VFS_IS (Z.lor s VFS_DIRTY) VFS_DIRTY = true.
Proof. unfold VFS_IS. rewrite Z.land_lor_distr_l. apply negb_true_iff, Z.eqb_neq. intros E. apply Z.lor_eq_0_iff in E as [_ E]. discriminate. Qed.

Lemma marked_refl f : marked f f.
Proof. split; done. Qed.

#[export] Instance in_page_dec i n : Decision (in_page i n).
Proof. unfold in_page. apply _. Defined.

Lemma read_ok f b count : stands f b -> legal_file b (Read count) -> implements_file f b (Read count).
Proof.
  intros S Hc. pose proof S as [(Hd & Hr & Hw & Hpd & Hdv & Hff) Hlim R Es Ep Hb]. cbn in Hc. unfold implements_file, crosses, run_file, vfs_read. rewrite Hd, Hr, Hpd, Es, Ep. cbn [negb].
  assert (Eav : u32 (size b - pos b) = size b - pos b) by (apply Z.mod_small; lia). rewrite Eav.
  assert (Esz : (if size b - pos b <=? count then size b - pos b else count) = Z.min count (size b - pos b)) by (destruct (Z.leb_spec (size b - pos b) count); lia). rewrite Esz.
  set (k := Z.min count (size b - pos b)) in *. unfold vfs_default_read. rewrite Hff, Ep.
  assert (Hmin : Z.min k (size b - pos b) = k) by lia.
  assert (Hres : (exists out, (if k =? 0 then Some (0, []) else r ← read_loop (Z.to_nat k) f k (pos b) []; match r with inl err => Some (err, []) | inr (out, rest) => Some (s32 (k -! rest), out) end) = Some (k, out) /\
      zlen out = k /\ forall j, 0 <= j < k -> ~ gone (f_pages f) (pos b + j) /\ zget out j = byte_at (f_pages f) (pos b + j)) \/
    ((if k =? 0 then Some (0, []) else r ← read_loop (Z.to_nat k) f k (pos b) []; match r with inl err => Some (err, []) | inr (out, rest) => Some (s32 (k -! rest), out) end) = Some (- EIO, []) /\
      exists j, 0 <= j < k /\ gone (f_pages f) (pos b + j)) \/
    (~ in_page (pos b) k /\ (if k =? 0 then Some (0, []) else r ← read_loop (Z.to_nat k) f k (pos b) []; match r with inl err => Some (err, []) | inr (out, rest) => Some (s32 (k -! rest), out) end) = None)).
  { destruct (Z.eqb_spec k 0) as [->|Hk]; [left; exists []; split_and!; [done|done|lia]|]. destruct (in_page_dec (pos b) k) as [Hin|Hout].
    - destruct (read_loop_ok (Z.to_nat k) f R ltac:(lia) k (pos b) []) as [(out & Hrun & Hlen & Hj)|(Hrun & j & Hj & Hg)]; [lia|lia|lia|rewrite Es, Hmin; done| |]; rewrite Es, Hmin in *; rewrite Hrun; cbn [mbind option_bind app].
      + left. exists out. rewrite Z.sub_diag, Z.sub_0_r. split_and!; try done. do 2 f_equal. unfold u32, s32. rewrite (Z.mod_small k) by lia. rewrite Z.mod_small by lia. lia.
      + right. left. eauto.
    - destruct (read_loop_leaves (Z.to_nat k) f k (pos b) [] R) as [->|(-> & Hpos & Hg)]; [lia|lia|rewrite Es, Hmin; done|right; right; done|].
      right. left. split; [done|]. exists 0. rewrite Z.add_0_r. split; [lia|done]. }
  destruct Hres as [(out & -> & Hlen & Hj)|[(-> & j & Hj & Hg)|[Hout ->]]]; cbn [mbind option_bind]; [left|left|right; done].
  - rewrite (proj2 (Z.ltb_ge k 0)) by lia. assert (Eo : pos b +! k = pos b + k) by (apply Z.mod_small; lia). rewrite Eo. eexists _, _, _, _. split; [done|]. rewrite <- Hlen in *. split_and!.
    + apply step_read; [done|]. intros j Hjr. destruct (Hj j Hjr) as [Hng Hz]. split; [done|]. rewrite Hz. destruct (byte_at (f_pages f) (pos b + j)) as [x|] eqn:E; [f_equal; apply Hb; (done || lia)|].
      exfalso. destruct (zget_is_Some out j ltac:(lia)) as [x Hx]. congruence.
    + split; cbn; try done. lia.
    + split; done.
  - eexists _, _, _, _. split; [done|]. split; [apply (step_read_error _ _ _ j); done|]. split; [done|apply marked_refl].
Qed.

(** From the bytes that the loop has written to the file *)
Lemma overwritten_marked f g cur data : overwritten f g cur data -> marked f g.
Proof.
  intros Ho. destruct (ow_same _ _ _ _ Ho) as (E1 & E2 & E3 & E4 & E5 & E6). split.
  - done.
  - apply (ow_marks _ _ _ _ Ho).
  - apply (ow_writes _ _ _ _ Ho).
  - intros k Hk _. apply (ow_saved _ _ _ _ Ho k Hk).
  - rewrite E5. done.
  - rewrite E4. done.
Qed.

(** The contents after a write of [data] at [cur] *)
Definition after (pages : gmap Z (list Z)) (b : file) (i : Z) : Z := default (content b i) (byte_at pages i).

Lemma after_in f g b data j : overwritten f g (pos b) data -> 0 <= j < zlen data -> zget data j = Some (after (f_pages g) b (pos b + j)).
Proof.
  intros Ho Hj. unfold after. rewrite (ow_bytes _ _ _ _ Ho), decide_True by lia. replace (pos b + j - pos b) with j by lia. destruct (zget_is_Some data j ltac:(lia)) as [x ->]. done.
Qed.
Lemma after_out f g b data i : stands f b -> overwritten f g (pos b) data -> 0 <= i < size b -> ~ (pos b <= i < pos b + zlen data) -> after (f_pages g) b i = content b i.
Proof.
  intros S Ho Hi Hn. unfold after. rewrite (ow_bytes _ _ _ _ Ho), decide_False by done. destruct (byte_at (f_pages f) i) as [x|] eqn:E; [|done]. cbn. apply (sd_bytes _ _ S); done.
Qed.

(** A write that fails *)
Lemma write_failed f b data copy_err n g err f' : stands f b -> 0 <= n < zlen data -> overwritten f g (pos b) (take (Z.to_nat n) data) -> write_fails copy_err f g (pos b) n err f' ->
  exists b', file_step (gone (f_pages f)) b (Write data copy_err) (err, []) b' /\ stands f' b' /\ marked f f'.
Proof.
  intros S Hn Ho [Hz Hw]. assert (Ht : zlen (take (Z.to_nat n) data) = n) by (unfold zlen in *; rewrite length_take; lia). destruct (ow_same _ _ _ _ Ho) as (E1 & E2 & E3 & E4 & E5 & E6).
  exists (File (size b) (pos b) (after (f_pages g) b)).
  assert (Hin : forall j, 0 <= j < n -> zget data j = Some (after (f_pages g) b (pos b + j))).
  { intros j Hj. rewrite <- (after_in f g b (take (Z.to_nat n) data)) by (done || lia). unfold zget. rewrite lookup_take_lt by lia. done. }
  assert (Hout : forall i, 0 <= i < size b -> ~ (pos b <= i < pos b + n) -> after (f_pages g) b i = content b i) by (intros i Hi Hni; apply (after_out f g b (take (Z.to_nat n) data)); rewrite ?Ht; done).
  destruct S as [Hfl Hlim R Es Ep Hb]. destruct Hw as [(Hg & -> & ->)|(Hc & -> & ->)].
  - split; [apply (step_write_error _ _ _ _ n); done|]. split; [|apply (overwritten_marked f g (pos b) (take (Z.to_nat n) data)); done].
    split; cbn; rewrite ?E1, ?E2, ?E3, ?E4; try done; [apply Ho|]. intros i x Hi Hx. unfold after. rewrite Hx. done.
  - split; [apply (step_copy_error _ _ _ _ n); auto|]. split.
    + split; cbn; rewrite ?E1, ?E2, ?E3, ?E4; try done; [intros k p Hk; apply lookup_delete_Some in Hk as [_ Hk]; apply (ow_full _ _ _ _ Ho k p Hk)|].
      intros i x Hi Hx. unfold after, byte_at in *. destruct (decide (i / PMM_PAGE_SIZE = (pos b + n) / PMM_PAGE_SIZE)) as [E|E]; [rewrite E, lookup_delete_eq in Hx; done|].
      rewrite lookup_delete_ne in Hx by done. rewrite Hx. done.
    + destruct (overwritten_marked _ _ _ _ Ho) as [M1 M2 M3 M4 M5 M6]. split; cbn; try done. intros k Hk Hk'.
      destruct (decide (k = (pos b + n) / PMM_PAGE_SIZE)) as [->|Hne]; [rewrite lookup_delete_eq in Hk'; done|]. rewrite lookup_delete_ne in Hk, Hk' by done. auto.
Qed.

(** The end of [vfs_write], after the loop *)
Lemma write_done f b data copy_err g : stands f b -> legal_file b (Write data copy_err) -> overwritten f g (pos b) data ->
  (forall j, 0 <= j < zlen data -> ~ gone (f_pages f) (pos b + j) /\ (j mod PMM_PAGE_SIZE = 0 -> copy_err (pos b + j) = 0)) ->
  exists f' b', (let h := set_f_offset (f_offset g +! zlen data) g in
      if (n_size f <? zlen data +! f_offset f) && (n_size h <? f_offset h) then
        let h := set_n_size (f_offset h) h in Some (zlen data, if VFS_IS (f_flags h) VFS_O_SYNC then save_node h else set_n_state (Z.lor (n_state h) VFS_DIRTY) h)
      else Some (zlen data, h)) = Some (zlen data, f') /\
    file_step (gone (f_pages f)) b (Write data copy_err) (zlen data, []) b' /\ stands f' b' /\ marked f f'.
Proof.
  intros S [Hc He] Ho Hok. pose proof (zlen_nonneg data) as Hz. destruct (ow_same _ _ _ _ Ho) as (E1 & E2 & E3 & E4 & E5 & E6). pose proof (after_out f g b data) as Hout.
  pose proof S as [(Hd & Hr & Hw & Hpd & Hdv & Hff) Hlim R Es Ep Hb].
  assert (Eo : pos b +! zlen data = pos b + zlen data) by (apply Z.mod_small; lia). assert (Eo' : zlen data +! pos b = pos b + zlen data) by (rewrite Z.add_comm; exact Eo).
  assert (Hstep : file_step (gone (f_pages f)) b (Write data copy_err) (zlen data, []) (File (Z.max (size b) (pos b + zlen data)) (pos b + zlen data) (after (f_pages g) b))).
  { apply step_write; [|intros i Hi Hn; apply Hout; done]. intros j Hj. destruct (Hok j Hj) as [H1 H2]. split_and!; [done|done|]. apply (after_in f g b data j Ho Hj). }
  assert (Hby : forall i x, byte_at (f_pages g) i = Some x -> x = after (f_pages g) b i) by (intros i x Hx; unfold after; rewrite Hx; done).
  destruct (overwritten_marked _ _ _ _ Ho) as [M1 M2 M3 M4 M5 M6]. cbv zeta. cbn [f_offset n_size f_flags n_state set_f_offset set_n_size]. rewrite E1, Ep, Es, E4, Es, Eo, Eo', E2.
  destruct (Z.ltb_spec (size b) (pos b + zlen data)) as [Hgt|Hle]; cbn [andb].
  - destruct (VFS_IS (f_flags f) VFS_O_SYNC) eqn:Esy; eexists _, _; (split; [done|]); (split; [exact Hstep|]); (split; [split; cbn; rewrite ?E1, ?E2, ?E3; try done; try lia; [apply Ho|auto]|]).
    + split; cbn; rewrite ?Esy; try done. intros _. right. done.
    + split; cbn; rewrite ?Esy; try done; intros _; [apply dirty_set|left; apply dirty_set].
  - eexists _, _. split; [done|]. split; [exact Hstep|]. split; [|split; cbn; done]. split; cbn; rewrite ?E1, ?E2, ?E3, ?E4, ?Es; try done; try lia; [apply Ho|auto].
Qed.

Lemma write_ok f b data copy_err : stands f b -> legal_file b (Write data copy_err) -> implements_file f b (Write data copy_err).
Proof.
  intros S L. pose proof S as [(Hd & Hr & Hw & Hpd & Hdv & Hff) Hlim R Es Ep Hb]. pose proof L as [Hc He]. pose proof (zlen_nonneg data) as Hz.
  unfold implements_file, crosses, run_file, vfs_write. rewrite Hd, Hw, Hdv. cbn [negb andb]. unfold vfs_default_write. rewrite Hff, Ep.
  assert (Hsucc : forall g, overwritten f g (pos b) data -> (forall j, 0 <= j < zlen data -> ~ gone (f_pages f) (pos b + j) /\ (j mod PMM_PAGE_SIZE = 0 -> copy_err (pos b + j) = 0)) ->
    exists f' b', (if zlen data <? 0 then Some (zlen data, g) else let h := set_f_offset (f_offset g +! zlen data) g in
      if (n_size f <? zlen data +! pos b) && (n_size h <? f_offset h) then
        let h := set_n_size (f_offset h) h in Some (zlen data, if VFS_IS (f_flags h) VFS_O_SYNC then save_node h else set_n_state (Z.lor (n_state h) VFS_DIRTY) h)
      else Some (zlen data, h)) = Some (zlen data, f') /\ file_step (gone (f_pages f)) b (Write data copy_err) (zlen data, []) b' /\ stands f' b' /\ marked f f').
  { intros g Ho Hok. rewrite (proj2 (Z.ltb_ge (zlen data) 0)) by lia. rewrite <- Ep. apply write_done; done. }
  destruct (Z.eqb_spec (zlen data) 0) as [E|E].
  { assert (data = []) as -> by (destruct data; [done|]; rewrite zlen_cons in *; pose proof (zlen_nonneg data); lia). left. destruct (Hsucc f) as (f' & b' & Hrun & H); [apply overwritten_nil; done|intros j; change (zlen []) with 0; lia|].
    change (zlen []) with 0 in Hrun |- *. cbn [mbind option_bind] in *. rewrite Hrun. cbn [mbind option_bind]. exists 0, [], f', b'. done. }
  destruct (in_page_dec (pos b) (zlen data)) as [Hin|Hout].
  - left. destruct (write_loop_ok copy_err (length data) f data (pos b) R) as [(g & -> & Ho & Hok)|(n & g & err & f' & -> & Hn & Ho & Hf)]; [lia|done|unfold zlen; lia|done| |]; cbn [mbind option_bind default from_option id].
    + assert (Es32 : s32 (zlen data) = zlen data) by (unfold s32; rewrite Z.mod_small by lia; lia). rewrite Es32. destruct (Hsucc g Ho Hok) as (f' & b' & Hrun & H). cbv zeta in Hrun |- *. rewrite Hrun. cbn [mbind option_bind]. exists (zlen data), [], f', b'. done.
    + assert (Hneg : err < 0) by (destruct Hf as [_ [(_ & -> & _)|(Hne & -> & _)]]; [unfold EIO; lia|specialize (He (pos b + n)); lia]). rewrite (proj2 (Z.ltb_lt err 0)) by lia. cbn [mbind option_bind].
      destruct (write_failed f b data copy_err n g err f' S Hn Ho Hf) as (b' & H). exists err, [], f', b'. done.
  - destruct (write_loop_leaves copy_err (length data) f data (pos b) R) as [->|(Hpos & err & f' & -> & Hf)]; [lia|unfold zlen; lia|done|right; done|]. left. cbn [mbind option_bind default from_option id].
    assert (Hneg : err < 0) by (destruct Hf as [_ [(_ & -> & _)|(Hne & -> & _)]]; [unfold EIO; lia|specialize (He (pos b + 0)); lia]). rewrite (proj2 (Z.ltb_lt err 0)) by lia. cbn [mbind option_bind].
    destruct (write_failed f b data copy_err 0 f err f' S) as (b' & H); [lia|apply overwritten_nil; done|done|]. exists err, [], f', b'. done.
Qed.

Lemma seek_ok f b offset whence op_err : stands f b -> legal_file b (Seek offset whence op_err) ->
  exists r f' b', vfs_lseek op_err f offset whence = (r, f') /\ file_step (gone (f_pages f)) b (Seek offset whence op_err) (r, []) b' /\ stands f' b' /\ marked f f'.
Proof.
  intros S [Ho Ht]. pose proof S as [(Hd & Hr & Hw & Hpd & Hdv & Hff) Hlim R Es Ep Hb]. unfold vfs_lseek. rewrite Hd, Es, Ep.
  assert (Eu : u32 (size b) = size b) by (apply Z.mod_small; lia). rewrite Eu.
  assert (Hgo : forall t, target b offset whence = Some t -> 0 <= t -> exists r f' b', lseek_to op_err f t = (r, f') /\ file_step (gone (f_pages f)) b (Seek offset whence op_err) (r, []) b' /\ stands f' b' /\ marked f f').
  { intros t Et Ht0. unfold lseek_to. rewrite Es, Eu. destruct (Z.leb_spec UINT32_MAX t) as [Hbig|Hsmall].
    - eexists _, _, _. split; [done|]. split; [apply (step_too_far _ _ _ _ _ t); done|]. split; [done|apply marked_refl].
    - specialize (Ht t Et Hsmall). destruct (Z.eqb_spec op_err 0) as [->|Hop]; cbn [negb].
      + assert (Hc : forall i, 0 <= i < size b -> after (f_pages f) b i = content b i).
        { intros i Hi. unfold after. destruct (byte_at (f_pages f) i) as [x|] eqn:E; [|done]. cbn. apply Hb; done. }
        assert (Hby : forall i x, byte_at (f_pages f) i = Some x -> x = after (f_pages f) b i) by (intros i x Hx; unfold after; rewrite Hx; done).
        eexists _, _, (File (Z.max (size b) t) t (after (f_pages f) b)). split; [done|]. split; [apply (step_seek _ _ _ _ _ t); done|].
        cbn [n_size set_f_offset]. rewrite Es. destruct (Z.ltb_spec (size b) t); (split; [split; cbn; try done; try lia; auto|]); split; cbn; try done; intros _; [apply dirty_set|left; apply dirty_set].
      + eexists _, _, _. split; [done|]. split; [apply step_refused; done|]. split; [done|apply marked_refl]. }
  unfold target in Hgo. destruct (Z.eqb_spec whence VFS_SEEK_SET) as [->|H0]; [|destruct (Z.eqb_spec whence VFS_SEEK_CUR) as [->|H1]; [|destruct (Z.eqb_spec whence VFS_SEEK_END) as [->|H2]]].
  - destruct (Z.eqb_spec offset (pos b)) as [->|]; [|apply Hgo; (done || lia)]. eexists _, _, (File (Z.max (size b) (pos b)) (pos b) (content b)). split; [done|].
    split; [apply (step_seek _ _ _ _ _ (pos b)); (done || unfold UINT32_MAX; lia)|]. rewrite Z.max_l by lia. split; [destruct b; done|apply marked_refl].
  - apply Hgo; (done || lia).
  - apply Hgo; [done|]. apply Z.mod_pos_bound. done.
  - eexists _, _, _. split; [done|]. split; [|split; [done|apply marked_refl]]. apply step_no_whence. unfold target. rewrite !(proj2 (Z.eqb_neq _ _)); done.
Qed.


(** A file of five bytes in one page *)
Definition demo_page : list Z := [104; 101; 108; 108; 111] ++ replicate 4091 0.
Definition demo_file : vfs_file_s := VfsFile 1 (Z.lor VFS_O_RDONLY VFS_O_WRONLY) 0 5 0 None {[0 := demo_page]} ∅ ∅.
Definition demo_bytes : file := File 5 1 (fun i => default 0 (zget demo_page i)).

Lemma demo_stands : stands demo_file demo_bytes.
Proof.
  split.
  - split_and!; reflexivity.
  - cbn. lia.
  - intros k p. cbn [f_pages demo_file]. intros [<- <-]%lookup_singleton_Some. reflexivity.
  - done.
  - done.
  - intros i x Hi. cbn [size demo_bytes] in Hi. unfold byte_at. change PMM_PAGE_SIZE with 4096. rewrite Z.div_small, Z.mod_small by lia. cbn [f_pages demo_file]. rewrite lookup_singleton_eq. cbn [mbind option_bind].
    cbn [content demo_bytes]. intros ->. done.
Qed.

Definition demo_data : list Z := [65; 66; 67; 68; 69; 70; 71].


(** ** Where the code differs from what it means to do *)

(** A read that starts inside of a page and goes on to the next one copies from behind the page. *)
Theorem vfs_read_crosses_page f page count : VFS_IS (n_attr f) VFS_FIFO = false -> f_pages f !! (f_offset f / 4096) = Some page -> zlen page = 4096 -> 0 <= f_offset f ->
  4096 < f_offset f mod 4096 + count -> count <= 4096 -> f_offset f + count <= n_size f -> vfs_default_read f count = None.
Proof.
  intros Hff Hpage Hlen Ho Hc Hc2 Hn. pose proof (Z.mod_pos_bound (f_offset f) 4096). unfold vfs_default_read. rewrite Hff, (proj2 (Z.eqb_neq count 0)) by lia.
  destruct (Z.to_nat count) as [|fuel] eqn:Ec; [lia|]. cbn [read_loop]. rewrite (proj2 (Z.ltb_lt 0 count)), (proj2 (Z.ltb_lt (f_offset f) _)) by lia. cbn [andb]. rewrite page_of. change PMM_PAGE_SIZE with 4096.
  rewrite Hpage. set (n := if 4096 <? _ then _ else _). assert (Hn2 : n = Z.min 4096 (n_size f - f_offset f)) by (unfold n; destruct (Z.ltb_spec 4096 (n_size f - f_offset f)); lia).
  unfold copy_from. destruct (n <=? count); (rewrite decide_False; [done|lia]).
Qed.

(** The same write goes past the page. *)
Theorem vfs_write_crosses_page f page data : VFS_IS (n_attr f) VFS_FIFO = false -> f_pages f !! (f_offset f / 4096) = Some page -> zlen page = 4096 -> 0 <= f_offset f ->
  4096 < f_offset f mod 4096 + zlen data -> zlen data <= 4096 -> vfs_default_write (fun _ => 0) f data = None.
Proof.
  intros Hff Hpage Hlen Ho Hc Hc2. pose proof (Z.mod_pos_bound (f_offset f) 4096). unfold vfs_default_write. rewrite Hff, (proj2 (Z.eqb_neq _ 0)) by lia.
  destruct (length data) as [|fuel] eqn:Ec; [unfold zlen in Hc; lia|]. cbn [write_loop]. rewrite (proj2 (Z.ltb_lt 0 _)) by lia. rewrite page_of. change PMM_PAGE_SIZE with 4096. rewrite Hpage. cbn [Z.eqb negb].
  set (n := if 4096 <=? _ then _ else _). assert (Hn : n = zlen data) by (unfold n; destruct (Z.leb_spec 4096 (zlen data)); lia). unfold copy_to.
  rewrite decide_False; [done|]. rewrite Hn. unfold zlen. rewrite Nat2Z.id, firstn_all. unfold zlen in *. lia.
Qed.

(** Going back from the position is refused as an overflow: the offset of 32 bits is added to a position of 64 bits. *)
Theorem vfs_lseek_not_back f k op_err : VFS_IS (f_flags f) VFS_O_DIRECTORY = false -> 1 <= k <= f_offset f -> k < 2 ^ 32 -> vfs_lseek op_err f (u32 (- k)) VFS_SEEK_CUR = (EOVERFLOW, f).
Proof.
  intros Hd Hk Hlt. unfold vfs_lseek, lseek_to. rewrite Hd. cbn [Z.eqb VFS_SEEK_CUR VFS_SEEK_SET].
  assert (Eu : u32 (- k) = 2 ^ 32 - k) by (unfold u32; symmetry; apply (Z.mod_unique _ _ (-1)); lia). rewrite Eu. rewrite (proj2 (Z.leb_le UINT32_MAX _)) by (unfold UINT32_MAX; lia). done.
Qed.

(** A write to a file that is not open for writing answers like a write of nine bytes. *)
Theorem vfs_write_error_positive copy_err f data : VFS_IS (f_flags f) VFS_O_DIRECTORY = false -> VFS_IS (f_flags f) VFS_O_WRONLY = false -> vfs_write copy_err f data = Some (9, f).
Proof. intros Hd Hw. unfold vfs_write. rewrite Hd, Hw. done. Qed.
