(* ===== verification/Mapper.v ===== *)
(** * Mapper: the protocol of the cache of the pages of a file, [kernel/mm/mapper.c]

    [mapper_get_page] finds the page of an index or loads it: a thread that finds no page leaves a dummy page, which lives on its stack, in the radix tree,
    loads the page without the lock, and puts it in the place of the dummy; the threads that meet the dummy sleep on its wait queue.  The
    sections under [m_lock] ([Mcs] proves its exclusion) are the steps; between them the thread allocates and reads the page, with an
    answer that is an argument.  This file is the specification, with a finite map for the tree and for mappers that belong to a file, whose pages do not migrate; [MapperTree] has the sections of the code
    over the radix tree of [Radix], and shows that they implement it. *)

From S2P Require Import Prelude.

(** What the tree holds: the dummy page on the stack of a thread, or a page *)
Inductive item := Dummy (t : Z) | Page (p : Z).
#[export] Instance item_eq : EqDecision item.
Proof. solve_decision. Defined.

(** Where a thread is in [mapper_get_page]: outside; before the lock; after the insertion of the dummy; with a page that is loaded; with the failure of the
    allocation or of the load; asleep; with a page to migrate; with the answer of the migration; returning *)
Inductive mpc :=
  | MOut | MGet (index : Z) | MLoad (index : Z) | MCommit (index page : Z) | MAbort (index : Z) (page : option Z) (err : Z)
  | MAsleep (index : Z) | MMigrate (index page : Z) | MMigrated (index page err : Z) (new : option Z)
  | MRet (index : Z) (result : option Z) (errno : Z).

(** [T] is what stands for the tree *)
Record mapper_of (T : Type) := Mapper {
  m_node : bool;                    (* m_node is not NULL *)
  m_radix : T;
  pg_migrate : Z -> bool;           (* PG_MIGRATE *)
  pg_inload : Z -> bool;            (* PG_INLOAD *)
  waiters : item -> list Z;         (* wait_queue *)
  allocated : gset Z;               (* pages that kmem_alloc gave *)
  at_pc : Z -> mpc;
}.

#[global] Arguments Mapper {T} _ _ _ _ _ _ _.
#[global] Arguments m_node {T} _.
#[global] Arguments m_radix {T} _.
#[global] Arguments pg_migrate {T} _ _.
#[global] Arguments pg_inload {T} _ _.
#[global] Arguments waiters {T} _ _.
#[global] Arguments allocated {T} _.
#[global] Arguments at_pc {T} _ _.
Notation mapper := (mapper_of (gmap Z item)).

Section Fields.
Context {T : Type}.
Implicit Types (m : mapper_of T).

Definition set_pc t p m := Mapper (m_node m) (m_radix m) (pg_migrate m) (pg_inload m) (waiters m) (allocated m) (<[t := p]> (at_pc m)).
Definition set_radix {U} (tr : U) m : mapper_of U := Mapper (m_node m) tr (pg_migrate m) (pg_inload m) (waiters m) (allocated m) (at_pc m).
Definition set_migrate p b m := Mapper (m_node m) (m_radix m) (<[p := b]> (pg_migrate m)) (pg_inload m) (waiters m) (allocated m) (at_pc m).
Definition set_inload p b m := Mapper (m_node m) (m_radix m) (pg_migrate m) (<[p := b]> (pg_inload m)) (waiters m) (allocated m) (at_pc m).
Definition set_waiters it l m := Mapper (m_node m) (m_radix m) (pg_migrate m) (pg_inload m) (<[it := l]> (waiters m)) (allocated m) (at_pc m).
Definition take_page p m := Mapper (m_node m) (m_radix m) (pg_migrate m) (pg_inload m) (waiters m) ({[p]} ∪ allocated m) (at_pc m).
(** [kmem_free] *)
Definition free_page p m := Mapper (m_node m) (m_radix m) (pg_migrate m) (pg_inload m) (waiters m) (allocated m ∖ {[p]}) (at_pc m).

(** A thread that wakes up starts again. *)
Definition restart (p : mpc) : mpc := match p with MAsleep i => MGet i | _ => p end.
Definition wakeup_all (it : item) m : mapper_of T :=
  set_waiters it [] (foldl (fun m u => set_pc u (restart (at_pc m u)) m) m (waiters m it)).

(** The allocation and [readpage]: no page, or a page with the error of the read *)
Definition load (t index : Z) (answer : option (Z * Z)) m : mapper_of T :=
  match answer with
  | None => set_pc t (MAbort index None 0) m
  | Some (p, err) => set_pc t (if err =? 0 then MCommit index p else MAbort index (Some p) err) (set_inload p true (take_page p m))
  end.

(** [kmem_alloc] gives a page that is not allocated. *)
Definition fresh m (answer : option Z) : Prop := match answer with Some p => p ∉ allocated m | None => True end.
End Fields.
#[global] Arguments wakeup_all {T} _ _ : simpl never.

Definition set_item i it (m : mapper) : mapper := set_radix (<[i := it]> (m_radix m)) m.
Definition del_item i (m : mapper) : mapper := set_radix (delete i (m_radix m)) m.

(** The dummy page of [t] in the tree *)
Definition put_dummy (t index : Z) (m : mapper) : mapper := set_item index (Dummy t) (set_waiters (Dummy t) [] m).

(** The first section.  [err]: the answer of the insertion in the tree *)
Definition spec_get (t index err : Z) (m : mapper) : mapper :=
  match m_radix m !! index with
  | None =>
      if negb (err =? 0) then set_pc t (MRet index None (if err =? ENOMEM then err else EIO)) (del_item index (set_waiters (Dummy t) [] m))
      else set_pc t (MLoad index) (put_dummy t index m)
  | Some (Dummy u) => set_pc t (MAsleep index) (set_waiters (Dummy u) (waiters m (Dummy u) ++ [t]) m)
  | Some (Page p) =>
      if pg_inload m p then set_pc t (MAsleep index) (set_waiters (Page p) (waiters m (Page p) ++ [t]) m)
      else set_pc t (MRet index (Some p) 0) (if pg_migrate m p then set_migrate p false m else m)
  end.

(** The section after a failure, and the release of the page *)
Definition spec_abort (t index : Z) (page : option Z) (err : Z) (m : mapper) : mapper :=
  let m := wakeup_all (Dummy t) (del_item index m) in
  let m := match page with Some p => free_page p m | None => m end in
  set_pc t (MRet index None (if err =? 0 then ENOMEM else EIO)) m.

(** The section after the load *)
Definition spec_commit (t index p : Z) (m : mapper) : mapper :=
  set_pc t (MRet index (Some p) 0) (wakeup_all (Dummy t) (set_inload p false (set_item index (Page p) m))).

(** The removal of a page that is in the tree *)
Definition spec_remove (index p : Z) (m : mapper) : mapper := free_page p (del_item index m).

(** The addition of a page at an index that is free *)
Definition spec_add (index p : Z) (m : mapper) : mapper := set_item index (Page p) (take_page p m).

(** The steps of the threads.  [removal] allows other threads to remove pages.  A page that is added does not have the flag [PG_INLOAD], which pages
    keep from one allocation to the next. *)
Inductive mstep (removal : bool) (m : mapper) : mapper -> Prop :=
| mstep_call t index : at_pc m t = MOut -> mstep removal m (set_pc t (MGet index) m)
| mstep_get t index err : at_pc m t = MGet index -> mstep removal m (spec_get t index err m)
| mstep_load t index answer : at_pc m t = MLoad index -> fresh m (fst <$> answer) -> mstep removal m (load t index answer m)
| mstep_commit t index p : at_pc m t = MCommit index p -> mstep removal m (spec_commit t index p m)
| mstep_abort t index page err : at_pc m t = MAbort index page err -> mstep removal m (spec_abort t index page err m)
| mstep_return t index r errno : at_pc m t = MRet index r errno -> mstep removal m (set_pc t MOut m)
| mstep_add index p : p ∉ allocated m -> pg_inload m p = false -> m_radix m !! index = None -> mstep removal m (spec_add index p m)
| mstep_remove index p : removal = true -> m_radix m !! index = Some (Page p) -> mstep removal m (spec_remove index p m)
| mstep_mark p : mstep removal m (set_migrate p true m).

(** [mapper_ctor] and [mapper_init], with an empty tree *)
Definition mapper_start {T} (node : bool) (tr : T) : mapper_of T :=
  Mapper node tr (fun _ => false) (fun _ => false) (fun _ => []) ∅ (fun _ => MOut).
Definition spec_start (node : bool) : mapper := mapper_start node ∅.

(** ** Waking the sleepers *)

Section Wake.
Context {T : Type}.
Implicit Types (m : mapper_of T).

(** What [wakeup_all] changes *)
Lemma wake_fold l m : let m' := foldl (fun m u => set_pc u (restart (at_pc m u)) m) m l in
  (forall u, at_pc m' u = if decide (u ∈ l) then restart (at_pc m u) else at_pc m u) /\ m_node m' = m_node m /\ m_radix m' = m_radix m /\
  pg_migrate m' = pg_migrate m /\ pg_inload m' = pg_inload m /\ waiters m' = waiters m /\ allocated m' = allocated m.
Proof.
  revert m. induction l as [|x l IH]; intros m; cbn [foldl]; [split_and!; done|].
  destruct (IH (set_pc x (restart (at_pc m x)) m)) as (H1 & H2 & H3 & H4 & H5 & H6 & H7). split_and!; try done. intros u. rewrite H1. cbn.
  destruct (decide (u = x)) as [->|Hne].
  - rewrite fn_lookup_insert, (decide_True (P := x ∈ x :: l)) by set_solver. destruct (at_pc m x); destruct (decide (x ∈ l)); done.
  - rewrite fn_lookup_insert_ne by done. destruct (decide (u ∈ l)); [rewrite decide_True by set_solver|rewrite decide_False by set_solver]; done.
Qed.

Lemma wakeup_spec it m : let m' := wakeup_all it m in
  (forall u, at_pc m' u = if decide (u ∈ waiters m it) then restart (at_pc m u) else at_pc m u) /\ m_node m' = m_node m /\ m_radix m' = m_radix m /\
  pg_migrate m' = pg_migrate m /\ pg_inload m' = pg_inload m /\ allocated m' = allocated m /\ waiters m' = <[it := []]> (waiters m).
Proof.
  cbv zeta. destruct (wake_fold (waiters m it) m) as (H1 & H2 & H3 & H4 & H5 & H6 & H7). unfold wakeup_all. cbn. rewrite H6. split_and!; done.
Qed.

Lemma woken_pc it m u : at_pc (wakeup_all it m) u = at_pc m u \/ at_pc (wakeup_all it m) u = restart (at_pc m u).
Proof. destruct (wakeup_spec it m) as [H _]. rewrite H. destruct (decide _); auto. Qed.

Lemma wakeup_set_radix {U} it (tr : U) m : wakeup_all it (set_radix tr m) = set_radix tr (wakeup_all it m).
Proof.
  unfold wakeup_all. change (waiters (set_radix tr m) it) with (waiters m it). generalize (waiters m it) as l. intros l.
  assert (E : foldl (fun (m : mapper_of U) u => set_pc u (restart (at_pc m u)) m) (set_radix tr m) l = set_radix tr (foldl (fun m u => set_pc u (restart (at_pc m u)) m) m l)).
  { revert m. induction l as [|u l IH]; intros m; cbn [foldl]; [done|]. rewrite <- IH. done. }
  rewrite E. done.
Qed.
End Wake.

(** ** The protocol *)


(** The index that a thread loads, and the pages that it holds *)
Definition loading (p : mpc) : option Z :=
  match p with MLoad i | MCommit i _ | MAbort i _ _ | MMigrate i _ | MMigrated i _ _ _ => Some i | _ => None end.
Definition held (p : mpc) : list Z :=
  match p with
  | MCommit _ p | MAbort _ (Some p) _ | MMigrate _ p | MMigrated _ p _ None => [p]
  | MMigrated _ p _ (Some q) => [p; q]
  | _ => []
  end.

(** A page is owned by an index of the tree or by a thread. *)
Definition owns (m : mapper) (w : Z + Z) (p : Z) : Prop :=
  match w with inl i => m_radix m !! i = Some (Page p) | inr t => p ∈ held (at_pc m t) end.
Definition page_ok (m : mapper) (p : Z) : Prop :=
  (p ∈ allocated m <-> exists w, owns m w p) /\ forall w w', owns m w p -> owns m w' p -> w = w'.

(** No thread migrates a page. *)
Definition migr_ok (p : mpc) : Prop := match p with MMigrate _ _ | MMigrated _ _ _ _ => False | _ => True end.

Record minv (m : mapper) : Prop := {
  v_dummy : forall i t, m_radix m !! i = Some (Dummy t) <-> loading (at_pc m t) = Some i;
  v_wait : forall t u, u ∈ waiters m (Dummy t) -> exists i, loading (at_pc m t) = Some i /\ at_pc m u = MAsleep i;
  v_sleep : forall u i, at_pc m u = MAsleep i -> exists t, loading (at_pc m t) = Some i /\ u ∈ waiters m (Dummy t);
  v_page : forall p, page_ok m p;
  v_inload : forall i p, m_radix m !! i = Some (Page p) -> pg_inload m p = false;
  v_migr : forall t, migr_ok (at_pc m t);
}.

Section Protocol.
Implicit Types (m : mapper).

Lemma init_minv node : minv (spec_start node).
Proof.
  assert (He : forall i, m_radix (spec_start node) !! i = None) by (intros i; apply lookup_empty).
  split; try done.
  - intros t u H. inversion H.
  - assert (Hno : forall w p, ~ owns (spec_start node) w p) by (intros [i|t] p; cbn [owns]; [rewrite He; done|intros H; inversion H]).
    intros p. split; [|intros w w' H; destruct (Hno w p H)]. split; [intros H; apply elem_of_empty in H; done|]. intros [w H]. destruct (Hno w p H).
Qed.

Lemma loading_restart p : loading (restart p) = loading p.
Proof. destruct p; done. Qed.
Lemma held_restart p : held (restart p) = held p.
Proof. destruct p; done. Qed.

(** The part of the invariant about locks and queues, for a thread that starts or stops to load an index; the states are given by what they
    hold. *)
Record qinv (radix : gmap Z item) (pc : Z -> mpc) (q : item -> list Z) : Prop := {
  q_dummy : forall i t, radix !! i = Some (Dummy t) <-> loading (pc t) = Some i;
  q_wait : forall t u, u ∈ q (Dummy t) -> exists i, loading (pc t) = Some i /\ pc u = MAsleep i;
  q_sleep : forall u i, pc u = MAsleep i -> exists t, loading (pc t) = Some i /\ u ∈ q (Dummy t);
}.

Definition asleep (p : mpc) : bool := match p with MAsleep _ => true | _ => false end.

(** A thread moves without loading or sleeping before or after, or goes on with the same index. *)
Lemma qinv_move radix pc q t p : qinv radix pc q -> asleep (pc t) = false -> asleep p = false -> loading p = loading (pc t) -> qinv radix (<[t := p]> pc) q.
Proof.
  intros [H1 H2 H3] Ha Ha' El. assert (Hl : forall x, loading ((<[t := p]> pc : Z -> mpc) x) = loading (pc x)).
  { intros x. destruct (decide (x = t)) as [->|Hne]; [rewrite fn_lookup_insert|rewrite fn_lookup_insert_ne by done]; done. }
  assert (Hs : forall u i, (<[t := p]> pc : Z -> mpc) u = MAsleep i <-> pc u = MAsleep i).
  { intros u i. destruct (decide (u = t)) as [->|Hne]; [rewrite fn_lookup_insert; split; intros E; [rewrite E in Ha'|rewrite E in Ha]; done|rewrite fn_lookup_insert_ne by done; done]. }
  split.
  - intros i x. rewrite Hl. apply H1.
  - intros x u Hu. destruct (H2 x u Hu) as (i & E1 & E2). exists i. rewrite Hl, Hs. done.
  - intros u i E. apply Hs in E. destruct (H3 u i E) as (x & E1 & E2). exists x. rewrite Hl. done.
Qed.

(** A thread puts its dummy at an index. *)
Lemma qinv_start radix pc q t i p : qinv radix pc q -> loading (pc t) = None -> asleep (pc t) = false -> (forall u, radix !! i <> Some (Dummy u)) ->
  loading p = Some i -> qinv (<[i := Dummy t]> radix) (<[t := p]> pc) (<[Dummy t := []]> q).
Proof.
  intros [H1 H2 H3] Hl Ha Hi Hp. assert (Hp' : asleep p = false) by (destruct p; done).
  assert (Hq : q (Dummy t) = []) by (destruct (q (Dummy t)) as [|u l] eqn:E; [done|]; destruct (H2 t u) as (j & Ej & _); [rewrite E; set_solver|congruence]).
  assert (Hno : forall x, x <> t -> loading (pc x) <> Some i) by (intros x _ E; apply H1 in E; exact (Hi x E)).
  split.
  - intros j x. destruct (decide (j = i)) as [->|Hj]; [rewrite lookup_insert_eq|rewrite lookup_insert_ne by done];
      (destruct (decide (x = t)) as [->|Hx]; [rewrite fn_lookup_insert|rewrite fn_lookup_insert_ne by done]).
    + rewrite Hp. done.
    + split; [intros [= <-]; done|]. intros E. destruct (Hno x Hx E).
    + rewrite H1, Hl, Hp. split; [done|congruence].
    + apply H1.
  - intros x u. destruct (decide (x = t)) as [->|Hx]; [rewrite fn_lookup_insert; intros Hu; inversion Hu|].
    rewrite !(fn_lookup_insert_ne _ _ x) by done. rewrite fn_lookup_insert_ne by congruence. intros Hu. destruct (H2 x u Hu) as (j & E1 & E2). exists j. split; [done|].
    rewrite fn_lookup_insert_ne; [done|]. intros ->. rewrite E2 in Ha. done.
  - intros u j. destruct (decide (u = t)) as [->|Hu]; [rewrite fn_lookup_insert; intros ->; done|]. rewrite fn_lookup_insert_ne by done. intros E.
    destruct (H3 u j E) as (x & E1 & E2). assert (x <> t) by congruence. exists x. rewrite !fn_lookup_insert_ne by congruence. done.
Qed.

(** A thread sleeps on the dummy of another one. *)
Lemma qinv_sleep radix pc q t i x : qinv radix pc q -> loading (pc t) = None -> asleep (pc t) = false -> radix !! i = Some (Dummy x) ->
  qinv radix (<[t := MAsleep i]> pc) (<[Dummy x := q (Dummy x) ++ [t]]> q).
Proof.
  intros [H1 H2 H3] Hl Ha Hi. pose proof (proj1 (H1 i x) Hi) as Hx. assert (Hxt : x <> t) by congruence.
  assert (Hl' : forall y, loading ((<[t := MAsleep i]> pc : Z -> mpc) y) = loading (pc y)).
  { intros y. destruct (decide (y = t)) as [->|Hne]; [rewrite fn_lookup_insert|rewrite fn_lookup_insert_ne by done]; done. }
  split.
  - intros j y. rewrite Hl'. apply H1.
  - intros y u. rewrite Hl'. destruct (decide (y = x)) as [->|Hy]; [rewrite fn_lookup_insert|rewrite fn_lookup_insert_ne by congruence].
    + intros Hu. exists i. split; [done|]. destruct (decide (u = t)) as [->|Hut]; [apply fn_lookup_insert|]. rewrite fn_lookup_insert_ne by done.
      apply elem_of_app in Hu as [Hu|Hu%list_elem_of_singleton]; [|done]. destruct (H2 x u Hu) as (j & E1 & E2). congruence.
    + intros Hu. destruct (H2 y u Hu) as (j & E1 & E2). exists j. split; [done|]. rewrite fn_lookup_insert_ne; [done|]. intros ->. rewrite E2 in Ha. done.
  - intros u j. destruct (decide (u = t)) as [->|Hu].
    + rewrite fn_lookup_insert. intros [= <-]. exists x. rewrite Hl', fn_lookup_insert. split; [done|]. set_solver.
    + rewrite fn_lookup_insert_ne by done. intros E. destruct (H3 u j E) as (y & E1 & E2). exists y. rewrite Hl'. split; [done|].
      destruct (decide (y = x)) as [->|Hy]; [rewrite fn_lookup_insert; set_solver|rewrite fn_lookup_insert_ne by congruence; done].
Qed.

(** A thread takes its dummy away and wakes the sleepers. *)
Lemma qinv_stop radix radix' pc q t i p : qinv radix pc q -> loading (pc t) = Some i -> loading p = None -> asleep p = false ->
  (forall j x, radix' !! j = Some (Dummy x) <-> radix !! j = Some (Dummy x) /\ j <> i) ->
  qinv radix' (<[t := p]> (fun u => if decide (u ∈ q (Dummy t)) then restart (pc u) else pc u)) (<[Dummy t := []]> q).
Proof.
  intros [H1 H2 H3] Hl Hp Ha Hr. set (pc' := <[t := p]> _ : Z -> mpc).
  assert (Hl' : forall y, loading (pc' y) = if decide (y = t) then None else loading (pc y)).
  { intros y. unfold pc'. destruct (decide (y = t)) as [->|Hne]; [rewrite fn_lookup_insert; done|]. rewrite fn_lookup_insert_ne by done.
    destruct (decide (y ∈ q (Dummy t))); [apply loading_restart|done]. }
  split.
  - intros j x. rewrite Hr, Hl', H1. destruct (decide (x = t)) as [->|Hx]; [split; [intros [E1 E2]; congruence|done]|].
    split; [tauto|]. intros E. split; [done|]. intros ->. apply Hx. apply H1 in E, Hl. congruence.
  - intros x u. destruct (decide (x = t)) as [->|Hx]; [rewrite fn_lookup_insert; intros Hu; inversion Hu|]. rewrite fn_lookup_insert_ne by congruence. intros Hu.
    destruct (H2 x u Hu) as (j & E1 & E2). exists j. rewrite Hl', decide_False by done. split; [done|]. unfold pc'.
    assert (u <> t) by (intros ->; rewrite E2 in Hl; done). rewrite fn_lookup_insert_ne by done. rewrite decide_False; [done|]. intros Hut.
    destruct (H2 t u Hut) as (k & F1 & F2). apply Hx. apply H1 in E1, F1. congruence.
  - intros u j. unfold pc'. destruct (decide (u = t)) as [->|Hu]; [rewrite fn_lookup_insert; intros ->; done|]. rewrite fn_lookup_insert_ne by done.
    destruct (decide (u ∈ q (Dummy t))) as [Hin|Hni]; [destruct (H2 t u Hin) as (k & _ & ->); done|]. intros E. destruct (H3 u j E) as (x & E1 & E2).
    assert (x <> t) by congruence. exists x. fold pc'. rewrite Hl', decide_False by done. rewrite fn_lookup_insert_ne by congruence. done.
Qed.

Lemma minv_qinv m : minv m -> qinv (m_radix m) (at_pc m) (waiters m).
Proof. intros [H1 H2 H3 _ _ _]. split; done. Qed.

(** The owners of the pages change for the pages of [X] only. *)
Lemma pages_change m m' (X : list Z) : (forall p, page_ok m p) -> (forall w p, p ∉ X -> owns m' w p <-> owns m w p) ->
  (forall p, p ∉ X -> p ∈ allocated m' <-> p ∈ allocated m) -> (forall p, p ∈ X -> page_ok m' p) -> forall p, page_ok m' p.
Proof.
  intros Hp Ho Ha HX p. destruct (decide (p ∈ X)) as [Hin|Hni]; [auto|]. destruct (Hp p) as [H1 H2]. split.
  - rewrite Ha, H1 by done. split; intros [w Hw]; exists w; [apply Ho|apply Ho in Hw]; done.
  - intros w w' Hw Hw'. apply Ho in Hw, Hw'; auto.
Qed.

(** A page with one owner, and a page with none *)
Lemma page_one m p w : p ∈ allocated m -> (forall w', owns m w' p <-> w' = w) -> page_ok m p.
Proof. intros Ha Ho. split; [split; [intros _; exists w; apply Ho; done|done]|]. intros w1 w2 H1 H2. apply Ho in H1, H2. congruence. Qed.
Lemma page_none m p : p ∉ allocated m -> (forall w, ~ owns m w p) -> page_ok m p.
Proof. intros Ha Ho. split; [split; [done|intros [w Hw]; destruct (Ho w Hw)]|]. intros w w' Hw. destruct (Ho w Hw). Qed.

Lemma owner_radix m i p : minv m -> m_radix m !! i = Some (Page p) -> p ∈ allocated m /\ forall w, owns m w p <-> w = inl i.
Proof.
  intros I Hi. destruct (v_page _ I p) as [H1 H2]. assert (Ho : owns m (inl i) p) by exact Hi. split; [apply H1; eauto|].
  intros w. split; [intros Hw; apply H2; done|intros ->; done].
Qed.
Lemma owner_held m t p : minv m -> p ∈ held (at_pc m t) -> p ∈ allocated m /\ forall w, owns m w p <-> w = inr t.
Proof.
  intros I Hi. destruct (v_page _ I p) as [H1 H2]. assert (Ho : owns m (inr t) p) by exact Hi. split; [apply H1; eauto|].
  intros w. split; [intros Hw; apply H2; done|intros ->; done].
Qed.
Lemma owner_fresh m p : minv m -> p ∉ allocated m -> forall w, ~ owns m w p.
Proof. intros I Ha w Hw. apply Ha. apply (v_page _ I p). eauto. Qed.

Lemma migr_restart p : migr_ok (restart p) <-> migr_ok p.
Proof. destruct p; done. Qed.
Lemma inload_keep m m' : minv m -> (forall p, p ∈ allocated m -> pg_inload m' p = pg_inload m p) -> forall i p, m_radix m !! i = Some (Page p) -> pg_inload m' p = false.
Proof. intros I Hf i p Hi. rewrite Hf by apply (owner_radix m i p I Hi). apply (v_inload _ I i p Hi). Qed.

(** A thread moves outside of the tree: what it holds stays. *)
Lemma move_minv m t p : minv m -> asleep (at_pc m t) = false -> asleep p = false -> loading p = loading (at_pc m t) -> held p = held (at_pc m t) -> migr_ok p ->
  minv (set_pc t p m).
Proof.
  intros I Ha Ha' El Eh Hm. destruct (qinv_move _ _ _ t p (minv_qinv m I) Ha Ha' El) as [H1 H2 H3]. split; try done; [|apply (v_inload _ I)|].
  - apply (pages_change m _ [] (v_page _ I)); [|done|intros x Hx; inversion Hx]. intros [i|u] x _; [done|]. cbn.
    destruct (decide (u = t)) as [->|Hne]; [rewrite fn_lookup_insert, Eh; done|rewrite fn_lookup_insert_ne by done; done].
  - intros u. cbn. destruct (decide (u = t)) as [->|Hne]; [rewrite fn_lookup_insert; done|rewrite fn_lookup_insert_ne by done; apply (v_migr _ I)].
Qed.

Lemma sleep_minv m t i x : minv m -> at_pc m t = MGet i -> m_radix m !! i = Some (Dummy x) ->
  minv (set_pc t (MAsleep i) (set_waiters (Dummy x) (waiters m (Dummy x) ++ [t]) m)).
Proof.
  intros I Hat Hi. destruct (qinv_sleep _ _ _ t i x (minv_qinv m I) ltac:(rewrite Hat; done) ltac:(rewrite Hat; done) Hi) as [H1 H2 H3].
  split; try done; [|apply (v_inload _ I)|].
  - apply (pages_change m _ [] (v_page _ I)); [|done|intros y Hy; inversion Hy]. intros [j|u] y _; [done|]. cbn.
    destruct (decide (u = t)) as [->|Hne]; [rewrite fn_lookup_insert, Hat; done|rewrite fn_lookup_insert_ne by done; done].
  - intros u. cbn. destruct (decide (u = t)) as [->|Hne]; [rewrite fn_lookup_insert; done|rewrite fn_lookup_insert_ne by done; apply (v_migr _ I)].
Qed.

(** The dummy replaces nothing, or a page that the thread takes. *)
Lemma dummy_minv m t i p : minv m -> at_pc m t = MGet i -> (forall u, m_radix m !! i <> Some (Dummy u)) -> loading p = Some i ->
  (forall x, x ∈ held p <-> m_radix m !! i = Some (Page x)) -> migr_ok p -> minv (set_pc t p (put_dummy t i m)).
Proof.
  intros I Hat Hi Hp Hh Hm.
  destruct (qinv_start _ _ _ t i p (minv_qinv m I) ltac:(rewrite Hat; done) ltac:(rewrite Hat; done) Hi Hp) as [H1 H2 H3].
  assert (Ho : forall w x, owns (set_pc t p (put_dummy t i m)) w x <-> match w with inl j => j <> i /\ m_radix m !! j = Some (Page x)
    | inr u => if decide (u = t) then m_radix m !! i = Some (Page x) else x ∈ held (at_pc m u) end).
  { intros [j|u] x; cbn.
    - destruct (decide (j = i)) as [->|Hj]; [rewrite lookup_insert_eq; split; [done|tauto]|rewrite lookup_insert_ne by done; tauto].
    - destruct (decide (u = t)) as [->|Hu]; [rewrite fn_lookup_insert; apply Hh|rewrite fn_lookup_insert_ne by done; done]. }
  split; try done.
  - assert (HX : forall x, m_radix m !! i = Some (Page x) -> page_ok (set_pc t p (put_dummy t i m)) x).
    { intros x Hx. destruct (owner_radix m i x I Hx) as [Ha Hw]. apply page_one with (inr t); [done|]. intros [j|u]; rewrite Ho.
      - split; [intros [Hj Hjx]; apply (Hw (inl j)) in Hjx; congruence|done].
      - destruct (decide (u = t)) as [->|Hu]; [done|]. split; [intros Hux; apply (Hw (inr u)) in Hux; done|congruence]. }
    apply (pages_change m _ (match m_radix m !! i with Some (Page x) => [x] | _ => [] end) (v_page _ I)); [|done|].
    + intros w x Hx. rewrite Ho. destruct w as [j|u]; cbn.
      * split; [tauto|]. intros Hj. split; [|done]. intros ->. rewrite Hj in Hx. set_solver.
      * destruct (decide (u = t)) as [->|Hu]; [|done]. rewrite Hat. cbn. split; [intros E; rewrite E in Hx; set_solver|intros E; inversion E].
    + intros x Hx. destruct (m_radix m !! i) as [[u|y]|] eqn:E; [inversion Hx| |inversion Hx]. apply list_elem_of_singleton in Hx as ->. apply HX. done.
  - intros j x. cbn. destruct (decide (j = i)) as [->|Hj]; [rewrite lookup_insert_eq; done|rewrite lookup_insert_ne by done; apply (v_inload _ I)].
  - intros u. cbn. destruct (decide (u = t)) as [->|Hne]; [rewrite fn_lookup_insert; exact Hm|rewrite fn_lookup_insert_ne by done; apply (v_migr _ I)].
Qed.

Lemma set_migrate_minv m p b : minv m -> minv (set_migrate p b m).
Proof. intros [H1 H2 H3 H4 H5 H6]. split; done. Qed.

(** The queue of a dummy that is in no tree *)
Lemma unused_minv m t : minv m -> loading (at_pc m t) = None -> minv (set_waiters (Dummy t) [] m).
Proof.
  intros [H1 H2 H3 H4 H5 H6] Hl. split; try done; cbn.
  - intros x u. destruct (decide (x = t)) as [->|Hx]; [rewrite fn_lookup_insert; intros H; inversion H|rewrite fn_lookup_insert_ne by congruence; apply H2].
  - intros u i Hu. destruct (H3 u i Hu) as (x & E1 & E2). exists x. split; [done|]. rewrite fn_lookup_insert_ne by congruence. done.
Qed.

Lemma get_minv m t i err : minv m -> at_pc m t = MGet i -> minv (spec_get t i err m).
Proof.
  intros I Hat. unfold spec_get. destruct (m_radix m !! i) as [[u|p]|] eqn:E.
  - apply sleep_minv; done.
  - rewrite (v_inload _ I i p E). destruct (pg_migrate m p); [|apply move_minv; rewrite ?Hat; done].
    apply move_minv; [apply set_migrate_minv; done|..]; cbn; rewrite ?Hat; done.
  - destruct (negb (err =? 0)).
    + set (m' := set_waiters (Dummy t) [] m). assert (Ed : del_item i m' = m') by (unfold del_item; cbn; rewrite delete_id by done; done). rewrite Ed.
      apply move_minv; [apply unused_minv; [done|rewrite Hat; done]|..]; cbn; rewrite ?Hat; done.
    + apply dummy_minv; try done; [intros u; rewrite E; done|]. intros x. rewrite E. cbn. split; [intros H; inversion H|done].
Qed.

Lemma qinv_ext radix pc pc' q : (forall u, pc' u = pc u) -> qinv radix pc q -> qinv radix pc' q.
Proof.
  intros E [H1 H2 H3]. split.
  - intros i t. rewrite E. apply H1.
  - intros t u Hu. destruct (H2 t u Hu) as (i & E1 & E2). exists i. rewrite !E. done.
  - intros u i Hu. rewrite E in Hu. destruct (H3 u i Hu) as (t & E1 & E2). exists t. rewrite E. done.
Qed.

(** A thread that loads an index gets a new page. *)
Lemma take_minv m m' t x p : minv m -> loading (at_pc m t) <> None -> x ∉ allocated m -> loading p = loading (at_pc m t) -> (forall y, y ∈ held p <-> y ∈ held (at_pc m t) \/ y = x) ->
  m_radix m' = m_radix m -> waiters m' = waiters m -> at_pc m' = <[t := p]> (at_pc m) -> allocated m' = {[x]} ∪ allocated m ->
  (forall y, y ∈ allocated m -> pg_inload m' y = pg_inload m y) -> migr_ok p -> minv m'.
Proof.
  intros I Hl Hx El Hh Er Ew Ea Eal Hf Hm.
  destruct (qinv_move _ _ _ t p (minv_qinv m I) ltac:(destruct (at_pc m t); done) ltac:(destruct p; [done..|cbn in El; congruence|done|done|done]) El) as [H1 H2 H3].
  split; rewrite ?Er, ?Ew, ?Ea; try done.
  - assert (Ho : forall w y, owns m' w y <-> owns m w y \/ (w = inr t /\ y = x)).
    { intros [j|u] y; cbn; rewrite ?Er, ?Ea; [split; [tauto|intros [H|[H _]]; done]|]. destruct (decide (u = t)) as [->|Hu].
      - rewrite fn_lookup_insert, Hh. split; [intros [H|H]; [left; done|right; done]|intros [H|[_ H]]; [left; done|right; done]].
      - rewrite fn_lookup_insert_ne by done. split; [tauto|intros [H|[[=] _]]; done]. }
    apply (pages_change m _ [x] (v_page _ I)).
    + intros w y Hy. rewrite Ho. split; [intros [H|[_ H]]; [done|set_solver]|tauto].
    + intros y Hy. rewrite Eal. set_solver.
    + intros y Hy. apply list_elem_of_singleton in Hy as ->. apply page_one with (inr t); [rewrite Eal; set_solver|]. intros w. rewrite Ho.
      split; [intros [H|[H _]]; [destruct (owner_fresh m x I Hx w H)|done]|tauto].
  - apply (inload_keep m m' I Hf).
  - intros u. destruct (decide (u = t)) as [->|Hu]; [rewrite fn_lookup_insert; done|rewrite fn_lookup_insert_ne by done; apply (v_migr _ I)].
Qed.

(** The end of a load: the thread gives its dummy up for the page [r], which it holds, or for none; its other pages are free. *)
Lemma stop_minv m m' t i p r : minv m -> loading (at_pc m t) = Some i -> loading p = None -> asleep p = false -> held p = [] ->
  (forall x, r = Some x -> x ∈ held (at_pc m t) /\ pg_inload m' x = false) ->
  m_radix m' = match r with Some x => <[i := Page x]> (m_radix m) | None => delete i (m_radix m) end ->
  (forall x, x ∈ allocated m' <-> x ∈ allocated m /\ (x ∈ held (at_pc m t) -> r = Some x)) ->
  (forall u, at_pc m' u = (<[t := p]> (fun u => if decide (u ∈ waiters m (Dummy t)) then restart (at_pc m u) else at_pc m u) : Z -> mpc) u) ->
  waiters m' = <[Dummy t := []]> (waiters m) ->
  (forall x, x ∉ held (at_pc m t) -> pg_inload m' x = pg_inload m x) -> minv m'.
Proof.
  intros I Hl Hp Ha Hh Hr Er Eal Ea Ew Hf.
  assert (Hi : m_radix m !! i = Some (Dummy t)) by (apply (v_dummy _ I); done).
  assert (Hrad : forall j y, m_radix m' !! j = Some y <-> (j <> i /\ m_radix m !! j = Some y) \/ (j = i /\ exists x, r = Some x /\ y = Page x)).
  { intros j y. rewrite Er. destruct r as [x|]; (destruct (decide (j = i)) as [->|Hj]; [rewrite ?lookup_insert_eq, ?lookup_delete_eq|rewrite ?lookup_insert_ne, ?lookup_delete_ne by done]); naive_solver. }
  assert (Hq : qinv (m_radix m') (at_pc m') (waiters m')).
  { apply (qinv_ext _ _ _ _ Ea). rewrite Ew. apply (qinv_stop _ _ _ _ t i p (minv_qinv m I) Hl Hp Ha). intros j x. rewrite Hrad. naive_solver. }
  assert (Hheld : forall u, held (at_pc m' u) = if decide (u = t) then [] else held (at_pc m u)).
  { intros u. rewrite Ea. destruct (decide (u = t)) as [->|Hu]; [rewrite fn_lookup_insert; done|]. rewrite fn_lookup_insert_ne by done.
    destruct (decide (u ∈ waiters m (Dummy t))); [apply held_restart|done]. }
  assert (Hmine : forall u x, u <> t -> x ∈ held (at_pc m u) -> x ∉ held (at_pc m t)).
  { intros u x Hu H1 H2. apply (proj2 (owner_held m t x I H2) (inr u)) in H1. congruence. }
  destruct Hq as [H1 H2 H3]. split; try done.
  - apply (pages_change m _ (held (at_pc m t)) (v_page _ I)).
    + intros [j|u] x Hx; cbn [owns].
      * rewrite Hrad. split; [|intros Hj; left; split; [intros ->; congruence|done]]. intros [[_ Hj]|(_ & y & Ey & [= ->])]; [done|]. destruct (Hr y Ey). done.
      * rewrite Hheld. destruct (decide (u = t)) as [->|Hu]; [|done]. split; [intros H; inversion H|done].
    + intros x Hx. rewrite Eal. naive_solver.
    + intros x Hx. destruct (owner_held m t x I Hx) as [Hal Hown]. destruct (decide (r = Some x)) as [Ex|Hne].
      * apply page_one with (inl i); [rewrite Eal; done|]. intros [j|u]; cbn [owns].
        -- rewrite Hrad. split; [intros [[_ Hj]|[-> _]]; [apply (Hown (inl j)) in Hj; done|done]|]. intros [= ->]. right. eauto.
        -- rewrite Hheld. destruct (decide (u = t)) as [->|Hu]; [split; [intros H; inversion H|done]|]. split; [intros H; apply (Hown (inr u)) in H; congruence|done].
      * apply page_none; [rewrite Eal; naive_solver|]. intros [j|u]; cbn [owns].
        -- rewrite Hrad. intros [[_ Hj]|(_ & y & Ey & [= ->])]; [apply (Hown (inl j)) in Hj; done|done].
        -- rewrite Hheld. destruct (decide (u = t)) as [->|Hu]; [intros H; inversion H|]. intros H. apply (Hown (inr u)) in H. congruence.
  - intros j x Hj. apply Hrad in Hj as [[Hne Hj]|(-> & y & Ey & [= ->])]; [|apply (Hr y Ey)]. rewrite Hf; [apply (v_inload _ I j x Hj)|].
    intros Hx. apply (proj2 (owner_held m t x I Hx) (inl j)) in Hj. done.
  - intros u. rewrite Ea. destruct (decide (u = t)) as [->|Hu]; [rewrite fn_lookup_insert; destruct p as [| | | |? [?|] ?| |? ?|? ? ? [?|]|]; done|]. rewrite fn_lookup_insert_ne by done.
    destruct (decide (u ∈ waiters m (Dummy t))); [apply migr_restart|]; apply (v_migr _ I).
Qed.

Lemma load_minv m t i answer : minv m -> at_pc m t = MLoad i -> fresh m (fst <$> answer) -> minv (load t i answer m).
Proof.
  intros I Hat Hf. destruct answer as [[p err]|]; cbn in Hf |- *; [|apply move_minv; rewrite ?Hat; done].
  apply (take_minv m _ t p (if err =? 0 then MCommit i p else MAbort i (Some p) err) I); rewrite ?Hat; try done; try (destruct (err =? 0); done).
  - intros y. destruct (err =? 0); cbn; set_solver.
  - intros y Hy. cbn. rewrite fn_lookup_insert_ne; [done|]. intros ->. done.
Qed.

(** The fields after [wakeup_all], for the proofs of the sections *)
Ltac woken it m :=
  let H := fresh "Hwake" in pose proof (wakeup_spec it m) as H; cbv zeta in H; cbn in H; destruct H as (Wa & _ & Wr & _ & Wi & Wal & Ww).

Lemma commit_minv m t i p : minv m -> at_pc m t = MCommit i p -> minv (spec_commit t i p m).
Proof.
  intros I Hat. unfold spec_commit. woken (Dummy t) (set_inload p false (set_item i (Page p) m)).
  apply (stop_minv m _ t i (MRet i (Some p) 0) (Some p) I); rewrite ?Hat; try done; cbn.
  - intros x [= <-]. split; [set_solver|]. rewrite Wi. apply fn_lookup_insert.
  - intros x. rewrite Wal, list_elem_of_singleton. naive_solver.
  - intros u. destruct (decide (u = t)) as [->|Hu]; [rewrite !fn_lookup_insert; done|rewrite !fn_lookup_insert_ne by done; apply Wa].
  - intros x Hx. rewrite Wi, fn_lookup_insert_ne; [done|set_solver].
Qed.

Lemma abort_minv m t i page err : minv m -> at_pc m t = MAbort i page err -> minv (spec_abort t i page err m).
Proof.
  intros I Hat. unfold spec_abort. woken (Dummy t) (del_item i m).
  apply (stop_minv m _ t i (MRet i None (if err =? 0 then ENOMEM else EIO)) None I); rewrite ?Hat; try done; destruct page as [p|]; cbn; try done.
  - intros x. rewrite Wal, elem_of_difference, elem_of_singleton, list_elem_of_singleton. naive_solver.
  - intros x. rewrite Wal. split; [intros H; split; [done|intros H'; inversion H']|tauto].
  - intros u. destruct (decide (u = t)) as [->|Hu]; [rewrite !fn_lookup_insert; done|rewrite !fn_lookup_insert_ne by done; apply Wa].
  - intros u. destruct (decide (u = t)) as [->|Hu]; [rewrite !fn_lookup_insert; done|rewrite !fn_lookup_insert_ne by done; apply Wa].
  - intros x _. rewrite Wi. done.
  - intros x _. rewrite Wi. done.
Qed.

Lemma remove_minv m i p : minv m -> m_radix m !! i = Some (Page p) -> minv (spec_remove i p m).
Proof.
  intros I Hi. destruct (owner_radix m i p I Hi) as [Ha Hown]. destruct I as [H1 H2 H3 H4 H5 H6]. split; try done; cbn.
  - intros j t. destruct (decide (j = i)) as [->|Hj]; [|rewrite lookup_delete_ne by done; apply H1]. rewrite lookup_delete_eq, <- H1, Hi. done.
  - apply (pages_change m _ [p] H4).
    + intros [j|u] x Hx; [|done]. cbn. destruct (decide (j = i)) as [->|Hj]; [rewrite lookup_delete_eq, Hi; split; [done|intros [= ->]; set_solver]|rewrite lookup_delete_ne by done; done].
    + intros x Hx. cbn. set_solver.
    + intros x Hx. apply list_elem_of_singleton in Hx as ->. apply page_none; [cbn; set_solver|]. intros [j|u]; cbn.
      * destruct (decide (j = i)) as [->|Hj]; [rewrite lookup_delete_eq; done|]. rewrite lookup_delete_ne by done. intros Hx. apply (Hown (inl j)) in Hx. congruence.
      * intros Hx. apply (Hown (inr u)) in Hx. done.
  - intros j x. destruct (decide (j = i)) as [->|Hj]; [rewrite lookup_delete_eq; done|rewrite lookup_delete_ne by done; apply H5].
Qed.

Lemma add_minv m i p : minv m -> p ∉ allocated m -> pg_inload m p = false -> m_radix m !! i = None -> minv (spec_add i p m).
Proof.
  intros I Ha Hf Hi. unfold spec_add. pose proof (owner_fresh m p I Ha) as Hown. destruct I as [H1 H2 H3 H4 H5 H6]. split; try done; cbn.
  - intros j t. destruct (decide (j = i)) as [->|Hj]; [|rewrite lookup_insert_ne by done; apply H1]. rewrite lookup_insert_eq, <- H1, Hi. done.
  - apply (pages_change m _ [p] H4).
    + intros [j|u] x Hx; [|done]. cbn. destruct (decide (j = i)) as [->|Hj]; [rewrite lookup_insert_eq, Hi; split; [intros [= ->]; set_solver|done]|rewrite lookup_insert_ne by done; done].
    + intros x Hx. cbn. set_solver.
    + intros x Hx. apply list_elem_of_singleton in Hx as ->. apply page_one with (inl i); [cbn; set_solver|]. intros [j|u]; cbn.
      * destruct (decide (j = i)) as [->|Hj]; [rewrite lookup_insert_eq; done|]. rewrite lookup_insert_ne by done. split; [intros Hx; destruct (Hown (inl j) Hx)|congruence].
      * split; [intros Hx; destruct (Hown (inr u) Hx)|done].
  - intros j x. destruct (decide (j = i)) as [->|Hj]; [rewrite lookup_insert_eq; intros [= ->]; done|rewrite lookup_insert_ne by done; apply H5].
Qed.

Lemma mstep_minv removal m m' : minv m -> mstep removal m m' -> minv m'.
Proof.
  intros I [t i Hat|t i err Hat|t i answer Hat Hf|t i p Hat|t i page err Hat|t i r e Hat|i p Ha Hf Hi|i p Hr Hi|p].
  - apply move_minv; rewrite ?Hat; done.
  - apply get_minv; done.
  - apply load_minv; done.
  - apply commit_minv; done.
  - apply abort_minv; done.
  - apply move_minv; rewrite ?Hat; done.
  - apply add_minv; done.
  - apply remove_minv; done.
  - apply set_migrate_minv. done.
Qed.
End Protocol.

(** ** Agreement *)

(** Without removals, a page stays in the tree, and what a call returns is there. *)
Definition ret_ok (m : mapper) (p : mpc) : Prop :=
  match p with MRet i (Some x) _ => m_radix m !! i = Some (Page x) | _ => True end.
Record agreed (m : mapper) : Prop := { ag_inv : minv m; ag_ret : forall t, ret_ok m (at_pc m t) }.

Section Agreement.
Implicit Types (m : mapper).

Lemma ret_restart m p : ret_ok m (restart p) <-> ret_ok m p.
Proof. destruct p; done. Qed.

Lemma ret_keep m m' p : (forall i x, m_radix m !! i = Some (Page x) -> m_radix m' !! i = Some (Page x)) -> ret_ok m p -> ret_ok m' p.
Proof. intros Hk. destruct p as [| | | | | | | |i [x|] e]; cbn; auto. Qed.

(** The threads move to states that are right, and the pages of the tree stay. *)
Lemma agreed_step m m' t p : agreed m -> minv m' ->
  (forall i x, m_radix m !! i = Some (Page x) -> m_radix m' !! i = Some (Page x)) ->
  (forall u, u <> t -> at_pc m' u = at_pc m u \/ at_pc m' u = restart (at_pc m u)) -> at_pc m' t = p -> ret_ok m' p -> agreed m'.
Proof.
  intros [_ Hr] I' Hk Hu Et Hp. split; [done|]. intros u. destruct (decide (u = t)) as [->|Hne]; [rewrite Et; done|].
  pose proof (ret_keep m m' _ Hk (Hr u)) as H. destruct (Hu u Hne) as [->| ->]; [|apply ret_restart]; done.
Qed.

(** The other threads stay where they are. *)
Ltac others_stay := intros ? ?; left; cbn; apply fn_lookup_insert_ne; done.
Lemma same_pc t p m : at_pc (set_pc t p m) t = p.
Proof. cbn. apply fn_lookup_insert. Qed.

Lemma put_dummy_keeps m t i : m_radix m !! i = None -> forall j x, m_radix m !! j = Some (Page x) -> m_radix (put_dummy t i m) !! j = Some (Page x).
Proof. intros Hi j x Hj. cbn. rewrite lookup_insert_ne; [done|]. intros ->. congruence. Qed.

Lemma mstep_agreed m m' : agreed m -> mstep false m m' -> agreed m'.
Proof.
  intros A Hs. pose proof (mstep_minv false m m' (ag_inv _ A) Hs) as I'. pose proof (ag_ret _ A) as Hr. pose proof (ag_inv _ A) as I.
  destruct Hs as [t i Hat|t i err Hat|t i answer Hat Hf|t i p Hat|t i page err Hat|t i r e Hat|i p Ha Hf Hi|i p Hrm Hi|p]; try done.
  - apply (agreed_step m _ t (MGet i) A I'); try done; [others_stay|apply same_pc].
  - unfold spec_get in *. destruct (m_radix m !! i) as [[x|x]|] eqn:E.
    + apply (agreed_step m _ t (MAsleep i) A I'); try done; [others_stay|apply same_pc].
    + rewrite (v_inload _ I i x E) in *. destruct (pg_migrate m x); (apply (agreed_step m _ t (MRet i (Some x) 0) A I'); try done; [others_stay|apply same_pc]).
    + destruct (negb (err =? 0)).
      * apply (agreed_step m _ t (MRet i None (if err =? ENOMEM then err else EIO)) A I'); try done; [|others_stay|apply same_pc].
        intros j y Hj. cbn. rewrite lookup_delete_ne; [done|congruence].
      * apply (agreed_step m _ t (MLoad i) A I'); try done; [apply put_dummy_keeps; done|others_stay|apply same_pc].
  - destruct answer as [[p err]|]; cbn [load] in *.
    + apply (agreed_step m _ t (if err =? 0 then MCommit i p else MAbort i (Some p) err) A I'); try done; [others_stay|apply same_pc|destruct (err =? 0); done].
    + apply (agreed_step m _ t (MAbort i None 0) A I'); try done; [others_stay|apply same_pc].
  - assert (Hi : m_radix m !! i = Some (Dummy t)) by (apply (v_dummy _ I); rewrite Hat; done).
    unfold spec_commit in *. destruct (wakeup_spec (Dummy t) (set_inload p false (set_item i (Page p) m))) as (_ & _ & Wr & _).
    apply (agreed_step m _ t (MRet i (Some p) 0) A I'); [| |apply same_pc|cbn; rewrite Wr; apply lookup_insert_eq].
    + intros j x Hj. cbn. rewrite Wr. cbn. rewrite lookup_insert_ne; [done|congruence].
    + intros u Hu. cbn. rewrite fn_lookup_insert_ne by done. apply (woken_pc (Dummy t) (set_inload p false (set_item i (Page p) m))).
  - assert (Hi : m_radix m !! i = Some (Dummy t)) by (apply (v_dummy _ I); rewrite Hat; done).
    unfold spec_abort in *. destruct (wakeup_spec (Dummy t) (del_item i m)) as (_ & _ & Wr & _).
    apply (agreed_step m _ t (MRet i None (if err =? 0 then ENOMEM else EIO)) A I'); [| |apply same_pc|done].
    + intros j x Hj. destruct page; cbn; rewrite Wr; cbn; (rewrite lookup_delete_ne; [done|congruence]).
    + intros u Hu. destruct page; cbn; rewrite fn_lookup_insert_ne by done; apply (woken_pc (Dummy t) (del_item i m)).
  - apply (agreed_step m _ t MOut A I'); try done; [others_stay|apply same_pc].
  - split; [done|]. intros u. apply (ret_keep m); [|apply Hr].
    intros j x Hj. cbn. rewrite lookup_insert_ne; [done|congruence].
Qed.
End Agreement.

Lemma reach_minv node removal m : rtc (mstep removal) (spec_start node) m -> minv m.
Proof.
  intros Hs. pose proof (init_minv node) as I0. revert I0. induction Hs as [m|m1 m2 m3 Hs _ IH]; [done|]. intros I. apply IH. eapply mstep_minv; done.
Qed.
Lemma reach_agreed node m : rtc (mstep false) (spec_start node) m -> agreed m.
Proof.
  intros Hs. assert (I0 : agreed (spec_start node)) by (split; try done; apply init_minv). revert I0.
  induction Hs as [m|m1 m2 m3 Hs _ IH]; [done|]. intros I. apply IH. eapply mstep_agreed; done.
Qed.

(** What the protocol guarantees in any reachable state *)
Lemma spec_page_cache node removal m : rtc (mstep removal) (spec_start node) m ->
  (forall t u i, loading (at_pc m t) = Some i -> loading (at_pc m u) = Some i -> t = u) /\
  (forall u i, at_pc m u = MAsleep i -> exists t, loading (at_pc m t) = Some i /\
     (forall p, at_pc m t = MCommit i p -> at_pc (spec_commit t i p m) u = MGet i) /\
     (forall p e, at_pc m t = MAbort i p e -> at_pc (spec_abort t i p e m) u = MGet i)) /\
  (forall p, p ∈ allocated m <-> (exists i, m_radix m !! i = Some (Page p)) \/ (exists t, p ∈ held (at_pc m t))) /\
  (forall i j p, m_radix m !! i = Some (Page p) -> m_radix m !! j = Some (Page p) -> i = j) /\
  (forall i t p, m_radix m !! i = Some (Page p) -> pg_inload m p = false /\ p ∉ held (at_pc m t)) /\
  (removal = false -> forall t u i p q e e', at_pc m t = MRet i (Some p) e -> at_pc m u = MRet i (Some q) e' -> p = q).
Proof.
  intros Hs. pose proof (reach_minv node removal m Hs) as I. split_and!.
  - intros t u i Ht Hu. apply (v_dummy _ I) in Ht, Hu. congruence.
  - intros u i Hu. destruct (v_sleep _ I u i Hu) as (t & Ht & Hw). exists t. split; [done|].
    assert (Hut : u <> t) by (intros ->; rewrite Hu in Ht; done). split.
    + intros p _. unfold spec_commit. destruct (wakeup_spec (Dummy t) (set_inload p false (set_item i (Page p) m))) as [Wa _].
      cbn. rewrite fn_lookup_insert_ne by done. rewrite (Wa u). cbn. rewrite decide_True, Hu by done. done.
    + intros p e _. unfold spec_abort. destruct (wakeup_spec (Dummy t) (del_item i m)) as [Wa _].
      destruct p; cbn; rewrite fn_lookup_insert_ne by done; rewrite (Wa u); cbn; rewrite decide_True, Hu by done; done.
  - intros p. destruct (v_page _ I p) as [-> _]. split; [intros [[i|t] H]; [left|right]; eauto|intros [[i H]|[t H]]; [exists (inl i)|exists (inr t)]; done].
  - intros i j p Hi Hj. destruct (v_page _ I p) as [_ H]. specialize (H (inl i) (inl j) Hi Hj). congruence.
  - intros i t p Hi. split; [apply (v_inload _ I i p Hi)|]. intros Ht. destruct (v_page _ I p) as [_ H]. specialize (H (inl i) (inr t) Hi Ht). done.
  - intros -> t u i p q e e' Ht Hu. pose proof (reach_agreed node m Hs) as A. pose proof (ag_ret _ A t) as H1. pose proof (ag_ret _ A u) as H2.
    rewrite Ht in H1. rewrite Hu in H2. cbn in H1, H2. congruence.
Qed.
