(* ===== verification/MapperTree.v ===== *)
(** * MapperTree: the cache of the pages of a file over its radix tree, [kernel/mm/mapper.c]

    The sections of [mapper_get_page] under [m_lock], and the other operations of a mapper, with the radix tree of [Radix] as the code calls it: look-up of
    the slot, insertion, stores through the slot that was found, and [radix_tree_delete] with its faults.  They implement the protocol of [Mapper] for the
    mappers of files, as long as each deletion takes away just its item. *)

From S2P Require Import Prelude Radix RadixLaws Mapper.

(** ** State *)

(** The tree in its memory, and the variable [info] of each thread *)
Record tree_s := Tree { t_mem : mem; t_root : radix_s; t_info : Z -> radix_item_info_s }.
Notation mapper_s := (mapper_of tree_s).

(** The addresses that the tree holds: of a dummy, on the stack of a thread, or of a page; [NULL] is no page. *)
Definition addr (it : item) : Z := match it with Dummy t => 2 * t + 1 | Page p => 2 * p end.
Definition item_at (a : Z) : item := if Z.odd a then Dummy (a / 2) else Page (a / 2).

Definition put_tree (mm : mem) (r : radix_s) (m : mapper_s) : mapper_s := set_radix (Tree mm r (t_info (m_radix m))) m.
Definition save_info (t : Z) (info : radix_item_info_s) (m : mapper_s) : mapper_s :=
  set_radix (Tree (t_mem (m_radix m)) (t_root (m_radix m)) (<[t := info]> (t_info (m_radix m)))) m.

(** ** Operations *)

Definition mapper_find_page (index : Z) (m : mapper_s) : option Z := radix_tree_lookup (t_mem (m_radix m)) (t_root (m_radix m)) index.

(** [radix_tree_delete] in [__mapper_remove_page]; [d0] is what its uninitialised variable holds. *)
Definition __mapper_remove_page (d0 : bool) (index : Z) (m : mapper_s) : option mapper_s :=
  '(_, mm, r) ← radix_tree_delete d0 (t_mem (m_radix m)) (t_root (m_radix m)) index; Some (put_tree mm r m).

Definition mapper_remove_page (d0 : bool) (index p : Z) (m : mapper_s) : option mapper_s :=
  m ← __mapper_remove_page d0 index m; Some (free_page p m).

Definition mapper_add_page (index p : Z) (m : mapper_s) : option (Z * mapper_s) :=
  '(err, mm, r) ← radix_tree_insert (t_mem (m_radix m)) (t_root (m_radix m)) index (addr (Page p)); Some (err, put_tree mm r m).

(** [radix_item_info_apply] with the operation SET *)
Definition info_set (info : radix_item_info_s) (it : item) (m : mapper_s) : option mapper_s :=
  '(_, mm, r) ← radix_item_info_apply false (t_mem (m_radix m)) (t_root (m_radix m)) info RADIX_INFO_SET (addr it); Some (put_tree mm r m).

(** The first section of [mapper_get_page].  [remote p]: the page is not of the cluster of the thread *)
Definition get_section (t index : Z) (remote : Z -> bool) (d0 : bool) (m : mapper_s) : option mapper_s :=
  let tr := m_radix m in
  found ← radix_item_info_lookup (t_mem tr) (t_root tr) index;
  let item := match found with Some info => i_item info | None => 0 end in
  if item =? 0 then
    '(err, mm, r) ← match found with
                    | Some info => radix_item_info_apply d0 (t_mem tr) (t_root tr) info RADIX_INFO_INSERT (addr (Dummy t))
                    | None => radix_tree_insert (t_mem tr) (t_root tr) index (addr (Dummy t))
                    end;
    let m := put_tree mm r (set_waiters (Dummy t) [] m) in
    if negb (err =? 0) then
      m ← __mapper_remove_page d0 index m;
      Some (set_pc t (MRet index None (if err =? ENOMEM then err else EIO)) m)
    else Some (set_pc t (MLoad index) m)
  else
    match item_at item with
    | Dummy u => Some (set_pc t (MAsleep index) (set_waiters (Dummy u) (waiters m (Dummy u) ++ [t]) m))
    | Page p =>
        if pg_inload m p then Some (set_pc t (MAsleep index) (set_waiters (Page p) (waiters m (Page p) ++ [t]) m))
        else if pg_migrate m p then
          let m := set_migrate p false m in
          if negb (m_node m) && remote p then
            info ← found;
            m ← info_set info (Dummy t) (set_waiters (Dummy t) [] m);
            Some (set_pc t (MMigrate index p) (save_info t info m))
          else Some (set_pc t (MRet index (Some p) 0) m)
        else Some (set_pc t (MRet index (Some p) 0) m)
    end.

(** The section after the load, whose assertions fail with [None] *)
Definition commit_section (t index p : Z) (m : mapper_s) : option mapper_s :=
  let tr := m_radix m in
  found ← radix_item_info_lookup (t_mem tr) (t_root tr) index;
  info ← found;
  if negb (i_item info =? addr (Dummy t)) then None
  else
    m ← info_set info (Page p) m;
    Some (set_pc t (MRet index (Some p) 0) (wakeup_all (Dummy t) (set_inload p false m))).

(** The section after a failure, and the release of the page *)
Definition abort_section (t index : Z) (page : option Z) (err : Z) (d0 : bool) (m : mapper_s) : option mapper_s :=
  m ← __mapper_remove_page d0 index m;
  let m := wakeup_all (Dummy t) m in
  let m := match page with Some p => free_page p m | None => m end in
  Some (set_pc t (MRet index None (if err =? 0 then ENOMEM else EIO)) m).

(** The section after the migration, with the slot that the first section found *)
Definition migrated_section (t index p err : Z) (new : option Z) (m : mapper_s) : option mapper_s :=
  let info := t_info (m_radix m) t in
  m ← match new with
      | None => info_set info (Page p) m
      | Some q => if err =? 0 then info_set info (Page q) m else Some m
      end;
  let m := wakeup_all (Dummy t) m in
  Some match new with
       | None => set_pc t (MRet index (Some p) 0) m
       | Some q => if negb (err =? 0) then set_pc t (MRet index (Some p) 0) (free_page q m) else set_pc t (MRet index (Some q) 0) (free_page p m)
       end.

(** ** Steps *)

(** A deletion that takes away just its item: the other look-ups stay, and no node that was freed is left in the tree.  [radix_shrink_loses_leaf] and
    [radix_delete_uninitialised] have deletions that do more. *)
Definition exact_delete (d0 : bool) (index : Z) (tr : tree_s) : Prop := exists item mm r, radix_tree_delete d0 (t_mem tr) (t_root tr) index = Some (item, mm, r) /\
  (exists lv up, wf mm r lv up /\ forall a, a ∈ freed mm -> lv !! a = None) /\
  forall k, 0 <= k < 2 ^ 32 -> radix_tree_lookup mm r k = if k =? index then Some 0 else radix_tree_lookup (t_mem tr) (t_root tr) k.

(** The steps of the threads.  The allocator gives pages that are not allocated, and never [NULL].  The page of [mapper_add_page] does not have the flag [PG_INLOAD], which
    pages keep from one allocation to the next ([mapper_stale_inload]); its caller frees it on an error.  The migration has any answer. *)
Inductive cstep (removal : bool) (m : mapper_s) : mapper_s -> Prop :=
| cstep_call t index : at_pc m t = MOut -> 0 <= index < 2 ^ 32 -> cstep removal m (set_pc t (MGet index) m)
| cstep_get t index remote d0 m' : at_pc m t = MGet index -> get_section t index remote d0 m = Some m' -> cstep removal m m'
| cstep_load t index answer : at_pc m t = MLoad index -> fresh m (fst <$> answer) -> fst <$> answer <> Some 0 -> cstep removal m (load t index answer m)
| cstep_commit t index p m' : at_pc m t = MCommit index p -> commit_section t index p m = Some m' -> cstep removal m m'
| cstep_abort t index page err d0 m' : at_pc m t = MAbort index page err -> exact_delete d0 index (m_radix m) ->
    abort_section t index page err d0 m = Some m' -> cstep removal m m'
| cstep_migrate t index p err new : at_pc m t = MMigrate index p -> fresh m new -> new <> Some 0 ->
    cstep removal m (set_pc t (MMigrated index p err new) (match new with Some q => take_page q m | None => m end))
| cstep_migrated t index p err new m' : at_pc m t = MMigrated index p err new -> migrated_section t index p err new m = Some m' -> cstep removal m m'
| cstep_return t index r errno : at_pc m t = MRet index r errno -> cstep removal m (set_pc t MOut m)
| cstep_add index p err m' : 0 <= index < 2 ^ 32 -> p <> 0 -> p ∉ allocated m -> pg_inload m p = false ->
    mapper_add_page index p (take_page p m) = Some (err, m') -> cstep removal m (if err =? 0 then m' else free_page p m')
| cstep_remove index p d0 m' : removal = true -> 0 <= index < 2 ^ 32 -> p <> 0 -> mapper_find_page index m = Some (addr (Page p)) -> exact_delete d0 index (m_radix m) ->
    mapper_remove_page d0 index p m = Some m' -> cstep removal m m'
| cstep_mark p : cstep removal m (set_migrate p true m).

(** [mapper_ctor] and [mapper_init], with the nodes [s] that the allocator has for the tree *)
Definition tree_start (s : list Z) : tree_s := Tree (Mem ∅ s []) radix_tree_init (fun _ => Info 0 0 0 0 0).

(** ** The implementation of the protocol *)

Lemma item_at_addr it : item_at (addr it) = it.
Proof.
  destruct it as [t|p]; unfold item_at, addr; [rewrite Z.add_comm, Z.odd_add_mul_2 by done|rewrite Z.odd_mul by done]; cbn; f_equal; [|rewrite Z.mul_comm; apply Z.div_mul; done].
  rewrite Z.mul_comm, Z.div_add by done. done.
Qed.
Lemma addr_inj it it' : addr it = addr it' -> it = it'.
Proof. intros E. rewrite <- (item_at_addr it), E. apply item_at_addr. Qed.

Definition pc_index (p : mpc) : option Z :=
  match p with
  | MOut => None
  | MGet i | MLoad i | MCommit i _ | MAbort i _ _ | MAsleep i | MMigrate i _ | MMigrated i _ _ _ | MRet i _ _ => Some i
  end.
Definition in_range (i : Z) : Prop := 0 <= i < 2 ^ 32.

Definition indexes {T} (m : mapper_of T) : Prop := forall t i, pc_index (at_pc m t) = Some i -> in_range i.
(** The tree of the code holds the items of a finite map, with which the state is one of the protocol. *)
Record holds (m : mapper_s) (M : gmap Z item) : Prop := {
  h_node : m_node m = true;
  h_tree : tree (t_mem (m_radix m)) (t_root (m_radix m)) (addr <$> M);
  h_key : forall i it, M !! i = Some it -> in_range i /\ addr it <> 0;
  h_null : 0 ∉ allocated m;
  h_pc : indexes m;
}.
Definition sim (removal : bool) (m : mapper_s) (M : gmap Z item) : Prop := rtc (mstep removal) (spec_start true) (set_radix M m) /\ holds m M.

Section Simulation.
Context (removal : bool).
Implicit Types (m : mapper_s) (M : gmap Z item).

Lemma holds_lookup m M i : holds m M -> in_range i -> mapper_find_page i m = Some (match M !! i with Some it => addr it | None => 0 end).
Proof. intros H Hi. unfold mapper_find_page. rewrite (proj2 (h_tree _ _ H) i Hi), lookup_fmap. destruct (M !! i); done. Qed.

(** Where the item of a look-up is a given one *)
Lemma holds_item m M i it : holds m M -> in_range i -> addr it <> 0 -> mapper_find_page i m = Some (addr it) <-> M !! i = Some it.
Proof.
  intros H Hi Ha. rewrite (holds_lookup m M i H Hi). destruct (M !! i) as [it'|]; [|split; [intros [= E]; lia|done]].
  split; [intros [= E]; f_equal; apply addr_inj; done|intros [= ->]; done].
Qed.

Lemma sim_minv m M : sim removal m M -> minv (set_radix M m).
Proof. intros [H _]. apply (reach_minv true removal). done. Qed.

Lemma step_sim m m' M M' : sim removal m M -> mstep removal (set_radix M m) (set_radix M' m') -> holds m' M' -> sim removal m' M'.
Proof. intros [Hr _] Hs Hh. split; [eapply rtc_r; done|done]. Qed.

Lemma pc_index_restart p : pc_index (restart p) = pc_index p.
Proof. destruct p; done. Qed.

Lemma indexes_set {T} (m : mapper_of T) t p : indexes m -> (forall i, pc_index p = Some i -> in_range i) -> indexes (set_pc t p m).
Proof. intros H Hp u i. cbn. destruct (decide (u = t)) as [->|Hu]; [rewrite fn_lookup_insert; apply Hp|rewrite fn_lookup_insert_ne by done; apply H]. Qed.
Lemma indexes_wakeup {T} it (m : mapper_of T) : indexes m -> indexes (wakeup_all it m).
Proof. intros H u i. destruct (woken_pc it m u) as [->| ->]; [|rewrite pc_index_restart]; apply H. Qed.

(** A state with a tree that differs in one item *)
Lemma holds_next m m' M M' : holds m M -> m_node m' = true -> tree (t_mem (m_radix m')) (t_root (m_radix m')) (addr <$> M') ->
  (forall i it, M' !! i = Some it -> M !! i = Some it \/ (in_range i /\ addr it <> 0)) -> 0 ∉ allocated m' -> indexes m' -> holds m' M'.
Proof. intros [_ _ Hk _ _] Hn Ht Hk' H0 Hp. split; try done. intros i it Hi. destruct (Hk' i it Hi) as [H|H]; [apply Hk; done|done]. Qed.

Lemma insert_key M i it j x : <[i := it]> M !! j = Some x -> M !! j = Some x \/ (j = i /\ x = it).
Proof. destruct (decide (j = i)) as [->|Hj]; [rewrite lookup_insert_eq; intros [= <-]; auto|rewrite lookup_insert_ne by done; auto]. Qed.

(** The first section always ends, and is the one of the protocol. *)
Lemma get_sim m M t i remote d0 : sim removal m M -> at_pc m t = MGet i -> exists m' M', get_section t i remote d0 m = Some m' /\ sim removal m' M'.
Proof.
  intros S Hat. pose proof S as [_ H]. assert (Hi : in_range i) by (apply (h_pc _ _ H t); rewrite Hat; done).
  assert (Hget : forall err, mstep removal (set_radix M m) (spec_get t i err (set_radix M m))) by (intros err; apply mstep_get; done).
  destruct (info_tree _ _ _ i (h_tree _ _ H) Hi) as (o & Ho & Hm). unfold get_section. rewrite Ho. cbn [mbind option_bind]. rewrite lookup_fmap in Hm.
  unfold spec_get in Hget. change (m_radix (set_radix M m)) with M in Hget.
  assert (Hpc : forall p, pc_index p = Some i -> forall j, pc_index p = Some j -> in_range j) by congruence.
  destruct (M !! i) as [it|] eqn:E; cbn in Hm.
  - destruct (h_key _ _ H i it E) as [_ Ha]. destruct o as [info|]; [|done]. destruct Hm as [-> _]. rewrite (proj2 (Z.eqb_neq (addr it) 0)), item_at_addr by done. specialize (Hget 0).
    assert (Hk : forall m', m_node m' = true -> m_radix m' = m_radix m -> allocated m' = allocated m -> at_pc m' = at_pc m -> forall p, pc_index p = Some i -> holds (set_pc t p m') M).
    { intros m' H1 H2 H3 H4 p Hp. apply (holds_next m _ M M H); cbn; rewrite ?H2, ?H3; [done|apply (h_tree _ _ H)|auto|apply (h_null _ _ H)|].
      apply indexes_set; [intros u j; rewrite H4; apply (h_pc _ _ H)|apply Hpc; done]. }
    pose proof (h_node _ _ H) as Hn. destruct it as [u|p]; [|change (pg_inload (set_radix M m) p) with (pg_inload m p) in Hget; change (pg_migrate (set_radix M m) p) with (pg_migrate m p) in Hget; destruct (pg_inload m p)].
    + eexists _, M. split; [done|]. apply (step_sim m _ M M S); [exact Hget|]. apply Hk; done.
    + eexists _, M. split; [done|]. apply (step_sim m _ M M S); [exact Hget|]. apply Hk; done.
    + destruct (pg_migrate m p); cbn [m_node set_migrate]; rewrite ?Hn; cbn [negb andb]; (eexists _, M; split; [done|]; apply (step_sim m _ M M S); [exact Hget|]; apply Hk; done).
  - assert (Hd : addr (Dummy t) <> 0) by (cbn; lia).
    assert (Hload : forall mm r, tree mm r (<[i := addr (Dummy t)]> (addr <$> M)) -> sim removal (set_pc t (MLoad i) (put_tree mm r (set_waiters (Dummy t) [] m))) (<[i := Dummy t]> M)).
    { intros mm r Ht. apply (step_sim m _ M _ S); [exact (Hget 0)|]. apply (holds_next m _ M _ H); cbn; [apply (h_node _ _ H)|rewrite fmap_insert; done| |apply (h_null _ _ H)|apply indexes_set; [apply (h_pc _ _ H)|apply Hpc; done]].
      intros j x Hx. apply insert_key in Hx as [Hx|[-> ->]]; auto. }
    destruct o as [info|].
    + destruct Hm as [-> _]. cbn [Z.eqb].
      destruct (apply_tree d0 _ _ _ i info RADIX_INFO_INSERT (addr (Dummy t)) (h_tree _ _ H) Hi Ho (or_intror eq_refl)) as (mm & -> & Ht). cbn. eexists _, _. split; [done|]. apply Hload. done.
    + cbn [Z.eqb].
      destruct (insert_tree _ _ _ i (addr (Dummy t)) (h_tree _ _ H) Hi Hd) as (err & mm & r & -> & Hor); [intros k v; rewrite lookup_fmap_Some; intros (x & <- & Hx); apply (h_key _ _ H k x Hx)|].
      cbn [mbind option_bind]. rewrite lookup_fmap, E in Hor. destruct Hor as [(-> & _ & Ht)|[(_ & [? [=]] & _)|(-> & _ & Ht)]]; [eexists _, _; split; [done|]; apply Hload; done|].
      cbn [negb Z.eqb]. unfold __mapper_remove_page. cbn [put_tree set_radix m_radix t_mem t_root set_waiters].
      change (negb (- ENOMEM =? 0)) with true. cbn iota. rewrite (delete_absent d0 mm r _ i Ht Hi) by (rewrite lookup_fmap, E; done). cbn [mbind option_bind].
      eexists _, (delete i M). split; [done|]. apply (step_sim m _ M _ S); [exact (Hget (- ENOMEM))|]. rewrite delete_id by done.
      apply (holds_next m _ M M H); cbn; [apply (h_node _ _ H)|done|auto|apply (h_null _ _ H)|apply indexes_set; [apply (h_pc _ _ H)|apply Hpc; done]].
Qed.

Lemma load_sim m M t i answer : sim removal m M -> at_pc m t = MLoad i -> fresh m (fst <$> answer) -> fst <$> answer <> Some 0 -> sim removal (load t i answer m) M.
Proof.
  intros S Hat Hf H0. pose proof S as [_ H]. assert (Hi : in_range i) by (apply (h_pc _ _ H t); rewrite Hat; done). apply (step_sim m _ M M S).
  - replace (set_radix M (load t i answer m)) with (load t i answer (set_radix M m)) by (destruct answer as [[p err]|]; done). apply mstep_load; done.
  - destruct answer as [[p err]|]; cbn in H0 |- *; (apply (holds_next m _ M M H); cbn; [apply (h_node _ _ H)|apply (h_tree _ _ H)|auto| |apply indexes_set; [apply (h_pc _ _ H)|]]).
    + pose proof (h_null _ _ H). intros Hin. apply elem_of_union in Hin as [Hin%elem_of_singleton|Hin]; [congruence|done].
    + destruct (err =? 0); intros j [= <-]; done.
    + apply (h_null _ _ H).
    + intros j [= <-]. done.
Qed.

Lemma loading_item m M t i : sim removal m M -> loading (at_pc m t) = Some i -> in_range i /\ M !! i = Some (Dummy t).
Proof.
  intros S Hl. assert (E : M !! i = Some (Dummy t)) by (apply (v_dummy _ (sim_minv m M S)); done). split; [|done]. apply (h_key _ _ (proj2 S) i _ E).
Qed.

(** The assertions of the second section hold. *)
Lemma commit_sim m M t i p : sim removal m M -> at_pc m t = MCommit i p -> exists m', commit_section t i p m = Some m' /\ sim removal m' (<[i := Page p]> M).
Proof.
  intros S Hat. pose proof S as [_ H]. destruct (loading_item m M t i S) as [Hi E]; [rewrite Hat; done|].
  assert (Hp : p <> 0) by (intros ->; apply (h_null _ _ H), (owner_held _ t 0 (sim_minv m M S)); cbn; rewrite Hat; set_solver).
  destruct (info_tree _ _ _ i (h_tree _ _ H) Hi) as (o & Ho & Hm). rewrite lookup_fmap, E in Hm. unfold commit_section, info_set. rewrite Ho. cbn [mbind option_bind].
  destruct o as [info|]; [|cbn in Hm; lia]. cbn [mbind option_bind]. destruct Hm as [-> _].
  destruct (apply_tree false _ _ _ i info RADIX_INFO_SET (addr (Page p)) (h_tree _ _ H) Hi Ho (or_introl eq_refl)) as (mm & -> & Ht). rewrite <- fmap_insert in Ht.
  change (default 0 (addr <$> Some (Dummy t))) with (addr (Dummy t)). rewrite Z.eqb_refl. cbn [negb mbind option_bind]. eexists. split; [done|]. apply (step_sim m _ M _ S).
  - replace (set_radix (<[i := Page p]> M) _) with (spec_commit t i p (set_radix M m)); [apply mstep_commit; done|]. unfold spec_commit, set_item, put_tree. cbn [m_radix set_radix].
    change (set_inload p false (set_radix (<[i := Page p]> M) (set_radix M m))) with (set_radix (<[i := Page p]> M) (set_inload p false m)).
    change (set_inload p false (set_radix ?tr m)) with (set_radix tr (set_inload p false m)). rewrite !wakeup_set_radix. done.
  - destruct (wakeup_spec (Dummy t) (set_inload p false (put_tree mm (t_root (m_radix m)) m))) as (_ & Wn & Wr & _ & _ & Wal & _).
    apply (holds_next m _ M _ H); cbn; rewrite ?Wn, ?Wr, ?Wal; [apply (h_node _ _ H)|done| |apply (h_null _ _ H)|].
    + intros j x Hx. apply insert_key in Hx as [Hx|[-> ->]]; [auto|]. right. split; [done|]. cbn. lia.
    + apply indexes_set; [apply indexes_wakeup, (h_pc _ _ H)|intros j [= <-]; done].
Qed.

Lemma delete_sim m M d0 i : holds m M -> in_range i -> exact_delete d0 i (m_radix m) ->
  exists mm r, __mapper_remove_page d0 i m = Some (put_tree mm r m) /\ tree mm r (addr <$> delete i M).
Proof.
  intros H Hi (item & mm & r & E & (lv & up & Hwf & _) & Hl). unfold __mapper_remove_page. rewrite E. cbn. exists mm, r. split; [done|]. split; [eauto|].
  intros k Hk. rewrite Hl, fmap_delete by done. destruct (Z.eqb_spec k i) as [->|Hne]; [rewrite lookup_delete_eq; done|]. rewrite lookup_delete_ne by done.
  apply (proj2 (h_tree _ _ H) k Hk).
Qed.

Lemma delete_key M i j x : delete i M !! j = Some x -> M !! j = Some x.
Proof. destruct (decide (j = i)) as [->|Hj]; [rewrite lookup_delete_eq; done|rewrite lookup_delete_ne by done; done]. Qed.

Lemma abort_sim m M t i page err d0 : sim removal m M -> at_pc m t = MAbort i page err -> exact_delete d0 i (m_radix m) ->
  exists m', abort_section t i page err d0 m = Some m' /\ sim removal m' (delete i M).
Proof.
  intros S Hat Hd. pose proof S as [_ H]. destruct (loading_item m M t i S) as [Hi E]; [rewrite Hat; done|].
  destruct (delete_sim m M d0 i H Hi Hd) as (mm & r & Er & Ht). unfold abort_section. rewrite Er. cbn [mbind option_bind]. eexists. split; [done|].
  destruct (wakeup_spec (Dummy t) (put_tree mm r m)) as (_ & Wn & Wr & _ & _ & Wal & _). apply (step_sim m _ M _ S).
  - replace (set_radix (delete i M) _) with (spec_abort t i page err (set_radix M m)); [apply mstep_abort; done|]. unfold spec_abort, del_item, put_tree. cbn [m_radix set_radix].
    change (set_radix (delete i M) (set_radix M m)) with (set_radix (delete i M) m). rewrite !wakeup_set_radix. destruct page; done.
  - apply (holds_next m _ M _ H); destruct page; cbn; rewrite ?Wn, ?Wr, ?Wal; try done; try apply (h_node _ _ H); try (intros j x Hx; left; eapply delete_key; done).
    + pose proof (h_null _ _ H). set_solver.
    + apply (h_null _ _ H).
    + apply indexes_set; [apply (indexes_wakeup (Dummy t) (put_tree mm r m)), (h_pc _ _ H)|intros j [= <-]; done].
    + apply indexes_set; [apply (indexes_wakeup (Dummy t) (put_tree mm r m)), (h_pc _ _ H)|intros j [= <-]; done].
Qed.

Lemma remove_sim m M d0 i p m' : sim removal m M -> removal = true -> in_range i -> p <> 0 -> mapper_find_page i m = Some (addr (Page p)) -> exact_delete d0 i (m_radix m) ->
  mapper_remove_page d0 i p m = Some m' -> sim removal m' (delete i M).
Proof.
  intros S Hrm Hi Hp Hf Hd Hm. pose proof S as [_ H]. apply (holds_item m M i (Page p) H Hi) in Hf; [|cbn; lia].
  destruct (delete_sim m M d0 i H Hi Hd) as (mm & r & Er & Ht). unfold mapper_remove_page in Hm. rewrite Er in Hm. injection Hm as <-. apply (step_sim m _ M _ S).
  - apply (mstep_remove removal (set_radix M m) i p); done.
  - apply (holds_next m _ M _ H); cbn; [apply (h_node _ _ H)|done|intros j x Hx; left; eapply delete_key; done|pose proof (h_null _ _ H); set_solver|apply (h_pc _ _ H)].
Qed.

Lemma add_sim m M i p : sim removal m M -> in_range i -> p <> 0 -> p ∉ allocated m -> pg_inload m p = false ->
  exists err m' M', mapper_add_page i p (take_page p m) = Some (err, m') /\ sim removal (if err =? 0 then m' else free_page p m') M'.
Proof.
  intros S Hi Hp Ha Hf. pose proof S as [Hr H]. assert (Hpa : addr (Page p) <> 0) by (cbn; lia). unfold mapper_add_page. cbn [take_page m_radix].
  destruct (insert_tree _ _ _ i (addr (Page p)) (h_tree _ _ H) Hi Hpa) as (err & mm & r & -> & Hor); [intros k v; rewrite lookup_fmap_Some; intros (x & <- & Hx); apply (h_key _ _ H k x Hx)|].
  cbn [mbind option_bind]. eexists err, _.
  assert (Hback : tree mm r (addr <$> M) -> sim removal (free_page p (put_tree mm r (take_page p m))) M).
  { intros Ht. assert (Eal : ({[p]} ∪ allocated m) ∖ {[p]} = allocated m) by (apply leibniz_equiv; set_solver). split.
    - replace (set_radix M _) with (set_radix M m); [done|]. unfold set_radix. cbn. rewrite Eal. done.
    - apply (holds_next m _ M M H); cbn; [apply (h_node _ _ H)|done|auto|rewrite Eal; apply (h_null _ _ H)|apply (h_pc _ _ H)]. }
  destruct Hor as [(-> & HM & Ht)|[(-> & _ & Ht)|(-> & _ & Ht)]]; [|exists M; split; [done|]; apply Hback; done..].
  exists (<[i := Page p]> M). split; [done|]. rewrite <- fmap_insert in Ht. rewrite lookup_fmap in HM. apply (step_sim m _ M _ S).
  - apply (mstep_add removal (set_radix M m) i p); [done|done|]. cbn. destruct (M !! i); done.
  - apply (holds_next m _ M _ H); cbn; [apply (h_node _ _ H)|done| | |apply (h_pc _ _ H)].
    + intros j x Hx. apply insert_key in Hx as [Hx|[-> ->]]; auto.
    + pose proof (h_null _ _ H). intros Hin. apply elem_of_union in Hin as [Hin%elem_of_singleton|Hin]; [congruence|done].
Qed.

Lemma cstep_sim m m' M : sim removal m M -> cstep removal m m' -> exists M', sim removal m' M'.
Proof.
  intros S Hs. pose proof S as [_ H]. pose proof (v_migr _ (sim_minv m M S)) as Hmig. destruct Hs as [t i Hat Hi|t i remote d0 m' Hat E|t i answer Hat Hf H0|t i p m' Hat E|t i page err d0 m' Hat Hd E
    |t i p err new Hat|t i p err new m' Hat|t i r e Hat|i p err m' Hi Hp Ha Hf E|i p d0 m' Hr Hi Hp Hf Hd E|p].
  - exists M. apply (step_sim m _ M M S); [apply (mstep_call removal (set_radix M m) t i Hat)|].
    apply (holds_next m _ M M H); cbn; [apply (h_node _ _ H)|apply (h_tree _ _ H)|auto|apply (h_null _ _ H)|apply indexes_set; [apply (h_pc _ _ H)|intros j [= <-]; done]].
  - destruct (get_sim m M t i remote d0 S Hat) as (m'' & M' & E' & S'). replace m' with m'' by congruence. eauto.
  - exists M. apply load_sim; done.
  - destruct (commit_sim m M t i p S Hat) as (m'' & E' & S'). replace m' with m'' by congruence. eauto.
  - destruct (abort_sim m M t i page err d0 S Hat Hd) as (m'' & E' & S'). replace m' with m'' by congruence. eauto.
  - specialize (Hmig t). cbn in Hmig. rewrite Hat in Hmig. done.
  - specialize (Hmig t). cbn in Hmig. rewrite Hat in Hmig. done.
  - exists M. apply (step_sim m _ M M S); [apply (mstep_return removal (set_radix M m) t i r e Hat)|].
    apply (holds_next m _ M M H); cbn; [apply (h_node _ _ H)|apply (h_tree _ _ H)|auto|apply (h_null _ _ H)|apply indexes_set; [apply (h_pc _ _ H)|done]].
  - destruct (add_sim m M i p S Hi Hp Ha Hf) as (err' & m'' & M' & E' & S'). assert (err' = err /\ m'' = m') as [-> ->] by (split; congruence). eauto.
  - exists (delete i M). eapply remove_sim; done.
  - exists M. apply (step_sim m _ M M S); [apply (mstep_mark removal (set_radix M m) p)|].
    apply (holds_next m _ M M H); cbn; [apply (h_node _ _ H)|apply (h_tree _ _ H)|auto|apply (h_null _ _ H)|apply (h_pc _ _ H)].
Qed.

Lemma start_sim s : NoDup s -> 0 ∉ s -> sim removal (mapper_start true (tree_start s)) ∅.
Proof.
  intros Hnd H0. split; [apply rtc_refl|]. split; [done|rewrite fmap_empty; apply init_tree; done|intros i it; rewrite lookup_empty; done|apply not_elem_of_empty|done].
Qed.

Lemma reach_sim s m : NoDup s -> 0 ∉ s -> rtc (cstep removal) (mapper_start true (tree_start s)) m -> exists M, sim removal m M.
Proof.
  intros Hnd H0 Hs. pose proof (ex_intro (sim removal _) _ (start_sim s Hnd H0)) as Hi. revert Hi. generalize (mapper_start true (tree_start s)) Hs. clear Hs.
  intros m0 Hs. induction Hs as [m|m1 m2 m3 H12 _ IH]; [done|]. intros [M S]. apply IH. eapply cstep_sim; done.
Qed.
End Simulation.

(** The two sections that end a load wake the sleepers of the dummy. *)
Lemma commit_wakes t i p (m m' : mapper_s) : commit_section t i p m = Some m' ->
  exists m2 : mapper_s, at_pc m2 = at_pc m /\ waiters m2 = waiters m /\ forall u, u <> t -> at_pc m' u = at_pc (wakeup_all (Dummy t) m2) u.
Proof.
  unfold commit_section, info_set. intros E. apply bind_Some in E as (o & _ & E). apply bind_Some in E as (info & _ & E). case_match; [done|].
  apply bind_Some in E as (m1 & E1 & [= <-]). apply bind_Some in E1 as ([[e mm] r] & _ & [= <-]). exists (set_inload p false (put_tree mm r m)). split_and!; [done|done|].
  intros u Hu. cbn [set_pc at_pc]. apply fn_lookup_insert_ne. done.
Qed.
Lemma abort_wakes t i page e d0 (m m' : mapper_s) : abort_section t i page e d0 m = Some m' ->
  exists m2 : mapper_s, at_pc m2 = at_pc m /\ waiters m2 = waiters m /\ forall u, u <> t -> at_pc m' u = at_pc (wakeup_all (Dummy t) m2) u.
Proof.
  unfold abort_section, __mapper_remove_page. intros E. apply bind_Some in E as (m1 & E1 & [= <-]). apply bind_Some in E1 as ([[e' mm] r] & _ & [= <-]).
  exists (put_tree mm r m). split_and!; [done|done|]. intros u Hu. destruct page; cbn [set_pc at_pc free_page]; apply fn_lookup_insert_ne; done.
Qed.

(** ** Deletions in a tree of one level *)

(** The tree has one level, the deletion leaves an item, and not only the one of the key 0. *)
Definition one_level (key : Z) (tr : tree_s) : bool :=
  match nodes (t_mem tr) !! root_node (t_root tr) with
  | Some n => (height (t_root tr) =? 1) && (parent n =? 0) && negb (count n -! 1 =? 0) && (negb (count n -! 1 =? 1) || (key =? 0) || bool_decide (zget (children n) 0 = Some 0)) &&
      bool_decide (root_node (t_root tr) ∉ freed (t_mem tr))
  | None => false
  end.

Lemma wf_one_level mm r lv up : wf mm r lv up -> height r = 1 -> wf mm r {[root_node r := O]} ∅.
Proof.
  intros [W1 W2 W3 W4 W5 W6 W7] Hh. destruct (W4 ltac:(lia)) as [Hroot _]. rewrite Hh in Hroot. change (Z.to_nat (1 - 1)) with O in Hroot.
  split; try done.
  - intros _. rewrite Hh, lookup_singleton_eq. done.
  - intros a l Ha. apply lookup_singleton_Some in Ha as [<- <-]. apply (W5 _ O Hroot).
  - intros a l i c Ha. apply lookup_singleton_Some in Ha as [_ [=]].
  - destruct W7 as [Hnd Hs]. split; [done|]. intros a Ha. destruct (Hs a Ha) as (H1 & H2 & _). split_and!; [done| |done]. apply lookup_singleton_None. congruence.
Qed.

Lemma one_level_exact d0 key tr M : tree (t_mem tr) (t_root tr) M -> in_range key -> default 0 (M !! key) <> 0 -> one_level key tr = true -> exact_delete d0 key tr.
Proof.
  destruct tr as [mm r info]. unfold one_level, exact_delete. cbn [t_mem t_root]. intros HT Hk HM Hc. destruct (nodes mm !! root_node r) as [n|] eqn:Hn; [|done].
  rewrite !andb_true_iff, !orb_true_iff, !negb_true_iff, !Z.eqb_eq, !Z.eqb_neq, !bool_decide_eq_true in Hc. destruct Hc as ((((Hh & Hp) & Hc) & Hs) & Hf).
  destruct (delete_one_level d0 mm r M key n HT Hh Hn Hp Hk HM Hc) as (item & n' & E & H1 & H2 & H3 & H4); [tauto|]. exists item, (put mm (root_node r) n'), r. split; [done|].
  destruct HT as [(lv & up & Hwf) Hv]. destruct (w_root _ _ _ _ Hwf ltac:(lia)) as [Hroot _]. rewrite Hh in Hroot. change (Z.to_nat (1 - 1)) with O in Hroot.
  assert (Hd : dig 0 key = key) by (unfold dig; rewrite Z.div_1_r; apply Z.mod_small; unfold in_range in *; lia).
  destruct (leaf_store_ok mm r lv up key (root_node r) n n' 0 Hwf Hk) as [Hwf' Hv']; try done; [lia|rewrite (w_max _ _ _ _ Hwf), Hh; change (MAX_KEY_ID 1) with 63; lia|rewrite Hh; done|rewrite Hd; done|]. split.
  - exists {[root_node r := O]}, ∅. split; [apply (wf_one_level _ _ lv up); done|]. intros a Ha. apply lookup_singleton_None. intros E'. rewrite <- E' in Ha. done.
  - intros k Hk'. etrans; [apply (Hv' k Hk')|]. destruct (Z.eqb_spec k key) as [->|Hne]; [rewrite decide_True by done; done|rewrite decide_False by done; done].
Qed.

(** ** Properties *)

(** C11: The cache of the pages of a file loads a page once for all the threads that ask for it, over the radix tree of the code.  For the mapper of a file, from its creation, in any interleaving of the sections
    of [mapper_get_page], with any answers of the allocators and of the device, and with pages added, removed and marked for migration in between, on the conditions that every
    deletion from the tree takes away just its item ([radix_shrink_loses_leaf] and [radix_delete_uninitialised] are the faults of [radix_tree_delete] that this excludes) and that a page that [mapper_add_page] gets is
    free of the flag [PG_INLOAD] ([mapper_stale_inload]): every section of [mapper_get_page] that has to end ends, its assertions included; a dummy page is in the tree exactly at the index that its thread
    loads, so that at most one thread loads a given index and no dummy outlives its call; a thread sleeps only while another loads the index it asked for, and is woken
    when that load ends, well or badly; the allocated pages are exactly those of the tree and those in the hands of the threads that load, each in one place, so that none is lost
    and none is freed while it is in the tree; and without removals all the calls that return a page for an index return the same one.  The mappers without a file, whose pages
    migrate, are not covered: [mapper_migrate_dangling] is what happens there. *)
Theorem mapper_page_cache removal s m : NoDup s -> 0 ∉ s -> rtc (cstep removal) (mapper_start true (tree_start s)) m ->
  (forall t i remote d0, at_pc m t = MGet i -> is_Some (get_section t i remote d0 m)) /\
  (forall t i p, at_pc m t = MCommit i p -> is_Some (commit_section t i p m)) /\
  (forall i t, 0 <= i < 2 ^ 32 -> mapper_find_page i m = Some (addr (Dummy t)) <-> loading (at_pc m t) = Some i) /\
  (forall t u i, loading (at_pc m t) = Some i -> loading (at_pc m u) = Some i -> t = u) /\
  (forall u i, at_pc m u = MAsleep i -> exists t, loading (at_pc m t) = Some i /\
     (forall p m', at_pc m t = MCommit i p -> commit_section t i p m = Some m' -> at_pc m' u = MGet i) /\
     (forall page e d0 m', at_pc m t = MAbort i page e -> abort_section t i page e d0 m = Some m' -> at_pc m' u = MGet i)) /\
  (forall p, p ∈ allocated m <-> p <> 0 /\ ((exists i, 0 <= i < 2 ^ 32 /\ mapper_find_page i m = Some (addr (Page p))) \/ (exists t, p ∈ held (at_pc m t)))) /\
  (forall i j p, p <> 0 -> 0 <= i < 2 ^ 32 -> 0 <= j < 2 ^ 32 -> mapper_find_page i m = Some (addr (Page p)) -> mapper_find_page j m = Some (addr (Page p)) -> i = j) /\
  (forall i t p, p <> 0 -> 0 <= i < 2 ^ 32 -> mapper_find_page i m = Some (addr (Page p)) -> pg_inload m p = false /\ p ∉ held (at_pc m t)) /\
  (removal = false -> forall t u i p q e e', at_pc m t = MRet i (Some p) e -> at_pc m u = MRet i (Some q) e' -> p = q).
Proof.
  intros Hnd H0 Hs. destruct (reach_sim removal s m Hnd H0 Hs) as [M S]. pose proof (sim_minv removal m M S) as I. pose proof S as [Hr H].
  destruct (spec_page_cache true removal _ Hr) as (P1 & _ & P3 & P4 & P5 & P6). cbn in P1, P3, P4, P5, P6.
  assert (Hpage : forall i p, p <> 0 -> 0 <= i < 2 ^ 32 -> mapper_find_page i m = Some (addr (Page p)) <-> M !! i = Some (Page p)) by (intros i p Hp Hi; apply (holds_item m M); [done|done|cbn; lia]).
  split_and!.
  - intros t i remote d0 Hat. destruct (get_sim removal m M t i remote d0 S Hat) as (m' & M' & -> & _). eauto.
  - intros t i p Hat. destruct (commit_sim removal m M t i p S Hat) as (m' & -> & _). eauto.
  - intros i t Hi. rewrite (holds_item m M i (Dummy t) H Hi) by (cbn; lia). apply (v_dummy _ I).
  - exact P1.
  - intros u i Hu. destruct (v_sleep _ I u i Hu) as (t & Ht & Hw). exists t. split; [done|]. assert (Hut : u <> t) by (intros ->; cbn in Ht; rewrite Hu in Ht; done).
    assert (Hwake : forall m2 : mapper_s, at_pc m2 = at_pc m -> waiters m2 = waiters m -> at_pc (wakeup_all (Dummy t) m2) u = MGet i).
    { intros m2 E1 E2. destruct (wakeup_spec (Dummy t) m2) as [Wa _]. rewrite (Wa u), E1, E2, Hu. cbn in Hw. rewrite decide_True by done. done. }
    split.
    + intros p m' _ Hm. destruct (commit_wakes t i p m m' Hm) as (m2 & E1 & E2 & E). rewrite (E u Hut). apply Hwake; done.
    + intros page e d0 m' _ Hm. destruct (abort_wakes t i page e d0 m m' Hm) as (m2 & E1 & E2 & E). rewrite (E u Hut). apply Hwake; done.
  - intros p. rewrite P3. pose proof (h_null _ _ H) as Hnull. split.
    + intros Hp. assert (Hp0 : p <> 0) by (intros ->; apply Hnull, P3; done). split; [done|]. destruct Hp as [[i Hi]|Hp]; [left|right; done]. destruct (h_key _ _ H i _ Hi) as [Hin _]. exists i.
      split; [done|]. apply Hpage; done.
    + intros [Hp [(i & Hi & Hf)|Hp']]; [left; exists i; apply Hpage in Hf; done|right; done].
  - intros i j p Hp Hi Hj E1 E2. apply Hpage in E1, E2; try done. apply (P4 i j p E1 E2).
  - intros i t p Hp Hi E. apply Hpage in E; try done. apply (P5 i t p E).
  - exact P6.
Qed.

(** The state after a section, and a page that is added *)
Definition run (f : mapper_s -> option mapper_s) (m : mapper_s) : mapper_s := default m (f m).
Definition add_page (index p : Z) (m : mapper_s) : mapper_s := run (fun m => snd <$> mapper_add_page index p (take_page p m)) m.

Lemma run_some (f : mapper_s -> option mapper_s) m : (if f m then true else false) = true -> f m = Some (run f m).
Proof. unfold run. destruct (f m); done. Qed.

(** Thread 0 loads the page 3 at the index 5, and the page 4 is added at the index 6; thread 1 loads the index 8, thread 2 asks for it and sleeps; the load fails,
    and the dummy is taken away. *)
Definition demo_nodes : list Z := [0x1000; 0x2000].
Definition demo_loaded : mapper_s :=
  add_page 6 4 (run (commit_section 0 5 3) (load 0 5 (Some (3, 0)) (run (get_section 0 5 (fun _ => false) false) (set_pc 0 (MGet 5) (mapper_start true (tree_start demo_nodes)))))).
Definition demo_failed : mapper_s :=
  load 1 8 (Some (9, EIO)) (run (get_section 2 8 (fun _ => false) false) (run (get_section 1 8 (fun _ => false) false) (set_pc 2 (MGet 8) (set_pc 1 (MGet 8) demo_loaded)))).
Definition demo_mapper : mapper_s := run (abort_section 1 8 (Some 9) EIO true) demo_failed.

Section Reach.
Context (m0 : mapper_s).
Notation reach m := (rtc (cstep false) m0 m).

Lemma reach_get t i remote d0 m : reach m -> at_pc m t = MGet i -> (if get_section t i remote d0 m then true else false) = true -> reach (run (get_section t i remote d0) m).
Proof. intros Hr Hat E. eapply rtc_r; [exact Hr|]. eapply cstep_get; [exact Hat|]. apply (run_some (get_section t i remote d0)). exact E. Qed.
Lemma reach_commit t i p m : reach m -> at_pc m t = MCommit i p -> (if commit_section t i p m then true else false) = true -> reach (run (commit_section t i p) m).
Proof. intros Hr Hat E. eapply rtc_r; [exact Hr|]. eapply cstep_commit; [exact Hat|]. apply (run_some (commit_section t i p)). exact E. Qed.
Lemma reach_abort t i page e d0 m : reach m -> at_pc m t = MAbort i page e -> exact_delete d0 i (m_radix m) -> (if abort_section t i page e d0 m then true else false) = true ->
  reach (run (abort_section t i page e d0) m).
Proof. intros Hr Hat Hd E. eapply rtc_r; [exact Hr|]. eapply cstep_abort; [exact Hat|exact Hd|]. apply (run_some (abort_section t i page e d0)). exact E. Qed.
Lemma reach_add i p m : reach m -> 0 <= i < 2 ^ 32 -> p <> 0 -> p ∉ allocated m -> pg_inload m p = false ->
  match mapper_add_page i p (take_page p m) with Some (err, _) => err =? 0 | None => false end = true -> reach (add_page i p m).
Proof.
  intros Hr Hi Hp Ha Hf E. eapply rtc_r; [exact Hr|]. unfold add_page, run. destruct (mapper_add_page i p (take_page p m)) as [[err m']|] eqn:Em; [|done].
  pose proof (cstep_add false m i p err m' Hi Hp Ha Hf Em) as Hs. rewrite E in Hs. exact Hs.
Qed.
Lemma reach_call t i m : reach m -> at_pc m t = MOut -> 0 <= i < 2 ^ 32 -> reach (set_pc t (MGet i) m).
Proof. intros Hr Hat Hi. eapply rtc_r; [exact Hr|]. apply cstep_call; done. Qed.
Lemma reach_load t i p e m : reach m -> at_pc m t = MLoad i -> p ∉ allocated m -> p <> 0 -> reach (load t i (Some (p, e)) m).
Proof. intros Hr Hat Ha Hp. eapply rtc_r; [exact Hr|]. apply cstep_load; [done|done|]. cbn. congruence. Qed.
End Reach.

Lemma demo_loaded_reach : rtc (cstep false) (mapper_start true (tree_start demo_nodes)) demo_loaded.
Proof.
  unfold demo_loaded. apply reach_add; [|lia|lia|apply (bool_decide_eq_true _); vm_compute; reflexivity|vm_compute; reflexivity..].
  apply reach_commit; [|vm_compute; reflexivity..]. apply reach_load; [|vm_compute; reflexivity|apply (bool_decide_eq_true _); vm_compute; reflexivity|lia].
  apply reach_get; [|vm_compute; reflexivity..]. apply reach_call; [apply rtc_refl|done|lia].
Qed.
Lemma demo_failed_reach : rtc (cstep false) (mapper_start true (tree_start demo_nodes)) demo_failed.
Proof.
  unfold demo_failed. apply reach_load; [|vm_compute; reflexivity|apply (bool_decide_eq_true _); vm_compute; reflexivity|lia].
  apply reach_get; [|vm_compute; reflexivity..]. apply reach_get; [|vm_compute; reflexivity..]. do 2 (apply reach_call; [|vm_compute; reflexivity|lia]). apply demo_loaded_reach.
Qed.

Lemma demo_nodes_ok : NoDup demo_nodes /\ 0 ∉ demo_nodes.
Proof. split; apply (bool_decide_eq_true _); vm_compute; done. Qed.

Lemma demo_exact d0 : exact_delete d0 8 (m_radix demo_failed).
Proof.
  destruct (reach_sim false demo_nodes demo_failed (proj1 demo_nodes_ok) (proj2 demo_nodes_ok) demo_failed_reach) as [M [_ H]].
  apply (one_level_exact d0 8 _ (addr <$> M) (h_tree _ _ H)); [unfold in_range; lia| |vm_compute; reflexivity].
  assert (E : mapper_find_page 8 demo_failed = Some 3) by (vm_compute; reflexivity). rewrite (holds_lookup _ M 8 H) in E by (unfold in_range; lia).
  rewrite lookup_fmap. destruct (M !! 8); cbn in *; congruence.
Qed.

Lemma mapper_page_cache_witness : rtc (cstep false) (mapper_start true (tree_start demo_nodes)) demo_mapper /\
  at_pc demo_failed 2 = MAsleep 8 /\ at_pc demo_mapper 2 = MGet 8 /\ at_pc demo_mapper 1 = MRet 8 None EIO /\
  mapper_find_page 5 demo_mapper = Some (addr (Page 3)) /\ mapper_find_page 8 demo_mapper = Some 0 /\
  (forall i t, 0 <= i < 2 ^ 32 -> mapper_find_page i demo_mapper = Some (addr (Dummy t)) <-> loading (at_pc demo_mapper t) = Some i) /\
  is_Some (get_section 2 8 (fun _ => false) false demo_mapper).
Proof.
  assert (Hr : rtc (cstep false) (mapper_start true (tree_start demo_nodes)) demo_mapper).
  { unfold demo_mapper. apply reach_abort; [apply demo_failed_reach|vm_compute; reflexivity|apply demo_exact|vm_compute; reflexivity]. }
  destruct (mapper_page_cache false demo_nodes demo_mapper (proj1 demo_nodes_ok) (proj2 demo_nodes_ok) Hr) as (H1 & _ & H3 & _).
  split; [exact Hr|]. do 5 (split; [vm_compute; reflexivity|]). split; [exact H3|]. apply H1. vm_compute. reflexivity.
Defined.

(** ** Behaviours that differ from what the code means *)

Definition ECANCELED : Z := 133.

(** The answer of [vmm_migrate_shared_page_seq]: the tasks of the regions that map the page with the errors of the invalidation, and the answer of the
    allocator *)
Fixpoint inval_loop (regs : list (Z * Z)) (this_task err : Z) : Z * bool :=
  match regs with
  | [] => (err, true)
  | (task, e) :: regs =>
      if negb (task =? this_task) then (if negb (e =? 0) then (e, false) else inval_loop regs this_task e) else inval_loop regs this_task err
  end.
Definition vmm_migrate_shared_page_seq (regs : list (Z * Z)) (this_task : Z) (answer : option Z) : Z * option Z :=
  let '(err, ok) := inval_loop regs this_task ECANCELED in
  if negb ok then (err, None)
  else match answer with None => (ENOMEM, None) | Some q => (err, Some q) end.

(** A page to migrate that only the calling task maps: the migration answers ECANCELED with a new page, and [mapper_get_page] returns with its dummy, which is on its
    stack, still in the tree. *)
Theorem mapper_migrate_dangling :
  let m := set_migrate 7 true (add_page 2 7 (mapper_start false (tree_start demo_nodes))) in
  let m := run (get_section 0 2 (fun _ => true) false) (set_pc 0 (MGet 2) m) in
  let '(err, new) := vmm_migrate_shared_page_seq [(1, 0)] 1 (Some 8) in
  let m' := run (migrated_section 0 2 7 err new) (set_pc 0 (MMigrated 2 7 err new) (take_page 8 m)) in
  at_pc m 0 = MMigrate 2 7 /\ at_pc m' 0 = MRet 2 (Some 7) 0 /\ mapper_find_page 2 m' = Some (addr (Dummy 0)).
Proof. vm_compute. done. Qed.

(** A page whose load failed is freed with the flag [PG_INLOAD]; when it is allocated again and added to the mapper, the threads that ask for it sleep on it and
    no thread will wake them. *)
Theorem mapper_stale_inload :
  9 ∉ allocated demo_mapper /\
  let m' := run (get_section 3 7 (fun _ => false) false) (set_pc 3 (MGet 7) (add_page 7 9 demo_mapper)) in
  at_pc m' 3 = MAsleep 7 /\ mapper_find_page 7 m' = Some (addr (Page 9)) /\ waiters m' (Page 9) = [3].
Proof. split; [apply (bool_decide_eq_true _); vm_compute; done|]. vm_compute. done. Qed.

(** [radix_tree_insert] answers - ENOMEM, which the test for ENOMEM does not know: the caller gets EIO. *)
Theorem mapper_enomem_is_eio : at_pc (run (get_section 0 5 (fun _ => false) false) (set_pc 0 (MGet 5) (mapper_start true (tree_start [])))) 0 = MRet 5 None EIO.
Proof. vm_compute. reflexivity. Qed.

(** A load that fails when one page is left, at the index 0: the deletion of the dummy loses the page. *)
Theorem mapper_abort_loses_page :
  let m := add_page 0 4 (mapper_start true (tree_start demo_nodes)) in
  let m' := run (get_section 1 8 (fun _ => false) false) (set_pc 1 (MGet 8) m) in
  let m'' := run (abort_section 1 8 None 0 false) m' in
  mapper_find_page 0 m' = Some (addr (Page 4)) /\ at_pc m'' 1 = MRet 8 None ENOMEM /\ mapper_find_page 0 m'' = None.
Proof. vm_compute. done. Qed.
