(* ===== verification/Blkio.v ===== *)
(** * Blkio: the block requests of a page, [kernel/kern/blkio.c]

    [blkio_init] makes the requests of a page, the last one made being the head, which holds the counters; [blkio_sync] gives them to the driver and
    waits for them; [blkio_async] is the handler that runs, on any processor and at any time, when one of them is done.  The sections under the lock of the head are
    steps, and so is the call of the driver for a request. *)

From S2P Require Import Prelude.

Definition BLKIO_RD : Z := 0x01.
Definition BLKIO_SYNC : Z := 0x02.
Definition BLKIO_INIT : Z := 0x01.

(** The control block of the head: [count] and [cntr] have 16 bits. *)
Record b_ctrl := Ctrl { count : Z; cntr : Z; error : Z }.
Definition u16 (z : Z) : Z := z mod 2 ^ 16.

(** The loop of [blkio_init] on the answers of [kmem_alloc]: the requests made, the head first; or, after a failure, the ones that are freed *)
Fixpoint init_loop (n : nat) (answers : list (option Z)) (made : list Z) : list Z * bool :=
  match n, answers with
  | O, _ => (made, true)
  | S n, Some b :: answers => init_loop n answers (b :: made)
  | S n, _ => (made, false)
  end.

Inductive init_result := InitError (err : Z) (freed : list Z) | InitOk (requests : list Z) (ctrl : b_ctrl).
Definition blkio_init (n : Z) (answers : list (option Z)) : option init_result :=
  let '(made, ok) := init_loop (Z.to_nat n) answers [] in
  if negb ok then Some (InitError ENOMEM made)
  else match made with [] => None | _ => Some (InitOk made (Ctrl (u16 n) 0 0)) end.

(** [blkio_destroy] frees every request of the page. *)
Definition blkio_destroy (requests : list Z) : list Z := requests.

(** The thread in [blkio_sync]: before the request [k] of the list, after the loop, asleep, returned *)
Inductive sync_pc := Submit (k : Z) | Loop_done (err : Z) | Sleeping | Returned (err : Z).

(** [flags]: the [b_flags] of the requests; [pending]: those that the driver has; [results]: the errors of those that are done; [submitted] is the variable [cntr] *)
Record sync_sys := Sync { ctrl : b_ctrl; b_flags : list Z; pending : gset Z; results : gmap Z Z; submitted : Z; at_sync : sync_pc }.

(** One turn of the loop, with the answer of the driver *)
Definition submit (k : Z) (answer : Z) (s : sync_sys) : sync_sys :=
  match zget (b_flags s) k with
  | None => Sync (ctrl s) (b_flags s) (pending s) (results s) (submitted s) (Loop_done 0)
  | Some f =>
      if negb (Z.land f BLKIO_INIT =? 0) then
        Sync (ctrl s) (zset (b_flags s) k (Z.land f (~! BLKIO_INIT))) (pending s) (results s) (submitted s) (Submit (k + 1))
      else if answer <? 0 then Sync (ctrl s) (b_flags s) (pending s) (results s) (submitted s) (Loop_done EIO)
      else Sync (ctrl s) (b_flags s) ({[k]} ∪ pending s) (results s) (submitted s + 1) (Submit (k + 1))
  end.

(** The end of [blkio_sync]: the section under the lock, or the return without it *)
Definition blkio_sync_end (sync : bool) (err : Z) (s : sync_sys) : sync_sys :=
  if negb sync then Sync (ctrl s) (b_flags s) (pending s) (results s) (submitted s) (Returned err)
  else
    let c := ctrl s in
    let c := Ctrl (count c) (u16 (cntr c + (count c - submitted s))) (error c) in
    Sync c (b_flags s) (pending s) (results s) (submitted s)
      (if cntr c <? count c then Sleeping else Returned (if negb (error c =? 0) then EIO else 0)).

(** [blkio_async]: the request [k] is done with the error [err]; the sleeper is woken by the last one, and returns *)
Definition blkio_async (k err : Z) (s : sync_sys) : sync_sys :=
  let err1 := if negb (err =? 0) then 1 else 0 in
  let c := ctrl s in
  let c := Ctrl (count c) (u16 (cntr c + 1)) (if negb (error c =? 0) then 1 else err1) in
  Sync c (b_flags s) (pending s ∖ {[k]}) (<[k := err]> (results s)) (submitted s)
    (if cntr c =? count c then
       match at_sync s with Sleeping => Returned (if negb (error c =? 0) then EIO else 0) | p => p end
     else at_sync s).

Inductive blkio_step (sync : bool) (s : sync_sys) : sync_sys -> Prop :=
| blkio_step_submit k answer : at_sync s = Submit k -> blkio_step sync s (submit k answer s)
| blkio_step_end err : at_sync s = Loop_done err -> blkio_step sync s (blkio_sync_end sync err s)
| blkio_step_async k err : k ∈ pending s -> blkio_step sync s (blkio_async k err s).

Definition sync_start (n : Z) (flags : list Z) : sync_sys := Sync (Ctrl (u16 n) 0 0) flags ∅ ∅ 0 (Submit 0).

(** ** Completion *)

Section Completion.
Context (n : Z) (Hn : 0 < n < 2 ^ 16).
Implicit Types (s : sync_sys).

Definition failed s : Prop := exists k e, results s !! k = Some e /\ e <> 0.

Record binv s : Prop := {
  b_count : count (ctrl s) = n;
  b_flen : zlen (b_flags s) = n;
  b_sub : submitted s = Z.of_nat (size (pending s)) + Z.of_nat (size (results s));
  b_le : submitted s <= n;
  b_disj : forall k, k ∈ pending s -> results s !! k = None;
  b_bound : forall k, k ∈ pending s \/ is_Some (results s !! k) -> 0 <= k < match at_sync s with Submit j => j | _ => n end;
  b_err : error (ctrl s) <> 0 <-> failed s;
  b_pc : match at_sync s with
         | Submit j => 0 <= j <= n /\ submitted s <= j /\ cntr (ctrl s) = Z.of_nat (size (results s))
         | Loop_done _ => cntr (ctrl s) = Z.of_nat (size (results s))
         | Sleeping => cntr (ctrl s) = n - Z.of_nat (size (pending s)) /\ pending s <> ∅
         | Returned e => cntr (ctrl s) = n - Z.of_nat (size (pending s)) /\ pending s = ∅ /\ e = (if decide (error (ctrl s) = 0) then 0 else EIO)
         end;
}.

Lemma binv_start flags : zlen flags = n -> binv (sync_start n flags).
Proof.
  intros Hl. assert (Hr : forall k, results (sync_start n flags) !! k = None) by (intros k; apply lookup_empty). split; try done.
  - cbn. apply Z.mod_small. lia.
  - cbn. lia.
  - intros k [H|[x H]]; [apply elem_of_empty in H; done|rewrite Hr in H; done].
  - cbn. split; [done|]. intros (k & e & H & _). change (results (sync_start n flags) !! k = Some e) in H. rewrite Hr in H. done.
  - split; [lia|]. split; [cbn; lia|]. done.
Qed.

Lemma binv_submit s k answer : binv s -> at_sync s = Submit k -> binv (submit k answer s).
Proof.
  intros [H1 H2 H3 Hle0 H4 H5 H6 H7] Hat. rewrite Hat in *. destruct H7 as (Hk & Hs & Hc). unfold submit. destruct (zget (b_flags s) k) as [f|] eqn:Ef.
  - pose proof (zget_Some_lt (b_flags s) k f ltac:(lia) Ef) as Hlt. rewrite H2 in Hlt. destruct (negb (Z.land f BLKIO_INIT =? 0)); [|destruct (answer <? 0)]; split; cbn; try done.
    + rewrite zlen_zset. done.
    + intros j Hj. specialize (H5 j Hj). lia.
    + lia.
    + intros j Hj. specialize (H5 j Hj). lia.
    + assert (Hkp : k ∉ pending s) by (intros Hin; specialize (H5 k (or_introl Hin)); lia). rewrite size_union, size_singleton by set_solver. lia.
    + lia.
    + intros j Hj. apply elem_of_union in Hj as [Hj%elem_of_singleton|Hj]; [|auto]. subst j. destruct (results s !! k) eqn:E; [|done].
      specialize (H5 k (or_intror (mk_is_Some _ _ E))). lia.
    + intros j Hj. rewrite elem_of_union, elem_of_singleton in Hj. destruct Hj as [[->|Hj]|Hj]; [lia|specialize (H5 j (or_introl Hj)); lia|specialize (H5 j (or_intror Hj)); lia].
    + lia.
  - split; cbn; try done. intros j Hj. specialize (H5 j Hj). lia.
Qed.

Lemma binv_end s err : binv s -> at_sync s = Loop_done err -> binv (blkio_sync_end true err s).
Proof.
  intros [H1 H2 H3 Hle0 H4 H5 H6 H7] Hat. rewrite Hat in *. rename H7 into Hc. unfold blkio_sync_end. cbn [negb].
  assert (Ec : u16 (cntr (ctrl s) + (count (ctrl s) - submitted s)) = n - Z.of_nat (size (pending s))).
  { rewrite H1, Hc, H3. unfold u16. rewrite Z.mod_small; [lia|]. lia. }
  rewrite Ec, H1. cbn [cntr count error]. split; cbn; try done; destruct (Z.ltb_spec (n - Z.of_nat (size (pending s))) n) as [Hlt|Hge]; try done.
  - split; [done|]. intros E. rewrite E, size_empty in Hlt. lia.
  - split; [done|]. assert (Hz : size (pending s) = 0%nat) by lia. apply size_empty_inv in Hz. split; [apply leibniz_equiv; done|].
    destruct (Z.eqb_spec (error (ctrl s)) 0); cbn [negb]; [rewrite decide_True|rewrite decide_False]; done.
Qed.

Lemma binv_async s k err : binv s -> k ∈ pending s -> binv (blkio_async k err s).
Proof.
  intros [H1 H2 H3 Hle0 H4 H5 H6 H7] Hk. pose proof (H4 k Hk) as Hr.
  assert (Hp : Z.of_nat (size (pending s ∖ {[k]})) = Z.of_nat (size (pending s)) - 1).
  { rewrite size_difference, size_singleton by set_solver. assert (size (pending s) <> 0)%nat; [|lia]. intros E. apply size_empty_inv in E. set_solver. }
  assert (Hrs : Z.of_nat (size (<[k := err]> (results s))) = Z.of_nat (size (results s)) + 1) by (rewrite map_size_insert_None by done; lia).
  set (e1 := if negb (error (ctrl s) =? 0) then 1 else if negb (err =? 0) then 1 else 0).
  assert (He : e1 <> 0 <-> error (ctrl s) <> 0 \/ err <> 0) by (unfold e1; destruct (Z.eqb_spec (error (ctrl s)) 0), (Z.eqb_spec err 0); cbn; lia).
  assert (Hf : e1 <> 0 <-> exists j e, (<[k := err]> (results s)) !! j = Some e /\ e <> 0).
  { rewrite He, H6. split.
    - intros [(j & e & Hj & Hne)|Hne]; [exists j, e; rewrite lookup_insert_ne by congruence; done|exists k, err; rewrite lookup_insert_eq; done].
    - intros (j & e & Hj & Hne). destruct (decide (j = k)) as [->|Hjk]; [rewrite lookup_insert_eq in Hj; right; congruence|].
      rewrite lookup_insert_ne in Hj by done. left. exists j, e. done. }
  assert (Hd : forall j, j ∈ pending s ∖ {[k]} -> (<[k := err]> (results s)) !! j = None).
  { intros j Hj. apply elem_of_difference in Hj as [Hj Hjk]. rewrite lookup_insert_ne by set_solver. auto. }
  assert (Hb : forall j, j ∈ pending s ∖ {[k]} \/ is_Some ((<[k := err]> (results s)) !! j) -> j ∈ pending s \/ is_Some (results s !! j)).
  { intros j [Hj|Hj]; [set_solver|]. destruct (decide (j = k)) as [->|Hjk]; [auto|]. rewrite lookup_insert_ne in Hj by done. auto. }
  assert (Hsz : 1 <= Z.of_nat (size (pending s))) by lia. clear Hk Hr He.
  unfold blkio_async. cbn [count cntr error]. fold e1. rewrite H1. destruct (at_sync s) as [j|e| |e] eqn:Hat.
  - destruct H7 as (Hj & Hs & Hc). rewrite Hc. replace (u16 (Z.of_nat (size (results s)) + 1)) with (Z.of_nat (size (results s)) + 1) by (unfold u16; rewrite Z.mod_small; lia).
    assert (Hpc : (if Z.of_nat (size (results s)) + 1 =? n then Submit j else Submit j) = Submit j) by (destruct (Z.of_nat (size (results s)) + 1 =? n); reflexivity).
    rewrite Hpc. split; cbn; try done; try lia; intros i Hi; apply H5; auto.
  - rewrite H7. replace (u16 (Z.of_nat (size (results s)) + 1)) with (Z.of_nat (size (results s)) + 1) by (unfold u16; rewrite Z.mod_small; lia).
    assert (Hpc : (if Z.of_nat (size (results s)) + 1 =? n then Loop_done e else Loop_done e) = Loop_done e) by (destruct (Z.of_nat (size (results s)) + 1 =? n); reflexivity).
    rewrite Hpc. split; cbn; try done; try lia; intros i Hi; apply H5; auto.
  - destruct H7 as (Hc & Hne). rewrite Hc. assert (Hle : Z.of_nat (size (pending s)) <= n) by lia.
    replace (u16 (n - Z.of_nat (size (pending s)) + 1)) with (n - Z.of_nat (size (pending s)) + 1) by (unfold u16; rewrite Z.mod_small; lia).
    destruct (Z.eqb_spec (n - Z.of_nat (size (pending s)) + 1) n) as [E|E]; split; cbn; try done; try lia; try (intros i Hi; apply H5; auto).
    + split; [lia|]. assert (Hz : size (pending s ∖ {[k]}) = 0%nat) by lia. apply size_empty_inv in Hz. split; [apply leibniz_equiv; done|].
      destruct (Z.eqb_spec e1 0); cbn [negb]; [rewrite decide_True|rewrite decide_False]; done.
    + split; [lia|]. intros Ee. rewrite Ee, size_empty in Hp. lia.
  - destruct H7 as (_ & Hemp & _). rewrite Hemp, size_empty in Hsz. lia.
Qed.

Lemma blkio_reach flags s : zlen flags = n -> rtc (blkio_step true) (sync_start n flags) s -> binv s.
Proof.
  intros Hl Hs. pose proof (binv_start flags Hl) as I0. revert I0. induction Hs as [s|s1 s2 s3 Hs _ IH]; [done|]. intros I. apply IH.
  destruct Hs as [k answer Hat|err Hat|k err Hk]; [apply binv_submit|apply binv_end|apply binv_async]; done.
Qed.
End Completion.

(** C14: A synchronous request for a page waits for all of its blocks: with fewer than 2^16 blocks and the handler of the completions running at any time, even before the
    caller has given all of them to the driver, [blkio_sync] returns only when every block that the driver took is done, answers EIO exactly when one of
    them failed, and sleeps only while one of them is still to come, whose handler will wake it if it is the last. *)
Theorem blkio_sync_completes n flags s : 0 < n < 2 ^ 16 -> zlen flags = n -> rtc (blkio_step true) (sync_start n flags) s ->
  (forall e, at_sync s = Returned e -> pending s = ∅ /\ (e = EIO /\ failed s \/ e = 0 /\ ~ failed s)) /\
  (at_sync s = Sleeping -> exists k, k ∈ pending s) /\
  (forall k e, at_sync s = Sleeping -> pending s = {[k]} -> exists r, at_sync (blkio_async k e s) = Returned r).
Proof.
  intros Hn Hl Hs. pose proof (blkio_reach n Hn flags s Hl Hs) as [H1 H2 H3 Hle H4 H5 H6 H7]. split_and!.
  - intros e He. rewrite He in H7. destruct H7 as (_ & Hp & ->). split; [done|]. destruct (decide (error (ctrl s) = 0)) as [E|E]; [right|left; tauto]. split; [done|]. rewrite <- H6. tauto.
  - intros He. rewrite He in H7. destruct H7 as [_ Hne]. apply set_choose_L in Hne. done.
  - intros k e He Hp. rewrite He in H7. destruct H7 as [Hc _]. unfold blkio_async. cbn [cntr count error]. rewrite H1, Hc, Hp, size_singleton, He.
    replace (u16 (n - Z.of_nat 1 + 1)) with n by (unfold u16; rewrite Z.mod_small; lia). rewrite Z.eqb_refl. eauto.
Qed.

(** Two blocks: the first is done before the second is given to the driver, the second fails after the caller sleeps. *)
Definition demo_sync : sync_sys := blkio_async 1 7 (blkio_sync_end true 0 (submit 2 0 (submit 1 0 (blkio_async 0 0 (submit 0 0 (sync_start 2 [0; 0])))))).

Lemma blkio_sync_completes_witness : rtc (blkio_step true) (sync_start 2 [0; 0]) demo_sync /\ at_sync demo_sync = Returned EIO /\ pending demo_sync = ∅.
Proof.
  assert (Hr : rtc (blkio_step true) (sync_start 2 [0; 0]) demo_sync).
  { unfold demo_sync. eapply rtc_r; [|apply blkio_step_async; vm_compute; reflexivity]. eapply rtc_r; [|apply blkio_step_end; reflexivity].
    do 2 (eapply rtc_r; [|apply blkio_step_submit; reflexivity]). eapply rtc_r; [|apply blkio_step_async; vm_compute; reflexivity].
    eapply rtc_r; [|apply blkio_step_submit; reflexivity]. apply rtc_refl. }
  split; [exact Hr|]. split; [reflexivity|]. apply (blkio_sync_completes 2 [0; 0] demo_sync ltac:(lia) eq_refl Hr) with (e := EIO). reflexivity.
Defined.

(** ** A behaviour that differs from what the code means *)

(** When the driver refuses a request, a synchronous call forgets the error: it waits for the requests before it and answers 0. *)
Theorem blkio_submit_error_lost : at_sync (blkio_sync_end true EIO (submit 0 (-1) (sync_start 1 [0]))) = Returned 0.
Proof. reflexivity. Qed.
