(* ===== verification/Event.v ===== *)
(** * Event: the events of a processor, [kernel/kern/event.c], and its alarms, [kernel/kern/time.c]

    A listener has a queue of events for each priority.  The events of a processor are sent by its own threads and interrupts, with the interrupts masked, and
    delivered by [local_event_listner_notify], which runs their handlers with the interrupts on: during a handler any events may be sent.  Events for another
    processor go through the FIFOs ([Kfifo]) of its remote listener. *)

From S2P Require Import Prelude.

Definition EVENT_PENDING : Z := 1.
Definition E_CLK : Z := 0.
Definition E_CHR : Z := 2.
Definition E_FUNC : Z := 8.
Definition E_PRIO_NR : Z := 9.

(** An event: who it is, and its priority *)
Record event_s := Event { e_id : Z; e_prio : Z }.
#[export] Instance event_eq : EqDecision event_s.
Proof. solve_decision. Defined.

(** ** The local listener *)

(** The lists of events are the sequences of [ListH]; [lcount] are their counts. *)
Record event_listner_s := Listner { flags : Z; prio : Z; tbl : Z -> list event_s; lcount : Z -> Z; delivered : Z }.

Definition event_listner_init : event_listner_s := Listner 0 0 (fun _ => []) (fun _ => 0) 0.

Definition event_is_pending (el : event_listner_s) : bool := negb (Z.land (flags el) EVENT_PENDING =? 0).

Definition local_event_send (e : event_s) (el : event_listner_s) (isFIFO : bool) : event_listner_s :=
  let p := e_prio e in
  let tbl := <[p := if isFIFO then tbl el p ++ [e] else e :: tbl el p]> (tbl el) in
  let lcount := <[p := u32 (lcount el p + 1)]> (lcount el) in
  let prio := if negb (event_is_pending el) || (p <? prio el) then p else prio el in
  Listner (Z.lor (flags el) EVENT_PENDING) prio tbl lcount (delivered el).

(** Where the processor is in [local_event_listner_notify]: outside; at the test of the outer loop; at the test of the inner loop; in the handler of an event *)
Inductive notify_pc := NOut | NTop (start_prio current_prio count : Z) | NInner (start_prio current_prio count : Z) | NHandler (e : event_s) (start_prio current_prio count : Z).

Definition notify_enter (el : event_listner_s) : event_listner_s * notify_pc :=
  let start_prio := prio el in
  (Listner (Z.land (flags el) (~! EVENT_PENDING)) (u32 (prio el + 1)) (tbl el) (lcount el) (delivered el), NTop start_prio start_prio 0).

(** One move up to the next test or call; [None] when the list is empty though its count is not 0 *)
Definition notify_next (el : event_listner_s) (pc : notify_pc) : option (event_listner_s * notify_pc) :=
  match pc with
  | NOut => Some (el, NOut)
  | NTop start_prio current_prio count =>
      if current_prio <? E_PRIO_NR then
        if prio el <=? start_prio then Some (Listner (flags el) (u32 (prio el + 1)) (tbl el) (lcount el) (delivered el), NInner (prio el) (prio el) count)
        else Some (el, NInner start_prio current_prio count)
      else Some (Listner (flags el) (prio el) (tbl el) (lcount el) (u32 (delivered el + count)), NOut)
  | NInner start_prio current_prio count =>
      if negb (lcount el current_prio =? 0) then
        match tbl el current_prio with
        | [] => None
        | e :: l => Some (Listner (flags el) (prio el) (<[current_prio := l]> (tbl el)) (<[current_prio := u32 (lcount el current_prio - 1)]> (lcount el)) (delivered el),
                          NHandler e start_prio current_prio count)
        end
      else Some (el, NTop start_prio (u32 (current_prio + 1)) count)
  | NHandler e start_prio current_prio count => Some (el, NInner start_prio current_prio (u32 (count + 1)))
  end.

(** The processor, with the events that were sent and those whose handlers were called *)
Record event_sys := ESys { listner : event_listner_s; npc : notify_pc; sent : list event_s; handled : list event_s }.

(** Events are sent outside of the loops, or while a handler runs. *)
Definition may_send (pc : notify_pc) : bool := match pc with NOut | NHandler _ _ _ _ => true | _ => false end.
Definition called (pc pc' : notify_pc) : list event_s := match pc, pc' with NInner _ _ _, NHandler e _ _ _ => [e] | _, _ => [] end.

Inductive event_step (fifo : bool) (s : event_sys) : event_sys -> Prop :=
| step_send e b : may_send (npc s) = true -> 0 <= e_prio e < E_PRIO_NR -> (fifo = true -> b = true) -> zlen (sent s) < 2 ^ 32 - 1 ->
    event_step fifo s (ESys (local_event_send e (listner s) b) (npc s) (sent s ++ [e]) (handled s))
| step_notify el pc : npc s = NOut -> event_is_pending (listner s) = true -> notify_enter (listner s) = (el, pc) -> event_step fifo s (ESys el pc (sent s) (handled s))
| step_next el pc : npc s <> NOut -> notify_next (listner s) (npc s) = Some (el, pc) -> event_step fifo s (ESys el pc (sent s) (handled s ++ called (npc s) pc)).

Definition event_start : event_sys := ESys event_listner_init NOut [] [].

(** ** No event is lost *)

(** The events of a priority *)
Definition of_prio (p : Z) (l : list event_s) : list event_s := filter (fun e => e_prio e = p) l.

(** [low]: the priority from which the lists will still be visited *)
Definition visited_from (pc : notify_pc) : Z := match pc with NOut => E_PRIO_NR | NTop _ c _ | NInner _ c _ | NHandler _ _ c _ => c end.
Definition start_of (pc : notify_pc) : Z := match pc with NOut => 0 | NTop s _ _ | NInner s _ _ | NHandler _ s _ _ => s end.

Record einv (fifo : bool) (s : event_sys) : Prop := {
  ei_count : forall p, 0 <= p < E_PRIO_NR -> lcount (listner s) p = zlen (tbl (listner s) p);
  ei_prio : 0 <= prio (listner s) <= E_PRIO_NR + 1 /\ (event_is_pending (listner s) = true -> prio (listner s) <= E_PRIO_NR);
  ei_range : 0 <= start_of (npc s) <= visited_from (npc s) /\ visited_from (npc s) <= E_PRIO_NR;
  ei_inner : match npc s with NInner _ c _ | NHandler _ _ c _ => c < E_PRIO_NR | _ => True end;
  ei_seen : forall p, 0 <= p < E_PRIO_NR -> tbl (listner s) p <> [] ->
    visited_from (npc s) <= p \/ event_is_pending (listner s) = true /\ prio (listner s) <= p;
  ei_perm : forall p, 0 <= p < E_PRIO_NR -> of_prio p (handled s) ++ tbl (listner s) p ≡ₚ of_prio p (sent s);
  ei_fifo : fifo = true -> forall p, 0 <= p < E_PRIO_NR -> of_prio p (handled s) ++ tbl (listner s) p = of_prio p (sent s);
  ei_len : zlen (sent s) < 2 ^ 32;
}.

Section Events.
Implicit Types (s : event_sys) (el : event_listner_s).

Lemma pending_set f : negb (Z.land (Z.lor f EVENT_PENDING) EVENT_PENDING =? 0) = true.
Proof.
  assert (H : Z.testbit (Z.land (Z.lor f EVENT_PENDING) EVENT_PENDING) 0 = true) by (rewrite Z.land_spec, Z.lor_spec; cbn; rewrite orb_true_r; done).
  apply negb_true_iff, Z.eqb_neq. intros E. rewrite E in H. discriminate H.
Qed.

Lemma of_prio_snoc p l e : of_prio p (l ++ [e]) = of_prio p l ++ (if decide (e_prio e = p) then [e] else []).
Proof. unfold of_prio. rewrite filter_app. done. Qed.

Lemma queue_len fifo s p : einv fifo s -> 0 <= p < E_PRIO_NR -> zlen (tbl (listner s) p) <= zlen (sent s).
Proof.
  intros I Hp. pose proof (Permutation_length (ei_perm _ _ I p Hp)) as E. rewrite length_app in E. unfold of_prio in E. pose proof (length_filter (fun e => e_prio e = p) (sent s)).
  unfold zlen. lia.
Qed.

(** The state after a send *)
Lemma send_tbl e el b p : tbl (local_event_send e el b) p = if decide (p = e_prio e) then (if b then tbl el p ++ [e] else e :: tbl el p) else tbl el p.
Proof. cbn. destruct (decide (p = e_prio e)) as [->|Hne]; [rewrite fn_lookup_insert; done|rewrite fn_lookup_insert_ne by done; done]. Qed.

Lemma send_pending e el b : event_is_pending (local_event_send e el b) = true.
Proof. apply pending_set. Qed.

Lemma send_prio e el b : prio (local_event_send e el b) <= e_prio e /\ (event_is_pending el = true -> prio (local_event_send e el b) <= prio el) /\
  (prio (local_event_send e el b) = e_prio e \/ prio (local_event_send e el b) = prio el).
Proof. cbn. destruct (event_is_pending el); cbn; [destruct (Z.ltb_spec (e_prio e) (prio el))|]; split_and!; try done; try lia; auto. Qed.

Lemma send_inv fifo s e b : einv fifo s -> 0 <= e_prio e < E_PRIO_NR -> (fifo = true -> b = true) -> zlen (sent s) < 2 ^ 32 - 1 ->
  einv fifo (ESys (local_event_send e (listner s) b) (npc s) (sent s ++ [e]) (handled s)).
Proof.
  intros I He Hb Hlen. destruct (send_prio e (listner s) b) as (P1 & P2 & P3). split; cbn [listner npc sent handled].
  - intros p Hp. rewrite send_tbl. cbn. destruct (decide (p = e_prio e)) as [->|Hne]; [rewrite fn_lookup_insert|rewrite fn_lookup_insert_ne by done; apply (ei_count _ _ I p Hp)].
    pose proof (queue_len fifo s _ I Hp). pose proof (zlen_nonneg (tbl (listner s) (e_prio e))). rewrite (ei_count _ _ I _ Hp), u32_small by (unfold is_u32; lia).
    destruct b; [rewrite zlen_app; done|rewrite zlen_cons; done].
  - pose proof (ei_prio _ _ I) as [Hp1 Hp2]. split; [|intros _; unfold E_PRIO_NR in *; lia]. destruct P3 as [E|E]; rewrite E in *; unfold E_PRIO_NR in *; lia.
  - apply (ei_range _ _ I).
  - apply (ei_inner _ _ I).
  - intros p Hp. rewrite send_tbl. intros Hq. destruct (decide (p = e_prio e)) as [->|Hne]; [right; split; [apply send_pending|done]|].
    destruct (ei_seen _ _ I p Hp Hq) as [|[Hpe Hle]]; [auto|]. right. split; [apply send_pending|]. pose proof (P2 Hpe). lia.
  - intros p Hp. rewrite send_tbl, of_prio_snoc. destruct (decide (p = e_prio e)) as [->|Hne]; [rewrite decide_True by done|rewrite decide_False by done; rewrite app_nil_r; apply (ei_perm _ _ I p Hp)].
    rewrite <- (ei_perm _ _ I _ Hp). destruct b; [rewrite app_assoc; done|]. rewrite <- app_assoc. apply Permutation_app_head. apply Permutation_cons_append.
  - intros Hf p Hp. rewrite (Hb Hf), send_tbl, of_prio_snoc. destruct (decide (p = e_prio e)) as [->|Hne]; [rewrite decide_True by done|rewrite decide_False by done; rewrite app_nil_r; apply (ei_fifo _ _ I Hf p Hp)].
    rewrite <- (ei_fifo _ _ I Hf _ Hp), app_assoc. done.
  - rewrite zlen_app. change (zlen [e]) with 1. lia.
Qed.

Lemma enter_inv fifo s el pc : einv fifo s -> npc s = NOut -> event_is_pending (listner s) = true -> notify_enter (listner s) = (el, pc) ->
  einv fifo (ESys el pc (sent s) (handled s)).
Proof.
  intros I Hat Hpe [= <- <-]. pose proof (ei_prio _ _ I) as [Hp1 Hp2]. specialize (Hp2 Hpe). unfold E_PRIO_NR in *.
  split; cbn [listner npc sent handled prio tbl lcount start_of visited_from]; try apply I; try done.
  - rewrite u32_small by (unfold is_u32; lia). unfold E_PRIO_NR. split; [lia|]. intros Hf. exfalso. unfold event_is_pending in Hf. cbn [flags] in Hf.
    rewrite <- Z.land_assoc in Hf. change (Z.land (~! EVENT_PENDING) EVENT_PENDING) with 0 in Hf. rewrite Z.land_0_r in Hf. done.
  - unfold E_PRIO_NR. lia.
  - intros p Hpr Hq. left. destruct (ei_seen _ _ I p Hpr Hq) as [H|[_ H]]; [rewrite Hat in H; cbn in H; unfold E_PRIO_NR in *; lia|done].
Qed.

Lemma next_inv fifo s el pc : einv fifo s -> npc s <> NOut -> notify_next (listner s) (npc s) = Some (el, pc) ->
  einv fifo (ESys el pc (sent s) (handled s ++ called (npc s) pc)).
Proof.
  intros I Hat E. pose proof I as [Hc [Hp1 Hp2] Hr Hi Hs Hpm Hff Hl]. destruct (npc s) as [|st cu n|st cu n|e st cu n] eqn:Epc; [done| | |]; cbn [notify_next start_of visited_from] in *.
  - destruct (Z.ltb_spec cu E_PRIO_NR) as [Hlt|Hge]; [destruct (Z.leb_spec (prio (listner s)) st) as [Hre|Hno]|]; injection E as <- <-; cbn [called];
      split; cbn [listner npc sent handled prio tbl lcount flags start_of visited_from event_is_pending]; rewrite ?app_nil_r; try done; try (unfold E_PRIO_NR in *; lia).
    + rewrite u32_small by (unfold is_u32, E_PRIO_NR in *; lia). unfold E_PRIO_NR in *. lia.
    + intros p Hp Hq. left. destruct (Hs p Hp Hq) as [H|[_ H]]; [lia|done].
    + intros p Hp Hq. destruct (Hs p Hp Hq) as [H|H]; [lia|]. right. exact H.
  - rewrite (Hc cu) in E by (unfold E_PRIO_NR in *; lia). destruct (tbl (listner s) cu) as [|e l] eqn:Et.
    + cbn in E. injection E as <- <-. cbn [called]. rewrite u32_small by (unfold is_u32, E_PRIO_NR in *; lia).
      split; cbn [listner npc sent handled start_of visited_from]; rewrite ?app_nil_r; try done; [unfold E_PRIO_NR in *; lia|].
      intros p Hp Hq. destruct (Hs p Hp Hq) as [H|H]; [left|auto]. destruct (decide (p = cu)) as [->|]; [done|lia].
    + rewrite (proj2 (Z.eqb_neq (zlen (e :: l)) 0)) in E by (rewrite zlen_cons; pose proof (zlen_nonneg l); lia). cbn [negb] in E. injection E as <- <-. cbn [called].
      assert (Hcu : 0 <= cu < E_PRIO_NR) by lia. assert (Hecu : e_prio e = cu).
      { assert (Hin : e ∈ of_prio cu (sent s)) by (rewrite <- (Hpm cu Hcu), Et; set_solver). apply list_elem_of_filter in Hin as [Hin _]. done. }
      assert (Ht : forall p, (<[cu := l]> (tbl (listner s)) : Z -> list event_s) p = if decide (p = cu) then l else tbl (listner s) p).
      { intros p. destruct (decide (p = cu)) as [->|Hne]; [apply fn_lookup_insert|apply fn_lookup_insert_ne; done]. }
      split; cbn [listner npc sent handled prio tbl lcount flags start_of visited_from]; try done.
      * intros p Hp. rewrite Ht. destruct (decide (p = cu)) as [->|Hne]; [rewrite fn_lookup_insert|rewrite fn_lookup_insert_ne by done; auto].
        pose proof (queue_len fifo s cu I Hcu) as Hq. rewrite Et, zlen_cons in Hq. pose proof (zlen_nonneg l).
        rewrite zlen_cons, u32_small by (unfold is_u32; lia). lia.
      * intros p Hp. rewrite Ht. destruct (decide (p = cu)) as [->|Hne]; [left; lia|]. apply Hs. done.
      * intros p Hp. rewrite Ht, of_prio_snoc, <- (Hpm p Hp), <- app_assoc. destruct (decide (p = cu)) as [->|Hne]; [rewrite Et, decide_True by done; done|rewrite decide_False by congruence; done].
      * intros Hf p Hp. rewrite Ht, of_prio_snoc, <- (Hff Hf p Hp), <- app_assoc. destruct (decide (p = cu)) as [->|Hne]; [rewrite Et, decide_True by done; done|rewrite decide_False by congruence; done].
  - injection E as <- <-. cbn [called]. split; cbn [listner npc sent handled start_of visited_from]; rewrite ?app_nil_r; done.
Qed.

(** The loops never meet an empty list whose count is not 0. *)
Lemma next_defined fifo s : einv fifo s -> is_Some (notify_next (listner s) (npc s)).
Proof.
  intros I. destruct (npc s) as [|st cu n|st cu n|e st cu n] eqn:Epc; cbn; eauto; [destruct (_ <? _); [destruct (_ <=? _)|]; eauto|].
  pose proof (ei_inner _ _ I) as Hi. pose proof (ei_range _ _ I) as Hr. rewrite Epc in Hi, Hr. cbn in Hr. rewrite (ei_count _ _ I cu) by lia.
  destruct (tbl (listner s) cu); cbn; eauto.
Qed.

Lemma event_reach fifo s : rtc (event_step fifo) event_start s -> einv fifo s.
Proof.
  intros Hs. assert (I0 : einv fifo event_start) by (split; cbn; unfold E_PRIO_NR; try done; try lia). revert I0.
  induction Hs as [s|s1 s2 s3 Hs _ IH]; [done|]. intros I. apply IH. destruct Hs as [e b Hm He Hb Hl|el pc Hat Hpe E|el pc Hat E].
  - apply send_inv; done.
  - apply enter_inv; done.
  - apply next_inv; done.
Qed.
End Events.

(** C12: The events of a processor are neither lost nor duplicated: for any sends to it, outside of the delivery and during the handlers, the events whose handlers were called and those that wait are
    exactly those that were sent, priority by priority; when all of them are sent at the end of the queues ([fifo]), also in the order in which they were sent (a send that is put off and the delivery of
    remote events add at the head and change the order, [remote_order_reversed]); the loops of the
    delivery are always defined; and when the delivery is over, a queue that is not empty is announced: the flag is set and the priority
    from which the next delivery starts is not above it. *)
Theorem events_delivered fifo s : rtc (event_step fifo) event_start s ->
  (forall p, 0 <= p < E_PRIO_NR -> of_prio p (handled s) ++ tbl (listner s) p ≡ₚ of_prio p (sent s)) /\
  (fifo = true -> forall p, 0 <= p < E_PRIO_NR -> of_prio p (handled s) ++ tbl (listner s) p = of_prio p (sent s)) /\
  (npc s = NOut -> forall p, 0 <= p < E_PRIO_NR -> tbl (listner s) p <> [] -> event_is_pending (listner s) = true /\ prio (listner s) <= p) /\
  is_Some (notify_next (listner s) (npc s)).
Proof.
  intros Hs. pose proof (event_reach fifo s Hs) as I. split_and!; [apply I|apply I| |apply (next_defined fifo s I)].
  intros Ho p Hp Hq. destruct (ei_seen _ _ I p Hp Hq) as [H|H]; [rewrite Ho in H; cbn in H; lia|done].
Qed.

(** An event of priority 5 is sent; its handler sends one of priority 3. *)
Definition demo_event (k : nat) : event_sys :=
  let e := Event 10 5 in
  let s1 := ESys (local_event_send e event_listner_init true) NOut [e] [] in
  match k with O => s1 | _ => let '(el, pc) := notify_enter (listner s1) in ESys el pc [e] [] end.

Lemma events_delivered_witness : rtc (event_step true) event_start (demo_event 1) /\ npc (demo_event 1) = NTop 5 5 0 /\
  of_prio 5 (handled (demo_event 1)) ++ tbl (listner (demo_event 1)) 5 = of_prio 5 (sent (demo_event 1)).
Proof.
  assert (Hr : rtc (event_step true) event_start (demo_event 1)).
  { eapply rtc_r; [eapply rtc_r; [apply rtc_refl|]|].
    - apply (step_send true event_start (Event 10 5) true); [reflexivity|unfold E_PRIO_NR; cbn; lia|done|vm_compute; reflexivity].
    - apply (step_notify true (demo_event 0)); reflexivity. }
  split; [exact Hr|]. split; [reflexivity|]. apply (events_delivered true (demo_event 1) Hr); [reflexivity|unfold E_PRIO_NR; lia].
Defined.

(** ** Delivery in the order of the priorities *)

(** The delivery when the handlers send nothing: the listener and the events in the order of their handlers *)
Fixpoint notify_run (fuel : nat) (el : event_listner_s) (pc : notify_pc) : option (event_listner_s * list event_s) :=
  match pc with
  | NOut => Some (el, [])
  | _ => match fuel with
         | O => None
         | S fuel => '(el, pc') ← notify_next el pc; '(el, l) ← notify_run fuel el pc'; Some (el, called pc pc' ++ l)
         end
  end.
Definition local_event_listner_notify (fuel : nat) (el : event_listner_s) : option (event_listner_s * list event_s) :=
  let '(el, pc) := notify_enter el in notify_run fuel el pc.

Section Order.
Implicit Types (el : event_listner_s).

Lemma inner_run l : forall el st c n, 0 <= c < E_PRIO_NR -> tbl el c = l -> lcount el c = zlen l -> zlen l < 2 ^ 32 -> exists el' n', prio el' = prio el /\
  tbl el' c = [] /\ (forall p, p <> c -> tbl el' p = tbl el p /\ lcount el' p = lcount el p) /\
  forall fuel, notify_run (2 * length l + S fuel) el (NInner st c n) = '(el, r) ← notify_run fuel el' (NTop st (u32 (c + 1)) n'); Some (el, l ++ r).
Proof.
  induction l as [|e l IH]; intros el st c n Hc Ht Hl Hb.
  - exists el, n. split_and!; try done. intros fuel. cbn [length Nat.mul Nat.add notify_run notify_next]. rewrite Hl. change (zlen (@nil event_s)) with 0. cbn [Z.eqb negb mbind option_bind called app].
    destruct (notify_run fuel el _) as [[el2 r]|]; done.
  - set (el1 := Listner (flags el) (prio el) (<[c := l]> (tbl el)) (<[c := u32 (lcount el c - 1)]> (lcount el)) (delivered el)).
    rewrite zlen_cons in Hb. pose proof (zlen_nonneg l) as Hl0.
    destruct (IH el1 st c (u32 (n + 1)) Hc) as (el' & n' & P1 & P2 & P3 & P4); [cbn; apply fn_lookup_insert|cbn; rewrite fn_lookup_insert, Hl, zlen_cons, u32_small by (unfold is_u32; lia); lia|lia|].
    exists el', n'. split_and!; try done.
    + intros p Hp. destruct (P3 p Hp) as [-> ->]. cbn. rewrite !fn_lookup_insert_ne by done. done.
    + assert (E1 : notify_next el (NInner st c n) = Some (el1, NHandler e st c n)).
      { cbn [notify_next]. rewrite (proj2 (Z.eqb_neq (lcount el c) 0)) by (rewrite Hl, zlen_cons; lia). cbn [negb]. rewrite Ht. done. }
      intros fuel. replace (2 * length (e :: l) + S fuel)%nat with (S (S (2 * length l + S fuel))) by (cbn; lia). cbn [notify_run]. rewrite E1.
      cbn [mbind option_bind notify_next called]. rewrite P4. destruct (notify_run fuel el' _) as [[el2 r]|]; done.
Qed.

(** From the priority [c] on *)
Lemma top_run k : forall el st c n, 0 <= c -> Z.of_nat k = E_PRIO_NR - c -> st < prio el -> (forall p, c <= p < E_PRIO_NR -> lcount el p = zlen (tbl el p) /\ zlen (tbl el p) < 2 ^ 32) ->
  exists fuel el', notify_run fuel el (NTop st c n) = Some (el', concat (tbl el <$> seqZ c (E_PRIO_NR - c))) /\
    forall p, tbl el' p = if decide (c <= p < E_PRIO_NR) then [] else tbl el p.
Proof.
  induction k as [|k IH]; intros el st c n Hc Hk Hs Hl.
  - exists 1%nat. eexists. cbn [notify_run notify_next]. rewrite (proj2 (Z.ltb_ge c E_PRIO_NR)) by lia. cbn [mbind option_bind called]. split; [replace (E_PRIO_NR - c) with 0 by lia; done|].
    intros p. rewrite decide_False by lia. done.
  - unfold E_PRIO_NR in *. destruct (Hl c ltac:(lia)) as [Hl1 Hl2]. destruct (inner_run (tbl el c) el st c n ltac:(unfold E_PRIO_NR; lia) eq_refl Hl1 Hl2) as (el' & n' & P1 & P2 & P3 & P4).
    rewrite u32_small in P4 by (unfold is_u32; lia). destruct (IH el' st (c + 1) n') as (fuel & el2 & E & Hemp); [lia|lia|lia| |].
    { intros p Hp. destruct (P3 p ltac:(lia)) as [-> ->]. apply Hl. lia. }
    exists (S (2 * length (tbl el c) + S fuel)), el2. split.
    + cbn [notify_run notify_next]. rewrite (proj2 (Z.ltb_lt c E_PRIO_NR)), (proj2 (Z.leb_gt (prio el) st)) by (unfold E_PRIO_NR; lia). cbn [mbind option_bind called]. rewrite P4, E. cbn [mbind option_bind app].
      rewrite (seqZ_cons c (9 - c)) by lia. cbn [fmap list_fmap concat]. replace (Z.pred (9 - c)) with (9 - (c + 1)) by lia. replace (Z.succ c) with (c + 1) by lia. do 3 f_equal.
      f_equal. apply list_fmap_ext. intros i p Hp. apply lookup_seqZ in Hp as [-> _]. apply P3. lia.
    + intros p. rewrite Hemp. destruct (decide (p = c)) as [->|Hne]; [rewrite decide_False, decide_True by (unfold E_PRIO_NR; lia); done|].
      destruct (P3 p Hne) as [-> _]. destruct (decide (c + 1 <= p < 9)), (decide (c <= p < 9)); try done; lia.
Qed.
End Order.

(** C16: When the handlers send nothing, the delivery ends and calls the handlers of all the waiting events, those of a higher priority first and those of a priority in the
    order of their queue. *)
Theorem events_by_priority s fifo : rtc (event_step fifo) event_start s -> npc s = NOut -> event_is_pending (listner s) = true ->
  exists fuel el, local_event_listner_notify fuel (listner s) = Some (el, concat (tbl (listner s) <$> seqZ 0 E_PRIO_NR)) /\
    forall p, 0 <= p < E_PRIO_NR -> tbl el p = [].
Proof.
  intros Hs Ho Hpe. pose proof (event_reach fifo s Hs) as I. pose proof (ei_prio _ _ I) as [Hp1 Hp2]. specialize (Hp2 Hpe). unfold local_event_listner_notify, notify_enter.
  set (st := prio (listner s)) in *. set (el1 := Listner _ _ _ _ _).
  destruct (top_run (Z.to_nat (E_PRIO_NR - st)) el1 st st 0) as (fuel & el & E & Hemp); [lia|lia|cbn; rewrite u32_small by (unfold is_u32, E_PRIO_NR in *; lia); lia| |].
  { intros p Hp. cbn. split; [apply (ei_count _ _ I); lia|]. pose proof (queue_len fifo s p I ltac:(lia)). pose proof (ei_len _ _ I). lia. }
  assert (Hlow : forall p, 0 <= p < E_PRIO_NR -> p < st -> tbl (listner s) p = []).
  { intros p Hp Hlt. destruct (tbl (listner s) p) eqn:Et; [done|]. destruct (ei_seen _ _ I p Hp ltac:(congruence)) as [H|[_ H]]; [rewrite Ho in H; cbn in H; lia|unfold st in Hlt; lia]. }
  exists fuel, el. split.
  - rewrite E. do 2 f_equal. replace (seqZ 0 E_PRIO_NR) with (seqZ 0 st ++ seqZ st (E_PRIO_NR - st)) by (replace E_PRIO_NR with (st + (E_PRIO_NR - st)) at 2 by lia; rewrite (seqZ_app 0 st (E_PRIO_NR - st)) by lia; done).
    rewrite fmap_app, concat_app. assert (E0 : concat (tbl (listner s) <$> seqZ 0 st) = []); [|rewrite E0; done].
    apply concat_nil_Forall, Forall_forall. intros x Hx. apply list_elem_of_fmap in Hx as (p & -> & Hp). apply elem_of_seqZ in Hp. apply Hlow; lia.
  - intros p Hp. rewrite Hemp. destruct (decide (st <= p < E_PRIO_NR)); [done|]. apply Hlow; [done|lia].
Qed.

Lemma events_by_priority_witness : rtc (event_step true) event_start (demo_event 0) /\ npc (demo_event 0) = NOut /\
  exists fuel el, local_event_listner_notify fuel (listner (demo_event 0)) = Some (el, concat (tbl (listner (demo_event 0)) <$> seqZ 0 E_PRIO_NR)) /\
    forall p, 0 <= p < E_PRIO_NR -> tbl el p = [].
Proof.
  assert (Hr : rtc (event_step true) event_start (demo_event 0)).
  { eapply rtc_r; [apply rtc_refl|]. apply (step_send true event_start (Event 10 5) true); [reflexivity|unfold E_PRIO_NR; cbn; lia|done|vm_compute; reflexivity]. }
  split; [exact Hr|]. split; [reflexivity|]. apply (events_by_priority (demo_event 0) true Hr); reflexivity.
Defined.
