(* ===== verification/Alarm.v ===== *)
(** * Alarm: the alarms of a processor, [kernel/kern/time.c], whose events go to its local listener ([Event]) *)

From Stdlib Require Import Sorted.
From S2P Require Import Prelude Event.

(** ** Alarms *)

Definition MSEC_PER_TICK : Z := 1.

Record alarm_info_s := Alarm { tm_wakeup : Z; al_event : event_s }.

(** The loop of [alarm_wait] over the queue *)
Fixpoint alarm_insert (info : alarm_info_s) (q : list alarm_info_s) : list alarm_info_s :=
  match q with
  | [] => [info]
  | current :: q' => if tm_wakeup info <=? tm_wakeup current then info :: current :: q' else current :: alarm_insert info q'
  end.

(** [alarm_wait], called when the processor has counted [ticks] *)
Definition alarm_wait (e : event_s) (ticks msec : Z) (q : list alarm_info_s) : list alarm_info_s :=
  let tm_now := ticks *! MSEC_PER_TICK in
  alarm_insert (Alarm (tm_now +! msec) e) q.

(** The loop of [alarm_clock], which sends the events of the alarms that are due to the listener of the processor *)
Fixpoint alarm_loop (tm_msec : Z) (q : list alarm_info_s) (el : event_listner_s) : list alarm_info_s * event_listner_s :=
  match q with
  | [] => ([], el)
  | info :: q' => if tm_msec <? tm_wakeup info then (q, el) else alarm_loop tm_msec q' (local_event_send (al_event info) el true)
  end.
Definition alarm_clock (ticks_nr : Z) (q : list alarm_info_s) (el : event_listner_s) : list alarm_info_s * event_listner_s :=
  alarm_loop (ticks_nr *! MSEC_PER_TICK) q el.

Section Alarms.
Implicit Types (q : list alarm_info_s).

Definition before_al (a b : alarm_info_s) : Prop := tm_wakeup a <= tm_wakeup b.

Lemma alarm_insert_perm info q : alarm_insert info q ≡ₚ info :: q.
Proof. induction q as [|c q IH]; cbn; [done|]. destruct (_ <=? _); [done|]. rewrite IH. apply Permutation_swap. Qed.

Lemma alarm_insert_sorted info q : StronglySorted before_al q -> StronglySorted before_al (alarm_insert info q).
Proof.
  induction 1 as [|c q Hs IH Hc]; cbn; [repeat constructor|]. destruct (Z.leb_spec (tm_wakeup info) (tm_wakeup c)) as [Hle|Hlt].
  - constructor; [constructor; done|]. constructor; [exact Hle|]. eapply Forall_impl; [exact Hc|]. intros x Hx. unfold before_al in *. lia.
  - constructor; [done|]. rewrite alarm_insert_perm. constructor; [unfold before_al; lia|done].
Qed.

(** What the clock takes away from a sorted queue *)
Lemma alarm_loop_spec now q el : StronglySorted before_al q ->
  alarm_loop now q el = (filter (fun a => now < tm_wakeup a) q, foldl (fun el a => local_event_send (al_event a) el true) el (filter (fun a => tm_wakeup a <= now) q)).
Proof.
  intros Hs. revert el. induction Hs as [|a q Hs IH Ha]; intros el; cbn [alarm_loop]; [done|]. rewrite !filter_cons. destruct (Z.ltb_spec now (tm_wakeup a)) as [Hlt|Hge].
  - rewrite decide_True, decide_False by lia.
    assert (E : filter (fun a => now < tm_wakeup a) q = q /\ filter (fun a => tm_wakeup a <= now) q = []); [|destruct E as [-> ->]; done].
    clear IH Hs. induction Ha as [|b q Hb Ha IH]; [done|]. unfold before_al in Hb. rewrite !filter_cons, decide_True, decide_False by lia. destruct IH as [-> ->]. done.
  - rewrite decide_False, decide_True by lia. rewrite IH. done.
Qed.
End Alarms.

(** The events of the alarms [l], sent to the listener one after the other *)
Definition send_all (el : event_listner_s) (l : list alarm_info_s) : event_listner_s := foldl (fun el a => local_event_send (al_event a) el true) el l.

(** The processor: calls of [alarm_wait] and ticks of the clock; [asked] is the log of the calls *)
Record clock_sys := Clock { ticks : Z; alarms : list alarm_info_s; events : event_listner_s; asked : list alarm_info_s }.

Inductive clock_step (s : clock_sys) : clock_sys -> Prop :=
| clock_wait e msec : 0 <= msec -> ticks s * MSEC_PER_TICK + msec < 2 ^ 32 ->
    clock_step s (Clock (ticks s) (alarm_wait e (ticks s) msec (alarms s)) (events s) (asked s ++ [Alarm (ticks s * MSEC_PER_TICK + msec) e]))
| clock_tick q el : (ticks s + 1) * MSEC_PER_TICK < 2 ^ 32 -> alarm_clock (ticks s + 1) (alarms s) (events s) = (q, el) ->
    clock_step s (Clock (ticks s + 1) q el (asked s)).

Definition clock_start : clock_sys := Clock 0 [] event_listner_init [].

Record cinv (s : clock_sys) : Prop := {
  ci_ticks : 0 <= ticks s /\ ticks s * MSEC_PER_TICK < 2 ^ 32;
  ci_sorted : StronglySorted before_al (alarms s);
  ci_wait : forall a, a ∈ alarms s -> ticks s * MSEC_PER_TICK <= tm_wakeup a;
  ci_sent : exists sent, alarms s ++ sent ≡ₚ asked s /\ events s = send_all event_listner_init sent /\ forall a, a ∈ sent -> tm_wakeup a <= ticks s * MSEC_PER_TICK;
}.

Lemma filter_split {A} (P Q : A -> Prop) `{!forall x, Decision (P x)} `{!forall x, Decision (Q x)} (l : list A) :
  (forall x, Q x <-> ~ P x) -> filter P l ++ filter Q l ≡ₚ l.
Proof.
  intros Hpq. induction l as [|x l IH]; [done|]. rewrite !filter_cons. destruct (decide (P x)) as [Hp|Hp], (decide (Q x)) as [Hq|Hq]; cbn.
  - destruct (proj1 (Hpq x) Hq Hp).
  - rewrite IH. done.
  - rewrite <- Permutation_middle, IH. done.
  - destruct Hq. apply Hpq. done.
Qed.

(** A tick, with any events in the listener *)
Lemma clock_due s el : cinv s -> (ticks s + 1) * MSEC_PER_TICK < 2 ^ 32 ->
  exists due rest, alarm_clock (ticks s + 1) (alarms s) el = (rest, send_all el due) /\ due ++ rest ≡ₚ alarms s /\ StronglySorted before_al rest /\
    (forall a, a ∈ due -> ticks s * MSEC_PER_TICK <= tm_wakeup a <= (ticks s + 1) * MSEC_PER_TICK) /\
    (forall a, a ∈ rest -> (ticks s + 1) * MSEC_PER_TICK < tm_wakeup a).
Proof.
  intros [[H1 H1'] H2 H3 H4] Hb. unfold alarm_clock. rewrite u32_small by (unfold is_u32, MSEC_PER_TICK in *; lia). rewrite alarm_loop_spec by done.
  eexists _, _. split; [reflexivity|]. split; [apply filter_split; intros x; lia|]. split_and!.
  - clear -H2. induction H2 as [|a q Hs IH Ha]; [constructor|]. rewrite filter_cons. destruct (decide _); [|done]. constructor; [done|].
    apply Forall_forall. intros x Hx. apply list_elem_of_filter in Hx as [_ Hx]. rewrite Forall_forall in Ha. auto.
  - intros a Ha. apply list_elem_of_filter in Ha as [Ha Hin]. specialize (H3 a Hin). lia.
  - intros a Ha. apply list_elem_of_filter in Ha as [Ha _]. lia.
Qed.

Lemma clock_inv s s' : cinv s -> clock_step s s' -> cinv s'.
Proof.
  intros I [e msec Hm Hb|q el Hb E].
  - destruct I as [[H1 H1'] H2 H3 (sent & H4 & H5 & H6)]. unfold MSEC_PER_TICK in *. unfold alarm_wait.
    replace (ticks s *! MSEC_PER_TICK +! msec) with (ticks s * 1 + msec) by (rewrite u32_add_l, u32_small; [done|unfold is_u32, MSEC_PER_TICK; lia]).
    split; cbn; unfold MSEC_PER_TICK; try done.
    + apply alarm_insert_sorted. done.
    + intros a Ha. rewrite alarm_insert_perm in Ha. apply elem_of_cons in Ha as [->|Ha]; [cbn; lia|]. apply H3. done.
    + exists sent. split_and!; [|done|done]. rewrite alarm_insert_perm, <- H4. cbn. rewrite Permutation_cons_append. done.
  - destruct (clock_due s (events s) I Hb) as (due & rest & E' & Hp & Hs & Hd & Hr). rewrite E' in E. injection E as <- <-.
    destruct I as [[H1 H1'] H2 H3 (sent & H4 & H5 & H6)]. unfold MSEC_PER_TICK in *. split; cbn; unfold MSEC_PER_TICK; [lia|done| |].
    + intros a Ha. specialize (Hr a Ha). lia.
    + exists (sent ++ due). split_and!.
      * rewrite <- H4, <- Hp, (Permutation_app_comm sent), app_assoc. apply Permutation_app_tail, Permutation_app_comm.
      * unfold send_all. rewrite foldl_app. unfold send_all in H5. rewrite <- H5. done.
      * intros a [Ha|Ha]%elem_of_app; [specialize (H6 a Ha)|specialize (Hd a Ha)]; lia.
Qed.

(** C15: Alarms are exact as long as the clock does not wrap around: in any sequence of calls of [alarm_wait] and of ticks, the queue stays in the order of the times, every alarm that was asked for
    either waits or has had its event sent to the listener of the processor, once, and never before its time, and the listener has received nothing else; no alarm that waits is overdue; and
    whatever the listener holds, the next tick sends it exactly the events of the alarms whose time it is the first tick to reach, and leaves the others in the queue. *)
Theorem alarm_exact s : rtc clock_step clock_start s ->
  StronglySorted before_al (alarms s) /\
  (exists sent, alarms s ++ sent ≡ₚ asked s /\ events s = send_all event_listner_init sent /\ forall a, a ∈ sent -> tm_wakeup a <= ticks s * MSEC_PER_TICK) /\
  (forall a, a ∈ alarms s -> ticks s * MSEC_PER_TICK <= tm_wakeup a) /\
  (forall el, (ticks s + 1) * MSEC_PER_TICK < 2 ^ 32 ->
     exists due rest, alarm_clock (ticks s + 1) (alarms s) el = (rest, send_all el due) /\ due ++ rest ≡ₚ alarms s /\ StronglySorted before_al rest /\
       (forall a, a ∈ due -> ticks s * MSEC_PER_TICK <= tm_wakeup a <= (ticks s + 1) * MSEC_PER_TICK) /\
       (forall a, a ∈ rest -> (ticks s + 1) * MSEC_PER_TICK < tm_wakeup a)).
Proof.
  intros Hs. assert (I0 : cinv clock_start).
  { split; cbn; try done; [constructor|intros a Ha; inversion Ha|]. exists []. split_and!; try done. intros a Ha. inversion Ha. }
  assert (I : cinv s) by (revert I0; induction Hs as [s|s1 s2 s3 Hs _ IH]; [done|]; intros I; apply IH; eapply clock_inv; done).
  split_and!; try apply I. intros el. apply clock_due. done.
Qed.

(** Two alarms, the second one due first *)
Definition demo_clock : clock_sys :=
  let e1 := Event 1 8 in let e2 := Event 2 8 in
  let s1 := Clock 0 (alarm_wait e1 0 3 []) event_listner_init [Alarm 3 e1] in
  let s2 := Clock 0 (alarm_wait e2 0 1 (alarms s1)) event_listner_init [Alarm 3 e1; Alarm 1 e2] in
  let '(q, el) := alarm_clock 1 (alarms s2) (events s2) in Clock 1 q el (asked s2).

(** One event was sent and one alarm waits; the next tick sends nothing. *)
Lemma alarm_exact_witness : rtc clock_step clock_start demo_clock /\ alarms demo_clock = [Alarm 3 (Event 1 8)] /\
  events demo_clock = send_all event_listner_init [Alarm 1 (Event 2 8)] /\ events demo_clock <> event_listner_init /\
  (exists sent, alarms demo_clock ++ sent ≡ₚ asked demo_clock /\ events demo_clock = send_all event_listner_init sent) /\
  exists due rest, alarm_clock 2 (alarms demo_clock) (events demo_clock) = (rest, send_all (events demo_clock) due) /\ due ++ rest ≡ₚ alarms demo_clock.
Proof.
  assert (Hr : rtc clock_step clock_start demo_clock).
  { eapply rtc_l; [apply (clock_wait clock_start (Event 1 8) 3); vm_compute; [discriminate|reflexivity]|].
    eapply rtc_l; [eapply (clock_wait _ (Event 2 8) 1); vm_compute; [discriminate|reflexivity]|]. eapply rtc_l; [|apply rtc_refl].
    apply (clock_tick (Clock 0 [Alarm 1 (Event 2 8); Alarm 3 (Event 1 8)] event_listner_init [Alarm 3 (Event 1 8); Alarm 1 (Event 2 8)])); [vm_compute; reflexivity|]. reflexivity. }
  split; [exact Hr|]. split; [reflexivity|]. split; [reflexivity|]. split; [discriminate|].
  destruct (alarm_exact demo_clock Hr) as (_ & (sent & H1 & H2 & _) & _ & H). split; [exists sent; split; [exact H1|exact H2]|].
  destruct (H (events demo_clock)) as (due & rest & E & Hp & _); [vm_compute; reflexivity|]. exists due, rest. split; [exact E|exact Hp].
Defined.

(** The clock wraps around after 2^32 milliseconds: an alarm for later fires at the next tick. *)
Theorem alarm_wraps e : fst (alarm_clock (2 ^ 32 - 2) (alarm_wait e (2 ^ 32 - 3) 10 []) event_listner_init) = [].
Proof. reflexivity. Qed.
