(* ===== verification/EventRemote.v ===== *)
(** * EventRemote: events for another processor, [remote_event_send] and [remote_event_listner_notify] of [kernel/kern/event.c]

    Processors put events in the FIFOs of the remote listener of another one, the owner, and set its flag; the owner clears the flag, empties the
    FIFOs into its local listener, and starts again when the flag is set.  The FIFOs are those of [Kfifo] with several writers ([KFIFO_MW]): a put is the steps of [multi_put], a get those of
    [single_get], and the words that they share are loaded and stored one at a time, as is the flag, which both sides read and write without a lock.  A put that fails (the FIFO is full, or
    [multi_put] gave up) is tried again until a tick has passed; then the event goes through the local listener of the sender, to be sent again by a handler ([re_send_backoff]). *)

From S2P Require Import Prelude Ring Kfifo Event.

Definition CONFIG_REL_KFIFO_SIZE : Z := 32.

(** The handlers: the one that sends an event again, and the others *)
Inductive handler := ReSend | Other (h : Z).

(** [e_info] and [e_bckp] of an event, as far as they change here; an event is its address *)
Record event_info := Info { i_prio : Z; i_handler : handler; i_arg : Z }.

(** A sender: outside; in [kfifo_put], with the priority that it has read; in [re_send_backoff]; before the load of the flag; before the load and the store of [flags |= EVENT_PENDING]; before
    the interrupt *)
Inductive spc := SOut | SPut (e prio : Z) (pc : put_pc) | SBackoff (e prio : Z) | SRead (prio : Z) | SLoad (prio : Z) (isPending : bool) | SStore (prio : Z) (isPending : bool) (v : Z)
  | SIpi (prio : Z) (isPending : bool).

(** The owner: outside; before the load and the store of [flags &= ~EVENT_PENDING]; in [kfifo_get], in the loops over the FIFOs; before the test of the flag *)
Inductive lpc := LOut | LLoad | LStore (v : Z) | LDrain (current_prio : Z) (pc : get_pc) | LTest.

(** [locals]: the local listeners of the processors *)
Record remote_sys := Remote {
  rflags : Z; fifos : Z -> kfifo_s; infos : Z -> event_info; bckps : Z -> event_info; senders : Z -> spc; lstate : lpc; locals : Z -> event_listner_s; ipis : Z;
}.

Definition set_rflags v s := Remote v (fifos s) (infos s) (bckps s) (senders s) (lstate s) (locals s) (ipis s).
Definition set_fifo k f s := Remote (rflags s) (<[k := f]> (fifos s)) (infos s) (bckps s) (senders s) (lstate s) (locals s) (ipis s).
Definition set_infos i b s := Remote (rflags s) (fifos s) i b (senders s) (lstate s) (locals s) (ipis s).
Definition set_sender t p s := Remote (rflags s) (fifos s) (infos s) (bckps s) (<[t := p]> (senders s)) (lstate s) (locals s) (ipis s).
Definition set_lstate p s := Remote (rflags s) (fifos s) (infos s) (bckps s) (senders s) p (locals s) (ipis s).
Definition set_locals l s := Remote (rflags s) (fifos s) (infos s) (bckps s) (senders s) (lstate s) l (ipis s).
Definition send_ipi s := Remote (rflags s) (fifos s) (infos s) (bckps s) (senders s) (lstate s) (locals s) (ipis s + 1).

Definition pending (v : Z) : bool := negb (Z.land v EVENT_PENDING =? 0).

(** [local_event_send] to the listener of the processor [t] *)
Definition send_local (t e : Z) (isFIFO : bool) (s : remote_sys) : remote_sys :=
  set_locals (<[t := local_event_send (Event e (i_prio (infos s e))) (locals s t) isFIFO]> (locals s)) s.

(** [re_send_backoff] after the test of the time, and the beginning of [re_send_backoff_handler]; [el] is the remote listener *)
Definition re_send_backoff (el t e : Z) (s : remote_sys) : remote_sys :=
  let s := set_infos (<[e := Info E_CHR ReSend el]> (infos s)) (<[e := infos s e]> (bckps s)) s in
  send_local t e false s.
Definition event_restore (e : Z) (s : remote_sys) : remote_sys := set_infos (<[e := bckps s e]> (infos s)) (bckps s) s.

(** [remote_event_send], one access at a time; [late]: a tick has passed since the call *)
Definition remote_event_send (el t : Z) (late : bool) (s : remote_sys) : remote_sys :=
  match senders s t with
  | SOut => s
  | SPut e prio pc =>
      let '(f, pc) := put_step (fifos s prio) e pc in
      set_sender t (match pc with PutDone err => if err =? 0 then SRead prio else SBackoff e prio | _ => SPut e prio pc end) (set_fifo prio f s)
  | SBackoff e prio => if late then set_sender t (SRead prio) (re_send_backoff el t e s) else set_sender t (SPut e prio (PutReadW 0)) s
  | SRead prio => set_sender t (SLoad prio (pending (rflags s))) s
  | SLoad prio b => set_sender t (SStore prio b (rflags s)) s
  | SStore prio b v => set_sender t (SIpi prio b) (set_rflags (Z.lor v EVENT_PENDING) s)
  | SIpi prio b => set_sender t SOut (if (prio <? E_FUNC) && negb b then send_ipi s else s)
  end.

(** [remote_event_listner_notify] on the processor [own], one access at a time *)
Definition remote_event_listner_notify (own : Z) (s : remote_sys) : remote_sys :=
  match lstate s with
  | LOut => s
  | LLoad => set_lstate (LStore (rflags s)) s
  | LStore v => set_lstate (LDrain E_CLK (GetReadR 0)) (set_rflags (Z.land v (~! EVENT_PENDING)) s)
  | LDrain p pc =>
      if p <? E_PRIO_NR then
        let '(f, pc) := get_step (fifos s p) pc in
        let s := set_fifo p f s in
        match pc with
        | GetDone err v =>
            if err =? 0 then set_lstate (LDrain p (GetReadR 0)) (match v with Some e => send_local own e false s | None => s end)
            else set_lstate (LDrain (p + 1) (GetReadR 0)) s
        | _ => set_lstate (LDrain p pc) s
        end
      else set_lstate LTest s
  | LTest => set_lstate (if pending (rflags s) then LLoad else LOut) s
  end.

Definition is_prio (p : Z) : Prop := 0 <= p < E_PRIO_NR.

(** The start of [remote_event_send], which reads the priority *)
Definition call_send (t e : Z) (s : remote_sys) : remote_sys := set_sender t (SPut e (i_prio (infos s e)) (PutReadW 0)) s.

(** [el] is the address of the remote listener and [own] its processor.  A call of a sender, with an event or, in a handler, with one that was put off; the access of a sender or of the owner;
    and whatever other code does to the events and to the local listeners. *)
Inductive remote_step (el own : Z) (s : remote_sys) : remote_sys -> Prop :=
| remote_call t e : senders s t = SOut -> is_prio (i_prio (infos s e)) -> remote_step el own s (call_send t e s)
| remote_resend t e : senders s t = SOut -> is_prio (i_prio (bckps s e)) -> remote_step el own s (call_send t e (event_restore e s))
| remote_send t late : senders s t <> SOut -> remote_step el own s (remote_event_send el t late s)
| remote_enter : lstate s = LOut -> pending (rflags s) = true -> remote_step el own s (set_lstate LLoad s)
| remote_notify : lstate s <> LOut -> remote_step el own s (remote_event_listner_notify own s)
| remote_other i b l : remote_step el own s (set_locals l (set_infos i b s)).

(** [event_listner_init] of a remote listener; [mem p]: what the memory of the FIFO [p] holds *)
Definition remote_listner_init (mem : Z -> list Z) (p : Z) : kfifo_s :=
  (kfifo_init (Kfifo 0 0 Single Single 0 []) CONFIG_REL_KFIFO_SIZE KFIFO_MW (fun _ => Some (mem p))).2.

Definition remote_start (mem : Z -> list Z) (i b : Z -> event_info) (l : Z -> event_listner_s) : remote_sys :=
  Remote 0 (remote_listner_init mem) i b (fun _ => SOut) LOut l 0.

(** ** The FIFOs *)

Definition in_table (i : Z) : Prop := 0 <= i < CONFIG_REL_KFIFO_SIZE.

Record fifo_wf (f : kfifo_s) : Prop := {
  fw_modes : op_put f = Multi /\ op_get f = Single;
  fw_size : size f = CONFIG_REL_KFIFO_SIZE /\ zlen (Kfifo.tbl f) = CONFIG_REL_KFIFO_SIZE;
  fw_rd : in_table (rdidx f); fw_wr : in_table (wridx f);
}.

Lemma next_in_table w : in_table ((w +! 1) mod CONFIG_REL_KFIFO_SIZE).
Proof. apply Z.mod_pos_bound. done. Qed.

(** The place that a put is going to write to *)
Definition put_ok (pc : put_pc) : Prop := match pc with PutReadR _ w | PutCas _ w | PutStore w => in_table w | PutPublish _ => False | _ => True end.

Lemma put_step_wf f v pc f' pc' : fifo_wf f -> put_ok pc -> put_step f v pc = (f', pc') -> fifo_wf f' /\ put_ok pc' /\ rdidx f' = rdidx f.
Proof.
  intros [[M1 M2] [S1 S2] R W] Hp E. destruct pc as [c|c w|c w|w|w|e]; cbn in E, Hp; rewrite ?S1, ?M1 in E.
  - injection E as <- <-. done.
  - destruct (_ =? _); injection E as <- <-; done.
  - destruct (wridx f =? w), (c =? threshold); injection E as <- <-; (split; [split; cbn; try done; apply next_in_table|done]).
  - injection E as <- <-. split; [|done]. split; cbn; try done. split; [done|]. rewrite zlen_zset. done.
  - done.
  - injection E as <- <-. done.
Qed.

(** The place that a get reads is the one of the index, which only the owner changes. *)
Definition get_ok (f : kfifo_s) (pc : get_pc) : Prop :=
  match pc with GetReadR _ => True | GetReadW _ r | GetLoad _ r => r = rdidx f | GetPublish r v => r = rdidx f /\ is_Some v | GetCas _ _ _ | GetDone _ _ => False end.

Lemma get_step_wf f pc f' pc' : fifo_wf f -> get_ok f pc -> get_step f pc = (f', pc') ->
  fifo_wf f' /\ wridx f' = wridx f /\
  ((get_ok f' pc' /\ rdidx f' = rdidx f) \/ (pc' = GetDone EAGAIN None /\ f' = f /\ kfifo_isEmpty f = true) \/ (exists e, pc' = GetDone 0 (Some e))).
Proof.
  intros F Hp E. pose proof F as [[M1 M2] [S1 S2] R W]. destruct pc as [c|c r|c r|c r v|r v|e v]; cbn in E, Hp; rewrite ?S1, ?M2 in E; try done.
  - injection E as <- <-. split_and!; [done|done|left; done].
  - subst r. unfold kfifo_isEmpty. destruct (rdidx f =? wridx f) eqn:Ee; injection E as <- <-; (split_and!; [done|done|]); [right; left|left]; done.
  - injection E as <- <-. split_and!; [done|done|]. left. cbn. destruct (zget_is_Some (Kfifo.tbl f) r) as [x Hx]; [subst r; unfold in_table in R; lia|]. rewrite Hx. eauto.
  - destruct Hp as [-> [e ->]]. injection E as <- <-. split; [split; cbn; try done; apply next_in_table|]. split; [done|]. right. right. eauto.
Qed.

(** ** No FIFO is forgotten *)

(** A call that has still to set the flag *)
Definition will_announce (p : spc) : bool := match p with SOut | SIpi _ _ => false | _ => true end.
(** The owner will still look at the FIFO [p]. *)
Definition will_visit (l : lpc) (p : Z) : bool := match l with LLoad | LStore _ => true | LDrain k _ => k <=? p | _ => false end.

Definition announced (s : remote_sys) (p : Z) : Prop :=
  pending (rflags s) = true \/ (exists t, will_announce (senders s t) = true) \/ will_visit (lstate s) p = true.

Definition sender_ok (p : spc) : Prop := match p with SPut _ prio pc => is_prio prio /\ put_ok pc | SBackoff _ prio => is_prio prio | _ => True end.
Definition owner_ok (s : remote_sys) : Prop := match lstate s with LDrain p pc => 0 <= p /\ get_ok (fifos s p) pc | _ => True end.

Record rinv (s : remote_sys) : Prop := {
  ri_seen : forall p, is_prio p -> kfifo_isEmpty (fifos s p) = false -> announced s p;
  ri_fifo : forall p, fifo_wf (fifos s p);
  ri_sender : forall t, sender_ok (senders s t);
  ri_owner : owner_ok s;
}.

Lemma insert_case {A} (P : A -> Prop) (m : Z -> A) t x u : P x -> P (m u) -> P (<[t := x]> m u).
Proof. intros Hx Hm. destruct (decide (u = t)) as [->|Hne]; [rewrite fn_lookup_insert|rewrite fn_lookup_insert_ne by done]; done. Qed.

(** Of a state of the same FIFOs, flag and owner, with a sender that has still to set the flag *)
Lemma sender_inv s s' t p : rinv s -> rflags s' = rflags s -> fifos s' = fifos s -> lstate s' = lstate s -> senders s' = <[t := p]> (senders s) ->
  sender_ok p -> will_announce p = true \/ will_announce (senders s t) = false -> rinv s'.
Proof.
  intros [H1 H2 H3 H4] E1 E2 E3 E4 Hp Hw. split.
  - intros q Hq. rewrite E2. intros He. unfold announced. rewrite E1, E3, E4. destruct (H1 q Hq He) as [H|[[u H]|H]]; [left; done| |right; right; done]. right. left.
    destruct (decide (u = t)) as [->|Hne]; [exists t; rewrite fn_lookup_insert; destruct Hw; congruence|exists u; rewrite fn_lookup_insert_ne; done].
  - rewrite E2. done.
  - intros u. rewrite E4. apply insert_case; done.
  - unfold owner_ok. rewrite E3, E2. done.
Qed.

(** A put under way announces what it publishes. *)
Lemma put_inv s t e prio pc f pc' p : rinv s -> senders s t = SPut e prio pc -> put_step (fifos s prio) e pc = (f, pc') -> sender_ok p -> will_announce p = true ->
  rinv (set_sender t p (set_fifo prio f s)).
Proof.
  intros [H1 H2 H3 H4] Es E Hp Hw. pose proof (H3 t) as Ht. rewrite Es in Ht. destruct Ht as [Hr Hpc]. destruct (put_step_wf _ _ _ _ _ (H2 prio) Hpc E) as (Hf & _ & Erd). split; cbn.
  - intros q _ _. right. left. exists t. cbn. rewrite fn_lookup_insert. done.
  - intros q. apply insert_case; done.
  - intros u. apply insert_case; done.
  - unfold owner_ok in *. cbn. destruct (lstate s) as [| |v|k g|]; try done. destruct H4 as [Hk Hg]. split; [done|].
    destruct (decide (k = prio)) as [->|Hne]; [rewrite fn_lookup_insert|rewrite fn_lookup_insert_ne by done; done]. unfold get_ok in *. rewrite Erd. done.
Qed.

Lemma send_step_inv el s t late : rinv s -> rinv (remote_event_send el t late s).
Proof.
  intros I. unfold remote_event_send. destruct (senders s t) as [|e prio pc|e prio|prio|prio b|prio b v|prio b] eqn:E; [done|..].
  - pose proof (ri_sender _ I t) as Ht. rewrite E in Ht. destruct Ht as [Hr Hpc]. destruct (put_step (fifos s prio) e pc) as [f pc'] eqn:Ep.
    destruct (put_step_wf _ _ _ _ _ (ri_fifo _ I prio) Hpc Ep) as (_ & Hpc' & _). apply (put_inv s t e prio pc f pc'); try done.
    + destruct pc' as [| | | | |err]; try (destruct (err =? 0)); done.
    + destruct pc' as [| | | | |err]; try (destruct (err =? 0)); done.
  - pose proof (ri_sender _ I t) as Ht. rewrite E in Ht. destruct late; [apply (sender_inv s _ t (SRead prio))|apply (sender_inv s _ t (SPut e prio (PutReadW 0)))]; try done; left; done.
  - apply (sender_inv s _ t (SLoad prio (pending (rflags s)))); try done. left. done.
  - apply (sender_inv s _ t (SStore prio b (rflags s))); try done. left. done.
  - destruct I as [H1 H2 H3 H4]. split; cbn; try done; [|intros u; apply insert_case; done]. intros q _ _. left. apply pending_set.
  - apply (sender_inv s _ t SOut); try done; try (destruct (_ && _); done). right. rewrite E. done.
Qed.

Lemma notify_step_inv own s : rinv s -> rinv (remote_event_listner_notify own s).
Proof.
  intros I. pose proof I as [H1 H2 H3 H4]. unfold remote_event_listner_notify. destruct (lstate s) as [| |v|p g|] eqn:E; [done|..].
  - split; try done. intros q Hq He. right. right. done.
  - split; try done. intros q Hq He. right. right. cbn. apply Z.leb_le. apply Hq.
  - unfold owner_ok in H4. rewrite E in H4. destruct H4 as [Hp0 Hg]. destruct (p <? E_PRIO_NR) eqn:Hp.
    + destruct (get_step (fifos s p) g) as [f g'] eqn:Eg. destruct (get_step_wf _ _ _ _ (H2 p) Hg Eg) as (Hf & Ew & Hcase).
      assert (Hstay : forall s', rflags s' = rflags s -> fifos s' = <[p := f]> (fifos s) -> senders s' = senders s -> (exists g2, lstate s' = LDrain p g2 /\ get_ok f g2) -> rinv s').
      { intros s' E1 E2 E3 (g2 & E4 & Hg2). split.
        - intros q Hq. rewrite E2. unfold announced. rewrite E1, E3, E4. destruct (decide (q = p)) as [->|Hne]; [intros _; right; right; cbn; apply Z.leb_refl|]. rewrite fn_lookup_insert_ne by done.
          intros He. destruct (H1 q Hq He) as [H|[H|H]]; [left; done|right; left; done|right; right]. rewrite E in H. done.
        - intros q. rewrite E2. apply insert_case; done.
        - rewrite E3. done.
        - unfold owner_ok. rewrite E4, E2, fn_lookup_insert. done. }
      destruct Hcase as [[Hg' _]|[(-> & -> & Hempty)|[e ->]]].
      * destruct g' as [| | | | |err v]; try done; (apply Hstay; try done; eexists; split; [reflexivity|done]).
      * cbn [Z.eqb EAGAIN]. split; cbn.
        -- intros q Hq. destruct (decide (q = p)) as [->|Hne]; [rewrite fn_lookup_insert, Hempty; done|]. rewrite fn_lookup_insert_ne by done. intros He. destruct (H1 q Hq He) as [H|[H|H]];
             [left; done|right; left; done|right; right]. rewrite E in H. cbn in H |- *. apply Z.leb_le in H. apply Z.leb_le. lia.
        -- intros q. apply insert_case; done.
        -- done.
        -- split; [lia|done].
      * cbn [Z.eqb]. apply Hstay; try done. eexists. split; [reflexivity|done].
    + split; try done. intros q Hq He. destruct (H1 q Hq He) as [H|[H|H]]; [left; done|right; left; done|]. rewrite E in H. cbn in H. apply Z.leb_le in H. apply Z.ltb_ge in Hp. unfold is_prio in Hq. lia.
  - split; try done; [|unfold owner_ok; cbn; destruct (pending _); done]. intros q Hq He. destruct (H1 q Hq He) as [H|[H|H]]; [|right; left; done|rewrite E in H; done]. right. right. cbn. rewrite H. done.
Qed.

Lemma start_rinv mem i b l : (forall p, zlen (mem p) = CONFIG_REL_KFIFO_SIZE) -> rinv (remote_start mem i b l).
Proof. intros Hm. split; cbn; try done. intros p. split; cbn; try done. Qed.

Lemma remote_reach el own s s' : rinv s -> rtc (remote_step el own) s s' -> rinv s'.
Proof.
  intros I Hs. revert I. induction Hs as [s|s1 s2 s3 Hs _ IH]; [done|]. intros I. apply IH.
  destruct Hs as [t e Hat He|t e Hat He|t late Hat|Hat Hp|Hat|i b l].
  - apply (sender_inv s1 _ t (SPut e (i_prio (infos s1 e)) (PutReadW 0))); try done. left. done.
  - apply (sender_inv s1 _ t (SPut e (i_prio (bckps s1 e)) (PutReadW 0))); try done; [|left; done]. unfold call_send, event_restore. cbn. rewrite fn_lookup_insert. done.
  - apply send_step_inv. done.
  - destruct I as [H1 H2 H3 H4]. split; try done. intros q Hq He. right. right. done.
  - apply notify_step_inv. done.
  - destruct I as [H1 H2 H3 H4]. split; done.
Qed.

(** ** The owner alone empties the FIFOs *)

(** What the table of a FIFO holds from the index of the reads to the index of the writes *)
Definition fifo_queue (f : kfifo_s) : list Z :=
  (fun i => default 0 (zget (Kfifo.tbl f) (ring_idx (size f) (rdidx f) i))) <$> seqZ 0 ((wridx f - rdidx f) mod size f).

Lemma wf_holds f : fifo_wf f -> holds f (fifo_queue f).
Proof.
  intros [_ [S1 S2] R W]. unfold fifo_queue. rewrite S1. unfold in_table, CONFIG_REL_KFIFO_SIZE in *. set (n := (wridx f - rdidx f) mod 32). assert (Hn : 0 <= n < 32) by (apply Z.mod_pos_bound; lia).
  assert (Hl : zlen ((fun i => default 0 (zget (Kfifo.tbl f) (ring_idx 32 (rdidx f) i))) <$> seqZ 0 n) = n) by (unfold zlen; rewrite length_fmap, length_seqZ; lia).
  unfold holds. rewrite Hl, S1. split_and!; try lia.
  - unfold ring_idx, n. rewrite Zplus_mod_idemp_r. replace (rdidx f + (wridx f - rdidx f)) with (wridx f) by lia. symmetry. apply Z.mod_small. lia.
  - intros i Hi. rewrite Hl in Hi. unfold zget at 2. rewrite list_lookup_fmap, lookup_seqZ_lt by lia. cbn [fmap option_fmap option_map]. rewrite Z2Nat.id, Z.add_0_l by lia.
    destruct (zget_is_Some (Kfifo.tbl f) (ring_idx 32 (rdidx f) i)) as [x ->]; [rewrite S2; apply Z.mod_pos_bound; lia|done].
Qed.

(** The events [q], sent to the head of the queues of a local listener *)
Definition send_heads (infos : Z -> event_info) (el : event_listner_s) (q : list Z) : event_listner_s :=
  foldl (fun el e => local_event_send (Event e (i_prio (infos e))) el false) el q.

(** [s'] is [s] with the FIFO [k] emptied into the local listener *)
Record drained (own k : Z) (q : list Z) (s s' : remote_sys) : Prop := {
  dr_state : lstate s' = LDrain (k + 1) (GetReadR 0);
  dr_same : rflags s' = rflags s /\ senders s' = senders s /\ infos s' = infos s;
  dr_fifos : forall p, p <> k -> fifos s' p = fifos s p;
  dr_empty : kfifo_isEmpty (fifos s' k) = true;
  dr_local : locals s' own = send_heads (infos s) (locals s own) q;
}.

Lemma iter_more {A} (f : A -> A) n m x : Nat.iter (n + m) f x = Nat.iter m f (Nat.iter n f x).
Proof. rewrite Nat.add_comm. apply Nat.iter_add. Qed.

Lemma drain_fifo own k q : is_prio k -> forall s, lstate s = LDrain k (GetReadR 0) -> fifo_wf (fifos s k) -> holds (fifos s k) q ->
  exists n s', Nat.iter n (remote_event_listner_notify own) s = s' /\ drained own k q s s'.
Proof.
  intros Hk. induction q as [|e q IH]; intros s Hl W Hh.
  - exists 2%nat. eexists. split; [reflexivity|]. pose proof (holds_empty _ _ Hh) as He. rewrite bool_decide_true in He by done.
    cbn [Nat.iter nat_rect]. unfold remote_event_listner_notify at 2. rewrite Hl, (proj2 (Z.ltb_lt k _)) by apply Hk. cbn [get_step].
    unfold remote_event_listner_notify. cbn [lstate set_lstate]. rewrite (proj2 (Z.ltb_lt k _)) by apply Hk. cbn [fifos set_lstate set_fifo get_step]. rewrite fn_lookup_insert. rewrite He. cbn [Z.eqb EAGAIN].
    split; cbn; try done; [|rewrite fn_lookup_insert; done]. intros p Hp. rewrite !fn_lookup_insert_ne; done.
  - set (s4 := Nat.iter 4 (remote_event_listner_notify own) s).
    assert (H4 : lstate s4 = LDrain k (GetReadR 0) /\ rflags s4 = rflags s /\ senders s4 = senders s /\ infos s4 = infos s /\ (forall p, p <> k -> fifos s4 p = fifos s p) /\
       fifos s4 k = set_rdidx (fifos s k) ((rdidx (fifos s k) +! 1) mod size (fifos s k)) /\ locals s4 own = local_event_send (Event e (i_prio (infos s e))) (locals s own) false).
    { pose proof (holds_empty _ _ Hh) as He. rewrite bool_decide_false in He by done. destruct (holds_consume _ _ _ Hh) as [Hx _]. destruct W as [[_ M2] _ _ _].
      assert (E : exists x y z, s4 = set_lstate (LDrain k (GetReadR 0)) (send_local own e false
        (set_fifo k (set_rdidx (fifos s k) ((rdidx (fifos s k) +! 1) mod size (fifos s k))) (set_lstate x (set_fifo k (fifos s k) (set_lstate y (set_fifo k (fifos s k) (set_lstate z (set_fifo k (fifos s k) s))))))))).
      { eexists _, _, _. unfold s4. cbn [Nat.iter nat_rect]. unfold remote_event_listner_notify at 4. rewrite Hl, (proj2 (Z.ltb_lt k _)) by apply Hk. cbn [get_step].
        unfold remote_event_listner_notify at 3. cbn [lstate set_lstate]. rewrite (proj2 (Z.ltb_lt k _)) by apply Hk. cbn [fifos set_lstate set_fifo get_step]. rewrite fn_lookup_insert, He.
        unfold remote_event_listner_notify at 2. cbn [lstate set_lstate]. rewrite (proj2 (Z.ltb_lt k _)) by apply Hk. cbn [fifos set_lstate set_fifo get_step]. rewrite fn_lookup_insert, M2, Hx.
        unfold remote_event_listner_notify at 1. cbn [lstate set_lstate]. rewrite (proj2 (Z.ltb_lt k _)) by apply Hk. cbn [fifos set_lstate set_fifo get_step]. rewrite fn_lookup_insert. reflexivity. }
      destruct E as (x & y & z & ->). cbn. rewrite !fn_lookup_insert. split_and!; try done. intros p Hp. rewrite !fn_lookup_insert_ne; done. }
    destruct H4 as (E1 & E2 & E3 & E4 & E5 & E6 & E7). destruct (IH s4 E1) as (n & s' & Hn & [D1 D2 D3 D4 D5]).
    + rewrite E6. destruct W as [M [S1 S2] R Wr]. split; cbn; try done. rewrite S1. apply next_in_table.
    + rewrite E6. apply (holds_consume _ e q Hh).
    + exists (4 + n)%nat, s'. split; [rewrite iter_more; exact Hn|]. split; try done.
      * rewrite E2, E3, E4 in D2. done.
      * intros p Hp. rewrite D3, E5; done.
      * rewrite D5, E4, E7. done.
Qed.

(** The FIFOs from [k] on: the events that they hold, in the order of the priorities *)
Definition from_prio (q : Z -> list Z) (k : Z) : list Z := concat (q <$> seqZ k (E_PRIO_NR - k)).

Lemma drain_from own (q : Z -> list Z) (m : nat) : forall k s, E_PRIO_NR - k = Z.of_nat m -> 0 <= k -> lstate s = LDrain k (GetReadR 0) ->
  (forall p, is_prio p -> k <= p -> fifo_wf (fifos s p) /\ holds (fifos s p) (q p)) -> (forall p, 0 <= p < k -> kfifo_isEmpty (fifos s p) = true) ->
  exists n s', Nat.iter n (remote_event_listner_notify own) s = s' /\ lstate s' = LTest /\ rflags s' = rflags s /\ senders s' = senders s /\
    (forall p, is_prio p -> kfifo_isEmpty (fifos s' p) = true) /\ locals s' own = send_heads (infos s) (locals s own) (from_prio q k).
Proof.
  induction m as [|m IH]; intros k s Hm Hk Hl W Hdone.
  - exists 1%nat. eexists. split; [reflexivity|]. cbn [Nat.iter nat_rect]. unfold remote_event_listner_notify. rewrite Hl, (proj2 (Z.ltb_ge k _)) by lia. unfold from_prio. rewrite Hm. cbn. split_and!; try done.
    intros p Hp. apply Hdone. unfold is_prio in Hp. lia.
  - assert (Hkp : is_prio k) by (unfold is_prio; lia). destruct (W k Hkp ltac:(lia)) as [Wk Hhk].
    destruct (drain_fifo own k (q k) Hkp s Hl Wk Hhk) as (n1 & s1 & Hn1 & [D1 (D2a & D2b & D2c) D3 D4 D5]).
    destruct (IH (k + 1) s1) as (n2 & s2 & Hn2 & E1 & E2 & E3 & E4 & E5); [lia|lia|done| | |].
    + intros p Hp Hle. rewrite D3 by lia. apply W; [done|lia].
    + intros p Hp. destruct (decide (p = k)) as [->|Hne]; [done|]. rewrite D3 by done. apply Hdone. lia.
    + exists (n1 + n2)%nat, s2. split; [rewrite iter_more, Hn1; done|]. split_and!; try done; [congruence|congruence|]. rewrite E5, D2c, D5. unfold send_heads, from_prio.
      rewrite (seqZ_cons k) by lia. replace (Z.succ k) with (k + 1) by lia. replace (Z.pred (E_PRIO_NR - k)) with (E_PRIO_NR - (k + 1)) by lia. cbn [fmap list_fmap concat]. rewrite foldl_app. done.
Qed.

(** A round of the owner, when no other processor touches the FIFOs or the flag *)
Lemma notify_drains own s q : rinv s -> lstate s = LOut -> (forall p, is_prio p -> holds (fifos s p) (q p)) ->
  exists n s', Nat.iter n (remote_event_listner_notify own) (set_lstate LLoad s) = s' /\ lstate s' = LOut /\ pending (rflags s') = false /\
    (forall p, is_prio p -> kfifo_isEmpty (fifos s' p) = true) /\ locals s' own = send_heads (infos s) (locals s own) (from_prio q 0).
Proof.
  intros I Hl Hh. set (s2 := Nat.iter 2 (remote_event_listner_notify own) (set_lstate LLoad s)).
  destruct (drain_from own q 9 0 s2) as (n & s3 & Hn & E1 & E2 & E3 & E4 & E5); [done|done|done|intros p Hp _; split; [apply I|apply Hh; done]|intros p; lia|].
  assert (Hpf : pending (rflags s2) = false) by (unfold s2, pending, remote_event_listner_notify; cbn; rewrite <- Z.land_assoc; change (Z.land (~! EVENT_PENDING) EVENT_PENDING) with 0; rewrite Z.land_0_r; done).
  exists (2 + (n + 1))%nat. eexists. split; [reflexivity|]. rewrite !iter_more. fold s2. rewrite Hn. cbn [Nat.iter nat_rect]. unfold remote_event_listner_notify. rewrite E1, E2, Hpf. cbn. rewrite E2. split_and!; try done.
Qed.

(** C13: The flag that announces the events for another processor loses none, though it is read and written without a lock.  The FIFOs are those of the code, with several
    writers: for any interleaving of the accesses of the senders (with their puts tried again and put off when they fail) and of the owner to the words of the FIFOs and to the flag, a FIFO whose indexes differ
    is one that the owner is going to look at in its current round, or the flag is set, or a sender has still to set it; in particular, when the senders are done and the owner is outside, the flag is set.
    No access leaves the table of a FIFO.  When the owner then runs a round by itself, it ends, the flag is clear and the FIFOs are empty, and exactly what their tables held from
    one index to the other has been sent to its local listener.
    This is about what the FIFOs publish: [multi_put] itself can publish a cell that it fills later or never ([kfifo_mw_reads_unwritten], [kfifo_mw_busy_publishes]). *)
Theorem remote_events_seen el own mem i b l s : (forall p, zlen (mem p) = CONFIG_REL_KFIFO_SIZE) -> rtc (remote_step el own) (remote_start mem i b l) s ->
  (forall p, is_prio p -> kfifo_isEmpty (fifos s p) = false -> announced s p) /\
  (forall p, fifo_wf (fifos s p)) /\ (forall t e p w, senders s t = SPut e p (PutStore w) -> in_table w) /\
  ((forall t, senders s t = SOut) -> lstate s = LOut ->
   (forall p, is_prio p -> kfifo_isEmpty (fifos s p) = false -> pending (rflags s) = true) /\
   exists n s', Nat.iter n (remote_event_listner_notify own) (set_lstate LLoad s) = s' /\ lstate s' = LOut /\ pending (rflags s') = false /\
     (forall p, is_prio p -> kfifo_isEmpty (fifos s' p) = true) /\
     locals s' own = send_heads (infos s) (locals s own) (from_prio (fun p => fifo_queue (fifos s p)) 0)).
Proof.
  intros Hm Hs. pose proof (remote_reach el own _ s (start_rinv mem i b l Hm) Hs) as I. split_and!; [apply I|apply I| |].
  - intros t e p w Hat. pose proof (ri_sender _ I t) as Ht. rewrite Hat in Ht. apply Ht.
  - intros Hso Hl. split.
    + intros p Hp He. destruct (ri_seen _ I p Hp He) as [H|[[t H]|H]]; [done|rewrite Hso in H; done|rewrite Hl in H; done].
    + apply (notify_drains own s _ I Hl). intros p _. apply wf_holds, I.
Qed.

(** The event 100 is of the lowest priority, the others of priority 3, but 102, the most urgent. *)
Definition demo_infos (e : Z) : event_info := Info (if e =? 100 then E_FUNC else if e =? 102 then E_CLK else 3) (Other 0) 0.
Definition demo_start : remote_sys := remote_start (fun _ => replicate 32 0) demo_infos demo_infos (fun _ => event_listner_init).

(** A call without interference *)
Definition run_sender (t e : Z) (s : remote_sys) : remote_sys := Nat.iter 8 (remote_event_send 0 t false) (call_send t e s).
Definition demo_remote : remote_sys := run_sender 2 101 (run_sender 1 101 demo_start).

Lemma send_rtc el own t late s : rtc (remote_step el own) s (remote_event_send el t late s).
Proof.
  destruct (senders s t) eqn:E; [unfold remote_event_send; rewrite E; apply rtc_refl|..]; (apply rtc_once, remote_send; rewrite E; done).
Qed.
Lemma sends_rtc el own t late n s : rtc (remote_step el own) s (Nat.iter n (remote_event_send el t late) s).
Proof. induction n as [|n IH]; cbn [Nat.iter nat_rect]; [apply rtc_refl|]. etrans; [exact IH|]. apply send_rtc. Qed.

Lemma demo_reach : rtc (remote_step 0 0) demo_start demo_remote.
Proof.
  unfold demo_remote, run_sender. etrans; [|apply sends_rtc]. eapply rtc_r; [|apply remote_call; vm_compute; [reflexivity|split; [discriminate|reflexivity]]]. etrans; [|apply sends_rtc].
  apply rtc_once, remote_call; vm_compute; [reflexivity|split; [discriminate|reflexivity]].
Qed.

Lemma send_others el u late t s : u <> t -> senders (remote_event_send el u late s) t = senders s t.
Proof.
  intros Hu. unfold remote_event_send. destruct (senders s u) as [|e p pc|e p|p|p b|p b v|p b]; [done|destruct (put_step (fifos s p) e pc) as [f pc']|destruct late|..]; cbn;
    try (destruct (_ && _)); cbn; rewrite fn_lookup_insert_ne; done.
Qed.

Lemma run_others u e t s : u <> t -> senders (run_sender u e s) t = senders s t.
Proof. intros Hu. unfold run_sender. cbn [Nat.iter nat_rect]. rewrite !send_others by done. unfold call_send. cbn. rewrite fn_lookup_insert_ne; done. Qed.

Lemma demo_idle t : senders demo_remote t = SOut.
Proof.
  unfold demo_remote. destruct (decide (t = 2)) as [->|H2]; [vm_compute; reflexivity|]. rewrite run_others by done. destruct (decide (t = 1)) as [->|H1]; [vm_compute; reflexivity|].
  rewrite run_others by done. done.
Qed.

(** Two processors have sent an event of priority 3: the flag is set, and a round of the owner sends both to its local listener. *)
Lemma remote_events_seen_witness : rtc (remote_step 0 0) demo_start demo_remote /\ fifo_queue (fifos demo_remote 3) = [101; 101] /\ pending (rflags demo_remote) = true /\
  exists n s', Nat.iter n (remote_event_listner_notify 0) (set_lstate LLoad demo_remote) = s' /\ lstate s' = LOut /\
    locals s' 0 = send_heads (infos demo_remote) event_listner_init (from_prio (fun p => fifo_queue (fifos demo_remote p)) 0).
Proof.
  split; [exact demo_reach|]. split; [vm_compute; reflexivity|].
  destruct (remote_events_seen 0 0 (fun _ => replicate 32 0) demo_infos demo_infos (fun _ => event_listner_init) demo_remote) as (_ & _ & _ & H).
  - intros p. reflexivity.
  - exact demo_reach.
  - destruct (H demo_idle eq_refl) as [Hp (n & s' & H1 & H2 & _ & _ & H5)]. split.
    + apply (Hp 3); [split; vm_compute; [discriminate|reflexivity]|vm_compute; reflexivity].
    + exists n, s'. split; [exact H1|]. split; [exact H2|exact H5].
Defined.

(** ** Behaviours that differ from what the code means *)

(** An interrupt is sent only by the sender that finds the flag clear: after an event of the lowest priority, which does without, an urgent event raises none. *)
Theorem remote_ipi_skipped :
  let s := run_sender 2 102 (run_sender 1 100 demo_start) in
  fifo_queue (fifos s E_CLK) = [102] /\ senders s 2 = SOut /\ ipis s = 0.
Proof. vm_compute. done. Qed.

(** The listener puts the events of a FIFO at the head of the local queue: they are delivered in the reverse order. *)
Theorem remote_order_reversed :
  let s := run_sender 1 104 (run_sender 1 103 demo_start) in
  e_id <$> tbl (locals (Nat.iter 30 (remote_event_listner_notify 0) (set_lstate LLoad s)) 0) 3 = [104; 103].
Proof. vm_compute. reflexivity. Qed.

(** A put publishes the cell before it fills it: a round of the owner in between sends what the memory held to its local listener, and the event stays behind, in a cell that was read. *)
Theorem remote_event_lost :
  let s := Nat.iter 3 (remote_event_send 0 1 false) (call_send 1 101 demo_start) in
  let s := Nat.iter 30 (remote_event_listner_notify 0) (set_lstate LLoad s) in
  let s := Nat.iter 5 (remote_event_send 0 1 false) s in
  senders s 1 = SOut /\ e_id <$> tbl (locals s 0) 3 = [0] /\ kfifo_isEmpty (fifos s 3) = true.
Proof. vm_compute. done. Qed.
