(* ===== verification/VmRegion.v ===== *)
(** * VmRegion: the regions of an address space, [kernel/mm/vm_region.c]

    A region is known by its address, which is also the address of its [vm_node] (the first field of the structure) and names
    its [vm_list].  The regions of a space are in a red-black tree ([Rbtree]) and in a list ([ListH]), both in the order of
    the addresses that they cover. *)

From S2P Require Import Prelude Bits ListH Rbtree Pmm.

(** ** Constants *)

Definition VM_REG_SHARED : Z := 0x0001.
Definition VM_REG_PRIVATE : Z := 0x0002.
Definition VM_REG_ANON : Z := 0x0004.
Definition VM_REG_STACK : Z := 0x0008.
Definition VM_REG_HUGETLB : Z := 0x0020.
Definition VM_REG_FIXED : Z := 0x0040.
Definition VM_REG_DEV : Z := 0x0080.
Definition VM_REG_LAZY : Z := 0x0200.
Definition VM_REG_INIT : Z := 0x0400.
Definition VM_REG_HEAP : Z := 0x0800.
Definition VM_REG_NON : Z := 0x00.
Definition VM_REG_RD : Z := 0x01.
Definition VM_REG_WR : Z := 0x02.
Definition VM_REG_EX : Z := 0x04.

Definition CONFIG_VM_REGION_KEYWIDTH : Z := 16.
Definition CONFIG_TASK_HEAP_MAX_SIZE : Z := 0x30000000.
Definition CONFIG_USR_LIMIT : Z := 0x70000000.

(** ** Data *)

Record vm_region_s := VmRegion {
  vm_refcount : Z;
  vm_begin : Z;
  vm_end : Z;
  vm_start : Z;
  vm_limit : Z;
  vm_prot : Z;
  vm_pgprot : Z;
  vm_flags : Z;
  vm_offset : Z;
  vm_mapper : Z;
  vm_file : Z;
}.

Definition set_range (r : vm_region_s) (b e s l : Z) : vm_region_s :=
  VmRegion (vm_refcount r) b e s l (vm_prot r) (vm_pgprot r) (vm_flags r) (vm_offset r) (vm_mapper r) (vm_file r).
Definition set_flags (r : vm_region_s) (f : Z) : vm_region_s :=
  VmRegion (vm_refcount r) (vm_begin r) (vm_end r) (vm_start r) (vm_limit r) (vm_prot r) (vm_pgprot r) f (vm_offset r) (vm_mapper r) (vm_file r).

(** The fields of [struct vmm_s] about regions, with the memory of the regions *)
Record vmm_s := Vmm {
  regions_tree : rb_tree;
  links : gmap laddr (list_entry laddr);
  mem : gmap Z vm_region_s;
  last_region : Z;
  last_mmap : Z;
}.

(** The head of the list *)
Definition regions_root : laddr := Root 0.

Definition set_mem (v : vmm_s) (m : gmap Z vm_region_s) : vmm_s :=
  Vmm (regions_tree v) (links v) m (last_region v) (last_mmap v).
Definition set_tree (v : vmm_s) (t : rb_tree) : vmm_s := Vmm t (links v) (mem v) (last_region v) (last_mmap v).
Definition set_links (v : vmm_s) (h : gmap laddr (list_entry laddr)) : vmm_s :=
  Vmm (regions_tree v) h (mem v) (last_region v) (last_mmap v).
Definition set_last_region (v : vmm_s) (r : Z) : vmm_s := Vmm (regions_tree v) (links v) (mem v) r (last_mmap v).
Definition set_last_mmap (v : vmm_s) (a : Z) : vmm_s := Vmm (regions_tree v) (links v) (mem v) (last_region v) a.

(** ** Initialisation *)

Definition vm_region_init (region : vm_region_s) (vma_start vma_end prot offset flags : Z) : vm_region_s :=
  let regsize := 1 <<! CONFIG_VM_REGION_KEYWIDTH in
  let vend := if is_set flags VM_REG_HEAP then ARROUND_UP CONFIG_TASK_HEAP_MAX_SIZE regsize
              else ARROUND_UP vma_end regsize in
  let pgprot := Z.lor (Z.lor (Z.lor PMM_USER PMM_CACHED) PMM_ACCESSED) PMM_DIRTY in
  let '(prot, pgprot) := if is_set prot VM_REG_WR then (Z.lor prot VM_REG_RD, Z.lor pgprot PMM_WRITE) else (prot, pgprot) in
  let pgprot := if is_set prot VM_REG_RD then Z.lor pgprot PMM_READ else pgprot in
  let pgprot := if is_set prot VM_REG_EX then Z.lor pgprot PMM_EXECUTE else pgprot in
  let pgprot := if negb (prot =? VM_REG_NON) then Z.lor pgprot PMM_PRESENT else pgprot in
  let pgprot := if is_set flags VM_REG_HUGETLB then Z.lor pgprot PMM_HUGE else pgprot in
  VmRegion 1 (ARROUND_DOWN vma_start regsize) vend vma_start vma_end prot pgprot flags offset 0 0.

(** [vmm_init], the part about regions *)
Definition vmm_init (v : vmm_s) : vmm_s :=
  Vmm (RbTree 0 (nodes (regions_tree v))) (list_root_init (links v) regions_root) (mem v) (last_region v) 0.

(** ** Search *)

Fixpoint find_list_loop (fuel : nat) (v : vmm_s) (iter : laddr) (vaddr : Z) : option (Z * vmm_s) :=
  match fuel with
  | O => None
  | S fuel =>
      if bool_decide (iter = regions_root) then Some (0, v) else
      e ← links v !! iter;
      region ← list_container iter;
      r ← mem v !! region;
      if vaddr <? vm_end r then Some (region, set_last_region v region)
      else find_list_loop fuel v (next e) vaddr
  end.
Definition vm_region_find_list (v : vmm_s) (vaddr : Z) : option (Z * vmm_s) :=
  e ← links v !! regions_root;
  find_list_loop (S (size (links v))) v (next e) vaddr.

(** The state of the loop of [vm_region_find_prepare]: the region found, its predecessor, the link and its owner *)
Fixpoint prepare_loop (fuel : nat) (v : vmm_s) (addr vma rb_prev : Z) (link : rb_link) (rb_parent : Z) :
    option (Z * Z * rb_link * Z) :=
  match fuel with
  | O => None
  | S fuel =>
      node ← load_link (regions_tree v) link;
      if node =? 0 then Some (vma, rb_prev, link, rb_parent) else
      vma_tmp ← mem v !! node;
      if addr <? vm_end vma_tmp then
        if vm_begin vma_tmp <=? addr then Some (node, rb_prev, link, node)
        else prepare_loop fuel v addr node rb_prev (LinkLeft node) node
      else prepare_loop fuel v addr vma node (LinkRight node) node
  end.
Definition vm_region_find_prepare (v : vmm_s) (addr : Z) : option (Z * Z * rb_link * Z) :=
  prepare_loop (tree_fuel (regions_tree v)) v addr 0 0 LinkRoot 0.

Fixpoint find_loop (fuel : nat) (v : vmm_s) (reg node vaddr : Z) : option Z :=
  match fuel with
  | O => None
  | S fuel =>
      if node =? 0 then Some reg else
      ptr ← mem v !! node;
      n ← get (regions_tree v) node;
      if vaddr <? vm_end ptr then
        if vm_begin ptr <=? vaddr then Some node
        else find_loop fuel v node (rb_left n) vaddr
      else find_loop fuel v reg (rb_right n) vaddr
  end.
Definition vm_region_find (v : vmm_s) (vaddr : Z) : option Z :=
  find_loop (tree_fuel (regions_tree v)) v 0 (rb_root (regions_tree v)) vaddr.

(** ** Attachment *)

Definition __vma_link_rb (v : vmm_s) (vma : Z) (link : rb_link) (parent : Z) : option vmm_s :=
  s ← rb_link_node (regions_tree v) vma parent link;
  s ← rb_insert_color s vma;
  Some (set_tree v s).

(** The search of [vm_region_solve] for a place: the address, the region after it and the place in the tree.  The address is over the
    limit when there is none. *)
Fixpoint solve_loop (fuel : nat) (v : vmm_s) (start size limit reg : Z) (place : rb_link * Z) :
    option (Z * Z * (rb_link * Z)) :=
  match fuel with
  | O => None
  | S fuel =>
      if start <=? limit then
        '(reg, _, link, parent) ← vm_region_find_prepare v start;
        if reg =? 0 then Some (start, reg, (link, parent)) else
        r ← mem v !! reg;
        if start +! size <? vm_begin r then Some (start, reg, (link, parent))
        else solve_loop fuel v (vm_end r) size limit reg (link, parent)
      else Some (start, reg, place)
  end.

Definition vm_region_solve (v : vmm_s) (region : Z) : option (Z * vmm_s) :=
  r ← mem v !! region;
  let size := vm_end r in
  let limit := CONFIG_USR_LIMIT -! size in
  '(start, reg, (link, parent)) ← solve_loop (S (tree_fuel (regions_tree v))) v (last_mmap v) size limit 0 (LinkRoot, 0);
  if limit <? start then Some (ENOMEM, v) else
  let r := set_range r start (start +! size) start (vm_limit r +! start) in
  let v := set_mem v (<[region := r]> (mem v)) in
  v ← __vma_link_rb v region link parent;
  h ← (if negb (reg =? 0) then
         g ← mem v !! reg;
         if vm_begin r <? vm_begin g then list_add_pred (links v) (Entry reg) (Entry region)
         else list_add_next (links v) (Entry reg) (Entry region)
       else list_add_last (links v) regions_root (Entry region));
  Some (0, set_links v h).

Definition vm_region_attach_rbtree (v : vmm_s) (region : Z) : option (Z * vmm_s) :=
  r ← mem v !! region;
  if is_set (vm_flags r) VM_REG_FIXED then
    '(reg, _, link, parent) ← vm_region_find_prepare v (vm_begin r);
    exist ← (if negb (reg =? 0) then g ← mem v !! reg; Some (vm_begin g <=? vm_begin r) else Some false);
    if (exist : bool) then Some (EEXIST, v) else
    h ← (if reg =? 0 then list_add_last (links v) regions_root (Entry region)
         else list_add_pred (links v) (Entry reg) (Entry region));
    v ← __vma_link_rb (set_links v h) region link parent;
    Some (0, v)
  else vm_region_solve v region.

Definition vm_region_attach (v : vmm_s) (region : Z) : option (Z * vmm_s) :=
  '(err, v) ← vm_region_attach_rbtree v region;
  if negb (err =? 0) then Some (err, v) else
  r ← mem v !! region;
  Some (0, set_last_mmap v (vm_begin r)).

(** ** Detachment *)

(** [vm_region_detach] up to the release of the lock of the space: the region leaves the list and the tree. *)
Definition detach_links (v : vmm_s) (region : Z) : option vmm_s :=
  h ← list_unlink (links v) (Entry region);
  s ← rb_erase (regions_tree v) region;
  r ← mem v !! region;
  let v := set_tree (set_links v h) s in
  let v := if last_region v =? region then set_last_region v 0 else v in
  Some (if vm_end r <? last_mmap v then set_last_mmap v (vm_begin r) else v).

(** ** Rights *)

(** [vm_region_update], up to the call of the handler: [Some err] is the answer to an access that the region does not allow. *)
Definition region_denies (r : vm_region_s) (flags : Z) : option Z :=
  if pmm_except_isRights flags then Some (-1001)
  else if pmm_except_isPresent flags && negb (is_set (vm_prot r) VM_REG_RD) then Some (-1002)
  else if pmm_except_isWrite flags && negb (is_set (vm_prot r) VM_REG_WR) then Some (-1003)
  else if pmm_except_isExecute flags && negb (is_set (vm_prot r) VM_REG_EX) then Some (-1004)
  else if is_set (vm_flags r) VM_REG_INIT then Some (-1005)
  else None.
