(* ===== verification/VmRegionInv.v ===== *)
(** * VmRegionInv: the regions of an address space in order *)

From stdpp Require Import sorting.
From S2P Require Import Prelude Bits ListH Rbtree RbShape RbInsert RbErase RbSpec Pmm VmRegion.

(** ** Invariant *)

Definition rbegin (m : gmap Z vm_region_s) (r : Z) : Z := from_option vm_begin 0 (m !! r).
Definition rend (m : gmap Z vm_region_s) (r : Z) : Z := from_option vm_end 0 (m !! r).

(** Regions in order, each ending before the next one begins *)
Definition disjoint_in_order (m : gmap Z vm_region_s) (rs : list Z) : Prop :=
  Forall (fun r => is_Some (m !! r) /\ 0 <= rbegin m r < rend m r /\ rend m r < 2 ^ 32) rs /\
  StronglySorted (fun a b => rend m a <= rbegin m b) rs.

Record regions_inv (v : vmm_s) (rs : list Z) : Prop := {
  inv_tree : rb_models (regions_tree v) rs;
  inv_list : dlists (links v) {[ regions_root := Entry <$> rs ]};
  inv_order : disjoint_in_order (mem v) rs;
}.

(** The first region that ends after [addr], or NULL *)
Definition first_above (m : gmap Z vm_region_s) (addr : Z) (rs : list Z) : Z :=
  hd 0 (filter (fun r => addr < rend m r) rs).

Section Order.
Context (m : gmap Z vm_region_s) (addr : Z).
Notation below := (Forall (fun r => rend m r <= addr)).

Lemma order_app l1 l2 : disjoint_in_order m (l1 ++ l2) <->
  disjoint_in_order m l1 /\ disjoint_in_order m l2 /\ forall a b, a ∈ l1 -> b ∈ l2 -> rend m a <= rbegin m b.
Proof.
  unfold disjoint_in_order. rewrite Forall_app, StronglySorted_app. set_solver.
Qed.
Lemma order_elem rs r : disjoint_in_order m rs -> r ∈ rs ->
  exists x, m !! r = Some x /\ rbegin m r = vm_begin x /\ rend m r = vm_end x /\ 0 <= vm_begin x < vm_end x /\ vm_end x < 2 ^ 32.
Proof.
  intros [Hf _] Hr. eapply Forall_forall in Hf as ([x Hx] & Hb & He); [|exact Hr]. exists x.
  unfold rbegin, rend in *. rewrite Hx in *. done.
Qed.

(** The regions before one that begins at or before [addr] end at or before it. *)
Lemma below_begin l1 a l2 : disjoint_in_order m (l1 ++ a :: l2) -> rbegin m a <= addr -> below l1.
Proof.
  intros Ho%order_app Hb. destruct Ho as (_ & _ & Hle). apply Forall_forall. intros r Hr.
  specialize (Hle r a Hr). assert (a ∈ a :: l2) by set_solver. specialize (Hle ltac:(done)). lia.
Qed.
Lemma below_end l1 a l2 : disjoint_in_order m (l1 ++ a :: l2) -> rend m a <= addr -> below (l1 ++ [a]).
Proof.
  intros Ho Hb. apply Forall_app. split; [|constructor; [done|constructor]]. eapply below_begin; [done|].
  destruct (order_elem _ a Ho) as (x & Hx & -> & He & Hlt & _); [set_solver|]. lia.
Qed.

Lemma first_above_split l1 l2 : below l1 -> match l2 with [] => True | x :: _ => addr < rend m x end ->
  first_above m addr (l1 ++ l2) = hd 0 l2.
Proof.
  intros Hb Hl. unfold first_above. rewrite filter_app.
  assert (filter (fun r => addr < rend m r) l1 = []) as ->.
  { clear Hl. induction Hb as [|r l Hr Hb IH]; [done|]. rewrite filter_cons_False by lia. done. }
  destruct l2 as [|x l2]; [done|]. simpl app. rewrite filter_cons_True by done. done.
Qed.
End Order.

(** ** Searching the tree *)

Section Search.
Context (v : vmm_s) (rs : list Z) (addr : Z).
Context (Hinv : regions_inv v rs).
Notation s := (regions_tree v).
Notation m := (mem v).

(** The path to the position of [k] has the regions that end before [addr] on its left, and the first one that does not as [reg]. *)
Record on_path (k : list frame) (t : tree) (reg prev : Z) : Prop := {
  path_focus : at_focus s k t;
  path_rb : red_black (plug k t);
  path_all : inorder (plug k t) = rs;
  path_before : Forall (fun r => rend m r <= addr) (before k);
  path_prev : prev = default 0 (last (before k));
  path_after : reg = hd 0 (after k) /\ match after k with [] => True | x :: _ => addr < rend m x end;
}.

Lemma path_start : exists t, ptr t = rb_root s /\ on_path [] t 0 0 /\ (height t < tree_fuel s)%nat.
Proof.
  destruct (inv_tree _ _ Hinv) as (t & Hr & Hrb & Hin). exists t. pose proof Hr as [_ _ _ Hroot]. simpl in Hroot.
  split; [done|]. split; [split; try done; constructor|]. pose proof (focus_fuel _ _ _ Hr). simpl in *.
  assert (height t <= length (inorder t))%nat; [|lia]. clear. induction t; simpl; [done|]. rewrite length_app. simpl. lia.
Qed.

Lemma path_node k c l a r reg prev : on_path k (T c l a r) reg prev ->
  exists x, m !! a = Some x /\ rbegin m a = vm_begin x /\ rend m a = vm_end x /\ a <> 0 /\
    get s a = Some (cell Lft (up k) c (ptr l) (ptr r)) /\
    (vm_begin x <= addr -> addr < vm_end x -> first_above m addr rs = a) /\
    (addr < vm_end x -> on_path (Frame Lft c a r :: k) l a prev) /\
    (vm_end x <= addr -> on_path (Frame Rgt c a l :: k) r reg a).
Proof.
  intros [Hf Hrb Hall Hb Hp [Hr Ha]]. pose proof (inv_order _ _ Hinv) as Ho. rewrite <- Hall, inorder_plug in Ho. simpl in Ho.
  replace (before k ++ (inorder l ++ a :: inorder r) ++ after k)
    with ((before k ++ inorder l) ++ a :: inorder r ++ after k) in Ho by (rewrite <- !(assoc_L (++)); done).
  destruct (order_elem m _ a Ho) as (x & Hx & Eb & Ee & Hlt); [set_solver|]. exists x.
  pose proof (focus_facts _ _ Lft _ _ _ _ Hf) as (_ & [Haddr _] & _).
  assert (Hsame : rs = (before k ++ inorder l) ++ a :: inorder r ++ after k).
  { rewrite <- Hall, inorder_plug. simpl. rewrite <- !(assoc_L (++)). done. }
  split_and!; try done; [lia|apply (focus_get _ _ Lft); done|..].
  - intros H1 H2. rewrite Hsame. apply first_above_split; [|lia]. eapply below_begin; [done|lia].
  - intros H1. split; try done; [apply (focus_near _ _ Lft); done|split; [done|simpl; lia]].
  - intros H1. assert (Hbe : Forall (fun r0 => rend m r0 <= addr) ((before k ++ inorder l) ++ [a])) by (eapply below_end; [done|lia]).
    split; try done; [apply (focus_far _ _ Lft); done|simpl; rewrite (assoc_L (++)); done|].
    simpl. rewrite (assoc_L (++)), last_snoc. done.
Qed.

Lemma path_end k reg prev : on_path k E reg prev -> first_above m addr rs = reg /\
  position s (before k) (after k) (up k) (link_of k) /\ rs = before k ++ after k.
Proof.
  intros [Hf Hrb Hall Hb Hp [Hr Ha]]. assert (Hrs : rs = before k ++ after k) by (rewrite <- Hall, inorder_plug; done).
  split_and!; [|exists k; done|done]. rewrite Hrs, Hr. apply first_above_split; done.
Qed.

Lemma find_loop_ok fuel k t reg prev : on_path k t reg prev -> (height t < fuel)%nat ->
  find_loop fuel v reg (ptr t) addr = Some (first_above m addr rs).
Proof.
  revert k t reg prev. induction fuel as [|fuel IH]; intros k t reg prev Hp Hh; [lia|]. cbn [find_loop].
  destruct t as [|c l a r].
  - destruct (path_end _ _ _ Hp) as (-> & _). done.
  - destruct (path_node _ _ _ _ _ _ _ Hp) as (x & Hx & Eb & Ee & Ha & Hg & Hin & Hleft & Hright). simpl in Hh |- *.
    destruct (Z.eqb_spec a 0); [done|]. rewrite Hx. simpl. rewrite Hg. simpl. zcases.
    + rewrite Hin by lia. done.
    + eapply IH; [apply Hleft; lia|lia].
    + eapply IH; [apply Hright; lia|lia].
Qed.

Lemma load_link_of k t : at_focus s k t -> load_link s (link_of k) = Some (ptr t).
Proof.
  intros [_ _ _ Hk]. destruct k as [|[d c a sib] k]; simpl in *; [congruence|]. destruct Hk as (Hg & _). destruct d; simpl; rewrite Hg; done.
Qed.

(** The two ways in which the search of a place ends *)
Definition prepared (res : Z * Z * rb_link * Z) : Prop :=
  let '(reg, prev, link, parent) := res in
  reg = first_above m addr rs /\
  ((reg <> 0 /\ rbegin m reg <= addr) \/
   exists l1 l2, rs = l1 ++ l2 /\ position s l1 l2 parent link /\ Forall (fun r => rend m r <= addr) l1 /\
     reg = hd 0 l2 /\ prev = default 0 (last l1) /\ match l2 with [] => True | x :: _ => addr < rbegin m x end).

Lemma prepare_loop_ok fuel k t reg prev : on_path k t reg prev -> (height t < fuel)%nat ->
  match after k with [] => True | x :: _ => addr < rbegin m x end ->
  exists res, prepare_loop fuel v addr reg prev (link_of k) (up k) = Some res /\ prepared res.
Proof.
  revert k t reg prev. induction fuel as [|fuel IH]; intros k t reg prev Hp Hh Hbeg; [lia|]. cbn [prepare_loop].
  rewrite (load_link_of k t) by apply Hp. simpl. destruct t as [|c l a r].
  - destruct (path_end _ _ _ Hp) as (Hreg & Hpos & Hrs). simpl. eexists. split; [done|]. split; [done|]. right.
    exists (before k), (after k). destruct Hp as [_ _ _ Hb Hprev [Hr _]]. done.
  - destruct (path_node _ _ _ _ _ _ _ Hp) as (x & Hx & Eb & Ee & Ha & Hg & Hin & Hleft & Hright). simpl in Hh |- *.
    destruct (Z.eqb_spec a 0); [done|]. rewrite Hx. simpl. zcases.
    + eexists. split; [done|]. split; [symmetry; apply Hin; lia|]. left. split; [done|lia].
    + apply (IH (Frame Lft c a r :: k) l a prev); [apply Hleft; lia|lia|simpl; lia].
    + apply (IH (Frame Rgt c a l :: k) r reg a); [apply Hright; lia|lia|done].
Qed.

Lemma prepare_ok : exists res, vm_region_find_prepare v addr = Some res /\ prepared res.
Proof.
  destruct path_start as (t & Hroot & Hp & Hh). apply (prepare_loop_ok _ [] t 0 0); done.
Qed.

Lemma find_ok : vm_region_find v addr = Some (first_above m addr rs).
Proof.
  destruct path_start as (t & Hroot & Hp & Hh). unfold vm_region_find. rewrite <- Hroot. apply (find_loop_ok _ [] t 0 0); done.
Qed.

(** The number of iterations grows with the logarithm of the number of regions. *)
Lemma find_bound : find_loop (S (2 * Nat.log2 (S (length rs)))) v 0 (rb_root s) addr = Some (first_above m addr rs).
Proof.
  destruct path_start as (t & Hroot & Hp & _). rewrite <- Hroot. apply (find_loop_ok _ [] t 0 0); [done|].
  pose proof (red_black_height t (path_rb _ _ _ _ Hp)) as Hh. pose proof (path_all _ _ _ _ Hp) as Hall. simpl in Hall. rewrite Hall in Hh. lia.
Qed.
End Search.

(** ** Searching the list *)

Lemma first_above_cons m addr r rs : first_above m addr (r :: rs) = if addr <? rend m r then r else first_above m addr rs.
Proof.
  unfold first_above. destruct (Z.ltb_spec addr (rend m r)); [rewrite filter_cons_True by done|rewrite filter_cons_False by lia]; done.
Qed.

Lemma first_above_in m rs a : first_above m a rs <> 0 -> first_above m a rs ∈ rs /\ a < rend m (first_above m a rs).
Proof.
  unfold first_above. intros H0. destruct (filter _ rs) as [|b l] eqn:Ef; [done|]. simpl.
  assert (Hb : b ∈ filter (fun r => a < rend m r) rs) by (rewrite Ef; set_solver). apply list_elem_of_filter in Hb. tauto.
Qed.

Lemma entries_split (rs : list Z) l1 x l2 : rs = l1 ++ x :: l2 -> Entry <$> rs = (Entry <$> l1) ++ Entry x :: (Entry <$> l2).
Proof. intros ->. rewrite fmap_app. done. Qed.

Section FindList.
Context (v : vmm_s) (rs : list Z) (addr : Z).
Context (Hinv : regions_inv v rs).

Lemma find_list_loop_ok fuel l1 l2 : rs = l1 ++ l2 -> (length l2 < fuel)%nat ->
  find_list_loop fuel v (hd regions_root (Entry <$> l2)) addr =
    (let r := first_above (mem v) addr l2 in Some (r, if r =? 0 then v else set_last_region v r)).
Proof.
  revert l1 l2. induction fuel as [|fuel IH]; intros l1 l2 Hrs Hfu; [lia|]. cbn [find_list_loop].
  destruct l2 as [|x l2]; [done|]. simpl hd. rewrite bool_decide_eq_false_2 by done.
  pose proof (dlists_next _ _ _ _ _ _ (inv_list _ _ Hinv) (eq_trans (lookup_singleton_eq _ _) (f_equal Some (entries_split _ _ _ _ Hrs)))) as Hn.
  unfold nxt in Hn. apply fmap_Some in Hn as (e & He & Hne). rewrite He. simpl.
  destruct (order_elem (mem v) rs x) as (y & Hy & _ & Ee & _); [apply Hinv|rewrite Hrs; set_solver|]. rewrite Hy. simpl.
  rewrite first_above_cons, Ee. destruct (Z.ltb_spec addr (vm_end y)).
  - destruct (models_nodup _ _ (inv_tree _ _ Hinv)) as [_ Ha]. rewrite Hrs in Ha. apply Forall_app in Ha as [_ Ha].
    apply Forall_cons_1 in Ha as [[Hx _] _]. destruct (Z.eqb_spec x 0); [lia|done].
  - rewrite <- Hne. apply (IH (l1 ++ [x])); [rewrite <- (assoc_L (++)); done|simpl in Hfu; lia].
Qed.

Lemma find_list_ok : vm_region_find_list v addr =
  (let r := first_above (mem v) addr rs in Some (r, if r =? 0 then v else set_last_region v r)).
Proof.
  unfold vm_region_find_list. pose proof (dlists_first _ _ _ _ (inv_list _ _ Hinv) (lookup_singleton_eq _ _)) as Hn.
  unfold nxt in Hn. apply fmap_Some in Hn as (e & He & Hne). rewrite He. cbn [mbind option_bind]. rewrite <- Hne.
  apply (find_list_loop_ok _ [] rs); [done|].
  pose proof (dlist_size _ _ _ (proj1 (inv_list _ _ Hinv) _ _ (lookup_singleton_eq _ _))) as Hs. rewrite length_fmap in Hs. lia.
Qed.
End FindList.

(** ** Adding a region *)

(** A region that is not in the space yet *)
Record new_region (v : vmm_s) (rs : list Z) (r : Z) (x : vm_region_s) : Prop := {
  new_addr : addr_ok r;
  new_notin : r ∉ rs;
  new_node : is_Some (get (regions_tree v) r);
  new_mem : mem v !! r = Some x;
}.

Lemma rbegin_insert_ne m r x b : r <> b -> rbegin (<[r := x]> m) b = rbegin m b.
Proof. intros. unfold rbegin. rewrite lookup_insert_ne by done. done. Qed.
Lemma rend_insert_ne m r x b : r <> b -> rend (<[r := x]> m) b = rend m b.
Proof. intros. unfold rend. rewrite lookup_insert_ne by done. done. Qed.

Lemma order_frame m m' rs : (forall r, r ∈ rs -> m' !! r = m !! r) -> disjoint_in_order m rs -> disjoint_in_order m' rs.
Proof.
  intros Hf. assert (Hb : forall r, r ∈ rs -> rbegin m' r = rbegin m r /\ rend m' r = rend m r).
  { intros r Hr. unfold rbegin, rend. rewrite Hf by done. done. }
  induction rs as [|r rs IH]; [intros _; split; constructor|]. intros [Hfo Hs]. apply Forall_cons_1 in Hfo as [Hr Hfo]. apply StronglySorted_cons in Hs as [Hle Hs].
  destruct IH as [H1 H2]; [set_solver|set_solver|done|]. split.
  - constructor; [|done]. destruct (Hb r) as [-> ->]; [set_solver|]. rewrite Hf by set_solver. done.
  - apply StronglySorted_cons. split; [|done]. apply Forall_forall. intros b Hb'. eapply Forall_forall in Hle; [|exact Hb'].
    destruct (Hb r) as [_ ->]; [set_solver|]. destruct (Hb b) as [-> _]; [set_solver|]. done.
Qed.

Lemma order_add m l1 l2 r x : disjoint_in_order m (l1 ++ l2) -> m !! r = Some x -> 0 <= vm_begin x < vm_end x -> vm_end x < 2 ^ 32 ->
  Forall (fun a => rend m a <= vm_begin x) l1 -> match l2 with [] => True | b :: _ => vm_end x <= rbegin m b end ->
  disjoint_in_order m (l1 ++ r :: l2).
Proof.
  intros Ho Hx Hlt Hmax Hb Ha. apply order_app in Ho as (H1 & H2 & H12).
  assert (Er : rbegin m r = vm_begin x /\ rend m r = vm_end x) by (unfold rbegin, rend; rewrite Hx; done). destruct Er as [Erb Ere].
  assert (Hafter : Forall (fun b => vm_end x <= rbegin m b) l2).
  { destruct l2 as [|b l2]; [constructor|]. destruct H2 as [Hf Hs]. apply Forall_cons_1 in Hf as [(_ & Hbb & _) _].
    apply StronglySorted_cons in Hs as [Hs _]. constructor; [done|]. eapply Forall_impl; [exact Hs|]. simpl. intros. lia. }
  apply order_app. split_and!; [done| |].
  - destruct H2 as [Hf Hs]. split; [constructor; [rewrite Erb, Ere; split; [eauto|lia]|done]|]. apply StronglySorted_cons.
    rewrite Ere. done.
  - intros a b Ha1 [->|Hb2]%elem_of_cons; [|by apply H12]. rewrite Erb. eapply Forall_forall in Hb; done.
Qed.

Lemma entry_unlinked rs r : r ∉ rs -> unlinked {[ regions_root := Entry <$> rs ]} (Entry r).
Proof.
  intros Hr r' xs Hl. apply lookup_singleton_Some in Hl as [<- <-]. rewrite not_elem_of_cons. split; [done|].
  rewrite list_elem_of_fmap. intros (y & Hy & Hin). injection Hy as <-. done.
Qed.

Lemma link_rb_ok v l1 l2 r parent link : position (regions_tree v) l1 l2 parent link -> addr_ok r -> r ∉ l1 ++ l2 ->
  is_Some (get (regions_tree v) r) ->
  exists s, __vma_link_rb v r link parent = Some (set_tree v s) /\ rb_models s (l1 ++ r :: l2).
Proof.
  intros Hp Ha Hn Hs. destruct (insert_at_position _ _ _ _ _ r Hp) as (s1 & s2 & E1 & E2 & Hm); [done..|].
  exists s2. unfold __vma_link_rb. rewrite E1. simpl. rewrite E2. done.
Qed.

(** The insertion into the list, before the region after the place *)
Lemma list_place_ok h l1 l2 r : dlists h {[ regions_root := Entry <$> l1 ++ l2 ]} -> r ∉ l1 ++ l2 -> Forall addr_ok l2 ->
  exists h', (if hd 0 l2 =? 0 then list_add_last h regions_root (Entry r) else list_add_pred h (Entry (hd 0 l2)) (Entry r)) = Some h' /\
    dlists h' {[ regions_root := Entry <$> l1 ++ r :: l2 ]}.
Proof.
  intros Hd Hr Ha. pose proof (entry_unlinked _ _ Hr) as Hu. destruct l2 as [|b l2]; simpl.
  - rewrite app_nil_r in Hd, Hu. destruct (list_add_last_dlists _ _ regions_root _ (Entry r) Hd (lookup_singleton_eq _ _) Hu) as (h' & E1 & Hd').
    exists h'. split; [done|]. rewrite insert_singleton_eq in Hd'. rewrite fmap_app. done.
  - apply Forall_cons_1 in Ha as [[Hb _] _]. destruct (Z.eqb_spec b 0); [lia|].
    destruct (list_add_pred_dlists h _ regions_root (Entry <$> l1) (Entry b) (Entry <$> l2) (Entry r) Hd) as (h' & E1 & Hd').
    { rewrite lookup_singleton_eq, fmap_app. done. }
    { done. }
    exists h'. split; [done|]. rewrite insert_singleton_eq in Hd'. rewrite fmap_app. done.
Qed.

(** ** Regions at a fixed place *)

Lemma hd_null_addr l : Forall addr_ok l -> hd 0 l <> 0 -> exists b l', l = b :: l' /\ hd 0 l = b.
Proof. destruct l as [|b l]; [done|]. eauto. Qed.

Lemma tail_addrs v rs l1 l2 : regions_inv v rs -> rs = l1 ++ l2 -> Forall addr_ok l2.
Proof. intros Hinv ->. destruct (models_nodup _ _ (inv_tree _ _ Hinv)) as [_ Ha]. apply Forall_app in Ha. apply Ha. Qed.

Lemma inv_add v rs l1 l2 r x s h : regions_inv v rs -> rs = l1 ++ l2 -> rb_models s (l1 ++ r :: l2) ->
  dlists h {[ regions_root := Entry <$> l1 ++ r :: l2 ]} -> r ∉ rs -> mem v !! r = Some x ->
  0 <= vm_begin x < vm_end x -> vm_end x < 2 ^ 32 ->
  Forall (fun a => rend (mem v) a <= vm_begin x) l1 -> match l2 with [] => True | b :: _ => vm_end x <= rbegin (mem v) b end ->
  forall lr lm, regions_inv (Vmm s h (mem v) lr lm) (l1 ++ r :: l2).
Proof.
  intros Hinv -> Hs Hh Hr Hx Hlt Hmax Hb Ha lr lm. split; [done|done|]. simpl. eapply order_add; try done. apply Hinv.
Qed.

Lemma attach_fixed_ok v rs r x : regions_inv v rs -> new_region v rs r x -> is_set (vm_flags x) VM_REG_FIXED = true ->
  0 <= vm_begin x < vm_end x -> vm_end x < 2 ^ 32 ->
  let reg := first_above (mem v) (vm_begin x) rs in
  if negb (reg =? 0) && (rbegin (mem v) reg <=? vm_begin x) then vm_region_attach v r = Some (EEXIST, v)
  else (reg <> 0 -> vm_end x <= rbegin (mem v) reg) ->
    exists v' l1 l2, vm_region_attach v r = Some (0, v') /\ rs = l1 ++ l2 /\ regions_inv v' (l1 ++ r :: l2) /\
      mem v' = mem v /\ last_mmap v' = vm_begin x.
Proof.
  intros Hinv [Ha Hn Hs Hx] Hfix Hlt Hmax reg.
  destruct (prepare_ok v rs (vm_begin x) Hinv) as ([[[reg' prev] link] parent] & Ep & Hreg & Hcases). fold reg in Hreg. subst reg'.
  unfold vm_region_attach, vm_region_attach_rbtree. rewrite Hx. simpl. rewrite Hfix, Ep. simpl.
  assert (Hmemreg : reg <> 0 -> exists y, mem v !! reg = Some y /\ rbegin (mem v) reg = vm_begin y).
  { intros H0. assert (Hin : reg ∈ rs).
    { unfold reg, first_above in H0 |- *. destruct (filter _ rs) as [|b l] eqn:Ef; [done|]. simpl.
      assert (Hb : b ∈ filter (fun r => vm_begin x < rend (mem v) r) rs) by (rewrite Ef; set_solver). apply list_elem_of_filter in Hb. tauto. }
    destruct (order_elem (mem v) rs reg) as (y & Hy & Hb & _); [apply Hinv|done|]. eauto. }
  assert (Hexist : (if negb (reg =? 0) then g ← mem v !! reg; Some (vm_begin g <=? vm_begin x) else Some false) =
     Some (negb (reg =? 0) && (rbegin (mem v) reg <=? vm_begin x))).
  { destruct (Z.eqb_spec reg 0) as [|H0]; [done|]. destruct (Hmemreg H0) as (y & -> & ->). done. }
  rewrite Hexist. simpl. destruct (negb (reg =? 0) && (rbegin (mem v) reg <=? vm_begin x)) eqn:Hc; [done|]. intros Hroom.
  destruct Hcases as [[H0 Hle]|(l1 & l2 & Hrs & Hpos & Hbelow & Hhd & _ & Hbeg)].
  { destruct (Z.eqb_spec reg 0); [done|]. simpl in Hc. apply Z.leb_gt in Hc. lia. }
  pose proof (tail_addrs _ _ _ _ Hinv Hrs) as Hal2. pose proof (inv_list _ _ Hinv) as Hl. rewrite Hrs in Hl, Hn.
  destruct (list_place_ok (links v) l1 l2 r Hl Hn Hal2) as (h & Eh & Hh). rewrite Hhd, Eh. simpl.
  destruct (link_rb_ok (set_links v h) l1 l2 r parent link) as (s & El & Hm); [done..|]. rewrite El. simpl. rewrite Hx. simpl.
  eexists _, l1, l2. split; [done|]. split; [done|]. split; [|done].
  eapply (inv_add v rs); try done; [rewrite Hrs; done|]. destruct l2 as [|b l2]; [done|].
  simpl in Hhd. rewrite Hhd in Hroom. apply Hroom. apply Forall_cons_1 in Hal2 as [[? _] _]. lia.
Qed.

(** ** The search for a place *)

(** [size] bytes at [a], from [last_mmap] on, are free in user space. *)
Definition fits (v : vmm_s) (rs : list Z) (size a : Z) : Prop :=
  last_mmap v <= a /\ a + size <= CONFIG_USR_LIMIT /\
  forall r, r ∈ rs -> rend (mem v) r <= a \/ a + size <= rbegin (mem v) r.

(** A region of [size] bytes at [a] would end where another one begins. *)
Definition touches (v : vmm_s) (rs : list Z) (size a : Z) : Prop := exists r, r ∈ rs /\ rbegin (mem v) r = a + size.

(** The places that the search accepts: its test is strict, and leaves a byte before the next region. *)
Definition apart (v : vmm_s) (rs : list Z) (size a : Z) : Prop :=
  last_mmap v <= a /\ a + size <= CONFIG_USR_LIMIT /\
  forall r, r ∈ rs -> rend (mem v) r <= a \/ a + size < rbegin (mem v) r.

Lemma apart_fits v rs size a : regions_inv v rs -> 0 < size -> apart v rs size a <-> fits v rs size a /\ ~ touches v rs size a.
Proof.
  intros Hinv Hs. split.
  - intros (H1 & H2 & H3). split; [split_and!; try done; intros r Hr; destruct (H3 r Hr); lia|]. intros (r & Hr & E).
    destruct (order_elem (mem v) rs r) as (x & _ & Eb & Ee & Hlt & _); [apply Hinv|done|]. destruct (H3 r Hr); lia.
  - intros [(H1 & H2 & H3) Ht]. split_and!; try done. intros r Hr. destruct (H3 r Hr) as [H|H]; [lia|].
    destruct (decide (rbegin (mem v) r = a + size)) as [E|E]; [destruct Ht; exists r; done|lia].
Qed.

Section Solve.
Context (v : vmm_s) (rs : list Z) (size : Z).
Context (Hinv : regions_inv v rs) (Hsize : 0 < size <= CONFIG_USR_LIMIT) (Hlast : 0 <= last_mmap v < 2 ^ 32).
Notation m := (mem v).

Definition count_above (a : Z) : nat := length (filter (fun r => a < rend m r) rs).

Lemma count_above_lt a b r : r ∈ rs -> a < rend m r <= b -> (count_above b < count_above a)%nat.
Proof.
  intros Hr Hab. unfold count_above. clear -Hr Hab. induction rs as [|x l IH]; [set_solver|].
  assert (Hmono : (length (filter (fun r => (b < rend m r)%Z) l) <= length (filter (fun r => (a < rend m r)%Z) l))%nat).
  { clear -Hab. induction l as [|y l IH]; [done|]. rewrite !filter_cons. repeat case_decide; simpl; lia. }
  apply elem_of_cons in Hr as [->|Hr].
  - rewrite filter_cons_False, filter_cons_True by lia. simpl. lia.
  - specialize (IH Hr). rewrite !filter_cons. repeat case_decide; simpl; lia.
Qed.

(** The place that the loop returns *)
Definition solved (res : Z * Z * (rb_link * Z)) : Prop :=
  let '(start, reg, (link, parent)) := res in
  if start <=? CONFIG_USR_LIMIT - size then
    apart v rs size start /\ (forall a, apart v rs size a -> start <= a) /\
    exists l1 l2, rs = l1 ++ l2 /\ position (regions_tree v) l1 l2 parent link /\ reg = hd 0 l2 /\
      Forall (fun r => rend m r <= start) l1 /\ match l2 with [] => True | b :: _ => start + size < rbegin m b end
  else forall a, ~ apart v rs size a.

Lemma solve_loop_ok fuel start reg place : (count_above start < fuel)%nat -> last_mmap v <= start < 2 ^ 32 ->
  (forall a, apart v rs size a -> start <= a) ->
  exists res, solve_loop fuel v start size (CONFIG_USR_LIMIT -! size) reg place = Some res /\ solved res.
Proof.
  assert (Elim : CONFIG_USR_LIMIT -! size = CONFIG_USR_LIMIT - size) by (apply u32_small; unfold is_u32, CONFIG_USR_LIMIT in *; lia).
  rewrite Elim. revert start reg place. induction fuel as [|fuel IH]; intros start reg place Hfu Hst Hmin; [lia|].
  cbn [solve_loop]. destruct (Z.leb_spec start (CONFIG_USR_LIMIT - size)) as [Hle|Hgt].
  2: { eexists. split; [done|]. unfold solved. destruct place as [link parent].
    destruct (Z.leb_spec start (CONFIG_USR_LIMIT - size)); [lia|]. intros a Hf. pose proof (Hmin a Hf). destruct Hf as (_ & Hfl & _). lia. }
  destruct (prepare_ok v rs start Hinv) as ([[[r prev] link] parent] & Ep & Hr & Hcases). rewrite Ep. cbn [mbind option_bind].
  assert (Esum : start +! size = start + size) by (apply u32_small; unfold is_u32, CONFIG_USR_LIMIT in *; lia). rewrite Esum.
  (* the loop ends at a place *)
  assert (Hend : forall l1 l2, rs = l1 ++ l2 -> position (regions_tree v) l1 l2 parent link ->
     Forall (fun r => rend m r <= start) l1 -> r = hd 0 l2 -> match l2 with [] => True | b :: _ => start + size < rbegin m b end ->
     solved (start, r, (link, parent))).
  { intros l1 l2 Hrs Hpos Hb Hhd Hroom. unfold solved. destruct (Z.leb_spec start (CONFIG_USR_LIMIT - size)); [|lia].
    split_and!; [|done|exists l1, l2; done]. split_and!; [lia|lia|]. intros q Hq. rewrite Hrs in Hq. apply elem_of_app in Hq as [Hq|Hq].
    - left. eapply Forall_forall in Hb; done.
    - right. destruct l2 as [|b l2]; [apply not_elem_of_nil in Hq; done|]. apply elem_of_cons in Hq as [->|Hq]; [done|].
      pose proof (inv_order _ _ Hinv) as Ho. rewrite Hrs in Ho. apply order_app in Ho as (_ & [Hf Hs] & _).
      apply Forall_cons_1 in Hf as [(_ & Hbb & _) _]. apply StronglySorted_cons in Hs as [Hs _]. eapply Forall_forall in Hs; [|exact Hq].
      simpl in Hs. lia. }
  destruct (Z.eqb_spec r 0) as [Hr0|Hr0].
  - eexists. split; [done|]. destruct Hcases as [[? _]|(l1 & l2 & Hrs & Hpos & Hb & Hhd & _ & _)]; [done|]. apply (Hend l1 l2); try done.
    destruct l2 as [|b l2]; [done|]. pose proof (tail_addrs _ _ _ _ Hinv Hrs) as Ha. apply Forall_cons_1 in Ha as [[Ha _] _]. simpl in Hhd. lia.
  - rewrite Hr in Hr0. destruct (first_above_in m rs start Hr0) as [Hin Hab]. rewrite <- Hr in Hin, Hab, Hr0.
    destruct (order_elem m rs r) as (y & Hy & Eb & Ee & Hlt & Hmax); [apply Hinv|done|]. rewrite Hy. cbn [mbind option_bind].
    destruct (Z.ltb_spec (start + size) (vm_begin y)) as [Hroom|Hno].
    + eexists. split; [done|]. destruct Hcases as [[_ Hbad]|(l1 & l2 & Hrs & Hpos & Hb & Hhd & _ & _)]; [lia|]. apply (Hend l1 l2); try done.
      destruct l2 as [|b l2]; [done|]. simpl in Hhd. subst b. lia.
    + apply IH; [|lia|].
      * pose proof (count_above_lt start (vm_end y) r Hin). lia.
      * intros a Hf. pose proof (Hmin a Hf). destruct Hf as (_ & _ & Hf). destruct (Hf r Hin); lia.
Qed.
End Solve.
