(* ===== verification/VmRegionSpec.v ===== *)
(** * VmRegionSpec: what the regions of an address space promise *)

From stdpp Require Import sorting.
From S2P Require Import Prelude Bits ListH Rbtree RbShape RbInsert RbErase RbSpec Pmm VmRegion VmRegionInv.

(** ** Regions anywhere *)

Lemma attach_anywhere_ok v rs r x : regions_inv v rs -> new_region v rs r x -> is_set (vm_flags x) VM_REG_FIXED = false ->
  0 < vm_end x <= CONFIG_USR_LIMIT -> 0 <= last_mmap v < 2 ^ 32 ->
  (exists start v' l1 l2, vm_region_attach v r = Some (0, v') /\ apart v rs (vm_end x) start /\
     (forall a, apart v rs (vm_end x) a -> start <= a) /\ rs = l1 ++ l2 /\ regions_inv v' (l1 ++ r :: l2) /\
     mem v' = <[r := set_range x start (start + vm_end x) start (vm_limit x +! start)]> (mem v) /\ last_mmap v' = start) \/
  (vm_region_attach v r = Some (ENOMEM, v) /\ forall a, ~ apart v rs (vm_end x) a).
Proof.
  intros Hinv [Ha Hn Hs Hx] Hfix Hsize Hlast. unfold vm_region_attach, vm_region_attach_rbtree, vm_region_solve.
  rewrite Hx. cbn [mbind option_bind]. rewrite Hfix.
  destruct (solve_loop_ok v rs (vm_end x) Hinv Hsize Hlast (S (tree_fuel (regions_tree v))) (last_mmap v) 0 (LinkRoot, 0))
    as ([[start reg] [link parent]] & Eres & Hres).
  { unfold count_above. pose proof (length_filter (fun r => last_mmap v < rend (mem v) r) rs) as Hl.
    destruct (inv_tree _ _ Hinv) as (t & Ht & _ & Hin). pose proof (focus_fuel _ _ _ Ht) as Hf. simpl in Hf. rewrite Hin in Hf. lia. }
  { lia. }
  { intros a (H & _). done. }
  assert (Elim : CONFIG_USR_LIMIT -! vm_end x = CONFIG_USR_LIMIT - vm_end x)
    by (apply u32_small; unfold is_u32, CONFIG_USR_LIMIT in *; lia).
  rewrite Eres. cbn [mbind option_bind]. unfold solved in Hres. rewrite Elim.
  destruct (Z.leb_spec start (CONFIG_USR_LIMIT - vm_end x)) as [Hle|Hgt].
  2: { right. destruct (Z.ltb_spec (CONFIG_USR_LIMIT - vm_end x) start); [|lia]. done. }
  left. destruct (Z.ltb_spec (CONFIG_USR_LIMIT - vm_end x) start); [lia|].
  destruct Hres as (Hfits & Hmin & l1 & l2 & Hrs & Hpos & Hreg & Hb & Hroom).
  assert (Esum : start +! vm_end x = start + vm_end x).
  { apply u32_small. destruct Hfits as (? & ? & _). unfold is_u32, CONFIG_USR_LIMIT in *. lia. }
  rewrite Esum. set (y := set_range x start (start + vm_end x) start (vm_limit x +! start)).
  set (v1 := set_mem v (<[r := y]> (mem v))).
  assert (Hinv1 : regions_inv v1 rs).
  { destruct Hinv as [Ht Hl Ho]. split; [done|done|]. eapply order_frame; [|exact Ho]. intros q Hq. apply lookup_insert_ne. congruence. }
  destruct (link_rb_ok v1 l1 l2 r parent link) as (s & El & Hm); [done|done|rewrite <- Hrs; done|done|]. rewrite El. cbn [mbind option_bind].
  pose proof (tail_addrs _ _ _ _ Hinv Hrs) as Hal2. pose proof (inv_list _ _ Hinv) as Hl. rewrite Hrs in Hl.
  destruct (list_place_ok (links v) l1 l2 r Hl) as (h & Eh & Hh); [rewrite <- Hrs; done|done|].
  assert (Hplace : (if negb (reg =? 0) then
         g ← mem (set_tree v1 s) !! reg;
         if vm_begin y <? vm_begin g then list_add_pred (links (set_tree v1 s)) (Entry reg) (Entry r)
         else list_add_next (links (set_tree v1 s)) (Entry reg) (Entry r)
       else list_add_last (links (set_tree v1 s)) regions_root (Entry r)) = Some h).
  { rewrite <- Eh, <- Hreg. destruct (Z.eqb_spec reg 0) as [|H0]; [done|]. destruct l2 as [|b l2]; [done|]. simpl in Hreg. subst b.
    destruct (order_elem (mem v) rs reg) as (z & Hz & Ez & _); [apply Hinv|rewrite Hrs; set_solver|].
    cbn [negb mem set_tree v1 set_mem]. rewrite lookup_insert_ne by (intros ->; apply Hn; rewrite Hrs; set_solver). rewrite Hz. cbn [mbind option_bind].
    destruct (Z.ltb_spec (vm_begin y) (vm_begin z)) as [|Hbad]; [done|]. simpl in Hbad. lia. }
  rewrite Hplace. cbn [mbind option_bind]. change (negb (0 =? 0)) with false. cbn iota.
  assert (Hyr : mem (set_links (set_tree v1 s) h) !! r = Some y) by apply lookup_insert_eq. rewrite Hyr. cbn [mbind option_bind].
  eexists start, _, l1, l2. split; [done|]. split_and!; try done.
  destruct Hfits as (Hf1 & Hf2 & Hf3). eapply (inv_add v1 rs l1 l2 r y); try done; simpl.
  - lia.
  - unfold CONFIG_USR_LIMIT in *. lia.
  - apply Forall_forall. intros q Hq. eapply Forall_forall in Hb; [|exact Hq]. rewrite rend_insert_ne; [done|]. intros ->. apply Hn. rewrite Hrs. set_solver.
  - destruct l2 as [|b l2]; [done|]. rewrite rbegin_insert_ne; [lia|]. intros ->. apply Hn. rewrite Hrs. set_solver.
Qed.

(** ** Removal *)

Lemma detach_ok v l1 r l2 x : regions_inv v (l1 ++ r :: l2) -> mem v !! r = Some x ->
  exists v', detach_links v r = Some v' /\ regions_inv v' (l1 ++ l2) /\ mem v' = mem v /\
    last_region v' = (if last_region v =? r then 0 else last_region v) /\
    last_mmap v' = (if vm_end x <? last_mmap v then vm_begin x else last_mmap v).
Proof.
  intros [Ht Hl Ho] Hx. unfold detach_links.
  destruct (list_unlink_dlists (links v) _ regions_root (Entry <$> l1) (Entry r) (Entry <$> l2) Hl) as (h & -> & Hh).
  { rewrite lookup_singleton_eq, fmap_app. done. }
  cbn [mbind option_bind]. destruct (erase_models _ _ _ _ Ht) as (s & -> & Hs). cbn [mbind option_bind]. rewrite Hx. cbn [mbind option_bind].
  rewrite insert_singleton_eq, <- fmap_app in Hh. eexists. split; [done|].
  assert (Ho' : disjoint_in_order (mem v) (l1 ++ l2)).
  { apply order_app in Ho as (H1 & [Hf Hss] & H12). apply order_app. split_and!; [done| |intros; apply H12; set_solver].
    apply Forall_cons_1 in Hf as [_ Hf]. apply StronglySorted_cons in Hss as [_ Hss]. done. }
  cbn. destruct (last_region v =? r); cbn; destruct (vm_end x <? last_mmap v); cbn; (split; [split; done|done]).
Qed.

(** ** An empty space, and one with two regions *)

Lemma vmm_init_ok v : regions_inv (vmm_init v) [].
Proof.
  split.
  - apply models_empty.
  - assert (Hd : dlists (links v) (∅ : gmap laddr (list laddr))).
    { split; [intros r xs H; rewrite lookup_empty in H; done|intros r1 r2 xs1 xs2 a H; rewrite lookup_empty in H; done]. }
    assert (Hu : unlinked (∅ : gmap laddr (list laddr)) regions_root) by (intros r xs H; rewrite lookup_empty in H; done).
    pose proof (list_root_init_dlists _ _ _ Hd Hu) as H. exact H.
  - split; constructor.
Qed.

Definition region_at (flags b e : Z) : vm_region_s := VmRegion 1 b e b e 3 0 flags 0 0 0.
Definition demo_vmm : vmm_s :=
  vmm_init (Vmm (RbTree 0 (list_to_map ((fun a => (a, RbNode 0 0 0)) <$> [16; 32; 48]))) ∅
    (list_to_map [(16, region_at VM_REG_FIXED 0x10000 0x20000); (32, region_at VM_REG_FIXED 0x50000 0x60000);
                  (48, region_at 0 0 0x20000)]) 0 0).

Lemma demo_regions : exists v, regions_inv v [16; 32] /\ new_region v [16; 32] 48 (region_at 0 0 0x20000) /\ mem v = mem demo_vmm /\
  last_mmap v = 0x50000.
Proof.
  assert (E : exists v1 v, vm_region_attach demo_vmm 16 = Some (0, v1) /\ vm_region_attach v1 32 = Some (0, v) /\ is_Some (get (regions_tree v) 48) /\
     get (regions_tree v1) 32 <> None).
  { eexists _, _. split; [vm_compute; reflexivity|]. split; [vm_compute; reflexivity|]. split; [vm_compute; eauto|vm_compute; done]. }
  destruct E as (v1 & v & E1 & E2 & H48 & H32).
  destruct (attach_fixed_ok demo_vmm [] 16 (region_at VM_REG_FIXED 0x10000 0x20000)) as (v1' & l1 & l2 & E1' & Hl & Hi1 & Hm1 & _).
  { apply vmm_init_ok. }
  { split; [apply (bool_decide_unpack (addr_ok 16)); vm_compute; done|set_solver|vm_compute; eauto|vm_compute; done]. }
  { vm_compute. done. }
  { vm_compute. done. }
  { vm_compute. done. }
  { intros H. exfalso. apply H. vm_compute. done. }
  assert (v1' = v1) as -> by congruence. symmetry in Hl. apply app_nil in Hl as [-> ->].
  pose proof (attach_fixed_ok v1 [16] 32 (region_at VM_REG_FIXED 0x50000 0x60000)) as H2. rewrite Hm1 in H2. cbn iota beta zeta in H2.
  assert (Ef : first_above (mem demo_vmm) (vm_begin (region_at VM_REG_FIXED 0x50000 0x60000)) [16] = 0) by (vm_compute; done).
  rewrite Ef in H2. destruct H2 as (v' & l1 & l2 & E2' & Hl & Hi2 & Hm2 & Hlm).
  { exact Hi1. }
  { split; [apply (bool_decide_unpack (addr_ok 32)); vm_compute; done|set_solver| |rewrite Hm1; vm_compute; done].
    destruct (get (regions_tree v1) 32); [eauto|done]. }
  { vm_compute. done. }
  { vm_compute. done. }
  { vm_compute. done. }
  { done. }
  assert (v' = v) as -> by congruence. exists v. rewrite Hm2. split_and!; [|split|done|done].
  - destruct l1 as [|a [|b l1]]; [|simplify_eq/=; done|simplify_eq/=]. exfalso. simpl in Hl. subst l2.
    destruct Hi2 as [_ _ [_ Hs]]. apply StronglySorted_cons in Hs as [Hs _]. apply Forall_cons_1 in Hs as [Hs _].
    rewrite Hm2 in Hs. vm_compute in Hs. done.
  - apply (bool_decide_unpack (addr_ok 48)). vm_compute. done.
  - apply (bool_decide_unpack (48 ∉ [16; 32])). vm_compute. done.
  - exact H48.
  - rewrite Hm2. vm_compute. done.
Qed.

(** ** Theorems *)

(** C23: On an address space whose tree and list hold disjoint regions in order, [vm_region_find] ends in at most
    2 log2 (n + 1) + 1 iterations for n regions, and the region that it finds in the tree is the one that the scan of the list,
    [vm_region_find_list], finds: the first one that ends after the address.  When a region contains the address, that is it. *)
Theorem vm_region_find_equiv v rs addr : regions_inv v rs ->
  let n := length rs in
  exists reg v', vm_region_find v addr = Some reg /\ vm_region_find_list v addr = Some (reg, v') /\
    find_loop (S (2 * Nat.log2 (S n))) v 0 (rb_root (regions_tree v)) addr = Some reg /\
    reg = first_above (mem v) addr rs /\
    (forall q, q ∈ rs -> rbegin (mem v) q <= addr < rend (mem v) q -> reg = q).
Proof.
  intros Hinv n. exists (first_above (mem v) addr rs). eexists. split_and!; [apply find_ok|rewrite (find_list_ok v rs)|apply find_bound|..]; try done.
  intros q Hq Ha. apply list_elem_of_split in Hq as (l1 & l2 & ->). apply first_above_split; [|lia].
  eapply below_begin; [apply Hinv|lia].
Qed.

Lemma vm_region_find_equiv_witness : exists v, regions_inv v [16; 32] /\ vm_region_find v 0x15000 = Some 16.
Proof.
  destruct demo_regions as (v & Hinv & _ & Hm & _). exists v. split; [exact Hinv|].
  destruct (vm_region_find_equiv v [16; 32] 0x15000 Hinv) as (reg & v' & -> & _ & _ & -> & _). rewrite Hm. vm_compute. reflexivity.
Defined.

Lemma attach_fixed_spec v rs r x : regions_inv v rs -> new_region v rs r x -> is_set (vm_flags x) VM_REG_FIXED = true ->
  0 <= vm_begin x < vm_end x -> vm_end x < 2 ^ 32 ->
  ((exists q, q ∈ rs /\ rbegin (mem v) q <= vm_begin x < rend (mem v) q) -> vm_region_attach v r = Some (EEXIST, v)) /\
  ((forall q, q ∈ rs -> rend (mem v) q <= vm_begin x \/ vm_end x <= rbegin (mem v) q) ->
   exists v' l1 l2, vm_region_attach v r = Some (0, v') /\ rs = l1 ++ l2 /\ regions_inv v' (l1 ++ r :: l2) /\
      mem v' = mem v /\ last_mmap v' = vm_begin x).
Proof.
  intros Hinv Hnew Hfix Hlt Hmax. pose proof (attach_fixed_ok v rs r x Hinv Hnew Hfix Hlt Hmax) as H. cbn zeta in H.
  assert (Hnz : Forall addr_ok rs) by (eapply (tail_addrs v rs []); done). split.
  - intros (q & Hq & Hb). assert (Ereg : first_above (mem v) (vm_begin x) rs = q).
    { pose proof Hq as Hq'. apply list_elem_of_split in Hq' as (l1 & l2 & ->). apply first_above_split; [eapply below_begin; [apply Hinv|lia]|lia]. }
    rewrite Ereg in H. eapply Forall_forall in Hnz as [Hq0 _]; [|exact Hq].
    destruct (Z.eqb_spec q 0); [lia|]. destruct (Z.leb_spec (rbegin (mem v) q) (vm_begin x)); [done|lia].
  - intros Hfree. destruct (Z.eqb_spec (first_above (mem v) (vm_begin x) rs) 0) as [|H0]; [apply H; done|].
    destruct (first_above_in (mem v) rs (vm_begin x) H0) as [Hin Hab]. destruct (Hfree _ Hin) as [|Hroom]; [lia|].
    destruct (Z.leb_spec (rbegin (mem v) (first_above (mem v) (vm_begin x) rs)) (vm_begin x)); [lia|]. apply H. intros _. done.
Qed.

(** C25: A region asked at a fixed address is refused with EEXIST, and the space left as it was, when a region contains its first
    address; where its whole range is free it is inserted in the tree and in the list at its place, the regions stay disjoint and
    in order, and detaching it gives back a space with the regions that were there. *)
Theorem vm_region_attach_fixed v rs r x : regions_inv v rs -> new_region v rs r x -> is_set (vm_flags x) VM_REG_FIXED = true ->
  0 <= vm_begin x < vm_end x -> vm_end x < 2 ^ 32 ->
  ((exists q, q ∈ rs /\ rbegin (mem v) q <= vm_begin x < rend (mem v) q) -> vm_region_attach v r = Some (EEXIST, v)) /\
  ((forall q, q ∈ rs -> rend (mem v) q <= vm_begin x \/ vm_end x <= rbegin (mem v) q) ->
   exists v' l1 l2, vm_region_attach v r = Some (0, v') /\ rs = l1 ++ l2 /\ regions_inv v' (l1 ++ r :: l2) /\ mem v' = mem v /\
     last_mmap v' = vm_begin x /\ exists v'', detach_links v' r = Some v'' /\ regions_inv v'' rs).
Proof.
  intros Hinv Hnew Hfix Hlt Hmax. destruct (attach_fixed_spec v rs r x) as [H1 H2]; try done. split; [done|].
  intros Hfree. destruct (H2 Hfree) as (v' & l1 & l2 & E & Hrs & Hi & Hm & Hl). exists v', l1, l2. split_and!; try done.
  destruct (detach_ok v' l1 r l2 x Hi) as (v'' & Ed & Hi' & _); [rewrite Hm; apply Hnew|]. exists v''. rewrite Hrs. done.
Qed.

Lemma vm_region_attach_fixed_witness :
  (exists v', vm_region_attach demo_vmm 16 = Some (0, v') /\ regions_inv v' [16]) /\
  exists v' v'', vm_region_attach demo_vmm 16 = Some (0, v') /\ detach_links v' 16 = Some v'' /\ regions_inv v'' [].
Proof.
  destruct (vm_region_attach_fixed demo_vmm [] 16 (region_at VM_REG_FIXED 0x10000 0x20000)) as [_ H].
  - apply vmm_init_ok.
  - split; [apply (bool_decide_unpack (addr_ok 16)); vm_compute; reflexivity|set_solver|vm_compute; eauto|vm_compute; reflexivity].
  - vm_compute. reflexivity.
  - split; vm_compute; [discriminate|reflexivity].
  - vm_compute. reflexivity.
  - destruct H as (v' & l1 & l2 & E & Hl & Hi & _ & _ & v'' & Ed & Hi'); [intros q Hq; apply not_elem_of_nil in Hq; destruct Hq|].
    symmetry in Hl. apply app_nil in Hl as [-> ->]. split; [exists v'; split; assumption|exists v', v''; split; [assumption|split; assumption]].
Defined.

(** C24: A region asked at no fixed address, of a size up to the user space, is placed in free space from [last_mmap] on and below the user limit, at the lowest address
    where it fits without ending exactly where another region begins: every lower address where it fits is one where it would end so, which the search passes over
    because its test is strict.  The space then holds it at its place in order, with its fields moved there.  ENOMEM is returned, with the space left as it was,
    exactly when there is no such address: the region then fits nowhere, or only in gaps that it would fill up to the next region.
    (For larger sizes the limit wraps around, [vm_region_solve_wraps].) *)
Theorem vm_region_attach_first_fit v rs r x : regions_inv v rs -> new_region v rs r x -> is_set (vm_flags x) VM_REG_FIXED = false ->
  0 < vm_end x <= CONFIG_USR_LIMIT -> 0 <= last_mmap v < 2 ^ 32 ->
  (exists start v' l1 l2, vm_region_attach v r = Some (0, v') /\ fits v rs (vm_end x) start /\ ~ touches v rs (vm_end x) start /\
     (forall a, fits v rs (vm_end x) a -> a < start -> touches v rs (vm_end x) a) /\ rs = l1 ++ l2 /\ regions_inv v' (l1 ++ r :: l2) /\
     mem v' = <[r := set_range x start (start + vm_end x) start (vm_limit x +! start)]> (mem v) /\ last_mmap v' = start) \/
  (vm_region_attach v r = Some (ENOMEM, v) /\ forall a, fits v rs (vm_end x) a -> touches v rs (vm_end x) a).
Proof.
  intros Hinv Hnew Hfix Hs Hl.
  assert (Htouch : forall a, fits v rs (vm_end x) a -> ~ apart v rs (vm_end x) a -> touches v rs (vm_end x) a).
  { intros a Hf Hn. destruct (decide (Exists (fun q => rbegin (mem v) q = a + vm_end x) rs)) as [He|He]; [apply Exists_exists; done|].
    destruct Hn. apply apart_fits; [done|lia|]. split; [done|]. intros Ht. apply He, Exists_exists. done. }
  destruct (attach_anywhere_ok v rs r x Hinv Hnew Hfix Hs Hl) as [(start & v' & l1 & l2 & E & Hf & Hmin & H)|[E H]].
  - left. exists start, v', l1, l2. split; [done|]. apply apart_fits in Hf as [Hf Ht]; [|done|lia]. split_and!; try done; try apply H.
    intros a Ha Hlt. apply Htouch; [done|]. intros Hp. specialize (Hmin a Hp). lia.
  - right. split; [done|]. intros a Ha. apply Htouch; [done|]. apply H.
Qed.

Lemma vm_region_attach_first_fit_witness : exists v v', regions_inv v [16; 32] /\ last_mmap v = 0x50000 /\
  vm_region_attach v 48 = Some (0, v') /\ last_mmap v' = 0x60000.
Proof.
  destruct demo_regions as (v & Hinv & Hnew & Hm & Hl). exists v.
  assert (Hfit : fits v [16; 32] 0x20000 0x60000).
  { split; [rewrite Hl; vm_compute; discriminate|]. split; [vm_compute; discriminate|].
    intros q Hq. left. rewrite Hm. apply elem_of_cons in Hq as [->|Hq]; [vm_compute; discriminate|].
    apply elem_of_cons in Hq as [->|Hq]; [vm_compute; discriminate|]. apply not_elem_of_nil in Hq. destruct Hq. }
  assert (Hnt : ~ touches v [16; 32] 0x20000 0x60000).
  { intros (q & Hq & E). rewrite Hm in E. apply elem_of_cons in Hq as [->|Hq]; [vm_compute in E; discriminate|].
    apply elem_of_cons in Hq as [->|Hq]; [vm_compute in E; discriminate|]. apply not_elem_of_nil in Hq. destruct Hq. }
  destruct (vm_region_attach_first_fit v [16; 32] 48 (region_at 0 0 0x20000) Hinv Hnew) as [H|[_ H]].
  - vm_compute. reflexivity.
  - split; vm_compute; [reflexivity|discriminate].
  - rewrite Hl. split; vm_compute; [discriminate|reflexivity].
  - destruct H as (start & v' & l1 & l2 & E & Hf & _ & Hmin & _ & _ & _ & Hl'). exists v'. split; [exact Hinv|]. split; [exact Hl|]. split; [exact E|].
    rewrite Hl'. change (vm_end (region_at 0 0 0x20000)) with 0x20000 in Hf, Hmin. apply Z.le_antisymm.
    + destruct (Z.le_gt_cases start 0x60000) as [H|H]; [exact H|]. destruct (Hnt (Hmin 0x60000 Hfit H)).
    + destruct Hf as (H1 & _ & H3). destruct (H3 32) as [H|H]; [set_solver| |].
      * rewrite Hm in H. exact H.
      * rewrite Hm in H. change (rbegin (mem demo_vmm) 32) with 0x50000 in H. lia.
  - destruct (Hnt (H 0x60000 Hfit)).
Defined.

(** ** What the code does not check *)

Definition overlap_vmm : vmm_s :=
  vmm_init (Vmm (RbTree 0 (list_to_map ((fun a => (a, RbNode 0 0 0)) <$> [16; 32]))) ∅
    (list_to_map [(16, region_at VM_REG_FIXED 0x50000 0x60000); (32, region_at VM_REG_FIXED 0x10000 0x58000)]) 0 0).

(** A region at a fixed address is compared with the region after it by its first address only: one that ends inside that region is
    attached, and the two overlap. *)
Theorem vm_region_fixed_overlap : exists v1 v2, vm_region_attach overlap_vmm 16 = Some (0, v1) /\
  vm_region_attach v1 32 = Some (0, v2) /\ rbegin (mem v2) 16 < rend (mem v2) 32 /\ rbegin (mem v2) 32 < rbegin (mem v2) 16.
Proof. eexists _, _. split; [vm_compute; reflexivity|]. split; [vm_compute; reflexivity|]. split; vm_compute; reflexivity. Qed.

Definition exact_vmm : vmm_s :=
  vmm_init (Vmm (RbTree 0 (list_to_map ((fun a => (a, RbNode 0 0 0)) <$> [16; 32; 48]))) ∅
    (list_to_map [(16, region_at VM_REG_FIXED 0x50000 0x60000); (32, region_at VM_REG_FIXED 0x10000 0x20000); (48, region_at 0 0 0x30000)]) 0 0).

(** The test of the search is strict: a region that just fits between two others is placed after them. *)
Theorem vm_region_exact_gap_skipped : exists v1 v2 v3, vm_region_attach exact_vmm 16 = Some (0, v1) /\ vm_region_attach v1 32 = Some (0, v2) /\
  rend (mem v2) 32 + 0x30000 = rbegin (mem v2) 16 /\ vm_region_attach v2 48 = Some (0, v3) /\ rbegin (mem v3) 48 = rend (mem v3) 16.
Proof. eexists _, _, _. split; [vm_compute; reflexivity|]. split; [vm_compute; reflexivity|]. split; [vm_compute; reflexivity|]. split; vm_compute; reflexivity. Qed.

Definition huge_vmm : vmm_s :=
  vmm_init (Vmm (RbTree 0 (list_to_map [(16, RbNode 0 0 0)])) ∅ (list_to_map [(16, region_at 0 0 0x80000000)]) 0 0).

(** The limit of the search is [CONFIG_USR_LIMIT] less the size, modulo 2^32: a region larger than the user space is attached. *)
Theorem vm_region_solve_wraps : exists v1, vm_region_attach huge_vmm 16 = Some (0, v1) /\ CONFIG_USR_LIMIT < rend (mem v1) 16.
Proof. eexists _. split; vm_compute; reflexivity. Qed.
