(* ===== verification/WaitQueue.v ===== *)
(** * WaitQueue: the queues of sleeping threads of [kernel/kern/wait_queue.c]

    [WaitQueues] is the interface that the semaphores, the read-write locks and the
    condition variables use; [WaitQueueLaws] is what they rely on: each queue is a sequence
    of threads, woken from either end.  The implementation on the intrusive lists of
    [ListH], where a thread is linked through the [list] field of its descriptor, is an
    instance of both. *)

From S2P Require Import Prelude ListH.

(** Wait orders. *)
Definition WAIT_FIRST : Z := 0.
Definition WAIT_LAST : Z := 1.
Definition WAIT_ANY : Z := 2.

(** ** The interface *)

(** Queues and threads are named by integers.  [None] is an access outside of the store. *)
Class WaitQueues (W : Type) := {
  wait_queue_init : W -> Z -> W;
  wait_queue_isEmpty : W -> Z -> option bool;
  wait_on : W -> Z -> Z -> Z -> option W;            (* queue, calling thread, order *)
  wakeup_one : W -> Z -> Z -> option (option Z * W); (* queue, order *)
  wakeup_all : W -> Z -> option (Z * W);
  woken : W -> list Z;                               (* the calls of sched_wakeup so far *)
}.

(** [wq_rep w Q k]: queue [q] holds [Q !! q], and [k] is the sequence of the woken threads. *)
Class WaitQueueLaws (W : Type) `{WaitQueues W} := {
  wq_rep : W -> gmap Z (list Z) -> list Z -> Prop;
  wq_woken w Q k : wq_rep w Q k -> woken w = k;
  wq_nodup w Q k q l : wq_rep w Q k -> Q !! q = Some l -> NoDup l;
  wq_init w Q k q : wq_rep w Q k -> Q !! q = None ->
    wq_rep (wait_queue_init w q) (<[q := []]> Q) k;
  wq_isEmpty w Q k q l : wq_rep w Q k -> Q !! q = Some l ->
    wait_queue_isEmpty w q = Some (bool_decide (l = []));
  wq_wait_last w Q k q l t : wq_rep w Q k -> Q !! q = Some l ->
    (forall q' l', Q !! q' = Some l' -> t ∉ l') ->
    exists w', wait_on w q t WAIT_LAST = Some w' /\ wq_rep w' (<[q := l ++ [t]]> Q) k;
  wq_wait_first w Q k q l t : wq_rep w Q k -> Q !! q = Some l ->
    (forall q' l', Q !! q' = Some l' -> t ∉ l') ->
    exists w', wait_on w q t WAIT_FIRST = Some w' /\ wq_rep w' (<[q := t :: l]> Q) k;
  wq_wakeup_none w Q k q order : wq_rep w Q k -> Q !! q = Some [] ->
    wakeup_one w q order = Some (None, w);
  wq_wakeup_first w Q k q t l : wq_rep w Q k -> Q !! q = Some (t :: l) ->
    exists w', wakeup_one w q WAIT_FIRST = Some (Some t, w') /\
      wq_rep w' (<[q := l]> Q) (k ++ [t]);
  wq_wakeup_last w Q k q t l : wq_rep w Q k -> Q !! q = Some (l ++ [t]) ->
    exists w', wakeup_one w q WAIT_LAST = Some (Some t, w') /\
      wq_rep w' (<[q := l]> Q) (k ++ [t]);
  wq_wakeup_all w Q k q l : wq_rep w Q k -> Q !! q = Some l ->
    exists w', wakeup_all w q = Some (u32 (zlen l), w') /\ wq_rep w' (<[q := []]> Q) (k ++ l);
}.

(** ** The implementation *)

Module WQ.
(** [links]: the list heads of the queues and the [list] fields of the threads;
    [info_queue]: the [info.queue] fields that are not [NULL]; [woken]: the calls of
    [sched_wakeup]. *)
Record store := Store {
  links : gmap laddr (list_entry laddr);
  info_queue : gmap Z Z;
  woken : list Z;
}.

Definition empty : store := Store ∅ ∅ [].

Definition wait_queue_init (w : store) (queue : Z) : store :=
  Store (list_root_init (links w) (Root queue)) (info_queue w) (woken w).

(** The queue takes over the waiters of another one. *)
Definition wait_queue_init2 (w : store) (queue another : Z) : option store :=
  isEmpty ← list_empty (links w) (Root another);
  l ← (if (isEmpty : bool) then Some (list_root_init (links w) (Root queue))
       else list_replace (links w) (Root another) (Root queue));
  Some (Store l (info_queue w) (woken w)).

Definition wait_queue_isEmpty (w : store) (queue : Z) : option bool :=
  list_empty (links w) (Root queue).

(** The result is the number of diagnostics of the assertion. *)
Definition wait_queue_destroy (w : store) (queue : Z) : option Z :=
  isEmpty ← list_empty (links w) (Root queue); Some (if (isEmpty : bool) then 0 else 1).

Definition wait_on (w : store) (queue this order : Z) : option store :=
  l ← (if order =? WAIT_LAST then list_add_last (links w) (Root queue) (Entry this)
       else list_add_first (links w) (Root queue) (Entry this));
  Some (Store l (<[this := queue]> (info_queue w)) (woken w)).

(** [list_unlink(&thread->list); thread->info.queue = NULL; sched_wakeup(thread)] *)
Definition unlink_wakeup (w : store) (thread : Z) : option store :=
  l ← list_unlink (links w) (Entry thread);
  Some (Store l (delete thread (info_queue w)) (woken w ++ [thread])).

Definition wakeup_one (w : store) (queue order : Z) : option (option Z * store) :=
  isEmpty ← list_empty (links w) (Root queue);
  if (isEmpty : bool) then Some (None, w)
  else
    entry ← (if order =? WAIT_LAST then list_last (links w) (Root queue)
             else list_first (links w) (Root queue));
    thread ← list_container entry;
    w ← unlink_wakeup w thread;
    Some (Some thread, w).

(** [list_foreach(&queue->root, iter)]: the successor is read before the element is
    unlinked. *)
Fixpoint wakeup_loop (fuel : nat) (w : store) (root iter : laddr) (i : Z) : option (Z * store) :=
  match fuel with
  | O => None
  | S fuel =>
      if bool_decide (iter = root) then Some (i, w)
      else
        e ← links w !! iter;
        thread ← list_container iter;
        w ← unlink_wakeup w thread;
        wakeup_loop fuel w root (next e) (i +! 1)
  end.

Definition wakeup_all (w : store) (queue : Z) : option (Z * store) :=
  e ← links w !! Root queue;
  wakeup_loop (size (links w)) w (Root queue) (next e) 0.

(** ** Correctness *)

Definition heads (Q : gmap Z (list Z)) : gmap laddr (list laddr) :=
  kmap (M1 := gmap Z) (M2 := gmap laddr) Root ((fun l : list Z => Entry <$> l) <$> Q).

(** A thread of a queue records it in [info.queue]; other threads have [NULL] there. *)
Definition queue_ok (w : store) (Q : gmap Z (list Z)) : Prop :=
  forall t q, info_queue w !! t = Some q <-> exists l, Q !! q = Some l /\ t ∈ l.

Definition rep (w : store) (Q : gmap Z (list Z)) (k : list Z) : Prop :=
  dlists (links w) (heads Q) /\ queue_ok w Q /\ woken w = k.

#[export] Instance Root_inj : Inj (=) (=) Root.
Proof. by intros ? ? [= ->]. Qed.

Lemma heads_lookup Q q l : Q !! q = Some l -> heads Q !! Root q = Some (Entry <$> l).
Proof. intros E. unfold heads. rewrite lookup_kmap, lookup_fmap, E by apply _. done. Qed.

Lemma heads_Some Q a xs : heads Q !! a = Some xs <->
  exists q l, a = Root q /\ Q !! q = Some l /\ xs = Entry <$> l.
Proof.
  unfold heads. rewrite lookup_kmap_Some by apply _. setoid_rewrite lookup_fmap_Some. naive_solver.
Qed.

Lemma heads_insert Q q l : heads (<[q := l]> Q) = <[Root q := Entry <$> l]> (heads Q).
Proof. unfold heads. rewrite fmap_insert, kmap_insert by apply _. done. Qed.

Lemma heads_unlinked Q t : (forall q l, Q !! q = Some l -> t ∉ l) -> unlinked (heads Q) (Entry t).
Proof.
  intros Ht a xs Ha. apply heads_Some in Ha as (q & l & -> & Hq & ->).
  rewrite not_elem_of_cons, list_elem_of_fmap. split; [done|]. intros (t' & [= <-] & Hin).
  by apply (Ht q l).
Qed.

Lemma heads_unlinked_root Q q : Q !! q = None -> unlinked (heads Q) (Root q).
Proof.
  intros Hq a xs Ha. apply heads_Some in Ha as (q' & l & -> & Hq' & ->).
  rewrite not_elem_of_cons, list_elem_of_fmap. split; [congruence|]. by intros (? & ? & _).
Qed.

(** A thread is in one queue at most, once. *)
Lemma heads_unique w Q q q' l l' t : dlists w (heads Q) -> Q !! q = Some l -> Q !! q' = Some l' ->
  t ∈ l -> t ∈ l' -> q = q'.
Proof.
  intros [_ Hd] Hq Hq' Hl Hl'.
  assert (E : Root q = Root q'); [|by injection E].
  apply (Hd _ _ _ _ (Entry t) (heads_lookup _ _ _ Hq) (heads_lookup _ _ _ Hq'));
    apply elem_of_cons; right; by apply list_elem_of_fmap_2.
Qed.

Lemma heads_nodup w Q q l : dlists w (heads Q) -> Q !! q = Some l -> NoDup l.
Proof.
  intros Hd Hq. pose proof (proj1 Hd _ _ (heads_lookup _ _ _ Hq)) as [Hnd _].
  apply NoDup_cons in Hnd as [_ Hnd]. by apply NoDup_fmap in Hnd; [|apply _].
Qed.

Lemma woken_rep w Q k : rep w Q k -> woken w = k.
Proof. by intros (_ & _ & ?). Qed.

Lemma nodup_rep w Q k q l : rep w Q k -> Q !! q = Some l -> NoDup l.
Proof. intros [Hd _]. by apply (heads_nodup _ _ _ _ Hd). Qed.

Lemma queue_ok_add w Q q l l' t lk k : queue_ok w Q -> Q !! q = Some l ->
  (forall q' l', Q !! q' = Some l' -> t ∉ l') -> (forall x, x ∈ l' <-> x = t \/ x ∈ l) ->
  queue_ok (Store lk (<[t := q]> (info_queue w)) k) (<[q := l']> Q).
Proof.
  intros Hq Hl Ht Hl' t' q'. cbn. destruct (decide (t = t')) as [<-|Hne].
  - rewrite lookup_insert_eq. split.
    + intros [= <-]. exists l'. rewrite lookup_insert_eq, Hl'. auto.
    + intros (l0 & Hl0 & Hin). rewrite lookup_insert in Hl0. case_decide; simplify_eq; [done|].
      exfalso. by eapply Ht.
  - rewrite lookup_insert_ne, (Hq t' q') by done. destruct (decide (q = q')) as [<-|].
    + rewrite lookup_insert_eq. split.
      * intros (l0 & E & Hin). simplify_eq. exists l'. rewrite Hl'. auto.
      * intros (l0 & [= <-] & Hin). exists l. apply Hl' in Hin as [->|?]; done.
    + by rewrite lookup_insert_ne.
Qed.

Lemma queue_ok_remove w Q q l l' t lk k : queue_ok w Q -> Q !! q = Some l ->
  (forall q' l', Q !! q' = Some l' -> t ∈ l' -> q' = q) -> t ∉ l' ->
  (forall x, x ∈ l <-> x = t \/ x ∈ l') ->
  queue_ok (Store lk (delete t (info_queue w)) k) (<[q := l']> Q).
Proof.
  intros Hq Hl Ht Hnt Hl' t' q'. cbn. destruct (decide (t = t')) as [<-|Hne].
  - rewrite lookup_delete_eq. split; [done|]. intros (l0 & Hl0 & Hin).
    rewrite lookup_insert in Hl0. destruct (decide (q = q')) as [->|Hqq]; [by simplify_eq|].
    destruct Hqq. symmetry. by apply (Ht q' l0).
  - rewrite lookup_delete_ne, (Hq t' q') by done. destruct (decide (q = q')) as [<-|].
    + rewrite lookup_insert_eq. split.
      * intros (l0 & E & Hin). simplify_eq. exists l'. apply Hl' in Hin as [->|?]; done.
      * intros (l0 & [= <-] & Hin). exists l. rewrite Hl'. auto.
    + by rewrite lookup_insert_ne.
Qed.

Lemma wait_queue_init_rep w Q k q : rep w Q k -> Q !! q = None ->
  rep (wait_queue_init w q) (<[q := []]> Q) k.
Proof.
  intros (Hd & Hq & Hk) E. split_and!; [|intros t q'; cbn; rewrite (Hq t q')|done].
  - rewrite heads_insert. apply list_root_init_dlists; [done|]. by apply heads_unlinked_root.
  - destruct (decide (q = q')) as [<-|]; [|by rewrite lookup_insert_ne].
    rewrite lookup_insert_eq, E. split; [by intros (? & ? & _)|]. intros (l & [= <-] & Hl).
    by apply elem_of_nil in Hl.
Qed.

Lemma isEmpty_rep w Q k q l : rep w Q k -> Q !! q = Some l ->
  wait_queue_isEmpty w q = Some (bool_decide (l = [])).
Proof.
  intros (Hd & _) E. unfold wait_queue_isEmpty.
  rewrite (list_empty_dlists _ _ _ _ Hd (heads_lookup _ _ _ E)). f_equal.
  apply bool_decide_ext. destruct l; done.
Qed.

Lemma wait_last_rep w Q k q l t : rep w Q k -> Q !! q = Some l ->
  (forall q' l', Q !! q' = Some l' -> t ∉ l') ->
  exists w', wait_on w q t WAIT_LAST = Some w' /\ rep w' (<[q := l ++ [t]]> Q) k.
Proof.
  intros (Hd & Hq & Hk) E Ht. unfold wait_on. cbn [Z.eqb WAIT_LAST Pos.eqb].
  destruct (list_add_last_dlists _ _ _ _ (Entry t) Hd (heads_lookup _ _ _ E)) as (h & -> & Hd');
    [by apply heads_unlinked|].
  eexists. split; [done|]. split_and!; [|eapply queue_ok_add; eauto; set_solver|done].
  rewrite heads_insert, fmap_app. exact Hd'.
Qed.

Lemma wait_first_rep w Q k q l t : rep w Q k -> Q !! q = Some l ->
  (forall q' l', Q !! q' = Some l' -> t ∉ l') ->
  exists w', wait_on w q t WAIT_FIRST = Some w' /\ rep w' (<[q := t :: l]> Q) k.
Proof.
  intros (Hd & Hq & Hk) E Ht. unfold wait_on, list_add_first. cbn [Z.eqb WAIT_LAST WAIT_FIRST].
  destruct (list_add_dlists _ _ _ _ (Entry t) Hd (heads_lookup _ _ _ E)) as (h & -> & Hd');
    [by apply heads_unlinked|].
  eexists. split; [done|]. split_and!; [|eapply queue_ok_add; eauto; set_solver|done].
  rewrite heads_insert. exact Hd'.
Qed.

(** Unlinking any thread of a queue. *)
Lemma unlink_wakeup_rep w Q k q l1 t l2 : rep w Q k -> Q !! q = Some (l1 ++ t :: l2) ->
  exists w', unlink_wakeup w t = Some w' /\ rep w' (<[q := l1 ++ l2]> Q) (k ++ [t]).
Proof.
  intros (Hd & Hq & Hk) E. unfold unlink_wakeup.
  pose proof (heads_lookup _ _ _ E) as Hh. rewrite fmap_app in Hh.
  destruct (list_unlink_dlists _ _ _ _ _ _ Hd Hh) as (h & -> & Hd').
  eexists. split; [done|]. split_and!; [by rewrite heads_insert, fmap_app| |by rewrite <- Hk].
  eapply queue_ok_remove; eauto.
  - intros q' l' Hq' Ht. symmetry. eapply heads_unique; eauto. set_solver.
  - pose proof (heads_nodup _ _ _ _ Hd E) as Hnd. rewrite NoDup_app, NoDup_cons in Hnd. set_solver.
  - set_solver.
Qed.

Lemma wakeup_none_rep w Q k q order : rep w Q k -> Q !! q = Some [] ->
  wakeup_one w q order = Some (None, w).
Proof.
  intros Hr E. unfold wakeup_one. pose proof (isEmpty_rep _ _ _ _ _ Hr E) as He.
  unfold wait_queue_isEmpty in He. by rewrite He.
Qed.

Lemma wakeup_first_rep w Q k q t l : rep w Q k -> Q !! q = Some (t :: l) ->
  exists w', wakeup_one w q WAIT_FIRST = Some (Some t, w') /\ rep w' (<[q := l]> Q) (k ++ [t]).
Proof.
  intros Hr E. unfold wakeup_one. pose proof (isEmpty_rep _ _ _ _ _ Hr E) as He.
  unfold wait_queue_isEmpty in He. rewrite He. cbn.
  rewrite (list_first_dlists _ _ _ _ _ (proj1 Hr) (heads_lookup _ _ _ E)). cbn.
  destruct (unlink_wakeup_rep w Q k q [] t l Hr E) as (w' & -> & Hr'). cbn. eauto.
Qed.

Lemma wakeup_last_rep w Q k q t l : rep w Q k -> Q !! q = Some (l ++ [t]) ->
  exists w', wakeup_one w q WAIT_LAST = Some (Some t, w') /\ rep w' (<[q := l]> Q) (k ++ [t]).
Proof.
  intros Hr E. unfold wakeup_one. pose proof (isEmpty_rep _ _ _ _ _ Hr E) as He.
  unfold wait_queue_isEmpty in He. rewrite He, bool_decide_false by (by destruct l). cbn.
  pose proof (heads_lookup _ _ _ E) as Hh. rewrite fmap_app in Hh.
  rewrite (list_last_dlists _ _ _ _ _ (proj1 Hr) Hh). cbn.
  destruct (unlink_wakeup_rep w Q k q l t [] Hr E) as (w' & -> & Hr'). cbn.
  rewrite app_nil_r in Hr'. eauto.
Qed.

Lemma wakeup_loop_rep fuel w Q k q l i : rep w Q k -> Q !! q = Some l -> (length l < fuel)%nat ->
  exists w', wakeup_loop fuel w (Root q) (hd (Root q) (Entry <$> l)) (u32 i) =
      Some (u32 (i + zlen l), w') /\ rep w' (<[q := []]> Q) (k ++ l).
Proof.
  revert w Q k l i. induction fuel as [|fuel IH]; intros w Q k l i Hr E Hf; [lia|].
  destruct l as [|t l]; cbn [wakeup_loop hd fmap list_fmap].
  { rewrite bool_decide_true, Z.add_0_r, app_nil_r by done. exists w. by rewrite insert_id. }
  rewrite bool_decide_false by done.
  assert (Hn : exists e, links w !! Entry t = Some e /\ next e = hd (Root q) (Entry <$> l)).
  { destruct (proj1 (proj1 Hr) _ _ (heads_lookup _ _ _ E)) as [_ Hc]. cbn in Hc.
    destruct Hc as [_ Hc]. assert (Hn : nxt (links w) (Entry t) = Some (hd (Root q) (Entry <$> l)))
      by (destruct l; apply Hc). apply fmap_Some in Hn as (e & He & Hn). by exists e. }
  destruct Hn as (e & -> & Hn). cbn [mbind option_bind list_container].
  destruct (unlink_wakeup_rep w Q k q [] t l Hr E) as (w1 & -> & Hr1).
  cbn [mbind option_bind]. rewrite Hn.
  destruct (IH w1 _ _ l (i + 1) Hr1) as (w' & E' & Hr'); [by rewrite lookup_insert_eq|cbn in Hf; lia|].
  exists w'. rewrite insert_insert_eq, <- app_assoc in Hr'. split; [|done].
  replace (u32 (u32 i + 1)) with (u32 (i + 1)) by (unfold u32; by rewrite Zplus_mod_idemp_l).
  rewrite E'. do 3 f_equal. unfold zlen. cbn [length]. lia.
Qed.

Lemma wakeup_all_rep w Q k q l : rep w Q k -> Q !! q = Some l ->
  exists w', wakeup_all w q = Some (u32 (zlen l), w') /\ rep w' (<[q := []]> Q) (k ++ l).
Proof.
  intros Hr E. pose proof (proj1 (proj1 Hr) _ _ (heads_lookup _ _ _ E)) as Hd.
  pose proof (dlist_size _ _ _ Hd) as Hs. rewrite length_fmap in Hs.
  destruct (wakeup_loop_rep (size (links w)) w Q k q l 0 Hr E Hs) as (w' & E' & Hr').
  exists w'. split; [|done]. unfold wakeup_all.
  pose proof (dlists_first _ _ _ _ (proj1 Hr) (heads_lookup _ _ _ E)) as Hn.
  apply fmap_Some in Hn as (e & -> & Hn). cbn. rewrite <- Hn. exact E'.
Qed.

(** [wait_queue_init2] moves the waiters, in order, to the new queue. *)
Lemma wait_queue_init2_dlists w Q q q' l : dlists (links w) (heads Q) -> Q !! q' = Some l ->
  Q !! q = None -> exists w', wait_queue_init2 w q q' = Some w' /\
    dlists (links w') (heads (<[q := l]> (if bool_decide (l = []) then Q else delete q' Q))).
Proof.
  intros Hd E Eq. unfold wait_queue_init2.
  rewrite (list_empty_dlists _ _ _ _ Hd (heads_lookup _ _ _ E)). cbn.
  destruct l as [|t l]; cbn.
  - eexists. split; [done|]. cbn. rewrite heads_insert.
    apply list_root_init_dlists; [done|]. by apply heads_unlinked_root.
  - destruct (list_replace_dlists _ _ _ (Root q) _ _ Hd (heads_lookup _ _ _ E)) as (h & -> & Hd');
      [by apply heads_unlinked_root|].
    eexists. split; [done|]. cbn. rewrite heads_insert. unfold heads.
    rewrite fmap_delete, kmap_delete by apply _. exact Hd'.
Qed.
End WQ.

#[export] Instance wq_ops : WaitQueues WQ.store := {|
  wait_queue_init := WQ.wait_queue_init;
  wait_queue_isEmpty := WQ.wait_queue_isEmpty;
  wait_on := WQ.wait_on;
  wakeup_one := WQ.wakeup_one;
  wakeup_all := WQ.wakeup_all;
  woken := WQ.woken;
|}.

#[export] Instance wq_laws : WaitQueueLaws WQ.store := {|
  wq_rep := WQ.rep;
  wq_woken := WQ.woken_rep;
  wq_nodup := WQ.nodup_rep;
  wq_init := WQ.wait_queue_init_rep;
  wq_isEmpty := WQ.isEmpty_rep;
  wq_wait_last := WQ.wait_last_rep;
  wq_wait_first := WQ.wait_first_rep;
  wq_wakeup_none := WQ.wakeup_none_rep;
  wq_wakeup_first := WQ.wakeup_first_rep;
  wq_wakeup_last := WQ.wakeup_last_rep;
  wq_wakeup_all := WQ.wakeup_all_rep;
|}.

Lemma wq_empty_rep : wq_rep WQ.empty ∅ [].
Proof.
  split_and!; [|intros t q; cbn; rewrite lookup_empty; split; [done|];
    intros (l & E & _); by rewrite lookup_empty in E|done].
  split; intros *; rewrite WQ.heads_Some; by intros (? & ? & _ & E & _).
Qed.
