(* ===== verification/Semaphore.v ===== *)
(** * Semaphore: counting and binary semaphores of [kernel/kern/semaphore.c]

    The operations are written over the interface of the wait queues.  [sem_wait] and
    [sem_post] test [owner] before they take the spinlock of the semaphore, and a thread
    that sleeps in [sem_wait] sets [owner] after it is woken; the step relation of this
    file therefore cuts each operation at these points and lets the threads interleave
    there.  A critical section of the spinlock is one step. *)

From S2P Require Import Prelude ListH WaitQueue.

Definition SEMAPHORE_ID : Z := 0xA0B1C0B3.
Definition SEM_SCOPE_SYS : Z := 1.
Definition SEM_SCOPE_USR : Z := 2.

(** [struct semaphore_s]; the wait queue is named by an integer. *)
Record semaphore_s := Semaphore {
  signature : Z;
  value : Z;
  count : Z;
  scope : Z;
  owner : option Z;
  wait_queue : Z;
}.

Definition set_count (sem : semaphore_s) (c : Z) : semaphore_s :=
  Semaphore (signature sem) (value sem) c (scope sem) (owner sem) (wait_queue sem).
Definition set_owner (sem : semaphore_s) (o : option Z) : semaphore_s :=
  Semaphore (signature sem) (value sem) (count sem) (scope sem) o (wait_queue sem).

Definition SEM_VALUE_MAX : Z := 2048.

Section Ops.
Context {W : Type} `{WaitQueues W}.

(** [sem_init]: the pointer may be [NULL]; [owner] keeps the value found in memory. *)
Definition sem_init (sem : option semaphore_s) (w : W) (value scope : Z)
    : Z * option semaphore_s * W :=
  match sem with
  | None => (EINVAL, None, w)
  | Some old =>
      if SEM_VALUE_MAX <? value then (EINVAL, sem, w)
      else (0, Some (Semaphore SEMAPHORE_ID value value scope (owner old) (wait_queue old)),
            wait_queue_init w (wait_queue old))
  end.

Definition sem_getvalue (sem : semaphore_s) : Z := count sem.

(** The test of [sem_wait] and [sem_trywait] before the lock is taken. *)
Definition wait_deadlock (sem : semaphore_s) (this : Z) : bool :=
  (value sem =? 1) && negb (count sem =? 1) && bool_decide (owner sem = Some this).

(** The critical section of [sem_wait]: [true] when the thread must sleep. *)
Definition wait_locked (sem : semaphore_s) (w : W) (this : Z) : option (bool * semaphore_s * W) :=
  let sem := set_count sem (s32 (count sem - 1)) in
  if 0 <=? count sem then Some (false, sem, w)
  else w ← wait_on w (wait_queue sem) this WAIT_LAST; Some (true, sem, w).

(** The last assignment of [sem_wait], after the sleep if there was one. *)
Definition wait_end (sem : semaphore_s) (this : Z) : semaphore_s := set_owner sem (Some this).

(** What [sem_wait] does until it returns or sleeps. *)
Inductive wait_outcome := Returns (err : Z) | Sleeps.

Definition sem_wait (sem : semaphore_s) (w : W) (this : Z)
    : option (wait_outcome * semaphore_s * W) :=
  if wait_deadlock sem this then Some (Returns EDEADLK, sem, w)
  else
    '(sleeps, sem, w) ← wait_locked sem w this;
    if (sleeps : bool) then Some (Sleeps, sem, w) else Some (Returns 0, wait_end sem this, w).

(** The test of [sem_post] before the lock is taken. *)
Definition post_illegal (sem : semaphore_s) (this : Z) : bool :=
  (value sem =? 1) &&
  ((count sem <=? 0) && negb (bool_decide (owner sem = Some this)) || (0 <? count sem)).

(** The critical section of [sem_post]; the result is the thread that was woken. *)
Definition post_locked (sem : semaphore_s) (w : W) : option (option Z * semaphore_s * W) :=
  let sem := set_count sem (s32 (count sem + 1)) in
  '(thread, w) ← (if count sem <=? 0 then wakeup_one w (wait_queue sem) WAIT_FIRST
                  else Some (None, w));
  Some (thread, set_owner sem thread, w).

Definition sem_post (sem : semaphore_s) (w : W) (this : Z) : option (Z * semaphore_s * W) :=
  if post_illegal sem this then Some (EINVAL, sem, w)
  else '(_, sem, w) ← post_locked sem w; Some (0, sem, w).

Definition trywait_locked (sem : semaphore_s) (this : Z) : Z * semaphore_s :=
  if 0 <? count sem then (0, set_owner (set_count sem (s32 (count sem - 1))) (Some this))
  else (EAGAIN, sem).

Definition sem_trywait (sem : semaphore_s) (this : Z) : Z * semaphore_s :=
  if wait_deadlock sem this then (EDEADLK, sem) else trywait_locked sem this.

(** [count != value] compares a signed with an unsigned integer. *)
Definition sem_destroy (sem : semaphore_s) : Z * semaphore_s :=
  if negb (u32 (count sem) =? value sem) then (EBUSY, sem) else (0, set_owner sem None).
End Ops.

(** ** Threads using one semaphore *)

(** Where a thread is: between two calls, without ([Idle]) or with a grant it has not posted
    back ([Hold]); after the test of an operation and before its critical section; asleep;
    granted but before the last assignment of [sem_wait]. *)
Inductive pc := Idle | Hold | WaitLock | Sleep | Resume | PostLock | TryLock.

#[export] Instance pc_eq_dec : EqDecision pc.
Proof. solve_decision. Defined.

Definition ready (p : pc) : Prop := p = Idle \/ p = Hold.

Section Threads.
Context {W : Type} `{WaitQueueLaws W}.

(** [granted] and [posted] count the grants and the posts so far. *)
Record sys := Sys {
  sem : semaphore_s;
  world : W;
  pcs : Z -> pc;
  granted : Z;
  posted : Z;
}.

Inductive step : sys -> sys -> Prop :=
| step_wait_err s t : ready (pcs s t) -> wait_deadlock (sem s) t = true -> step s s
| step_wait_test s t : ready (pcs s t) -> wait_deadlock (sem s) t = false ->
    step s (Sys (sem s) (world s) (<[t := WaitLock]> (pcs s)) (granted s) (posted s))
| step_wait_grant s t sem' w' : pcs s t = WaitLock ->
    wait_locked (sem s) (world s) t = Some (false, sem', w') ->
    step s (Sys sem' w' (<[t := Resume]> (pcs s)) (granted s + 1) (posted s))
| step_wait_sleep s t sem' w' : pcs s t = WaitLock ->
    wait_locked (sem s) (world s) t = Some (true, sem', w') ->
    step s (Sys sem' w' (<[t := Sleep]> (pcs s)) (granted s) (posted s))
| step_wait_end s t : pcs s t = Resume ->
    step s (Sys (wait_end (sem s) t) (world s) (<[t := Hold]> (pcs s)) (granted s) (posted s))
| step_try_test s t : ready (pcs s t) -> wait_deadlock (sem s) t = false ->
    step s (Sys (sem s) (world s) (<[t := TryLock]> (pcs s)) (granted s) (posted s))
| step_try_ok s t sem' : pcs s t = TryLock -> trywait_locked (sem s) t = (0, sem') ->
    step s (Sys sem' (world s) (<[t := Hold]> (pcs s)) (granted s + 1) (posted s))
| step_try_again s t sem' : pcs s t = TryLock -> trywait_locked (sem s) t = (EAGAIN, sem') ->
    step s (Sys sem' (world s) (<[t := Idle]> (pcs s)) (granted s) (posted s))
| step_post_err s t : ready (pcs s t) -> post_illegal (sem s) t = true -> step s s
| step_post_test s t : ready (pcs s t) -> post_illegal (sem s) t = false ->
    step s (Sys (sem s) (world s) (<[t := PostLock]> (pcs s)) (granted s) (posted s))
| step_post_none s t sem' w' : pcs s t = PostLock ->
    post_locked (sem s) (world s) = Some (None, sem', w') ->
    step s (Sys sem' w' (<[t := Idle]> (pcs s)) (granted s) (posted s + 1))
| step_post_wake s t t' sem' w' : pcs s t = PostLock ->
    post_locked (sem s) (world s) = Some (Some t', sem', w') ->
    step s (Sys sem' w' (<[t' := Resume]> (<[t := Idle]> (pcs s))) (granted s + 1) (posted s + 1))
| step_destroy s t err sem' : ready (pcs s t) -> sem_destroy (sem s) = (err, sem') ->
    step s (Sys sem' (world s) (pcs s) (granted s) (posted s)).

(** [reach v n s]: [s] is reached in [n] steps from a semaphore initialised with [v] in
    memory whose [owner] field is null. *)
Inductive reach (v : Z) : Z -> sys -> Prop :=
| reach_init w0 old sem0 w : wq_rep w0 ∅ [] -> owner old = None ->
    sem_init (Some old) w0 v SEM_SCOPE_USR = (0, Some sem0, w) ->
    reach v 0 (Sys sem0 w (fun _ => Idle) 0 0)
| reach_step n s s' : reach v n s -> step s s' -> reach v (n + 1) s'.

(** ** Counting *)

Record inv (v n : Z) (s : sys) : Prop := {
  v_value : value (sem s) = v;
  v_queue : exists l k, wq_rep (world s) {[wait_queue (sem s) := l]} k /\
    (forall t, t ∈ l <-> pcs s t = Sleep) /\ zlen l = Z.max 0 (- count (sem s));
  v_count : count (sem s) + Z.max 0 (- count (sem s)) = v + posted s - granted s;
  v_bound : - n <= count (sem s) <= v + n;
}.

Lemma inv_init v s : 0 <= v -> reach v 0 s -> inv v 0 s.
Proof.
  intros Hv Hr. inversion Hr as [w0 old sem0 w Hw Ho E|n s0 s' Hr' Hs E]; subst.
  - unfold sem_init in E. destruct (SEM_VALUE_MAX <? v); [done|]. injection E as <- <-.
    split; cbn; [done| |lia|lia].
    exists [], []. split; [|split; [|unfold zlen; cbn; lia]].
    + pose proof (wq_init w0 ∅ [] (wait_queue old) Hw (lookup_empty _)) as Hi.
      rewrite insert_empty in Hi. exact Hi.
    + intros t. rewrite elem_of_nil. done.
  - exfalso. assert (n = -1) by lia. subst. clear -Hr'.
    assert (Hn : forall n s, reach v n s -> 0 <= n) by (induction 1; lia).
    apply Hn in Hr'. lia.
Qed.

Section Step.
Context (v n : Z) (s : sys).
Context (Hv : 0 <= v) (Hb : v + n + 1 < 2 ^ 31) (Hinv : inv v n s).

Lemma wait_locked_cases t : pcs s t <> Sleep ->
  (0 < count (sem s) /\
    wait_locked (sem s) (world s) t = Some (false, set_count (sem s) (count (sem s) - 1), world s)) \/
  (count (sem s) <= 0 /\ exists w' l k,
    wait_locked (sem s) (world s) t = Some (true, set_count (sem s) (count (sem s) - 1), w') /\
    wq_rep w' {[wait_queue (sem s) := l ++ [t]]} k /\
    (forall t, t ∈ l <-> pcs s t = Sleep) /\ zlen l = - count (sem s)).
Proof.
  intros Ht. destruct Hinv as [Hval (l & k & Hw & Hl & Hlen) Hc Hbd]. unfold wait_locked. cbn.
  rewrite s32_small by lia. destruct (Z.leb_spec 0 (count (sem s) - 1)).
  - left. split; [lia|done].
  - right. split; [lia|].
    destruct (wq_wait_last _ _ _ (wait_queue (sem s)) l t Hw) as (w' & -> & Hw').
    + by rewrite lookup_singleton_eq.
    + intros q' l' Hq'. apply lookup_singleton_Some in Hq' as [<- <-]. by rewrite Hl.
    + rewrite insert_singleton_eq in Hw'. exists w', l, k. split_and!; [done|done|done|lia].
Qed.

Lemma post_locked_cases :
  (0 <= count (sem s) /\ post_locked (sem s) (world s) =
     Some (None, set_owner (set_count (sem s) (count (sem s) + 1)) None, world s)) \/
  (count (sem s) < 0 /\ exists w' t l k, post_locked (sem s) (world s) =
     Some (Some t, set_owner (set_count (sem s) (count (sem s) + 1)) (Some t), w') /\
     wq_rep w' {[wait_queue (sem s) := l]} k /\ NoDup (t :: l) /\
     (forall t', t' ∈ t :: l <-> pcs s t' = Sleep) /\ zlen l = - count (sem s) - 1).
Proof.
  destruct Hinv as [Hval (l & k & Hw & Hl & Hlen) Hc Hbd]. unfold post_locked. cbn.
  rewrite s32_small by lia. destruct (Z.leb_spec (count (sem s) + 1) 0).
  - right. split; [lia|]. destruct l as [|t l]; [unfold zlen in Hlen; cbn in Hlen; lia|].
    assert (El : ({[wait_queue (sem s) := t :: l]} : gmap Z (list Z)) !! wait_queue (sem s) =
      Some (t :: l)) by by rewrite lookup_singleton_eq.
    destruct (wq_wakeup_first _ _ _ _ _ _ Hw El) as (w' & -> & Hw').
    rewrite insert_singleton_eq in Hw'. cbn. exists w', t, l, (k ++ [t]).
    split_and!; [done|done|exact (wq_nodup _ _ _ _ _ Hw El)|done|]. unfold zlen in *. cbn [length] in Hlen. lia.
  - left. split; [lia|done].
Qed.

(** A move of a thread that neither enters nor leaves the queue. *)
Lemma move_queue t p sem' : pcs s t <> Sleep -> p <> Sleep -> wait_queue sem' = wait_queue (sem s) ->
  Z.max 0 (- count sem') = Z.max 0 (- count (sem s)) ->
  exists l k, wq_rep (world s) {[wait_queue sem' := l]} k /\
    (forall t', t' ∈ l <-> (<[t := p]> (pcs s)) t' = Sleep) /\ zlen l = Z.max 0 (- count sem').
Proof.
  intros Ht Hp Hq Hc. destruct (v_queue _ _ _ Hinv) as (l & k & Hw & Hl & Hlen).
  exists l, k. rewrite Hq. split_and!; [done| |lia]. intros t'. rewrite Hl.
  destruct (decide (t' = t)) as [->|]; [by rewrite fn_lookup_insert|].
  by rewrite fn_lookup_insert_ne.
Qed.
End Step.

Lemma sem_inv_step v n s s' : 0 <= v -> v + n + 1 < 2 ^ 31 -> 0 <= n -> inv v n s -> step s s' ->
  inv v (n + 1) s'.
Proof.
  intros Hv Hb Hn Hinv Hs. pose proof Hinv as [Hval Hq Hc Hbd].
  destruct Hs as [s t Hr|s t Hr Hd|s t sem' w' Ht E|s t sem' w' Ht E|s t Ht|s t Hr Hd|s t sem' Ht E
    |s t sem' Ht E|s t Hr Hi|s t Hr Hi|s t sem' w' Ht E|s t t' sem' w' Ht E|s t err sem' Hr E].
  - split; [done|done|done|lia].
  - split; [done| |done|cbn; lia]. apply (move_queue v n s Hinv); [destruct Hr as [->| ->]; done|done..].
  - destruct (wait_locked_cases v n s Hv Hb Hinv t) as [[Hpos E']|[Hle (w1 & l & k & E' & _)]];
      rewrite ?Ht; [done| |]; rewrite E in E'; [|done]. injection E' as -> ->.
    split; [done| |cbn; lia|cbn; lia]. apply (move_queue v n s Hinv); rewrite ?Ht; [done..|cbn; lia].
  - destruct (wait_locked_cases v n s Hv Hb Hinv t) as [[Hpos E']|[Hle (w1 & l & k & E' & Hw & Hl & Hlen)]];
      rewrite ?Ht; [done| |]; rewrite E in E'; [done|]. injection E' as -> ->.
    split; [done| |cbn; lia|cbn; lia]. exists (l ++ [t]), k. split_and!; [done| |rewrite zlen_app; unfold zlen in *; cbn; lia]. cbn [pcs].
    intros t'. rewrite elem_of_app, list_elem_of_singleton, Hl.
    destruct (decide (t' = t)) as [->|]; [rewrite fn_lookup_insert; tauto|].
    rewrite fn_lookup_insert_ne by done. tauto.
  - split; [done| |done|cbn; lia]. apply (move_queue v n s Hinv); rewrite ?Ht; done.
  - split; [done| |done|cbn; lia]. apply (move_queue v n s Hinv); [destruct Hr as [->| ->]; done|done..].
  - unfold trywait_locked in E. destruct (Z.ltb_spec 0 (count (sem s))); [|done]. injection E as <-.
    rewrite s32_small by lia. split; [done| |cbn; lia|cbn; lia].
    apply (move_queue v n s Hinv); rewrite ?Ht; [done..|cbn; lia].
  - unfold trywait_locked in E. destruct (Z.ltb_spec 0 (count (sem s))); [done|]. injection E as <-.
    split; [done| |done|cbn; lia]. apply (move_queue v n s Hinv); rewrite ?Ht; done.
  - split; [done|done|done|lia].
  - split; [done| |done|cbn; lia]. apply (move_queue v n s Hinv); [destruct Hr as [->| ->]; done|done..].
  - destruct (post_locked_cases v n s Hv Hb Hinv) as [[Hpos E']|[Hle (w1 & t1 & l & k & E' & _)]];
      rewrite E in E'; [|done]. injection E' as -> ->.
    split; [done| |cbn; lia|cbn; lia]. apply (move_queue v n s Hinv); rewrite ?Ht; [done..|cbn; lia].
  - destruct (post_locked_cases v n s Hv Hb Hinv)
      as [[Hpos E']|[Hle (w1 & t1 & l & k & E' & Hw & Hnd & Hl & Hlen)]];
      rewrite E in E'; [done|]. injection E' as -> -> ->.
    split; [done| |cbn; lia|cbn; lia]. exists l, k. split_and!; [done| |cbn; lia]. intros t2. cbn [pcs].
    apply NoDup_cons in Hnd as [Hnin _]. specialize (Hl t2). rewrite elem_of_cons in Hl.
    destruct (decide (t2 = t1)) as [->|]; [rewrite fn_lookup_insert; naive_solver|].
    rewrite fn_lookup_insert_ne by done.
    destruct (decide (t2 = t)) as [->|]; [rewrite fn_lookup_insert|rewrite fn_lookup_insert_ne by done].
    + split; [|done]. intros Hin. assert (pcs s t = Sleep) by naive_solver. congruence.
    + naive_solver.
  - unfold sem_destroy in E. destruct (negb _); injection E as <- <-; (split; [done|done|done|cbn; lia]).
Qed.

Lemma reach_nonneg v n s : reach v n s -> 0 <= n.
Proof. induction 1; lia. Qed.

Lemma sem_reach_inv v n s : 0 <= v -> reach v n s -> v + n < 2 ^ 31 -> inv v n s.
Proof.
  intros Hv Hr. induction Hr as [w0 old sem0 w Hw Ho E|n s s' Hr IH Hs]; intros Hb.
  - apply inv_init; [done|]. by econstructor.
  - pose proof (reach_nonneg _ _ _ Hr). eapply sem_inv_step; eauto; [lia..|]. apply IH. lia.
Qed.

(** ** Binary semaphores *)

(** The thread has the grant: it was granted and has not posted yet. *)
Definition holder (p : pc) : Prop := p = Resume \/ p = Hold \/ p = PostLock.

Record binary (s : sys) : Prop := {
  b_free : 0 < count (sem s) -> owner (sem s) = None /\ forall t, ~ holder (pcs s t);
  b_one : forall t t', holder (pcs s t) -> holder (pcs s t') -> t = t';
  b_max : count (sem s) <= 1;
  b_owner : forall t, owner (sem s) = Some t -> holder (pcs s t);
  b_hold : forall t, pcs s t = Hold \/ pcs s t = PostLock -> owner (sem s) = Some t;
}.

(** The deadlock test stops the holder; the ownership test stops everyone else. *)
Lemma not_deadlock_not_holder s t : value (sem s) = 1 -> binary s -> ready (pcs s t) ->
  wait_deadlock (sem s) t = false -> pcs s t = Idle.
Proof.
  intros Hv Hb [Ht|Ht] E; [done|exfalso]. unfold wait_deadlock in E. rewrite Hv in E.
  rewrite (b_hold _ Hb t), bool_decide_true in E by auto. cbn in E. rewrite andb_true_r in E.
  apply negb_false_iff, Z.eqb_eq in E. apply (proj2 (b_free _ Hb ltac:(lia)) t). unfold holder. auto.
Qed.

Lemma legal_post_holds s t : value (sem s) = 1 -> binary s -> ready (pcs s t) ->
  post_illegal (sem s) t = false -> pcs s t = Hold.
Proof.
  intros Hv Hb Hr E. unfold post_illegal in E. rewrite Hv in E. cbn in E.
  apply orb_false_iff in E as [E1 E2]. apply Z.ltb_ge in E2.
  rewrite (proj2 (Z.leb_le _ _) E2) in E1. cbn in E1. apply negb_false_iff, bool_decide_eq_true in E1.
  apply (b_owner _ Hb) in E1. destruct Hr as [Ht| ]; [|done]. rewrite Ht in E1.
  destruct E1 as [?|[?|?]]; done.
Qed.

(** Moves of one thread: what the other threads are does not change. *)
Lemma binary_move s t p sem' w g q : binary s -> ~ holder (pcs s t) -> ~ holder p ->
  owner sem' = owner (sem s) -> count sem' <= 1 ->
  (0 < count sem' -> 0 < count (sem s)) ->
  binary (Sys sem' w (<[t := p]> (pcs s)) g q).
Proof.
  intros [Hf H1 Hm Ho Hh] Ht Hp Eo Hc Hpos.
  assert (Hiff : forall t', holder ((<[t := p]> (pcs s)) t') <-> holder (pcs s t')).
  { intros t'. destruct (decide (t' = t)) as [->|]; [rewrite fn_lookup_insert; tauto|].
    by rewrite fn_lookup_insert_ne. }
  split; cbn; rewrite ?Eo.
  - intros Hp'. destruct (Hf (Hpos Hp')) as [? Hno]. split; [done|]. intros t'. rewrite Hiff. apply Hno.
  - intros t1 t2. rewrite !Hiff. apply H1.
  - done.
  - intros t'. rewrite Hiff. apply Ho.
  - intros t' Ht'. destruct (decide (t' = t)) as [->|].
    + rewrite fn_lookup_insert in Ht'. destruct Hp. unfold holder. tauto.
    + rewrite fn_lookup_insert_ne in Ht' by done. by apply Hh.
Qed.

(** The grant goes to [t]: nobody else has it afterwards. *)
Lemma binary_grant f t p sem' w g q : (forall t', t' <> t -> ~ holder (f t')) -> f t = p ->
  holder p -> count sem' <= 0 -> (owner sem' = Some t \/ owner sem' = None /\ p = Resume) ->
  binary (Sys sem' w f g q).
Proof.
  intros Hno Ep Hp Hc Ho. split; cbn.
  - lia.
  - assert (Hall : forall t', holder (f t') -> t' = t).
    { intros t' Ht'. destruct (decide (t' = t)); [done|]. by destruct (Hno t'). }
    intros t1 t2 H1 H2. rewrite (Hall t1), (Hall t2) by done. done.
  - lia.
  - intros t' Et. destruct Ho as [Ho|[Ho _]]; rewrite Ho in Et; simplify_eq. done.
  - intros t' Ht'. destruct (decide (t' = t)) as [->|].
    + destruct Ho as [Ho|[_ E]]; [done|]. destruct Ht'; congruence.
    + destruct (Hno t'); [done|]. unfold holder. tauto.
Qed.

Lemma binary_init s : reach 1 0 s -> binary s.
Proof.
  intros Hr. inversion Hr as [w0 old sem0 w Hw Ho E|n s0 s' Hr' Hs E]; subst.
  - unfold sem_init in E. cbn in E. injection E as <- <-.
    split; cbn; [intros _; split; [done|intros t [?|[?|?]]; done]| |lia|congruence|intros t [?|?]; done].
    intros t t' [?|[?|?]]; done.
  - apply reach_nonneg in Hr'. lia.
Qed.

Ltac holders := unfold holder, ready in *; naive_solver.

Lemma binary_step n s s' : 1 + n + 1 < 2 ^ 31 -> 0 <= n -> inv 1 n s -> binary s -> step s s' -> binary s'.
Proof.
  intros Hb Hn Hinv Hbin Hs. pose proof Hinv as [Hval _ _ Hbd]. pose proof Hbin as [Hf H1 Hm Ho Hh].
  destruct Hs as [s t Hr|s t Hr Hd|s t sem' w' Ht E|s t sem' w' Ht E|s t Ht|s t Hr Hd|s t sem' Ht E
    |s t sem' Ht E|s t Hr Hi|s t Hr Hi|s t sem' w' Ht E|s t t' sem' w' Ht E|s t err sem' Hr E]; try done.
  - apply binary_move; try done; [|holders]. rewrite (not_deadlock_not_holder s t) by done. holders.
  - destruct (wait_locked_cases 1 n s ltac:(lia) Hb Hinv t) as [[Hpos E']|[Hle (w1 & l & k & E' & _)]];
      rewrite ?Ht; [done| |]; rewrite E in E'; [|done]. injection E' as -> ->.
    destruct (Hf Hpos) as [Hnone Hno].
    apply (binary_grant _ t Resume); [|by rewrite fn_lookup_insert|holders|cbn; lia|by right].
    intros t' Hne. by rewrite fn_lookup_insert_ne.
  - destruct (wait_locked_cases 1 n s ltac:(lia) Hb Hinv t) as [[Hpos E']|[Hle (w1 & l & k & E' & _)]];
      rewrite ?Ht; [done| |]; rewrite E in E'; [done|]. injection E' as -> ->.
    apply binary_move; rewrite ?Ht; try done; [holders|holders|cbn; lia|cbn; lia].
  - assert (Hc : count (sem s) <= 0).
    { destruct (Z.le_gt_cases (count (sem s)) 0); [done|]. destruct (Hf ltac:(lia)) as [_ Hno].
      destruct (Hno t). holders. }
    apply (binary_grant _ t Hold); [|by rewrite fn_lookup_insert|holders|done|by left].
    intros t' Hne. rewrite fn_lookup_insert_ne by done. intros Hh'. apply Hne, H1; [done|holders].
  - apply binary_move; try done; [|holders]. rewrite (not_deadlock_not_holder s t) by done. holders.
  - unfold trywait_locked in E. destruct (Z.ltb_spec 0 (count (sem s))) as [Hpos|]; [|done].
    injection E as <-. destruct (Hf Hpos) as [Hnone Hno].
    apply (binary_grant _ t Hold); [|by rewrite fn_lookup_insert|holders| |by left].
    + intros t' Hne. by rewrite fn_lookup_insert_ne.
    + cbn. rewrite s32_small by lia. lia.
  - unfold trywait_locked in E. destruct (Z.ltb_spec 0 (count (sem s))) as [Hpos|]; [done|].
    injection E as <-. apply binary_move; rewrite ?Ht; try done; holders.
  - pose proof (legal_post_holds s t Hval Hbin Hr Hi) as Ht.
    assert (Hot : owner (sem s) = Some t) by auto.
    assert (Hc : count (sem s) <= 0).
    { destruct (Z.le_gt_cases (count (sem s)) 0); [done|]. destruct (Hf ltac:(lia)). congruence. }
    apply (binary_grant _ t PostLock); [|by rewrite fn_lookup_insert|holders|done|by left].
    intros t' Hne. rewrite fn_lookup_insert_ne by done. intros Hh'. apply Hne, H1; [done|holders].
  - destruct (post_locked_cases 1 n s ltac:(lia) Hb Hinv) as [[Hpos E']|[Hle (w1 & t1 & l & k & E' & _)]];
      rewrite E in E'; [|done]. injection E' as -> ->.
    assert (Hno : forall t', ~ holder ((<[t := Idle]> (pcs s)) t')).
    { intros t' Hh'. destruct (decide (t' = t)) as [->|Hne]; [rewrite fn_lookup_insert in Hh'; holders|].
      rewrite fn_lookup_insert_ne in Hh' by done. apply Hne, H1; [done|holders]. }
    assert (Hc : count (sem s) <= 0).
    { destruct (Z.le_gt_cases (count (sem s)) 0); [done|]. destruct (Hf ltac:(lia)) as [_ Hno'].
      destruct (Hno' t). holders. }
    split; cbn; [done|intros t1 t2 Ht1; by destruct (Hno t1)|lia|done|].
    intros t' Ht'. destruct (Hno t'). holders.
  - destruct (post_locked_cases 1 n s ltac:(lia) Hb Hinv)
      as [[Hpos E']|[Hle (w1 & t1 & l & k & E' & Hw & Hnd & Hl & Hlen)]];
      rewrite E in E'; [done|]. injection E' as -> -> ->.
    apply (binary_grant _ t1 Resume); [|by rewrite fn_lookup_insert|holders|cbn; lia|by left].
    intros t' Hne Hh'. rewrite fn_lookup_insert_ne in Hh' by done.
    destruct (decide (t' = t)) as [->|Hnt]; [rewrite fn_lookup_insert in Hh'; holders|].
    rewrite fn_lookup_insert_ne in Hh' by done. apply Hnt, H1; [done|holders].
  - unfold sem_destroy in E. destruct (negb _) eqn:En; injection E as <- <-; [done|].
    apply negb_false_iff, Z.eqb_eq in En. rewrite Hval in En.
    assert (count (sem s) = 1).
    { unfold u32 in En. destruct (Z.le_gt_cases 0 (count (sem s))).
      - rewrite Z.mod_small in En by lia. done.
      - rewrite <- (Z_mod_plus_full _ 1), Z.mod_small in En by lia. lia. }
    destruct (Hf ltac:(lia)) as [E0 Hno]. split; cbn; try done.
    intros t' Ht'. destruct (Hno t'). holders.
Qed.

Lemma reach_binary n s : reach 1 n s -> 1 + n < 2 ^ 31 -> binary s.
Proof.
  intros Hr. remember 1 as v eqn:Ev in Hr. induction Hr as [w0 old sem0 w Hw Ho E|n s s' Hr IH Hs]; intros Hb.
  - subst. apply binary_init. by econstructor.
  - pose proof (reach_nonneg _ _ _ Hr). subst. eapply (binary_step n); eauto; [lia| |apply IH; done||lia].
    apply sem_reach_inv; [lia|done|lia].
Qed.
End Threads.

(** ** Properties *)

(** C36: A semaphore never grants more than its value plus the posts made, whatever the
    interleaving of the threads; no thread sleeps while a grant is available; and the
    critical sections always return. *)
Theorem sem_grants_exact {W} `{WaitQueueLaws W} v n (s : sys (W := W)) :
  0 <= v -> reach v n s -> v + n < 2 ^ 31 - 1 ->
  granted s <= v + posted s /\
  (forall t, pcs s t = Sleep -> granted s = v + posted s) /\
  (forall t, pcs s t <> Sleep -> is_Some (wait_locked (sem s) (world s) t)) /\
  is_Some (post_locked (sem s) (world s)).
Proof.
  intros Hv Hr Hb. pose proof (sem_reach_inv _ _ _ Hv Hr ltac:(lia)) as Hinv.
  pose proof Hinv as [_ (l & k & _ & Hl & Hlen) Hc _]. split_and!.
  - lia.
  - intros t Ht. apply Hl in Ht. destruct l; [by apply elem_of_nil in Ht|]. rewrite zlen_cons in Hlen.
    pose proof (zlen_nonneg l). lia.
  - intros t Ht. destruct (wait_locked_cases v n s Hv ltac:(lia) Hinv t Ht)
      as [[_ ->]|[_ (w' & ? & ? & -> & _)]]; eauto.
  - destruct (post_locked_cases v n s Hv ltac:(lia) Hinv) as [[_ ->]|[_ (w' & ? & ? & ? & -> & _)]]; eauto.
Qed.

(** A semaphore of value [v] in zeroed memory, on the linked queues. *)
Definition fresh (v : Z) (o : option Z) : semaphore_s * WQ.store :=
  match sem_init (Some (Semaphore 0 0 0 0 o 7)) WQ.empty v SEM_SCOPE_USR with
  | (_, Some sem0, w) => (sem0, w)
  | (_, None, w) => (Semaphore 0 0 0 0 o 7, w)
  end.

Definition fresh_sys (v : Z) : sys (W := WQ.store) :=
  Sys (fresh v None).1 (fresh v None).2 (fun _ => Idle) 0 0.

Lemma sem_fresh_reach v : v <= SEM_VALUE_MAX -> reach v 0 (fresh_sys v).
Proof.
  intros Hv. apply (reach_init v WQ.empty (Semaphore 0 0 0 0 None 7)); [apply wq_empty_rep|done|].
  unfold fresh, sem_init. destruct (Z.ltb_spec SEM_VALUE_MAX v); [lia|done].
Qed.

(** Thread 1 has passed the deadlock test of [sem_wait]. *)
Definition entered_sys (v : Z) : sys (W := WQ.store) :=
  Sys (fresh v None).1 (fresh v None).2 (<[1 := WaitLock]> (fun _ => Idle)) 0 0.

Lemma entered_reach : reach 1 (0 + 1) (entered_sys 1).
Proof.
  eapply reach_step; [apply sem_fresh_reach; vm_compute; discriminate|].
  apply (step_wait_test (fresh_sys 1) 1); [by left|reflexivity].
Qed.

Lemma sem_grants_exact_witness : granted (entered_sys 1) <= 1 + posted (entered_sys 1) /\
  is_Some (wait_locked (sem (entered_sys 1)) (world (entered_sys 1)) 1).
Proof.
  destruct (sem_grants_exact 1 1 (entered_sys 1)) as (Hg & _ & Hw & _);
    [lia|apply entered_reach|lia|].
  split; [exact Hg|]. apply Hw. vm_compute. discriminate.
Defined.

(** A binary semaphore is a mutex. At most one thread has the grant at any time, even
    though [owner] is read and written outside of the critical sections and threads may
    post without holding it: such a post is refused with [EINVAL], and a second [sem_wait]
    of the holder is refused with [EDEADLK] instead of blocking it forever. *)
Theorem sem_mutual_exclusion {W} `{WaitQueueLaws W} n (s : sys (W := W)) :
  reach 1 n s -> 1 + n < 2 ^ 31 ->
  (forall t t', holder (pcs s t) -> holder (pcs s t') -> t = t') /\
  (forall t, pcs s t = Idle -> sem_post (sem s) (world s) t = Some (EINVAL, sem s, world s)) /\
  (forall t, pcs s t = Hold -> sem_wait (sem s) (world s) t = Some (Returns EDEADLK, sem s, world s)).
Proof.
  intros Hr Hb. pose proof (reach_binary _ _ Hr Hb) as Hbin.
  pose proof (v_value _ _ _ (sem_reach_inv 1 n s ltac:(lia) Hr Hb)) as Hval.
  split; [apply (b_one _ Hbin)|]. split; intros t Ht.
  - unfold sem_post. destruct (post_illegal (sem s) t) eqn:E; [done|].
    pose proof (legal_post_holds s t Hval Hbin (or_introl Ht) E). congruence.
  - unfold sem_wait. destruct (wait_deadlock (sem s) t) eqn:E; [done|].
    pose proof (not_deadlock_not_holder s t Hval Hbin (or_intror Ht) E). congruence.
Qed.

Lemma sem_mutual_exclusion_witness :
  sem_post (sem (entered_sys 1)) (world (entered_sys 1)) 2 =
    Some (EINVAL, sem (entered_sys 1), world (entered_sys 1)).
Proof.
  destruct (sem_mutual_exclusion 1 (entered_sys 1)) as (_ & Hp & _); [apply entered_reach|lia|].
  apply Hp. vm_compute. reflexivity.
Defined.

(** [sem_init] leaves the [owner] field as it finds it in memory. If the old value
    designates thread 2, that thread can post a semaphore that thread 1 was just granted,
    before thread 1 writes [owner]; thread 3 is then granted too, and two threads are in the
    critical section of a mutex. *)
Theorem sem_init_stale_owner :
  (let '(sem0, w0) := fresh 1 (Some 2) in
   '(sleeps1, sem1, w1) ← wait_locked sem0 w0 1;
   '(err2, sem2, w2) ← sem_post sem1 w1 2;
   '(sleeps3, sem3, w3) ← wait_locked sem2 w2 3;
   Some (wait_deadlock sem0 1, sleeps1, err2, wait_deadlock sem2 3, sleeps3)) =
  Some (false, false, 0, false, false).
Proof. vm_compute. reflexivity. Qed.
