(* ===== verification/RwLock.v ===== *)
(** * RwLock: read-write locks of [kernel/kern/rwlock.c]

    Every operation runs inside the MCS lock of the structure, so a step of the relation
    below is a whole operation; a thread that sleeps resumes with the lock already granted
    by the thread that woke it. *)

From S2P Require Import Prelude ListH WaitQueue.

Definition RWLOCK_ID : Z := 0xD1A5B1EF.

Record rwlock_s := Rwlock {
  signature : Z;
  count : Z;
  rd_wait_queue : Z;
  wr_wait_queue : Z;
}.

Definition set_count (rw : rwlock_s) (c : Z) : rwlock_s :=
  Rwlock (signature rw) c (rd_wait_queue rw) (wr_wait_queue rw).

Inductive outcome := Returns (err : Z) | Sleeps.

Section Ops.
Context {W : Type} `{WaitQueues W}.
Implicit Types (rw : rwlock_s) (w : W).

Definition rwlock_init rw w : Z * rwlock_s * W :=
  let rw := Rwlock RWLOCK_ID 0 (rd_wait_queue rw) (wr_wait_queue rw) in
  (0, rw, wait_queue_init (wait_queue_init w (rd_wait_queue rw)) (wr_wait_queue rw)).

Definition rwlock_wrlock rw w (this : Z) : option (outcome * rwlock_s * W) :=
  if count rw =? 0 then Some (Returns 0, set_count rw (s32 (count rw - 1)), w)
  else w ← wait_on w (wr_wait_queue rw) this WAIT_LAST; Some (Sleeps, rw, w).

(** Priority is given to writers. *)
Definition rwlock_rdlock rw w (this : Z) : option (outcome * rwlock_s * W) :=
  isEmpty ← wait_queue_isEmpty w (wr_wait_queue rw);
  if (0 <=? count rw) && isEmpty then Some (Returns 0, set_count rw (s32 (count rw + 1)), w)
  else w ← wait_on w (rd_wait_queue rw) this WAIT_LAST; Some (Sleeps, rw, w).

Definition rwlock_trywrlock rw : Z * rwlock_s :=
  if negb (count rw =? 0) then (EBUSY, rw) else (0, set_count rw (s32 (count rw - 1))).

Definition rwlock_tryrdlock rw w : option (Z * rwlock_s) :=
  isEmpty ← wait_queue_isEmpty w (wr_wait_queue rw);
  if (0 <=? count rw) && isEmpty then Some (0, set_count rw (s32 (count rw + 1)))
  else Some (EBUSY, rw).

Definition rwlock_unlock rw w : option (Z * rwlock_s * W) :=
  if count rw =? 0 then Some (EPERM, rw, w)
  else if 1 <? count rw then Some (0, set_count rw (s32 (count rw - 1)), w)
  else
    let rw := set_count rw 0 in
    '(thread, w) ← wakeup_one w (wr_wait_queue rw) WAIT_FIRST;
    match thread with
    | Some _ => Some (0, set_count rw (s32 (count rw - 1)), w)
    | None =>
        '(nr, w) ← wakeup_all w (rd_wait_queue rw);
        Some (0, set_count rw (s32 (count rw + nr)), w)
    end.

Definition rwlock_destroy rw : Z := if negb (count rw =? 0) then EBUSY else 0.
End Ops.

(** ** Threads using one lock *)

Inductive pc := Out | RdSleep | WrSleep | Reading | Writing.

#[export] Instance rw_pc_eq_dec : EqDecision pc.
Proof. solve_decision. Defined.

(** A woken thread returns from [rwlock_rdlock] or [rwlock_wrlock]. *)
Definition resume (p : pc) : pc :=
  match p with RdSleep => Reading | WrSleep => Writing | p => p end.
Definition wake (ws : list Z) (f : Z -> pc) : Z -> pc :=
  fun t => if bool_decide (t ∈ ws) then resume (f t) else f t.

Section Threads.
Context {W : Type} `{WaitQueueLaws W}.
(** The number of threads of the system. *)
Context (N : Z).

Record sys := Sys { lock : rwlock_s; world : W; pcs : Z -> pc }.

(** A thread releases the lock only when it has it; the other calls are free. *)
Inductive step : sys -> sys -> Prop :=
| step_wrlock s t rw w : 0 <= t < N -> pcs s t = Out ->
    rwlock_wrlock (lock s) (world s) t = Some (Returns 0, rw, w) ->
    step s (Sys rw w (<[t := Writing]> (pcs s)))
| step_wrsleep s t rw w : 0 <= t < N -> pcs s t = Out ->
    rwlock_wrlock (lock s) (world s) t = Some (Sleeps, rw, w) ->
    step s (Sys rw w (<[t := WrSleep]> (pcs s)))
| step_rdlock s t rw w : 0 <= t < N -> pcs s t = Out ->
    rwlock_rdlock (lock s) (world s) t = Some (Returns 0, rw, w) ->
    step s (Sys rw w (<[t := Reading]> (pcs s)))
| step_rdsleep s t rw w : 0 <= t < N -> pcs s t = Out ->
    rwlock_rdlock (lock s) (world s) t = Some (Sleeps, rw, w) ->
    step s (Sys rw w (<[t := RdSleep]> (pcs s)))
| step_trywr s t rw : 0 <= t < N -> pcs s t = Out -> rwlock_trywrlock (lock s) = (0, rw) ->
    step s (Sys rw (world s) (<[t := Writing]> (pcs s)))
| step_tryrd s t rw : 0 <= t < N -> pcs s t = Out ->
    rwlock_tryrdlock (lock s) (world s) = Some (0, rw) ->
    step s (Sys rw (world s) (<[t := Reading]> (pcs s)))
| step_busy s t rw : pcs s t = Out ->
    rwlock_trywrlock (lock s) = (EBUSY, rw) \/
    rwlock_tryrdlock (lock s) (world s) = Some (EBUSY, rw) ->
    step s (Sys rw (world s) (pcs s))
| step_unlock s t rw w ws : pcs s t = Reading \/ pcs s t = Writing ->
    rwlock_unlock (lock s) (world s) = Some (0, rw, w) -> woken w = woken (world s) ++ ws ->
    step s (Sys rw w (wake ws (<[t := Out]> (pcs s)))).

Inductive reach : sys -> Prop :=
| reach_init w0 old rw w : wq_rep w0 ∅ [] -> rd_wait_queue old <> wr_wait_queue old ->
    rwlock_init old w0 = (0, rw, w) -> reach (Sys rw w (fun _ => Out))
| reach_step s s' : reach s -> step s s' -> reach s'.

(** ** The invariant *)

Definition queues (rw : rwlock_s) (lr lw : list Z) : gmap Z (list Z) :=
  <[wr_wait_queue rw := lw]> {[rd_wait_queue rw := lr]}.

Record qinv (rw : rwlock_s) (w : W) (f : Z -> pc) (lr lw : list Z) : Prop := {
  q_ne : rd_wait_queue rw <> wr_wait_queue rw;
  q_rep : exists k, wq_rep w (queues rw lr lw) k;
  q_rd : forall t, t ∈ lr <-> f t = RdSleep;
  q_wr : forall t, t ∈ lw <-> f t = WrSleep;
  q_range : forall t, f t <> Out -> 0 <= t < N;
  (* no thread sleeps on a lock it could have *)
  q_wr_busy : lw <> [] -> count rw <> 0;
  q_rd_busy : lr <> [] -> count rw < 0 \/ lw <> [];
}.

(** [count] is the number of readers, or -1 when there is a writer. *)
Definition cinv (c : Z) (f : Z -> pc) (R : gset Z) : Prop :=
  (forall t, t ∈ R <-> f t = Reading) /\
  (c = -1 /\ R = ∅ /\ (exists t0, forall t, f t = Writing <-> t = t0) \/
   c = Z.of_nat (size R) /\ forall t, f t <> Writing).

Definition inv (s : sys) : Prop :=
  exists lr lw R, qinv (lock s) (world s) (pcs s) lr lw /\ cinv (count (lock s)) (pcs s) R.

Lemma queues_rd rw lr lw : rd_wait_queue rw <> wr_wait_queue rw ->
  queues rw lr lw !! rd_wait_queue rw = Some lr.
Proof. intros. unfold queues. rewrite lookup_insert_ne, lookup_singleton_eq by done. done. Qed.
Lemma queues_wr rw lr lw : queues rw lr lw !! wr_wait_queue rw = Some lw.
Proof. unfold queues. apply lookup_insert_eq. Qed.
Lemma queues_set_wr rw lr lw lw' : <[wr_wait_queue rw := lw']> (queues rw lr lw) = queues rw lr lw'.
Proof. unfold queues. apply insert_insert_eq. Qed.
Lemma queues_set_rd rw lr lw lr' : rd_wait_queue rw <> wr_wait_queue rw ->
  <[rd_wait_queue rw := lr']> (queues rw lr lw) = queues rw lr' lw.
Proof.
  intros. unfold queues. rewrite insert_insert_ne, insert_singleton_eq by done. done.
Qed.
Lemma rw_queues_Some rw lr lw q l : queues rw lr lw !! q = Some l -> l = lr \/ l = lw.
Proof.
  unfold queues. rewrite lookup_insert_Some, lookup_singleton_Some. naive_solver.
Qed.

(** The number of readers fits the counter. *)
Lemma readers_bound f (R : gset Z) : 0 <= N -> (forall t, f t <> Out -> 0 <= t < N) ->
  (forall t, t ∈ R -> f t = Reading) -> Z.of_nat (size R) <= N.
Proof.
  intros HN Hr HR. unfold size, set_size.
  replace N with (Z.of_nat (length (seqZ 0 N))) by (rewrite length_seqZ; lia). apply inj_le. cbn.
  apply submseteq_length, NoDup_submseteq; [apply NoDup_elements|]. intros t Ht.
  apply elem_of_elements in Ht. apply elem_of_seqZ.
  pose proof (Hr t ltac:(rewrite (HR t Ht); done)). lia.
Qed.

Ltac ins t t' := destruct (decide (t' = t)) as [->|];
  [rewrite fn_lookup_insert|rewrite fn_lookup_insert_ne by done].

(** *** The counter *)

Lemma cinv_sleep c f R t p : cinv c f R -> f t = Out -> p = RdSleep \/ p = WrSleep ->
  cinv c (<[t := p]> f) R.
Proof.
  intros [HR Hor] Ht Hp. split.
  - intros t'. rewrite HR. ins t t'; [rewrite Ht|]; intuition congruence.
  - destruct Hor as [(-> & HR0 & t0 & Ht0)|(-> & Hw)]; [left|right].
    + split_and!; [done..|]. exists t0. intros t'. rewrite <- Ht0.
      ins t t'; [rewrite Ht|]; intuition congruence.
    + split; [done|]. intros t'. ins t t'; [|done]. intuition congruence.
Qed.

Lemma cinv_read c f R t : cinv c f R -> f t = Out -> 0 <= c ->
  cinv (c + 1) (<[t := Reading]> f) ({[t]} ∪ R).
Proof.
  intros [HR Hor] Ht Hc. split.
  - intros t'. rewrite elem_of_union, elem_of_singleton, HR. ins t t'; intuition congruence.
  - right. destruct Hor as [?|(-> & Hw)]; [lia|]. split.
    + rewrite size_union, size_singleton; [lia|]. apply disjoint_singleton_l. rewrite HR. congruence.
    + intros t'. by ins t t'.
Qed.

Lemma cinv_write f R t : cinv 0 f R -> f t = Out -> cinv (-1) (<[t := Writing]> f) ∅.
Proof.
  intros [HR Hor] Ht. destruct Hor as [?|(E & Hw)]; [lia|].
  assert (R = ∅) as -> by (apply leibniz_equiv, size_empty_inv; lia). split.
  - intros t'. ins t t'; [set_solver|]. apply HR.
  - left. split_and!; [done..|]. exists t. intros t'. ins t t'; [tauto|]. specialize (Hw t'). tauto.
Qed.

Lemma cinv_leave c f R t : cinv c f R -> f t = Reading \/ f t = Writing ->
  c <> 0 /\ (1 < c -> cinv (c - 1) (<[t := Out]> f) (R ∖ {[t]})) /\
  (c <= 1 -> cinv 0 (<[t := Out]> f) ∅).
Proof.
  intros [HR Hor] Ht. destruct Hor as [(-> & -> & t0 & Ht0)|(-> & Hw)].
  - assert (t = t0) as <-.
    { destruct Ht as [Ht|Ht]; [apply HR in Ht; set_solver|by apply Ht0]. }
    split_and!; [lia|lia|]. intros _. split.
    + intros t'. ins t t'; [set_solver|]. apply HR.
    + right. split; [done|]. intros t'. ins t t'; [done|]. rewrite Ht0. done.
  - destruct Ht as [Ht|Ht]; [|by destruct (Hw t)]. apply HR in Ht as HtR.
    assert (Hsz : size R = S (size (R ∖ {[t]}))).
    { rewrite size_difference, size_singleton by set_solver.
      pose proof (non_empty_inhabited_L t R HtR). assert (size R <> O); [|lia].
      intros E. apply size_empty_inv in E. set_solver. }
    assert (Hset : forall t', t' ∈ R ∖ {[t]} <-> (<[t := Out]> f) t' = Reading).
    { intros t'. rewrite elem_of_difference, elem_of_singleton, HR. ins t t'; naive_solver. }
    assert (Hnw : forall t', (<[t := Out]> f) t' <> Writing).
    { intros t'. by ins t t'. }
    split_and!; [lia| |].
    + intros _. split; [done|]. right. split; [lia|done].
    + intros Hle. assert (E : R ∖ {[t]} ≡ ∅) by (apply size_empty_inv; lia).
      split; [|right; by rewrite size_empty]. intros t'. rewrite <- Hset. set_solver.
Qed.

Lemma wake_spec ws f t : wake ws f t = if bool_decide (t ∈ ws) then resume (f t) else f t.
Proof. done. Qed.

Lemma cinv_wake_writer f t : cinv 0 f ∅ -> f t = WrSleep -> cinv (-1) (wake [t] f) ∅.
Proof.
  intros [HR Hor] Ht. destruct Hor as [?|(_ & Hw)]; [lia|]. split.
  - intros t'. rewrite wake_spec. case_bool_decide as E; [|apply HR].
    apply list_elem_of_singleton in E as ->. rewrite Ht. set_solver.
  - left. split_and!; [done..|]. exists t. intros t'. rewrite wake_spec.
    case_bool_decide as E; rewrite list_elem_of_singleton in E; [subst; rewrite Ht; done|].
    specialize (Hw t'). tauto.
Qed.

Lemma cinv_wake_readers f l : cinv 0 f ∅ -> NoDup l -> (forall t, t ∈ l -> f t = RdSleep) ->
  cinv (zlen l) (wake l f) (list_to_set l).
Proof.
  intros [HR Hor] Hnd Hl. destruct Hor as [?|(_ & Hw)]; [lia|]. split.
  - intros t. rewrite elem_of_list_to_set, wake_spec. case_bool_decide as E.
    + rewrite (Hl t E). done.
    + specialize (HR t). set_solver.
  - right. rewrite size_list_to_set by done. split; [done|]. intros t. rewrite wake_spec.
    case_bool_decide as E; [by rewrite (Hl t E)|apply Hw].
Qed.

(** *** The queues *)

Lemma qinv_enter rw w f lr lw t p c : qinv rw w f lr lw -> 0 <= t < N -> f t = Out ->
  p = Reading \/ p = Writing -> c <> 0 -> (c < 0 \/ 0 <= count rw) ->
  qinv (set_count rw c) w (<[t := p]> f) lr lw.
Proof.
  intros [Hne Hrep Hrd Hwr Hran Hwb Hrb] Ht Hf Hp Hc Hc'. split; cbn; try done.
  - intros t'. rewrite Hrd. ins t t'; [rewrite Hf|]; intuition congruence.
  - intros t'. rewrite Hwr. ins t t'; [rewrite Hf|]; intuition congruence.
  - intros t'. ins t t'; [done|]. apply Hran.
  - intros Hlr. destruct (Hrb Hlr) as [?|?]; [|by right]. left. lia.
Qed.

Lemma qinv_wait rw w f lr lw t q : qinv rw w f lr lw -> 0 <= t < N -> f t = Out ->
  q = rd_wait_queue rw /\ (count rw < 0 \/ lw <> []) \/ q = wr_wait_queue rw /\ count rw <> 0 ->
  exists w', wait_on w q t WAIT_LAST = Some w' /\
    if bool_decide (q = rd_wait_queue rw) then qinv rw w' (<[t := RdSleep]> f) (lr ++ [t]) lw
    else qinv rw w' (<[t := WrSleep]> f) lr (lw ++ [t]).
Proof.
  intros [Hne [k Hrep] Hrd Hwr Hran Hwb Hrb] Ht Hf Hq.
  assert (Hfresh : forall q' l', queues rw lr lw !! q' = Some l' -> t ∉ l').
  { intros q' l' Hl Hin. apply rw_queues_Some in Hl as [->| ->]; [apply Hrd in Hin|apply Hwr in Hin];
      congruence. }
  destruct Hq as [[-> Hc]|[-> Hc]].
  - rewrite bool_decide_true by done.
    destruct (wq_wait_last _ _ _ (rd_wait_queue rw) lr t Hrep) as (w' & -> & Hrep'); [by apply queues_rd|done|].
    rewrite queues_set_rd in Hrep' by done. exists w'. split; [done|].
    split; [done|by exists k| | | |done|by intros _].
    + intros t'. rewrite elem_of_app, list_elem_of_singleton, Hrd. ins t t'; naive_solver.
    + intros t'. rewrite Hwr. ins t t'; [rewrite Hf|]; naive_solver.
    + intros t'. ins t t'; [done|]. apply Hran.
  - rewrite bool_decide_false by done.
    destruct (wq_wait_last _ _ _ (wr_wait_queue rw) lw t Hrep) as (w' & -> & Hrep'); [by apply queues_wr|done|].
    rewrite queues_set_wr in Hrep'. exists w'. split; [done|].
    split; [done|by exists k| | | |done|].
    + intros t'. rewrite Hrd. ins t t'; [rewrite Hf|]; naive_solver.
    + intros t'. rewrite elem_of_app, list_elem_of_singleton, Hwr. ins t t'; naive_solver.
    + intros t'. ins t t'; [done|]. apply Hran.
    + intros _. right. by destruct lw.
Qed.

(** Leaving: the caller's program counter becomes [Out], the queues are as before. *)
Lemma q_leave rw w f lr lw t : qinv rw w f lr lw -> f t = Reading \/ f t = Writing ->
  (forall t', t' ∈ lr <-> (<[t := Out]> f) t' = RdSleep) /\
  (forall t', t' ∈ lw <-> (<[t := Out]> f) t' = WrSleep) /\
  (forall t', (<[t := Out]> f) t' <> Out -> 0 <= t' < N).
Proof.
  intros [_ _ Hrd Hwr Hran _ _] Ht. split_and!; intros t'.
  - rewrite Hrd. ins t t'; [|done]. split; [|done]. intros E. destruct Ht; congruence.
  - rewrite Hwr. ins t t'; [|done]. split; [|done]. intros E. destruct Ht; congruence.
  - ins t t'; [done|]. apply Hran.
Qed.

Lemma wake_other ws f p t : (forall t, t ∈ ws -> f t <> p) -> p = RdSleep \/ p = WrSleep ->
  wake ws f t = p <-> f t = p.
Proof.
  intros Hw Hp. rewrite wake_spec. case_bool_decide as E; [|done].
  specialize (Hw t E). destruct (f t); naive_solver.
Qed.

(** [rwlock_unlock], called by a thread that has the lock. *)
Lemma unlock_ok rw w f lr lw R t : N < 2 ^ 31 -> 0 <= N -> qinv rw w f lr lw -> cinv (count rw) f R ->
  f t = Reading \/ f t = Writing ->
  exists rw' w' ws lr' lw' R', rwlock_unlock rw w = Some (0, rw', w') /\
    woken w' = woken w ++ ws /\ qinv rw' w' (wake ws (<[t := Out]> f)) lr' lw' /\
    cinv (count rw') (wake ws (<[t := Out]> f)) R'.
Proof.
  intros HN HN0 Hq Hc Ht. destruct (q_leave _ _ _ _ _ _ Hq Ht) as (Lr & Lw & Lran).
  pose proof Hq as [Hne [k Hrep] Hrd Hwr Hran Hwb Hrb].
  destruct (cinv_leave _ _ _ _ Hc Ht) as (Hnz & Hmany & Hlast). unfold rwlock_unlock.
  assert (Hcb : count rw <= N).
  { destruct Hc as [HR [(-> & _)|(-> & _)]]; [lia|]. apply (readers_bound f); [done|done|]. apply HR. }
  destruct (Z.eqb_spec (count rw) 0); [done|]. destruct (Z.ltb_spec 1 (count rw)) as [Hgt|Hle].
  - rewrite s32_small by lia. eexists _, w, [], lr, lw, _. split; [done|].
    split; [by rewrite app_nil_r|]. split; [|by apply Hmany].
    split; cbn; [done|by exists k|done|done|done|lia|]. intros Hlr. destruct (Hrb Hlr); [lia|by right].
  - specialize (Hlast Hle). cbn [count set_count wr_wait_queue rd_wait_queue].
    destruct lw as [|tw lw].
    + rewrite (wq_wakeup_none _ _ _ _ _ Hrep) by apply queues_wr. cbn [mbind option_bind].
      destruct (wq_wakeup_all _ _ _ _ lr Hrep (queues_rd _ _ _ Hne)) as (w' & -> & Hrep').
      cbn [mbind option_bind]. pose proof (wq_nodup _ _ _ _ _ Hrep (queues_rd _ _ _ Hne)) as Hnd.
      assert (Hlen : zlen lr <= N).
      { rewrite <- (zlen_seqZ 0 N HN0). unfold zlen. apply inj_le.
        apply submseteq_length, NoDup_submseteq; [done|]. intros t' Hin. apply elem_of_seqZ.
        pose proof (Hran t'). apply Hrd in Hin. rewrite Hin in *. naive_solver lia. }
      pose proof (zlen_nonneg lr). rewrite u32_small, s32_small by (unfold is_u32; lia).
      rewrite queues_set_rd in Hrep' by done.
      eexists _, w', lr, [], [], (list_to_set lr). split; [done|].
      split; [rewrite (wq_woken _ _ _ Hrep), (wq_woken _ _ _ Hrep'); done|]. split.
      * split; cbn; [done|by exists (k ++ lr)| | | |done|done].
        -- intros t'. rewrite elem_of_nil, wake_spec. split; [done|]. case_bool_decide as E.
           ++ apply Lr in E. rewrite E. done.
           ++ by rewrite <- Lr.
        -- intros t'. rewrite (wake_other _ _ WrSleep); [apply Lw| |by right]. intros ? ?%Lr. congruence.
        -- intros t'. rewrite wake_spec. case_bool_decide as E; [|apply Lran].
           intros _. apply Lran. apply Lr in E. congruence.
      * cbn. apply cinv_wake_readers; [done|done|]. intros t'. apply Lr.
    + destruct (wq_wakeup_first _ _ _ _ tw lw Hrep (queues_wr _ _ _)) as (w' & -> & Hrep').
      cbn [mbind option_bind]. rewrite queues_set_wr in Hrep'.
      pose proof (wq_nodup _ _ _ _ _ Hrep (queues_wr _ _ _)) as Hnd. apply NoDup_cons in Hnd as [Hnin _].
      assert (Htw : (<[t := Out]> f) tw = WrSleep) by (apply Lw; set_solver).
      eexists _, w', [tw], lr, lw, ∅. split; [done|].
      split; [rewrite (wq_woken _ _ _ Hrep), (wq_woken _ _ _ Hrep'); done|].
      split; [|by apply cinv_wake_writer].
      split; cbn; [done|by exists (k ++ [tw])| | | |done|by left].
      * intros t'. rewrite (wake_other _ _ RdSleep); [apply Lr| |by left].
        intros t2 E. apply list_elem_of_singleton in E as ->. congruence.
      * intros t'. rewrite wake_spec. case_bool_decide as E; rewrite list_elem_of_singleton in E.
        -- subst t'. rewrite Htw. done.
        -- specialize (Lw t'). set_solver.
      * intros t'. rewrite wake_spec. case_bool_decide as E; [|apply Lran].
        intros _. apply Lran. apply list_elem_of_singleton in E as ->. congruence.
Qed.

Lemma count_bound s : inv s -> 0 <= N -> -1 <= count (lock s) <= N.
Proof.
  intros (lr & lw & R & [_ _ _ _ Hran _ _] & HR & [(-> & _)|(-> & _)]) HN; [lia|].
  split; [lia|]. apply (readers_bound (pcs s)); [done|done|]. apply HR.
Qed.

Lemma isEmpty_ok rw w f lr lw : qinv rw w f lr lw ->
  wait_queue_isEmpty w (wr_wait_queue rw) = Some (bool_decide (lw = [])).
Proof. intros [_ [k Hrep] _ _ _ _ _]. apply (wq_isEmpty _ _ _ _ _ Hrep), queues_wr. Qed.

(** Granting the lock for writing, for reading. *)
Lemma inv_write s t : inv s -> 0 <= t < N -> pcs s t = Out -> count (lock s) = 0 ->
  inv (Sys (set_count (lock s) (s32 (count (lock s) - 1))) (world s) (<[t := Writing]> (pcs s))).
Proof.
  intros (lr & lw & R & Hq & Hc) Ht Hp E. rewrite E in *. rewrite s32_small by lia.
  exists lr, lw, ∅. split; [|by eapply cinv_write]. apply qinv_enter; auto. lia.
Qed.

Lemma inv_read s t : N < 2 ^ 31 - 1 -> inv s -> 0 <= t < N -> pcs s t = Out -> 0 <= count (lock s) ->
  inv (Sys (set_count (lock s) (s32 (count (lock s) + 1))) (world s) (<[t := Reading]> (pcs s))).
Proof.
  intros HN Hinv Ht Hp E. pose proof (count_bound s Hinv ltac:(lia)). rewrite s32_small by lia.
  destruct Hinv as (lr & lw & R & Hq & Hc). exists lr, lw, ({[t]} ∪ R).
  split; [|by apply cinv_read]. apply qinv_enter; auto. lia.
Qed.

Lemma inv_wait s t q : inv s -> 0 <= t < N -> pcs s t = Out ->
  q = rd_wait_queue (lock s) /\ (count (lock s) < 0 \/
    wait_queue_isEmpty (world s) (wr_wait_queue (lock s)) = Some false) \/
  q = wr_wait_queue (lock s) /\ count (lock s) <> 0 ->
  exists w', wait_on (world s) q t WAIT_LAST = Some w' /\
    inv (Sys (lock s) w' (<[t := if bool_decide (q = rd_wait_queue (lock s)) then RdSleep else WrSleep]>
      (pcs s))).
Proof.
  intros (lr & lw & R & Hq & Hc) Ht Hp Hor.
  destruct (qinv_wait _ _ _ _ _ t q Hq Ht Hp) as (w' & E & Hq').
  { rewrite (isEmpty_ok _ _ _ _ _ Hq) in Hor.
    destruct Hor as [[-> [?|Hl]]|?]; [left; auto|left|by right]. split; [done|]. right.
    injection Hl as Hl. by apply bool_decide_eq_false in Hl. }
  exists w'. split; [done|]. case_bool_decide; eexists _, _, R; (split; [done|]);
    apply cinv_sleep; auto.
Qed.

Lemma rw_inv_step s s' : 0 <= N < 2 ^ 31 - 1 -> inv s -> step s s' -> inv s'.
Proof.
  intros HN Hinv Hs. destruct Hs as [s t rw w Ht Hp E|s t rw w Ht Hp E|s t rw w Ht Hp E|s t rw w Ht Hp E
    |s t rw Ht Hp E|s t rw Ht Hp E|s t rw Hp E|s t rw w ws Hp E Ew].
  - unfold rwlock_wrlock in E. destruct (Z.eqb_spec (count (lock s)) 0).
    + injection E as <- <-. by apply inv_write.
    + destruct (wait_on _ _ _ _); done.
  - unfold rwlock_wrlock in E. destruct (Z.eqb_spec (count (lock s)) 0); [done|].
    destruct (inv_wait s t (wr_wait_queue (lock s)) Hinv Ht Hp) as (w' & Ew & Hi); [by right|].
    rewrite Ew in E. injection E as <- <-. rewrite bool_decide_false in Hi; [done|].
    destruct Hinv as (? & ? & ? & [Hne _ _ _ _ _ _] & _). done.
  - unfold rwlock_rdlock in E. destruct (wait_queue_isEmpty _ _) as [b|]; [|done]. cbn in E.
    destruct (Z.leb_spec 0 (count (lock s))), b; cbn in E;
      try (injection E as <- <-; by apply inv_read; [lia|..]);
      destruct (wait_on _ _ _ _); done.
  - unfold rwlock_rdlock in E. destruct (wait_queue_isEmpty _ _) as [b|] eqn:Eb; [|done]. cbn in E.
    destruct (inv_wait s t (rd_wait_queue (lock s)) Hinv Ht Hp) as (w' & Ew & Hi).
    { left. split; [done|]. rewrite Eb. destruct (Z.leb_spec 0 (count (lock s))), b; auto; done. }
    rewrite Ew in E. rewrite bool_decide_true in Hi by done.
    destruct ((0 <=? count (lock s)) && b); [done|]. injection E as <- <-. done.
  - unfold rwlock_trywrlock in E. destruct (Z.eqb_spec (count (lock s)) 0); [|done].
    injection E as <-. by apply inv_write.
  - unfold rwlock_tryrdlock in E. destruct (wait_queue_isEmpty _ _) as [b|]; [|done]. cbn in E.
    destruct (Z.leb_spec 0 (count (lock s))), b; cbn in E; [|done..].
    injection E as <-. by apply inv_read; [lia|..].
  - assert (rw = lock s) as ->; [|by destruct s]. destruct E as [E|E].
    + unfold rwlock_trywrlock in E. by destruct (negb _); inversion E.
    + unfold rwlock_tryrdlock in E. destruct (wait_queue_isEmpty _ _) as [b|]; [|done]. cbn in E.
      by destruct ((0 <=? count (lock s)) && b); inversion E.
  - destruct Hinv as (lr & lw & R & Hq & Hc).
    destruct (unlock_ok _ _ _ _ _ _ t ltac:(lia) ltac:(lia) Hq Hc Hp)
      as (rw' & w' & ws' & lr' & lw' & R' & E' & Ew' & Hq' & Hc').
    rewrite E in E'. injection E' as <- <-. rewrite Ew in Ew'. apply app_inv_head in Ew' as <-.
    by exists lr', lw', R'.
Qed.

Lemma rw_reach_inv s : 0 <= N < 2 ^ 31 - 1 -> reach s -> inv s.
Proof.
  intros HN. induction 1 as [w0 old rw w Hw Hne E|s s' Hr IH Hs]; [|by eapply rw_inv_step].
  injection E as <- <-. exists [], [], ∅. split; [split; cbn; try done|split; [set_solver|]].
  - exists []. pose proof (wq_init w0 ∅ [] (rd_wait_queue old) Hw (lookup_empty _)) as Hi.
    rewrite insert_empty in Hi. apply (wq_init _ _ _ (wr_wait_queue old) Hi).
    by rewrite lookup_singleton_ne.
  - intros t. rewrite elem_of_nil. done.
  - intros t. rewrite elem_of_nil. done.
  - right. by rewrite size_empty.
Qed.
End Threads.

(** ** Properties *)

(** C37: A read-write lock excludes. Whatever the threads do, in any order, as long as only
    a thread that has the lock releases it: two writers never coexist, a writer never
    coexists with a reader, and [count] is the number of readers or -1. *)
Theorem rwlock_exclusion {W} `{WaitQueueLaws W} N (s : sys (W := W)) :
  0 <= N < 2 ^ 31 - 1 -> reach N s ->
  (forall t t', pcs s t = Writing -> pcs s t' = Writing -> t = t') /\
  (forall t t', pcs s t = Writing -> pcs s t' <> Reading) /\
  exists R : gset Z, (forall t, t ∈ R <-> pcs s t = Reading) /\
    (count (lock s) = -1 \/ count (lock s) = Z.of_nat (size R)).
Proof.
  intros HN Hr. destruct (rw_reach_inv N s HN Hr) as (lr & lw & R & _ & HR & Hor).
  destruct Hor as [(Ec & HR0 & t0 & Ht0)|(Ec & Hw)].
  - split_and!.
    + intros t t' H1 H2. apply Ht0 in H1, H2. congruence.
    + intros t t' _ Hc. apply HR in Hc. set_solver.
    + exists R. auto.
  - split_and!; [intros t t' H1; by destruct (Hw t)|intros t t' H1; by destruct (Hw t)|].
    exists R. auto.
Qed.

(** C38: No lost wake-up and no fault. In every reachable state each operation returns; a
    writer sleeps only while the lock is taken, a reader sleeps only while a writer has the
    lock or waits for it; and when the last holder leaves, [rwlock_unlock] hands the lock
    to the first writer of the queue or, if there is none, to all the sleeping readers. *)
Theorem rwlock_no_lost_wakeup {W} `{WaitQueueLaws W} N (s : sys (W := W)) :
  0 <= N < 2 ^ 31 - 1 -> reach N s ->
  (forall t, pcs s t = WrSleep -> count (lock s) <> 0) /\
  (forall t, pcs s t = RdSleep -> count (lock s) < 0 \/ exists t', pcs s t' = WrSleep) /\
  (forall t, 0 <= t < N -> pcs s t = Out ->
     is_Some (rwlock_wrlock (lock s) (world s) t) /\ is_Some (rwlock_rdlock (lock s) (world s) t)) /\
  (forall t, pcs s t = Reading \/ pcs s t = Writing -> exists rw w ws,
     rwlock_unlock (lock s) (world s) = Some (0, rw, w) /\ woken w = woken (world s) ++ ws /\
     (count rw = 0 -> forall t', wake ws (<[t := Out]> (pcs s)) t' <> RdSleep /\
        wake ws (<[t := Out]> (pcs s)) t' <> WrSleep)).
Proof.
  intros HN Hr. pose proof (rw_reach_inv N s HN Hr) as Hinv.
  pose proof Hinv as (lr & lw & R & Hq & Hc). pose proof Hq as [Hne Hrep Hrd Hwr Hran Hwb Hrb].
  split_and!.
  - intros t Ht. apply Hwr in Ht. apply Hwb. by intros ->; apply elem_of_nil in Ht.
  - intros t Ht. apply Hrd in Ht. destruct Hrb as [?|Hlw]; [by intros ->; apply elem_of_nil in Ht|by left|].
    right. destruct lw as [|t' lw]; [done|]. exists t'. apply Hwr. set_solver.
  - intros t Ht Hp. unfold rwlock_wrlock, rwlock_rdlock. split.
    + destruct (Z.eqb_spec (count (lock s)) 0); [eauto|].
      destruct (inv_wait N s t (wr_wait_queue (lock s)) Hinv Ht Hp) as (w' & -> & _); [by right|]. eauto.
    + rewrite (isEmpty_ok _ _ _ _ _ _ Hq). cbn.
      destruct ((0 <=? count (lock s)) && bool_decide (lw = [])) eqn:Eb; [eauto|].
      destruct (inv_wait N s t (rd_wait_queue (lock s)) Hinv Ht Hp) as (w' & -> & _); [|eauto].
      left. split; [done|]. rewrite (isEmpty_ok _ _ _ _ _ _ Hq).
      apply andb_false_iff in Eb as [Eb|Eb]; [left; lia|right; by rewrite Eb].
  - intros t Ht. destruct (unlock_ok N _ _ _ _ _ _ t ltac:(lia) ltac:(lia) Hq Hc Ht)
      as (rw & w & ws & lr' & lw' & R' & E & Ew & [_ _ Hrd' Hwr' _ Hwb' Hrb'] & _).
    exists rw, w, ws. split_and!; [done|done|]. intros Hz t'. rewrite <- Hrd', <- Hwr'.
    assert (lw' = []) as -> by (destruct lw'; [done|]; by destruct Hwb').
    assert (lr' = []) as -> by (destruct lr'; [done|]; destruct Hrb' as [?|?]; [done|lia|done]).
    split; apply not_elem_of_nil.
Qed.

(** A fresh lock on the linked queues. *)
Definition fresh_sys : sys (W := WQ.store) :=
  let '(_, rw, w) := rwlock_init (Rwlock 0 0 1 2) WQ.empty in Sys rw w (fun _ => Out).

Lemma rw_fresh_reach N : reach N fresh_sys.
Proof. by eapply (reach_init N WQ.empty (Rwlock 0 0 1 2)); [apply wq_empty_rep|..]. Qed.

(** A thread takes the lock to write, or sleeps for it to read. *)
Definition write_locked (t : Z) (s : sys (W := WQ.store)) : sys :=
  match rwlock_wrlock (lock s) (world s) t with Some (Returns 0, rw, w) => Sys rw w (<[t := Writing]> (pcs s)) | _ => s end.
Definition read_asleep (t : Z) (s : sys (W := WQ.store)) : sys :=
  match rwlock_rdlock (lock s) (world s) t with Some (Sleeps, rw, w) => Sys rw w (<[t := RdSleep]> (pcs s)) | _ => s end.

Lemma write_locked_reach N t s : reach N s -> 0 <= t < N -> pcs s t = Out -> reach N (write_locked t s).
Proof.
  intros Hr Ht Hp. unfold write_locked. destruct (rwlock_wrlock (lock s) (world s) t) as [[[[e|] rw] w]|] eqn:E; [|done..]. destruct e as [|e|e]; [|done..].
  eapply reach_step; [exact Hr|]. eapply step_wrlock; done.
Qed.
Lemma read_asleep_reach N t s : reach N s -> 0 <= t < N -> pcs s t = Out -> reach N (read_asleep t s).
Proof.
  intros Hr Ht Hp. unfold read_asleep. destruct (rwlock_rdlock (lock s) (world s) t) as [[[[e|] rw] w]|] eqn:E; [done| |done].
  eapply reach_step; [exact Hr|]. eapply step_rdsleep; done.
Qed.

(** Thread 5 writes and thread 6 waits to read. *)
Definition busy_sys : sys := read_asleep 6 (write_locked 5 fresh_sys).

Lemma rwlock_exclusion_witness : pcs busy_sys 5 = Writing /\ pcs busy_sys 6 = RdSleep /\ count (lock busy_sys) = -1 /\
  (forall t, pcs busy_sys t = Writing -> t = 5) /\ (forall t, pcs busy_sys t <> Reading).
Proof.
  assert (Hr : reach 2048 busy_sys) by (apply read_asleep_reach; [apply write_locked_reach; [apply rw_fresh_reach|lia|reflexivity]|lia|reflexivity]).
  assert (H5 : pcs busy_sys 5 = Writing) by reflexivity.
  destruct (rwlock_exclusion 2048 busy_sys) as (Hw & Hx & _); [lia|exact Hr|].
  split; [exact H5|]. split; [reflexivity|]. split; [reflexivity|]. split; [intros t Ht; exact (Hw t 5 Ht H5)|intros t; exact (Hx 5 t H5)].
Defined.

Lemma rwlock_no_lost_wakeup_witness :
  is_Some (rwlock_wrlock (lock fresh_sys) (world fresh_sys) 5).
Proof.
  destruct (rwlock_no_lost_wakeup 2048 fresh_sys) as (_ & _ & Hop & _); [lia|apply rw_fresh_reach|].
  apply Hop; [lia|reflexivity].
Defined.
