(* ===== verification/CondVar.v ===== *)
(** * CondVar: condition variables of [kernel/kern/cond_var.c]

    A condition variable and the semaphore used with it share one store of wait queues.
    [cv_wait] runs until it sleeps; [cv_wait_resume] is the rest, after the wake-up. *)

From S2P Require Import Prelude ListH WaitQueue Semaphore.

Definition COND_VAR_ID : Z := 0xB1CA0BA5.

Record cv_s := Cv { cv_signature : Z; cv_queue : Z }.

Section Ops.
Context {W : Type} `{WaitQueues W}.
Implicit Types (cv : cv_s) (sem : semaphore_s) (w : W).

Definition cv_init cv w : Z * cv_s * W :=
  let cv := Cv COND_VAR_ID (cv_queue cv) in (0, cv, wait_queue_init w (cv_queue cv)).

(** Everything between the lock and the unlock of [cv->lock] is one critical section. *)
Definition cv_wait cv sem w (this : Z) : option (wait_outcome * semaphore_s * W) :=
  let value := sem_getvalue sem in
  if negb (bool_decide (owner sem = Some this)) || (0 <? value) then Some (Returns EINVAL, sem, w)
  else
    '(err, sem, w) ← sem_post sem w this;
    if negb (err =? 0) then Some (Returns err, sem, w)
    else w ← wait_on w (cv_queue cv) this WAIT_LAST; Some (Sleeps, sem, w).

Definition cv_wait_resume sem w (this : Z) : option (wait_outcome * semaphore_s * W) :=
  sem_wait sem w this.

Definition cv_signal cv w : option (Z * W) :=
  '(_, w) ← wakeup_one w (cv_queue cv) WAIT_FIRST; Some (0, w).

Definition cv_broadcast cv w : option (Z * W) :=
  '(_, w) ← wakeup_all w (cv_queue cv); Some (0, w).

Definition cv_destroy cv w : option Z :=
  isEmpty ← wait_queue_isEmpty w (cv_queue cv); Some (if (isEmpty : bool) then 0 else EBUSY).

(** [n] calls of [cv_signal]. *)
Fixpoint cv_signals (n : nat) cv w : option W :=
  match n with O => Some w | S n => '(_, w) ← cv_signal cv w; cv_signals n cv w end.
End Ops.

Section Laws.
Context {W : Type} `{WaitQueueLaws W}.
Implicit Types (cv : cv_s) (sem : semaphore_s) (w : W).

Definition queues cv sem (lc ls : list Z) : gmap Z (list Z) :=
  <[cv_queue cv := lc]> {[wait_queue sem := ls]}.

Lemma queues_cv cv sem lc ls : queues cv sem lc ls !! cv_queue cv = Some lc.
Proof. unfold queues. apply lookup_insert_eq. Qed.
Lemma queues_sem cv sem lc ls : cv_queue cv <> wait_queue sem ->
  queues cv sem lc ls !! wait_queue sem = Some ls.
Proof. intros. unfold queues. rewrite lookup_insert_ne, lookup_singleton_eq by done. done. Qed.
Lemma queues_set_cv cv sem lc ls lc' :
  <[cv_queue cv := lc']> (queues cv sem lc ls) = queues cv sem lc' ls.
Proof. unfold queues. apply insert_insert_eq. Qed.
Lemma queues_set_sem cv sem lc ls ls' : cv_queue cv <> wait_queue sem ->
  <[wait_queue sem := ls']> (queues cv sem lc ls) = queues cv sem lc ls'.
Proof. intros. unfold queues. rewrite insert_insert_ne, insert_singleton_eq by done. done. Qed.
Lemma cv_queues_Some cv sem lc ls q l : queues cv sem lc ls !! q = Some l -> l = lc \/ l = ls.
Proof. unfold queues. rewrite lookup_insert_Some, lookup_singleton_Some. naive_solver. Qed.

(** A mutex locked by [this], with [ls] waiting for it. *)
Definition locked_by sem (this : Z) (ls : list Z) : Prop :=
  value sem = 1 /\ owner sem = Some this /\ zlen ls = - count sem /\ - 2 ^ 31 <= count sem.

Lemma sem_post_locked cv sem w this lc ls k : cv_queue cv <> wait_queue sem ->
  wq_rep w (queues cv sem lc ls) k -> locked_by sem this ls ->
  exists w', sem_post sem w this =
      Some (0, set_owner (Semaphore.set_count sem (count sem + 1)) (head ls), w') /\
    wq_rep w' (queues cv sem lc (tail ls)) (k ++ option_list (head ls)).
Proof.
  intros Hne Hw (Hv & Ho & Hlen & Hb). unfold sem_post, post_illegal.
  rewrite Hv, Ho, bool_decide_true by done. pose proof (zlen_nonneg ls).
  rewrite (proj2 (Z.ltb_ge 0 (count sem))) by lia. rewrite andb_false_r. cbn.
  unfold post_locked. cbn. rewrite s32_small by lia. destruct ls as [|t ls].
  - unfold zlen in Hlen. cbn in Hlen. rewrite (proj2 (Z.leb_gt (count sem + 1) 0)) by lia. cbn.
    exists w. rewrite app_nil_r. done.
  - rewrite zlen_cons in Hlen. pose proof (zlen_nonneg ls).
    rewrite (proj2 (Z.leb_le (count sem + 1) 0)) by lia.
    destruct (wq_wakeup_first _ _ _ (wait_queue sem) t ls Hw) as (w' & -> & Hw');
      [by apply queues_sem|]. rewrite queues_set_sem in Hw' by done. cbn. exists w'. done.
Qed.

Lemma cv_signals_ok n cv sem w lc ls k : wq_rep w (queues cv sem lc ls) k ->
  exists w', cv_signals n cv w = Some w' /\
    wq_rep w' (queues cv sem (drop n lc) ls) (k ++ take n lc).
Proof.
  revert w lc k. induction n as [|n IH]; intros w lc k Hw; cbn.
  { exists w. by rewrite take_0, app_nil_r. }
  unfold cv_signal. destruct lc as [|t lc].
  - rewrite (wq_wakeup_none _ _ _ _ _ Hw) by apply queues_cv. cbn.
    destruct (IH w [] k Hw) as (w' & E & Hw'). rewrite drop_nil, take_nil in Hw'.
    exists w'. split; [exact E|]. exact Hw'.
  - destruct (wq_wakeup_first _ _ _ _ t lc Hw (queues_cv _ _ _ _)) as (w1 & -> & Hw1).
    rewrite queues_set_cv in Hw1. cbn. destruct (IH w1 lc _ Hw1) as (w' & E & Hw').
    exists w'. split; [exact E|]. rewrite <- app_assoc in Hw'. exact Hw'.
Qed.
End Laws.

(** ** Properties *)

(** [cv_wait] by the holder of the mutex releases it and enqueues the caller at the end
    of the queue of the condition, in one critical section: the mutex goes to its first
    waiter, and no signal sent after the release can miss the caller. A caller that does
    not hold the mutex gets [EINVAL] and nothing changes. *)
Theorem cv_wait_atomic {W} `{WaitQueueLaws W} cv sem (w : W) this lc ls k :
  cv_queue cv <> wait_queue sem -> wq_rep w (queues cv sem lc ls) k ->
  (forall t, t ∈ lc \/ t ∈ ls -> t <> this) ->
  (owner sem <> Some this -> cv_wait cv sem w this = Some (Returns EINVAL, sem, w)) /\
  (locked_by sem this ls -> exists w', cv_wait cv sem w this =
     Some (Sleeps, set_owner (Semaphore.set_count sem (count sem + 1)) (head ls), w') /\
     wq_rep w' (queues cv sem (lc ++ [this]) (tail ls)) (k ++ option_list (head ls))).
Proof.
  intros Hne Hw Hfresh. unfold cv_wait, sem_getvalue. split.
  - intros Ho. by rewrite bool_decide_false.
  - intros Hl. pose proof Hl as (Hv & Ho & Hlen & _). pose proof (zlen_nonneg ls).
    rewrite Ho, bool_decide_true by done. rewrite (proj2 (Z.ltb_ge 0 (count sem))) by lia. cbn.
    destruct (sem_post_locked cv sem w this lc ls k Hne Hw Hl) as (w1 & -> & Hw1). cbn.
    destruct (wq_wait_last _ _ _ (cv_queue cv) lc this Hw1) as (w' & -> & Hw').
    + apply queues_cv.
    + intros q l Hq Hin. apply cv_queues_Some in Hq as [->| ->]; [by apply (Hfresh this); [left|]|].
      apply (Hfresh this); [|done]. right. by destruct ls; [|apply elem_of_cons; right].
    + rewrite queues_set_cv in Hw'. exists w'. done.
Qed.

(** Signals wake the waiters in the order in which they came: [n] signals wake the [n]
    first threads of the queue (all of them if there are fewer), and a broadcast wakes
    them all, in order. *)
Theorem cv_signal_fifo {W} `{WaitQueueLaws W} n cv sem (w : W) lc ls k :
  wq_rep w (queues cv sem lc ls) k ->
  (exists w', cv_signals n cv w = Some w' /\ woken w' = woken w ++ take n lc) /\
  (exists w', cv_broadcast cv w = Some (0, w') /\ woken w' = woken w ++ lc).
Proof.
  intros Hw. rewrite (wq_woken _ _ _ Hw). split.
  - destruct (cv_signals_ok n _ _ _ _ _ _ Hw) as (w' & E & Hw'). exists w'. split; [done|].
    by apply (wq_woken _ _ _ Hw').
  - unfold cv_broadcast. destruct (wq_wakeup_all _ _ _ _ _ Hw (queues_cv _ _ _ _)) as (w' & -> & Hw').
    exists w'. split; [done|]. by apply (wq_woken _ _ _ Hw').
Qed.

(** A mutex held by thread 1, with a condition variable, on the linked queues. *)
Definition demo_cv : cv_s := Cv COND_VAR_ID 8.
Definition demo_sem : semaphore_s := Semaphore SEMAPHORE_ID 1 0 SEM_SCOPE_USR (Some 1) 7.
Definition demo_store : WQ.store := wait_queue_init (wait_queue_init WQ.empty 7) 8.

Lemma demo_rep : wq_rep demo_store (queues demo_cv demo_sem [] []) [].
Proof.
  apply (wq_init _ {[7 := []]} []); [|done].
  rewrite <- (insert_empty (M := gmap Z) 7 []). apply wq_init; [apply wq_empty_rep|done].
Qed.

Lemma cv_wait_atomic_witness : exists w',
  cv_wait demo_cv demo_sem demo_store 1 =
    Some (Sleeps, set_owner (Semaphore.set_count demo_sem 1) None, w').
Proof.
  destruct (cv_wait_atomic demo_cv demo_sem demo_store 1 [] [] []) as [_ Hs];
    [discriminate|apply demo_rep|intros t [Ht|Ht]; apply elem_of_nil in Ht as []|].
  destruct Hs as (w' & E & _); [repeat split; vm_compute; discriminate|].
  exists w'. exact E.
Defined.

Lemma cv_signal_fifo_witness : exists w',
  cv_broadcast demo_cv demo_store = Some (0, w') /\ woken w' = [].
Proof.
  destruct (cv_signal_fifo 2 demo_cv demo_sem demo_store [] [] [] demo_rep) as [_ (w' & E & Ew)].
  exists w'. split; [exact E|]. rewrite Ew. reflexivity.
Defined.
