(* ===== verification/Page.v ===== *)
(** * Page: the physical page descriptors of [kernel/mm/page.c] and [page.h]

    The life cycle of a descriptor ([page_state_set]), its sleeping lock
    ([page_lock], [page_unlock]), its reference count and the list of dirty pages.
    [assert] only prints a message ([kern/kdmsg.h], [__perror(0,...)]) and execution
    goes on, so that the transitions return the number of diagnostics they print next
    to the new descriptor. *)

From S2P Require Import Prelude ListH.

(** ** Data *)

Inductive page_state_t :=
  | PGINIT | PGRESERVED | PGFREE | PGINVALID | PGVALID | PGLOCKEDIO | PGLOCKED.

#[export] Instance page_state_eq_dec : EqDecision page_state_t.
Proof. solve_decision. Defined.

Definition PG_DIRTY : Z := 0x080.
Definition PG_LOCKED : Z := 0x100.

(** [struct page_s].  The wait queue is the sequence of waiting thread identifiers; the
    embedded [list] and [private_list] entries live in the list stores of the
    components that chain pages. *)
Record page_s := Page {
  state : page_state_t;
  flags : Z;               (* 12-bit field *)
  cid : Z;                 (* 12-bit field *)
  order : Z;               (* 4-bit field *)
  wait_queue : list Z;
  index : Z;               (* union with [shared] *)
  mapper : option Z;
  private : Z;
  count : Z;
}.

#[export] Instance page_s_eq_dec : EqDecision page_s.
Proof. solve_decision. Defined.

Definition set_state (p : page_s) (s : page_state_t) : page_s :=
  Page s (flags p) (cid p) (order p) (wait_queue p) (index p) (mapper p) (private p) (count p).
Definition set_flags (p : page_s) (f : Z) : page_s :=
  Page (state p) f (cid p) (order p) (wait_queue p) (index p) (mapper p) (private p) (count p).
Definition set_order (p : page_s) (o : Z) : page_s :=
  Page (state p) (flags p) (cid p) (o mod 16) (wait_queue p) (index p) (mapper p) (private p) (count p).
Definition set_queue (p : page_s) (q : list Z) : page_s :=
  Page (state p) (flags p) (cid p) (order p) q (index p) (mapper p) (private p) (count p).
Definition set_index (p : page_s) (i : Z) : page_s :=
  Page (state p) (flags p) (cid p) (order p) (wait_queue p) i (mapper p) (private p) (count p).
Definition set_count (p : page_s) (c : Z) : page_s :=
  Page (state p) (flags p) (cid p) (order p) (wait_queue p) (index p) (mapper p) (private p) c.

Definition PAGE_SET (p : page_s) (flag : Z) : page_s :=
  set_flags p (Z.lor (flags p) flag mod 2 ^ 12).
Definition PAGE_CLEAR (p : page_s) (flag : Z) : page_s :=
  set_flags p (Z.land (flags p) (~! flag)).
Definition PAGE_IS (p : page_s) (flag : Z) : bool := negb (Z.land (flags p) flag =? 0).

(** ** Operations *)

(** [refcount_up], [refcount_down] ([kern/atomic.c]) return the old value. *)
Definition refcount_up (c : Z) : Z * Z := (c, c +! 1).
Definition refcount_down (c : Z) : Z * Z := (c, c -! 1).
Definition refcount_set (c new_val : Z) : Z * Z := (c, new_val).

Definition page_init (cid : Z) : page_s :=
  Page PGINIT 0 (cid mod 2 ^ 12) 0 [] 0 None 0 0.

Definition page_refcount_get (p : page_s) : Z := count p.
Definition page_refcount_up (p : page_s) : Z * page_s :=
  let '(old, c) := refcount_up (count p) in (old, set_count p c).
Definition page_refcount_down (p : page_s) : Z * page_s :=
  let '(old, c) := refcount_down (count p) in (old, set_count p c).

(** Number of messages printed by [assert(b)]. *)
Definition assertn (b : bool) : Z := if b then 0 else 1.
Definition state_in (p : page_s) (l : list page_state_t) : bool := bool_decide (state p ∈ l).

Definition page_shared_init (p : page_s) : page_s * Z :=
  (set_index p 1, assertn (bool_decide (mapper p = None))).
Definition page_shared_get (p : page_s) : Z * Z :=
  (index p, assertn (bool_decide (mapper p = None))).
Definition page_shared_up (p : page_s) : Z * page_s * Z :=
  (index p, set_index p (index p +! 1), assertn (bool_decide (mapper p = None))).
Definition page_shared_down (p : page_s) : Z * page_s * Z :=
  (index p, set_index p (index p -! 1), assertn (bool_decide (mapper p = None))).

(** [page_lock] by thread [this]: [true] when the thread goes to sleep on the page. *)
Definition page_lock (p : page_s) (this : Z) : page_s * bool :=
  if PAGE_IS p PG_LOCKED then (set_queue p (wait_queue p ++ [this]), true)
  else (PAGE_SET p PG_LOCKED, false).

(** [page_unlock]: the thread that is woken up, if any. *)
Definition page_unlock (p : page_s) : page_s * option Z :=
  match wait_queue p with
  | t :: q => (set_queue p q, Some t)
  | [] => (PAGE_CLEAR p PG_LOCKED, None)
  end.

(** Outcome of a state change: the descriptor, the diagnostics, the thread woken by a
    [page_unlock], and whether the caller sleeps in [page_lock] before the new state is
    stored (the store happens when it is woken up). *)
Record transition := Transition {
  t_page : page_s;
  t_diags : Z;
  t_woken : option Z;
  t_sleeps : bool;
}.

Definition page_to_free (p : page_s) : transition :=
  Transition (set_state p PGFREE)
    (assertn (state_in p [PGINVALID; PGVALID; PGINIT]) + assertn (page_refcount_get p =? 0)%Z)
    None false.

Definition page_to_invalid (p : page_s) : transition :=
  let d := assertn (state_in p [PGFREE; PGVALID; PGLOCKEDIO]) in
  if bool_decide (state p = PGLOCKEDIO) then
    let '(p', w) := page_unlock (set_state p PGINVALID) in Transition p' d w false
  else Transition (set_state p PGINVALID) d None false.

Definition page_to_valid (p : page_s) : transition :=
  let d := assertn (state_in p [PGINVALID; PGLOCKED; PGLOCKEDIO]) in
  if bool_decide (state p = PGINVALID) then Transition (set_state p PGVALID) d None false
  else let '(p', w) := page_unlock (set_state p PGVALID) in Transition p' d w false.

(** [page_lock(page); page->state = new]: the store waits for the lock. *)
Definition lock_then_set (p : page_s) (this : Z) (new : page_state_t) (d : Z) : transition :=
  let '(p', sleeps) := page_lock p this in
  Transition (if sleeps then p' else set_state p' new) d None sleeps.

Definition page_to_locked_io (p : page_s) (this : Z) : transition :=
  lock_then_set p this PGLOCKEDIO (assertn (state_in p [PGINVALID; PGVALID])).

Definition page_to_locked (p : page_s) (this : Z) : transition :=
  lock_then_set p this PGLOCKED (assertn (state_in p [PGVALID])).

Definition page_state_set (p : page_s) (this : Z) (new_state : page_state_t) : transition :=
  match new_state with
  | PGFREE => page_to_free p
  | PGINVALID => page_to_invalid p
  | PGVALID => page_to_valid p
  | PGLOCKEDIO => page_to_locked_io p this
  | PGLOCKED => page_to_locked p this
  | PGRESERVED =>
      Transition (set_state (set_count p (snd (refcount_set (count p) 1))) PGRESERVED) 0 None false
  | PGINIT => Transition (set_state p PGINIT) 0 None false
  end.

Definition page_state_get (p : page_s) : page_state_t := state p.

(** ** The dirty pages *)

Module Dirty.
(** The descriptors and the store that holds [dirty_pages.root] (at [Root 0]) and the
    [private_list] entry of page [i] (at [Entry i]). *)
Record t := Mk { pages : gmap Z page_s; links : gmap laddr (list_entry laddr) }.

Definition dirty_pages_init (s : t) : t := Mk (pages s) (list_root_init (links s) (Root 0)).

Definition page_set_dirty (s : t) (i : Z) : option (bool * t) :=
  p ← pages s !! i;
  if negb (PAGE_IS p PG_DIRTY) then
    l ← list_add_first (links s) (Root 0) (Entry i);
    Some (true, Mk (<[i := PAGE_SET p PG_DIRTY]> (pages s)) l)
  else Some (false, s).

Definition page_clear_dirty (s : t) (i : Z) : option (bool * t) :=
  p ← pages s !! i;
  if PAGE_IS p PG_DIRTY then
    l ← list_unlink (links s) (Entry i);
    Some (true, Mk (<[i := PAGE_CLEAR p PG_DIRTY]> (pages s)) l)
  else Some (false, s).
End Dirty.

(** ** Lemmas *)

Lemma PAGE_IS_bit p k : 0 <= k -> PAGE_IS p (2 ^ k) = Z.testbit (flags p) k.
Proof.
  intros Hk. unfold PAGE_IS. destruct (Z.testbit (flags p) k) eqn:E.
  - destruct (Z.eqb_spec (Z.land (flags p) (2 ^ k)) 0) as [E0|]; [|done].
    apply (f_equal (fun z => Z.testbit z k)) in E0.
    rewrite Z.land_spec, E, Z.pow2_bits_true, Z.testbit_0_l in E0 by lia. done.
  - assert (Z.land (flags p) (2 ^ k) = 0) as ->; [|done].
    apply Z.bits_inj'. intros n Hn. rewrite Z.land_spec, Z.testbit_0_l.
    destruct (Z.eq_dec n k) as [->|]; [by rewrite E|].
    rewrite Z.pow2_bits_false by lia. apply andb_false_r.
Qed.

Lemma PAGE_SET_bit p k j : 0 <= k < 12 -> 0 <= j < 12 ->
  PAGE_IS (PAGE_SET p (2 ^ k)) (2 ^ j) = (j =? k) || PAGE_IS p (2 ^ j).
Proof.
  intros Hk Hj. rewrite !PAGE_IS_bit by lia. simpl.
  rewrite Z.mod_pow2_bits_low, Z.lor_spec by lia. rewrite orb_comm. f_equal.
  destruct (Z.eqb_spec j k); [subst; apply Z.pow2_bits_true|apply Z.pow2_bits_false]; lia.
Qed.

Lemma PAGE_CLEAR_bit p k j : 0 <= k < 12 -> 0 <= j < 12 ->
  PAGE_IS (PAGE_CLEAR p (2 ^ k)) (2 ^ j) = negb (j =? k) && PAGE_IS p (2 ^ j).
Proof.
  intros Hk Hj. rewrite !PAGE_IS_bit by lia. simpl.
  rewrite Z.land_spec, testbit_u32, Z.lnot_spec by lia. rewrite andb_comm. f_equal. f_equal.
  destruct (Z.eqb_spec j k); [subst; apply Z.pow2_bits_true|apply Z.pow2_bits_false]; lia.
Qed.

Lemma PG_LOCKED_pow : PG_LOCKED = 2 ^ 8. Proof. done. Qed.
Lemma PG_DIRTY_pow : PG_DIRTY = 2 ^ 7. Proof. done. Qed.

Lemma PAGE_SET_same p f : f = PG_LOCKED \/ f = PG_DIRTY -> PAGE_IS (PAGE_SET p f) f = true.
Proof. intros [-> | ->]; [rewrite PG_LOCKED_pow|rewrite PG_DIRTY_pow]; by rewrite PAGE_SET_bit. Qed.

Lemma PAGE_CLEAR_same p f : f = PG_LOCKED \/ f = PG_DIRTY -> PAGE_IS (PAGE_CLEAR p f) f = false.
Proof. intros [-> | ->]; [rewrite PG_LOCKED_pow|rewrite PG_DIRTY_pow]; by rewrite PAGE_CLEAR_bit. Qed.

(** A free page becomes invalid without a diagnostic. *)
Lemma page_to_invalid_free p : state p = PGFREE ->
  page_to_invalid p = Transition (set_state p PGINVALID) 0 None false.
Proof. intros Hs. unfold page_to_invalid, state_in. rewrite Hs. done. Qed.

(** ** The sleeping lock of a page *)

Module PageLock.
(** The threads that returned from [page_lock] and did not call [page_unlock] yet are
    the [holders].  A thread that sleeps in [page_lock] becomes a holder when
    [page_unlock] wakes it up. *)
Record sys := Sys { page : page_s; holders : list Z }.

Definition opt_list (w : option Z) : list Z := match w with Some t => [t] | None => [] end.

Inductive step : sys -> sys -> Prop :=
  | step_lock s t p' :
      t ∉ holders s -> t ∉ wait_queue (page s) ->
      page_lock (page s) t = (p', false) -> step s (Sys p' (t :: holders s))
  | step_sleep s t p' :
      t ∉ holders s -> t ∉ wait_queue (page s) ->
      page_lock (page s) t = (p', true) -> step s (Sys p' (holders s))
  | step_unlock s t l1 l2 p' w :
      holders s = l1 ++ t :: l2 ->
      page_unlock (page s) = (p', w) -> step s (Sys p' (opt_list w ++ l1 ++ l2)).

Definition initial (s : sys) : Prop :=
  holders s = [] /\ wait_queue (page s) = [] /\ PAGE_IS (page s) PG_LOCKED = false.

(** One holder at most; the flag is set exactly while there is one; nobody waits for
    a free page. *)
Definition inv (s : sys) : Prop :=
  (PAGE_IS (page s) PG_LOCKED = true /\ (exists t, holders s = [t] /\ t ∉ wait_queue (page s)) \/
   PAGE_IS (page s) PG_LOCKED = false /\ holders s = [] /\ wait_queue (page s) = []) /\
  NoDup (wait_queue (page s)).

Lemma inv_initial s : initial s -> inv s.
Proof. intros (Hh & Hq & Hf). split; [by right|]. rewrite Hq. constructor. Qed.

Lemma lock_inv_step s s' : step s s' -> inv s -> inv s'.
Proof.
  destruct 1 as [s t p' Hh Hq E|s t p' Hh Hq E|s t l1 l2 p' w Hs E]; intros [Hi Hnd].
  - unfold page_lock in E. destruct (PAGE_IS (page s) PG_LOCKED) eqn:El; simplify_eq.
    destruct Hi as [[? _]|(_ & Hs & Hw)]; [done|]. split; simpl; [left|done].
    rewrite Hs, Hw, PAGE_SET_same by auto. split; [done|]. exists t. split; [done|apply not_elem_of_nil].
  - unfold page_lock in E. destruct (PAGE_IS (page s) PG_LOCKED) eqn:El; simplify_eq.
    destruct Hi as [[_ (u & Hs & Hu)]|[? _]]; [|done]. split; simpl.
    + left. split; [exact El|]. exists u. split; [done|]. rewrite Hs in Hh. set_solver.
    + apply NoDup_app. split_and!; [done|set_solver|apply NoDup_singleton].
  - destruct Hi as [[El (u & Hh & Hu)]|(_ & Hh & _)]; rewrite Hh in Hs; [|by destruct l1].
    assert (l1 = [] /\ l2 = []) as [-> ->].
    { destruct l1 as [|? l1]; [by destruct l2|]. destruct l1; done. }
    unfold page_unlock in E. destruct (wait_queue (page s)) as [|t' q] eqn:Eq; simplify_eq; simpl.
    + split; simpl; rewrite ?Eq; [right|constructor]. rewrite PAGE_CLEAR_same by auto. done.
    + apply NoDup_cons in Hnd as [Hn Hnd]. split; [left|done]. split; [exact El|]. eauto.
Qed.
End PageLock.

(** ** Dirty list invariant *)

(** [inv s xs]: [xs] are the dirty pages, most recent first: exactly the descriptors that
    carry [PG_DIRTY]. *)
Definition dirty_inv (s : Dirty.t) (xs : list Z) : Prop :=
  dlists (Dirty.links s) {[Root 0 := Entry <$> xs]} /\
  (forall i, i ∈ xs <-> exists p, Dirty.pages s !! i = Some p /\ PAGE_IS p PG_DIRTY = true).

Lemma dirty_unlinked xs i : i ∉ xs -> unlinked {[Root 0 := Entry <$> xs]} (Entry i).
Proof.
  intros Hi r ys Hl. apply lookup_singleton_Some in Hl as [<- <-].
  rewrite not_elem_of_cons, list_elem_of_fmap. split; [done|]. intros (j & [= ->] & Hj). done.
Qed.

Lemma page_set_dirty_inv s xs i p : dirty_inv s xs -> Dirty.pages s !! i = Some p ->
  exists s', Dirty.page_set_dirty s i = Some (negb (PAGE_IS p PG_DIRTY), s') /\
    dirty_inv s' (if PAGE_IS p PG_DIRTY then xs else i :: xs).
Proof.
  intros [Hd Hx] Hp. unfold Dirty.page_set_dirty. rewrite Hp. simpl.
  destruct (PAGE_IS p PG_DIRTY) eqn:E; simpl; [by exists s|].
  assert (Hi : i ∉ xs) by (rewrite Hx; intros (q & Hq & Hq'); congruence).
  destruct (list_add_dlists (Dirty.links s) _ (Root 0) (Entry <$> xs) (Entry i) Hd)
    as (l & El & Hl); [by rewrite lookup_singleton_eq|by apply dirty_unlinked|].
  unfold list_add_first. rewrite El. simpl. eexists. split; [done|]. split; simpl.
  - rewrite insert_singleton_eq in Hl. done.
  - intros j. rewrite elem_of_cons, Hx. split.
    + intros [->|(q & Hq & Hq')].
      * exists (PAGE_SET p PG_DIRTY). rewrite lookup_insert_eq, PAGE_SET_same by auto. done.
      * exists q. rewrite lookup_insert_ne by congruence. done.
    + intros (q & Hq & Hq'). rewrite lookup_insert in Hq. case_decide; [by left|eauto].
Qed.

Lemma page_clear_dirty_inv s xs i p : dirty_inv s xs -> Dirty.pages s !! i = Some p ->
  exists s', Dirty.page_clear_dirty s i = Some (PAGE_IS p PG_DIRTY, s') /\
    exists xs', dirty_inv s' xs' /\ forall j, j ∈ xs' <-> j ∈ xs /\ j <> i.
Proof.
  intros [Hd Hx] Hp. unfold Dirty.page_clear_dirty. rewrite Hp. simpl.
  destruct (PAGE_IS p PG_DIRTY) eqn:E; simpl.
  2:{ exists s. split; [done|]. exists xs. split; [done|]. intros j. split; [|tauto].
      intros Hj. split; [done|]. intros ->. apply Hx in Hj as (q & ? & ?). congruence. }
  assert (Hi : i ∈ xs) by (rewrite Hx; eauto).
  apply list_elem_of_split in Hi as (l1 & l2 & ->).
  assert (Hnd : NoDup (l1 ++ i :: l2)).
  { destruct (proj1 Hd (Root 0) _ (lookup_singleton_eq _ _)) as [Hnd _].
    apply NoDup_cons in Hnd as [_ Hnd]. by apply NoDup_fmap in Hnd; [|apply _]. }
  rewrite fmap_app, fmap_cons in Hd.
  destruct (list_unlink_dlists _ _ (Root 0) _ _ _ Hd (lookup_singleton_eq _ _)) as (l & -> & Hl).
  simpl. eexists. split; [done|]. exists (l1 ++ l2).
  assert (Hnotin : i ∉ l1 ++ l2).
  { revert Hnd. rewrite NoDup_app, NoDup_cons. set_solver. }
  split; [split; simpl|].
  - rewrite insert_singleton_eq in Hl. rewrite fmap_app. done.
  - intros j. destruct (decide (j = i)) as [->|Hne].
    + split; [done|]. intros (q & Hq & Hq'). rewrite lookup_insert_eq in Hq. simplify_eq.
      rewrite PAGE_CLEAR_same in Hq' by auto. done.
    + rewrite lookup_insert_ne by congruence. rewrite <- Hx. set_solver.
  - intros j. set_solver.
Qed.

(** ** Properties *)

(** The lock of a page excludes. In every state reachable from an unlocked page by
    threads calling [page_lock] and the holders calling [page_unlock], there is at most one
    holder, the flag [PG_LOCKED] is set exactly when there is one, and no thread waits for
    a page that nobody holds: [page_unlock] hands the lock to the first waiter. *)
Theorem page_lock_exclusive s0 s : PageLock.initial s0 -> rtc PageLock.step s0 s ->
  (forall t t', t ∈ PageLock.holders s -> t' ∈ PageLock.holders s -> t = t') /\
  (PAGE_IS (PageLock.page s) PG_LOCKED = true <-> PageLock.holders s <> []) /\
  (PageLock.holders s = [] -> wait_queue (PageLock.page s) = []).
Proof.
  intros Hi Hr. assert (Hinv : PageLock.inv s).
  { apply PageLock.inv_initial in Hi. induction Hr; eauto using PageLock.lock_inv_step. }
  destruct Hinv as [[[El (u & Hs & _)]|(El & Hs & Hw)] _]; rewrite El, Hs.
  - split_and!; [|done|done]. intros t t' Ht Ht'. apply list_elem_of_singleton in Ht, Ht'. congruence.
  - split_and!; [|split; done|done]. intros t t' Ht. by apply elem_of_nil in Ht.
Qed.

Lemma page_lock_exclusive_witness : exists s,
  rtc PageLock.step (PageLock.Sys (page_init 0) []) s /\ PageLock.holders s = [7] /\
  PAGE_IS (PageLock.page s) PG_LOCKED = true.
Proof.
  assert (Hr : rtc PageLock.step (PageLock.Sys (page_init 0) [])
    (PageLock.Sys (fst (page_lock (page_init 0) 7)) [7])).
  { apply rtc_once. apply (PageLock.step_lock (PageLock.Sys (page_init 0) []) 7);
      [apply not_elem_of_nil|apply not_elem_of_nil|reflexivity]. }
  eexists. split; [exact Hr|]. split; [reflexivity|].
  destruct (page_lock_exclusive (PageLock.Sys (page_init 0) []) _
    (conj eq_refl (conj eq_refl eq_refl)) Hr) as (_ & Hl & _).
  apply Hl. discriminate.
Defined.

(** The list of dirty pages holds exactly the pages that carry [PG_DIRTY]: marking a
    page links it once, clearing it unlinks it, both return whether they did, and the other
    pages of the list are kept. *)
Theorem dirty_list_exact s xs i p : dirty_inv s xs -> Dirty.pages s !! i = Some p ->
  (exists s', Dirty.page_set_dirty s i = Some (negb (PAGE_IS p PG_DIRTY), s') /\
     dirty_inv s' (if PAGE_IS p PG_DIRTY then xs else i :: xs)) /\
  (exists s' xs', Dirty.page_clear_dirty s i = Some (PAGE_IS p PG_DIRTY, s') /\
     dirty_inv s' xs' /\ forall j, j ∈ xs' <-> j ∈ xs /\ j <> i).
Proof.
  intros Hinv Hp. split; [by apply page_set_dirty_inv|].
  destruct (page_clear_dirty_inv _ _ _ _ Hinv Hp) as (s' & E & xs' & Hi & Hx). eauto.
Qed.

Lemma dirty_list_exact_witness : exists s',
  Dirty.page_set_dirty (Dirty.dirty_pages_init (Dirty.Mk {[3 := page_init 0]} ∅)) 3 = Some (true, s') /\
  dirty_inv s' [3].
Proof.
  destruct (dirty_list_exact (Dirty.dirty_pages_init (Dirty.Mk {[3 := page_init 0]} ∅)) [] 3 (page_init 0))
    as [(s' & E & Hi) _]; [split| |].
  - cbn. rewrite <- (insert_empty (M := gmap laddr)). apply list_root_init_dlists.
    + split; intros *; rewrite lookup_empty; discriminate.
    + intros r xs. rewrite lookup_empty. discriminate.
  - intros i. rewrite elem_of_nil. split; [intros []|]. intros (p & Hp & Hd). cbn in Hp.
    apply lookup_singleton_Some in Hp as [_ <-]. discriminate Hd.
  - apply lookup_singleton_eq.
  - exists s'. split; [exact E|exact Hi].
Defined.
