(* ===== verification/Fault.v ===== *)
(** * Fault: page faults, copy on write and the life of private pages, [kernel/mm/vmm.c] and [vm_region.c]

    An address space is its page tables ([Pmm]); a frame is a page of physical memory, its descriptor ([Page]) and its words.  The operations run
    one at a time: the code holds the lock of the page, or of the entry, from the read of the entry to its write.  The answers of [kmem_alloc] are
    arguments: a frame, or nothing. *)

From S2P Require Import Prelude Bits ListH Page Rbtree Pmm VmRegion.

Definition VM_REG_INST : Z := 0x1000.

(** ** Frames *)

Record frame := Frame { desc : page_s; words : list Z }.

Definition set_mapper (p : page_s) (m : option Z) : page_s :=
  Page (state p) (flags p) (cid p) (order p) (wait_queue p) (index p) m (private p) (count p).
Definition put_desc (fr : gmap Z frame) (p : Z) (d : page_s) : option (gmap Z frame) :=
  f ← fr !! p; Some (<[p := Frame d (words f)]> fr).

(** [kmem_alloc] of a page of order 0 that [ppm_alloc_pages] takes from the free ones, cleared with AF_ZERO *)
Definition kmem_alloc_page (fr : gmap Z frame) (p : Z) (zero : bool) : option (gmap Z frame) :=
  f ← fr !! p;
  let d := t_page (page_state_set (desc f) 0 PGINVALID) in
  let d := set_order (page_refcount_up d).2 0 in
  Some (<[p := Frame d (if zero then zero_table else words f)]> fr).

(** [kmem_free] of a page, as [ppm_free_pages] changes its descriptor *)
Definition kmem_free_page (fr : gmap Z frame) (p : Z) : option (gmap Z frame) :=
  f ← fr !! p;
  let '(old, d) := page_refcount_down (desc f) in
  put_desc fr p (if 1 <? old then d else t_page (page_state_set d 0 PGFREE)).

(** [page_copy], for pages of order 0 *)
Definition page_copy (fr : gmap Z frame) (dst src : Z) : option (gmap Z frame) :=
  s ← fr !! src; d ← fr !! dst; Some (<[dst := Frame (desc d) (words s)]> fr).

Definition refs_up (fr : gmap Z frame) (p : Z) : option (gmap Z frame) :=
  f ← fr !! p; put_desc fr p (page_refcount_up (desc f)).2.
Definition refs_down (fr : gmap Z frame) (p : Z) : option (gmap Z frame) :=
  f ← fr !! p; put_desc fr p (page_refcount_down (desc f)).2.

(** A frame for the task: taken, out of any mapper, with the words of [src] *)
Definition copy_to_new (fr : gmap Z frame) (new src : Z) : option (gmap Z frame) :=
  fr ← kmem_alloc_page fr new false;
  f ← fr !! new;
  fr ← put_desc fr new (set_mapper (desc f) None);
  page_copy fr new src.

(** ** Copy on write *)

(** What [vmm_do_cow] does with the page before it takes another one: whether it is used again as it is, and whether it is freed at the end *)
Definition cow_page (fr : gmap Z frame) (page cluster : Z) : option (bool * bool * gmap Z frame) :=
  f ← fr !! page;
  match mapper (desc f) with
  | None =>
      if page_refcount_get (desc f) =? 1 then
        if negb (cid (desc f) =? cluster) then Some (false, true, fr) else Some (true, false, fr)
      else fr ← refs_down fr page; Some (false, false, fr)
  | Some _ => Some (false, false, fr)
  end.

Definition cow_end (err : Z) (pm : pmm_s) (fr : gmap Z frame) (page : Z) (isFreeable : bool) : option (Z * pmm_s * gmap Z frame) :=
  if isFreeable then fr ← kmem_free_page fr page; Some (err, pm, fr) else Some (err, pm, fr).

Definition vmm_do_cow (region : vm_region_s) (pm : pmm_s) (fr : gmap Z frame) (page vaddr cluster : Z) (alloc : option Z) :
    option (Z * pmm_s * gmap Z frame) :=
  info ← pmm_get_page pm vaddr;
  if negb (is_set (attr info) PMM_COW) then Some (0, pm, fr) else
  '(reuse, isFreeable, fr) ← cow_page fr page cluster;
  newpage ← (if (reuse : bool) then Some (Some (page, fr))
             else match alloc with
                  | None => Some None
                  | Some p => fr ← copy_to_new fr p page; Some (Some (p, fr))
                  end);
  match newpage with
  | None => cow_end ENOMEM pm fr page isFreeable
  | Some (newpage, fr) =>
      let a := Z.land (Z.lor (vm_pgprot region) PMM_WRITE) (~! (Z.lor PMM_COW PMM_MIGRATE)) in
      '(err, pm, _) ← pmm_set_page pm vaddr (PageInfo a newpage) None 0;
      cow_end err pm fr page isFreeable
  end.

(** ** Migration *)

Definition vmm_do_migrate (region : vm_region_s) (pm : pmm_s) (fr : gmap Z frame) (pinfo : pmm_page_info) (vaddr cluster : Z) (alloc : option Z) :
    option (Z * pmm_s * gmap Z frame) :=
  let page := ppn pinfo in
  f ← fr !! page;
  current ← pmm_get_page pm vaddr;
  if (ppn current =? ppn pinfo) && is_set (attr current) PMM_MIGRATE then
    '(newpage, a, p, fr) ←
      (if negb (cluster =? cid (desc f)) then
         match alloc with
         | None => Some (None, attr current, ppn current, fr)
         | Some new =>
             fr ← copy_to_new fr new page;
             '(a, fr) ← (if is_set (attr current) PMM_COW then
                           fr ← (if bool_decide (mapper (desc f) = None) && negb (page_refcount_get (desc f) =? 1) then refs_down fr page else Some fr);
                           Some (Z.land (Z.lor (attr current) PMM_WRITE) (~! PMM_COW), fr)
                         else Some (attr current, fr));
             Some (Some new, a, new, fr)
         end
       else Some (None, attr current, ppn current, fr));
    let a := Z.land (Z.lor a PMM_PRESENT) (~! PMM_MIGRATE) in
    '(err, pm, _) ← pmm_set_page pm vaddr (PageInfo a p) None 0;
    fr ← (match newpage with
          | None => Some fr
          | Some new =>
              if negb (err =? 0) then kmem_free_page fr new
              else if negb (is_set (vm_flags region) VM_REG_INST) then kmem_free_page fr page
              else Some fr
          end);
    Some (err, pm, fr)
  else Some (0, pm, fr).

(** ** First accesses *)

(** A page of a file, or of shared memory: [cached] is the answer of [mapper_get_page]. *)
Definition vmm_do_mapped (region : vm_region_s) (pm : pmm_s) (vaddr : Z) (cached talloc : option Z) : option (Z * pmm_s) :=
  match cached with
  | None => Some ((if vm_file region =? 0 then EIO else ENOMEM), pm)
  | Some page =>
      current ← pmm_get_page pm vaddr;
      if attr current =? 0 then
        '(err, pm, _) ← pmm_set_page pm vaddr (PageInfo (vm_pgprot region) page) talloc 0; Some (err, pm)
      else Some (0, pm)
  end.

(** Allocation on demand: a page of zeros.  [talloc] is the answer for the table of the entry. *)
Definition vmm_do_aod (region : vm_region_s) (pm : pmm_s) (fr : gmap Z frame) (vaddr : Z) (alloc talloc : option Z) :
    option (Z * pmm_s * gmap Z frame) :=
  '(err, pm, old, isAtomic) ← pmm_lock_page pm vaddr talloc 0;
  if negb (err =? 0) then Some (err, pm, fr) else
  if negb isAtomic then Some (0, pm, fr) else
  word ← zget (pgdir pm) (MMU_PDE vaddr);
  let table := Z.land word MMU_PPN_MASK in
  match alloc with
  | None => pm ← pmm_unlock_page pm table vaddr; Some (ENOMEM, pm, fr)
  | Some page =>
      fr ← kmem_alloc_page fr page true;
      f ← fr !! page;
      fr ← put_desc fr page (set_mapper (desc f) None);
      '(err, pm, _) ← pmm_set_page pm vaddr (PageInfo (vm_pgprot region) page) None 0;
      if negb (err =? 0) then
        pm ← pmm_unlock_page pm table vaddr; fr ← kmem_free_page fr page; Some (err, pm, fr)
      else Some (0, pm, fr)
  end.

(** ** The fault *)

(** The answers that a fault can ask for: a frame, a table, a page of the mapper *)
Record answers := Answers { a_page : option Z; a_table : option Z; a_cached : option Z }.

Definition vmm_default_pagefault (region : vm_region_s) (pm : pmm_s) (fr : gmap Z frame) (vaddr flags cluster : Z) (ans : answers) :
    option (Z * pmm_s * gmap Z frame) :=
  info ← pmm_get_page pm vaddr;
  if negb (attr info =? 0) && negb (ppn info =? 0) then
    if is_set (attr info) PMM_COW && pmm_except_isWrite flags then vmm_do_cow region pm fr (ppn info) vaddr cluster (a_page ans)
    else if is_set (attr info) PMM_MIGRATE then vmm_do_migrate region pm fr info vaddr cluster (a_page ans)
    else if is_set (attr info) PMM_PRESENT then Some (0, pm, fr)
    else Some (EPERM, pm, fr)
  else if negb (vm_mapper region =? 0) then
    '(err, pm) ← vmm_do_mapped region pm vaddr (a_cached ans) (a_table ans); Some (err, pm, fr)
  else vmm_do_aod region pm fr vaddr (a_page ans) (a_table ans).

Definition vm_region_update (region : vm_region_s) (pm : pmm_s) (fr : gmap Z frame) (vaddr flags cluster : Z) (ans : answers) :
    option (Z * pmm_s * gmap Z frame) :=
  match region_denies region flags with
  | Some err => Some (err, pm, fr)
  | None => vmm_default_pagefault region pm fr vaddr flags cluster ans
  end.

(** ** Duplication, removal, migration of the pages of a region *)

(** The loop of [vm_region_dup] over the pages of a region that is not shared: [talloc] answers for the tables of the child. *)
Fixpoint dup_loop (n : nat) (src dst : pmm_s) (fr : gmap Z frame) (vaddr : Z) (talloc : Z -> option Z) : option (Z * pmm_s * pmm_s * gmap Z frame) :=
  match n with
  | O => Some (0, src, dst, fr)
  | S n =>
      info ← pmm_get_page src vaddr;
      if is_set (attr info) PMM_PRESENT then
        f ← fr !! ppn info;
        let info := PageInfo (Z.land (Z.lor (attr info) PMM_COW) (~! PMM_WRITE)) (ppn info) in
        '(err, dst, _) ← pmm_set_page dst vaddr info (talloc vaddr) 0;
        if negb (err =? 0) then Some (err, src, dst, fr) else
        '(err, src, fr) ← (if bool_decide (mapper (desc f) = None) then
                             '(err, src, _) ← pmm_set_page src vaddr info None 0;
                             if negb (err =? 0) then Some (err, src, fr) else fr ← refs_up fr (ppn info); Some (0, src, fr)
                           else Some (0, src, fr));
        if negb (err =? 0) then Some (err, src, dst, fr) else
        dup_loop n src dst fr (vaddr +! PMM_PAGE_SIZE) talloc
      else dup_loop n src dst fr (vaddr +! PMM_PAGE_SIZE) talloc
  end.

(** The number of pages that the loops on a region visit *)
Definition region_pages (r : vm_region_s) : Z := Z.shiftr (vm_limit r -! vm_start r) PMM_PAGE_SHIFT.

Definition region_dup_pages (r : vm_region_s) (src dst : pmm_s) (fr : gmap Z frame) (talloc : Z -> option Z) : option (Z * pmm_s * pmm_s * gmap Z frame) :=
  dup_loop (Z.to_nat (region_pages r)) src dst fr (vm_start r) talloc.

(** The loop of [vm_region_unmap] *)
Fixpoint unmap_loop (n : nat) (pm : pmm_s) (fr : gmap Z frame) (vaddr : Z) (isLazy : bool) : option (pmm_s * gmap Z frame) :=
  match n with
  | O => Some (pm, fr)
  | S n =>
      info ← pmm_get_page pm vaddr;
      if is_set (attr info) PMM_PRESENT then
        f ← fr !! ppn info;
        pm ← (if isLazy then Some pm else '(_, pm, _) ← pmm_set_page pm vaddr (PageInfo 0 0) None 0; Some pm);
        fr ← (if bool_decide (mapper (desc f) = None) then
                let '(refcount, d) := page_refcount_down (desc f) in
                fr ← put_desc fr (ppn info) d;
                if refcount =? 1 then fr ← refs_up fr (ppn info); kmem_free_page fr (ppn info) else Some fr
              else Some fr);
        unmap_loop n pm fr (vaddr +! PMM_PAGE_SIZE) isLazy
      else unmap_loop n pm fr (vaddr +! PMM_PAGE_SIZE) isLazy
  end.
Definition vm_region_unmap (r : vm_region_s) (pm : pmm_s) (fr : gmap Z frame) : option (pmm_s * gmap Z frame) :=
  unmap_loop (Z.to_nat (region_pages r)) pm fr (vm_start r) (is_set (vm_flags r) VM_REG_LAZY).

(** [vmm_madvise_migrate] *)
Fixpoint migrate_loop (n : nat) (pm : pmm_s) (vaddr : Z) : option pmm_s :=
  match n with
  | O => Some pm
  | S n =>
      info ← pmm_get_page pm vaddr;
      pm ← (if is_set (attr info) PMM_PRESENT then
              '(_, pm, _) ← pmm_set_page pm vaddr (PageInfo (Z.lor (Z.land (attr info) (~! PMM_PRESENT)) PMM_MIGRATE) (ppn info)) None 0; Some pm
            else Some pm);
      migrate_loop n pm (vaddr +! PMM_PAGE_SIZE)
  end.
Definition vmm_madvise_migrate (pm : pmm_s) (start len : Z) : option pmm_s :=
  migrate_loop (Z.to_nat (Z.shiftr (ARROUND_UP len PMM_PAGE_SIZE) PMM_PAGE_SHIFT)) pm start.

(** ** Pages of shared memory *)

Definition vmm_inval_shared_page (pm : pmm_s) (vaddr p : Z) : option (Z * pmm_s) :=
  current ← pmm_get_page pm vaddr;
  if negb (ppn current =? p) then Some (0, pm)
  else '(err, pm, _) ← pmm_set_page pm vaddr (PageInfo 0 0) None 0; Some (err, pm).
Definition vmm_update_shared_page (region : vm_region_s) (pm : pmm_s) (vaddr p : Z) (talloc : option Z) : option (Z * pmm_s) :=
  current ← pmm_get_page pm vaddr;
  if negb (attr current =? 0) then Some (0, pm)
  else '(err, pm, _) ← pmm_set_page pm vaddr (PageInfo (vm_pgprot region) p) talloc 0; Some (err, pm).

(** ** Heap and removal of mappings *)

(** [vmm_sbrk]: the error and the new limit of the region of the heap *)
Definition vmm_sbrk (heap_current limit current size : Z) : Z * Z :=
  if current <? heap_current then (EAGAIN, limit)
  else if CONFIG_TASK_HEAP_MAX_SIZE <? heap_current +! size then (ENOMEM, limit)
  else (0, limit +! size).

(** What [vmm_do_munmap] calls *)
Inductive munmap_call := Detach | Split | Resize (start limit : Z).
Definition vmm_do_munmap (r : vm_region_s) (addr length : Z) : munmap_call :=
  let addr_limit := addr +! length in
  if (vm_start r =? addr) && (vm_limit r =? addr_limit) then Detach
  else if (vm_start r <=? addr) && (addr_limit <? vm_limit r) then Split
  else if vm_limit r <? addr_limit then Resize addr (vm_limit r)
  else Resize (vm_start r) addr_limit.
