(* ===== verification/FaultInv.v ===== *)
(** * FaultInv: entries, frames and reference counts

    The page tables of all the tasks are seen as one function from tasks and virtual pages to entries.  The invariant ties the entries to the
    frames: a frame without mapper counts its entries, and an entry that allows writing is the only one of its frame. *)

From S2P Require Import Prelude Bits ListH Page Rbtree Pmm PmmSpec VmRegion Fault.

Notation entries := (Z -> Z -> pmm_page_info).

#[export] Instance page_info_eq_dec : EqDecision pmm_page_info.
Proof. solve_decision. Defined.

Definition no_entry : pmm_page_info := PageInfo 0 0.
Definition upd (e : entries) (t n : Z) (i : pmm_page_info) : entries :=
  fun t' n' => if bool_decide (t' = t /\ n' = n) then i else e t' n'.

Lemma upd_same e t n i : upd e t n i t n = i.
Proof. unfold upd. rewrite bool_decide_eq_true_2; done. Qed.
Lemma upd_diff e t n i t' n' : (t', n') <> (t, n) -> upd e t n i t' n' = e t' n'.
Proof. intros H. unfold upd. rewrite bool_decide_eq_false_2; [done|]. intros [-> ->]. done. Qed.

(** ** Invariant *)

Notation present i := (is_set (attr i) PMM_PRESENT = true).

(** The bits of an entry for which the code has other uses *)
Definition plain_attr (a : Z) : Prop :=
  is_set a PMM_HUGE = false /\ is_set a PMM_CLEAR = false /\ is_set a PMM_MIGRATE = false /\ is_set a PMM_LOCKED = false.

Record entry_ok (fr : gmap Z frame) (i : pmm_page_info) : Prop := {
  e_present : present i;
  e_plain : plain_attr (attr i);
  e_ppn : 0 < ppn i < 2 ^ 28;
  e_frame : exists f, fr !! ppn i = Some f /\ state (desc f) <> PGFREE /\
    (is_set (attr i) PMM_WRITE = true -> mapper (desc f) = None /\ count (desc f) = 1);
  e_cow : is_set (attr i) PMM_WRITE = false \/ is_set (attr i) PMM_COW = false;
}.

(** [c] is the number of entries of the frame [p]. *)
Definition counted (e : entries) (p c : Z) : Prop :=
  exists s : gset (Z * Z), (forall t n, (t, n) ∈ s <-> e t n <> no_entry /\ ppn (e t n) = p) /\ c = Z.of_nat (size s) /\ c < 2 ^ 32.

Record frames_inv (fr : gmap Z frame) (e : entries) : Prop := {
  f_entry : forall t n, e t n = no_entry \/ entry_ok fr (e t n);
  f_count : forall t n f, e t n <> no_entry -> fr !! ppn (e t n) = Some f -> mapper (desc f) = None ->
    counted e (ppn (e t n)) (count (desc f));
}.

(** What a task finds at a virtual page: nothing before the first access, then the words of its frame *)
Definition view (fr : gmap Z frame) (e : entries) (t n : Z) : option (list Z) :=
  if bool_decide (e t n = no_entry) then None else words <$> fr !! ppn (e t n).

Lemma view_ext fr e e' : (forall t n, e t n = e' t n) -> forall t n, view fr e t n = view fr e' t n.
Proof. intros He t n. unfold view. rewrite He. done. Qed.
Lemma frames_inv_ext fr e e' : (forall t n, e t n = e' t n) -> frames_inv fr e -> frames_inv fr e'.
Proof.
  intros He [H1 H2]. split; intros t n; rewrite <- He; [done|]. intros f Hn Hf Hm. destruct (H2 t n f Hn Hf Hm) as (s & Hs & Hc).
  exists s. split; [|done]. intros a b. rewrite <- He. apply Hs.
Qed.

(** A frame that the allocator may give *)
Definition free_frame (fr : gmap Z frame) (q : Z) : Prop :=
  0 < q < 2 ^ 28 /\ exists f, fr !! q = Some f /\ state (desc f) = PGFREE /\ count (desc f) = 0.

Section Inv.
Context (fr : gmap Z frame) (e : entries) (Hinv : frames_inv fr e).

Lemma entry_not_none i : entry_ok fr i -> i <> no_entry.
Proof. intros [H _ _ _ _] ->. done. Qed.

Lemma entry_frame t n : e t n <> no_entry -> exists f, fr !! ppn (e t n) = Some f /\ state (desc f) <> PGFREE.
Proof. intros H. destruct (f_entry _ _ Hinv t n) as [|[_ _ _ (f & Hf & Hs & _) _]]; [done|eauto]. Qed.

(** No entry has a free frame. *)
Lemma free_unmapped q t n : free_frame fr q -> e t n <> no_entry -> ppn (e t n) <> q.
Proof. intros (_ & f & Hf & Hs & _) H Heq. destruct (entry_frame t n H) as (g & Hg & Hgs). congruence. Qed.

(** A count of 1: the only entry *)
Lemma count_one t n t' n' : counted e (ppn (e t n)) 1 -> e t n <> no_entry -> e t' n' <> no_entry -> ppn (e t' n') = ppn (e t n) ->
  (t', n') = (t, n).
Proof.
  intros (s & Hs & Hc & _) H H' Hp. assert (size s = 1%nat) as H1 by lia. apply size_1_elem_of in H1 as [x Hx].
  assert ((t, n) ∈ s) by (apply Hs; done). assert ((t', n') ∈ s) by (apply Hs; done). set_solver.
Qed.
Lemma count_pos t n c : counted e (ppn (e t n)) c -> e t n <> no_entry -> 1 <= c < 2 ^ 32.
Proof.
  intros (s & Hs & -> & Hb) H. split; [|done]. assert (Hel : (t, n) ∈ s) by (apply Hs; done).
  destruct (decide (size s = 0%nat)) as [Hz|]; [|lia]. apply size_empty_inv in Hz. set_solver.
Qed.

Lemma none_entry_elem c p t n i : counted e p c -> e t n = no_entry -> i <> no_entry -> ppn i <> p -> counted (upd e t n i) p c.
Proof.
  intros (s & Hs & Hc) He Hi Hp. exists s. split; [|done]. intros t' n'. rewrite Hs.
  destruct (decide ((t', n') = (t, n))) as [[= -> ->]|Hne]; [rewrite upd_same, He; split; [intros [? _]; done|intros [_ ?]; done]|rewrite upd_diff by done; done].
Qed.
End Inv.

(** ** Removing an entry *)

Definition freed (f : frame) : frame := Frame (set_state (set_count (desc f) 0) PGFREE) (words f).
Definition with_count (f : frame) (c : Z) : frame := Frame (set_count (desc f) c) (words f).

(** The frame of an entry that goes away *)
Definition dropped (f : frame) : frame :=
  match mapper (desc f) with
  | Some _ => f
  | None => if count (desc f) =? 1 then freed f else with_count f (count (desc f) - 1)
  end.

Lemma dropped_words f : words (dropped f) = words f.
Proof. unfold dropped. destruct (mapper (desc f)); [done|]. destruct (count (desc f) =? 1); done. Qed.

Section Drop.
Context (fr : gmap Z frame) (e : entries) (t n : Z) (f : frame).
Context (Hinv : frames_inv fr e) (Hin : e t n <> no_entry) (Hf : fr !! ppn (e t n) = Some f).
Notation p := (ppn (e t n)).

(** The other entries of the same frame *)
Lemma drop_others t' n' : (t', n') <> (t, n) -> e t' n' <> no_entry -> ppn (e t' n') = p -> mapper (desc f) = None ->
  (count (desc f) =? 1) = false /\ is_set (attr (e t' n')) PMM_WRITE = false.
Proof.
  intros Hne H Hp Hm. pose proof (f_count _ _ Hinv t n f Hin Hf Hm) as Hc.
  assert (Hn1 : count (desc f) <> 1).
  { intros H1. apply Hne. rewrite H1 in Hc. eapply count_one; eauto. }
  split; [apply Z.eqb_neq; done|]. destruct (is_set (attr (e t' n')) PMM_WRITE) eqn:Hw; [|done].
  destruct (f_entry _ _ Hinv t' n') as [|[_ _ _ (g & Hg & _ & Hw1) _]]; [done|]. rewrite Hp, Hf in Hg. injection Hg as <-.
  destruct (Hw1 Hw). done.
Qed.

Lemma drop_entry : frames_inv (<[p := dropped f]> fr) (upd e t n no_entry).
Proof.
  assert (Hc : mapper (desc f) = None -> counted e p (count (desc f))) by (apply (f_count _ _ Hinv); done).
  split.
  - intros t' n'. destruct (decide ((t', n') = (t, n))) as [[= -> ->]|Hne]; [rewrite upd_same; auto|]. rewrite upd_diff by done.
    destruct (f_entry _ _ Hinv t' n') as [|Hok]; [auto|]. pose proof (entry_not_none _ _ Hok) as Hnn. right.
    pose proof Hok as [H1 H2 H3 (g & Hg & Hs & Hw) H5]. split; try done.
    destruct (decide (ppn (e t' n') = p)) as [Hp|Hp]; [|exists g; rewrite lookup_insert_ne by done; done].
    rewrite Hp, lookup_insert_eq. rewrite Hp, Hf in Hg. injection Hg as <-. eexists. split; [done|]. unfold dropped.
    destruct (mapper (desc f)) eqn:Hm; [rewrite Hm; done|].
    destruct (drop_others t' n' Hne Hnn Hp Hm) as [-> Hnw]. split; [done|]. rewrite Hnw. done.
  - intros t' n' g. destruct (decide ((t', n') = (t, n))) as [[= -> ->]|Hne]; [rewrite upd_same; done|]. rewrite upd_diff by done. intros Hnn Hg Hm.
    destruct (decide (ppn (e t' n') = p)) as [Hp|Hp].
    + rewrite Hp in *. rewrite lookup_insert_eq in Hg. injection Hg as <-. unfold dropped in *.
      destruct (mapper (desc f)) eqn:Hmf; [congruence|]. destruct (drop_others t' n' Hne Hnn Hp Hmf) as [Hc1 _]. rewrite Hc1.
      destruct (Hc eq_refl) as (s & Hs & Hsz & Hb). exists (s ∖ {[ (t, n) ]}). split_and!.
      * intros a b. rewrite elem_of_difference, elem_of_singleton, Hs.
        destruct (decide ((a, b) = (t, n))) as [[= -> ->]|Hne']; [rewrite upd_same; tauto|rewrite upd_diff by done; tauto].
      * assert ((t, n) ∈ s) by (apply Hs; done). rewrite size_difference, size_singleton by set_solver.
        assert (size s <> 0)%nat by (intros H0%size_empty_inv; set_solver). simpl. lia.
      * simpl. lia.
    + rewrite lookup_insert_ne in Hg by done. destruct (f_count _ _ Hinv t' n' g Hnn Hg Hm) as (s & Hs & Hsz). exists s. split; [|done].
      intros a b. rewrite Hs. destruct (decide ((a, b) = (t, n))) as [[= -> ->]|Hne']; [|rewrite upd_diff by done; done].
      rewrite upd_same. split; [intros [_ H]; congruence|intros [H _]; done].
Qed.

Lemma drop_view t' n' : view (<[p := dropped f]> fr) (upd e t n no_entry) t' n' =
  if bool_decide ((t', n') = (t, n)) then None else view fr e t' n'.
Proof.
  unfold view. destruct (decide ((t', n') = (t, n))) as [[= -> ->]|Hne].
  - rewrite upd_same, !bool_decide_eq_true_2 by done. done.
  - rewrite upd_diff, (bool_decide_eq_false_2 (_ = (t, n))) by done. destruct (bool_decide (e t' n' = no_entry)); [done|].
    destruct (decide (ppn (e t' n') = p)) as [Hp|Hp]; [|rewrite lookup_insert_ne by done; done].
    rewrite Hp, lookup_insert_eq, Hf. simpl. rewrite dropped_words. done.
Qed.

(** A free frame stays free. *)
Lemma drop_free q : free_frame fr q -> free_frame (<[p := dropped f]> fr) q.
Proof.
  intros Hq. pose proof (free_unmapped _ _ Hinv q t n Hq Hin) as Hne. destruct Hq as (Hr & g & Hg & Hs). split; [done|].
  exists g. rewrite lookup_insert_ne by done. done.
Qed.
End Drop.

(** ** Adding an entry *)

Section Add.
Context (fr : gmap Z frame) (e : entries) (t n : Z) (i : pmm_page_info).
Context (Hinv : frames_inv fr e) (Hnone : e t n = no_entry).

Lemma add_view fr' t' n' : i <> no_entry ->
  (forall a b, e a b <> no_entry -> words <$> fr' !! ppn (e a b) = words <$> fr !! ppn (e a b)) ->
  view fr' (upd e t n i) t' n' = if bool_decide ((t', n') = (t, n)) then words <$> fr' !! ppn i else view fr e t' n'.
Proof.
  intros Hi Hw. unfold view. destruct (decide ((t', n') = (t, n))) as [[= -> ->]|Hne].
  - rewrite upd_same, (bool_decide_eq_false_2 (i = _)), bool_decide_eq_true_2 by done. done.
  - rewrite upd_diff, (bool_decide_eq_false_2 (_ = (t, n))) by done.
    destruct (decide (e t' n' = no_entry)) as [->|Hnn]; [done|]. rewrite !bool_decide_eq_false_2 by done. apply Hw. done.
Qed.

(** With a frame of its own *)
Lemma add_entry q g : free_frame fr q -> ppn i = q -> present i -> plain_attr (attr i) ->
  (is_set (attr i) PMM_WRITE = false \/ is_set (attr i) PMM_COW = false) ->
  mapper (desc g) = None -> count (desc g) = 1 -> state (desc g) <> PGFREE ->
  frames_inv (<[q := g]> fr) (upd e t n i).
Proof.
  intros Hq Hp Hpr Hpl Hcow Hm Hc Hs. subst q. assert (Hi : i <> no_entry) by (intros ->; done).
  assert (Hothers : forall t' n', e t' n' <> no_entry -> ppn (e t' n') <> ppn i) by (intros; eapply free_unmapped; done).
  split.
  - intros t' n'. destruct (decide ((t', n') = (t, n))) as [[= -> ->]|Hne].
    + rewrite upd_same. right. split; try done; [apply Hq|]. exists g. rewrite lookup_insert_eq. done.
    + rewrite upd_diff by done. destruct (f_entry _ _ Hinv t' n') as [|Hok]; [auto|right]. pose proof (entry_not_none _ _ Hok) as Hnn.
      destruct Hok as [H1 H2 H3 (h & Hh & Hr) H5]. split; try done. exists h. rewrite lookup_insert_ne by (apply not_eq_sym, Hothers; done). done.
  - intros t' n' h Hnn Hh Hmh. destruct (decide ((t', n') = (t, n))) as [[= -> ->]|Hne].
    + rewrite upd_same in *. rewrite lookup_insert_eq in Hh. injection Hh as <-. rewrite Hc. exists {[ (t, n) ]}. rewrite size_singleton. split_and!; [|done|done].
      intros a b. rewrite elem_of_singleton. destruct (decide ((a, b) = (t, n))) as [[= -> ->]|Hne']; [rewrite upd_same; done|].
      rewrite upd_diff by done. split; [done|]. intros [H1 H2]. destruct (Hothers a b H1 H2).
    + rewrite upd_diff in * by done. rewrite lookup_insert_ne in Hh by (apply not_eq_sym, Hothers; done).
      apply none_entry_elem; [eapply f_count; done|done|done|apply not_eq_sym, Hothers; done].
Qed.

(** With the frame of a mapper *)
Lemma add_cached f : entry_ok fr i -> fr !! ppn i = Some f -> mapper (desc f) <> None -> frames_inv fr (upd e t n i).
Proof.
  intros Hok Hf Hm. pose proof (entry_not_none _ _ Hok) as Hi. split.
  - intros t' n'. destruct (decide ((t', n') = (t, n))) as [[= -> ->]|Hne]; [rewrite upd_same; auto|rewrite upd_diff by done; apply Hinv].
  - intros t' n' h Hnn Hh Hmh. destruct (decide ((t', n') = (t, n))) as [[= -> ->]|Hne]; [rewrite upd_same in *; congruence|].
    rewrite upd_diff in * by done. apply none_entry_elem; [eapply f_count; done|done|done|]. intros Heq. rewrite <- Heq in Hh. congruence.
Qed.

(** With a frame that is shared, none of whose entries allows writing *)
Lemma add_shared f : fr !! ppn i = Some f -> entry_ok fr i -> mapper (desc f) = None -> is_set (attr i) PMM_WRITE = false ->
  (forall t' n', e t' n' <> no_entry -> ppn (e t' n') = ppn i -> is_set (attr (e t' n')) PMM_WRITE = false) ->
  counted e (ppn i) (count (desc f)) -> count (desc f) + 1 < 2 ^ 32 ->
  frames_inv (<[ppn i := with_count f (count (desc f) + 1)]> fr) (upd e t n i).
Proof.
  intros Hf Hok Hm Hwi Hw Hcnt Hb. pose proof (entry_not_none _ _ Hok) as Hi.
  assert (Hlift : forall j, entry_ok fr j -> (ppn j = ppn i -> is_set (attr j) PMM_WRITE = false) ->
     entry_ok (<[ppn i := with_count f (count (desc f) + 1)]> fr) j).
  { intros j [H1 H2 H3 (h & Hh & Hs & Hr) H5] Hj. split; try done. destruct (decide (ppn j = ppn i)) as [Hp|Hp].
    - rewrite Hp, lookup_insert_eq. rewrite Hp, Hf in Hh. injection Hh as <-. eexists. split; [done|]. split; [done|]. rewrite Hj; done.
    - exists h. rewrite lookup_insert_ne by done. done. }
  split.
  - intros t' n'. destruct (decide ((t', n') = (t, n))) as [[= -> ->]|Hne]; [rewrite upd_same; auto|]. rewrite upd_diff by done.
    destruct (f_entry _ _ Hinv t' n') as [|Hok']; [auto|right]. apply Hlift; [done|]. intros Hp. apply Hw; [eapply entry_not_none; done|done].
  - assert (Hcnt' : counted (upd e t n i) (ppn i) (count (desc f) + 1)).
    { destruct Hcnt as (s & Hs & Hsz & _). exists (s ∪ {[ (t, n) ]}). split_and!; [|rewrite size_union, size_singleton|done].
      - intros a b. rewrite elem_of_union, elem_of_singleton, Hs. destruct (decide ((a, b) = (t, n))) as [[= -> ->]|Hne]; [rewrite upd_same; tauto|].
        rewrite upd_diff by done. tauto.
      - lia.
      - apply disjoint_singleton_r. rewrite Hs, Hnone. tauto. }
    intros t' n' h Hnn Hh Hmh. destruct (decide ((t', n') = (t, n))) as [[= -> ->]|Hne].
    + rewrite upd_same in *. rewrite lookup_insert_eq in Hh. injection Hh as <-. done.
    + rewrite upd_diff in * by done. destruct (decide (ppn (e t' n') = ppn i)) as [Hp|Hp].
      * rewrite Hp in *. rewrite lookup_insert_eq in Hh. injection Hh as <-. done.
      * rewrite lookup_insert_ne in Hh by done. apply none_entry_elem; [eapply f_count; done|done|done|done].
Qed.
End Add.

(** ** Changing the attributes of an entry *)

Lemma counted_reprotect e t n i p c : e t n <> no_entry -> i <> no_entry -> ppn i = ppn (e t n) -> counted e p c -> counted (upd e t n i) p c.
Proof.
  intros Hin Hi Hp (s & Hs & Hc). exists s. split; [|done]. intros a b. rewrite Hs.
  destruct (decide ((a, b) = (t, n))) as [[= -> ->]|Hne]; [rewrite upd_same, Hp; tauto|rewrite upd_diff by done; done].
Qed.

Lemma reprotect_entry fr e t n i : frames_inv fr e -> e t n <> no_entry -> entry_ok fr i -> ppn i = ppn (e t n) ->
  frames_inv fr (upd e t n i) /\ forall t' n', view fr (upd e t n i) t' n' = view fr e t' n'.
Proof.
  intros Hinv Hin Hok Hp. pose proof (entry_not_none _ _ Hok) as Hi. split; [split|].
  - intros t' n'. destruct (decide ((t', n') = (t, n))) as [[= -> ->]|Hne]; [rewrite upd_same; auto|rewrite upd_diff by done; apply Hinv].
  - intros t' n' h Hnn Hh Hm. destruct (decide ((t', n') = (t, n))) as [[= -> ->]|Hne].
    + rewrite upd_same in *. rewrite Hp in *. apply counted_reprotect; try done. eapply f_count; done.
    + rewrite upd_diff in * by done. apply counted_reprotect; try done. eapply f_count; done.
  - intros t' n'. unfold view. destruct (decide ((t', n') = (t, n))) as [[= -> ->]|Hne]; [|rewrite upd_diff by done; done].
    rewrite upd_same, Hp, !bool_decide_eq_false_2 by done. done.
Qed.
