(* ===== verification/FaultTables.v ===== *)
(** * FaultTables: the page tables of the tasks as a function from virtual pages to entries *)

From S2P Require Import Prelude Bits ListH Page Rbtree Pmm PmmSpec VmRegion Fault FaultInv.

(** ** User space *)

Definition user (u : Z) : Prop := 0 <= u < CONFIG_KERNEL_OFFSET.

Lemma user_u32 u : user u -> is_u32 u.
Proof. unfold user, is_u32, CONFIG_KERNEL_OFFSET. lia. Qed.

(** An address space without huge pages for its task *)
Definition space_ok (pm : pmm_s) : Prop := pmm_wf pm /\ forall u, user u -> small_slot pm u.

(** The entries of one space *)
Definition space_entries (pm : pmm_s) (e : Z -> pmm_page_info) : Prop :=
  space_ok pm /\ forall u, user u -> pmm_get_page pm u = Some (e (vpn u)).

Definition upd1 (e : Z -> pmm_page_info) (n : Z) (i : pmm_page_info) : Z -> pmm_page_info :=
  fun n' => if n' =? n then i else e n'.

(** ** The directory after a store *)

Lemma store_pte_dir pm table vaddr i v pm' : store_pte pm table vaddr i v = Some pm' -> pgdir pm' = pgdir pm.
Proof.
  unfold store_pte. destruct (tables pm !! table) as [t|]; [|done]. simpl. destruct (zget t _); [|done]. intros [= <-]. done.
Qed.

(** The directories differ by a new table for [vaddr] at most. *)
Definition dir_grows (pm pm' : pmm_s) (vaddr : Z) (alloc : option Z) : Prop :=
  (zget (pgdir pm) (MMU_PDE vaddr) <> Some 0 /\ pgdir pm' = pgdir pm) \/
  zget (pgdir pm) (MMU_PDE vaddr) = Some 0 /\ exists p, alloc = Some p /\ pgdir pm' = zset (pgdir pm) (MMU_PDE vaddr) (Z.lor (Z.lor PMM_PRESENT MMU_PTD1) p).

Lemma set_page_dir pm vaddr info alloc pm' : is_set (attr info) PMM_HUGE = false ->
  pmm_set_page pm vaddr info alloc 0 = Some (0, pm', None) -> dir_grows pm pm' vaddr alloc.
Proof.
  intros Hh. unfold pmm_set_page. destruct (zget (pgdir pm) (MMU_PDE vaddr)) as [v|] eqn:Hv; [|done]. cbn [mbind option_bind]. rewrite Hh.
  destruct (if is_set (attr info) PMM_CLEAR then _ else _) as [a p]. destruct (Z.eqb_spec v 0) as [->|].
  - destruct alloc as [q|]; [|done]. cbn [install_table Z.eqb negb].
    destruct (store_pte _ _ _ 0 _) as [pm1|] eqn:E1; [|done]. cbn [mbind option_bind]. destruct (store_pte pm1 _ _ 1 _) as [pm2|] eqn:E2; [|done].
    intros [= <-]. right. split; [done|]. exists q. split; [done|]. rewrite (store_pte_dir _ _ _ _ _ _ E2), (store_pte_dir _ _ _ _ _ _ E1). done.
  - cbn [Z.eqb negb]. destruct (store_pte _ _ _ 0 _) as [pm1|] eqn:E1; [|done]. cbn [mbind option_bind].
    destruct (store_pte pm1 _ _ 1 _) as [pm2|] eqn:E2; [|done].
    intros [= <-]. left. split; [congruence|]. rewrite (store_pte_dir _ _ _ _ _ _ E2), (store_pte_dir _ _ _ _ _ _ E1). done.
Qed.

Lemma grows_word pm pm' vaddr alloc : dir_grows pm pm' vaddr alloc -> user vaddr -> zlen (pgdir pm) = 2048 ->
  (forall p, zget (pgdir pm) (MMU_PDE vaddr) = Some 0 -> alloc = Some p -> 0 <= p < 2 ^ 28) -> zget (pgdir pm') (MMU_PDE vaddr) <> Some 0.
Proof.
  intros Hg Hv Hl Hp. pose proof (pde_bound _ (user_u32 _ Hv)). destruct Hg as [[? ->]|(Hz & p & Ha & ->)]; [done|].
  rewrite zget_zset_eq by lia. intros [= H0]. destruct (table_word p (Hp p Hz Ha)) as [H1 _]. done.
Qed.

Lemma grows_small pm pm' vaddr alloc u : dir_grows pm pm' vaddr alloc -> user vaddr -> user u -> zlen (pgdir pm) = 2048 ->
  (forall p, zget (pgdir pm) (MMU_PDE vaddr) = Some 0 -> alloc = Some p -> 0 <= p < 2 ^ 28) -> small_slot pm u -> small_slot pm' u.
Proof.
  intros Hg Hv Hu Hl Hp (w & Hw & Hk). pose proof (pde_bound _ (user_u32 _ Hv)). pose proof (pde_bound _ (user_u32 _ Hu)).
  destruct Hg as [[_ E]|(Hz & p & Ha & E)]; unfold small_slot; rewrite E; [eauto|].
  destruct (decide (MMU_PDE u = MMU_PDE vaddr)) as [->|Hne].
  - exists (Z.lor (Z.lor PMM_PRESENT MMU_PTD1) p). rewrite zget_zset_eq by lia. split; [done|right].
    destruct (table_word p (Hp p Hz Ha)) as (_ & H31 & H30 & _). done.
  - rewrite zget_zset_ne by lia. eauto.
Qed.

(** A page that is no table stays so, unless it is the new one. *)
Lemma grows_not_table pm pm' vaddr alloc q : dir_grows pm pm' vaddr alloc -> user vaddr -> zlen (pgdir pm) = 2048 ->
  (forall p, zget (pgdir pm) (MMU_PDE vaddr) = Some 0 -> alloc = Some p -> 0 <= p < 2 ^ 28 /\ p <> q) -> not_a_table pm q -> not_a_table pm' q.
Proof.
  intros Hg Hv Hl Hp Hq. pose proof (pde_bound _ (user_u32 _ Hv)). destruct Hg as [[_ E]|(Hz & p & Ha & E)]; unfold not_a_table; rewrite E; [done|].
  intros i w Hi Hw Ht. destruct (Hp p Hz Ha) as [Hr Hne]. destruct (decide (i = MMU_PDE vaddr)) as [->|Hni].
  - rewrite zget_zset_eq in Hw by lia. injection Hw as <-. destruct (table_word p Hr) as (_ & _ & _ & ->). done.
  - rewrite zget_zset_ne in Hw by lia. eapply Hq; done.
Qed.

(** ** Writing an entry *)

Section Entry.
Context (pm : pmm_s) (e : Z -> pmm_page_info) (vaddr : Z).
Context (Hsp : space_entries pm e) (Hu : user vaddr).

(** An entry that is not empty has a table. *)
Lemma entry_table : e (vpn vaddr) <> no_entry -> zget (pgdir pm) (MMU_PDE vaddr) <> Some 0.
Proof.
  intros H H0. apply H. destruct Hsp as [_ Hg]. pose proof (Hg vaddr Hu) as Hgv. rewrite (get_unmapped _ _ H0) in Hgv. injection Hgv as <-. done.
Qed.

Lemma set_entry info alloc : is_set (attr info) PMM_HUGE = false -> is_set (attr info) PMM_CLEAR = false -> 0 <= ppn info < 2 ^ 28 ->
  (forall p, zget (pgdir pm) (MMU_PDE vaddr) = Some 0 -> alloc = Some p -> 0 <= p < 2 ^ 28 /\ not_a_table pm p) ->
  (zget (pgdir pm) (MMU_PDE vaddr) = Some 0 /\ alloc = None /\ pmm_set_page pm vaddr info alloc 0 = Some (ENOMEM, pm, None)) \/
  exists pm', pmm_set_page pm vaddr info alloc 0 = Some (0, pm', None) /\ space_entries pm' (upd1 e (vpn vaddr) info) /\
    zget (pgdir pm') (MMU_PDE vaddr) <> Some 0 /\ dir_grows pm pm' vaddr alloc.
Proof.
  intros Hh Hc Hp Ha. pose proof Hsp as [[Hwf Hsm] Hg].
  assert (Ealloc : exists alloc', pmm_set_page pm vaddr info alloc 0 = pmm_set_page pm vaddr info alloc' 0 /\
     (zget (pgdir pm) (MMU_PDE vaddr) = Some 0 -> alloc' = alloc) /\ (alloc' = alloc \/ alloc' = None) /\
     forall p, alloc' = Some p -> 0 <= p < 2 ^ 28 /\ not_a_table pm p).
  { destruct (zget (pgdir pm) (MMU_PDE vaddr)) as [v|] eqn:Hv; [|exists None; unfold pmm_set_page; rewrite Hv; split_and!; auto; done].
    destruct (decide (v = 0)) as [->|H0]; [exists alloc; split_and!; auto|]. exists None. split_and!; [|intros [= ->]; done|auto|done].
    unfold pmm_set_page. rewrite Hv. cbn [mbind option_bind]. destruct (Z.eqb_spec v 0); [done|]. done. }
  destruct Ealloc as (alloc' & -> & Hsame & Hor & Hfresh).
  destruct (set_small pm vaddr info alloc') as [(Hz & -> & Hres)|(pm' & E & Hwf' & Hs' & Hget)]; try done;
    [apply user_u32; done|apply Hsm; done|left; rewrite <- (Hsame Hz); done|right].
  assert (Hd : dir_grows pm pm' vaddr alloc).
  { destruct (set_page_dir _ _ _ _ _ Hh E) as [H|(Hz & p & Hap & Ed)]; [left; done|right]. split; [done|]. exists p. rewrite <- Hsame; done. }
  assert (Hrange : forall p, zget (pgdir pm) (MMU_PDE vaddr) = Some 0 -> alloc = Some p -> 0 <= p < 2 ^ 28) by (intros p Hz Hp'; apply Ha; done).
  exists pm'. split_and!; [done|split; [split; [done|]|]| |done].
  - intros u Huu. eapply grows_small; try done; [apply Hwf|apply Hsm; done].
  - intros u Huu. rewrite Hget by (apply user_u32; done). unfold upd1, stored. rewrite Hc. destruct (vpn u =? vpn vaddr); [done|apply Hg; done].
  - eapply grows_word; [done|done|apply Hwf|done].
Qed.

(** The words of an entry that has a table *)
Lemma entry_words v : zget (pgdir pm) (MMU_PDE vaddr) = Some v -> v <> 0 ->
  exists p, load_pte pm (Z.land v MMU_PPN_MASK) vaddr 0 = Some (attr (e (vpn vaddr))) /\
    load_pte pm (Z.land v MMU_PPN_MASK) vaddr 1 = Some p /\ Z.land p MMU_PPN_MASK = ppn (e (vpn vaddr)) /\ to_table v.
Proof.
  intros Hv H0. pose proof Hsp as [[Hwf Hsm] Hg]. destruct (Hsm vaddr Hu) as (w & Hw & [->|Ht]); [congruence|].
  assert (w = v) as -> by congruence. pose proof (pde_bound _ (user_u32 _ Hu)) as Hpde.
  destruct (wf_table _ Hwf _ _ (proj1 Hpde) Hv Ht) as (t & Htb & Htl). pose proof (Hg vaddr Hu) as Hgv. rewrite (get_table _ _ _ _ Hv Ht Htb) in Hgv.
  pose proof (slot_bound vaddr). destruct (zget_is_Some t (slot vaddr)) as [a Ha]; [lia|]. destruct (zget_is_Some t (slot vaddr + 1)) as [p Hp]; [lia|].
  rewrite Ha, Hp in Hgv. simpl in Hgv. injection Hgv as Hgv. exists p. unfold load_pte. rewrite Htb. cbn [mbind option_bind].
  rewrite pte_slot, Z.add_0_r, Ha, Hp, <- Hgv. done.
Qed.

(** A store to the attributes alone *)
Lemma store_attr v a : zget (pgdir pm) (MMU_PDE vaddr) = Some v -> v <> 0 ->
  exists pm', store_pte pm (Z.land v MMU_PPN_MASK) vaddr 0 a = Some pm' /\ pgdir pm' = pgdir pm /\
    space_entries pm' (upd1 e (vpn vaddr) (PageInfo a (ppn (e (vpn vaddr))))).
Proof.
  intros Hv H0. destruct (entry_words v Hv H0) as (p & La & Lp & Hp & Ht). pose proof Hsp as [[Hwf Hsm] Hg].
  pose proof (pde_bound _ (user_u32 _ Hu)) as Hpde. destruct (wf_table _ Hwf _ _ (proj1 Hpde) Hv Ht) as (t & Htb & Htl).
  pose proof (slot_bound vaddr) as Hs. unfold load_pte in La, Lp. rewrite Htb in La, Lp. cbn [mbind option_bind] in La, Lp.
  rewrite pte_slot in Lp. rewrite pte_slot, Z.add_0_r in La. unfold store_pte. rewrite Htb. cbn [mbind option_bind]. rewrite pte_slot, Z.add_0_r, La. cbn [mbind option_bind].
  destruct (entry_written pm vaddr v (zset t (slot vaddr) a) a p) as [Hwf' Hget'];
    [done|apply user_u32; done|done|done|rewrite zlen_zset; done|..].
  { intros t0 Ht0 j Hj. assert (t0 = t) as -> by congruence. destruct (Z.eqb_spec j (slot vaddr)) as [->|Hj1]; [apply zget_zset_eq; lia|].
    destruct (Z.eqb_spec j (slot vaddr + 1)) as [->|Hj2]; rewrite zget_zset_ne by lia; done. }
  eexists. split; [done|]. split; [done|]. split; [split; [done|exact Hsm]|]. intros u Huu. rewrite Hget' by (apply user_u32; done).
  unfold upd1. destruct (vpn u =? vpn vaddr); [rewrite Hp; done|apply Hg; done].
Qed.
End Entry.

(** ** The lock of an entry *)

Lemma upd1_upd1 e n i j : forall n', upd1 (upd1 e n i) n j n' = upd1 e n j n'.
Proof. intros n'. unfold upd1. destruct (n' =? n); done. Qed.
Lemma entries_ext pm e e' : (forall n, e n = e' n) -> space_entries pm e -> space_entries pm e'.
Proof. intros He [H1 H2]. split; [done|]. intros u Hu. rewrite H2, He by done. done. Qed.
Lemma upd1_eq e n i : upd1 e n i n = i.
Proof. unfold upd1. rewrite Z.eqb_refl. done. Qed.

(** The directory of an empty entry gets its table. *)
Lemma table_ready pm e vaddr alloc : space_entries pm e -> user vaddr ->
  (forall p, zget (pgdir pm) (MMU_PDE vaddr) = Some 0 -> alloc = Some p -> 0 <= p < 2 ^ 28 /\ not_a_table pm p) ->
  (zget (pgdir pm) (MMU_PDE vaddr) = Some 0 /\ alloc = None /\ lock_table pm vaddr alloc 0 = Some (ENOMEM, pm, 0, None)) \/
  exists pm' v, lock_table pm vaddr alloc 0 = Some (0, pm', Z.land v MMU_PPN_MASK, None) /\ space_entries pm' e /\
    zget (pgdir pm') (MMU_PDE vaddr) = Some v /\ v <> 0 /\ dir_grows pm pm' vaddr alloc.
Proof.
  intros Hsp Hu Ha. pose proof Hsp as [[Hwf Hsm] Hg]. destruct (Hsm vaddr Hu) as (v & Hv & Hk). unfold lock_table. rewrite Hv. cbn [mbind option_bind].
  destruct (Z.eqb_spec v 0) as [->|H0].
  - cbn [negb andb]. destruct alloc as [q|]; [|left; done]. right. destruct (Ha q Hv eq_refl) as [Hq Hfresh].
    destruct (table_installed pm vaddr q) as (Hwf1 & Hw1 & Hget1); try done; [apply user_u32; done|].
    destruct (table_word q Hq) as (Hw0 & H31 & H30 & Hmask). unfold install_table. cbn [Z.eqb].
    eexists _, _. split; [rewrite <- Hmask at 3; done|]. split_and!; [|exact Hw1|done|right; split; [done|eauto]].
    split; [split; [done|]|intros u Huu; rewrite Hget1 by (apply user_u32; done); apply Hg; done].
    intros u Huu. eapply (grows_small pm _ vaddr (Some q)); try done; [right; split; [done|eauto]|apply Hwf|intros p _ [= <-]; done|apply Hsm; done].
  - destruct Hk as [|[H31 H30]]; [done|]. unfold PMM_HUGE. rewrite is_set_bit, H30 by lia. cbn [negb andb]. right.
    exists pm, v. split_and!; try done. left. split; [congruence|done].
Qed.

Definition locked_entry : pmm_page_info := PageInfo PMM_LOCKED 0.

Lemma lock_entry pm e vaddr alloc : space_entries pm e -> user vaddr -> e (vpn vaddr) = no_entry ->
  (forall p, zget (pgdir pm) (MMU_PDE vaddr) = Some 0 -> alloc = Some p -> 0 <= p < 2 ^ 28 /\ not_a_table pm p) ->
  (zget (pgdir pm) (MMU_PDE vaddr) = Some 0 /\ alloc = None /\ pmm_lock_page pm vaddr alloc 0 = Some (ENOMEM, pm, no_entry, false)) \/
  exists pm' v, pmm_lock_page pm vaddr alloc 0 = Some (0, pm', locked_entry, true) /\ space_entries pm' (upd1 e (vpn vaddr) locked_entry) /\
    zget (pgdir pm') (MMU_PDE vaddr) = Some v /\ v <> 0 /\ dir_grows pm pm' vaddr alloc.
Proof.
  intros Hsp Hu He Ha. unfold pmm_lock_page. destruct (table_ready pm e vaddr alloc Hsp Hu Ha) as [(Hz & Hn & ->)|(pm1 & v & -> & Hsp1 & Hv & H0 & Hd)].
  { left. done. }
  right. cbn [mbind option_bind Z.eqb negb]. destruct (entry_words pm1 e vaddr Hsp1 Hu v Hv H0) as (p & -> & _). cbn [mbind option_bind]. rewrite He. cbn [attr Z.eqb].
  destruct (store_attr pm1 e vaddr Hsp1 Hu v (Z.lor 0 PMM_LOCKED) Hv H0) as (pm2 & E2 & Hd2 & Hsp2). cbn [no_entry attr]. change (0 =? 0) with true. cbn iota. rewrite E2.
  cbn [mbind option_bind]. rewrite He in Hsp2. rewrite <- Hd2 in Hv. destruct (entry_words pm2 _ vaddr Hsp2 Hu v Hv H0) as (p2 & -> & -> & Hp2 & _).
  rewrite upd1_eq in *. cbn [mbind option_bind]. rewrite Hp2. exists pm2, v. split_and!; try done.
  unfold dir_grows in *. rewrite Hd2. done.
Qed.

Lemma unlock_entry pm e vaddr v : space_entries pm (upd1 e (vpn vaddr) locked_entry) -> user vaddr -> e (vpn vaddr) = no_entry ->
  zget (pgdir pm) (MMU_PDE vaddr) = Some v -> v <> 0 ->
  exists pm', pmm_unlock_page pm (Z.land v MMU_PPN_MASK) vaddr = Some pm' /\ space_entries pm' e.
Proof.
  intros Hsp Hu He Hv H0. destruct (entry_words pm _ vaddr Hsp Hu v Hv H0) as (p & Ha & _). unfold pmm_unlock_page. rewrite Ha, upd1_eq.
  cbn [mbind option_bind attr locked_entry]. change (is_set PMM_LOCKED PMM_LOCKED) with true. cbn iota. change (Z.land PMM_LOCKED (~! PMM_LOCKED)) with 0.
  destruct (store_attr pm _ vaddr Hsp Hu v 0 Hv H0) as (pm' & -> & _ & Hsp'). exists pm'. split; [done|].
  eapply entries_ext; [|exact Hsp']. intros n. rewrite upd1_upd1, upd1_eq. unfold upd1. destruct (Z.eqb_spec n (vpn vaddr)) as [->|]; done.
Qed.
