(* ===== verification/FaultSpec.v ===== *)
(** * FaultSpec: the private memory of tasks

    The tasks of a machine with their address spaces and the frames: a page fault, the duplication of a region for a child and its removal act on
    the memory of the tasks as if each task had pages of its own. *)

From S2P Require Import Prelude Bits ListH Page Rbtree Pmm PmmSpec VmRegion Fault FaultInv FaultTables.

(** ** Attributes *)

Lemma flag_bits a : (is_set a PMM_PRESENT = Z.testbit a 31) /\ (is_set a PMM_HUGE = Z.testbit a 30) /\ (is_set a PMM_WRITE = Z.testbit a 26) /\
  (is_set a PMM_CLEAR = Z.testbit a 4) /\ (is_set a PMM_LOCKED = Z.testbit a 3) /\ (is_set a PMM_MIGRATE = Z.testbit a 1) /\ (is_set a PMM_COW = Z.testbit a 0).
Proof.
  change PMM_CLEAR with (_PMM_BIT_ORDER 4). change PMM_LOCKED with (_PMM_BIT_ORDER 3). change PMM_MIGRATE with (_PMM_BIT_ORDER 1).
  change PMM_COW with (_PMM_BIT_ORDER 0). unfold PMM_PRESENT, PMM_HUGE, PMM_WRITE. rewrite !is_set_bit by lia. done.
Qed.

(** Conditions on attributes become conditions on bits. *)
Ltac const_bits := repeat match goal with
  | |- context [Z.testbit ?c ?k] => let b := eval vm_compute in (Z.testbit c k) in
      lazymatch b with true => change (Z.testbit c k) with true | false => change (Z.testbit c k) with false end
  end.
Ltac to_bits := repeat match goal with
  | |- context [is_set ?a ?f] => let H := fresh in pose proof (flag_bits a) as H; destruct H as (? & ? & ? & ? & ? & ? & ?);
      repeat match goal with E : is_set a _ = _ |- _ => rewrite !E; clear E end
  end; rewrite ?Z.land_spec, ?testbit_lnot_u32, ?Z.lor_spec by lia; const_bits.

(** The attributes of a region that the entries of its pages get *)
Record prot_ok (a : Z) : Prop := {
  prot_plain : plain_attr a;
  prot_present : is_set a PMM_PRESENT = true;
}.

(** The attributes that a copy on write and a duplication store *)
Definition cow_done (a : Z) : Z := Z.land (Z.lor a PMM_WRITE) (~! (Z.lor PMM_COW PMM_MIGRATE)).
Definition cow_shared (a : Z) : Z := Z.land (Z.lor a PMM_COW) (~! PMM_WRITE).

Lemma cow_done_ok a : prot_ok a -> prot_ok (cow_done a) /\ is_set (cow_done a) PMM_WRITE = true /\ is_set (cow_done a) PMM_COW = false.
Proof.
  intros [(H1 & H2 & H3 & H4) H5]. destruct (flag_bits a) as (E1 & E2 & E3 & E4 & E5 & E6 & E7). rewrite E1, E2, E4, E5, E6 in *.
  unfold cow_done. repeat split; to_bits; rewrite ?H1, ?H2, ?H3, ?H4, ?H5; rewrite ?orb_true_r, ?andb_false_r; done.
Qed.
Lemma cow_shared_ok a : prot_ok a -> prot_ok (cow_shared a) /\ is_set (cow_shared a) PMM_WRITE = false /\ is_set (cow_shared a) PMM_COW = true.
Proof.
  intros [(H1 & H2 & H3 & H4) H5]. destruct (flag_bits a) as (E1 & E2 & E3 & E4 & E5 & E6 & E7). rewrite E1, E2, E4, E5, E6 in *.
  unfold cow_shared. repeat split; to_bits; rewrite ?H1, ?H2, ?H3, ?H4, ?H5; rewrite ?orb_true_r, ?andb_false_r; done.
Qed.

(** ** Frames taken and given back *)

Definition new_frame (g : frame) (w : list Z) : Prop :=
  mapper (desc g) = None /\ count (desc g) = 1 /\ state (desc g) <> PGFREE /\ words g = w.

Lemma alloc_page_ok fr q zero : free_frame fr q -> exists f g, fr !! q = Some f /\ kmem_alloc_page fr q zero = Some (<[q := g]> fr) /\
  count (desc g) = 1 /\ state (desc g) <> PGFREE /\ words g = if zero then zero_table else words f.
Proof.
  intros (_ & f & Hf & Hs & Hc). unfold kmem_alloc_page. rewrite Hf. cbn [mbind option_bind page_state_set]. unfold page_to_invalid. rewrite Hs.
  rewrite bool_decide_eq_false_2 by done. eexists f, _. split; [done|]. split; [done|].
  unfold page_refcount_up, refcount_up. cbn. rewrite Hc. split_and!; done.
Qed.

Lemma copy_to_new_ok fr q p f : free_frame fr q -> fr !! p = Some f -> p <> q ->
  exists g, copy_to_new fr q p = Some (<[q := g]> fr) /\ new_frame g (words f).
Proof.
  intros Hq Hf Hne. destruct (alloc_page_ok fr q false Hq) as (f0 & g & _ & E & Hc & Hs & _). unfold copy_to_new. rewrite E. cbn [mbind option_bind].
  rewrite lookup_insert_eq. cbn [mbind option_bind]. unfold put_desc. rewrite lookup_insert_eq. cbn [mbind option_bind]. rewrite insert_insert_eq.
  unfold page_copy. rewrite (lookup_insert_ne _ q p), Hf by congruence. cbn [mbind option_bind]. rewrite lookup_insert_eq. cbn [mbind option_bind].
  rewrite insert_insert_eq. eexists. split; [done|]. unfold new_frame. cbn. done.
Qed.

Lemma free_page_ok fr p f : fr !! p = Some f -> count (desc f) = 1 -> kmem_free_page fr p = Some (<[p := freed f]> fr).
Proof.
  intros Hf Hc. unfold kmem_free_page. rewrite Hf. cbn [mbind option_bind]. unfold page_refcount_down, refcount_down. rewrite Hc.
  change (1 <? 1) with false. unfold put_desc. rewrite Hf. done.
Qed.
Lemma refs_down_ok fr p f : fr !! p = Some f -> 1 <= count (desc f) < 2 ^ 32 -> refs_down fr p = Some (<[p := with_count f (count (desc f) - 1)]> fr).
Proof.
  intros Hf Hc. unfold refs_down, put_desc. rewrite Hf. cbn [mbind option_bind]. unfold page_refcount_down, refcount_down. cbn [snd].
  rewrite u32_small by (unfold is_u32; lia). done.
Qed.

(** ** Copy on write *)

Section Cow.
Context (pm : pmm_s) (fr : gmap Z frame) (e : entries) (t : Z) (vaddr : Z).
Context (Hsp : space_entries pm (e t)) (Hu : user vaddr) (Hinv : frames_inv fr e).
Notation n := (vpn vaddr).
Context (Hin : e t n <> no_entry).
Notation p := (ppn (e t n)).

(** An entry gets a frame of its own in the place of the one it had. *)
Lemma replace_frame q f g i : free_frame fr q -> fr !! p = Some f -> new_frame g (words f) -> ppn i = q -> prot_ok (attr i) ->
  (is_set (attr i) PMM_WRITE = false \/ is_set (attr i) PMM_COW = false) ->
  frames_inv (<[q := g]> (<[p := dropped f]> fr)) (upd e t n i) /\
  forall t' n', view (<[q := g]> (<[p := dropped f]> fr)) (upd e t n i) t' n' = view fr e t' n'.
Proof.
  intros Hq Hf (Hm & Hc & Hs & Hw) Hp [Hpl Hpr] Hcow. pose proof (drop_free _ _ _ _ f Hinv Hin q Hq) as Hq'.
  pose proof (drop_entry _ _ _ _ _ Hinv Hin Hf) as Hinv'.
  assert (Hi : i <> no_entry) by (intros ->; done).
  assert (Hup : forall a b, upd (upd e t n no_entry) t n i a b = upd e t n i a b).
  { intros a b. destruct (decide ((a, b) = (t, n))) as [[= -> ->]|Hne]; [rewrite !upd_same|rewrite !upd_diff by done]; done. }
  pose proof (add_entry _ _ t n i Hinv' (upd_same _ _ _ _) q g Hq' Hp Hpr Hpl Hcow Hm Hc Hs) as Hadd. split.
  - eapply frames_inv_ext; [|exact Hadd]. exact Hup.
  - intros t' n'. rewrite <- (view_ext _ _ _ Hup). rewrite (add_view (<[p := dropped f]> fr)); [|done|].
    + rewrite (drop_view _ _ _ _ _ Hf), Hp, lookup_insert_eq. simpl. rewrite Hw.
      destruct (decide ((t', n') = (t, n))) as [[= -> ->]|Hne]; [|rewrite bool_decide_eq_false_2 by done; done].
      rewrite bool_decide_eq_true_2 by done. unfold view. rewrite bool_decide_eq_false_2, Hf by done. done.
    + intros a b Hab. rewrite lookup_insert_ne; [done|]. intros ->. eapply (free_unmapped _ _ Hinv'); [exact Hq'|exact Hab|done].
Qed.

(** An entry in use is set without a table. *)
Lemma set_used i : prot_ok (attr i) -> 0 <= ppn i < 2 ^ 28 ->
  exists pm', pmm_set_page pm vaddr i None 0 = Some (0, pm', None) /\ space_entries pm' (upd1 (e t) n i).
Proof.
  intros [(Hh & Hc & _) _] Hp. destruct (set_entry pm (e t) vaddr Hsp Hu i None) as [(Hz & _)|(pm' & E & Hsp' & _)]; try done; [|eauto].
  destruct (entry_table pm (e t) vaddr Hsp Hu Hin Hz).
Qed.

Lemma cow_page_ok cluster f : fr !! p = Some f ->
  match mapper (desc f) with
  | Some _ => cow_page fr p cluster = Some (false, false, fr)
  | None =>
      if count (desc f) =? 1 then cow_page fr p cluster = Some (cid (desc f) =? cluster, negb (cid (desc f) =? cluster), fr)
      else cow_page fr p cluster = Some (false, false, <[p := dropped f]> fr)
  end.
Proof.
  intros Hf. unfold cow_page. rewrite Hf. cbn [mbind option_bind]. unfold page_refcount_get. destruct (mapper (desc f)) eqn:Hm; [done|].
  destruct (Z.eqb_spec (count (desc f)) 1) as [H1|H1]; [destruct (cid (desc f) =? cluster); done|].
  pose proof (f_count _ _ Hinv t n f Hin Hf Hm) as Hc. pose proof (count_pos _ _ _ _ Hc Hin) as Hb. rewrite (refs_down_ok _ _ _ Hf Hb).
  cbn [mbind option_bind]. unfold dropped. rewrite Hm. destruct (Z.eqb_spec (count (desc f)) 1); done.
Qed.

Lemma cow_ok region cluster q : is_set (attr (e t n)) PMM_COW = true -> prot_ok (vm_pgprot region) -> free_frame fr q ->
  exists pm' fr' i, vmm_do_cow region pm fr p vaddr cluster (Some q) = Some (0, pm', fr') /\ attr i = cow_done (vm_pgprot region) /\
    space_entries pm' (upd1 (e t) n i) /\ frames_inv fr' (upd e t n i) /\ forall t' n', view fr' (upd e t n i) t' n' = view fr e t' n'.
Proof.
  intros Hcow Hprot Hq. destruct (cow_done_ok _ Hprot) as (Hd & Hdw & Hdc). set (a := cow_done (vm_pgprot region)) in *.
  destruct (f_entry _ _ Hinv t n) as [|Hok]; [done|]. pose proof Hok as [_ _ Hpr (f & Hf & Hs & _) _].
  pose proof (free_unmapped _ _ Hinv q t n Hq Hin) as Hpq.
  assert (Hq28 : 0 < q < 2 ^ 28) by apply Hq. assert (Hor : is_set a PMM_WRITE = false \/ is_set a PMM_COW = false) by auto.
  unfold vmm_do_cow. rewrite (proj2 Hsp vaddr Hu). cbn [mbind option_bind]. rewrite Hcow. cbn [negb]. fold (cow_done (vm_pgprot region)). fold a.
  pose proof (cow_page_ok cluster f Hf) as Hpage.
  destruct (set_used (PageInfo a q) Hd) as (pmq & Eq & Hspq); [simpl; lia|].
  destruct (copy_to_new_ok fr q p f Hq Hf Hpq) as (g & Eg & Hg).
  assert (Hrep := fun g0 Hg0 => replace_frame q f g0 (PageInfo a q) Hq Hf Hg0 eq_refl Hd Hor).
  destruct (mapper (desc f)) eqn:Hm; [|destruct (Z.eqb_spec (count (desc f)) 1) as [H1|H1]].
  - rewrite Hpage. cbn [mbind option_bind]. rewrite Eg. cbn [mbind option_bind]. rewrite Eq. cbn [mbind option_bind cow_end].
    exists pmq, (<[q := g]> fr), (PageInfo a q). split_and!; try done; specialize (Hrep g Hg);
      (replace (<[p := dropped f]> fr) with fr in Hrep; [apply Hrep|]); unfold dropped; rewrite Hm, insert_id; done.
  - rewrite Hpage. cbn [mbind option_bind]. destruct (Z.eqb_spec (cid (desc f)) cluster) as [Hcl|Hcl].
    + destruct (set_used (PageInfo a p) Hd) as (pm' & E & Hsp'); [simpl; lia|]. cbn [mbind option_bind]. rewrite E. cbn [mbind option_bind cow_end negb].
      exists pm', fr, (PageInfo a p). split_and!; try done; apply reprotect_entry; try done; (split; [apply Hd|apply Hd|done| |done]); eauto.
    + cbn [negb]. rewrite Eg. cbn [mbind option_bind]. rewrite Eq. cbn [mbind option_bind cow_end].
      rewrite (free_page_ok _ p f) by (try done; rewrite lookup_insert_ne by (apply not_eq_sym; done); done). cbn [mbind option_bind].
      exists pmq. eexists _, (PageInfo a q). split; [done|]. rewrite insert_insert_ne by done. specialize (Hrep g Hg). unfold dropped in Hrep.
      rewrite Hm, H1 in Hrep. cbn [Z.eqb] in Hrep. split_and!; try done; apply Hrep.
  - rewrite Hpage. cbn [mbind option_bind].
    destruct (copy_to_new_ok (<[p := dropped f]> fr) q p (dropped f)) as (g' & Eg' & Hg'); [eapply drop_free; done|apply lookup_insert_eq|done|].
    rewrite Eg'. cbn [mbind option_bind]. rewrite Eq. cbn [mbind option_bind cow_end]. rewrite dropped_words in Hg'.
    exists pmq. eexists _, (PageInfo a q). split; [done|]. split_and!; try done; apply (Hrep g' Hg').
Qed.
End Cow.

(** ** First accesses *)

Definition table_answer (pm : pmm_s) (vaddr : Z) (talloc : option Z) : Prop :=
  forall p, zget (pgdir pm) (MMU_PDE vaddr) = Some 0 -> talloc = Some p -> 0 <= p < 2 ^ 28 /\ not_a_table pm p.

(** The entry of page [n] of task [t] is new, with the words [w]; the other pages are as they were. *)
Definition page_appears (fr : gmap Z frame) (e : entries) (t n : Z) (i : pmm_page_info) (w : list Z) (fr' : gmap Z frame) : Prop :=
  frames_inv fr' (upd e t n i) /\
  forall t' n', view fr' (upd e t n i) t' n' = if bool_decide ((t', n') = (t, n)) then Some w else view fr e t' n'.

Section First.
Context (pm : pmm_s) (fr : gmap Z frame) (e : entries) (t : Z) (vaddr : Z) (region : vm_region_s) (talloc : option Z).
Context (Hsp : space_entries pm (e t)) (Hu : user vaddr) (Hinv : frames_inv fr e).
Notation n := (vpn vaddr).
Context (Hnone : e t n = no_entry) (Htab : table_answer pm vaddr talloc) (Hprot : prot_ok (vm_pgprot region)).
Context (Hcow : is_set (vm_pgprot region) PMM_WRITE = false \/ is_set (vm_pgprot region) PMM_COW = false).

Lemma aod_ok alloc : (forall q, alloc = Some q -> free_frame fr q) ->
  (exists pm', vmm_do_aod region pm fr vaddr alloc talloc = Some (ENOMEM, pm', fr) /\ space_entries pm' (e t)) \/
  exists pm' fr' q, alloc = Some q /\ vmm_do_aod region pm fr vaddr alloc talloc = Some (0, pm', fr') /\
    space_entries pm' (upd1 (e t) n (PageInfo (vm_pgprot region) q)) /\ page_appears fr e t n (PageInfo (vm_pgprot region) q) zero_table fr'.
Proof.
  intros Ha. unfold vmm_do_aod. destruct (lock_entry pm (e t) vaddr talloc Hsp Hu Hnone Htab) as [(_ & _ & ->)|(pm1 & v & -> & Hsp1 & Hv & Hv0 & _)].
  { left. exists pm. done. }
  cbn [mbind option_bind]. change (negb (0 =? 0)) with false. cbn iota. cbn [negb]. rewrite Hv. cbn [mbind option_bind].
  destruct alloc as [q|].
  - right. specialize (Ha q eq_refl). destruct (alloc_page_ok fr q true Ha) as (f0 & g & _ & -> & Hc & Hs & Hw). cbn [mbind option_bind].
    rewrite lookup_insert_eq. cbn [mbind option_bind]. unfold put_desc. rewrite lookup_insert_eq. cbn [mbind option_bind]. rewrite insert_insert_eq.
    destruct (set_entry pm1 _ vaddr Hsp1 Hu (PageInfo (vm_pgprot region) q) None) as [(Hz & _)|(pm2 & -> & Hsp2 & _)];
      [apply Hprot|apply Hprot|simpl; destruct Ha; lia|done|congruence|].
    cbn [mbind option_bind]. change (negb (0 =? 0)) with false. cbn iota. eexists pm2, _, q. split; [done|]. split; [done|]. split.
    { eapply entries_ext; [|exact Hsp2]. apply upd1_upd1. }
    split; [eapply add_entry; try done; apply Hprot|]. intros t' n'. rewrite (add_view fr).
    + cbn [ppn]. rewrite lookup_insert_eq. cbn. rewrite Hw. done.
    + intros Hbad. pose proof (prot_present _ Hprot) as Hp. injection Hbad as Hz _. rewrite Hz in Hp. done.
    + intros a b Hab. rewrite lookup_insert_ne; [done|]. apply not_eq_sym. eapply free_unmapped; done.
  - left. destruct (unlock_entry pm1 (e t) vaddr v Hsp1 Hu Hnone Hv Hv0) as (pm2 & -> & Hsp2). exists pm2. done.
Qed.

Lemma mapped_ok cached : is_set (vm_pgprot region) PMM_WRITE = false ->
  (forall q, cached = Some q -> 0 < q < 2 ^ 28 /\ exists f, fr !! q = Some f /\ state (desc f) <> PGFREE /\ mapper (desc f) <> None) ->
  (exists err, vmm_do_mapped region pm vaddr cached talloc = Some (err, pm) /\ err <> 0) \/
  exists pm' q f, cached = Some q /\ fr !! q = Some f /\ vmm_do_mapped region pm vaddr cached talloc = Some (0, pm') /\
    space_entries pm' (upd1 (e t) n (PageInfo (vm_pgprot region) q)) /\ page_appears fr e t n (PageInfo (vm_pgprot region) q) (words f) fr.
Proof.
  intros Hw Hq. unfold vmm_do_mapped. destruct cached as [q|]; [|left; destruct (vm_file region =? 0); eexists; split; done].
  destruct (Hq q eq_refl) as (Hq28 & f & Hf & Hs & Hm). rewrite (proj2 Hsp vaddr Hu). cbn [mbind option_bind]. rewrite Hnone. cbn [no_entry attr].
  change (0 =? 0) with true. cbn iota.
  destruct (set_entry pm _ vaddr Hsp Hu (PageInfo (vm_pgprot region) q) talloc) as [(Hz & _ & ->)|(pm2 & -> & Hsp2 & _)];
    [apply Hprot|apply Hprot|simpl; lia|done|left; exists ENOMEM; done|right]. cbn [mbind option_bind].
  assert (Hok : entry_ok fr (PageInfo (vm_pgprot region) q)).
  { split; [apply Hprot|apply Hprot|done| |done]. exists f. cbn [attr]. rewrite Hw. done. }
  exists pm2, q, f. split_and!; try done. split; [eapply add_cached; done|]. intros t' n'. rewrite (add_view fr); [|eapply entry_not_none; done|done].
  cbn [ppn]. rewrite Hf. done.
Qed.
End First.

(** ** The machine *)

Record machine := Machine { frames : gmap Z frame; spaces : gmap Z pmm_s }.

Record machine_ok (m : machine) (e : entries) : Prop := {
  m_space : forall t pm, spaces m !! t = Some pm -> space_entries pm (e t);
  m_none : forall t n, spaces m !! t = None -> e t n = no_entry;
  m_frames : frames_inv (frames m) e;
}.

(** A fault of the task [t] *)
Definition fault (m : machine) (t : Z) (region : vm_region_s) (vaddr flags cluster : Z) (ans : answers) : option (Z * machine) :=
  pm ← spaces m !! t;
  '(err, pm, fr) ← vm_region_update region pm (frames m) vaddr flags cluster ans;
  Some (err, Machine fr (<[t := pm]> (spaces m))).

(** A private region, as [vm_region_init] and [vfs_default_mmap_file] make it *)
Record private_region (r : vm_region_s) : Prop := {
  pr_prot : prot_ok (vm_pgprot r);
  pr_file : vm_mapper r <> 0 -> is_set (vm_pgprot r) PMM_WRITE = false;
  pr_cow : is_set (vm_pgprot r) PMM_WRITE = false \/ is_set (vm_pgprot r) PMM_COW = false;
}.

(** The answers that the allocator and the mapper may give *)
Record answers_ok (m : machine) (pm : pmm_s) (vaddr : Z) (ans : answers) : Prop := {
  ans_page : forall q, a_page ans = Some q -> free_frame (frames m) q;
  ans_table : table_answer pm vaddr (a_table ans);
  ans_cached : forall q, a_cached ans = Some q ->
    0 < q < 2 ^ 28 /\ exists f, frames m !! q = Some f /\ state (desc f) <> PGFREE /\ mapper (desc f) <> None;
}.

(** The words of the first access to a page of a region *)
Definition first_words (m : machine) (r : vm_region_s) (ans : answers) : option (list Z) :=
  if vm_mapper r =? 0 then Some zero_table else q ← a_cached ans; words <$> frames m !! q.

Lemma machine_update m e t pm pm' fr' i n : machine_ok m e -> spaces m !! t = Some pm -> space_entries pm' (upd1 (e t) n i) ->
  frames_inv fr' (upd e t n i) -> machine_ok (Machine fr' (<[t := pm']> (spaces m))) (upd e t n i).
Proof.
  intros [H1 H2 H3] Ht Hsp Hf. split; [| |exact Hf]; cbn [spaces].
  - intros t' q Hq. destruct (decide (t' = t)) as [->|Hne].
    + rewrite lookup_insert_eq in Hq. injection Hq as <-. eapply entries_ext; [|exact Hsp]. intros k. unfold upd, upd1.
      destruct (Z.eqb_spec k n) as [->|]; [rewrite bool_decide_eq_true_2|rewrite bool_decide_eq_false_2 by tauto]; done.
    + rewrite lookup_insert_ne in Hq by done. eapply entries_ext; [|apply H1; exact Hq]. intros k. rewrite upd_diff by congruence. done.
  - intros t' k Hq. destruct (decide (t' = t)) as [->|Hne]; [rewrite lookup_insert_eq in Hq; done|]. rewrite lookup_insert_ne in Hq by done.
    rewrite upd_diff by congruence. apply H2. done.
Qed.

Lemma machine_same m e t pm pm' : machine_ok m e -> spaces m !! t = Some pm -> space_entries pm' (e t) ->
  machine_ok (Machine (frames m) (<[t := pm']> (spaces m))) e.
Proof.
  intros [H1 H2 H3] Ht Hsp. split; [| |exact H3]; cbn [spaces].
  - intros t' q Hq. destruct (decide (t' = t)) as [->|Hne]; [rewrite lookup_insert_eq in Hq|rewrite lookup_insert_ne in Hq by done; auto].
    injection Hq as <-. done.
  - intros t' k Hq. destruct (decide (t' = t)) as [->|Hne]; [rewrite lookup_insert_eq in Hq; done|]. rewrite lookup_insert_ne in Hq by done. auto.
Qed.

(** What a fault at page [n] of task [t] does to the memory of the tasks *)
Record fault_effect (m : machine) (e : entries) (t n : Z) (region : vm_region_s) (flags : Z) (ans : answers) (err : Z) (m' : machine) (e' : entries) :
    Prop := {
  fe_ok : machine_ok m' e';
  fe_others : forall t' n', (t', n') <> (t, n) -> view (frames m') e' t' n' = view (frames m) e t' n';
  fe_kept : e t n <> no_entry -> view (frames m') e' t n = view (frames m) e t n;
  fe_first : e t n = no_entry -> err = 0 -> view (frames m') e' t n = first_words m region ans /\ attr (e' t n) = vm_pgprot region;
  fe_failed : e t n = no_entry -> err <> 0 -> view (frames m') e' t n = None;
  fe_write : is_set (attr (e t n)) PMM_COW = true -> pmm_except_isWrite flags = true -> region_denies region flags = None ->
    err = 0 /\ is_set (attr (e' t n)) PMM_WRITE = true;
}.

Lemma denies_err region flags err : region_denies region flags = Some err -> err <> 0.
Proof. unfold region_denies. repeat case_match; intros [= <-]; done. Qed.

Lemma view_none fr e t n : e t n = no_entry -> view fr e t n = None.
Proof. intros H. unfold view. rewrite bool_decide_eq_true_2; done. Qed.

Lemma view_some fr e t n : e t n <> no_entry -> view fr e t n = words <$> fr !! ppn (e t n).
Proof. intros H. unfold view. rewrite bool_decide_eq_false_2; done. Qed.

Lemma unchanged_effect m e t n region flags ans err pm pm' : machine_ok m e -> spaces m !! t = Some pm -> space_entries pm' (e t) ->
  (e t n = no_entry -> err <> 0) ->
  (is_set (attr (e t n)) PMM_COW = true -> pmm_except_isWrite flags = true -> region_denies region flags = None -> False) ->
  fault_effect m e t n region flags ans err (Machine (frames m) (<[t := pm']> (spaces m))) e.
Proof.
  intros Hm Ht Hsp Herr Hw. split; try done.
  - eapply machine_same; done.
  - intros Hn H0. destruct (Herr Hn H0).
  - intros Hn _. apply view_none. done.
  - intros H1 H2 H3. destruct (Hw H1 H2 H3).
Qed.

Lemma appears_effect m e t n region flags ans pm pm' i w fr' : machine_ok m e -> spaces m !! t = Some pm -> e t n = no_entry ->
  space_entries pm' (upd1 (e t) n i) -> page_appears (frames m) e t n i w fr' -> first_words m region ans = Some w -> attr i = vm_pgprot region ->
  fault_effect m e t n region flags ans 0 (Machine fr' (<[t := pm']> (spaces m))) (upd e t n i).
Proof.
  intros Hm Ht Hn Hsp [Hf Hv] Hw Hi. split; try done.
  - eapply machine_update; done.
  - intros t' n' Hne. cbn [frames]. rewrite Hv, bool_decide_eq_false_2 by done. done.
  - intros _ _. cbn [frames]. rewrite Hv, bool_decide_eq_true_2, upd_same by done. done.
  - rewrite Hn. done.
Qed.

Lemma fault_ok m e t pm region vaddr flags cluster ans : machine_ok m e -> spaces m !! t = Some pm -> user vaddr -> private_region region ->
  answers_ok m pm vaddr ans -> (is_set (attr (e t (vpn vaddr))) PMM_COW = true -> a_page ans <> None) ->
  exists err m' e', fault m t region vaddr flags cluster ans = Some (err, m') /\ fault_effect m e t (vpn vaddr) region flags ans err m' e'.
Proof.
  intros Hm Ht Hu [Hprot Hfile Hcow] [Hpage Htab Hcached] Halloc. unfold fault. rewrite Ht. cbn [mbind option_bind]. unfold vm_region_update.
  pose proof (m_space _ _ Hm t pm Ht) as Hsp. pose proof (m_frames _ _ Hm) as Hinv.
  destruct (region_denies region flags) as [err|] eqn:Hden.
  { cbn [mbind option_bind]. eexists err, _, e. split; [done|]. eapply unchanged_effect; try done; [|congruence]. intros _. eapply denies_err; done. }
  unfold vmm_default_pagefault. rewrite (proj2 Hsp vaddr Hu). cbn [mbind option_bind].
  destruct (f_entry _ _ Hinv t (vpn vaddr)) as [Hn|Hok].
  - rewrite Hn. cbn [no_entry attr]. change (0 =? 0) with true. cbn [negb andb]. destruct (Z.eqb_spec (vm_mapper region) 0) as [Hm0|Hm0].
    + cbn [negb]. destruct (aod_ok pm (frames m) e t vaddr region (a_table ans) Hsp Hu Hinv Hn Htab Hprot Hcow (a_page ans) Hpage)
        as [(pm' & -> & Hsp')|(pm' & fr' & q & _ & -> & Hsp' & Hap)]; cbn [mbind option_bind].
      * eexists ENOMEM, _, e. split; [done|]. eapply unchanged_effect; try done. rewrite Hn. done.
      * eexists 0, _, _. split; [done|]. eapply appears_effect; try done. unfold first_words. rewrite Hm0. done.
    + cbn [negb]. destruct (mapped_ok pm (frames m) e t vaddr region (a_table ans) Hsp Hu Hinv Hn Htab Hprot Hcow (a_cached ans) (Hfile Hm0) Hcached)
        as [(err & -> & Herr)|(pm' & q & f & Hq & Hf & -> & Hsp' & Hap)]; cbn [mbind option_bind].
      * eexists err, _, e. split; [done|]. eapply unchanged_effect; try done. rewrite Hn. done.
      * eexists 0, _, _. split; [done|]. eapply appears_effect; try done. unfold first_words. destruct (Z.eqb_spec (vm_mapper region) 0); [done|].
        rewrite Hq. cbn [mbind option_bind]. rewrite Hf. done.
  - pose proof (entry_not_none _ _ Hok) as Hnn. pose proof Hok as [Hpr (_ & _ & Hmig & _) Hp28 _ _].
    destruct (Z.eqb_spec (attr (e t (vpn vaddr))) 0) as [Ha0|_]; [rewrite Ha0 in Hpr; done|].
    destruct (Z.eqb_spec (ppn (e t (vpn vaddr))) 0) as [Hp0|_]; [lia|]. cbn [negb andb].
    destruct (is_set (attr (e t (vpn vaddr))) PMM_COW) eqn:Hc, (pmm_except_isWrite flags) eqn:Hw; cbn [andb]; rewrite ?Hmig, ?Hpr; cbn [mbind option_bind];
      try (eexists 0, _, e; split; [done|]; eapply unchanged_effect; try done; congruence).
    destruct (a_page ans) as [q|] eqn:Hq; [|destruct (Halloc eq_refl); done].
    destruct (cow_ok pm (frames m) e t vaddr Hsp Hu Hinv Hnn region cluster q Hc Hprot (Hpage q eq_refl)) as (pm' & fr' & i & -> & Hi & Hsp' & Hf' & Hv).
    cbn [mbind option_bind]. eexists 0, _, _. split; [done|]. split; try done.
    + eapply machine_update; done.
    + intros _ _ _. rewrite upd_same, Hi. split; [done|]. apply cow_done_ok. done.
Qed.
