(* ===== verification/FaultFork.v ===== *)
(** * FaultFork: duplication and removal of the private regions of a task *)

From S2P Require Import Prelude Bits ListH Page Rbtree Pmm PmmSpec VmRegion Fault FaultInv FaultTables FaultSpec.

(** ** Addresses of pages *)

Lemma next_page u n : user u -> u + PMM_PAGE_SIZE * Z.of_nat (S n) <= CONFIG_KERNEL_OFFSET ->
  u +! PMM_PAGE_SIZE = u + PMM_PAGE_SIZE /\ vpn (u + PMM_PAGE_SIZE) = vpn u + 1 /\
  (n <> 0%nat -> user (u + PMM_PAGE_SIZE)) /\ u + PMM_PAGE_SIZE + PMM_PAGE_SIZE * Z.of_nat n <= CONFIG_KERNEL_OFFSET.
Proof.
  unfold user, PMM_PAGE_SIZE, CONFIG_KERNEL_OFFSET. intros Hu Hb. split_and!; [apply u32_small; unfold is_u32; lia| |lia|lia].
  unfold vpn, PMM_PAGE_SHIFT. rewrite !Z.shiftr_div_pow2 by lia. change (2 ^ 12) with 0x1000. rewrite <- (Z.mul_1_l 0x1000) at 1.
  rewrite Z.div_add by lia. done.
Qed.

(** ** Entries of two spaces *)

Lemma upd_row e t n i k : upd e t n i t k = upd1 (e t) n i k.
Proof.
  unfold upd, upd1. destruct (Z.eqb_spec k n) as [->|]; [rewrite bool_decide_eq_true_2|rewrite bool_decide_eq_false_2 by tauto]; done.
Qed.
Lemma upd_other_row e t n i t' k : t' <> t -> upd e t n i t' k = e t' k.
Proof. intros H. apply upd_diff. congruence. Qed.

(** ** Sharing one page *)

Section Share.
Context (fr : gmap Z frame) (e : entries) (t c n : Z) (f : frame).
Context (Hinv : frames_inv fr e) (Htc : t <> c) (Hnone : e c n = no_entry) (Hin : e t n <> no_entry) (Hf : fr !! ppn (e t n) = Some f).
Notation p := (ppn (e t n)).
Notation i := (PageInfo (cow_shared (attr (e t n))) p).

Lemma shared_entry_ok : entry_ok fr i /\ is_set (attr i) PMM_WRITE = false.
Proof.
  destruct (f_entry _ _ Hinv t n) as [|[H1 H2 H3 (g & Hg & Hs & _) _]]; [done|]. destruct (cow_shared_ok (attr (e t n))) as (Hp & Hw & _); [done|].
  split; [|exact Hw]. split; [apply Hp|apply Hp|done| |left; exact Hw]. exists g. cbn [attr]. rewrite Hw. done.
Qed.

(** A page without mapper: both entries share the frame, neither allows writing. *)
Lemma share_anon : mapper (desc f) = None -> count (desc f) + 1 < 2 ^ 32 ->
  frames_inv (<[p := with_count f (count (desc f) + 1)]> fr) (upd (upd e t n i) c n i) /\
  forall t' n', view (<[p := with_count f (count (desc f) + 1)]> fr) (upd (upd e t n i) c n i) t' n' =
    if bool_decide ((t', n') = (c, n)) then view fr e t n else view fr e t' n'.
Proof.
  intros Hm Hb. destruct shared_entry_ok as [Hok Hw]. destruct (reprotect_entry fr e t n i Hinv Hin Hok eq_refl) as [Hinv1 Hv1].
  assert (Hn1 : upd e t n i c n = no_entry) by (rewrite upd_other_row by done; done).
  pose proof (f_count _ _ Hinv t n f Hin Hf Hm) as Hcnt. split.
  - apply (add_shared fr (upd e t n i) c n i Hinv1 Hn1 f); try done.
    + intros t' n' Hnn Hp. destruct (decide ((t', n') = (t, n))) as [[= -> ->]|Hne]; [rewrite upd_same; done|]. rewrite upd_diff in * by done.
      eapply (drop_others fr e t n f); done.
    + apply counted_reprotect; try done. eapply entry_not_none; done.
  - intros t' n'. rewrite (add_view fr); [|eapply entry_not_none; done|].
    + rewrite Hv1. cbn [ppn]. rewrite lookup_insert_eq. rewrite (view_some fr e t n), Hf by done. done.
    + intros a b Hab. destruct (decide (ppn (upd e t n i a b) = p)) as [->|Hne]; [rewrite lookup_insert_eq, Hf|rewrite lookup_insert_ne by done]; done.
Qed.

(** A page of a mapper: the child gets an entry. *)
Lemma share_cached : mapper (desc f) <> None -> frames_inv fr (upd e c n i) /\
  forall t' n', view fr (upd e c n i) t' n' = if bool_decide ((t', n') = (c, n)) then view fr e t n else view fr e t' n'.
Proof.
  intros Hm. destruct shared_entry_ok as [Hok _]. split; [eapply (add_cached fr e c n i Hinv Hnone f); done|].
  intros t' n'. rewrite (add_view fr); [|eapply entry_not_none; done|done]. cbn [ppn]. rewrite (view_some fr e t n) by done. done.
Qed.
End Share.

(** ** The loop of [vm_region_dup] *)

(** Answers for the tables of the child: pages that are not tables, one for each word of the directory *)
Definition fresh_tables (dst : pmm_s) (talloc : Z -> option Z) : Prop :=
  (forall u, user u -> table_answer dst u (talloc u)) /\
  forall u u' p, talloc u = Some p -> talloc u' = Some p -> MMU_PDE u = MMU_PDE u'.

Lemma fresh_after dst dst' u talloc : fresh_tables dst talloc -> user u -> pmm_wf dst -> dir_grows dst dst' u (talloc u) ->
  zget (pgdir dst') (MMU_PDE u) <> Some 0 -> fresh_tables dst' talloc.
Proof.
  intros [Hfr Hinj] Hu Hwf Hd Hw. split; [|done]. intros u' Hu' p Hz Hp. pose proof (pde_bound _ (user_u32 _ Hu)). pose proof (pde_bound _ (user_u32 _ Hu')).
  assert (Hne : MMU_PDE u' <> MMU_PDE u) by congruence.
  assert (Hz' : zget (pgdir dst) (MMU_PDE u') = Some 0).
  { destruct Hd as [[_ E]|(_ & q & _ & E)]; rewrite E in Hz; [done|]. rewrite zget_zset_ne in Hz by lia. done. }
  destruct (Hfr u' Hu' p Hz' Hp) as [Hr Hnt]. split; [done|]. eapply grows_not_table; try done; [apply Hwf|].
  intros q Hzu Hq. split; [apply (Hfr u Hu q Hzu Hq)|]. intros ->. apply Hne. eapply Hinj; done.
Qed.

Section Dup.
Context (t c : Z) (talloc : Z -> option Z) (Htc : t <> c).

(** What the duplication of the [k] pages from [u] on does *)
Record dup_effect (k : nat) (u : Z) (fr : gmap Z frame) (e : entries) (err : Z) (src' dst' : pmm_s) (fr' : gmap Z frame) (e' : entries) : Prop := {
  d_src : space_entries src' (e' t);
  d_dst : space_entries dst' (e' c);
  d_inv : frames_inv fr' e';
  d_others : forall t' n', t' <> t -> t' <> c -> e' t' n' = e t' n';
  d_view : forall t' n', t' <> c -> view fr' e' t' n' = view fr e t' n';
  d_out : forall n', ~ (vpn u <= n' < vpn u + Z.of_nat k) -> view fr' e' c n' = view fr e c n';
  d_in : err = 0 -> forall n', vpn u <= n' < vpn u + Z.of_nat k -> view fr' e' c n' = view fr e t n';
  d_err : err = 0 \/ err = ENOMEM;
}.

Lemma dup_stop u k fr e err src dst : space_entries src (e t) -> space_entries dst (e c) -> frames_inv fr e -> err = ENOMEM \/ (err = 0 /\ k = 0%nat) ->
  dup_effect k u fr e err src dst fr e.
Proof. intros Hs Hd Hi He. split; try done; [intros H0 n' Hn; destruct He as [->|[_ ->]]; [done|lia]|tauto]. Qed.

(** One page more *)
Lemma dup_cons u k fr e fr1 e1 err src' dst' fr' e' : vpn (u + PMM_PAGE_SIZE) = vpn u + 1 ->
  (forall t' n', t' <> t -> t' <> c -> e1 t' n' = e t' n') ->
  (forall t' n', view fr1 e1 t' n' = if bool_decide ((t', n') = (c, vpn u)) then view fr e t (vpn u) else view fr e t' n') ->
  dup_effect k (u + PMM_PAGE_SIZE) fr1 e1 err src' dst' fr' e' -> dup_effect (S k) u fr e err src' dst' fr' e'.
Proof.
  intros Hn He Hv [H1 H2 H3 H4 H5 H6 H7 H8]. rewrite Hn in *. split; try done.
  - intros t' n' Ht Hc. rewrite H4, He by done. done.
  - intros t' n' Hc. rewrite H5, Hv, bool_decide_eq_false_2 by congruence. done.
  - intros n' Ho. rewrite H6, Hv, bool_decide_eq_false_2 by (try lia; intros [=]; lia). done.
  - intros H0 n' Hi. destruct (decide (n' = vpn u)) as [->|Hne].
    + rewrite H6, Hv, bool_decide_eq_true_2 by (done || lia). done.
    + rewrite H7, Hv, bool_decide_eq_false_2 by (congruence || lia). done.
Qed.

Lemma dup_loop_ok k : forall src dst fr e u, space_entries src (e t) -> space_entries dst (e c) -> frames_inv fr e ->
  (k <> 0%nat -> user u) -> u + PMM_PAGE_SIZE * Z.of_nat k <= CONFIG_KERNEL_OFFSET -> fresh_tables dst talloc ->
  (forall n', vpn u <= n' < vpn u + Z.of_nat k -> e c n' = no_entry) ->
  (forall p f, fr !! p = Some f -> count (desc f) + Z.of_nat k < 2 ^ 32) ->
  exists err src' dst' fr' e', dup_loop k src dst fr u talloc = Some (err, src', dst', fr') /\ dup_effect k u fr e err src' dst' fr' e'.
Proof.
  induction k as [|k IH]; intros src dst fr e u Hs Hd Hi Huser Hb Hfresh Hnone Hcnt.
  { eexists 0, _, _, _, e. split; [done|]. apply dup_stop; auto. }
  assert (Hu : user u) by (apply Huser; done). destruct (next_page u k Hu Hb) as (Eadd & Evpn & Hu' & Hb').
  assert (Hn : e c (vpn u) = no_entry) by (apply Hnone; lia).
  assert (Hrest : forall (fr1 : gmap Z frame) (e1 : entries) n', (forall m, m <> vpn u -> e1 c m = e c m) -> vpn (u + PMM_PAGE_SIZE) <= n' < vpn (u + PMM_PAGE_SIZE) + Z.of_nat k -> e1 c n' = no_entry)
    by (intros fr1 e1 n' He1 Hn'; rewrite He1 by lia; apply Hnone; lia).
  cbn [dup_loop]. rewrite (proj2 Hs u Hu). cbn [mbind option_bind]. rewrite Eadd. destruct (f_entry _ _ Hi t (vpn u)) as [Hne|Hok].
  - rewrite Hne. change (is_set (attr no_entry) PMM_PRESENT) with false. cbn iota.
    destruct (IH src dst fr e (u + PMM_PAGE_SIZE)) as (err & src' & dst' & fr' & e' & E & Heff); try done;
      [intros n' Hn'; apply (Hrest fr e); done|intros p f Hf; specialize (Hcnt p f Hf); lia|].
    eexists err, src', dst', fr', e'. split; [exact E|]. eapply dup_cons; try done. intros t' n'.
    destruct (decide ((t', n') = (c, vpn u))) as [[= -> ->]|Hd']; [rewrite bool_decide_eq_true_2, !view_none by done|rewrite bool_decide_eq_false_2 by done]; done.
  - pose proof (entry_not_none _ _ Hok) as Hin. pose proof Hok as [Hpr _ Hp28 (f & Hf & _) _]. rewrite Hpr, Hf. cbn [mbind option_bind].
    fold (cow_shared (attr (e t (vpn u)))). set (i := PageInfo (cow_shared (attr (e t (vpn u)))) (ppn (e t (vpn u)))).
    destruct (shared_entry_ok fr e t (vpn u) Hi Hin) as [Hoki Hwi]. fold i in Hoki, Hwi. pose proof Hoki as [Hpri (Hhi & Hci & _) _ _ _].
    destruct (set_entry dst (e c) u Hd Hu i (talloc u)) as [(_ & _ & ->)|(dst1 & -> & Hd1 & Hw1 & Hg1)]; try done; [simpl; lia|apply Hfresh; done|..].
    { eexists ENOMEM, _, _, _, e. split; [done|]. apply dup_stop; auto. }
    cbn [mbind option_bind]. change (negb (0 =? 0)) with false. cbn iota.
    assert (Hfresh1 : fresh_tables dst1 talloc) by (eapply fresh_after; try done; apply Hd).
    case_bool_decide as Hm.
    + destruct (set_entry src (e t) u Hs Hu i None) as [(Hz & _)|(src1 & -> & Hs1 & _)]; try done; [simpl; lia|destruct (entry_table src (e t) u Hs Hu Hin Hz)|].
      pose proof (Hcnt _ _ Hf) as Hcf. pose proof (f_count _ _ Hi t (vpn u) f Hin Hf Hm) as Hcc. pose proof (count_pos _ _ _ _ Hcc Hin) as Hpos.
      destruct (share_anon fr e t c (vpn u) f Hi Htc Hn Hin Hf Hm) as [Hinv1 Hv1]; [lia|]. fold i in Hinv1, Hv1.
      cbn [mbind option_bind]. change (negb (0 =? 0)) with false. cbn iota. unfold refs_up. cbn [i ppn]. rewrite Hf. cbn [mbind option_bind]. unfold put_desc. rewrite Hf.
      cbn [mbind option_bind]. unfold page_refcount_up, refcount_up. cbn [snd]. rewrite u32_small by (unfold is_u32; lia). fold (with_count f (count (desc f) + 1)).
      change (negb (0 =? 0)) with false. cbn iota.
      destruct (IH src1 dst1 (<[ppn (e t (vpn u)) := with_count f (count (desc f) + 1)]> fr) (upd (upd e t (vpn u) i) c (vpn u) i) (u + PMM_PAGE_SIZE)) as (err & src' & dst' & fr' & e' & E & Heff);
        [| |exact Hinv1|done|done|done| | |eexists err, src', dst', fr', e'; split; [exact E|]; eapply dup_cons; [exact Evpn| |exact Hv1|exact Heff]].
      * eapply entries_ext; [|exact Hs1]. intros m. rewrite upd_other_row, upd_row by done. done.
      * eapply entries_ext; [|exact Hd1]. intros m. rewrite upd_row. unfold upd1. destruct (m =? vpn u); [done|]. rewrite upd_other_row by done. done.
      * intros n' Hn'. eapply (Hrest fr); [|exact Hn']. intros m Hmu. rewrite upd_diff, upd_other_row by congruence. done.
      * intros q g. destruct (decide (q = ppn (e t (vpn u)))) as [->|Hq]; [rewrite lookup_insert_eq; intros [= <-]; simpl; lia|].
        rewrite lookup_insert_ne by done. intros Hg. specialize (Hcnt q g Hg). lia.
      * intros t' n' H1 H2. rewrite !upd_other_row by done. done.
    + cbn [mbind option_bind]. change (negb (0 =? 0)) with false. cbn iota.
      destruct (share_cached fr e t c (vpn u) f Hi Hn Hin Hf Hm) as [Hinv1 Hv1]. fold i in Hinv1, Hv1.
      destruct (IH src dst1 fr (upd e c (vpn u) i) (u + PMM_PAGE_SIZE)) as (err & src' & dst' & fr' & e' & E & Heff);
        [| |exact Hinv1|done|done|done| | |eexists err, src', dst', fr', e'; split; [exact E|]; eapply dup_cons; [exact Evpn| |exact Hv1|exact Heff]].
      * eapply entries_ext; [|exact Hs]. intros m. rewrite upd_other_row by done. done.
      * eapply entries_ext; [|exact Hd1]. intros m. rewrite upd_row. done.
      * intros n' Hn'. eapply (Hrest fr); [|exact Hn']. intros m Hmu. rewrite upd_diff by congruence. done.
      * intros q g Hg. specialize (Hcnt q g Hg). lia.
      * intros t' n' H1 H2. rewrite !upd_other_row by done. done.
Qed.
End Dup.

(** ** The loop of [vm_region_unmap] *)

Lemma unmap_frame_ok fr p f : fr !! p = Some f -> (mapper (desc f) = None -> 1 <= count (desc f) < 2 ^ 32) ->
  (if bool_decide (mapper (desc f) = None) then
     let '(refcount, d) := page_refcount_down (desc f) in
     fr ← put_desc fr p d;
     if refcount =? 1 then fr ← refs_up fr p; kmem_free_page fr p else Some fr
   else Some fr) = Some (<[p := dropped f]> fr).
Proof.
  intros Hf Hc. unfold dropped. case_bool_decide as Hm.
  - specialize (Hc Hm). rewrite Hm. unfold page_refcount_down, refcount_down. rewrite u32_small by (unfold is_u32; lia). unfold put_desc. rewrite Hf.
    cbn [mbind option_bind]. destruct (Z.eqb_spec (count (desc f)) 1) as [H1|H1]; [|done].
    unfold refs_up, put_desc. rewrite lookup_insert_eq. cbn [mbind option_bind]. rewrite insert_insert_eq.
    rewrite (free_page_ok _ p (with_count f 1)); [|rewrite lookup_insert_eq, H1; done|done]. rewrite insert_insert_eq. done.
  - destruct (mapper (desc f)); [|done]. rewrite insert_id; done.
Qed.

Lemma if_bool_ext {A} (P Q : Prop) `{Decision P, Decision Q} (a b : A) : (P <-> Q) -> (if bool_decide P then a else b) = if bool_decide Q then a else b.
Proof. intros HPQ. rewrite (bool_decide_ext P Q HPQ). done. Qed.

Lemma unmap_loop_ok t k : forall pm fr e u, space_entries pm (e t) -> frames_inv fr e ->
  (k <> 0%nat -> user u) -> u + PMM_PAGE_SIZE * Z.of_nat k <= CONFIG_KERNEL_OFFSET ->
  exists pm' fr' e', unmap_loop k pm fr u false = Some (pm', fr') /\ space_entries pm' (e' t) /\ frames_inv fr' e' /\
    (forall t' n', t' <> t -> e' t' n' = e t' n') /\
    forall t' n', view fr' e' t' n' = if bool_decide (t' = t /\ vpn u <= n' < vpn u + Z.of_nat k) then None else view fr e t' n'.
Proof.
  induction k as [|k IH]; intros pm fr e u Hsp Hinv Huser Hb.
  { eexists _, _, e. split_and!; try done. intros t' n'. rewrite bool_decide_eq_false_2 by lia. done. }
  assert (Hu : user u) by (apply Huser; done). destruct (next_page u k Hu Hb) as (Eadd & Evpn & Hu' & Hb').
  (* the first page, then the others *)
  assert (Hstep : forall pm1 fr1 e1, space_entries pm1 (e1 t) -> frames_inv fr1 e1 -> (forall t' n', t' <> t -> e1 t' n' = e t' n') ->
     (forall t' n', view fr1 e1 t' n' = if bool_decide ((t', n') = (t, vpn u)) then None else view fr e t' n') ->
     exists pm' fr' e', unmap_loop k pm1 fr1 (u + PMM_PAGE_SIZE) false = Some (pm', fr') /\ space_entries pm' (e' t) /\ frames_inv fr' e' /\
       (forall t' n', t' <> t -> e' t' n' = e t' n') /\
       forall t' n', view fr' e' t' n' = if bool_decide (t' = t /\ vpn u <= n' < vpn u + Z.of_nat (S k)) then None else view fr e t' n').
  { intros pm1 fr1 e1 Hsp1 Hinv1 He1 Hv1. destruct (IH pm1 fr1 e1 (u + PMM_PAGE_SIZE)) as (pm' & fr' & e' & E & H1 & H2 & H3 & H4); try done.
    exists pm', fr', e'. split_and!; try done; [intros; rewrite H3, He1; done|]. intros t' n'. rewrite H4, Hv1, Evpn.
    destruct (decide (t' = t)) as [->|Ht]; [|rewrite !bool_decide_eq_false_2 by (congruence || tauto); done].
    destruct (decide (n' = vpn u)) as [->|Hn].
    - rewrite (bool_decide_eq_true_2 ((t, vpn u) = _)), (bool_decide_eq_true_2 (t = t /\ vpn u <= vpn u < vpn u + Z.of_nat (S k))) by (done || lia). destruct (bool_decide _); done.
    - rewrite (bool_decide_eq_false_2 ((t, n') = _)) by congruence. apply if_bool_ext. lia. }
  cbn [unmap_loop]. rewrite (proj2 Hsp u Hu). cbn [mbind option_bind]. rewrite Eadd. destruct (f_entry _ _ Hinv t (vpn u)) as [Hne|Hok].
  - rewrite Hne. change (is_set (attr no_entry) PMM_PRESENT) with false. cbn iota. apply (Hstep pm fr e); try done.
    intros t' n'. case_bool_decide as Hd; [|done]. injection Hd as -> ->. apply view_none. done.
  - pose proof (entry_not_none _ _ Hok) as Hin. pose proof Hok as [Hpr _ Hp28 (f & Hf & _) _]. rewrite Hpr, Hf. cbn [mbind option_bind].
    destruct (set_entry pm (e t) u Hsp Hu no_entry None) as [(Hz & _)|(pm1 & E1 & Hsp1 & _)]; try done; [destruct (entry_table pm (e t) u Hsp Hu Hin Hz)|].
    unfold no_entry in E1 at 1. rewrite E1. cbn [mbind option_bind]. rewrite (unmap_frame_ok fr _ f Hf).
    2: { intros Hm. eapply count_pos; [eapply f_count; done|done]. }
    cbn [mbind option_bind]. apply (Hstep pm1 _ (upd e t (vpn u) no_entry)).
    + eapply entries_ext; [|exact Hsp1]. intros m. rewrite upd_row. done.
    + eapply drop_entry; done.
    + intros t' n' Ht. apply upd_other_row. done.
    + intros t' n'. apply drop_view. done.
Qed.
