(* ===== verification/CowSpec.v ===== *)
(** * CowSpec: copy on write gives every task a memory of its own

    The contract of [vmm.c] for private regions is a memory for each task and page, [memory]: nothing before the first access, then words of its own.
    Faults, stores, duplications for a child and removals on the machine, where tasks share frames, implement it. *)

From S2P Require Import Prelude Bits ListH Page Rbtree Pmm PmmSpec VmRegion Fault FaultInv FaultTables FaultSpec FaultFork.

(** ** Operations *)

(** What happens to the memory of tasks: a fault, a store of a word by the processor, [vm_region_dup] for a child, [vm_region_unmap] *)
Inductive op :=
  | OpFault (t : Z) (region : vm_region_s) (vaddr flags cluster : Z) (ans : answers)
  | OpStore (t vaddr k v : Z)
  | OpDup (t c : Z) (region : vm_region_s) (talloc : Z -> option Z)
  | OpUnmap (t : Z) (region : vm_region_s).

(** The processor lets a store through when the entry is present and allows writing; otherwise the task faults and nothing is stored. *)
Definition store (m : machine) (t vaddr k v : Z) : option (Z * machine) :=
  pm ← spaces m !! t;
  i ← pmm_get_page pm vaddr;
  if is_set (attr i) PMM_PRESENT && is_set (attr i) PMM_WRITE then
    f ← frames m !! ppn i;
    Some (0, Machine (<[ppn i := Frame (desc f) (zset (words f) k v)]> (frames m)) (spaces m))
  else Some (EPERM, m).

Definition exec (m : machine) (o : op) : option (Z * machine) :=
  match o with
  | OpFault t region vaddr flags cluster ans => fault m t region vaddr flags cluster ans
  | OpStore t vaddr k v => store m t vaddr k v
  | OpDup t c region talloc =>
      src ← spaces m !! t; dst ← spaces m !! c;
      '(err, src, dst, fr) ← region_dup_pages region src dst (frames m) talloc;
      Some (err, Machine fr (<[t := src]> (<[c := dst]> (spaces m))))
  | OpUnmap t region =>
      pm ← spaces m !! t;
      '(pm, fr) ← vm_region_unmap region pm (frames m);
      Some (0, Machine fr (<[t := pm]> (spaces m)))
  end.

(** ** The contract *)

Notation memory := (Z -> Z -> option (list Z)).

Definition in_region (r : vm_region_s) (n : Z) : Prop := vpn (vm_start r) <= n < vpn (vm_start r) + region_pages r.

(** What an operation that answers [err] makes of the memory of the tasks *)
Definition effect (m : machine) (o : op) (err : Z) (A A' : memory) : Prop :=
  match o with
  | OpFault t region vaddr flags cluster ans =>
      (forall t' n', (t', n') <> (t, vpn vaddr) -> A' t' n' = A t' n') /\
      match A t (vpn vaddr) with
      | Some w => A' t (vpn vaddr) = Some w
      | None => A' t (vpn vaddr) = if err =? 0 then first_words m region ans else None
      end
  | OpStore t vaddr k v => forall t' n', A' t' n' =
      if (err =? 0) && bool_decide ((t', n') = (t, vpn vaddr)) then (fun w => zset w k v) <$> A t' n' else A t' n'
  | OpDup t c region _ =>
      (forall t' n', t' <> c \/ ~ in_region region n' -> A' t' n' = A t' n') /\
      (err = 0 -> forall n', in_region region n' -> A' c n' = A t n') /\ (err = 0 \/ err = ENOMEM)
  | OpUnmap t region => forall t' n', A' t' n' =
      if bool_decide (t' = t /\ vpn (vm_start region) <= n' < vpn (vm_start region) + region_pages region) then None else A t' n'
  end.

Definition region_range (r : vm_region_s) : Prop := 0 <= vm_start r <= vm_limit r /\ vm_limit r <= CONFIG_KERNEL_OFFSET.

(** What the callers and the allocator promise: answers that are free, and a frame for every copy on write *)
Definition legal (m : machine) (o : op) : Prop :=
  match o with
  | OpFault t region vaddr flags cluster ans => exists pm, spaces m !! t = Some pm /\ user vaddr /\ private_region region /\ answers_ok m pm vaddr ans /\
      (forall i, pmm_get_page pm vaddr = Some i -> is_set (attr i) PMM_COW = true -> a_page ans <> None)
  | OpStore t vaddr k v => is_Some (spaces m !! t) /\ user vaddr
  | OpDup t c region talloc => t <> c /\ is_Some (spaces m !! t) /\ region_range region /\
      (forall p f, frames m !! p = Some f -> count (desc f) + region_pages region < 2 ^ 32) /\
      exists dst, spaces m !! c = Some dst /\ fresh_tables dst talloc /\
        forall u, user u -> in_region region (vpn u) -> pmm_get_page dst u = Some no_entry
  | OpUnmap t region => is_Some (spaces m !! t) /\ region_range region /\ is_set (vm_flags region) VM_REG_LAZY = false
  end.

(** The machine [m] holds the memory [A]. *)
Definition holds (m : machine) (A : memory) : Prop := exists e, machine_ok m e /\ forall t n, view (frames m) e t n = A t n.

(** ** Each operation *)

Lemma pages_range r : region_range r -> Z.of_nat (Z.to_nat (region_pages r)) = region_pages r /\ 0 <= region_pages r /\
  vm_start r + PMM_PAGE_SIZE * region_pages r <= CONFIG_KERNEL_OFFSET /\ (Z.to_nat (region_pages r) <> 0%nat -> user (vm_start r)).
Proof.
  intros [H1 H2]. unfold region_pages, user, PMM_PAGE_SHIFT, PMM_PAGE_SIZE, CONFIG_KERNEL_OFFSET in *. rewrite u32_small by (unfold is_u32; lia).
  rewrite Z.shiftr_div_pow2 by lia. change (2 ^ 12) with 0x1000.
  pose proof (Z.div_mod (vm_limit r - vm_start r) 0x1000). pose proof (Z.mod_pos_bound (vm_limit r - vm_start r) 0x1000).
  assert (0 <= (vm_limit r - vm_start r) / 0x1000) by (apply Z.div_pos; lia). lia.
Qed.

(** The page of an address of a region in user space *)
Lemma region_addr r n : region_range r -> in_region r n -> exists u, user u /\ vpn u = n.
Proof.
  intros Hr Hn. destruct (pages_range r Hr) as (_ & _ & Hb & _). exists (n * 0x1000). unfold in_region, vpn, user, PMM_PAGE_SHIFT, PMM_PAGE_SIZE, CONFIG_KERNEL_OFFSET in *.
  destruct Hr as [H1 H2]. rewrite Z.shiftr_div_pow2 in * by lia. change (2 ^ 12) with 0x1000 in *. rewrite Z.div_mul by lia.
  pose proof (Z.div_mod (vm_start r) 0x1000). pose proof (Z.mod_pos_bound (vm_start r) 0x1000). assert (0 <= vm_start r / 0x1000) by (apply Z.div_pos; lia). lia.
Qed.

Lemma fault_step m A t region vaddr flags cluster ans : holds m A -> legal m (OpFault t region vaddr flags cluster ans) ->
  exists err m' A', fault m t region vaddr flags cluster ans = Some (err, m') /\ effect m (OpFault t region vaddr flags cluster ans) err A A' /\ holds m' A'.
Proof.
  intros (e & Hm & HA) (pm & Ht & Hu & Hr & Hans & Hcow).
  destruct (fault_ok m e t pm region vaddr flags cluster ans Hm Ht Hu Hr Hans) as (err & m' & e' & E & [H1 H2 H3 H4 H5 H6]).
  { apply Hcow. apply (m_space _ _ Hm t pm Ht). done. }
  exists err, m', (view (frames m') e'). split_and!; [done| |exists e'; done]. split; [intros; rewrite H2, HA; done|].
  rewrite <- HA. destruct (decide (e t (vpn vaddr) = no_entry)) as [Hn|Hn].
  - rewrite (view_none _ _ _ _ Hn). destruct (Z.eqb_spec err 0) as [H0|H0]; [apply H4; done|apply H5; done].
  - destruct (entry_frame _ _ (m_frames _ _ Hm) _ _ Hn) as (f & Hf & _). rewrite H3 by done. rewrite view_some, Hf by done. done.
Qed.

(** An entry that allows writing is the only one of its frame. *)
Lemma write_alone fr e t n t' n' : frames_inv fr e -> e t n <> no_entry -> e t' n' <> no_entry -> is_set (attr (e t n)) PMM_WRITE = true ->
  ppn (e t' n') = ppn (e t n) -> (t', n') = (t, n).
Proof.
  intros Hi Hn Hn' Hw Hp. destruct (f_entry _ _ Hi t n) as [|[_ _ _ (f & Hf & _ & Hww) _]]; [done|]. destruct (Hww Hw) as [Hm Hc].
  eapply count_one; try done. rewrite <- Hc. eapply f_count; done.
Qed.

Lemma store_step m A t vaddr k v : holds m A -> legal m (OpStore t vaddr k v) ->
  exists err m' A', store m t vaddr k v = Some (err, m') /\ effect m (OpStore t vaddr k v) err A A' /\ holds m' A'.
Proof.
  intros (e & Hm & HA) ([pm Ht] & Hu). pose proof (m_space _ _ Hm t pm Ht) as Hsp. pose proof (m_frames _ _ Hm) as Hi.
  unfold store. rewrite Ht. cbn [mbind option_bind]. rewrite (proj2 Hsp vaddr Hu). cbn [mbind option_bind].
  destruct (is_set (attr (e t (vpn vaddr))) PMM_PRESENT && is_set (attr (e t (vpn vaddr))) PMM_WRITE) eqn:Hpw.
  2: { exists EPERM, m, A. split_and!; [done|done|exists e; done]. }
  apply andb_true_iff in Hpw as [Hpr Hw]. destruct (f_entry _ _ Hi t (vpn vaddr)) as [Hn|Hok]; [rewrite Hn in Hpr; done|].
  pose proof (entry_not_none _ _ Hok) as Hn. destruct (entry_frame _ _ Hi _ _ Hn) as (f & Hf & _). rewrite Hf. cbn [mbind option_bind].
  set (p := ppn (e t (vpn vaddr))) in *. set (fr' := <[p := Frame (desc f) (zset (words f) k v)]> (frames m)).
  assert (Hlook : forall q, exists g, fr' !! q = (fun f0 => Frame (desc f0) (g f0)) <$> frames m !! q).
  { intros q. unfold fr'. destruct (decide (q = p)) as [->|Hq]; [exists (fun f0 => zset (words f0) k v); rewrite lookup_insert_eq, Hf; done|].
    exists words. rewrite lookup_insert_ne by done. destruct (frames m !! q) as [[]|]; done. }
  assert (Hi' : frames_inv fr' e).
  { split.
    - intros t' n'. destruct (f_entry _ _ Hi t' n') as [|[G1 G2 G3 (g & Hg & G4) G5]]; [auto|right]. split; try done.
      destruct (Hlook (ppn (e t' n'))) as [w ->]. rewrite Hg. exists (Frame (desc g) (w g)). done.
    - intros t' n' g Hn' Hg Hmg. destruct (Hlook (ppn (e t' n'))) as [w Hlw]. rewrite Hlw in Hg. apply fmap_Some in Hg as (g0 & Hg0 & ->).
      apply (f_count _ _ Hi t' n' g0); done. }
  eexists 0, _, (view fr' e). split; [done|]. split; [|exists e; split; [split; [apply Hm|apply Hm|exact Hi']|done]].
  intros t' n'. change (0 =? 0) with true. cbn [andb]. rewrite <- HA. destruct (decide (e t' n' = no_entry)) as [Hn'|Hn'].
  { rewrite !view_none by done. case_bool_decide; done. }
  rewrite !view_some by done. case_bool_decide as Hd.
  - injection Hd as -> ->. fold p. unfold fr'. rewrite lookup_insert_eq, Hf. done.
  - unfold fr'. rewrite lookup_insert_ne; [done|]. intros Hp. apply Hd. eapply write_alone; try done.
Qed.

Lemma dup_step m A t c region talloc : holds m A -> legal m (OpDup t c region talloc) ->
  exists err m' A', exec m (OpDup t c region talloc) = Some (err, m') /\ effect m (OpDup t c region talloc) err A A' /\ holds m' A'.
Proof.
  intros (e & Hm & HA) (Htc & [src Hs] & Hr & Hcnt & dst & Hd & Hfresh & Hempty). destruct (pages_range _ Hr) as (Ek & Hk & Hb & Hu).
  destruct (dup_loop_ok t c talloc Htc (Z.to_nat (region_pages region)) src dst (frames m) e (vm_start region)) as (err & src' & dst' & fr' & e' & E & [D1 D2 D3 D4 D5 D6 D7 D8]);
    rewrite ?Ek in *; try done; [apply Hm; done|apply Hm; done|apply Hm| |].
  { intros n' Hn'. destruct (region_addr region n' Hr Hn') as (u & Huu & <-). pose proof (proj2 (m_space _ _ Hm c dst Hd) u Huu) as Hg.
    rewrite (Hempty u Huu Hn') in Hg. injection Hg as <-. done. }
  cbn [exec]. rewrite Hs, Hd. cbn [mbind option_bind]. unfold region_dup_pages. rewrite E. cbn [mbind option_bind].
  eexists err, _, (view fr' e'). split; [done|]. split.
  - split_and!; [|intros H0 n' Hn'; rewrite <- HA; apply D7; done|done]. intros t' n' Hor. rewrite <- HA.
    destruct (decide (t' = c)) as [->|Hne]; [apply D6|apply D5; done]. destruct Hor; [done|]. done.
  - exists e'. split; [|done]. split; [| |done]; cbn [spaces].
    + intros t' pm Hp. destruct (decide (t' = t)) as [->|H1]; [rewrite lookup_insert_eq in Hp; injection Hp as <-; done|]. rewrite lookup_insert_ne in Hp by done.
      destruct (decide (t' = c)) as [->|H2]; [rewrite lookup_insert_eq in Hp; injection Hp as <-; done|]. rewrite lookup_insert_ne in Hp by done.
      eapply entries_ext; [|apply Hm; exact Hp]. intros n. rewrite D4; done.
    + intros t' n Hp. apply lookup_insert_None in Hp as [Hp H1]. apply lookup_insert_None in Hp as [Hp H2]. rewrite D4 by done. apply Hm. done.
Qed.

Lemma unmap_step m A t region : holds m A -> legal m (OpUnmap t region) ->
  exists err m' A', exec m (OpUnmap t region) = Some (err, m') /\ effect m (OpUnmap t region) err A A' /\ holds m' A'.
Proof.
  intros (e & Hm & HA) ([pm Ht] & Hr & Hlazy). destruct (pages_range _ Hr) as (Ek & Hk & Hb & Hu).
  destruct (unmap_loop_ok t (Z.to_nat (region_pages region)) pm (frames m) e (vm_start region)) as (pm' & fr' & e' & E & D1 & D2 & D3 & D4);
    rewrite ?Ek in *; try done; [apply Hm; done|apply Hm|].
  cbn [exec]. rewrite Ht. cbn [mbind option_bind]. unfold vm_region_unmap. rewrite Hlazy, E. cbn [mbind option_bind].
  eexists 0, _, (view fr' e'). split; [done|]. split; [intros t' n'; rewrite D4, HA; done|]. exists e'. split; [|done]. split; [| |done]; cbn [spaces].
  - intros t' q Hq. destruct (decide (t' = t)) as [->|H1]; [rewrite lookup_insert_eq in Hq; injection Hq as <-; done|]. rewrite lookup_insert_ne in Hq by done.
    eapply entries_ext; [|apply Hm; exact Hq]. intros n. rewrite D3; done.
  - intros t' n Hp. apply lookup_insert_None in Hp as [Hp H1]. rewrite D3 by done. apply Hm. done.
Qed.

(** ** Sequences *)

Inductive behaves : machine -> memory -> list op -> machine -> memory -> Prop :=
  | behaves_nil m A : behaves m A [] m A
  | behaves_cons m A o err m1 A1 os m' A' : exec m o = Some (err, m1) -> effect m o err A A1 -> behaves m1 A1 os m' A' ->
      behaves m A (o :: os) m' A'.

Fixpoint legal_run (m : machine) (os : list op) : Prop :=
  match os with
  | [] => True
  | o :: os => legal m o /\ forall err m1, exec m o = Some (err, m1) -> legal_run m1 os
  end.

Lemma op_step m A o : holds m A -> legal m o -> exists err m' A', exec m o = Some (err, m') /\ effect m o err A A' /\ holds m' A'.
Proof.
  destruct o; intros Hh Hl; [apply fault_step|apply store_step|apply dup_step|apply unmap_step]; done.
Qed.

(** ** A machine to start from *)

Definition empty_space : pmm_s := Pmm (replicate 2048 0) ∅.
Definition demo_frame : frame := Frame (set_state (page_init 0) PGFREE) (replicate 1024 5).
Definition demo_machine : machine :=
  Machine (list_to_map [(100, demo_frame); (101, demo_frame); (102, demo_frame)]) (list_to_map [(1, empty_space); (2, empty_space)]).
(** A private region of four pages, to read and write *)
Definition demo_region : vm_region_s :=
  vm_region_init (VmRegion 0 0 0 0 0 0 0 0 0 0 0) 0x10000 0x14000 (Z.lor VM_REG_RD VM_REG_WR) 0 (Z.lor VM_REG_PRIVATE VM_REG_ANON).

Lemma empty_space_entries : space_entries empty_space (fun _ => no_entry).
Proof.
  assert (Hz : forall u, user u -> zget (pgdir empty_space) (MMU_PDE u) = Some 0).
  { intros u Hu. pose proof (pde_bound _ (user_u32 _ Hu)) as Hb. unfold zget, empty_space. cbn [pgdir]. apply lookup_replicate_2. lia. }
  split; [split; [apply empty_dir_wf|]|].
  - intros u Hu. exists 0. auto.
  - intros u Hu. apply get_unmapped. auto.
Qed.

Lemma demo_holds : holds demo_machine (fun _ _ => None).
Proof.
  exists (fun _ _ => no_entry). split; [|done]. split; [|done|].
  - intros t pm Ht. assert (pm = empty_space) as ->; [|apply empty_space_entries]. unfold demo_machine in Ht. cbn [spaces] in Ht.
    apply elem_of_list_to_map_2 in Ht. set_solver.
  - split; [auto|done].
Qed.

Lemma demo_free q : q ∈ [100; 101; 102] -> free_frame (frames demo_machine) q.
Proof.
  intros Hq. assert (frames demo_machine !! q = Some demo_frame) by (repeat (apply elem_of_cons in Hq as [->|Hq]; [done|]); apply not_elem_of_nil in Hq; done).
  split; [repeat (apply elem_of_cons in Hq as [->|Hq]; [lia|]); apply not_elem_of_nil in Hq; done|]. exists demo_frame. done.
Qed.

Lemma demo_region_private : private_region demo_region.
Proof.
  split; [split; [repeat split; vm_compute; done|vm_compute; done]|vm_compute; done|right; vm_compute; done].
Qed.

Definition demo_answers (page table : Z) : answers := Answers (Some page) (Some table) None.

(** A task writes, its child writes the same word: each one reads what it wrote. *)
Definition demo_run : list op :=
  [ OpFault 1 demo_region 0x10008 0x1 0 (demo_answers 100 200); OpStore 1 0x10008 2 7; OpDup 1 2 demo_region (fun _ => Some 201);
    OpFault 2 demo_region 0x10008 0x1 0 (demo_answers 101 202); OpStore 2 0x10008 2 9 ].
Fixpoint exec_all (m : machine) (os : list op) : option machine :=
  match os with
  | [] => Some m
  | o :: os => '(_, m) ← exec m o; exec_all m os
  end.
Definition read (m : machine) (t vaddr k : Z) : option Z :=
  pm ← spaces m !! t; i ← pmm_get_page pm vaddr; f ← frames m !! ppn i; zget (words f) k.

Example cow_demo : (m ← exec_all demo_machine demo_run; Some (read m 1 0x10008 2, read m 2 0x10008 2, read m 2 0x10008 3)) =
  Some (Some 7, Some 9, Some 0).
Proof. vm_compute. reflexivity. Qed.

(** ** Theorem *)

(** C4: For any sequence of page faults ([vm_region_update] with [vmm_default_pagefault]), stores, duplications of private regions for a child
    ([vm_region_dup]) and removals ([vm_region_unmap]) that is [legal] (the allocator gives free frames, and one for every fault on a page to copy on write:
    without it two tasks can share a page or lose one, [cow_enomem_shares] and [cow_enomem_frees]; regions are plain private ones,
    those that are removed are not lazy; no page is migrated), the operations return and
    the tasks see a memory of their own: a fault changes no page but makes the page of a first access appear, with zeros or the contents of the file; a store
    changes the page of its task alone; a child starts with the pages of its parent, and neither sees later stores of the other; a removal takes the pages
    of the region from its task alone. *)
Theorem cow_private_memory m A os : holds m A -> legal_run m os -> exists m' A', behaves m A os m' A' /\ holds m' A'.
Proof.
  revert m A. induction os as [|o os IH]; intros m A Hh Hl; [exists m, A; split; [constructor|done]|].
  destruct Hl as [Ho Hl]. destruct (op_step m A o Hh Ho) as (err & m1 & A1 & E & He & Hh1).
  destruct (IH m1 A1 Hh1 (Hl _ _ E)) as (m' & A' & Hb & Hh'). exists m', A'. split; [econstructor; done|done].
Qed.

Lemma cow_private_memory_witness : exists m' A', behaves demo_machine (fun _ _ => None)
    [OpFault 1 demo_region 0x10008 0x1 0 (demo_answers 100 200)] m' A' /\ holds m' A'.
Proof.
  apply (cow_private_memory demo_machine (fun _ _ => None) [OpFault 1 demo_region 0x10008 0x1 0 (demo_answers 100 200)]).
  - exact demo_holds.
  - split; [|intros; exact I]. exists empty_space. split; [reflexivity|]. split; [unfold user, CONFIG_KERNEL_OFFSET; lia|]. split; [exact demo_region_private|].
    split; [split|].
    + intros q Hq. injection Hq as <-. apply demo_free. set_solver.
    + intros p _ Hp. injection Hp as <-. split; [lia|]. intros i v _ Hv Ht. apply lookup_replicate in Hv as [-> _]. apply zero_to_table in Ht. destruct Ht.
    + discriminate.
    + intros i Hi Hc. discriminate.
Defined.

(** ** Regions as they are made *)

(** C27: [vm_region_init] makes a well-formed private region for a range of user addresses that ends 64 KB before the end of the addresses at the latest, with some
    of the rights, for flags other than VM_REG_HEAP (a heap takes the end of its blocks from elsewhere) and VM_REG_HUGETLB: whole blocks of 64 KB that contain the range, page attributes
    that are present, plain and writable exactly when writing is asked for, and the right to read with the right to write. *)
Theorem vm_region_init_typed r0 start limit prot offset flags :
  is_set flags VM_REG_HEAP = false -> is_set flags VM_REG_HUGETLB = false -> 0 <= start < limit -> limit + 2 ^ 16 <= 2 ^ 32 -> 0 < prot < 8 ->
  let r := vm_region_init r0 start limit prot offset flags in
  private_region r /\ vm_begin r mod 2 ^ 16 = 0 /\ vm_end r mod 2 ^ 16 = 0 /\ vm_begin r <= vm_start r < vm_limit r /\ vm_limit r <= vm_end r /\
  vm_start r = start /\ vm_limit r = limit /\ is_set (vm_pgprot r) PMM_WRITE = is_set prot VM_REG_WR /\
  (is_set prot VM_REG_WR = true -> is_set (vm_prot r) VM_REG_RD = true).
Proof.
  intros Hheap Hhuge Hs Hl Hp r. unfold r, vm_region_init. rewrite Hheap, Hhuge. change (1 <<! CONFIG_VM_REGION_KEYWIDTH) with (2 ^ 16).
  destruct (ARROUND_UP_spec limit 16) as [Hm He]; [lia..|]. pose proof (pow2_mask_clear start 16 ltac:(lia) ltac:(unfold is_u32; lia)) as Hdown.
  pose proof (Z.mod_pos_bound start (2 ^ 16) ltac:(lia)) as Hmod. pose proof (Z.div_mod start (2 ^ 16) ltac:(lia)) as Hdiv.
  assert (Hb : ARROUND_DOWN start (2 ^ 16) mod 2 ^ 16 = 0 /\ ARROUND_DOWN start (2 ^ 16) <= start).
  { unfold ARROUND_DOWN. rewrite Hdown. split; [|lia]. replace (start - start mod 2 ^ 16) with (start / 2 ^ 16 * 2 ^ 16) by lia. apply Z.mod_mul. lia. }
  assert (Hc : prot = 1 \/ prot = 2 \/ prot = 3 \/ prot = 4 \/ prot = 5 \/ prot = 6 \/ prot = 7) by lia.
  cbv zeta in Hm, He. set (b := ARROUND_DOWN start (2 ^ 16)) in *. set (e := ARROUND_UP limit (2 ^ 16)) in *. clearbody b e. clear Hdown Hdiv Hmod. destruct Hb as [Hb1 Hb2].
  decompose [or] Hc; subst prot; (split; [split; [split; [repeat split; vm_compute; done|vm_compute; done]|vm_compute; done|vm_compute; auto]|]);
    (split_and!; [exact Hb1|exact Hm|exact Hb2|exact (proj2 Hs)|exact (proj1 He)|reflexivity|reflexivity|vm_compute; reflexivity|vm_compute; done]).
Qed.

Lemma vm_region_init_typed_witness : private_region demo_region /\ vm_begin demo_region = 0x10000 /\ vm_end demo_region = 0x20000.
Proof.
  split; [|split; reflexivity].
  apply (vm_region_init_typed (VmRegion 0 0 0 0 0 0 0 0 0 0 0) 0x10000 0x14000 (Z.lor VM_REG_RD VM_REG_WR) 0 (Z.lor VM_REG_PRIVATE VM_REG_ANON)).
  - vm_compute. reflexivity.
  - vm_compute. reflexivity.
  - lia.
  - lia.
  - vm_compute. split; reflexivity.
Defined.

(** ** What the code does not promise *)

Definition no_frame : answers := Answers None (Some 202) None.
Definition frame_state (m : machine) (p : Z) : option page_state_t := (fun f => state (desc f)) <$> frames m !! p.
Definition entry_of (m : machine) (t vaddr : Z) : option pmm_page_info := pm ← spaces m !! t; pmm_get_page pm vaddr.
Definition parent_and_child : list op :=
  [ OpFault 1 demo_region 0x10008 0x1 0 (demo_answers 100 200); OpStore 1 0x10008 2 7; OpDup 1 2 demo_region (fun _ => Some 201) ].

(** [vmm_do_cow] counts the reference of the task out before it asks for a frame: when there is none, the other task is taken for the only user of the
    frame and writes to it.  Here the child reads 9, which it never wrote. *)
Theorem cow_enomem_shares :
  (m ← exec_all demo_machine (parent_and_child ++ [OpFault 2 demo_region 0x10008 0x1 0 no_frame; OpFault 1 demo_region 0x10008 0x1 0 no_frame; OpStore 1 0x10008 2 9]);
   read m 2 0x10008 2) = Some 9.
Proof. vm_compute. reflexivity. Qed.

(** When the page is in another cluster and there is no frame to copy it to, [vmm_do_cow] frees the page that the entry still maps. *)
Theorem cow_enomem_frees :
  (m ← exec_all demo_machine (parent_and_child ++ [OpUnmap 2 demo_region; OpFault 1 demo_region 0x10008 0x1 1 no_frame]);
   s ← frame_state m 100; i ← entry_of m 1 0x10008; Some (s, ppn i, is_set (attr i) PMM_PRESENT)) = Some (PGFREE, 100, true).
Proof. vm_compute. reflexivity. Qed.

(** [vmm_do_migrate] counts the reference of a shared page out and then frees the page: it is free while the parent maps it. *)
Theorem migrate_frees_shared :
  (m ← exec_all demo_machine parent_and_child; pm ← spaces m !! 2; pm ← vmm_madvise_migrate pm 0x10000 0x4000;
   '(_, m) ← fault (Machine (frames m) (<[2 := pm]> (spaces m))) 2 demo_region 0x10008 0x1001 1 (demo_answers 101 202);
   s ← frame_state m 100; i ← entry_of m 1 0x10008; Some (s, ppn i, is_set (attr i) PMM_PRESENT)) = Some (PGFREE, 100, true).
Proof. vm_compute. reflexivity. Qed.

(** [vm_region_dup] copies the entries that are present: a page that [vmm_madvise_migrate] marked is not, and the child finds zeros. *)
Theorem dup_skips_migrating :
  (m ← exec_all demo_machine [OpFault 1 demo_region 0x10008 0x1 0 (demo_answers 100 200); OpStore 1 0x10008 2 7];
   pm ← spaces m !! 1; pm ← vmm_madvise_migrate pm 0x10000 0x4000;
   m ← exec_all (Machine (frames m) (<[1 := pm]> (spaces m)))
         [OpDup 1 2 demo_region (fun _ => Some 201); OpFault 2 demo_region 0x10008 0x1 0 (demo_answers 101 202)];
   Some (read m 1 0x10008 2, read m 2 0x10008 2)) = Some (Some 7, Some 0).
Proof. vm_compute. reflexivity. Qed.

(** A region of a page and a half, which [sys_mmap] accepts *)
Definition half_region : vm_region_s :=
  vm_region_init (VmRegion 0 0 0 0 0 0 0 0 0 0 0) 0x10000 0x11800 (Z.lor VM_REG_RD VM_REG_WR) 0 (Z.lor VM_REG_PRIVATE VM_REG_ANON).

(** The loops visit the whole pages of a region: the child does not get the last page. *)
Theorem dup_skips_last_page :
  (m ← exec_all demo_machine [ OpFault 1 half_region 0x11008 0x1 0 (demo_answers 100 200); OpStore 1 0x11008 2 7; OpDup 1 2 half_region (fun _ => Some 201);
                               OpFault 2 half_region 0x11008 0x1 0 (demo_answers 101 202) ];
   Some (read m 1 0x11008 2, read m 2 0x11008 2)) = Some (Some 7, Some 0).
Proof. vm_compute. reflexivity. Qed.

(** [vmm_sbrk] tests [heap_current], which it does not move: the calls add up to more than the greatest heap. *)
Theorem sbrk_unbounded : let '(err1, limit1) := vmm_sbrk 0x10000000 0x10000000 0x10000000 0x20000000 in
  let '(err2, limit2) := vmm_sbrk 0x10000000 limit1 0x10000000 0x20000000 in
  err1 = 0 /\ err2 = 0 /\ CONFIG_TASK_HEAP_MAX_SIZE < limit2.
Proof. vm_compute. done. Qed.
