(* ===== verification/FaultHandler.v ===== *)
(** * FaultHandler: from an address to the region that answers for it, [vmm_fault_handler] of [kernel/mm/vmm.c]

    The handler asks the keys database of the address space ([Keysdb]), a cache of the regions by blocks of 64 KB, then the tree of the regions
    ([VmRegion]), and lets the region resolve the fault ([Fault]). *)

From S2P Require Import Keysdb Prelude Bits ListH Page Rbtree RbShape RbInsert RbErase RbSpec Pmm PmmSpec VmRegion VmRegionInv VmRegionSpec Fault.

Inductive vmm_error := VMM_ERESOLVED | VMM_ECHECKUSPACE | VMM_ESIGSEGV | VMM_ESIGBUS.

(** ** Operations *)

Definition vmm_keysdb_update (db : Keysdb.keysdb_s) (recs : list bool) (region : Z) (r : vm_region_s) : option (Keysdb.keysdb_s * list bool) :=
  let key := Z.shiftr (vm_begin r) CONFIG_VM_REGION_KEYWIDTH in
  let count := Z.shiftr (vm_end r -! vm_begin r) CONFIG_VM_REGION_KEYWIDTH in
  '(_, db, recs) ← Keysdb.keysdb_bind db recs key count region;
  Some (db, recs).

(** The region of an address, and whether the keys database did not know it *)
Definition fault_region (v : vmm_s) (db : Keysdb.keysdb_s) (bad_vaddr : Z) : option (Z * bool) :=
  region ← Keysdb.keysdb_lookup db (Z.shiftr bad_vaddr CONFIG_VM_REGION_KEYWIDTH);
  if region =? 0 then region ← vm_region_find v bad_vaddr; Some (region, true) else Some (region, false).

(** The answer to a fault outside of the regions *)
Definition bad_address (flags : Z) : vmm_error := if pmm_except_isInKernelMode flags then VMM_ECHECKUSPACE else VMM_ESIGBUS.

(** [recs] are the answers to the allocations of the keys database.  An error of the region goes to FAULT_SEND_SIGSEGV, which falls into FAULT_SEND_SIGBUS. *)
Definition vmm_fault_handler (kthread : bool) (v : vmm_s) (db : Keysdb.keysdb_s) (recs : list bool) (pm : pmm_s) (fr : gmap Z frame)
    (bad_vaddr flags cluster : Z) (ans : answers) : option (vmm_error * Keysdb.keysdb_s * list bool * pmm_s * gmap Z frame) :=
  if CONFIG_KERNEL_OFFSET <=? bad_vaddr then Some (bad_address flags, db, recs, pm, fr) else
  if kthread then Some (VMM_ECHECKUSPACE, db, recs, pm, fr) else
  '(region, isMiss) ← fault_region v db bad_vaddr;
  if region =? 0 then Some (bad_address flags, db, recs, pm, fr) else
  r ← mem v !! region;
  if (vm_limit r <? bad_vaddr) || (bad_vaddr <? vm_start r) then Some (bad_address flags, db, recs, pm, fr) else
  '(db, recs) ← (if (isMiss : bool) then vmm_keysdb_update db recs region r else Some (db, recs));
  '(err, pm, fr) ← vm_region_update r pm fr bad_vaddr flags cluster ans;
  if negb (err =? 0) then
    let err := VMM_ESIGSEGV in
    let err := VMM_ESIGBUS in
    Some (err, db, recs, pm, fr)
  else Some (VMM_ERESOLVED, db, recs, pm, fr).

(** ** The cache of the regions *)

(** Regions as [vm_region_init] makes them: whole blocks *)
Definition whole_blocks (m : gmap Z vm_region_s) (rs : list Z) : Prop :=
  forall r, r ∈ rs -> rbegin m r mod 2 ^ 16 = 0 /\ rend m r mod 2 ^ 16 = 0.

(** A key of the database is a block of the region that it gives. *)
Definition cache_ok (m : gmap Z vm_region_s) (rs : list Z) (keys : gmap Z Z) : Prop :=
  forall k r, keys !! k = Some r -> r ∈ rs /\ rbegin m r <= k * 2 ^ 16 /\ (k + 1) * 2 ^ 16 <= rend m r.

Section Cache.
Context (v : vmm_s) (rs : list Z) (db : Keysdb.keysdb_s) (keys : gmap Z Z).
Context (Hinv : regions_inv v rs) (Hblk : whole_blocks (mem v) rs) (Hdb : Keysdb.models db keys) (Hc : cache_ok (mem v) rs keys).

Lemma key_block a : Z.shiftr a CONFIG_VM_REGION_KEYWIDTH = a / 2 ^ 16 /\ a / 2 ^ 16 * 2 ^ 16 <= a < (a / 2 ^ 16 + 1) * 2 ^ 16.
Proof.
  unfold CONFIG_VM_REGION_KEYWIDTH. rewrite Z.shiftr_div_pow2 by lia. pose proof (Z.div_mod a (2 ^ 16)). pose proof (Z.mod_pos_bound a (2 ^ 16)). lia.
Qed.

Lemma region_nonzero q : q ∈ rs -> q <> 0.
Proof.
  intros Hq. destruct (models_nodup _ _ (inv_tree _ _ Hinv)) as [_ Ha]. eapply Forall_forall in Ha as [Ha _]; [|exact Hq]. lia.
Qed.

(** Two regions do not have an address in common. *)
Lemma region_unique q q' a : q ∈ rs -> q' ∈ rs -> rbegin (mem v) q <= a < rend (mem v) q -> rbegin (mem v) q' <= a < rend (mem v) q' -> q = q'.
Proof.
  intros Hq Hq' Ha Ha'. assert (Hone : forall x, x ∈ rs -> rbegin (mem v) x <= a < rend (mem v) x -> first_above (mem v) a rs = x).
  { intros x Hx Hax. apply list_elem_of_split in Hx as (l1 & l2 & E). rewrite E. apply first_above_split; [|lia].
    eapply below_begin; [rewrite <- E; apply Hinv|lia]. }
  rewrite <- (Hone q Hq Ha). apply Hone; done.
Qed.

(** The region of an address is found through the database or the tree alike. *)
Lemma fault_region_ok a : is_u32 a ->
  exists reg miss, fault_region v db a = Some (reg, miss) /\
    (forall q, q ∈ rs -> rbegin (mem v) q <= a < rend (mem v) q -> reg = q) /\
    (reg <> 0 -> reg ∈ rs /\ a < rend (mem v) reg).
Proof.
  intros Ha. destruct (key_block a) as [Ek Hk]. unfold fault_region. rewrite Ek, (Keysdb.models_lookup _ _ Hdb).
  2: { unfold Keysdb.is_key, is_u32 in *. lia. }
  cbn [mbind option_bind]. destruct (keys !! (a / 2 ^ 16)) as [r|] eqn:Hr.
  - change (default 0 (Some r)) with r. destruct (Hc _ _ Hr) as (Hin & Hb & He). destruct (Z.eqb_spec r 0) as [H0|H0]; [destruct (region_nonzero r Hin H0)|].
    exists r, false. split_and!; [done|intros q Hq Haq; apply (region_unique r q a); try done; lia|intros _; split; [done|lia]].
  - change (default 0 None =? 0) with true. cbn iota. rewrite (find_ok v rs a Hinv). cbn [mbind option_bind]. eexists _, true. split; [done|]. split.
    + intros q Hq Haq. apply list_elem_of_split in Hq as (l1 & l2 & E). rewrite E. apply first_above_split; [|lia]. eapply below_begin; [rewrite <- E; apply Hinv|lia].
    + intros H0. apply first_above_in. done.
Qed.

(** The update keeps the cache. *)
Lemma keysdb_update_ok q x recs : q ∈ rs -> mem v !! q = Some x ->
  exists db' recs' keys', vmm_keysdb_update db recs q x = Some (db', recs') /\ Keysdb.models db' keys' /\ cache_ok (mem v) rs keys'.
Proof.
  intros Hq Hx. destruct (order_elem (mem v) rs q) as (y & Hy & Eb & Ee & Hlt & Hmax); [apply Hinv|done|]. rewrite Hx in Hy. injection Hy as <-.
  destruct (Hblk q Hq) as [Mb Me]. rewrite Eb in Mb. rewrite Ee in Me. unfold vmm_keysdb_update. rewrite u32_small by (unfold is_u32; lia).
  destruct (key_block (vm_begin x)) as [-> Hkb]. destruct (key_block (vm_end x - vm_begin x)) as [-> Hke].
  pose proof (Z.div_mod (vm_begin x) (2 ^ 16)) as Db. pose proof (Z.div_mod (vm_end x) (2 ^ 16)) as De.
  assert (Ediff : (vm_end x - vm_begin x) / 2 ^ 16 = vm_end x / 2 ^ 16 - vm_begin x / 2 ^ 16) by (rewrite Db, De, Mb, Me by lia; rewrite !Z.add_0_r, <- Z.mul_sub_distr_l, !(Z.mul_comm (2 ^ 16)), !Z.div_mul by lia; done).
  rewrite Ediff in *. destruct (Keysdb.bind_ok db keys recs (vm_begin x / 2 ^ 16) (vm_end x / 2 ^ 16 - vm_begin x / 2 ^ 16) q Hdb) as (err & db' & recs' & keys' & -> & Hdb' & Hcases);
    [apply region_nonzero; done|apply Z.div_pos; lia|lia|lia|].
  cbn [mbind option_bind]. exists db', recs', keys'. split_and!; [done|done|]. destruct Hcases as [(_ & _ & Hr)|[(_ & _ & ->)|(_ & ->)]]; [|done|done].
  intros k r Hk. rewrite Hr in Hk. destruct (Z.leb_spec (vm_begin x / 2 ^ 16) k), (Z.ltb_spec k (vm_begin x / 2 ^ 16 + (vm_end x / 2 ^ 16 - vm_begin x / 2 ^ 16)));
    cbn [andb] in Hk; try (apply Hc; done).
  injection Hk as <-. split; [done|]. rewrite Eb, Ee. lia.
Qed.
End Cache.

(** ** Theorem *)

(** [q] is the region of [rs] whose blocks contain [a].  Its own addresses are those from [vm_start] to [vm_limit], the second one excluded. *)
Definition contains (v : vmm_s) (rs : list Z) (a q : Z) (x : vm_region_s) : Prop :=
  q ∈ rs /\ mem v !! q = Some x /\ vm_begin x <= a < vm_end x.

(** C22: On an address space whose regions are in order and whose keys database gives each block its region, the fault handler lets the region that
    contains the address resolve the fault, through the database or the tree alike, and reports it resolved exactly when the region does; it answers for a bad
    address, with nothing changed, in kernel space, in kernel threads, where no region contains the address (regions start inside their blocks),
    and in the blocks of a region before its start and past its limit; and the database stays right, whatever is
    allocated for it.  The one bad address that it does not refuse is the limit itself, the first address after the region: when it is in the last block of the region,
    it is resolved as the addresses of the region are ([fault_at_limit]).  It never answers VMM_ESIGSEGV. *)
Theorem vmm_fault_dispatch v rs db keys kthread recs pm fr a flags cluster ans :
  regions_inv v rs -> whole_blocks (mem v) rs -> Keysdb.models db keys -> cache_ok (mem v) rs keys -> is_u32 a ->
  let handler := vmm_fault_handler kthread v db recs pm fr a flags cluster ans in
  (CONFIG_KERNEL_OFFSET <= a -> handler = Some (bad_address flags, db, recs, pm, fr)) /\
  (a < CONFIG_KERNEL_OFFSET -> kthread = true -> handler = Some (VMM_ECHECKUSPACE, db, recs, pm, fr)) /\
  (a < CONFIG_KERNEL_OFFSET -> kthread = false -> (forall q, q ∈ rs -> a < rbegin (mem v) q \/ rend (mem v) q <= a) ->
     (forall q x, q ∈ rs -> mem v !! q = Some x -> vm_begin x <= vm_start x) -> handler = Some (bad_address flags, db, recs, pm, fr)) /\
  (a < CONFIG_KERNEL_OFFSET -> kthread = false -> forall q x, contains v rs a q x -> a < vm_start x \/ vm_limit x < a ->
     handler = Some (bad_address flags, db, recs, pm, fr)) /\
  (a < CONFIG_KERNEL_OFFSET -> kthread = false -> forall q x err pm' fr', contains v rs a q x -> vm_start x <= a < vm_limit x \/ (a = vm_limit x /\ vm_start x <= a) ->
     vm_region_update x pm fr a flags cluster ans = Some (err, pm', fr') ->
     exists db' recs' keys', handler = Some ((if err =? 0 then VMM_ERESOLVED else VMM_ESIGBUS), db', recs', pm', fr') /\
       Keysdb.models db' keys' /\ cache_ok (mem v) rs keys') /\
  (forall db' recs' pm' fr', handler <> Some (VMM_ESIGSEGV, db', recs', pm', fr')).
Proof.
  intros Hinv Hblk Hdb Hc Ha handler. unfold handler, vmm_fault_handler.
  destruct (fault_region_ok v rs db keys Hinv Hdb Hc a Ha) as (reg & miss & Ereg & Hfound & Hin).
  assert (Hreg : forall q x, contains v rs a q x -> reg = q /\ q <> 0).
  { intros q x (Hq & Hx & Hbe). split; [apply Hfound; [done|]; unfold rbegin, rend; rewrite Hx; done|]. apply (region_nonzero v rs Hinv q Hq). }
  split_and!.
  - intros Hk. destruct (Z.leb_spec CONFIG_KERNEL_OFFSET a); [done|lia].
  - intros Hk ->. destruct (Z.leb_spec CONFIG_KERNEL_OFFSET a); [lia|done].
  - intros Hk -> Hno Hst. destruct (Z.leb_spec CONFIG_KERNEL_OFFSET a); [lia|]. rewrite Ereg. cbn [mbind option_bind].
    destruct (Z.eqb_spec reg 0) as [|H0]; [done|]. destruct (Hin H0) as [Hr Hend].
    destruct (order_elem (mem v) rs reg) as (x & Hx & Eb & Ee & _); [apply Hinv|done|]. rewrite Hx. cbn [mbind option_bind].
    pose proof (Hst reg x Hr Hx). destruct (Hno reg Hr) as [Hlt|]; [|lia]. destruct (Z.ltb_spec a (vm_start x)); [|lia]. rewrite orb_true_r. done.
  - intros Hk -> q x Hq Hout. destruct (Z.leb_spec CONFIG_KERNEL_OFFSET a); [lia|]. rewrite Ereg. cbn [mbind option_bind].
    destruct (Hreg q x Hq) as [-> Hz]. destruct Hq as (_ & Hx & _). destruct (Z.eqb_spec q 0) as [H0|_]; [done|]. rewrite Hx. cbn [mbind option_bind].
    destruct (Z.ltb_spec (vm_limit x) a); [done|]. destruct (Z.ltb_spec a (vm_start x)); [done|lia].
  - intros Hk -> q x err pm' fr' Hq Hsl Hup. destruct (Z.leb_spec CONFIG_KERNEL_OFFSET a); [lia|]. rewrite Ereg. cbn [mbind option_bind].
    destruct (Hreg q x Hq) as [-> Hz]. destruct Hq as (Hq & Hx & _).
    destruct (Z.eqb_spec q 0) as [H0|_]; [done|]. rewrite Hx. cbn [mbind option_bind].
    destruct (Z.ltb_spec (vm_limit x) a); [lia|]. destruct (Z.ltb_spec a (vm_start x)); [lia|]. cbn [orb].
    destruct (keysdb_update_ok v rs db keys Hinv Hblk Hdb Hc q x recs Hq Hx) as (db' & recs' & keys' & Eu & Hdb' & Hc').
    destruct miss; [rewrite Eu|]; cbn [mbind option_bind]; rewrite Hup; cbn [mbind option_bind];
      [exists db', recs', keys'|exists db, recs, keys]; (split; [destruct (Z.eqb_spec err 0); done|done]).
  - intros db' recs' pm' fr'. unfold bad_address, mbind, option_bind. repeat case_match; try done; intros [=].
Qed.

Definition handler_frames : gmap Z frame := {[ 100 := Frame (set_state (page_init 0) PGFREE) [] ]}.
Definition handler_answers : answers := Answers (Some 100) (Some 9) None.

Lemma vmm_fault_dispatch_witness : exists v pm' fr', regions_inv v [16; 32] /\
  vm_region_update (region_at VM_REG_FIXED 0x10000 0x20000) demo_space handler_frames 0x15000 1 0 handler_answers = Some (0, pm', fr') /\
  exists db' recs', vmm_fault_handler false v Keysdb.empty_db [true] demo_space handler_frames 0x15000 1 0 handler_answers =
    Some (VMM_ERESOLVED, db', recs', pm', fr').
Proof.
  destruct demo_regions as (v & Hinv & _ & Hm & _).
  assert (E : exists pm' fr', vm_region_update (region_at VM_REG_FIXED 0x10000 0x20000) demo_space handler_frames 0x15000 1 0 handler_answers = Some (0, pm', fr'))
    by (eexists _, _; vm_compute; reflexivity).
  destruct E as (pm' & fr' & E). exists v, pm', fr'. split; [exact Hinv|]. split; [exact E|].
  destruct (vmm_fault_dispatch v [16; 32] Keysdb.empty_db ∅ false [true] demo_space handler_frames 0x15000 1 0 handler_answers) as (_ & _ & _ & _ & H & _).
  - exact Hinv.
  - intros r Hr. rewrite Hm. apply elem_of_cons in Hr as [->|Hr]; [split; vm_compute; reflexivity|].
    apply elem_of_cons in Hr as [->|Hr]; [split; vm_compute; reflexivity|]. apply not_elem_of_nil in Hr. destruct Hr.
  - exact Keysdb.empty_db_models.
  - intros k r Hk. rewrite lookup_empty in Hk. discriminate.
  - unfold is_u32. lia.
  - destruct (H ltac:(vm_compute; reflexivity) eq_refl 16 (region_at VM_REG_FIXED 0x10000 0x20000) 0 pm' fr') as (db' & recs' & keys' & Eh & _).
    + split; [set_solver|]. split; [rewrite Hm; vm_compute; reflexivity|]. split; vm_compute; [discriminate|reflexivity].
    + left. split; vm_compute; [discriminate|reflexivity].
    + exact E.
    + exists db', recs'. exact Eh.
Defined.

Definition limit_region : vm_region_s :=
  vm_region_init (VmRegion 0 0 0 0 0 0 0 0 0 0 0) 0x10000 0x14000 (Z.lor VM_REG_RD VM_REG_WR) 0 (Z.lor (Z.lor VM_REG_PRIVATE VM_REG_ANON) VM_REG_FIXED).

(** The test of the limit is [bad_vaddr > vm_limit]: the page that follows a region is given to the task. *)
Theorem fault_at_limit : exists v, vm_region_attach (vmm_init (Vmm (RbTree 0 (list_to_map [(16, RbNode 0 0 0)])) ∅ (list_to_map [(16, limit_region)]) 0 0)) 16 = Some (0, v) /\
  vm_limit limit_region = 0x14000 /\
  ('(err, _, _, pm, _) ← vmm_fault_handler false v Keysdb.empty_db [true] demo_space handler_frames 0x14000 1 0 handler_answers;
   i ← pmm_get_page pm 0x14000; Some (err, is_set (attr i) PMM_PRESENT, ppn i)) = Some (VMM_ERESOLVED, true, 100).
Proof. eexists. split; [vm_compute; reflexivity|]. split; vm_compute; reflexivity. Qed.
