(* ===== verification/Ppm.v ===== *)
(** * Ppm: the physical page allocator of [kernel/mm/ppm.c] and [ppm.h]

    A binary buddy allocator over the page descriptors of one cluster.  [ppm_s] holds the
    descriptor table, the ten free lists (as pointers, in a list store) and the counters.
    The spinlock [ppm->lock] that brackets each operation is not part of the state: an
    operation is one critical section. *)

From S2P Require Import Prelude Bits ListH Page.

Definition PPM_MAX_ORDER : Z := 10.
Definition PPM_LAST_ORDER : Z := PPM_MAX_ORDER - 1.
Definition PPM_ID : Z := 0xF0F0A5A5.
Definition PMM_PAGE_SHIFT : Z := 12.
Definition PMM_PAGE_SIZE : Z := 0x1000.
Definition CONFIG_PPM_UPRIO_PGMIN : Z := 80.
Definition CONFIG_PPM_KPRIO_PGMIN : Z := 15.
Definition CONFIG_PPM_URGENT_PGMIN : Z := 5.

(** [sizeof(struct page_s)] on 32-bit MIPS: a word of bit fields, a wait queue of four
    words, [index], [mapper], [private], two list entries, the count and the lock. *)
Definition SIZEOF_PAGE : Z := 56.

(** [struct ppm_s].  [free_pages_nr_tbl] is the array of [free_pages[k].pages_nr]; the head
    of the free list of order [k] is at [Root k] of [links] and the [list] entry of page
    [i] at [Entry i].  A page pointer is its index in [pages_tbl].  [diags] counts the
    diagnostics printed by the state changes of pages. *)
Record ppm_s := Ppm {
  signature : Z;
  ppn_start : Z;
  vaddr_begin : Z;
  vaddr_start : Z;
  free_pages_nr_tbl : list Z;
  links : gmap laddr (list_entry laddr);
  pages_tbl : gmap Z page_s;
  pages_nr : Z;
  free_pages_nr : Z;
  uprio_pages_min : Z;
  kprio_pages_min : Z;
  urgent_pages_min : Z;
  begin : Z;
  diags : Z;
}.

Definition set_lists (ppm : ppm_s) (nr : list Z) (l : gmap laddr (list_entry laddr)) : ppm_s :=
  Ppm (signature ppm) (ppn_start ppm) (vaddr_begin ppm) (vaddr_start ppm) nr l (pages_tbl ppm)
    (pages_nr ppm) (free_pages_nr ppm) (uprio_pages_min ppm) (kprio_pages_min ppm)
    (urgent_pages_min ppm) (begin ppm) (diags ppm).
Definition set_pages (ppm : ppm_s) (t : gmap Z page_s) (d : Z) : ppm_s :=
  Ppm (signature ppm) (ppn_start ppm) (vaddr_begin ppm) (vaddr_start ppm) (free_pages_nr_tbl ppm)
    (links ppm) t (pages_nr ppm) (free_pages_nr ppm) (uprio_pages_min ppm) (kprio_pages_min ppm)
    (urgent_pages_min ppm) (begin ppm) d.
Definition set_free_nr (ppm : ppm_s) (n : Z) : ppm_s :=
  Ppm (signature ppm) (ppn_start ppm) (vaddr_begin ppm) (vaddr_start ppm) (free_pages_nr_tbl ppm)
    (links ppm) (pages_tbl ppm) (pages_nr ppm) n (uprio_pages_min ppm) (kprio_pages_min ppm)
    (urgent_pages_min ppm) (begin ppm) (diags ppm).
Definition set_mins (ppm : ppm_s) (u k g : Z) : ppm_s :=
  Ppm (signature ppm) (ppn_start ppm) (vaddr_begin ppm) (vaddr_start ppm) (free_pages_nr_tbl ppm)
    (links ppm) (pages_tbl ppm) (pages_nr ppm) (free_pages_nr ppm) u k g (begin ppm) (diags ppm).

(** ** Address conversions *)

Definition ppm_page2addr (ppm : ppm_s) (page : Z) : Z :=
  page *! PMM_PAGE_SIZE +! vaddr_begin ppm.
Definition ppm_addr2page (ppm : ppm_s) (addr : Z) : Z :=
  Z.shiftr (addr -! vaddr_begin ppm) PMM_PAGE_SHIFT.
Definition ppm_page2ppn (ppm : ppm_s) (page : Z) : Z := page +! ppn_start ppm.
Definition ppm_ppn2page (ppm : ppm_s) (ppn : Z) : Z := ppn -! ppn_start ppm.
Definition ppm_ppn2vma (ppm : ppm_s) (ppn : Z) : Z :=
  ((ppn -! ppn_start ppm) <<! PMM_PAGE_SHIFT) +! vaddr_begin ppm.
Definition ppm_vma2ppn (ppm : ppm_s) (vma : Z) : Z :=
  Z.shiftr (vma -! vaddr_begin ppm) PMM_PAGE_SHIFT +! ppn_start ppm.

(** ** Primitive accesses *)

(** [page_state_set(&pages_tbl[i], s)]; the target states used here never sleep. *)
Definition tbl_state_set (ppm : ppm_s) (i : Z) (s : page_state_t) : option ppm_s :=
  p ← pages_tbl ppm !! i;
  let t := page_state_set p 0 s in
  Some (set_pages ppm (<[i := t_page t]> (pages_tbl ppm)) (diags ppm + t_diags t)).

(** [pages_tbl[i].order = o] *)
Definition tbl_order_set (ppm : ppm_s) (i o : Z) : option ppm_s :=
  p ← pages_tbl ppm !! i;
  Some (set_pages ppm (<[i := set_order p o]> (pages_tbl ppm)) (diags ppm)).

(** [page_refcount_up(&pages_tbl[i])] and [page_refcount_down] *)
Definition tbl_refcount_up (ppm : ppm_s) (i : Z) : option (Z * ppm_s) :=
  p ← pages_tbl ppm !! i;
  let '(old, p') := page_refcount_up p in
  Some (old, set_pages ppm (<[i := p']> (pages_tbl ppm)) (diags ppm)).
Definition tbl_refcount_down (ppm : ppm_s) (i : Z) : option (Z * ppm_s) :=
  p ← pages_tbl ppm !! i;
  let '(old, p') := page_refcount_down p in
  Some (old, set_pages ppm (<[i := p']> (pages_tbl ppm)) (diags ppm)).

(** [list_unlink(&block->list); free_pages[k].pages_nr --] *)
Definition buddy_unlink (ppm : ppm_s) (k block : Z) : option ppm_s :=
  l ← list_unlink (links ppm) (Entry block);
  nr ← zget (free_pages_nr_tbl ppm) k;
  Some (set_lists ppm (zset (free_pages_nr_tbl ppm) k (nr -! 1)) l).

(** [list_add(&free_pages[k].root, &block->list); free_pages[k].pages_nr ++] *)
Definition buddy_add (ppm : ppm_s) (k block : Z) : option ppm_s :=
  l ← list_add (links ppm) (Root k) (Entry block);
  nr ← zget (free_pages_nr_tbl ppm) k;
  Some (set_lists ppm (zset (free_pages_nr_tbl ppm) k (nr +! 1)) l).

(** ** Freeing *)

(** The [for] loop of [ppm_free_pages_nolock], [n] iterations at most.  The result is the
    state, the order and the index reached. *)
Fixpoint free_merge (n : nat) (ppm : ppm_s) (current_order page_index : Z) : option (ppm_s * Z * Z) :=
  match n with
  | O => Some (ppm, current_order, page_index)
  | S n =>
      let block_index := Z.lxor page_index (1 <<! current_order) in
      block ← pages_tbl ppm !! block_index;
      if negb (bool_decide (page_state_get block = PGFREE)) || negb (order block =? current_order)
      then Some (ppm, current_order, page_index)
      else
        ppm ← buddy_unlink ppm current_order block_index;
        ppm ← tbl_order_set ppm block_index 0;
        free_merge n ppm (current_order + 1) (Z.land page_index block_index)
  end.

Definition ppm_free_pages_nolock (ppm : ppm_s) (page order index : Z) : option ppm_s :=
  ppm ← tbl_state_set ppm page PGFREE;
  let ppm := set_free_nr ppm (free_pages_nr ppm +! (1 <<! order)) in
  '(ppm, current_order, page_index) ← free_merge (Z.to_nat (PPM_LAST_ORDER - order)) ppm order index;
  ppm ← tbl_order_set ppm page_index current_order;
  buddy_add ppm current_order page_index.

Definition ppm_free_pages (ppm : ppm_s) (page : Z) : option ppm_s :=
  '(old, ppm) ← tbl_refcount_down ppm page;
  if 1 <? old then Some ppm
  else
    p ← pages_tbl ppm !! page;
    ppm_free_pages_nolock ppm page (order p) page.

(** ** Allocating *)

(** First loop of [ppm_do_alloc_pages]: the first non-empty list from [current_order] on
    gives its first block, which is unlinked. *)
Fixpoint alloc_find (n : nat) (ppm : ppm_s) (current_order : Z)
    : option (option (Z * Z * gmap laddr (list_entry laddr))) :=
  match n with
  | O => Some None
  | S n =>
      isEmpty ← list_empty (links ppm) (Root current_order);
      if negb isEmpty then
        first ← list_first (links ppm) (Root current_order);
        block ← list_container first;
        l ← list_unlink (links ppm) first;
        Some (Some (block, current_order, l))
      else alloc_find n ppm (current_order + 1)
  end.

(** [while(current_order > order)]: return the upper halves to the free lists. *)
Fixpoint alloc_split (n : nat) (ppm : ppm_s) (block current_order current_size : Z) : option ppm_s :=
  match n with
  | O => Some ppm
  | S n =>
      let current_order := current_order - 1 in
      let current_size := Z.shiftr current_size 1 in
      let remaining_block := block + current_size in
      ppm ← tbl_order_set ppm remaining_block current_order;
      ppm ← buddy_add ppm current_order remaining_block;
      alloc_split n ppm block current_order current_size
  end.

Definition ppm_do_alloc_pages (ppm : ppm_s) (order flags : Z) : option (option Z * ppm_s) :=
  let ppm := set_pages ppm (pages_tbl ppm) (diags ppm + assertn (signature ppm =? PPM_ID)) in
  found ← alloc_find (Z.to_nat (PPM_MAX_ORDER - order)) ppm order;
  match found with
  | None => Some (None, ppm)
  | Some (block, current_order, l) =>
      let ppm := set_lists ppm (free_pages_nr_tbl ppm) l in
      let ppm := set_free_nr ppm (free_pages_nr ppm -! (1 <<! order)) in
      nr ← zget (free_pages_nr_tbl ppm) current_order;
      let ppm := set_lists ppm (zset (free_pages_nr_tbl ppm) current_order (nr -! 1)) (links ppm) in
      ppm ← alloc_split (Z.to_nat (current_order - order)) ppm block current_order (1 <<! current_order);
      ppm ← tbl_state_set ppm block PGINVALID;
      '(_, ppm) ← tbl_refcount_up ppm block;
      ppm ← tbl_order_set ppm block order;
      Some (Some block, ppm)
  end.

(** ** Initialisation *)

(** The fields of [struct boot_info_s] that the allocator reads. *)
Record boot_info_s := BootInfo {
  local_cluster_id : Z;
  boot_cluster_id : Z;
  reserved_start : Z;
  reserved_end : Z;
}.

Definition init_pages_tbl (n : Z) (cid : Z) : gmap Z page_s :=
  list_to_map ((fun i => (i, page_init cid)) <$> seqZ 0 n).

(** [for(i=0; i < n; i++) page_state_set(&pages_tbl[i], PGRESERVED);] *)
Fixpoint reserve_pages (n : nat) (ppm : ppm_s) (i : Z) : option ppm_s :=
  match n with
  | O => Some ppm
  | S n => ppm ← tbl_state_set ppm i PGRESERVED; reserve_pages n ppm (i + 1)
  end.

Definition reserved_pages_nr (ppm : ppm_s) : Z :=
  Z.shiftr (ARROUND_UP (pages_nr ppm *! SIZEOF_PAGE) PMM_PAGE_SIZE) PMM_PAGE_SHIFT
  +! Z.shiftr (vaddr_start ppm -! vaddr_begin ppm) PMM_PAGE_SHIFT.

Definition ppm_init_pages (ppm : ppm_s) (cid : Z) : option ppm_s :=
  let ppm := set_pages ppm (init_pages_tbl (pages_nr ppm) cid) (diags ppm) in
  reserve_pages (Z.to_nat (reserved_pages_nr ppm)) ppm 0.

(** The loop over [[reserved_start, reserved_end)] by steps of a page. *)
Fixpoint reserve_range (fuel : nat) (ppm : ppm_s) (info : boot_info_s) (reserved : Z) : option ppm_s :=
  if reserved <? reserved_end info then
    match fuel with
    | O => None
    | S fuel =>
        let page := if local_cluster_id info =? boot_cluster_id info
                    then ppm_ppn2page ppm (Z.shiftr reserved PMM_PAGE_SHIFT)
                    else ppm_addr2page ppm reserved in
        ppm ← tbl_state_set ppm page PGRESERVED;
        reserve_range fuel ppm info (reserved +! PMM_PAGE_SIZE)
    end
  else Some ppm.

(** The last loop of [ppm_init_finalize]: every page that is not reserved is freed. *)
Fixpoint free_all (n : nat) (ppm : ppm_s) (i : Z) : option ppm_s :=
  match n with
  | O => Some ppm
  | S n =>
      page ← pages_tbl ppm !! i;
      ppm ← (if negb (bool_decide (page_state_get page = PGRESERVED))
             then ppm_free_pages_nolock ppm i (order page) i else Some ppm);
      free_all n ppm (i + 1)
  end.

Definition ppm_init_finalize (ppm : ppm_s) (info : boot_info_s) : option ppm_s :=
  ppm ← ppm_init_pages ppm (local_cluster_id info);
  ppm ← reserve_range (Z.to_nat (reserved_end info - reserved_start info)) ppm info (reserved_start info);
  free_all (Z.to_nat (pages_nr ppm)) ppm 0.

(** [for(i=0; i < PPM_MAX_ORDER; i++)] of [ppm_init]: the list heads. *)
Fixpoint init_roots (n : nat) (l : gmap laddr (list_entry laddr)) (i : Z) : gmap laddr (list_entry laddr) :=
  match n with
  | O => l
  | S n => init_roots n (list_root_init l (Root i)) (i + 1)
  end.

Definition ppm_init (begin limit vaddr_begin vaddr_start : Z) (info : boot_info_s) : option (Z * ppm_s) :=
  let ppm := Ppm PPM_ID (Z.shiftr begin PMM_PAGE_SHIFT) vaddr_begin vaddr_start
               (replicate (Z.to_nat PPM_MAX_ORDER) 0) (init_roots (Z.to_nat PPM_MAX_ORDER) ∅ 0) ∅
               (Z.shiftr (limit -! begin) PMM_PAGE_SHIFT) 0 0 0 0 begin 0 in
  ppm ← ppm_init_finalize ppm info;
  Some (0, set_mins ppm ((free_pages_nr ppm *! CONFIG_PPM_UPRIO_PGMIN) / 100)
             ((free_pages_nr ppm *! CONFIG_PPM_KPRIO_PGMIN) / 100)
             ((free_pages_nr ppm *! CONFIG_PPM_URGENT_PGMIN) / 100)).
