(* ===== verification/PpmInv.v ===== *)
(** * PpmInv: the buddy invariant of the page allocator

    The abstract state of the allocator is a tiling of the page table by blocks: [bm] maps
    the first page of each block to its order and to whether it is free.  [ppm_inv] relates
    it to the descriptors, the free lists and the counters; the lemmas follow the loops of
    [Ppm] step by step, with the block that is being merged or split set apart. *)

From S2P Require Import Prelude Bits ListH Page Ppm.

(** ** Buddies *)

Definition buddy (i k : Z) : Z := Z.lxor i (2 ^ k).

Lemma pow2_pos k : 0 <= k -> 0 < 2 ^ k.
Proof. intros. apply Z.pow_pos_nonneg; lia. Qed.

Lemma pow2_S k : 0 <= k -> 2 ^ (k + 1) = 2 * 2 ^ k.
Proof. intros. rewrite Z.pow_add_r by lia. lia. Qed.

Lemma shl1_pow2 k : 0 <= k < 32 -> 1 <<! k = 2 ^ k.
Proof.
  intros. rewrite Z.shiftl_1_l. apply u32_small. unfold is_u32. split; [lia|].
  apply Z.pow_lt_mono_r; lia.
Qed.

Lemma land_pow2_0 i k : 0 <= k -> Z.testbit i k = false -> Z.land i (2 ^ k) = 0.
Proof.
  intros Hk Hb. apply Z.bits_inj'. intros n Hn. rewrite Z.land_spec, Z.testbit_0_l.
  destruct (Z.eq_dec n k) as [->|]; [by rewrite Hb|].
  rewrite Z.pow2_bits_false by lia. apply andb_false_r.
Qed.

Lemma lxor_clear i k : 0 <= k -> Z.testbit i k = false -> Z.lxor i (2 ^ k) = i + 2 ^ k.
Proof. intros. rewrite Z.add_nocarry_lxor; [done|by apply land_pow2_0]. Qed.

(** The block of order [k+1] that contains an aligned block: the block is its lower or its
    upper half, and the buddy is the other one. *)
Lemma buddy_cases i k : 0 <= k -> i mod 2 ^ k = 0 ->
  (i mod 2 ^ (k + 1) = 0 /\ buddy i k = i + 2 ^ k /\ Z.land i (buddy i k) = i) \/
  (i mod 2 ^ (k + 1) = 2 ^ k /\ buddy i k = i - 2 ^ k /\ Z.land i (buddy i k) = i - 2 ^ k).
Proof.
  intros Hk Hal. pose proof (pow2_pos k Hk). unfold buddy.
  assert (Hrem : i mod 2 ^ (k + 1) = 2 ^ k * ((i / 2 ^ k) mod 2)).
  { rewrite pow2_S, Z.mul_comm by lia. rewrite Z.rem_mul_r by lia. lia. }
  destruct (Z.testbit i k) eqn:E.
  - right. apply Z.testbit_true in E as Ho; [|lia]. rewrite Ho in Hrem.
    set (j := i - 2 ^ k).
    assert (Hj : Z.testbit j k = false).
    { apply Z.testbit_false; [lia|]. unfold j.
      replace (i - 2 ^ k) with (i + (-1) * 2 ^ k) by lia. rewrite Z.div_add by lia.
      rewrite Zplus_mod, Ho. done. }
    assert (Hi : i = Z.lxor j (2 ^ k)) by (rewrite lxor_clear by done; unfold j; lia).
    assert (Hx : Z.lxor i (2 ^ k) = j).
    { rewrite Hi at 1. rewrite Z.lxor_assoc, Z.lxor_nilpotent, Z.lxor_0_r. done. }
    rewrite Hx. split; [lia|]. split; [done|]. rewrite Hi at 1. apply Z.bits_inj'. intros n Hn.
    rewrite Z.land_spec, Z.lxor_spec. destruct (Z.eq_dec n k) as [->|].
    + by rewrite Hj, andb_false_r.
    + rewrite Z.pow2_bits_false, xorb_false_r by lia. apply andb_diag.
  - left. apply Z.testbit_false in E as Ho; [|lia]. rewrite Ho in Hrem.
    split; [lia|]. split; [by apply lxor_clear|].
    apply Z.bits_inj'. intros n Hn. rewrite Z.land_spec, Z.lxor_spec.
    destruct (Z.eq_dec n k) as [->|]; [by rewrite E|].
    rewrite Z.pow2_bits_false, xorb_false_r by lia. apply andb_diag.
Qed.

Lemma buddy_invol i k : buddy (buddy i k) k = i.
Proof. unfold buddy. rewrite Z.lxor_assoc, Z.lxor_nilpotent, Z.lxor_0_r. done. Qed.

Lemma mod_pow2_weaken i k m : 0 <= k <= m -> i mod 2 ^ m = 0 -> i mod 2 ^ k = 0.
Proof.
  intros Hk H. apply Z.mod_divide in H; [|pose proof (pow2_pos m); lia].
  apply Z.mod_divide; [pose proof (pow2_pos k); lia|].
  etrans; [|exact H]. exists (2 ^ (m - k)). rewrite <- Z.pow_add_r by lia. f_equal. lia.
Qed.

Lemma mod_add_mult a b d : 0 < d -> a mod d = 0 -> b mod d = 0 -> (a + b) mod d = 0.
Proof. intros. rewrite Zplus_mod, H0, H1. apply Z.mod_0_l. lia. Qed.

Lemma mod_sub_mult a b d : 0 < d -> a mod d = 0 -> b mod d = 0 -> (a - b) mod d = 0.
Proof. intros. rewrite Zminus_mod, H0, H1. apply Z.mod_0_l. lia. Qed.

(** Bounds on multiples. *)
Lemma mult_le a b d : 0 < d -> a mod d = 0 -> b mod d = 0 -> a < b -> a + d <= b.
Proof.
  intros Hd Ha Hb Hlt. pose proof (Z.div_mod a d ltac:(lia)). pose proof (Z.div_mod b d ltac:(lia)).
  assert (a / d < b / d) by (apply (Z.mul_lt_mono_pos_l d); lia).
  pose proof (Z.mul_le_mono_nonneg_l (a / d + 1) (b / d) d ltac:(lia) ltac:(lia)). lia.
Qed.

(** What the merge step needs of a buddy. *)
Lemma buddy_facts i k n : 0 <= k -> 0 <= i -> i mod 2 ^ k = 0 -> i + 2 ^ k <= n ->
  n mod 2 ^ (k + 1) = 0 ->
  let b := buddy i k in let h := Z.land i b in
  0 <= b /\ b mod 2 ^ k = 0 /\ b + 2 ^ k <= n /\ b <> i /\
  0 <= h /\ h mod 2 ^ (k + 1) = 0 /\ h + 2 ^ (k + 1) <= n /\
  (h = i /\ b = i + 2 ^ k \/ h = b /\ i = b + 2 ^ k).
Proof.
  intros Hk Hi Hal Hb Hn. pose proof (pow2_pos k Hk). pose proof (pow2_S k Hk) as HS.
  assert (Hself : 2 ^ k mod 2 ^ k = 0) by (apply Z.mod_same; lia).
  cbv zeta. destruct (buddy_cases i k Hk Hal) as [(Hm & Hbd & Hl)|(Hm & Hbd & Hl)];
    rewrite Hl, Hbd.
  - assert (i + 2 ^ (k + 1) <= n) by (apply mult_le; lia).
    split_and!; [lia|by apply mod_add_mult|lia|lia|lia|done|lia|left; lia].
  - pose proof (Z.mod_le i (2 ^ (k + 1)) ltac:(lia) ltac:(lia)).
    split_and!; [lia|by apply mod_sub_mult|lia|lia|lia| |lia|right; lia].
    rewrite Zminus_mod, Hm, (Z.mod_small (2 ^ k)), Z.sub_diag by lia. apply Z.mod_0_l. lia.
Qed.

(** An aligned block that strictly contains the aligned page [b] contains the whole pair of
    [b] and its buddy. *)
Lemma nested_block j m b i k h : 0 <= k -> 0 <= m -> j mod 2 ^ m = 0 -> b mod 2 ^ k = 0 ->
  j < b < j + 2 ^ m -> h mod 2 ^ (k + 1) = 0 ->
  (h = i /\ b = i + 2 ^ k \/ h = b /\ i = b + 2 ^ k) ->
  k + 1 <= m /\ j <= i < j + 2 ^ m.
Proof.
  intros Hk Hm Hj Hb Hin Hh Hor. pose proof (pow2_pos k Hk). pose proof (pow2_pos m Hm).
  pose proof (pow2_S k Hk).
  assert (Hkm : k + 1 <= m).
  { destruct (Z.le_gt_cases (k + 1) m) as [|Hgt]; [done|exfalso].
    assert (Hb' : b mod 2 ^ m = 0) by (apply (mod_pow2_weaken _ _ k); [lia|done]).
    pose proof (mult_le j b (2 ^ m)). lia. }
  split; [done|].
  assert (Hj' : j mod 2 ^ (k + 1) = 0) by (apply (mod_pow2_weaken _ _ m); [lia|done]).
  assert (He : (j + 2 ^ m) mod 2 ^ (k + 1) = 0).
  { apply mod_add_mult; [lia|done|]. apply (mod_pow2_weaken _ _ m); [lia|].
    apply Z.mod_same. lia. }
  pose proof (mult_le h j (2 ^ (k + 1)) ltac:(lia) Hh Hj').
  pose proof (mult_le h (j + 2 ^ m) (2 ^ (k + 1)) ltac:(lia) Hh He).
  lia.
Qed.

(** ** Tilings *)

(** Pages [0 .. n) are cut into aligned blocks: first page -> (order, free). *)
Record tiling (n : Z) (bm : gmap Z (Z * bool)) : Prop := {
  t_block : forall i k f, bm !! i = Some (k, f) ->
    0 <= k <= PPM_LAST_ORDER /\ 0 <= i /\ i + 2 ^ k <= n /\ i mod 2 ^ k = 0;
  t_disj : forall i j k m f g, bm !! i = Some (k, f) -> bm !! j = Some (m, g) -> i < j ->
    i + 2 ^ k <= j;
  t_cover : forall p, 0 <= p < n -> exists i k f, bm !! i = Some (k, f) /\ i <= p < i + 2 ^ k;
}.

(** No two free buddies of a mergeable order: free memory is fully coalesced. *)
Definition coalesced (bm : gmap Z (Z * bool)) : Prop :=
  forall i k, k < PPM_LAST_ORDER -> bm !! i = Some (k, true) -> bm !! buddy i k <> Some (k, true).

Ltac mapcases :=
  repeat match goal with
  | H : <[_ := _]> _ !! _ = Some _ |- _ =>
      rewrite lookup_insert in H; case_decide; simplify_eq
  | H : delete _ _ !! _ = Some _ |- _ =>
      rewrite lookup_delete in H; case_decide; simplify_eq
  end.

(** Disjointness of all the blocks named in the context. *)
Ltac tdisj Ht :=
  repeat match goal with
  | H1 : ?bm !! ?i = Some (?k, _), H2 : ?bm !! ?j = Some _ |- _ =>
      lazymatch i with j => fail | _ => idtac end;
      lazymatch goal with
      | _ : i < j -> i + 2 ^ k <= j |- _ => fail
      | _ => pose proof (t_disj _ _ Ht _ _ _ _ _ _ H1 H2)
      end
  end.

Section Tiling.
Context (n : Z) (bm : gmap Z (Z * bool)) (Ht : tiling n bm).

Lemma tiling_inner_not_head i k f j : bm !! i = Some (k, f) -> i < j < i + 2 ^ k -> bm !! j = None.
Proof.
  intros Hi Hj. destruct (bm !! j) as [[m g]|] eqn:E; [|done].
  pose proof (t_disj _ _ Ht _ _ _ _ _ _ Hi E). lia.
Qed.

(** Two blocks that share a page are the same block. *)
Lemma tiling_unique i j k m f g p : bm !! i = Some (k, f) -> bm !! j = Some (m, g) ->
  i <= p < i + 2 ^ k -> j <= p < j + 2 ^ m -> i = j.
Proof.
  intros Hi Hj H1 H2. destruct (Z.lt_trichotomy i j) as [Hlt|[->|Hgt]]; [|done|].
  - pose proof (t_disj _ _ Ht _ _ _ _ _ _ Hi Hj Hlt). lia.
  - pose proof (t_disj _ _ Ht _ _ _ _ _ _ Hj Hi Hgt). lia.
Qed.

Lemma tiling_flag i k f g : bm !! i = Some (k, f) -> tiling n (<[i := (k, g)]> bm).
Proof.
  intros Hi. split.
  - intros j m e Hj. mapcases; by eapply t_block.
  - intros j1 j2 k1 k2 f1 f2 H1 H2 Hlt. mapcases; tdisj Ht; lia.
  - intros p Hp. destruct (t_cover _ _ Ht p Hp) as (j & m & e & Hj & Hin).
    destruct (Z.eq_dec j i) as [->|].
    + simplify_eq. exists i, k, g. rewrite lookup_insert_eq. done.
    + exists j, m, e. rewrite lookup_insert_ne by done. done.
Qed.

Lemma tiling_merge lo k f1 f2 g : k + 1 <= PPM_LAST_ORDER ->
  bm !! lo = Some (k, f1) -> bm !! (lo + 2 ^ k) = Some (k, f2) -> lo mod 2 ^ (k + 1) = 0 ->
  tiling n (<[lo := (k + 1, g)]> (delete (lo + 2 ^ k) bm)).
Proof.
  intros Hk Hlo Hhi Hal.
  pose proof (t_block _ _ Ht _ _ _ Hlo). pose proof (t_block _ _ Ht _ _ _ Hhi).
  pose proof (pow2_S k ltac:(lia)). pose proof (pow2_pos k ltac:(lia)). split.
  - intros j m e Hj. mapcases; [|by eapply t_block]. split_and!; [lia..|done].
  - intros j1 j2 k1 k2 g1 g2 H1' H2' Hlt. mapcases; tdisj Ht; lia.
  - intros p Hp. destruct (t_cover _ _ Ht p Hp) as (j & m & e & Hj & Hin).
    destruct (Z.eq_dec j lo) as [->|]; [|destruct (Z.eq_dec j (lo + 2 ^ k)) as [->|]].
    + simplify_eq. exists lo, (k + 1), g. rewrite lookup_insert_eq. split; [done|lia].
    + simplify_eq. exists lo, (k + 1), g. rewrite lookup_insert_eq. split; [done|lia].
    + exists j, m, e. rewrite lookup_insert_ne, lookup_delete_ne by done. done.
Qed.

Lemma tiling_split lo k f g1 g2 : 0 <= k -> bm !! lo = Some (k + 1, f) ->
  tiling n (<[lo + 2 ^ k := (k, g2)]> (<[lo := (k, g1)]> bm)).
Proof.
  intros Hk Hlo. pose proof (t_block _ _ Ht _ _ _ Hlo) as (Hk' & H0 & Hn & Hal).
  pose proof (pow2_S k Hk). pose proof (pow2_pos k Hk).
  assert (Hal' : lo mod 2 ^ k = 0) by (apply (mod_pow2_weaken _ _ (k + 1)); [lia|done]).
  split.
  - intros j m e Hj. mapcases; [..|by eapply t_block]; split_and!; try lia; try done.
    apply mod_add_mult; [lia|done|apply Z.mod_same; lia].
  - intros j1 j2 k1 k2 h1 h2 H1' H2' Hlt. mapcases; tdisj Ht; lia.
  - intros p Hp. destruct (t_cover _ _ Ht p Hp) as (j & m & e & Hj & Hin).
    destruct (Z.eq_dec j lo) as [->|].
    + simplify_eq. destruct (Z.lt_ge_cases p (lo + 2 ^ k)).
      * exists lo, k, g1. rewrite lookup_insert_ne, lookup_insert_eq by lia. split; [done|lia].
      * exists (lo + 2 ^ k), k, g2. rewrite lookup_insert_eq. split; [done|lia].
    + exists j, m, e. rewrite lookup_insert_ne, lookup_insert_ne; [done|done|].
      intros <-. pose proof (tiling_inner_not_head _ _ _ (lo + 2 ^ k) Hlo ltac:(lia)). congruence.
Qed.
End Tiling.

Section Coalesced.
Context (n : Z) (bm : gmap Z (Z * bool)) (Ht : tiling n bm) (Hc : coalesced bm).

(** Dropping free blocks and adding busy ones keeps the map coalesced. *)
Lemma coalesced_subset bm' :
  (forall i k, bm' !! i = Some (k, true) -> bm !! i = Some (k, true)) -> coalesced bm'.
Proof. intros Hsub i k Hk Hi Hb. apply (Hc i k Hk); by apply Hsub. Qed.

(** Adding one free block whose buddy is not free at the same order. *)
Lemma coalesced_add i k : 0 <= k ->
  (k < PPM_LAST_ORDER -> bm !! buddy i k <> Some (k, true)) ->
  coalesced (<[i := (k, true)]> bm).
Proof.
  intros Hk Hb j m Hm Hj Hbj.
  destruct (decide (i = buddy j m)) as [E|Hib], (decide (i = j)) as [<-|Hij].
  - apply (f_equal (Z.lxor i)) in E. rewrite lookup_insert_eq in Hj. simplify_eq.
    unfold buddy in E. rewrite Z.lxor_nilpotent, <- Z.lxor_assoc, Z.lxor_nilpotent,
      Z.lxor_0_l in E. pose proof (pow2_pos m). lia.
  - rewrite lookup_insert_ne in Hj by done. subst i. rewrite lookup_insert_eq in Hbj.
    simplify_eq. rewrite buddy_invol in Hb. by apply Hb.
  - rewrite lookup_insert_eq in Hj. rewrite lookup_insert_ne in Hbj by done.
    simplify_eq. by apply Hb.
  - rewrite lookup_insert_ne in Hj by done. rewrite lookup_insert_ne in Hbj by done.
    by apply (Hc j m).
Qed.
End Coalesced.

(** ** Free lists *)

Definition lists_map (L : Z -> list Z) : gmap laddr (list laddr) :=
  list_to_map ((fun k => (Root k, Entry <$> L k)) <$> seqZ 0 PPM_MAX_ORDER).

Lemma lists_map_Some L a xs : lists_map L !! a = Some xs <->
  exists k, 0 <= k <= PPM_LAST_ORDER /\ a = Root k /\ xs = Entry <$> L k.
Proof.
  unfold lists_map. rewrite <- elem_of_list_to_map.
  2:{ rewrite <- list_fmap_compose. apply NoDup_fmap; [by intros ? ? [= ->]|apply NoDup_seqZ]. }
  rewrite list_elem_of_fmap. unfold PPM_LAST_ORDER. split.
  - intros (k & [= -> ->] & Hk). apply elem_of_seqZ in Hk. exists k. split; [lia|done].
  - intros (k & Hk & -> & ->). exists k. split; [done|]. apply elem_of_seqZ. lia.
Qed.

Lemma lists_map_lookup L k : 0 <= k <= PPM_LAST_ORDER -> lists_map L !! Root k = Some (Entry <$> L k).
Proof. intros. apply lists_map_Some. eauto. Qed.

Lemma lists_map_insert L k xs : 0 <= k <= PPM_LAST_ORDER ->
  <[Root k := Entry <$> xs]> (lists_map L) = lists_map (<[k := xs]> L).
Proof.
  intros Hk. apply map_eq. intros a. apply option_eq. intros ys.
  rewrite lookup_insert_Some, !lists_map_Some. split.
  - intros [[<- <-]|(Hne & j & Hj & -> & ->)].
    + exists k. rewrite fn_lookup_insert. done.
    + exists j. rewrite fn_lookup_insert_ne by congruence. done.
  - intros (j & Hj & -> & ->). destruct (decide (k = j)) as [<-|].
    + left. rewrite fn_lookup_insert. done.
    + right. split; [congruence|]. exists j. rewrite fn_lookup_insert_ne by done. done.
Qed.

Lemma lists_unlinked L i : (forall k, 0 <= k <= PPM_LAST_ORDER -> i ∉ L k) ->
  unlinked (lists_map L) (Entry i).
Proof.
  intros Hi r xs Hr. apply lists_map_Some in Hr as (k & Hk & -> & ->).
  rewrite not_elem_of_cons, list_elem_of_fmap. split; [done|]. intros (j & [= ->] & Hj).
  by apply (Hi k Hk).
Qed.

(** Sums over the orders. *)
Definition Zsum (f : Z -> Z) (l : list Z) : Z := foldr (fun k acc => f k + acc) 0 l.

Lemma Zsum_ext f g l : (forall k, k ∈ l -> f k = g k) -> Zsum f l = Zsum g l.
Proof.
  intros He. induction l as [|x l IH]; [done|]. simpl. rewrite He, IH; [done|set_solver..].
Qed.

Lemma Zsum_update f g k l : NoDup l -> k ∈ l -> (forall j, j ∈ l -> j <> k -> g j = f j) ->
  Zsum g l = Zsum f l - f k + g k.
Proof.
  intros Hnd Hk He. induction Hnd as [|x l Hx Hnd IH]; [by apply elem_of_nil in Hk|].
  simpl. apply elem_of_cons in Hk as [->|Hk].
  - rewrite (Zsum_ext g f); [lia|]. intros j Hj. apply He; [set_solver|]. intros ->. done.
  - rewrite IH; [|done|]; [|set_solver]. rewrite (He x); [lia|set_solver|]. intros ->. done.
Qed.

(** Number of pages in the free lists. *)
Definition free_total (L : Z -> list Z) : Z :=
  Zsum (fun k => 2 ^ k * zlen (L k)) (seqZ 0 PPM_MAX_ORDER).

Lemma free_total_update L k xs : 0 <= k <= PPM_LAST_ORDER ->
  free_total (<[k := xs]> L) = free_total L + 2 ^ k * (zlen xs - zlen (L k)).
Proof.
  intros Hk. unfold free_total.
  rewrite (Zsum_update (fun k => 2 ^ k * zlen (L k)) _ k).
  - rewrite fn_lookup_insert. lia.
  - apply NoDup_seqZ.
  - apply elem_of_seqZ. unfold PPM_LAST_ORDER in Hk. lia.
  - intros j _ Hj. rewrite fn_lookup_insert_ne by done. done.
Qed.

(** ** The invariant *)

(** Descriptors against the tiling.  [x] is the block being merged or split, whose pages
    are all [PGFREE] although it is in no free list. *)
Record pages_ok (n : Z) (pages : gmap Z page_s) (bm : gmap Z (Z * bool)) (x : option Z) : Prop := {
  p_dom : forall i, is_Some (pages !! i) <-> 0 <= i < n;
  p_head : forall i k f p, bm !! i = Some (k, f) -> x <> Some i -> pages !! i = Some p ->
    order p = k /\ (state p = PGFREE <-> f = true);
  p_inner : forall i k f j p, bm !! i = Some (k, f) -> i < j < i + 2 ^ k -> pages !! j = Some p ->
    state p = PGFREE;
  p_flight : forall i p, x = Some i -> pages !! i = Some p -> state p = PGFREE;
  p_count : forall i p, pages !! i = Some p -> state p = PGFREE -> count p = 0;
}.

Record lists_ok (ppm : ppm_s) (bm : gmap Z (Z * bool)) (L : Z -> list Z) : Prop := {
  l_rep : dlists (links ppm) (lists_map L);
  l_free : forall i k, 0 <= k <= PPM_LAST_ORDER -> i ∈ L k <-> bm !! i = Some (k, true);
  l_nr : forall k, 0 <= k <= PPM_LAST_ORDER -> zget (free_pages_nr_tbl ppm) k = Some (u32 (zlen (L k)));
  l_len : zlen (free_pages_nr_tbl ppm) = PPM_MAX_ORDER;
}.

(** [extra]: the pages counted in [free_pages_nr] that are in no free list. *)
Record ppm_inv (ppm : ppm_s) (bm : gmap Z (Z * bool)) (L : Z -> list Z) (x : option Z) (extra : Z)
    : Prop := {
  i_n : 0 <= pages_nr ppm < 2 ^ 31 /\ pages_nr ppm mod 2 ^ PPM_LAST_ORDER = 0;
  i_tiling : tiling (pages_nr ppm) bm;
  i_coalesced : coalesced bm;
  i_pages : pages_ok (pages_nr ppm) (pages_tbl ppm) bm x;
  i_lists : lists_ok ppm bm L;
  i_total : free_pages_nr ppm = u32 (free_total L + extra);
  i_flight : forall i, x = Some i -> exists k, bm !! i = Some (k, false);
}.

(** *** Pages *)

Lemma pages_get n pages bm x i : pages_ok n pages bm x -> 0 <= i < n -> exists p, pages !! i = Some p.
Proof. intros H Hi. by apply (p_dom _ _ _ _ H). Qed.

Lemma pages_dom_insert n pages bm x i p q : pages_ok n pages bm x -> pages !! i = Some p ->
  forall j, is_Some (<[i := q]> pages !! j) <-> 0 <= j < n.
Proof.
  intros H Hp j. rewrite lookup_insert. case_decide; [subst|apply (p_dom _ _ _ _ H)].
  split; [|eauto]. intros _. apply (p_dom _ _ _ _ H). eauto.
Qed.

Lemma pages_count_insert n pages bm x i q : pages_ok n pages bm x ->
  (state q = PGFREE -> count q = 0) ->
  forall j p, <[i := q]> pages !! j = Some p -> state p = PGFREE -> count p = 0.
Proof.
  intros H Hq j p Hp Hs. rewrite lookup_insert in Hp. case_decide; simplify_eq; [auto|].
  by eapply (p_count _ _ _ _ H).
Qed.

(** Freeing starts: the head becomes [PGFREE] and the block is in flight. *)
Lemma pages_start_free n pages bm i p q : tiling n bm -> pages_ok n pages bm None ->
  pages !! i = Some p -> state q = PGFREE -> count q = 0 -> is_Some (bm !! i) ->
  pages_ok n (<[i := q]> pages) bm (Some i).
Proof.
  intros Ht H Hp Hq Hqc [[k f] Hi]. split.
  - by eapply pages_dom_insert.
  - intros j m g r Hj Hx Hr. mapcases. eapply (p_head _ _ _ _ H); eauto.
  - intros j m g l r Hj Hl Hr. mapcases; [done|]. by eapply (p_inner _ _ _ _ H j).
  - intros j r [= <-] Hr. rewrite lookup_insert_eq in Hr. by simplify_eq.
  - by eapply pages_count_insert.
Qed.

(** Merging: the descriptors of both halves stay [PGFREE]. *)
Lemma pages_merge n pages bm i b lo k f p q g :
  tiling n bm -> pages_ok n pages bm (Some i) -> 0 <= k ->
  bm !! i = Some (k, f) -> bm !! b = Some (k, true) -> b <> i ->
  (lo = i /\ b = lo + 2 ^ k \/ lo = b /\ i = lo + 2 ^ k) ->
  pages !! b = Some p -> state q = state p -> count q = count p ->
  pages_ok n (<[b := q]> pages) (<[lo := (k + 1, g)]> (delete (lo + 2 ^ k) bm)) (Some lo).
Proof.
  intros Ht H Hk Hi Hb Hne Hlo Hp Hq Hqc. pose proof (pow2_S k Hk). pose proof (pow2_pos k Hk).
  assert (Hbst : state p = PGFREE).
  { apply (p_head _ _ _ _ H b k true); [done|congruence|done|done]. }
  assert (Hall : forall l r, lo <= l < lo + 2 ^ (k + 1) -> <[b := q]> pages !! l = Some r ->
    state r = PGFREE).
  { intros l r Hl Hr. rewrite lookup_insert in Hr. case_decide; simplify_eq; [congruence|].
    destruct (Z.eq_dec l i) as [->|]; [by eapply (p_flight _ _ _ _ H)|].
    assert (i < l < i + 2 ^ k \/ b < l < b + 2 ^ k) as [Hin|Hin] by lia.
    - by eapply (p_inner _ _ _ _ H i).
    - by eapply (p_inner _ _ _ _ H b). }
  split.
  - by eapply pages_dom_insert.
  - intros j m h r Hj Hx Hr. assert (lo <> j) by congruence.
    rewrite lookup_insert_ne, lookup_delete_Some in Hj by done.
    destruct Hj as [Hj1 Hj2]. rewrite lookup_insert_ne in Hr by (intros <-; lia).
    eapply (p_head _ _ _ _ H); [done| |done]. intros [= ->]. lia.
  - intros j m h l r Hj Hl Hr. rewrite lookup_insert in Hj. case_decide; simplify_eq.
    + eapply Hall; [|done]. lia.
    + apply lookup_delete_Some in Hj as [_ Hj]. rewrite lookup_insert_ne in Hr.
      * by eapply (p_inner _ _ _ _ H j).
      * intros <-. pose proof (tiling_inner_not_head _ _ Ht _ _ _ b Hj ltac:(lia)). congruence.
  - intros j r [= <-] Hr. eapply Hall; [|done]. lia.
  - eapply pages_count_insert; [done|]. intros _. rewrite Hqc. by eapply (p_count _ _ _ _ H).
Qed.

(** The block in flight gets its final descriptor [q] and flag [g]. *)
Lemma pages_land n pages bm i k f p q g : tiling n bm -> pages_ok n pages bm (Some i) ->
  bm !! i = Some (k, f) -> pages !! i = Some p ->
  order q = k -> (state q = PGFREE <-> g = true) -> (state q = PGFREE -> count q = 0) ->
  pages_ok n (<[i := q]> pages) (<[i := (k, g)]> bm) None.
Proof.
  intros Ht H Hi Hp Ho Hs Hqc. split.
  - by eapply pages_dom_insert.
  - intros j m h r Hj _ Hr. rewrite lookup_insert in Hj. rewrite lookup_insert in Hr. repeat case_decide; simplify_eq; [done|].
    eapply (p_head _ _ _ _ H); [done|congruence|done].
  - intros j m h l r Hj Hl Hr.
    assert (Hj' : exists h', bm !! j = Some (m, h')) by (mapcases; eauto).
    destruct Hj' as [h' Hj']. rewrite lookup_insert_ne in Hr.
    + by eapply (p_inner _ _ _ _ H j).
    + intros <-. pose proof (tiling_inner_not_head _ _ Ht _ _ _ i Hj' ltac:(lia)). congruence.
  - done.
  - by eapply pages_count_insert.
Qed.

(** A free block is taken off: it is in flight, its descriptors unchanged. *)
Lemma pages_take n pages bm i k : pages_ok n pages bm None -> bm !! i = Some (k, true) ->
  pages_ok n pages (<[i := (k, false)]> bm) (Some i).
Proof.
  intros H Hi. split.
  - apply (p_dom _ _ _ _ H).
  - intros j m h r Hj Hx Hr. rewrite lookup_insert_ne in Hj by congruence.
    by eapply (p_head _ _ _ _ H).
  - intros j m h l r Hj Hl Hr. mapcases; by eapply (p_inner _ _ _ _ H).
  - intros j r [= <-] Hr. by eapply (p_head _ _ _ _ H i).
  - apply (p_count _ _ _ _ H).
Qed.

(** Splitting: the upper half becomes a free block. *)
Lemma pages_split n pages bm lo k f p q : tiling n bm -> pages_ok n pages bm (Some lo) -> 0 <= k ->
  bm !! lo = Some (k + 1, f) -> pages !! (lo + 2 ^ k) = Some p ->
  order q = k -> state q = state p -> count q = count p ->
  pages_ok n (<[lo + 2 ^ k := q]> pages)
    (<[lo + 2 ^ k := (k, true)]> (<[lo := (k, false)]> bm)) (Some lo).
Proof.
  intros Ht H Hk Hlo Hp Ho Hs Hqc. pose proof (pow2_S k Hk). pose proof (pow2_pos k Hk).
  assert (Hsp : state p = PGFREE) by (apply (p_inner _ _ _ _ H lo (k + 1) f (lo + 2 ^ k)); [done|lia|done]).
  split.
  - by eapply pages_dom_insert.
  - intros j m h r Hj Hx Hr. rewrite lookup_insert in Hj. rewrite lookup_insert in Hr.
    repeat case_decide; simplify_eq; [rewrite Hs; done|].
    rewrite lookup_insert_ne in Hj by congruence. by eapply (p_head _ _ _ _ H).
  - intros j m h l r Hj Hl Hr. rewrite lookup_insert in Hr. case_decide; simplify_eq; [congruence|].
    mapcases.
    + eapply (p_inner _ _ _ _ H lo _ _ l); [done|lia|done].
    + eapply (p_inner _ _ _ _ H j _ _ l); [done|lia|done].
    + by eapply (p_inner _ _ _ _ H).
  - intros j r [= <-] Hr. rewrite lookup_insert_ne in Hr by lia. by eapply (p_flight _ _ _ _ H).
  - eapply pages_count_insert; [done|]. intros _. rewrite Hqc. by eapply (p_count _ _ _ _ H).
Qed.

(** *** Lists *)

Lemma lists_nodup ppm bm L k : lists_ok ppm bm L -> 0 <= k <= PPM_LAST_ORDER -> NoDup (L k).
Proof.
  intros H Hk. destruct (proj1 (l_rep _ _ _ H) _ _ (lists_map_lookup L k Hk)) as [Hnd _].
  apply NoDup_cons in Hnd as [_ Hnd]. by apply NoDup_fmap in Hnd; [|apply _].
Qed.

(** [buddy_unlink] of a free block of order [k]. *)
Lemma buddy_unlink_ok ppm bm L k i f : lists_ok ppm bm L -> 0 <= k <= PPM_LAST_ORDER ->
  bm !! i = Some (k, true) -> f = false ->
  exists l nr L', buddy_unlink ppm k i = Some (set_lists ppm nr l) /\
    lists_ok (set_lists ppm nr l) (<[i := (k, f)]> bm) L' /\
    free_total L' = free_total L - 2 ^ k.
Proof.
  intros H Hk Hi ->. assert (Hin : i ∈ L k) by (by apply (l_free _ _ _ H)).
  pose proof (lists_nodup _ _ _ _ H Hk) as Hnd.
  apply list_elem_of_split in Hin as (l1 & l2 & E).
  pose proof (lists_map_lookup L k Hk) as Hl. rewrite E, fmap_app, fmap_cons in Hl.
  destruct (list_unlink_dlists _ _ _ _ _ _ (l_rep _ _ _ H) Hl) as (l & El & Hd).
  unfold buddy_unlink. rewrite El. simpl. rewrite (l_nr _ _ _ H k Hk). simpl.
  rewrite <- fmap_app, lists_map_insert in Hd by done.
  eexists _, _, (<[k := l1 ++ l2]> L). split; [done|]. split; [split|]; simpl.
  - exact Hd.
  - intros j m Hm. rewrite lookup_insert. destruct (decide (m = k)) as [->|Hne].
    + rewrite fn_lookup_insert. pose proof (l_free _ _ _ H j k Hk) as Hj. rewrite E in Hj, Hnd.
      apply NoDup_app in Hnd as (_ & Hd1 & Hnd2). apply NoDup_cons in Hnd2 as [Hd2 _].
      case_decide; [subst|].
      * split; [|done]. set_solver.
      * rewrite <- Hj. set_solver.
    + rewrite fn_lookup_insert_ne by done. rewrite (l_free _ _ _ H) by done.
      case_decide; [subst|done]. rewrite Hi. naive_solver.
  - intros m Hm. pose proof (l_len _ _ _ H) as Hlen. unfold PPM_LAST_ORDER in *.
    destruct (decide (m = k)) as [->|Hne].
    + rewrite fn_lookup_insert, zget_zset_eq by lia. rewrite u32_sub_l, E, !zlen_app, zlen_cons.
      do 2 f_equal. lia.
    + rewrite fn_lookup_insert_ne, zget_zset_ne by lia. by apply (l_nr _ _ _ H).
  - rewrite zlen_zset. apply (l_len _ _ _ H).
  - rewrite free_total_update by done. rewrite E, !zlen_app, zlen_cons. lia.
Qed.

(** [buddy_add] of a block of order [k] that is not free yet. *)
Lemma buddy_add_ok ppm bm L k i : lists_ok ppm bm L -> 0 <= k <= PPM_LAST_ORDER ->
  bm !! i = Some (k, false) \/ bm !! i = None ->
  exists l nr L', buddy_add ppm k i = Some (set_lists ppm nr l) /\
    lists_ok (set_lists ppm nr l) (<[i := (k, true)]> bm) L' /\
    free_total L' = free_total L + 2 ^ k.
Proof.
  intros H Hk Hi. assert (Hnot : forall m, 0 <= m <= PPM_LAST_ORDER -> i ∉ L m).
  { intros m Hm Hin. apply (l_free _ _ _ H) in Hin; [|done]. destruct Hi; congruence. }
  destruct (list_add_dlists _ _ _ _ (Entry i) (l_rep _ _ _ H) (lists_map_lookup L k Hk))
    as (l & El & Hd); [by apply lists_unlinked|].
  unfold buddy_add. rewrite El. simpl. rewrite (l_nr _ _ _ H k Hk). simpl.
  rewrite <- fmap_cons, lists_map_insert in Hd by done.
  eexists _, _, (<[k := i :: L k]> L). split; [done|]. split; [split|]; simpl.
  - exact Hd.
  - intros j m Hm. rewrite lookup_insert. destruct (decide (m = k)) as [->|Hne].
    + rewrite fn_lookup_insert, elem_of_cons, (l_free _ _ _ H) by done.
      case_decide; subst; [|naive_solver]. naive_solver.
    + rewrite fn_lookup_insert_ne by done. case_decide; [subst|by apply (l_free _ _ _ H)].
      split; [intros Hj; by apply Hnot in Hj|]. naive_solver.
  - intros m Hm. pose proof (l_len _ _ _ H) as Hlen. unfold PPM_LAST_ORDER in *.
    destruct (decide (m = k)) as [->|Hne].
    + rewrite fn_lookup_insert, zget_zset_eq by lia. rewrite u32_add_l, zlen_cons. done.
    + rewrite fn_lookup_insert_ne, zget_zset_ne by lia. by apply (l_nr _ _ _ H).
  - rewrite zlen_zset. apply (l_len _ _ _ H).
  - rewrite free_total_update by done. rewrite zlen_cons. lia.
Qed.

(** The free lists depend on the tiling through the free blocks only, and not on the
    descriptors. *)
Lemma lists_ok_ext ppm ppm' bm bm' L : lists_ok ppm bm L ->
  links ppm' = links ppm -> free_pages_nr_tbl ppm' = free_pages_nr_tbl ppm ->
  (forall i k, bm' !! i = Some (k, true) <-> bm !! i = Some (k, true)) -> lists_ok ppm' bm' L.
Proof.
  intros H El En Hext. split.
  - rewrite El. apply (l_rep _ _ _ H).
  - intros i k Hk. rewrite Hext. by apply (l_free _ _ _ H).
  - rewrite En. apply (l_nr _ _ _ H).
  - rewrite En. apply (l_len _ _ _ H).
Qed.

(** Fields that the loops of allocation and release never change. *)
Definition same_env (ppm ppm' : ppm_s) : Prop :=
  signature ppm' = signature ppm /\ ppn_start ppm' = ppn_start ppm /\
  vaddr_begin ppm' = vaddr_begin ppm /\ vaddr_start ppm' = vaddr_start ppm /\
  pages_nr ppm' = pages_nr ppm /\ uprio_pages_min ppm' = uprio_pages_min ppm /\
  kprio_pages_min ppm' = kprio_pages_min ppm /\ urgent_pages_min ppm' = urgent_pages_min ppm /\
  begin ppm' = begin ppm /\ diags ppm' = diags ppm /\
  free_pages_nr ppm' = free_pages_nr ppm.

#[export] Instance same_env_preorder : PreOrder same_env.
Proof.
  split.
  - intros ppm. unfold same_env. tauto.
  - intros a b c H1 H2. unfold same_env in *. dand. repeat split; congruence.
Qed.

(** Descriptors of the pages outside of a set of pages. *)
Definition same_pages (P : Z -> Prop) (ppm ppm' : ppm_s) : Prop :=
  forall i, P i -> pages_tbl ppm' !! i = pages_tbl ppm !! i.

Section Steps.
Context (ppm : ppm_s) (bm : gmap Z (Z * bool)) (L : Z -> list Z).

(** A buddy with the tested state and order is the head of a free block. *)
Lemma buddy_is_free i k extra block : ppm_inv ppm bm L (Some i) extra -> bm !! i = Some (k, false) ->
  k < PPM_LAST_ORDER -> pages_tbl ppm !! buddy i k = Some block ->
  state block = PGFREE -> order block = k -> bm !! buddy i k = Some (k, true).
Proof.
  intros [[Hn Hmod] Ht _ Hp _ _ _] Hi Hk Hb Hs Ho.
  destruct (t_block _ _ Ht _ _ _ Hi) as (Hk0 & Hi0 & Hin & Hal).
  destruct (buddy_facts i k (pages_nr ppm)) as (Hb0 & Hbal & Hbn & Hbi & _ & Hhal & _ & Hor);
    [lia|lia|done|lia|apply (mod_pow2_weaken _ _ PPM_LAST_ORDER); [lia|done]|].
  pose proof (pow2_pos k ltac:(lia)).
  destruct (t_cover _ _ Ht (buddy i k) ltac:(lia)) as (j & m & f & Hj & Hjb).
  destruct (Z.eq_dec j (buddy i k)) as [->|Hne].
  - assert (Hx : Some i <> Some (buddy i k)) by congruence.
    destruct (p_head _ _ _ _ Hp _ _ _ _ Hj Hx Hb) as [Hom Hfree].
    destruct f; [congruence|]. destruct Hfree as [Hfree _]. specialize (Hfree Hs). done.
  - destruct (t_block _ _ Ht _ _ _ Hj) as (Hm & Hj0 & _ & Hjal).
    destruct (nested_block j m (buddy i k) i k (Z.land i (buddy i k))) as [Hkm Hji];
      [lia|lia|done|done|lia|done|naive_solver|].
    pose proof (tiling_unique _ _ Ht _ _ _ _ _ _ i Hi Hj ltac:(lia) Hji). subst j.
    simplify_eq. lia.
Qed.

(** One iteration of the merge loop. *)
Lemma merge_step i k e block b lo bm' :
  ppm_inv ppm bm L (Some i) (2 ^ k + e) -> bm !! i = Some (k, false) ->
  k < PPM_LAST_ORDER -> b = buddy i k -> lo = Z.land i b ->
  pages_tbl ppm !! b = Some block -> state block = PGFREE -> order block = k ->
  bm' = <[lo := (k + 1, false)]> (delete (lo + 2 ^ k) bm) ->
  exists ppm1 ppm2 L', buddy_unlink ppm k b = Some ppm1 /\ tbl_order_set ppm1 b 0 = Some ppm2 /\
    ppm_inv ppm2 bm' L' (Some lo) (2 ^ (k + 1) + e) /\ same_env ppm ppm2 /\
    same_pages (fun j => j <> b) ppm ppm2.
Proof.
  intros Hinv Hi Hk Eb Elo Hb Hs Ho Ebm. rewrite Eb in Hb.
  pose proof (buddy_is_free _ _ _ _ Hinv Hi Hk Hb Hs Ho) as Hbf.
  destruct Hinv as [[Hn Hmod] Ht Hc Hp Hl Htot _].
  destruct (t_block _ _ Ht _ _ _ Hi) as (Hk0 & Hi0 & Hin & Hal).
  destruct (buddy_facts i k (pages_nr ppm)) as (Hb0 & Hbal & Hbn & Hbi & Hh0 & Hhal & Hhn & Hor);
    [lia|lia|done|lia|apply (mod_pow2_weaken _ _ PPM_LAST_ORDER); [lia|done]|].
  rewrite <- ?Eb in *. rewrite <- ?Elo in *. pose proof (pow2_pos k ltac:(lia)).
  destruct (buddy_unlink_ok ppm bm L k b false) as (l & nr & L' & -> & Hl' & HtL); [done|lia|done|done|].
  eexists _, _, L'. split; [done|]. unfold tbl_order_set. simpl. rewrite Hb. simpl.
  split; [done|]. split; [|split; [repeat split|]]. 2:{ intros j Hj. simpl.
    rewrite lookup_insert_ne by done. done. }
  assert (Hlo : exists f1 f2, bm !! lo = Some (k, f1) /\ bm !! (lo + 2 ^ k) = Some (k, f2)).
  { destruct Hor as [[-> E]|[-> E]].
    - exists false, true. rewrite <- E. done.
    - exists true, false. rewrite <- E. done. }
  destruct Hlo as (f1 & f2 & Hlo & Hhi).
  assert (Hfree : forall j m, bm' !! j = Some (m, true) <-> bm !! j = Some (m, true) /\ j <> b).
  { intros j m. rewrite Ebm. rewrite lookup_insert, lookup_delete. clear Ebm. assert (Hbl : b = lo \/ b = lo + 2 ^ k) by lia.
    assert (Hil : i = lo \/ i = lo + 2 ^ k) by lia.
    repeat case_decide; split; intros Hj; try done; try (destruct Hj as [Hj Hjb]).
    - destruct Hil, Hbl; congruence.
    - destruct Hil, Hbl; congruence.
    - split; [done|]. destruct Hbl; congruence.
    - done. }
  split; simpl.
  - done.
  - rewrite Ebm. eapply tiling_merge; eauto. lia.
  - eapply coalesced_subset; [done|]. intros j m Hj. by apply Hfree in Hj as [].
  - rewrite Ebm. eapply (pages_merge _ _ _ i b lo k); eauto; lia.
  - eapply lists_ok_ext; [exact Hl'|done|done|]. intros j m. rewrite Hfree, lookup_insert.
    case_decide as Hjb; [subst; split; [intros [_ ?]|]; done|]. split; [by intros []|].
    intros. split; [done|congruence].
  - rewrite Htot, HtL, pow2_S by lia. f_equal. lia.
  - intros j [= <-]. exists (k + 1). rewrite Ebm. by rewrite lookup_insert_eq.
Qed.
End Steps.

(** ** Freeing *)

Definition busy (bm : gmap Z (Z * bool)) (j m : Z) : Prop := bm !! j = Some (m, false).

(** What a run of the merge loop from block [(i, k)] to block [(i', k')] keeps: the other
    busy blocks, their descriptors, and the fields of the manager. *)
Definition merge_rel (ppm ppm' : ppm_s) (bm bm' : gmap Z (Z * bool)) (i i' : Z) : Prop :=
  (forall j m, j <> i' -> busy bm' j m <-> busy bm j m /\ j <> i) /\
  (forall m, busy bm i' m -> i' = i) /\
  same_env ppm ppm' /\
  same_pages (fun j => j <> i /\ exists m, busy bm j m) ppm ppm'.

Lemma merge_rel_refl ppm bm i : merge_rel ppm ppm bm bm i i.
Proof. split_and!; [naive_solver|done|done|done]. Qed.

Lemma merge_rel_trans ppm1 ppm2 ppm3 bm1 bm2 bm3 i1 i2 i3 :
  merge_rel ppm1 ppm2 bm1 bm2 i1 i2 -> merge_rel ppm2 ppm3 bm2 bm3 i2 i3 ->
  merge_rel ppm1 ppm3 bm1 bm3 i1 i3.
Proof.
  intros (A1 & A2 & A3 & A4) (B1 & B2 & B3 & B4). split_and!.
  - intros j m Hj. rewrite B1 by done. destruct (decide (j = i2)) as [->|Hne].
    + split; [tauto|]. intros [Hb Hi]. destruct Hi. by eapply A2.
    + rewrite A1 by done. tauto.
  - intros m Hb. destruct (decide (i3 = i2)) as [->|Hne]; [by eapply A2|].
    destruct (decide (i3 = i1)) as [|Hne1]; [done|]. exfalso. apply Hne. eapply B2. by apply A1.
  - by etrans.
  - intros j [Hj [m Hb]]. assert (j <> i2) by (intros ->; apply Hj; by eapply A2).
    rewrite B4; [apply A4; eauto|]. split; [done|]. exists m. by apply A1.
Qed.

Lemma merge_step_rel ppm ppm' bm i k lo b : same_env ppm ppm' -> same_pages (fun j => j <> b) ppm ppm' ->
  bm !! i = Some (k, false) -> bm !! b = Some (k, true) ->
  (lo = i /\ b = lo + 2 ^ k \/ lo = b /\ i = lo + 2 ^ k) -> 0 < 2 ^ k ->
  merge_rel ppm ppm' bm (<[lo := (k + 1, false)]> (delete (lo + 2 ^ k) bm)) i lo.
Proof.
  intros He Hs Hi Hb Hor Hpos. split_and!; [| |done|].
  - intros j m Hj. unfold busy. rewrite lookup_insert_ne, lookup_delete_Some by done.
    destruct Hor as [[-> E]|[-> E]]; rewrite <- E in *; split; intros [H1 H2]; split; congruence.
  - intros m Hm. unfold busy in Hm. destruct Hor as [[-> E]|[-> E]]; [done|congruence].
  - intros j [Hj [m Hm]]. apply Hs. intros ->. unfold busy in Hm. congruence.
Qed.

Lemma free_merge_ok n ppm bm L i k e : ppm_inv ppm bm L (Some i) (2 ^ k + e) ->
  bm !! i = Some (k, false) -> Z.of_nat n = PPM_LAST_ORDER - k ->
  exists ppm' k' i' bm' L', free_merge n ppm k i = Some (ppm', k', i') /\
    ppm_inv ppm' bm' L' (Some i') (2 ^ k' + e) /\ bm' !! i' = Some (k', false) /\
    (k' < PPM_LAST_ORDER -> bm' !! buddy i' k' <> Some (k', true)) /\
    merge_rel ppm ppm' bm bm' i i'.
Proof.
  revert ppm bm L i k. induction n as [|n IH]; intros ppm bm L i k Hinv Hi Hn; cbn [free_merge].
  { exists ppm, k, i, bm, L. split_and!; [done|done|done|lia|apply merge_rel_refl]. }
  destruct (t_block _ _ (i_tiling _ _ _ _ _ Hinv) _ _ _ Hi) as (Hk0 & Hi0 & Hin & Hal).
  rewrite shl1_pow2 by (unfold PPM_LAST_ORDER, PPM_MAX_ORDER in *; lia).
  change (Z.lxor i (2 ^ k)) with (buddy i k).
  destruct (i_n _ _ _ _ _ Hinv) as [Hn0 Hmod].
  destruct (buddy_facts i k (pages_nr ppm)) as (Hb0 & Hbal & Hbn & Hbi & Hh0 & Hhal & Hhn & Hor);
    [lia|lia|done|lia|apply (mod_pow2_weaken _ _ PPM_LAST_ORDER); [lia|done]|].
  pose proof (pow2_pos k ltac:(lia)).
  destruct (pages_get _ _ _ _ (buddy i k) (i_pages _ _ _ _ _ Hinv)) as [block Hb]; [lia|].
  rewrite Hb. simpl. unfold page_state_get.
  case_bool_decide as Hs; [destruct (Z.eqb_spec (order block) k) as [Ho|Ho]|]; simpl.
  - pose proof (buddy_is_free _ _ _ _ _ _ _ Hinv Hi ltac:(lia) Hb Hs Ho) as Hbf.
    destruct (merge_step ppm bm L i k e block _ _ _ Hinv Hi ltac:(lia) eq_refl eq_refl Hb Hs Ho eq_refl)
      as (ppm1 & ppm2 & L' & -> & E2 & Hinv2 & He & Hsp).
    simpl. rewrite E2. simpl.
    destruct (IH _ _ _ _ _ Hinv2) as (ppm' & k' & i' & bm' & L2 & -> & Hinv' & Hi' & Hb' & Hr);
      [by rewrite lookup_insert_eq|lia|].
    exists ppm', k', i', bm', L2. split_and!; [done|done|done|done|].
    eapply merge_rel_trans; [|exact Hr]. eapply merge_step_rel; eauto. lia.
  - exists ppm, k, i, bm, L. split_and!; [done..| |apply merge_rel_refl]. intros _ Hbf.
    assert (Hx : Some i <> Some (buddy i k)) by congruence.
    destruct (p_head _ _ _ _ (i_pages _ _ _ _ _ Hinv) _ _ _ _ Hbf Hx Hb). congruence.
  - exists ppm, k, i, bm, L. split_and!; [done..| |apply merge_rel_refl]. intros _ Hbf.
    assert (Hx : Some i <> Some (buddy i k)) by congruence.
    destruct (p_head _ _ _ _ (i_pages _ _ _ _ _ Hinv) _ _ _ _ Hbf Hx Hb) as [_ Hf]. naive_solver.
Qed.

(** The end of [ppm_free_pages_nolock]: the merged block enters its free list. *)
Lemma free_finish_ok ppm bm L i k : ppm_inv ppm bm L (Some i) (2 ^ k) -> bm !! i = Some (k, false) ->
  (k < PPM_LAST_ORDER -> bm !! buddy i k <> Some (k, true)) ->
  exists ppm1 ppm2 L', tbl_order_set ppm i k = Some ppm1 /\ buddy_add ppm1 k i = Some ppm2 /\
    ppm_inv ppm2 (<[i := (k, true)]> bm) L' None 0 /\ same_env ppm ppm2 /\
    same_pages (fun j => j <> i) ppm ppm2.
Proof.
  intros [[Hn Hmod] Ht Hc Hp Hl Htot _] Hi Hb.
  destruct (t_block _ _ Ht _ _ _ Hi) as (Hk0 & Hi0 & Hin & Hal). pose proof (pow2_pos k ltac:(lia)).
  destruct (pages_get _ _ _ _ i Hp) as [p Hpi]; [lia|].
  unfold tbl_order_set. rewrite Hpi. simpl.
  set (ppm1 := set_pages ppm _ _).
  destruct (buddy_add_ok ppm1 bm L k i) as (l & nr & L' & E & Hl' & HtL);
    [by eapply lists_ok_ext|lia|by left|].
  eexists ppm1, _, L'. split; [done|]. split; [exact E|].
  split; [|split; [repeat split|intros j Hj; simpl; by rewrite lookup_insert_ne]].
  split; simpl.
  - done.
  - by eapply tiling_flag.
  - apply coalesced_add; [done|lia|done].
  - eapply pages_land; eauto.
    + simpl. apply Z.mod_small. unfold PPM_LAST_ORDER, PPM_MAX_ORDER in *. lia.
    + simpl. split; [done|]. intros _. by eapply (p_flight _ _ _ _ Hp).
    + simpl. by eapply (p_count _ _ _ _ Hp).
  - exact Hl'.
  - rewrite Htot, HtL. f_equal. lia.
  - done.
Qed.

(** A page whose owner may release it: [page_to_free] accepts its state. *)
Definition releasable (p : page_s) : Prop := state_in p [PGINVALID; PGVALID; PGINIT] = true.

Lemma releasable_not_free p : releasable p -> state p <> PGFREE.
Proof. unfold releasable, state_in. rewrite bool_decide_eq_true. intros H E. rewrite E in H. set_solver. Qed.

(** The effect of a release on the manager and on the busy blocks. *)
Definition freed (ppm ppm' : ppm_s) (bm bm' : gmap Z (Z * bool)) (i k : Z) : Prop :=
  (forall j m, busy bm' j m <-> busy bm j m /\ j <> i) /\
  same_env (set_free_nr ppm (free_pages_nr ppm +! 2 ^ k)) ppm' /\
  same_pages (fun j => j <> i /\ exists m, busy bm j m) ppm ppm'.

Lemma free_nolock_ok ppm bm L i k p : ppm_inv ppm bm L None 0 -> busy bm i k ->
  pages_tbl ppm !! i = Some p -> releasable p -> count p = 0 ->
  exists ppm' bm' L', ppm_free_pages_nolock ppm i k i = Some ppm' /\
    ppm_inv ppm' bm' L' None 0 /\ freed ppm ppm' bm bm' i k.
Proof.
  intros [[Hn Hmod] Ht Hc Hp Hl Htot _] Hi Hpi Hrel Hcnt.
  destruct (t_block _ _ Ht _ _ _ Hi) as (Hk0 & Hi0 & Hin & Hal). pose proof (pow2_pos k ltac:(lia)).
  unfold ppm_free_pages_nolock, tbl_state_set. rewrite Hpi. cbn [mbind option_bind page_state_set].
  unfold page_to_free, page_refcount_get. rewrite Hrel, Hcnt. cbn [assertn t_page t_diags Z.eqb].
  rewrite shl1_pow2 by (unfold PPM_LAST_ORDER, PPM_MAX_ORDER in *; lia).
  set (ppm1 := set_free_nr _ _).
  destruct (free_merge_ok (Z.to_nat (PPM_LAST_ORDER - k)) ppm1 bm L i k 0)
    as (ppm2 & k2 & i2 & bm2 & L2 & -> & Hinv2 & Hi2 & Hb2 & (R1 & R2 & R3 & R4)).
  { split; simpl; [done|done|done| |by eapply lists_ok_ext| |].
    - by eapply pages_start_free.
    - rewrite Htot, u32_add_l. f_equal. lia.
    - intros j [= <-]. eauto. }
  { done. } { lia. }
  simpl. rewrite Z.add_0_r in Hinv2.
  destruct (free_finish_ok _ _ _ _ _ Hinv2 Hi2 Hb2) as (ppm3 & ppm4 & L4 & -> & E4 & Hinv4 & He4 & Hs4).
  simpl. rewrite E4. eexists _, _, L4. split; [done|]. split; [exact Hinv4|]. split_and!.
  - intros j m. unfold busy in *. rewrite lookup_insert. case_decide as E.
    + subst j. split; [done|]. intros [Hj Hne]. destruct Hne. by eapply R2.
    + by apply R1.
  - etrans; [|exact He4]. etrans; [|exact R3]. repeat split. simpl. lia.
  - intros j [Hj [m Hm]]. rewrite Hs4.
    + rewrite R4 by eauto. simpl. rewrite lookup_insert_ne by done. done.
    + intros ->. apply Hj. by eapply R2.
Qed.

(** [ppm_free_pages]: the count goes down; the last reference releases the block. *)
Lemma free_pages_shared ppm i p : pages_tbl ppm !! i = Some p -> 1 < count p ->
  ppm_free_pages ppm i =
    Some (set_pages ppm (<[i := set_count p (count p -! 1)]> (pages_tbl ppm)) (diags ppm)).
Proof.
  intros Hp Hc. unfold ppm_free_pages, tbl_refcount_down. rewrite Hp. simpl.
  destruct (Z.ltb_spec 1 (count p)); [done|lia].
Qed.

(** Descriptor updates of a busy head that keep its order and leave it busy. *)
Lemma inv_update_busy ppm bm L i k p q : ppm_inv ppm bm L None 0 -> busy bm i k ->
  pages_tbl ppm !! i = Some p -> order q = order p -> state q <> PGFREE ->
  ppm_inv (set_pages ppm (<[i := q]> (pages_tbl ppm)) (diags ppm)) bm L None 0.
Proof.
  intros [Hn Ht Hc Hp Hl Htot Hf] Hi Hpi Ho Hs. unfold busy in Hi.
  split; simpl; [done|done|done| |by eapply lists_ok_ext|done|done]. split.
  - by eapply pages_dom_insert.
  - intros j m f r Hj Hx Hr. rewrite lookup_insert in Hr. case_decide; simplify_eq.
    + rewrite Ho. split; [by eapply (p_head _ _ _ _ Hp)|done].
    + by eapply (p_head _ _ _ _ Hp).
  - intros j m f l r Hj Hl' Hr. rewrite lookup_insert_ne in Hr; [by eapply (p_inner _ _ _ _ Hp j)|].
    intros <-. pose proof (tiling_inner_not_head _ _ Ht _ _ _ i Hj ltac:(lia)). congruence.
  - done.
  - by eapply pages_count_insert.
Qed.

Lemma free_pages_last ppm bm L i k p : ppm_inv ppm bm L None 0 -> busy bm i k ->
  pages_tbl ppm !! i = Some p -> releasable p -> count p = 1 ->
  exists ppm' bm' L', ppm_free_pages ppm i = Some ppm' /\
    ppm_inv ppm' bm' L' None 0 /\ freed ppm ppm' bm bm' i k.
Proof.
  intros Hinv Hi Hp Hrel Hc. set (q := set_count p 0).
  assert (Ho : order p = k) by (eapply (p_head _ _ _ _ (i_pages _ _ _ _ _ Hinv)); eauto).
  pose proof (inv_update_busy ppm bm L i k p q Hinv Hi Hp eq_refl (releasable_not_free _ Hrel)) as Hinv1.
  destruct (free_nolock_ok _ bm L i k q Hinv1 Hi) as (ppm' & bm' & L' & E & Hinv' & (F1 & F2 & F3));
    [simpl; by rewrite lookup_insert_eq|done|done|].
  exists ppm', bm', L'. split; [|split; [done|split_and!; [done|done|]]].
  - unfold ppm_free_pages, tbl_refcount_down. rewrite Hp. simpl. rewrite Hc. simpl.
    rewrite lookup_insert_eq. simpl. rewrite Ho. exact E.
  - intros j Hj. rewrite F3 by done. simpl. rewrite lookup_insert_ne; naive_solver.
Qed.
