(* ===== verification/PpmAlloc.v ===== *)
(** * PpmAlloc: allocation of pages, completeness, and the abstract allocator

    The second half of the proof of [kernel/mm/ppm.c]: [ppm_do_alloc_pages] and
    [ppm_init] against the invariant of [PpmInv], the completeness of the allocator (it
    fails only when no aligned run of the requested size is free) and its refinement of an
    abstract allocator of disjoint blocks. *)

From S2P Require Import Prelude Bits ListH Page Ppm PpmInv.

(** ** The search loop *)

Lemma free_list_lookup ppm bm L k : lists_ok ppm bm L -> 0 <= k <= PPM_LAST_ORDER ->
  list_empty (links ppm) (Root k) = Some (bool_decide (L k = [])).
Proof.
  intros H Hk. rewrite (list_empty_dlists _ _ _ _ (l_rep _ _ _ H) (lists_map_lookup L k Hk)).
  f_equal. apply bool_decide_ext. destruct (L k); naive_solver.
Qed.

Lemma alloc_find_ok n ppm bm L k : lists_ok ppm bm L -> 0 <= k -> Z.of_nat n = PPM_MAX_ORDER - k ->
  (alloc_find n ppm k = Some None /\ forall m, k <= m <= PPM_LAST_ORDER -> L m = []) \/
  (exists i m l nr, k <= m <= PPM_LAST_ORDER /\ i ∈ L m /\
    alloc_find n ppm k = Some (Some (i, m, l)) /\
    zget (free_pages_nr_tbl ppm) m = Some nr /\
    buddy_unlink ppm m i = Some (set_lists ppm (zset (free_pages_nr_tbl ppm) m (nr -! 1)) l)).
Proof.
  intros H. revert k. induction n as [|n IH]; intros k Hk Hn; cbn [alloc_find].
  { left. split; [done|]. unfold PPM_LAST_ORDER. lia. }
  assert (Hk' : 0 <= k <= PPM_LAST_ORDER) by (unfold PPM_LAST_ORDER; lia).
  rewrite (free_list_lookup _ _ _ _ H Hk'). simpl. case_bool_decide as E; simpl.
  - destruct (IH (k + 1)) as [[E' He]|(i & m & l & nr & Hm & Hi)]; [lia..| |].
    + left. split; [done|]. intros m Hm. destruct (Z.eq_dec m k) as [->|]; [done|]. apply He. lia.
    + right. exists i, m, l, nr. split; [lia|exact Hi].
  - right. destruct (L k) as [|i xs] eqn:EL; [done|].
    pose proof (lists_map_lookup L k Hk') as Hl. rewrite EL in Hl. rewrite fmap_cons in Hl.
    rewrite (list_first_dlists _ _ _ _ _ (l_rep _ _ _ H) Hl). simpl.
    destruct (list_unlink_dlists _ _ _ [] _ _ (l_rep _ _ _ H) Hl) as (l & El & _). rewrite El. simpl.
    exists i, k, l, (u32 (zlen (L k))). rewrite (l_nr _ _ _ H k Hk').
    split; [unfold PPM_LAST_ORDER in *; lia|]. split; [rewrite EL; set_solver|].
    split; [done|]. split; [done|]. unfold buddy_unlink. rewrite El. simpl.
    rewrite (l_nr _ _ _ H k Hk'). done.
Qed.

(** ** The split loop *)

Lemma split_step ppm bm L i k e hi : ppm_inv ppm bm L (Some i) (2 ^ (k + 1) - e) -> 0 <= k ->
  bm !! i = Some (k + 1, false) -> hi = i + 2 ^ k ->
  exists ppm1 ppm2 L', tbl_order_set ppm hi k = Some ppm1 /\ buddy_add ppm1 k hi = Some ppm2 /\
    ppm_inv ppm2 (<[hi := (k, true)]> (<[i := (k, false)]> bm)) L' (Some i) (2 ^ k - e) /\
    same_env ppm ppm2 /\ same_pages (fun j => j <> hi) ppm ppm2 /\ bm !! hi = None.
Proof.
  intros [[Hn Hmod] Ht Hc Hp Hl Htot _] Hk Hi ->.
  destruct (t_block _ _ Ht _ _ _ Hi) as (Hk0 & Hi0 & Hin & Hal).
  pose proof (pow2_pos k Hk). pose proof (pow2_S k Hk).
  assert (Hnone : bm !! (i + 2 ^ k) = None) by (eapply tiling_inner_not_head; eauto; lia).
  destruct (pages_get _ _ _ _ (i + 2 ^ k) Hp) as [p Hpi]; [lia|].
  unfold tbl_order_set. rewrite Hpi. simpl. set (ppm1 := set_pages ppm _ _).
  assert (Hl1 : lists_ok ppm1 (<[i := (k, false)]> bm) L).
  { eapply lists_ok_ext; [exact Hl|done|done|]. intros j m. rewrite lookup_insert.
    case_decide; [subst|done]. naive_solver. }
  destruct (buddy_add_ok ppm1 (<[i := (k, false)]> bm) L k (i + 2 ^ k))
    as (l & nr & L' & E & Hl' & HtL); [done|lia|right; by rewrite lookup_insert_ne by lia|].
  eexists ppm1, _, L'. split; [done|]. split; [exact E|].
  split; [|split_and!; [repeat split|intros j Hj; simpl; by rewrite lookup_insert_ne|done]].
  split; simpl.
  - done.
  - by eapply tiling_split.
  - apply coalesced_add; [|lia|].
    + eapply coalesced_subset; [done|]. intros j m Hj. rewrite lookup_insert in Hj.
      case_decide; naive_solver.
    + intros _. destruct (buddy_cases i k Hk) as [(_ & Eb & _)|(Hm & _)].
      * apply (mod_pow2_weaken _ _ (k + 1)); [lia|done].
      * rewrite <- Eb, buddy_invol, lookup_insert_eq. done.
      * lia.
  - eapply (pages_split _ _ _ _ _ _ p); eauto. simpl. apply Z.mod_small.
    unfold PPM_LAST_ORDER, PPM_MAX_ORDER in *. lia.
  - exact Hl'.
  - rewrite Htot, HtL. f_equal. lia.
  - intros j [= <-]. exists k. rewrite lookup_insert_ne, lookup_insert_eq by lia. done.
Qed.

Lemma alloc_split_ok n ppm bm L i k o : ppm_inv ppm bm L (Some i) (2 ^ k - 2 ^ o) -> 0 <= o ->
  bm !! i = Some (k, false) -> Z.of_nat n = k - o ->
  exists ppm' bm' L', alloc_split n ppm i k (2 ^ k) = Some ppm' /\
    ppm_inv ppm' bm' L' (Some i) 0 /\ bm' !! i = Some (o, false) /\
    (forall j m, j <> i -> busy bm' j m <-> busy bm j m) /\
    same_env ppm ppm' /\ same_pages (fun j => exists m, busy bm j m) ppm ppm'.
Proof.
  revert ppm bm L k. induction n as [|n IH]; intros ppm bm L k Hinv Ho Hi Hn; cbn [alloc_split].
  { assert (k = o) as -> by lia. rewrite Z.sub_diag in Hinv. exists ppm, bm, L. done. }
  destruct (t_block _ _ (i_tiling _ _ _ _ _ Hinv) _ _ _ Hi) as (Hk0 & Hi0 & Hin & Hal).
  rewrite Z.shiftr_div_pow2 by lia.
  replace (2 ^ k / 2 ^ 1) with (2 ^ (k - 1)) by (rewrite Z.pow_sub_r by lia; done).
  assert (Ek : k = (k - 1) + 1) by lia. rewrite Ek in Hinv, Hi.
  pose proof (pow2_pos (k - 1) ltac:(lia)).
  destruct (split_step ppm bm L i (k - 1) (2 ^ o) _ Hinv ltac:(lia) Hi eq_refl)
    as (ppm1 & ppm2 & L' & -> & E2 & Hinv2 & He & Hs & Hnone).
  simpl. rewrite E2. simpl.
  destruct (IH _ _ _ (k - 1) Hinv2) as (ppm' & bm' & L2 & -> & Hinv' & Hi' & Hb & He' & Hs');
    [lia|rewrite lookup_insert_ne, lookup_insert_eq by lia; done|lia|].
  exists ppm', bm', L2. split_and!; [done|done|done| |by etrans|].
  - intros j m Hj. rewrite Hb by done. unfold busy. rewrite lookup_insert.
    case_decide; [subst; naive_solver|]. rewrite lookup_insert_ne by done. done.
  - intros j [m Hm]. unfold busy in *. assert (j <> i + 2 ^ (k - 1)) by congruence.
    rewrite Hs'; [by apply Hs|]. unfold busy. rewrite lookup_insert_ne by done.
    rewrite lookup_insert. case_decide; eauto.
Qed.

(** ** Allocation *)

(** The effect of a successful allocation of block [b] of order [o]. *)
Definition allocated (ppm ppm' : ppm_s) (bm bm' : gmap Z (Z * bool)) (b o : Z) : Prop :=
  busy bm' b o /\ (forall m, ~ busy bm b m) /\
  (forall j m, j <> b -> busy bm' j m <-> busy bm j m) /\
  same_env (set_free_nr ppm (free_pages_nr ppm -! 2 ^ o)) ppm' /\
  same_pages (fun j => exists m, busy bm j m) ppm ppm' /\
  (exists q, pages_tbl ppm' !! b = Some q /\ state q = PGINVALID /\ order q = o /\ count q = 1).

(** The end of [ppm_do_alloc_pages]: the block in flight becomes a busy block. *)
Lemma alloc_finish_ok ppm bm L i o : ppm_inv ppm bm L (Some i) 0 -> bm !! i = Some (o, false) ->
  exists ppm1 ppm2 ppm3, tbl_state_set ppm i PGINVALID = Some ppm1 /\
    tbl_refcount_up ppm1 i = Some (0, ppm2) /\ tbl_order_set ppm2 i o = Some ppm3 /\
    ppm_inv ppm3 bm L None 0 /\ same_env ppm ppm3 /\ same_pages (fun j => j <> i) ppm ppm3 /\
    exists q, pages_tbl ppm3 !! i = Some q /\ state q = PGINVALID /\ order q = o /\ count q = 1.
Proof.
  intros [[Hn Hmod] Ht Hc Hp Hl Htot _] Hi.
  destruct (t_block _ _ Ht _ _ _ Hi) as (Hk0 & Hi0 & Hin & Hal). pose proof (pow2_pos o ltac:(lia)).
  destruct (pages_get _ _ _ _ i Hp) as [p Hpi]; [lia|].
  pose proof (p_flight _ _ _ _ Hp i p eq_refl Hpi) as Hs.
  pose proof (p_count _ _ _ _ Hp i p Hpi Hs) as Hcnt.
  assert (Ho : o mod 16 = o).
  { apply Z.mod_small. unfold PPM_LAST_ORDER, PPM_MAX_ORDER in *. lia. }
  unfold tbl_state_set. rewrite Hpi. cbn [mbind option_bind page_state_set].
  rewrite page_to_invalid_free by done. cbn.
  eexists _, _, _. split; [done|]. unfold tbl_refcount_up. cbn [pages_tbl set_pages].
  rewrite lookup_insert_eq. cbn. rewrite Hcnt. cbn. split; [done|].
  unfold tbl_order_set. cbn [pages_tbl set_pages]. rewrite lookup_insert_eq. cbn. split; [done|].
  rewrite !insert_insert_eq. split; [|split_and!].
  - assert (Hbm : bm = <[i := (o, false)]> bm) by (by rewrite insert_id).
    split; cbn; [done|done|done| |by eapply lists_ok_ext|done|done].
    rewrite Hbm. eapply pages_land; eauto; done.
  - repeat split. cbn. lia.
  - intros j Hj. cbn. by rewrite lookup_insert_ne.
  - eexists. cbn. rewrite lookup_insert_eq. split; [done|]. cbn. done.
Qed.

Lemma ppm_signature_check ppm : signature ppm = PPM_ID ->
  set_pages ppm (pages_tbl ppm) (diags ppm + assertn (signature ppm =? PPM_ID)) = ppm.
Proof. intros ->. rewrite Z.eqb_refl. destruct ppm. cbn. rewrite Z.add_0_r. done. Qed.

Lemma do_alloc_ok ppm bm L o flags : ppm_inv ppm bm L None 0 -> signature ppm = PPM_ID ->
  0 <= o <= PPM_LAST_ORDER ->
  (ppm_do_alloc_pages ppm o flags = Some (None, ppm) /\
     forall m, o <= m <= PPM_LAST_ORDER -> L m = []) \/
  (exists b ppm' bm' L', ppm_do_alloc_pages ppm o flags = Some (Some b, ppm') /\
     ppm_inv ppm' bm' L' None 0 /\ allocated ppm ppm' bm bm' b o).
Proof.
  intros Hinv Hsig Ho. unfold ppm_do_alloc_pages. rewrite ppm_signature_check by done.
  pose proof (i_lists _ _ _ _ _ Hinv) as Hl.
  destruct (alloc_find_ok (Z.to_nat (PPM_MAX_ORDER - o)) ppm bm L o Hl)
    as [[-> He]|(i & k & l & nr & Hk & Hi & -> & Hnr & Hun)];
    [lia|unfold PPM_LAST_ORDER in *; lia|by left|right].
  assert (Hk0 : 0 <= k <= PPM_LAST_ORDER) by lia.
  apply (l_free _ _ _ Hl) in Hi; [|done].
  destruct (buddy_unlink_ok ppm bm L k i false Hl Hk0 Hi eq_refl) as (l' & nr' & L1 & Hun' & Hl1 & Ht1).
  rewrite Hun in Hun'. injection Hun' as Enr El. subst nr' l'. cbn. rewrite Hnr. cbn.
  rewrite !shl1_pow2 by (unfold PPM_LAST_ORDER, PPM_MAX_ORDER in *; lia).
  set (ppm1 := set_lists (set_free_nr _ _) _ _).
  destruct Hinv as [Hn Ht Hc Hp _ Htot _].
  destruct (alloc_split_ok (Z.to_nat (k - o)) ppm1 (<[i := (k, false)]> bm) L1 i k o)
    as (ppm2 & bm2 & L2 & -> & Hinv2 & Hi2 & Hb2 & He2 & Hs2).
  { split; cbn; [done|by eapply tiling_flag| |by apply pages_take|by eapply lists_ok_ext| |].
    - eapply coalesced_subset; [done|]. intros j m. rewrite lookup_insert. case_decide; naive_solver.
    - rewrite Htot, u32_sub_l, Ht1. f_equal. lia.
    - intros j [= <-]. exists k. by rewrite lookup_insert_eq. }
  { lia. } { by rewrite lookup_insert_eq. } { lia. }
  cbn. destruct (alloc_finish_ok _ _ _ _ _ Hinv2 Hi2)
    as (ppm3 & ppm4 & ppm5 & -> & E4 & E5 & Hinv5 & He5 & Hs5 & Hq).
  cbn. rewrite E4. cbn. rewrite E5. cbn. exists i, ppm5, bm2, L2. split; [done|]. split; [done|].
  assert (Hnb : forall m, ~ busy bm i m) by (intros m Hm; unfold busy in Hm; congruence).
  split_and!; [done|done| |by etrans| |done].
  - intros j m Hj. rewrite Hb2 by done. unfold busy. by rewrite lookup_insert_ne.
  - intros j [m Hm]. assert (i <> j) by (intros ->; by eapply Hnb).
    rewrite Hs5 by done. rewrite Hs2; [done|]. exists m. unfold busy. by rewrite lookup_insert_ne.
Qed.

(** ** Completeness *)

(** No page of an aligned run of [2^o] pages is in a busy block. *)
Definition free_run (bm : gmap Z (Z * bool)) (n r o : Z) : Prop :=
  0 <= r /\ r mod 2 ^ o = 0 /\ r + 2 ^ o <= n /\
  forall j m, busy bm j m -> j + 2 ^ m <= r \/ r + 2 ^ o <= j.

Section Completeness.
Context (n : Z) (bm : gmap Z (Z * bool)) (r o : Z).
Context (Ht : tiling n bm) (Hc : coalesced bm) (Hn : n mod 2 ^ PPM_LAST_ORDER = 0).
Context (Ho : 0 <= o <= PPM_LAST_ORDER) (Hr : free_run bm n r o).
(** Every free block that meets the run is smaller than it. *)
Context (Hsmall : forall j m, bm !! j = Some (m, true) -> j < r + 2 ^ o -> r < j + 2 ^ m -> m < o).

(** Blocks that meet the run are free, small, and inside the run. *)
Lemma run_block p : r <= p < r + 2 ^ o ->
  exists j m, bm !! j = Some (m, true) /\ m < o /\ j <= p < j + 2 ^ m /\ r <= j /\ j + 2 ^ m <= r + 2 ^ o.
Proof.
  intros Hp. destruct Hr as (Hr0 & Hral & Hrn & Hrb).
  destruct (t_cover _ _ Ht p ltac:(lia)) as (j & m & f & Hj & Hin).
  destruct f; [|destruct (Hrb j m Hj); lia].
  pose proof (Hsmall _ _ Hj ltac:(lia) ltac:(lia)) as Hm. destruct (t_block _ _ Ht _ _ _ Hj) as (Hm0 & Hj0 & Hjn & Hjal).
  pose proof (pow2_pos m ltac:(lia)). exists j, m. split_and!; [done|lia|lia|lia| |].
  - pose proof (mult_le j r (2 ^ m) ltac:(lia) Hjal (mod_pow2_weaken r m o ltac:(lia) Hral)). lia.
  - assert (Hend : (r + 2 ^ o) mod 2 ^ m = 0).
    { apply (mod_pow2_weaken _ _ o); [lia|]. apply mod_add_mult; [apply pow2_pos; lia|done|].
      apply Z.mod_same. pose proof (pow2_pos o); lia. }
    apply mult_le; [lia|done|done|lia].
Qed.

(** By descent on the order: the buddy of a block of the run is covered by a block of a
    smaller order, or by the buddy itself, or by a block that also covers the pair. *)
Lemma run_no_block m : forall j, 0 <= m -> bm !! j = Some (m, true) -> m < o ->
  r <= j -> j + 2 ^ m <= r + 2 ^ o -> False.
Proof.
  induction m as [m IH] using (well_founded_induction (Z.lt_wf 0)). intros j Hm Hj Hmo Hrj Hjr.
  destruct (t_block _ _ Ht _ _ _ Hj) as (Hm0 & Hj0 & Hjn & Hjal).
  destruct (buddy_facts j m n) as (Hb0 & Hbal & Hbn & Hbj & Hh0 & Hhal & Hhn & Hor);
    [lia|lia|done|lia|apply (mod_pow2_weaken _ _ PPM_LAST_ORDER); [lia|done]|].
  pose proof (pow2_pos m Hm). pose proof (pow2_S m Hm).
  set (h := Z.land j (buddy j m)) in *. destruct Hr as (Hr0 & Hral & Hrn & _).
  (* the pair of buddies is inside the run *)
  assert (Hpair : r <= h /\ h + 2 ^ (m + 1) <= r + 2 ^ o).
  { assert (Hral' : r mod 2 ^ (m + 1) = 0) by (apply (mod_pow2_weaken _ _ o); [lia|done]).
    assert (Hend : (r + 2 ^ o) mod 2 ^ (m + 1) = 0).
    { apply (mod_pow2_weaken _ _ o); [lia|]. apply mod_add_mult; [apply pow2_pos; lia|done|].
      apply Z.mod_same. pose proof (pow2_pos o); lia. }
    pose proof (mult_le h r (2 ^ (m + 1)) ltac:(lia) Hhal Hral').
    pose proof (mult_le h (r + 2 ^ o) (2 ^ (m + 1)) ltac:(lia) Hhal Hend). lia. }
  destruct (run_block (buddy j m)) as (j2 & m2 & Hj2 & Hm2 & Hin & Hrj2 & Hjr2); [lia|].
  destruct (t_block _ _ Ht _ _ _ Hj2) as (Hm20 & Hj20 & _ & Hj2al).
  destruct (Z.lt_trichotomy m2 m) as [Hlt|[->|Hgt]].
  - eapply (IH m2); eauto; lia.
  - assert (j2 = buddy j m) as ->.
    { destruct (Z.eq_dec j2 (buddy j m)); [done|].
      pose proof (mult_le j2 (buddy j m) (2 ^ m) ltac:(lia) Hj2al Hbal). lia. }
    apply (Hc j m); [lia|done|done].
  - assert (Hj2j : j2 <> j) by (intros ->; rewrite Hj in Hj2; simplify_eq; lia).
    destruct (Z.eq_dec j2 (buddy j m)) as [->|Hne].
    + (* a larger block headed by the buddy covers the pair *)
      assert (Hb' : buddy j m mod 2 ^ (m + 1) = 0) by (apply (mod_pow2_weaken _ _ m2); [lia|done]).
      assert (buddy j m = h) by (pose proof (mult_le h (buddy j m) (2 ^ (m + 1))); lia).
      pose proof (Z.pow_le_mono_r 2 (m + 1) m2 ltac:(lia) ltac:(lia)).
      apply Hj2j. eapply (tiling_unique _ _ Ht _ _ _ _ _ _ j Hj2 Hj); lia.
    + destruct (nested_block j2 m2 (buddy j m) j m h) as [_ Hji]; [lia|lia|done|done|lia|done|lia|].
      apply Hj2j. eapply (tiling_unique _ _ Ht _ _ _ _ _ _ j Hj2 Hj); lia.
Qed.

Lemma run_impossible : False.
Proof.
  pose proof (pow2_pos o ltac:(lia)).
  destruct (run_block r ltac:(lia)) as (j & m & Hj & Hm & _ & ? & ?).
  destruct (t_block _ _ Ht _ _ _ Hj) as (Hm0 & _). eapply (run_no_block m j); eauto. lia.
Qed.
End Completeness.

Lemma alloc_fails_no_run ppm bm L o r : ppm_inv ppm bm L None 0 -> 0 <= o <= PPM_LAST_ORDER ->
  (forall m, o <= m <= PPM_LAST_ORDER -> L m = []) -> ~ free_run bm (pages_nr ppm) r o.
Proof.
  intros Hinv Ho He Hr. pose proof (i_tiling _ _ _ _ _ Hinv) as Ht.
  eapply (run_impossible (pages_nr ppm) bm r o); eauto.
  - apply (i_coalesced _ _ _ _ _ Hinv).
  - apply (i_n _ _ _ _ _ Hinv).
  - intros j m Hj _ _. destruct (t_block _ _ Ht _ _ _ Hj) as (Hm & _).
    destruct (Z.lt_ge_cases m o) as [|Hge]; [done|exfalso].
    apply (l_free _ _ _ (i_lists _ _ _ _ _ Hinv)) in Hj; [|lia]. rewrite He in Hj by lia. set_solver.
Qed.

(** The busy blocks determine the free ones: a coalesced tiling has one shape. *)
Lemma coalesced_covers n bm1 bm2 j k : tiling n bm1 -> tiling n bm2 -> coalesced bm2 ->
  n mod 2 ^ PPM_LAST_ORDER = 0 -> (forall i m, busy bm1 i m <-> busy bm2 i m) ->
  bm1 !! j = Some (k, true) ->
  exists i m, bm2 !! i = Some (m, true) /\ i <= j /\ j + 2 ^ k <= i + 2 ^ m.
Proof.
  intros Ht1 Ht2 Hc2 Hn Hb Hj. destruct (t_block _ _ Ht1 _ _ _ Hj) as (Hk & Hj0 & Hjn & Hjal).
  pose proof (pow2_pos k ltac:(lia)).
  assert (Hrun : free_run bm2 n j k).
  { split_and!; [done|done|done|]. intros i m Hi. apply Hb in Hi.
    destruct (Z.lt_trichotomy i j) as [Hlt|[->|Hgt]]; [left|unfold busy in Hi; congruence|right].
    - by eapply (t_disj _ _ Ht1 i j).
    - by eapply (t_disj _ _ Ht1 j i). }
  destruct (t_cover _ _ Ht2 j ltac:(lia)) as (i & m & f & Hi & Hin).
  destruct f; [|destruct Hrun as (_ & _ & _ & Hr); destruct (Hr i m Hi); lia].
  destruct (Z.le_gt_cases k m) as [Hkm|Hkm].
  - exists i, m. split_and!; [done|lia|]. destruct (t_block _ _ Ht2 _ _ _ Hi) as (? & ? & ? & Hial).
    apply mult_le; [lia|done| |lia]. apply (mod_pow2_weaken _ _ m); [lia|].
    pose proof (pow2_pos m). apply mod_add_mult; [lia|done|apply Z.mod_same; lia].
  - exfalso. eapply (run_impossible n bm2 j k); eauto. intros i2 m2 Hi2 H1 H2.
    destruct (Z.lt_ge_cases m2 k) as [|Hge]; [done|exfalso].
    destruct (t_block _ _ Ht2 _ _ _ Hi2) as (? & ? & ? & Hi2al).
    assert (Hle : i2 <= j).
    { destruct (Z.le_gt_cases i2 j) as [|Hgt]; [done|].
      pose proof (mult_le j i2 (2 ^ k) ltac:(lia) Hjal (mod_pow2_weaken i2 k m2 ltac:(lia) Hi2al)). lia. }
    assert (i2 = i) as -> by (eapply (tiling_unique _ _ Ht2 _ _ _ _ _ _ j Hi2 Hi); lia).
    rewrite Hi in Hi2. simplify_eq. lia.
Qed.

Lemma coalesced_unique n bm1 bm2 : tiling n bm1 -> tiling n bm2 -> coalesced bm1 -> coalesced bm2 ->
  n mod 2 ^ PPM_LAST_ORDER = 0 -> (forall i m, busy bm1 i m <-> busy bm2 i m) -> bm1 = bm2.
Proof.
  intros Ht1 Ht2 Hc1 Hc2 Hn Hb.
  assert (Hhalf : forall bm bm', tiling n bm -> tiling n bm' -> coalesced bm -> coalesced bm' ->
    (forall i m, busy bm i m <-> busy bm' i m) -> forall j k, bm !! j = Some (k, true) ->
    bm' !! j = Some (k, true)).
  { clear bm1 bm2 Ht1 Ht2 Hc1 Hc2 Hb. intros bm bm' Ht Ht' Hc Hc' Hb j k Hj.
    destruct (coalesced_covers n bm bm' j k) as (i & m & Hi & Hij & Hjk); [done..|].
    destruct (coalesced_covers n bm' bm i m) as (l & o & Hl & Hli & Him); [done..|].
    destruct (t_block _ _ Ht _ _ _ Hj) as (Hk & _). destruct (t_block _ _ Ht' _ _ _ Hi) as (Hm & _).
    pose proof (pow2_pos k). pose proof (pow2_pos m).
    assert (l = j) as -> by (eapply (tiling_unique _ _ Ht _ _ _ _ _ _ j Hl Hj); lia).
    rewrite Hj in Hl. simplify_eq. assert (i = j) as -> by lia.
    assert (m = o) as ->; [|done]. apply (Z.pow_inj_r 2); lia. }
  apply map_eq. intros i. apply option_eq. intros [k []]; [|apply Hb].
  split; apply Hhalf; done.
Qed.

(** ** The counter of free pages *)

Section Counting.
Context (n : Z) (bm : gmap Z (Z * bool)) (L : Z -> list Z).
Context (Ht : tiling n bm) (Hn : 0 <= n).
Context (Hl : forall i k, 0 <= k <= PPM_LAST_ORDER -> i ∈ L k <-> bm !! i = Some (k, true)).
Context (Hnd : forall k, 0 <= k <= PPM_LAST_ORDER -> NoDup (L k)).

Definition pages_of_order (k : Z) : list Z := L k ≫= fun i => seqZ i (2 ^ k).
Definition free_pages_list : list Z := seqZ 0 PPM_MAX_ORDER ≫= pages_of_order.

Lemma elem_of_orders k : k ∈ seqZ 0 PPM_MAX_ORDER <-> 0 <= k <= PPM_LAST_ORDER.
Proof. rewrite elem_of_seqZ. unfold PPM_LAST_ORDER. lia. Qed.

Lemma elem_of_pages_of_order p k : 0 <= k <= PPM_LAST_ORDER ->
  p ∈ pages_of_order k <-> exists j, bm !! j = Some (k, true) /\ j <= p < j + 2 ^ k.
Proof.
  intros Hk. unfold pages_of_order. rewrite list_elem_of_bind.
  setoid_rewrite elem_of_seqZ. setoid_rewrite Hl; [|done]. naive_solver.
Qed.

Lemma elem_of_free_pages p :
  p ∈ free_pages_list <-> exists j m, bm !! j = Some (m, true) /\ j <= p < j + 2 ^ m.
Proof.
  unfold free_pages_list. rewrite list_elem_of_bind. split.
  - intros (k & Hp & Hk). apply elem_of_orders in Hk.
    apply elem_of_pages_of_order in Hp as (j & Hj & Hin); eauto.
  - intros (j & m & Hj & Hin). destruct (t_block _ _ Ht _ _ _ Hj) as (Hm & _).
    exists m. rewrite elem_of_orders, elem_of_pages_of_order by done. eauto.
Qed.

Lemma zlen_bind_Zsum {A} (l : list A) (f : A -> list Z) (g : A -> Z) :
  (forall x, x ∈ l -> zlen (f x) = g x) -> zlen (l ≫= f) = foldr (fun x acc => g x + acc) 0 l.
Proof.
  induction l as [|x l IH]; intros Hf; [done|]. cbn. rewrite zlen_app, Hf, IH; [done|set_solver..].
Qed.

Lemma zlen_free_pages : zlen free_pages_list = free_total L.
Proof.
  unfold free_pages_list, free_total, Zsum. apply zlen_bind_Zsum. intros k Hk.
  apply elem_of_orders in Hk. unfold pages_of_order.
  rewrite (zlen_bind_Zsum _ _ (fun _ => 2 ^ k)).
  2:{ intros i _. apply zlen_seqZ. pose proof (pow2_pos k); lia. }
  clear. induction (L k) as [|x l IH]; cbn; [unfold zlen; cbn; lia|]. rewrite IH, zlen_cons. lia.
Qed.

Lemma NoDup_free_pages : NoDup free_pages_list.
Proof.
  unfold free_pages_list. apply NoDup_bind; [| |apply NoDup_seqZ].
  - intros k1 k2 p H1 H2 Hp1 Hp2. rewrite elem_of_orders in H1, H2.
    apply elem_of_pages_of_order in Hp1 as (j1 & Hj1 & Hin1); [|done].
    apply elem_of_pages_of_order in Hp2 as (j2 & Hj2 & Hin2); [|done].
    pose proof (tiling_unique _ _ Ht _ _ _ _ _ _ p Hj1 Hj2 Hin1 Hin2). subst. congruence.
  - intros k Hk. apply elem_of_orders in Hk. unfold pages_of_order.
    apply NoDup_bind; [|intros; apply NoDup_seqZ|by apply Hnd].
    intros j1 j2 p H1 H2 Hp1 Hp2. rewrite elem_of_seqZ in Hp1, Hp2.
    rewrite Hl in H1, H2 by done. by eapply (tiling_unique _ _ Ht).
Qed.

Lemma free_total_bound : 0 <= free_total L <= n.
Proof.
  rewrite <- zlen_free_pages. split; [apply zlen_nonneg|].
  rewrite <- (zlen_seqZ 0 n Hn). unfold zlen. apply inj_le.
  apply submseteq_length, NoDup_submseteq; [apply NoDup_free_pages|].
  intros p Hp. apply elem_of_free_pages in Hp as (j & m & Hj & Hin).
  destruct (t_block _ _ Ht _ _ _ Hj) as (_ & ? & ? & _). apply elem_of_seqZ. lia.
Qed.
End Counting.

(** [free_pages_nr] is the number of pages that belong to free blocks. *)
Lemma free_pages_nr_exact ppm bm L : ppm_inv ppm bm L None 0 ->
  exists l, NoDup l /\ (forall p, p ∈ l <-> exists j m, bm !! j = Some (m, true) /\ j <= p < j + 2 ^ m) /\
    free_pages_nr ppm = zlen l /\ free_pages_nr ppm <= pages_nr ppm.
Proof.
  intros [[Hn _] Ht _ _ Hl Htot _]. pose proof (l_free _ _ _ Hl) as Hf.
  assert (Hnd : forall k, 0 <= k <= PPM_LAST_ORDER -> NoDup (L k)) by (intros; by eapply lists_nodup).
  pose proof (free_total_bound _ _ _ Ht ltac:(lia) Hf Hnd).
  assert (E : free_pages_nr ppm = free_total L).
  { rewrite Htot, Z.add_0_r. apply u32_small. unfold is_u32. lia. }
  exists (free_pages_list L). split_and!.
  - by eapply NoDup_free_pages.
  - by eapply elem_of_free_pages.
  - rewrite E. symmetry. apply (zlen_free_pages (pages_nr ppm) bm); auto. lia.
  - lia.
Qed.

(** ** Initialisation *)

(** Descriptors at boot: order 0, and either initialised or reserved. *)
Definition boot_pages (n : Z) (pages : gmap Z page_s) : Prop :=
  (forall i, is_Some (pages !! i) <-> 0 <= i < n) /\
  (forall i p, pages !! i = Some p -> order p = 0 /\
     (state p = PGINIT /\ count p = 0 \/ state p = PGRESERVED)).

Lemma init_pages_boot n cid : boot_pages n (init_pages_tbl n cid).
Proof.
  assert (Hl : forall i p, init_pages_tbl n cid !! i = Some p <-> 0 <= i < n /\ p = page_init cid).
  { intros i p. unfold init_pages_tbl. rewrite <- elem_of_list_to_map.
    2:{ rewrite <- list_fmap_compose. apply NoDup_fmap; [by intros ? ? ?|apply NoDup_seqZ]. }
    rewrite list_elem_of_fmap. split.
    - intros (k & [= -> ->] & Hk). apply elem_of_seqZ in Hk. split; [lia|done].
    - intros [Hi ->]. exists i. split; [done|]. apply elem_of_seqZ. lia. }
  split.
  - intros i. split; [intros [p Hp]; by apply Hl in Hp as []|]. intros Hi. eexists. by apply Hl.
  - intros i p Hp. apply Hl in Hp as [_ ->]. cbn. auto.
Qed.

(** Everything but the descriptors is unchanged by a reservation. *)
Definition same_but_pages (ppm ppm' : ppm_s) : Prop :=
  exists t, ppm' = set_pages ppm t (diags ppm).

Definition is_reserved (ppm : ppm_s) (j : Z) : Prop :=
  exists p, pages_tbl ppm !! j = Some p /\ state p = PGRESERVED.

Lemma reserve_ok ppm i : boot_pages (pages_nr ppm) (pages_tbl ppm) -> 0 <= i < pages_nr ppm ->
  exists ppm', tbl_state_set ppm i PGRESERVED = Some ppm' /\ same_but_pages ppm ppm' /\
    boot_pages (pages_nr ppm) (pages_tbl ppm') /\
    (forall j, is_reserved ppm' j <-> j = i \/ is_reserved ppm j).
Proof.
  intros [Hd Hb] Hi. pose proof (proj2 (Hd i) Hi) as [p Hp]. unfold tbl_state_set. rewrite Hp. cbn.
  eexists. split; [done|]. split; [exists (<[i := set_state (set_count p 1) PGRESERVED]> (pages_tbl ppm));
    by rewrite Z.add_0_r|].
  split; [split; cbn; intros j; rewrite lookup_insert|].
  - case_decide; [subst; split; [done|eauto]|apply Hd].
  - intros q Hq. case_decide; simplify_eq; [|by eapply Hb]. cbn. split; [|by right].
    apply (proj1 (Hb _ _ Hp)).
  - intros j. unfold is_reserved. cbn. destruct (decide (i = j)) as [<-|].
    + rewrite lookup_insert_eq. split; [by left|]. eauto.
    + rewrite lookup_insert_ne by done. naive_solver.
Qed.

Lemma same_but_pages_trans a b c : same_but_pages a b -> same_but_pages b c -> same_but_pages a c.
Proof. intros [t ->] [u ->]. by exists u. Qed.
Lemma same_but_pages_refl a : same_but_pages a a.
Proof. exists (pages_tbl a). by destruct a. Qed.

Lemma reserve_pages_ok n ppm i : boot_pages (pages_nr ppm) (pages_tbl ppm) -> 0 <= i ->
  i + Z.of_nat n <= pages_nr ppm ->
  exists ppm', reserve_pages n ppm i = Some ppm' /\ same_but_pages ppm ppm' /\
    boot_pages (pages_nr ppm) (pages_tbl ppm') /\
    (forall j, is_reserved ppm' j <-> i <= j < i + Z.of_nat n \/ is_reserved ppm j).
Proof.
  revert ppm i. induction n as [|n IH]; intros ppm i Hb Hi Hn; cbn [reserve_pages].
  { exists ppm. split_and!; auto using same_but_pages_refl. intros j. split; [by right|].
    intros [?|?]; [lia|done]. }
  destruct (reserve_ok ppm i Hb ltac:(lia)) as (ppm1 & -> & Hs1 & Hb1 & Hr1). cbn.
  pose proof Hs1 as [t E]. destruct (IH ppm1 (i + 1)) as (ppm' & -> & Hs & Hb' & Hr');
    [by subst ppm1|lia|subst ppm1; cbn; lia|]. subst ppm1.
  exists ppm'. split_and!; eauto using same_but_pages_trans. intros j. rewrite Hr', Hr1.
  destruct (Z.eq_dec j i); [|intuition lia]. split; [left; lia|by right; left].
Qed.

(** The page that the reservation loop designates for address [a]. *)
Definition reserved_page (ppm : ppm_s) (info : boot_info_s) (a : Z) : Z :=
  if local_cluster_id info =? boot_cluster_id info
  then ppm_ppn2page ppm (Z.shiftr a PMM_PAGE_SHIFT) else ppm_addr2page ppm a.

(** The reserved interval does not wrap around and its pages are in the table. *)
Definition reserved_in_range (ppm : ppm_s) (info : boot_info_s) : Prop :=
  reserved_end info + PMM_PAGE_SIZE <= 2 ^ 32 /\ 0 <= reserved_start info /\
  forall a, reserved_start info <= a < reserved_end info ->
    0 <= reserved_page ppm info a < pages_nr ppm.

(** [j] is the page of an address that the loop visits from [a] on. *)
Definition visited (ppm : ppm_s) (info : boot_info_s) (a j : Z) : Prop :=
  exists t, 0 <= t /\ a + t * PMM_PAGE_SIZE < reserved_end info /\
    j = reserved_page ppm info (a + t * PMM_PAGE_SIZE).

Lemma visited_step ppm info a j : a < reserved_end info ->
  visited ppm info a j <-> j = reserved_page ppm info a \/ visited ppm info (a + PMM_PAGE_SIZE) j.
Proof.
  intros Ha. unfold visited. split.
  - intros (t & Ht & Hlt & ->). destruct (Z.eq_dec t 0) as [->|]; [left; by rewrite Z.add_0_r|].
    right. exists (t - 1). replace (a + PMM_PAGE_SIZE + (t - 1) * PMM_PAGE_SIZE)
      with (a + t * PMM_PAGE_SIZE) by lia. split; [lia|done].
  - intros [->|(t & Ht & Hlt & ->)]; [exists 0; rewrite Z.add_0_r; done|].
    exists (t + 1). replace (a + (t + 1) * PMM_PAGE_SIZE)
      with (a + PMM_PAGE_SIZE + t * PMM_PAGE_SIZE) by lia. split; [lia|done].
Qed.

Lemma reserve_range_ok fuel ppm info a : reserved_in_range ppm info ->
  boot_pages (pages_nr ppm) (pages_tbl ppm) -> reserved_start info <= a ->
  reserved_end info - a <= Z.of_nat fuel ->
  exists ppm', reserve_range fuel ppm info a = Some ppm' /\ same_but_pages ppm ppm' /\
    boot_pages (pages_nr ppm) (pages_tbl ppm') /\
    (forall j, is_reserved ppm' j <-> visited ppm info a j \/ is_reserved ppm j).
Proof.
  intros Hr. pose proof Hr as (He & Hs0 & Hin). revert ppm a Hr Hin.
  assert (Hend : forall ppm a, reserved_end info <= a ->
    forall j, is_reserved ppm j <-> visited ppm info a j \/ is_reserved ppm j).
  { intros ppm a Ha j. split; [by right|]. intros [(t & Ht & Hlt & _)|?]; [|done].
    unfold PMM_PAGE_SIZE in *. lia. }
  induction fuel as [|fuel IH]; intros ppm a Hr Hin Hb Ha Hf; cbn [reserve_range];
    destruct (Z.ltb_spec a (reserved_end info));
    try (exists ppm; split_and!; auto using same_but_pages_refl; done); [lia|].
  fold (reserved_page ppm info a).
  destruct (reserve_ok ppm (reserved_page ppm info a) Hb) as (ppm1 & -> & Hs1 & Hb1 & Hr1); [apply Hin; lia|].
  cbn. rewrite (u32_small (a + PMM_PAGE_SIZE)) by (unfold is_u32, PMM_PAGE_SIZE in *; lia).
  pose proof Hs1 as [t E].
  destruct (IH ppm1 (a + PMM_PAGE_SIZE)) as (ppm' & -> & Hs & Hb' & Hr'); subst ppm1; cbn in *;
    [done|done|done|unfold PMM_PAGE_SIZE in *; lia..|]. exists ppm'.
  split_and!; eauto using same_but_pages_trans. intros j. rewrite Hr', Hr1, (visited_step _ _ a) by done.
  change (visited (set_pages ppm t (diags ppm)) info (a + PMM_PAGE_SIZE) j)
    with (visited ppm info (a + PMM_PAGE_SIZE) j). tauto.
Qed.

(** All pages as busy blocks of order 0: the tiling before the pages are freed. *)
Definition boot_tiling (n : Z) : gmap Z (Z * bool) :=
  list_to_map ((fun i => (i, (0, false))) <$> seqZ 0 n).

Lemma boot_tiling_lookup n i k f : boot_tiling n !! i = Some (k, f) <->
  0 <= i < n /\ k = 0 /\ f = false.
Proof.
  unfold boot_tiling. rewrite <- elem_of_list_to_map.
  2:{ rewrite <- list_fmap_compose. apply NoDup_fmap; [by intros ? ? ?|apply NoDup_seqZ]. }
  rewrite list_elem_of_fmap. split.
  - intros (j & [= -> -> ->] & Hj). apply elem_of_seqZ in Hj. split_and!; [lia|lia|done|done].
  - intros (Hi & -> & ->). exists i. split; [done|]. apply elem_of_seqZ. lia.
Qed.

Lemma boot_tiling_ok n : tiling n (boot_tiling n) /\ coalesced (boot_tiling n).
Proof.
  split; [split|].
  - intros i k f H. apply boot_tiling_lookup in H as (? & -> & ->).
    split_and!; unfold PPM_LAST_ORDER, PPM_MAX_ORDER; try lia. apply Z.mod_1_r.
  - intros i j k m f g Hi Hj Hlt. apply boot_tiling_lookup in Hi as (? & -> & ->). lia.
  - intros p Hp. exists p, 0, false. split; [by apply boot_tiling_lookup|lia].
  - intros i k _ H. apply boot_tiling_lookup in H as (_ & _ & ?). done.
Qed.

(** One freed page of the loop: what remains to be freed is untouched. *)
Lemma freed_reserved ppm ppm1 bm bm1 i k j m : freed ppm ppm1 bm bm1 i k -> busy bm j m -> j <> i ->
  is_reserved ppm1 j <-> is_reserved ppm j.
Proof. intros (_ & _ & F3) Hj Hne. unfold is_reserved. rewrite F3 by eauto. done. Qed.

Lemma freed_env ppm ppm1 ppm' bm bm1 i k : freed ppm ppm1 bm bm1 i k ->
  same_env (set_free_nr ppm1 (free_pages_nr ppm')) ppm' ->
  same_env (set_free_nr ppm (free_pages_nr ppm')) ppm'.
Proof.
  intros (_ & F2 & _) He. unfold same_env in *. cbn in *. dand. repeat split; congruence.
Qed.

Lemma busy_in_range ppm bm L x e j m : ppm_inv ppm bm L x e -> busy bm j m -> 0 <= j < pages_nr ppm.
Proof.
  intros Hinv Hj. destruct (t_block _ _ (i_tiling _ _ _ _ _ Hinv) _ _ _ Hj) as (? & ? & ? & _).
  pose proof (pow2_pos m). lia.
Qed.

Definition boot_page (p : page_s) : Prop :=
  order p = 0 /\ (state p = PGINIT /\ count p = 0 \/ state p = PGRESERVED).

Lemma free_all_ok n ppm bm L i : ppm_inv ppm bm L None 0 -> 0 <= i -> Z.of_nat n = pages_nr ppm - i ->
  (forall j, i <= j < pages_nr ppm -> busy bm j 0) ->
  (forall j p, i <= j -> pages_tbl ppm !! j = Some p -> boot_page p) ->
  exists ppm' bm' L', free_all n ppm i = Some ppm' /\ ppm_inv ppm' bm' L' None 0 /\
    (forall j m, busy bm' j m <-> busy bm j m /\ (i <= j -> is_reserved ppm j)) /\
    same_env (set_free_nr ppm (free_pages_nr ppm')) ppm' /\
    same_pages (fun j => exists m, busy bm' j m) ppm ppm'.
Proof.
  revert ppm bm L i. induction n as [|n IH]; intros ppm bm L i Hinv Hi Hn Hb Hp; cbn [free_all].
  { exists ppm, bm, L. split_and!; [done|done| |by destruct ppm|done]. intros j m. split; [|tauto].
    intros Hj. split; [done|]. pose proof (busy_in_range _ _ _ _ _ _ _ Hinv Hj). lia. }
  pose proof (Hb i ltac:(lia)) as Hbi.
  destruct (pages_get _ _ _ _ i (i_pages _ _ _ _ _ Hinv)) as [p Hpi]; [lia|]. rewrite Hpi. cbn.
  destruct (Hp i p ltac:(lia) Hpi) as [Ho Hst]. unfold page_state_get.
  case_bool_decide as Hres; cbn.
  - destruct (IH ppm bm L (i + 1) Hinv) as (ppm' & bm' & L' & -> & Hinv' & Hb' & He & Hs);
      [lia|lia|intros; apply Hb; lia|intros; eapply Hp; eauto; lia|].
    exists ppm', bm', L'. split_and!; [done|done| |done|done]. intros j m. rewrite Hb'.
    split; intros [H1 H2]; (split; [done|]); intros Hj; [|apply H2; lia].
    destruct (Z.eq_dec i j) as [<-|]; [by exists p|apply H2; lia].
  - destruct Hst as [[Hst Hc]|]; [|done]. rewrite Ho.
    destruct (free_nolock_ok ppm bm L i 0 p Hinv Hbi Hpi) as (ppm1 & bm1 & L1 & -> & Hinv1 & Hf);
      [unfold releasable, state_in; by rewrite Hst|done|]. cbn.
    pose proof Hf as (F1 & F2 & F3). assert (En : pages_nr ppm1 = pages_nr ppm) by apply F2.
    destruct (IH ppm1 bm1 L1 (i + 1) Hinv1) as (ppm' & bm' & L' & -> & Hinv' & Hb' & He & Hs).
    { lia. } { lia. } { intros j Hj. apply F1. split; [apply Hb; lia|lia]. }
    { intros j q Hj Hq. assert (Hjn : 0 <= j < pages_nr ppm).
      { rewrite <- En. apply (p_dom _ _ _ _ (i_pages _ _ _ _ _ Hinv1)). eauto. }
      rewrite F3 in Hq by (split; [lia|exists 0; apply Hb; lia]). apply (Hp j); [lia|done]. }
    exists ppm', bm', L'. split_and!; [done|done| |by eapply freed_env|].
    + intros j m. rewrite Hb', F1. destruct (Z.eq_dec i j) as [<-|Hne].
      * split; [naive_solver|]. intros [_ Hr]. destruct (Hr ltac:(lia)) as (q & Hq & Hq'). congruence.
      * split; [intros [[H1 _] H2]|intros [H1 H2]].
        -- split; [done|]. intros Hj. apply (freed_reserved _ _ _ _ _ _ _ _ Hf H1); [lia|]. apply H2. lia.
        -- split; [split; [done|lia]|]. intros Hj.
           apply (freed_reserved _ _ _ _ _ _ _ _ Hf H1); [lia|]. apply H2. lia.
    + intros j [m Hm]. rewrite Hs by eauto. apply Hb' in Hm as [Hm _]. apply F1 in Hm as [Hm Hne].
      apply F3. eauto.
Qed.

(** The free lists at boot. *)
Lemma init_roots_dlists n l i m : dlists l m ->
  (forall r xs, m !! r = Some xs -> xs = [] /\ exists k, r = Root k /\ k < i) ->
  exists m', dlists (init_roots n l i) m' /\
    forall r, m' !! r = if bool_decide (r ∈ Root <$> seqZ i (Z.of_nat n)) then Some [] else m !! r.
Proof.
  revert l i m. induction n as [|n IH]; intros l i m Hd Hm; cbn [init_roots].
  { exists m. split; [done|]. intros r. case_bool_decide as E; [|done]. by apply elem_of_nil in E. }
  destruct (IH (list_root_init l (Root i)) (i + 1) (<[Root i := []]> m)) as (m' & Hd' & Hl').
  - apply list_root_init_dlists; [done|]. intros r xs Hr. apply Hm in Hr as [-> (k & -> & Hk)].
    rewrite list_elem_of_singleton. intros [= ->]. lia.
  - intros r xs Hr. rewrite lookup_insert in Hr. case_decide; simplify_eq; [eauto with lia|].
    apply Hm in Hr as [-> (k & -> & Hk)]. split; [done|]. exists k. split; [done|lia].
  - exists m'. split; [done|]. intros r. rewrite Hl', lookup_insert.
    rewrite (seqZ_cons i (Z.of_nat (S n))) by lia. cbn.
    replace (Z.pred (Z.of_nat (S n))) with (Z.of_nat n) by lia. rewrite <- Z.add_1_r.
    repeat case_bool_decide; repeat case_decide; set_solver.
Qed.

Lemma init_lists_ok : dlists (init_roots (Z.to_nat PPM_MAX_ORDER) ∅ 0) (lists_map (fun _ => [])).
Proof.
  destruct (init_roots_dlists (Z.to_nat PPM_MAX_ORDER) ∅ 0 ∅) as (m' & Hd & Hl).
  - split; intros *; rewrite lookup_empty; done.
  - intros r xs. rewrite lookup_empty. done.
  - replace (lists_map (fun _ => [])) with m'; [done|]. apply map_eq. intros r. rewrite Hl.
    apply option_eq. intros xs. rewrite lists_map_Some. case_bool_decide as E.
    + apply list_elem_of_fmap in E as (k & -> & Hk). apply elem_of_orders in Hk. naive_solver.
    + rewrite lookup_empty. split; [done|]. intros (k & Hk & -> & ->). destruct E.
      apply list_elem_of_fmap_2. by apply elem_of_orders.
Qed.
