(* ===== verification/PpmSpec.v ===== *)
(** * PpmSpec: boot of the page allocator, and the abstract allocator it implements

    [Spec] is the contract of [kernel/mm/ppm.h] seen by a client: a set of reserved pages
    and a set of owned blocks with their orders and reference counts.  The refinement
    theorem runs any client of [ppm_do_alloc_pages], [page_refcount_up] and
    [ppm_free_pages] that respects the contract on the code and on the contract in lockstep. *)

From S2P Require Import Prelude Bits ListH Page Ppm PpmInv PpmAlloc.

(** ** Boot *)

(** The manager as [ppm_init] fills it before it builds the page table. *)
Definition blank (begin limit vaddr_begin vaddr_start : Z) : ppm_s :=
  Ppm PPM_ID (Z.shiftr begin PMM_PAGE_SHIFT) vaddr_begin vaddr_start
    (replicate (Z.to_nat PPM_MAX_ORDER) 0) (init_roots (Z.to_nat PPM_MAX_ORDER) ∅ 0) ∅
    (Z.shiftr (limit -! begin) PMM_PAGE_SHIFT) 0 0 0 0 begin 0.

(** What the boot code guarantees: the cluster holds whole blocks of the last order, and
    what is reserved lies in it. *)
Record boot_ok (ppm : ppm_s) (info : boot_info_s) : Prop := {
  bo_mod : pages_nr ppm mod 2 ^ PPM_LAST_ORDER = 0;
  bo_nr : 0 <= pages_nr ppm < 2 ^ 31;
  bo_res : 0 <= reserved_pages_nr ppm <= pages_nr ppm;
  bo_range : reserved_in_range ppm info;
}.

(** The pages that the two reservation loops set aside. *)
Definition set_aside (ppm : ppm_s) (info : boot_info_s) (j : Z) : Prop :=
  0 <= j < reserved_pages_nr ppm \/ visited ppm info (reserved_start info) j.

Lemma free_total_nil : free_total (fun _ => []) = 0.
Proof. reflexivity. Qed.

Lemma boot_inv ppm pages : boot_pages (pages_nr ppm) pages -> pages_tbl ppm = pages ->
  pages_nr ppm mod 2 ^ PPM_LAST_ORDER = 0 -> 0 <= pages_nr ppm < 2 ^ 31 ->
  links ppm = init_roots (Z.to_nat PPM_MAX_ORDER) ∅ 0 ->
  free_pages_nr_tbl ppm = replicate (Z.to_nat PPM_MAX_ORDER) 0 -> free_pages_nr ppm = 0 ->
  ppm_inv ppm (boot_tiling (pages_nr ppm)) (fun _ => []) None 0.
Proof.
  intros [Hd Hb] <- Hmod Hn El Enr Ef. destruct (boot_tiling_ok (pages_nr ppm)) as [Ht Hc].
  split; [done|done|done| | |by rewrite Ef|done].
  - split; [exact Hd| | |done|].
    + intros i k f p Hi _ Hp. apply boot_tiling_lookup in Hi as (_ & -> & ->).
      apply Hb in Hp as [? [[E _]|E]]; rewrite E; done.
    + intros i k f j p Hi Hj. apply boot_tiling_lookup in Hi as (_ & -> & ->). lia.
    + intros i p Hp Hs. apply Hb in Hp as [_ [[E _]|E]]; congruence.
  - split; [rewrite El; apply init_lists_ok| | |by rewrite Enr].
    + intros i k _. rewrite elem_of_nil. split; [done|]. intros H.
      apply boot_tiling_lookup in H as (_ & _ & ?). done.
    + intros k Hk. rewrite Enr. unfold zget.
      rewrite lookup_replicate_2; [done|]. unfold PPM_LAST_ORDER, PPM_MAX_ORDER in *. lia.
Qed.

Lemma init_pages_not_reserved ppm cid d j :
  ~ is_reserved (set_pages ppm (init_pages_tbl (pages_nr ppm) cid) d) j.
Proof.
  intros (p & Hp & Hs). cbn in Hp. unfold init_pages_tbl in Hp.
  apply elem_of_list_to_map_2 in Hp. apply list_elem_of_fmap in Hp as (i & [= -> ->] & _). done.
Qed.

(** [ppm_init_finalize]: every page that is not set aside is free afterwards. *)
Lemma init_finalize_ok ppm info : boot_ok ppm info -> pages_tbl ppm = ∅ ->
  links ppm = init_roots (Z.to_nat PPM_MAX_ORDER) ∅ 0 ->
  free_pages_nr_tbl ppm = replicate (Z.to_nat PPM_MAX_ORDER) 0 -> free_pages_nr ppm = 0 ->
  exists ppm' bm L, ppm_init_finalize ppm info = Some ppm' /\ ppm_inv ppm' bm L None 0 /\
    (forall j m, busy bm j m <-> m = 0 /\ 0 <= j < pages_nr ppm /\ set_aside ppm info j) /\
    (forall j, set_aside ppm info j -> is_reserved ppm' j) /\
    same_env (set_free_nr ppm (free_pages_nr ppm')) ppm'.
Proof.
  intros [Hmod Hn Hres Hrange] _ El Enr Ef. unfold ppm_init_finalize, ppm_init_pages.
  set (ppm0 := set_pages ppm _ _).
  change (reserved_pages_nr ppm0) with (reserved_pages_nr ppm).
  destruct (reserve_pages_ok (Z.to_nat (reserved_pages_nr ppm)) ppm0 0)
    as (ppm1 & -> & [t1 E1] & Hb1 & Hr1); [apply init_pages_boot|lia|cbn; lia|].
  cbn [mbind option_bind].
  destruct (reserve_range_ok (Z.to_nat (reserved_end info - reserved_start info)) ppm1 info
    (reserved_start info)) as (ppm2 & -> & [t2 E2] & Hb2 & Hr2); [by subst ppm1|by subst ppm1|lia|lia|].
  cbn [mbind option_bind]. rewrite E1 in E2, Hb2. cbn in E2, Hb2.
  assert (Hn2 : pages_nr ppm2 = pages_nr ppm) by by subst ppm2.
  assert (Hsa : forall j, is_reserved ppm2 j <-> set_aside ppm info j).
  { intros j. rewrite Hr2, Hr1. unfold set_aside.
    replace (visited ppm1 info) with (visited ppm info) by by subst ppm1.
    pose proof (init_pages_not_reserved ppm (local_cluster_id info) (diags ppm) j).
    rewrite Z.add_0_l, Z2Nat.id by lia. tauto. }
  destruct (free_all_ok (Z.to_nat (pages_nr ppm2)) ppm2 (boot_tiling (pages_nr ppm2)) (fun _ => []) 0)
    as (ppm' & bm & L & -> & Hinv & Hbusy & He & Hs).
  { apply (boot_inv _ (pages_tbl ppm2)); subst ppm2; done. }
  { lia. } { lia. } { intros j Hj. by apply boot_tiling_lookup. }
  { intros j p _ Hp. apply (proj2 Hb2 j). done. }
  assert (Hbusy' : forall j m, busy bm j m <-> m = 0 /\ 0 <= j < pages_nr ppm /\ set_aside ppm info j).
  { intros j m. rewrite Hbusy. unfold busy. rewrite boot_tiling_lookup, Hsa, Hn2. intuition lia. }
  exists ppm', bm, L. split_and!; [done|done|done| |by subst ppm2].
  intros j Hj. apply Hsa in Hj as Hj'. destruct Hj' as (p & Hp & Hst). exists p. split; [|done].
  assert (Hjn : 0 <= j < pages_nr ppm) by (apply Hb2; eauto).
  rewrite Hs; [done|]. exists 0. by apply Hbusy'.
Qed.

(** The abstraction used below: block map and signature of a live manager. *)
Definition live (ppm : ppm_s) (bm : gmap Z (Z * bool)) : Prop :=
  signature ppm = PPM_ID /\ exists L, ppm_inv ppm bm L None 0.

Lemma ppm_inv_mins ppm bm L u k g : ppm_inv ppm bm L None 0 -> ppm_inv (set_mins ppm u k g) bm L None 0.
Proof. intros [Hn Ht Hc Hp Hl Htot Hf]. split; cbn; try done. by eapply lists_ok_ext. Qed.

Lemma ppm_init_ok begin limit vb vs info : boot_ok (blank begin limit vb vs) info ->
  exists ppm bm, ppm_init begin limit vb vs info = Some (0, ppm) /\ live ppm bm /\
    pages_nr ppm = Z.shiftr (limit -! begin) PMM_PAGE_SHIFT /\ diags ppm = 0 /\
    (forall j m, busy bm j m <->
       m = 0 /\ 0 <= j < pages_nr ppm /\ set_aside (blank begin limit vb vs) info j) /\
    (forall j, set_aside (blank begin limit vb vs) info j -> is_reserved ppm j).
Proof.
  intros Hok. unfold ppm_init. fold (blank begin limit vb vs).
  destruct (init_finalize_ok _ _ Hok) as (ppm & bm & L & -> & Hinv & Hb & Hr & He); [done..|].
  cbn [mbind option_bind]. eexists _, bm. split; [done|]. unfold same_env in He. cbn in He. dand.
  split_and!; [split; cbn; [done|eexists; by apply ppm_inv_mins]|done|done| |exact Hr].
  intros j m. rewrite Hb. cbn. replace (pages_nr ppm) with (Z.shiftr (limit -! begin) PMM_PAGE_SHIFT).
  done.
Qed.

(** ** The contract *)

Module Spec.
(** Owned blocks: first page -> (order, references); reserved pages are never owned. *)
Record state := State { owned : gmap Z (Z * Z); reserved : Z -> Prop }.

Inductive op := Alloc (order : Z) | Ref (block : Z) | Free (block : Z).

Definition range_disjoint (a n b m : Z) : Prop := a + n <= b \/ b + m <= a.

(** An aligned run of [2^o] pages of the [n] pages, neither owned nor reserved. *)
Definition available (n : Z) (s : state) (b o : Z) : Prop :=
  0 <= b /\ b + 2 ^ o <= n /\ b mod 2 ^ o = 0 /\
  (forall j m r, owned s !! j = Some (m, r) -> range_disjoint j (2 ^ m) b (2 ^ o)) /\
  (forall j, reserved s j -> range_disjoint j 1 b (2 ^ o)).

(** [step n op result s s'] *)
Inductive step (n : Z) : op -> option Z -> state -> state -> Prop :=
| step_alloc o b s : available n s b o ->
    step n (Alloc o) (Some b) s (State (<[b := (o, 1)]> (owned s)) (reserved s))
| step_null o s : (forall b, ~ available n s b o) -> step n (Alloc o) None s s
| step_ref b o r s : owned s !! b = Some (o, r) ->
    step n (Ref b) None s (State (<[b := (o, r + 1)]> (owned s)) (reserved s))
| step_unref b o r s : owned s !! b = Some (o, r) -> 1 < r ->
    step n (Free b) None s (State (<[b := (o, r - 1)]> (owned s)) (reserved s))
| step_free b o s : owned s !! b = Some (o, 1) ->
    step n (Free b) None s (State (delete b (owned s)) (reserved s)).

(** What a client may call: orders of the allocator, blocks it owns, and no more
    references than a counter holds. *)
Definition legal (s : state) (c : op) : Prop :=
  match c with
  | Alloc o => 0 <= o <= PPM_LAST_ORDER
  | Ref b => exists o r, owned s !! b = Some (o, r) /\ r + 1 < 2 ^ 31
  | Free b => is_Some (owned s !! b)
  end.

(** A client chooses its next call from the results of its previous ones. *)
Definition client := list (option Z) -> op.

(** [reach n cl s h s']: the contract allows results [h] for the first calls of [cl]. *)
Inductive reach (n : Z) (cl : client) (s : state) : list (option Z) -> state -> Prop :=
| reach_nil : reach n cl s [] s
| reach_snoc h s1 r s2 : reach n cl s h s1 -> step n (cl h) r s1 s2 -> reach n cl s (h ++ [r]) s2.

Definition legal_client (n : Z) (cl : client) (s : state) : Prop :=
  forall h s', reach n cl s h s' -> legal s' (cl h).
End Spec.

(** The code of each call. *)
Definition exec (ppm : ppm_s) (c : Spec.op) : option (option Z * ppm_s) :=
  match c with
  | Spec.Alloc o => ppm_do_alloc_pages ppm o 0
  | Spec.Ref b => '(_, ppm') ← tbl_refcount_up ppm b; Some (None, ppm')
  | Spec.Free b => ppm' ← ppm_free_pages ppm b; Some (None, ppm')
  end.

(** [k] calls of the client on the code, after the results [h]. *)
Fixpoint exec_client (k : nat) (ppm : ppm_s) (cl : Spec.client) (h : list (option Z))
    : option (list (option Z) * ppm_s) :=
  match k with
  | O => Some (h, ppm)
  | S k => '(r, ppm') ← exec ppm (cl h); exec_client k ppm' cl (h ++ [r])
  end.

(** ** Refinement *)

(** The busy blocks are the owned ones and the reserved pages; the descriptor of an owned
    block holds its reference count. *)
Record represents (bm : gmap Z (Z * bool)) (ppm : ppm_s) (s : Spec.state) : Prop := {
  r_live : live ppm bm;
  r_busy : forall j m, busy bm j m <->
    (exists r, Spec.owned s !! j = Some (m, r)) \/ (m = 0 /\ Spec.reserved s j);
  r_sep : forall j, Spec.reserved s j -> Spec.owned s !! j = None;
  r_desc : forall j m r, Spec.owned s !! j = Some (m, r) -> 1 <= r < 2 ^ 31 /\
    exists p, pages_tbl ppm !! j = Some p /\ releasable p /\ count p = r;
}.

Definition refines (ppm : ppm_s) (s : Spec.state) : Prop := exists bm, represents bm ppm s.

Lemma free_run_available bm ppm s b o : represents bm ppm s -> 0 <= o ->
  free_run bm (pages_nr ppm) b o <-> Spec.available (pages_nr ppm) s b o.
Proof.
  intros [_ Hb _ _] Ho. unfold free_run, Spec.available, Spec.range_disjoint. split.
  - intros (H0 & Hal & Hn & Hd). split_and!; [done|done|done| |].
    + intros j m r Hj. apply Hd. apply Hb. eauto.
    + intros j Hj. apply (Hd j 0). apply Hb. eauto.
  - intros (H0 & Hn & Hal & Hd & Hr). split_and!; [done|done|done|]. intros j m Hj.
    apply Hb in Hj as [[r Hj]|[-> Hj]]; [by eapply Hd|by apply Hr].
Qed.

(** A busy block is disjoint from the others. *)
Lemma busy_free_run n bm bm' b o : tiling n bm' -> busy bm' b o -> (forall m, ~ busy bm b m) ->
  (forall j m, j <> b -> busy bm' j m <-> busy bm j m) -> free_run bm n b o.
Proof.
  intros Ht Hb Hnb Hsame. destruct (t_block _ _ Ht _ _ _ Hb) as (Ho & H0 & Hn & Hal).
  split_and!; [done|done|done|]. intros j m Hj.
  assert (j <> b) as Hne by (intros ->; by eapply Hnb). apply Hsame in Hj; [|done].
  destruct (Z.lt_trichotomy j b) as [Hlt|[->|Hgt]]; [|done|].
  - left. by eapply (t_disj _ _ Ht j b).
  - right. by eapply (t_disj _ _ Ht b j).
Qed.

Lemma alloc_refines ppm s o : refines ppm s -> 0 <= o <= PPM_LAST_ORDER ->
  exists r ppm' s', exec ppm (Spec.Alloc o) = Some (r, ppm') /\ refines ppm' s' /\
    pages_nr ppm' = pages_nr ppm /\ Spec.step (pages_nr ppm) (Spec.Alloc o) r s s'.
Proof.
  intros [bm Hrep] Ho. pose proof Hrep as [(Hsig & L & Hinv) Hb Hsep Hd]. cbn [exec].
  destruct (do_alloc_ok ppm bm L o 0 Hinv Hsig Ho)
    as [[-> He]|(b & ppm' & bm' & L' & -> & Hinv' & (A1 & A2 & A3 & A4 & A5 & A6))].
  { exists None, ppm, s. split_and!; [done|by exists bm|done|]. apply Spec.step_null. intros b Ha.
    apply (free_run_available bm) in Ha; [|done|lia]. by eapply alloc_fails_no_run. }
  assert (Hfr : free_run bm (pages_nr ppm) b o).
  { destruct A4 as (_ & _ & _ & _ & En & _). cbn in En. rewrite <- En.
    eapply busy_free_run; eauto. apply (i_tiling _ _ _ _ _ Hinv'). }
  assert (Hown : Spec.owned s !! b = None).
  { destruct (Spec.owned s !! b) as [[m r]|] eqn:E; [|done]. destruct (A2 m). apply Hb. eauto. }
  eexists _, ppm', _. split; [done|]. split; [|split; [apply A4|apply Spec.step_alloc; eapply free_run_available; [done|lia|done]]].
  exists bm'. split; cbn.
  - split; [destruct A4 as [-> _]; done|eauto].
  - intros j m. destruct (decide (j = b)) as [->|Hne].
    + rewrite lookup_insert_eq. split; intros Hj.
      * left. exists 1. unfold busy in *. congruence.
      * destruct Hj as [[r Hj]|[-> Hj]]; [congruence|]. destruct (A2 0). apply Hb. by right.
    + rewrite lookup_insert_ne by done. by rewrite A3.
  - intros j Hj. rewrite lookup_insert_ne; [by apply Hsep|]. intros <-. apply (A2 0). apply Hb. by right.
  - intros j m r Hj. destruct (decide (j = b)) as [->|Hne].
    + rewrite lookup_insert_eq in Hj. simplify_eq. split; [lia|]. destruct A6 as (q & Hq & Hst & _ & Hc).
      exists q. split_and!; [done|unfold releasable, state_in; by rewrite Hst|done].
    + rewrite lookup_insert_ne in Hj by done. destruct (Hd _ _ _ Hj) as [Hr (p & Hp & Hq)].
      split; [done|]. exists p. split; [|done]. rewrite A5; [done|]. exists m. apply Hb. eauto.
Qed.

(** A change of the reference count of an owned block. *)
Lemma recount_refines ppm s b o r r' p : refines ppm s -> Spec.owned s !! b = Some (o, r) ->
  pages_tbl ppm !! b = Some p -> 1 <= r' < 2 ^ 31 ->
  refines (set_pages ppm (<[b := set_count p r']> (pages_tbl ppm)) (diags ppm))
    (Spec.State (<[b := (o, r')]> (Spec.owned s)) (Spec.reserved s)).
Proof.
  intros [bm [(Hsig & L & Hinv) Hb Hsep Hd]] Hown Hp Hr'. exists bm.
  assert (Hbo : busy bm b o) by (apply Hb; eauto).
  destruct (Hd _ _ _ Hown) as (_ & p' & Hp' & Hrel & Hc). simplify_eq. split; cbn.
  - split; [done|]. exists L. eapply inv_update_busy; eauto. apply (releasable_not_free _ Hrel).
  - intros j m. rewrite Hb. destruct (decide (j = b)) as [->|].
    + rewrite lookup_insert_eq, Hown. naive_solver.
    + by rewrite lookup_insert_ne.
  - intros j Hj. rewrite lookup_insert_ne; [by apply Hsep|]. intros <-. rewrite Hsep in Hown; done.
  - intros j m r Hj. destruct (decide (j = b)) as [->|].
    + rewrite lookup_insert_eq in Hj. simplify_eq. split; [done|]. rewrite lookup_insert_eq. eauto.
    + rewrite lookup_insert_ne in Hj by done. rewrite lookup_insert_ne by done. eauto.
Qed.

Lemma ref_refines ppm s b : refines ppm s -> Spec.legal s (Spec.Ref b) ->
  exists r ppm' s', exec ppm (Spec.Ref b) = Some (r, ppm') /\ refines ppm' s' /\
    pages_nr ppm' = pages_nr ppm /\ Spec.step (pages_nr ppm) (Spec.Ref b) r s s'.
Proof.
  intros Href (o & r & Hown & Hr). pose proof Href as [bm [_ _ _ Hd]].
  destruct (Hd _ _ _ Hown) as (Hr1 & p & Hp & _ & Hc). cbn [exec]. unfold tbl_refcount_up.
  rewrite Hp. cbn. rewrite Hc, u32_small by (unfold is_u32; lia).
  eexists _, _, _. split; [done|]. split; [|split; [done|by eapply Spec.step_ref]].
  eapply recount_refines; eauto. lia.
Qed.

Lemma free_refines ppm s b : refines ppm s -> Spec.legal s (Spec.Free b) ->
  exists r ppm' s', exec ppm (Spec.Free b) = Some (r, ppm') /\ refines ppm' s' /\
    pages_nr ppm' = pages_nr ppm /\ Spec.step (pages_nr ppm) (Spec.Free b) r s s'.
Proof.
  intros Href [[o r] Hown]. pose proof Href as [bm [(Hsig & L & Hinv) Hb Hsep Hd]].
  destruct (Hd _ _ _ Hown) as (Hr & p & Hp & Hrel & Hc). cbn [exec].
  destruct (Z.eq_dec r 1) as [->|Hne].
  - destruct (free_pages_last ppm bm L b o p Hinv) as (ppm' & bm' & L' & -> & Hinv' & F1 & F2 & F3);
      [apply Hb; eauto|done..|].
    eexists _, ppm', _. split; [done|]. split; [|split; [apply F2|by eapply Spec.step_free]].
    exists bm'. split; cbn.
    + split; [destruct F2 as [-> _]; done|eauto].
    + intros j m. rewrite F1, Hb. destruct (decide (b = j)) as [<-|].
      * rewrite lookup_delete_eq. split; [naive_solver|]. intros [[? ?]|[_ Hj]]; [done|].
        rewrite Hsep in Hown; done.
      * rewrite lookup_delete_ne by done. naive_solver.
    + intros j Hj. rewrite lookup_delete. case_decide; [done|]. by apply Hsep.
    + intros j m r Hj. rewrite lookup_delete in Hj. case_decide; [done|].
      destruct (Hd _ _ _ Hj) as [Hr' Hq]. split; [done|]. rewrite F3; [done|]. split; [done|].
      exists m. apply Hb. eauto.
  - rewrite (free_pages_shared ppm b p Hp) by lia. cbn.
    rewrite Hc, u32_small by (unfold is_u32; lia).
    eexists _, _, _. split; [done|]. split; [|split; [done|eapply Spec.step_unref; [done|lia]]].
    eapply recount_refines; eauto. lia.
Qed.

Lemma exec_refines ppm s c : refines ppm s -> Spec.legal s c ->
  exists r ppm' s', exec ppm c = Some (r, ppm') /\ refines ppm' s' /\
    pages_nr ppm' = pages_nr ppm /\ Spec.step (pages_nr ppm) c r s s'.
Proof.
  destruct c; intros Hr Hl; [by apply alloc_refines|by apply ref_refines|by apply free_refines].
Qed.

Lemma exec_client_refines k cl s0 ppm h s : Spec.legal_client (pages_nr ppm) cl s0 ->
  Spec.reach (pages_nr ppm) cl s0 h s -> refines ppm s ->
  exists h' ppm' s', exec_client k ppm cl h = Some (h', ppm') /\ length h' = (length h + k)%nat /\
    refines ppm' s' /\ Spec.reach (pages_nr ppm) cl s0 h' s'.
Proof.
  revert ppm h s. induction k as [|k IH]; intros ppm h s Hl Hreach Hr; cbn [exec_client].
  { exists h, ppm, s. rewrite Nat.add_0_r. done. }
  destruct (exec_refines _ _ (cl h) Hr (Hl _ _ Hreach)) as (r & ppm1 & s1 & -> & Hr1 & En & Hs).
  cbn. destruct (IH ppm1 (h ++ [r]) s1) as (h' & ppm' & s' & -> & Hlen & Hr' & Hreach');
    rewrite ?En; [done|by econstructor|done|].
  exists h', ppm', s'. rewrite En in Hreach'. rewrite length_app in Hlen. cbn in Hlen.
  split_and!; [done|lia|done|done].
Qed.

(** The state of the contract at boot. *)
Definition boot_state (ppm : ppm_s) (info : boot_info_s) : Spec.state :=
  Spec.State ∅ (fun j => 0 <= j < pages_nr ppm /\ set_aside ppm info j).

Lemma boot_refines begin limit vb vs info : boot_ok (blank begin limit vb vs) info ->
  exists ppm, ppm_init begin limit vb vs info = Some (0, ppm) /\
    pages_nr ppm = pages_nr (blank begin limit vb vs) /\
    refines ppm (boot_state (blank begin limit vb vs) info).
Proof.
  intros Hok. destruct (ppm_init_ok _ _ _ _ _ Hok) as (ppm & bm & E & Hl & En & _ & Hb & _).
  exists ppm. split_and!; [done|done|]. exists bm. split; cbn; [done| |done|].
  - intros j m. rewrite Hb, En. setoid_rewrite lookup_empty. cbn. naive_solver.
  - intros j m r. by rewrite lookup_empty.
Qed.

(** ** A boot configuration: a cluster of 2 MB whose first three pages are reserved *)

Definition small_info : boot_info_s := BootInfo 0 0 0 0x3000.

Lemma small_boot_ok : boot_ok (blank 0 0x200000 0 0) small_info.
Proof.
  split; [reflexivity|by vm_compute|by vm_compute|].
  split; [done|]. split; [done|]. intros a Ha. change (0 <= a < 0x3000) in Ha.
  change (0 <= u32 (Z.shiftr a 12 - 0) < 512). rewrite Z.shiftr_div_pow2 by lia.
  change (2 ^ 12) with 0x1000.
  pose proof (Z.div_lt_upper_bound a 0x1000 3 ltac:(lia) ltac:(lia)).
  pose proof (Z.div_pos a 0x1000 ltac:(lia) ltac:(lia)).
  rewrite u32_small by (unfold is_u32; lia). lia.
Qed.

(** A client that takes a block of eight pages, shares it, and releases it twice. *)
Definition small_client : Spec.client := fun h =>
  match h with
  | [] => Spec.Alloc 3
  | [Some b] => Spec.Ref b
  | [Some b; _] | [Some b; _; _] => Spec.Free b
  | _ => Spec.Alloc 0
  end.

Lemma reach_nil_inv n cl s s2 : Spec.reach n cl s [] s2 -> s2 = s.
Proof. intros H. inversion H as [|h s1 r s3 Hr Hs E]; [done|]. by destruct h. Qed.

Lemma reach_snoc_inv n cl s h r s2 : Spec.reach n cl s (h ++ [r]) s2 ->
  exists s1, Spec.reach n cl s h s1 /\ Spec.step n (cl h) r s1 s2.
Proof.
  intros H. inversion H as [E|h' s1 r' s3 Hr Hs E]; [by destruct h|].
  apply app_inj_2 in E as [-> [= ->]]; [eauto|done].
Qed.

Ltac client_step H :=
  apply (reach_snoc_inv _ _ _ _) in H as (? & H & ?);
  match goal with S : Spec.step _ _ _ _ _ |- _ => cbn in S; inversion S; subst; clear S end.

Lemma small_client_legal n s : Spec.owned s = ∅ -> Spec.legal_client n small_client s.
Proof.
  intros Hs h s' H.
  destruct h as [|[b|] [|x [|y [|z h]]]]; cbn; try (split; done).
  - change [Some b] with ([] ++ [Some b]) in H. client_step H.
    exists 3, 1. cbn. rewrite lookup_insert_eq. done.
  - change [Some b; x] with ([Some b] ++ [x]) in H. client_step H.
    cbn. rewrite lookup_insert_eq. done.
  - change [Some b; x; y] with ([Some b; x] ++ [y]) in H. client_step H.
    + cbn. rewrite lookup_insert_eq. done.
    + change [Some b; x] with ([Some b] ++ [x]) in H. client_step H.
      change [Some b] with ([] ++ [Some b]) in H. client_step H. cbn in *.
      rewrite !lookup_insert_eq in *. simplify_eq.
Qed.

(** The allocator booted on it. *)
Definition small_ppm : ppm_s :=
  match ppm_init 0 0x200000 0 0 small_info with Some (_, ppm) => ppm | None => blank 0 0x200000 0 0 end.

Lemma small_ppm_live : exists bm, live small_ppm bm.
Proof.
  destruct (ppm_init_ok 0 0x200000 0 0 small_info small_boot_ok) as (ppm & bm & E & Hl & _).
  exists bm. unfold small_ppm. rewrite E. exact Hl.
Qed.

Lemma small_alloc : exists ppm1, ppm_do_alloc_pages small_ppm 3 0 = Some (Some 8, ppm1).
Proof.
  assert (H : (match ppm_do_alloc_pages small_ppm 3 0 with
    | Some (Some b, _) => b =? 8 | _ => false end) = true) by (vm_compute; reflexivity).
  destruct (ppm_do_alloc_pages small_ppm 3 0) as [[[b|] ppm1]|]; [|discriminate H..].
  apply Z.eqb_eq in H as ->. exists ppm1. reflexivity.
Qed.

Lemma order3 : 0 <= 3 <= PPM_LAST_ORDER.
Proof. vm_compute. split; discriminate. Qed.

Lemma small_free_count : free_pages_nr small_ppm = 505.
Proof. vm_compute. reflexivity. Qed.

#[local] Opaque small_ppm.

Lemma alloc_some_ok ppm bm o b ppm1 : live ppm bm -> 0 <= o <= PPM_LAST_ORDER ->
  ppm_do_alloc_pages ppm o 0 = Some (Some b, ppm1) ->
  exists bm1 L1 q, ppm_inv ppm1 bm1 L1 None 0 /\ signature ppm1 = PPM_ID /\ busy bm1 b o /\
    pages_tbl ppm1 !! b = Some q /\ state q = PGINVALID /\ count q = 1.
Proof.
  intros (Hs & L & Hi) Ho E.
  destruct (do_alloc_ok ppm bm L o 0 Hi Hs Ho) as [[E' _]|(b' & ppm' & bm1 & L1 & E' & Hi1 & Ha)];
    rewrite E in E'; [discriminate E'|injection E' as <- <-].
  destruct Ha as (A1 & _ & _ & A4 & _ & q & Hq & Hst & _ & Hc).
  exists bm1, L1, q. destruct A4 as [-> _]. done.
Qed.

(** ** Properties *)

(** C1: Booted on a well-formed cluster, the page allocator implements its contract for
    every client that respects it: [ppm_init] succeeds, and any number [k] of calls of
    [ppm_do_alloc_pages], [page_refcount_up] and [ppm_free_pages], each chosen from the
    results of the previous ones, return (no access outside the page table, every loop
    ends) with results that the contract allows - a fresh aligned block disjoint from all
    owned and reserved pages, or NULL only when no such block exists - and leave the
    allocator in a state that represents the contract's. *)
Theorem ppm_implements_contract begin limit vb vs info cl k :
  boot_ok (blank begin limit vb vs) info ->
  Spec.legal_client (pages_nr (blank begin limit vb vs)) cl (boot_state (blank begin limit vb vs) info) ->
  exists ppm0 h ppm s, ppm_init begin limit vb vs info = Some (0, ppm0) /\
    exec_client k ppm0 cl [] = Some (h, ppm) /\ length h = k /\ refines ppm s /\
    Spec.reach (pages_nr ppm0) cl (boot_state (blank begin limit vb vs) info) h s.
Proof.
  intros Hok Hl. destruct (boot_refines _ _ _ _ _ Hok) as (ppm0 & E & En & Hr). rewrite <- En in Hl.
  destruct (exec_client_refines k cl _ ppm0 [] _ Hl (Spec.reach_nil _ _ _) Hr)
    as (h & ppm & s & E' & Hlen & Hr' & Hreach).
  exists ppm0, h, ppm, s. done.
Qed.

Lemma ppm_implements_contract_witness :
  exists ppm0 h ppm s, ppm_init 0 0x200000 0 0 small_info = Some (0, ppm0) /\
    exec_client 4 ppm0 small_client [] = Some (h, ppm) /\ length h = 4%nat /\ refines ppm s /\
    Spec.reach (pages_nr ppm0) small_client (boot_state (blank 0 0x200000 0 0) small_info) h s.
Proof.
  apply (ppm_implements_contract 0 0x200000 0 0 small_info small_client 4).
  - apply small_boot_ok.
  - apply small_client_legal. reflexivity.
Defined.

(** Boot. [ppm_init] returns 0 without a diagnostic; afterwards the invariant of the
    allocator holds, the busy blocks are exactly the pages set aside by the two reservation
    loops, each of order 0 and in state [PGRESERVED], and every other page is free. *)
Theorem ppm_init_correct begin limit vb vs info : boot_ok (blank begin limit vb vs) info ->
  exists ppm bm, ppm_init begin limit vb vs info = Some (0, ppm) /\ live ppm bm /\
    pages_nr ppm = Z.shiftr (limit -! begin) PMM_PAGE_SHIFT /\ diags ppm = 0 /\
    (forall j m, busy bm j m <->
       m = 0 /\ 0 <= j < pages_nr ppm /\ set_aside (blank begin limit vb vs) info j) /\
    (forall j, set_aside (blank begin limit vb vs) info j -> is_reserved ppm j) /\
    (forall p, 0 <= p < pages_nr ppm -> ~ set_aside (blank begin limit vb vs) info p ->
       exists j m, bm !! j = Some (m, true) /\ j <= p < j + 2 ^ m).
Proof.
  intros Hok. destruct (ppm_init_ok _ _ _ _ _ Hok) as (ppm & bm & E & Hl & En & Hd & Hb & Hr).
  exists ppm, bm. split_and!; [done..|]. intros p Hp Hn. destruct Hl as (_ & L & Hinv).
  destruct (t_cover _ _ (i_tiling _ _ _ _ _ Hinv) p Hp) as (j & m & [] & Hj & Hin); [eauto|].
  apply Hb in Hj as Hj'. destruct Hj' as (-> & _ & Hsa). destruct Hn. by assert (p = j) as -> by lia.
Qed.

Lemma ppm_init_correct_witness : exists ppm bm,
  ppm_init 0 0x200000 0 0 small_info = Some (0, ppm) /\ live ppm bm /\ diags ppm = 0 /\
  pages_nr ppm = 512 /\ is_reserved ppm 2.
Proof.
  destruct (ppm_init_correct 0 0x200000 0 0 small_info small_boot_ok)
    as (ppm & bm & E & Hl & En & Hd & _ & Hr & _).
  exists ppm, bm. split_and!; [exact E|exact Hl|exact Hd|exact En|].
  apply Hr. right. exists 2. split; [lia|]. split; reflexivity.
Defined.

(** C32: Completeness of allocation. On a live allocator [ppm_do_alloc_pages] always
    returns, it returns NULL exactly when no aligned run of [2^order] pages is free (and
    then changes nothing), and otherwise it returns the first page of such a run, which
    becomes a busy block of that order with one reference, all other busy blocks and their
    descriptors being untouched. *)
Theorem ppm_alloc_complete ppm bm o flags : live ppm bm -> 0 <= o <= PPM_LAST_ORDER ->
  exists r ppm', ppm_do_alloc_pages ppm o flags = Some (r, ppm') /\
    match r with
    | None => ppm' = ppm /\ forall b, ~ free_run bm (pages_nr ppm) b o
    | Some b => free_run bm (pages_nr ppm) b o /\
        exists bm', live ppm' bm' /\ allocated ppm ppm' bm bm' b o
    end.
Proof.
  intros (Hsig & L & Hinv) Ho. destruct (do_alloc_ok ppm bm L o flags Hinv Hsig Ho)
    as [[E He]|(b & ppm' & bm' & L' & E & Hinv' & Ha)].
  - exists None, ppm. split_and!; [done|done|]. intros b. by eapply alloc_fails_no_run.
  - exists (Some b), ppm'. pose proof Ha as (A1 & A2 & A3 & A4 & _). split; [done|]. split.
    + destruct A4 as (_ & _ & _ & _ & En & _). cbn in En. rewrite <- En.
      eapply busy_free_run; eauto. apply (i_tiling _ _ _ _ _ Hinv').
    + exists bm'. split; [|done]. split; [destruct A4 as [-> _]; done|eauto].
Qed.

Lemma ppm_alloc_complete_witness : exists ppm bm r ppm', live ppm bm /\
  ppm_do_alloc_pages ppm 4 0 = Some (r, ppm') /\ (r = None -> ppm' = ppm).
Proof.
  destruct (ppm_init_ok 0 0x200000 0 0 small_info small_boot_ok) as (ppm & bm & _ & Hl & _).
  destruct (ppm_alloc_complete ppm bm 4 0 Hl) as (r & ppm' & E & H); [by vm_compute|].
  exists ppm, bm, r, ppm'. split_and!; [exact Hl|exact E|]. intros ->. apply H.
Defined.

(** Allocation and release are inverse. Releasing a block just allocated merges the
    free halves back and restores the map of blocks, the count of free pages and the
    number of diagnostics. *)
Theorem ppm_alloc_free_roundtrip ppm bm o flags b ppm1 : live ppm bm -> 0 <= o <= PPM_LAST_ORDER ->
  ppm_do_alloc_pages ppm o flags = Some (Some b, ppm1) ->
  exists ppm2, ppm_free_pages ppm1 b = Some ppm2 /\ live ppm2 bm /\
    free_pages_nr ppm2 = free_pages_nr ppm /\ diags ppm2 = diags ppm.
Proof.
  intros (Hsig & L & Hinv) Ho E. destruct (do_alloc_ok ppm bm L o flags Hinv Hsig Ho)
    as [[E' He]|(b' & ppm' & bm' & L' & E' & Hinv' & (A1 & A2 & A3 & A4 & A5 & q & Hq & Hst & Hord & Hc))];
    rewrite E in E'; [done|]. injection E' as <- <-.
  destruct (free_pages_last ppm1 bm' L' b o q Hinv') as (ppm2 & bm2 & L2 & -> & Hinv2 & F1 & F2 & F3);
    [done|done|unfold releasable, state_in; by rewrite Hst|done|].
  unfold same_env in *. cbn in A4, F2. dand.
  assert (bm2 = bm) as ->.
  { destruct Hinv as [[Hn Hmod] Ht Hcl _ _ _ _]. destruct Hinv2 as [_ Ht2 Hcl2 _ _ _ _].
    replace (pages_nr ppm2) with (pages_nr ppm) in Ht2 by congruence.
    apply (coalesced_unique (pages_nr ppm)); try done. intros i m. rewrite F1.
    destruct (decide (i = b)) as [->|]; [|rewrite A3 by done; tauto].
    split; [tauto|]. intros Hi. by apply A2 in Hi. }
  exists ppm2. split_and!; [done|split; [congruence|eauto]| |congruence].
  replace (free_pages_nr ppm2) with (u32 (free_pages_nr ppm1 + 2 ^ o)) by congruence.
  replace (free_pages_nr ppm1) with (u32 (free_pages_nr ppm - 2 ^ o)) by congruence.
  rewrite u32_add_l, Z.sub_add, (i_total _ _ _ _ _ Hinv). apply u32_small, u32_bound.
Qed.

Lemma ppm_alloc_free_roundtrip_witness : exists bm ppm1 ppm2, live small_ppm bm /\
  ppm_do_alloc_pages small_ppm 3 0 = Some (Some 8, ppm1) /\
  ppm_free_pages ppm1 8 = Some ppm2 /\ live ppm2 bm.
Proof.
  destruct small_ppm_live as [bm Hl]. destruct small_alloc as [ppm1 E].
  destruct (ppm_alloc_free_roundtrip small_ppm bm 3 0 8 ppm1 Hl) as (ppm2 & E2 & Hl2 & _);
    [exact order3|exact E|].
  exists bm, ppm1, ppm2. split_and!; [exact Hl|exact E|exact E2|exact Hl2].
Defined.

(** The counter of free pages is exact: it is the number of pages that belong to free
    blocks, without duplicates, and never exceeds the number of pages of the cluster. *)
Theorem ppm_free_count_exact ppm bm : live ppm bm ->
  exists l, NoDup l /\ (forall p, p ∈ l <-> exists j m, bm !! j = Some (m, true) /\ j <= p < j + 2 ^ m) /\
    free_pages_nr ppm = zlen l /\ free_pages_nr ppm <= pages_nr ppm.
Proof. intros (_ & L & Hinv). by eapply free_pages_nr_exact. Qed.

Lemma ppm_free_count_exact_witness : exists bm (l : list Z), live small_ppm bm /\ NoDup l /\
  free_pages_nr small_ppm = zlen l /\ zlen l = 505.
Proof.
  destruct small_ppm_live as [bm Hl].
  destruct (ppm_free_count_exact small_ppm bm Hl) as (l & Hnd & _ & E & _).
  exists bm, l. split_and!; [exact Hl|exact Hnd|exact E|rewrite <- E; apply small_free_count].
Defined.

(** Release of the last reference. The call returns, exactly that block leaves the set
    of busy blocks, the counter grows by its size, no diagnostic is printed, and free
    memory is fully coalesced again: no two free buddies of a mergeable order remain. *)
Theorem ppm_free_coalesces ppm bm b o p : live ppm bm -> busy bm b o ->
  pages_tbl ppm !! b = Some p -> releasable p -> count p = 1 ->
  exists ppm' bm', ppm_free_pages ppm b = Some ppm' /\ live ppm' bm' /\ freed ppm ppm' bm bm' b o /\
    forall i k, k < PPM_LAST_ORDER -> bm' !! i = Some (k, true) -> bm' !! buddy i k <> Some (k, true).
Proof.
  intros (Hsig & L & Hinv) Hb Hp Hrel Hc.
  destruct (free_pages_last ppm bm L b o p Hinv Hb Hp Hrel Hc) as (ppm' & bm' & L' & E & Hinv' & Hf).
  exists ppm', bm'. split_and!; [done| |done|apply (i_coalesced _ _ _ _ _ Hinv')].
  pose proof Hf as (_ & F & _). split; [|eauto]. destruct F as [-> _]. done.
Qed.

Lemma ppm_free_coalesces_witness : exists bm ppm1 bm1 ppm2 bm2, live small_ppm bm /\
  ppm_do_alloc_pages small_ppm 3 0 = Some (Some 8, ppm1) /\
  ppm_free_pages ppm1 8 = Some ppm2 /\ freed ppm1 ppm2 bm1 bm2 8 3.
Proof.
  destruct small_ppm_live as [bm Hl]. destruct small_alloc as [ppm1 E].
  destruct (alloc_some_ok small_ppm bm 3 8 ppm1 Hl order3 E)
    as (bm1 & L1 & q & Hi1 & Hs1 & Hb & Hq & Hst & Hc).
  destruct (ppm_free_coalesces ppm1 bm1 8 3 q) as (ppm2 & bm2 & E2 & _ & Hf & _);
    [split; [exact Hs1|exists L1; exact Hi1]|exact Hb|exact Hq
    |unfold releasable, state_in; rewrite Hst; reflexivity|exact Hc|].
  exists bm, ppm1, bm1, ppm2, bm2. split_and!; [exact Hl|exact E|exact E2|exact Hf].
Defined.

(** Shared blocks. While a block has several references, [ppm_free_pages] only drops
    one of them: no other field of the manager changes and the block stays busy. *)
Theorem ppm_free_shared ppm bm b o p : live ppm bm -> busy bm b o -> pages_tbl ppm !! b = Some p ->
  state p <> PGFREE -> 1 < count p < 2 ^ 32 ->
  exists ppm', ppm_free_pages ppm b = Some ppm' /\ live ppm' bm /\
    ppm' = set_pages ppm (<[b := set_count p (count p - 1)]> (pages_tbl ppm)) (diags ppm).
Proof.
  intros (Hsig & L & Hinv) Hb Hp Hs Hc. rewrite (free_pages_shared ppm b p Hp) by lia.
  rewrite u32_small by (unfold is_u32; lia). eexists. split; [done|]. split; [|done].
  split; [done|]. exists L. by eapply inv_update_busy.
Qed.

Lemma ppm_free_shared_witness : exists ppm bm p ppm', live ppm bm /\ pages_tbl ppm !! 8 = Some p /\
  count p = 2 /\ ppm_free_pages ppm 8 = Some ppm'.
Proof.
  destruct small_ppm_live as [bm Hl]. destruct small_alloc as [ppm1 E].
  destruct (alloc_some_ok small_ppm bm 3 8 ppm1 Hl order3 E)
    as (bm1 & L1 & q & Hi1 & Hs1 & Hb & Hq & Hst & _).
  pose proof (inv_update_busy ppm1 bm1 L1 8 3 q (set_count q 2) Hi1 Hb Hq eq_refl) as Hi2.
  cbn [state set_count] in Hi2. rewrite Hst in Hi2. specialize (Hi2 ltac:(discriminate)).
  set (ppm2 := set_pages ppm1 _ _) in Hi2.
  assert (Hq2 : pages_tbl ppm2 !! 8 = Some (set_count q 2)) by apply lookup_insert_eq.
  assert (Hl2 : live ppm2 bm1) by (split; [exact Hs1|exists L1; exact Hi2]).
  destruct (ppm_free_shared ppm2 bm1 8 3 (set_count q 2) Hl2 Hb Hq2) as (ppm3 & E3 & _);
    [cbn; rewrite Hst; discriminate|cbn; lia|].
  exists ppm2, bm1, (set_count q 2), ppm3. split_and!; [exact Hl2|exact Hq2|reflexivity|exact E3].
Defined.

(** Address conversions. For a page of the table whose address does not wrap around,
    index, virtual address and physical page number determine each other, and the virtual
    address computed from the number is that of the page. *)
Theorem ppm_address_roundtrip ppm page : 0 <= page -> 0 <= vaddr_begin ppm -> 0 <= ppn_start ppm ->
  page * PMM_PAGE_SIZE + vaddr_begin ppm < 2 ^ 32 -> page + ppn_start ppm < 2 ^ 32 ->
  ppm_addr2page ppm (ppm_page2addr ppm page) = page /\
  ppm_ppn2page ppm (ppm_page2ppn ppm page) = page /\
  ppm_ppn2vma ppm (ppm_page2ppn ppm page) = ppm_page2addr ppm page /\
  ppm_vma2ppn ppm (ppm_page2addr ppm page) = ppm_page2ppn ppm page.
Proof.
  intros Hp Hv Hs Ha Hn. unfold PMM_PAGE_SIZE in Ha.
  assert (E : ppm_page2addr ppm page = page * 0x1000 + vaddr_begin ppm).
  { unfold ppm_page2addr, PMM_PAGE_SIZE. rewrite !u32_small; unfold is_u32; rewrite ?u32_small;
      unfold is_u32; lia. }
  assert (E2 : ppm_page2ppn ppm page = page + ppn_start ppm).
  { apply u32_small. unfold is_u32. lia. }
  assert (Esh : Z.shiftr (page * 0x1000) PMM_PAGE_SHIFT = page).
  { unfold PMM_PAGE_SHIFT. rewrite Z.shiftr_div_pow2 by lia. apply Z.div_mul. lia. }
  unfold ppm_addr2page, ppm_ppn2page, ppm_ppn2vma, ppm_vma2ppn. rewrite E, E2, !Z.add_simpl_r.
  rewrite (u32_small page), (u32_small (page * 0x1000)) by (unfold is_u32; lia).
  rewrite Esh, (u32_small (page + _)) by (unfold is_u32; lia). unfold PMM_PAGE_SHIFT.
  rewrite Z.shiftl_mul_pow2 by lia. change (2 ^ 12) with 0x1000.
  rewrite (u32_small (page * 0x1000)), (u32_small (page * 0x1000 + _)) by (unfold is_u32; lia). done.
Qed.

Lemma ppm_address_roundtrip_witness :
  ppm_addr2page (blank 0x40000 0x240000 0x80000000 0x80000000)
    (ppm_page2addr (blank 0x40000 0x240000 0x80000000 0x80000000) 7) = 7.
Proof.
  apply (ppm_address_roundtrip (blank 0x40000 0x240000 0x80000000 0x80000000) 7); vm_compute;
    congruence.
Defined.

(** The buddy search relies on whole blocks of the last order. On a cluster of 384
    pages, which is not a multiple of [2^PPM_LAST_ORDER], [ppm_init] inspects the descriptor
    of a buddy outside of the page table: [ppm_free_pages_nolock] does not compare the index
    of the buddy with [pages_nr]. *)
Theorem ppm_init_partial_block : ppm_init 0 0x180000 0 0 small_info = None.
Proof. vm_compute. reflexivity. Qed.
